(* ===== verification/_CoqProject ===== *)
-Q . S2P
Prelude.v
Opcodes.v
TreapCore.v
TicketTreap.v
Lottery.v
WireCommon.v
TicketDb.v
Compact.v
Compress.v
MsgTx.v
MsgBlock.v
Merkle.v
ScriptNum.v
ScriptStack.v
Script.v
StakeTx.v
ScriptBuild.v
StakeOut.v
Subsidy.v
ChainIO.v
UtxoView.v
ChainState.v
TxRules.v
BlockTree.v
BlockRules.v
StakeVersion.v
Voting.v
SigHash.v
Engine.v
EngineSafe.v
EngineStep.v
EngineSpec.v
EngineCond.v
EngineSpend.v
EngineP2PKH.v
StakeNode.v
StakeLog.v
StakeProofs.v
StakeChain.v
StakeProgress.v
StakeStore.v
StakeReorg.v
