(* ===== verification/Prelude.v ===== *)
(** * A verification development for hcashd

    hcashd is a full node of a hybrid proof-of-work and proof-of-stake currency.  This
    library models, as executable definitions, the parts of it that decide consensus: the
    ticket pools of the proof of stake, the script language that guards every output, the
    transactions and their encodings, and the formats in which these are stored; and proves
    what makes them correct.  Paths below are relative to the repository's sources.

    ** How the parts interact

    A block is connected to the chain by [blockchain].  For its proof of stake it asks the
    stake package ([blockchain/stake]) for the next stake node: the tickets that won the
    lottery vote, the others miss, old ones expire, new ones are bought.  The node keeps its
    three pools of tickets in treaps, draws winners with a generator seeded by the block
    header, and writes every change with undo data to the ticket database, from which the
    node is loaded at a restart and with which a block is disconnected in a reorganisation.
    The transactions of the block ([wire]) are hashed in parts, and each of their inputs
    runs a signature script and a public key script on the engine of [txscript], which
    checks signatures on digests of the transaction.  The header commits to the
    transactions through the roots of two Merkle trees.  Connecting a transaction spends
    outputs of the view of unspent outputs and adds its own; the spent ones go to the spend
    journal, with which a reorganisation restores them.  The outputs that remain unspent
    are stored compressed.  What a block may create is limited by the subsidy, and what a
    vote may pay by the commitments of its ticket.

    ** The files

    - [Prelude]: Go integers with their wrap-around, byte strings, the result type [res]
      (a value, an error or a panic), the state monad [stM] on it, and lemmas, tactics and
      hints that the components share.
    - [TreapCore], [TicketTreap]: [stake/internal/tickettreap] -- the immutable and the
      mutable treap and their parent stack.  [Put], [Delete], [Get], [Has], [ForEach] are
      the methods of the same names; the class [TicketPool] is what the rest of the stake
      package uses of them, and the immutable treap is its instance.
    - [Lottery]: [stake/lottery.go].
    - [TicketDb]: [stake/internal/ticketdb]; a database transaction is a finite map of
      buckets.
    - [StakeNode]: [stake/tickets.go], every method of the stake node.  [StakeLog] is its
      specification as a log of undo entries on finite maps, [StakeProofs] the refinement,
      [StakeChain] and [StakeProgress] the theorems about chains of nodes, [StakeStore] and
      [StakeReorg] those about the database along histories of connects, disconnects and
      restarts.
    - [WireCommon], [MsgTx]: [wire/common.go], [wire/blockheader.go], [wire/msgtx.go].
      Readers and writers of byte strings, block headers and transactions with their five
      serializations.
    - [Compact]: the targets and work of [blockchain/difficulty.go].
    - [Compress]: [blockchain/compress.go].
    - [MsgBlock]: [wire/msgblock.go], the operations of a block under the names of the
      methods with the prefix [block_] where transactions have a method of that name.
    - [Merkle]: [blockchain/merkle.go].
    - [StakeTx]: [stake/staketx.go], the tests for the three kinds of stake transaction,
      what is read out of them, and the rules for what votes and revocations pay.
    - [ScriptBuild]: [txscript/scriptbuilder.go] and the functions of [txscript/standard.go]
      that build scripts or read addresses out of them.  The class [Addresses] holds what
      they use of the address types, which are not in the sources, and [AddressLaws] what
      they rely on.  [StakeOut]: the functions of [stake/staketx.go] that use addresses.
    - [Subsidy]: [blockchain/subsidy.go] and the parameters of [chaincfg/params.go] that it
      reads.
    - [ChainIO]: the spend journal and the unspent output set of [blockchain/chainio.go]; a
      bucket of the database is a finite map from keys to byte strings.
    - [UtxoView]: [blockchain/utxoviewpoint.go]; the view is a record whose entries are a
      finite map from transaction hashes, and every method that changes it returns the new
      view.
    - [ChainState]: the block index, the database information, the best state and the
      stored threshold caches of [blockchain/chainio.go], with the caches themselves
      ([blockchain/thresholdstate.go]).
    - [TxRules], [BlockRules]: the rules of [blockchain/validate.go] for transactions and
      blocks, each check in a state of the view and the subsidy cache, with the node of a
      block and the fees of earlier blocks from [blockchain/chain.go].
    - [BlockTree]: the nodes of the block tree with the walks over them
      ([blockchain/chain.go]) and what they take from their blocks ([blockchain/accept.go]);
      the index is a finite map from hashes to nodes.  [StakeVersion]:
      [blockchain/stakeversion.go], whose computations pass the caches of [BlockChain] on
      even when they fail.  [Voting]: [blockchain/thresholdstate.go] and
      [blockchain/votebits.go]; the interface of a condition checker is a record of its
      methods, which [deploymentChecker] fills.
    - [Opcodes], [Script]: the opcode table and the parsed opcodes of [txscript/opcode.go],
      the parser of [txscript/script.go] and the classification of [txscript/standard.go].
    - [ScriptNum], [ScriptStack]: [txscript/scriptnum.go] and [txscript/stack.go].
    - [SigHash]: [calcSignatureHash] of [txscript/script.go] and [txscript/sigcache.go].
    - [Engine]: [txscript/engine.go] and the handlers of [txscript/opcode.go], one
      definition for each, under the source's name.  The stacks hold slices into a memory
      of arrays, because [append] in OP_CAT writes to memory that items share.  Reads,
      slices and divisions of the handlers, of the stacks and of the parser that a script
      is loaded with panic where those of Go do; in the parser the result [OutOfRange]
      stands for the panic.  The class [ScriptEnv] holds what the engine calls outside its
      package.
    - [EngineSafe], [EngineStep]: its invariant, panics and termination; [EngineCond],
      [EngineSpec], [EngineSpend], [EngineP2PKH]: what scripts compute.

    ** What is shown

    - The stake node: every reachable node satisfies the invariant of its pools and
      lottery; what a block does to each ticket; which blocks connect and with which errors
      the others fail; disconnecting undoes connecting; the database follows the node along
      every history, so that a restart and a reorganisation find what they need.
    - The treaps refine finite maps for all priorities; the lottery draws, for enough
      fuel, the first distinct positions of an unbiased generator.
    - The encodings: what is written is read back, and nothing else is read as it, for
      undo data, best states, variable length integers, headers, transactions, script
      numbers, compressed amounts, scripts and outputs; where the code loses information
      the theorem says what.
    - Blocks and what they commit to: blocks are read back from their serialization; the
      array of [BuildMerkleTreeStore] is the Merkle tree of its leaves, of the smallest
      depth that has room for them, and its root determines the transactions unless the hash function collides.
    - Scripts and addresses: what the builder makes parses to what was added; the script
      that pays to an address gives the address back, also behind a stake tag, except for
      the key types for which the code builds a script that is no stake output; tickets, votes and
      revocations made with the builders are recognized by the validators, which read out
      of them what was put in.
    - Money: connecting a transaction changes the value of all unspent outputs by exactly
      what it creates minus what it spends; the shares of the subsidy add up to at most the
      subsidy, all subsidies together to at most the limit of a geometric series, and the
      subsidy cache changes no result; a vote pays at most the ticket price and the
      subsidy, to the addresses that the ticket committed to.  A transaction that passes
      its checks connects and creates nothing beyond the subsidy of a vote.  A key block
      creates at most its subsidies, and the fees that its miner and those of later blocks
      may take are at most the fees that were paid; a micro block creates nothing, provided
      that its header claims no more voters than there are tickets, which the code does not
      check.
    - The records of the chain: the index of heights and hashes follows the main chain
      along every sequence of connected and disconnected blocks; the stored threshold caches
      are never of use, because of how they are written and compared.
    - Rule changes: the stake version of the next block and the state of a deployment are
      functions of the chain, which every node of the network computes alike, whatever
      else it knows, has computed before, has cached or flushed, and whatever order Go
      gives its maps; the state is the one that an inductive definition gives to the
      windows of key blocks; an active choice was voted for by a quorum in some window.
    - The unspent outputs: the journal and the entries are read back; disconnecting the
      transactions of a block restores the outputs that were unspent before it, except for
      the cases that the theorems name, in which the code does not restore them.
    - The engine: every state of a run is well-formed, which opcodes can panic and when,
      every run ends; conditionals implement structured branching; OP_CHECKMULTISIG
      accepts exactly an order-preserving match of signatures to keys, and fails when it
      needs a digest that does not exist; a
      pay-to-pubkey-hash output is spent exactly by a signature for its key; the cached
      transaction hash and the signature cache change no result.

    ** Parameters, bounds and fuel

    Hash functions, signature suites, the random priorities, the growth of slices by
    [append] and the order of iteration over Go maps are parameters; hypotheses about them
    (the lengths of hashes) are the classes and hypotheses of the theorems that need them,
    and their witnesses instantiate them.  The rejection loops of the lottery take fuel and
    the draw is shown to return with enough of it.  The loop of [Execute] has
    three times the maximal script length of rounds, which [EngineStep.engine_terminates]
    shows to be enough.  The search for the fees of earlier blocks has a round for each
    block below, which [BlockRules.extraFeesOf_ends] shows to be enough.  The walks over the block
    tree have a round for each block below and the search over the voting windows one for
    each key height, which [StakeVersion.stake_version_ends] and
    [Voting.deploymentState_ends] show to be enough.  Loops over lists and bytes are
    structural, and the parser has one round for each byte.

    ** What is not modelled

    Networking, remote procedure calls, the block database's files, the curves and
    signature schemes, logging and disassembly; of [blockchain], the choice of
    the best chain, the pruning of the block tree with the nodes that are loaded from the
    database again, the checks of a block against its stake node and its
    predecessors' headers, and the initialization of the chain; the mempool and mining.  Free lists of
    buffers and locks only affect performance and are left out; the theorems are about one
    caller. *)

From stdpp Require Export base list gmap strings numbers.
From Stdlib Require Export ZArith Lia.

#[global] Open Scope Z_scope.

Declare Scope go_scope.
Delimit Scope go_scope with go.

(** ** Fixed-width Go integers

    A Go integer is a [Z]; every operation that can leave its type's range is
    followed by the wrap-around of that type. *)

Definition u8 (x : Z) : Z := x mod 2 ^ 8.
Definition u16 (x : Z) : Z := x mod 2 ^ 16.
Definition u32 (x : Z) : Z := x mod 2 ^ 32.
Definition u64 (x : Z) : Z := x mod 2 ^ 64.
Definition i8 (x : Z) : Z := (x + 2 ^ 7) mod 2 ^ 8 - 2 ^ 7.
Definition i32 (x : Z) : Z := (x + 2 ^ 31) mod 2 ^ 32 - 2 ^ 31.
Definition i64 (x : Z) : Z := (x + 2 ^ 63) mod 2 ^ 64 - 2 ^ 63.

(** Go's truncated division and remainder on signed integers. *)
Definition go_quot (x y : Z) : Z := Z.quot x y.
Definition go_rem (x y : Z) : Z := Z.rem x y.

Notation "x +u32 y" := (u32 (x + y)) (at level 50, left associativity) : go_scope.
Notation "x -u32 y" := (u32 (x - y)) (at level 50, left associativity) : go_scope.
Notation "x *u32 y" := (u32 (x * y)) (at level 40, left associativity) : go_scope.
Notation "x +u64 y" := (u64 (x + y)) (at level 50, left associativity) : go_scope.
Notation "x -u64 y" := (u64 (x - y)) (at level 50, left associativity) : go_scope.
Notation "x *u64 y" := (u64 (x * y)) (at level 40, left associativity) : go_scope.
Notation "x +i64 y" := (i64 (x + y)) (at level 50, left associativity) : go_scope.
Notation "x -i64 y" := (i64 (x - y)) (at level 50, left associativity) : go_scope.
Notation "x *i64 y" := (i64 (x * y)) (at level 40, left associativity) : go_scope.

(** The ranges of the types, as propositions. *)
Definition is_u8 (x : Z) : Prop := 0 <= x < 2 ^ 8.
Definition is_u16 (x : Z) : Prop := 0 <= x < 2 ^ 16.
Definition is_u32 (x : Z) : Prop := 0 <= x < 2 ^ 32.
Definition is_u64 (x : Z) : Prop := 0 <= x < 2 ^ 64.
Definition is_i8 (x : Z) : Prop := - 2 ^ 7 <= x < 2 ^ 7.
Definition is_i32 (x : Z) : Prop := - 2 ^ 31 <= x < 2 ^ 31.
Definition is_i64 (x : Z) : Prop := - 2 ^ 63 <= x < 2 ^ 63.

Ltac unfold_ints :=
  unfold is_u8, is_u16, is_u32, is_u64, is_i8, is_i32, is_i64,
    u8, u16, u32, u64, i8, i32, i64 in *.

(** Arithmetic goals about machine integers: unfold the wraps, and let [lia]
    work on the quotients and remainders. *)
Ltac ilia := unfold_ints; Z.div_mod_to_equations; lia.

Create HintDb goint.

Lemma u8_range x : is_u8 (u8 x).
Proof. ilia. Qed.
Lemma u16_range x : is_u16 (u16 x).
Proof. ilia. Qed.
Lemma u32_range x : is_u32 (u32 x).
Proof. ilia. Qed.
Lemma u64_range x : is_u64 (u64 x).
Proof. ilia. Qed.
Lemma i32_range x : is_i32 (i32 x).
Proof. ilia. Qed.
Lemma i64_range x : is_i64 (i64 x).
Proof. ilia. Qed.

Lemma u8_small x : is_u8 x -> u8 x = x.
Proof. intros; apply Z.mod_small; assumption. Qed.
Lemma u16_small x : is_u16 x -> u16 x = x.
Proof. intros; apply Z.mod_small; assumption. Qed.
Lemma u32_small x : is_u32 x -> u32 x = x.
Proof. intros; apply Z.mod_small; assumption. Qed.
Lemma u64_small x : is_u64 x -> u64 x = x.
Proof. intros; apply Z.mod_small; assumption. Qed.
Lemma i32_small x : is_i32 x -> i32 x = x.
Proof. intros; ilia. Qed.
Lemma i64_small x : is_i64 x -> i64 x = x.
Proof. intros; ilia. Qed.

Lemma u64_add_u64 x y : u64 (u64 x + y) = u64 (x + y).
Proof. apply Zplus_mod_idemp_l. Qed.
Lemma u64_sub_u64 x y : u64 (u64 x - y) = u64 (x - y).
Proof. apply Zminus_mod_idemp_l. Qed.
Lemma i64_add_i64 x y : i64 (i64 x + y) = i64 (x + y).
Proof.
  unfold i64. f_equal.
  replace ((x + 2 ^ 63) mod 2 ^ 64 - 2 ^ 63 + y + 2 ^ 63)
    with ((x + 2 ^ 63) mod 2 ^ 64 + y) by lia.
  rewrite Zplus_mod_idemp_l. f_equal. lia.
Qed.

#[export] Hint Resolve u8_range u16_range u32_range u64_range i32_range i64_range : goint.
#[export] Hint Rewrite u64_add_u64 u64_sub_u64 i64_add_i64 : goint.
#[export] Hint Rewrite u8_small u16_small u32_small u64_small i32_small i64_small
  using (solve [assumption | ilia]) : gosmall.

(** ** Bits *)

Lemma testbit_small v n i : 0 <= v < 2 ^ n -> n <= i -> Z.testbit v i = false.
Proof.
  intros Hv Hi. destruct (Z.eq_dec v 0) as [->|]; [apply Z.bits_0|].
  apply Z.bits_above_log2; [lia|]. apply Z.log2_lt_pow2; [lia|].
  eapply Z.lt_le_trans; [apply Hv|]. destruct (Z.ltb_spec n 0).
  - rewrite Z.pow_neg_r in Hv by lia. lia.
  - apply Z.pow_le_mono_r; lia.
Qed.

Lemma lor_disjoint a b k : 0 <= k -> 0 <= b < 2 ^ k -> Z.lor (a * 2 ^ k) b = a * 2 ^ k + b.
Proof.
  intros Hk Hb. rewrite Z.add_nocarry_lxor; [symmetry; apply Z.lxor_lor|];
    (apply Z.bits_inj'; intros i Hi; rewrite Z.land_spec, Z.bits_0;
     destruct (Z.ltb_spec i k);
     [by rewrite Z.mul_pow2_bits_low by done
     |by rewrite (testbit_small b k i), andb_false_r by lia]).
Qed.

Lemma land_pow2 a k : 0 <= k -> Z.land a (2 ^ k) = ((a / 2 ^ k) mod 2) * 2 ^ k.
Proof.
  intros Hk. rewrite <- Z.testbit_spec' by done. apply Z.bits_inj'. intros i Hi.
  rewrite Z.land_spec. destruct (Z.eq_dec i k) as [->|Hne].
  - rewrite Z.pow2_bits_true, andb_true_r by done.
    destruct (Z.testbit a k); cbn [Z.b2z].
    + by rewrite Z.mul_1_l, Z.pow2_bits_true.
    + by rewrite Z.bits_0.
  - rewrite Z.pow2_bits_false, andb_false_r by lia.
    destruct (Z.testbit a k); cbn [Z.b2z].
    + by rewrite Z.mul_1_l, Z.pow2_bits_false by lia.
    + by rewrite Z.bits_0.
Qed.

(** ** Results

    A Go function that returns [(T, error)] is modelled by [res E T]: a value,
    an error of the component's error type, or a run-time panic (an index out
    of range, a nil dereference). *)

Inductive res (E A : Type) : Type :=
| Ok (a : A)
| Err (e : E)
| Panic.
Arguments Ok {E A} a.
Arguments Err {E A} e.
Arguments Panic {E A}.

#[export] Instance res_ret {E} : MRet (res E) := fun A a => Ok a.
#[export] Instance res_bind {E} : MBind (res E) := fun A B k m =>
  match m with
  | Ok a => k a
  | Err e => Err e
  | Panic => Panic
  end.

#[export] Instance res_fmap {E} : FMap (res E) := fun A B f m => a ← m; Ok (f a).

(** The same result with the error of another component. *)
Definition map_err {E F A} (f : E -> F) (m : res E A) : res F A :=
  match m with
  | Ok a => Ok a
  | Err e => Err (f e)
  | Panic => Panic
  end.

(** An [if cond { return err }] guard. *)
Definition guard_err {E} (bad : bool) (e : E) : res E unit :=
  if bad then Err e else Ok tt.

(** A read that panics when it is out of range. *)
Definition or_panic {E A} (o : option A) : res E A :=
  match o with Some a => Ok a | None => Panic end.

Lemma bind_Ok {E A B} (m : res E A) (k : A -> res E B) (b : B) :
  m ≫= k = Ok b <-> exists a, m = Ok a /\ k a = Ok b.
Proof. destruct m; cbn; naive_solver. Qed.

Lemma map_err_Ok {E F A} (f : E -> F) (m : res E A) a : map_err f m = Ok a <-> m = Ok a.
Proof. destruct m; cbn; naive_solver. Qed.

Lemma fmap_Ok {E A B} (f : A -> B) (m : res E A) b :
  f <$> m = Ok b <-> exists a, m = Ok a /\ b = f a.
Proof. destruct m; cbn; naive_solver. Qed.

Lemma bind_Ok_l {E A B} (a : A) (k : A -> res E B) : Ok a ≫= k = k a.
Proof. reflexivity. Qed.

Lemma bind_assoc {E A B C} (m : res E A) (f : A -> res E B) (g : B -> res E C) :
  (m ≫= f) ≫= g = m ≫= (fun a => f a ≫= g).
Proof. destruct m; reflexivity. Qed.

Lemma guard_err_Ok {E} b (e : E) u : guard_err b e = Ok u <-> b = false.
Proof. destruct b, u; cbn; naive_solver. Qed.

Lemma or_panic_Ok {E A} (o : option A) (a : A) :
  or_panic (E := E) o = Ok a <-> o = Some a.
Proof. destruct o; cbn; naive_solver. Qed.

(** Decompose every successful bind in the context. *)
Ltac inv_res :=
  repeat match goal with
  | H : mbind _ _ = Ok _ |- _ => apply bind_Ok in H; destruct H as (?&?&?)
  | H : guard_err _ _ = Ok _ |- _ => apply guard_err_Ok in H
  | H : or_panic _ = Ok _ |- _ => apply or_panic_Ok in H
  | H : map_err _ _ = Ok _ |- _ => apply map_err_Ok in H
  | H : fmap _ _ = Ok _ |- _ => apply fmap_Ok in H; destruct H as (?&?&?)
  | H : Ok _ = Ok _ |- _ => injection H as H
  | H : mret _ = Ok _ |- _ => injection H as H
  | H : Err _ = Ok _ |- _ => discriminate H
  | H : Panic = Ok _ |- _ => discriminate H
  end; subst.

(** A loop [for _, x := range l { ... return err ... }] over a state. *)
Fixpoint foldM {E S A} (f : S -> A -> res E S) (s : S) (l : list A) : res E S :=
  match l with
  | [] => Ok s
  | x :: l => s' ← f s x; foldM f s' l
  end.

Lemma foldM_app {E S A} (f : S -> A -> res E S) s l1 l2 :
  foldM f s (l1 ++ l2) = s' ← foldM f s l1; foldM f s' l2.
Proof.
  revert s; induction l1 as [|x l1 IH]; intros s; cbn; [reflexivity|].
  destruct (f s x); cbn; auto.
Qed.

(** The loop rule: an invariant that every iteration preserves. *)
Lemma foldM_inv {E S A} (P : S -> Prop) (f : S -> A -> res E S) l s s' :
  (forall s x s', In x l -> P s -> f s x = Ok s' -> P s') ->
  P s -> foldM f s l = Ok s' -> P s'.
Proof.
  revert s; induction l as [|x l IH]; intros s Hstep Hs H; cbn in H; inv_res; auto.
  eapply (IH _); [| |eassumption].
  - intros ? ? ? Hin. apply Hstep. right; done.
  - eapply Hstep; [left; done|eassumption..].
Qed.

(** ** Computations with a hidden source

    The treaps draw the priorities of new nodes from a package-level random
    source.  Code that inserts into treaps is a computation that threads the state
    of that source and may fail. *)

Definition stM (S E A : Type) : Type := S -> res E (A * S).

#[export] Instance stM_ret {S E} : MRet (stM S E) := fun A a s => Ok (a, s).
#[export] Instance stM_bind {S E} : MBind (stM S E) := fun A B k m s =>
  '(a, s') ← m s; k a s'.

(** A computation that does not touch the source. *)
Definition lift {S E A} (m : res E A) : stM S E A := fun s => a ← m; Ok (a, s).

Lemma stM_bind_Ok {S E A B} (m : stM S E A) (k : A -> stM S E B) s b s' :
  (m ≫= k) s = Ok (b, s') <-> exists a s1, m s = Ok (a, s1) /\ k a s1 = Ok (b, s').
Proof.
  unfold mbind, stM_bind. rewrite bind_Ok. split.
  - intros ([a s1] & H1 & H2). eauto.
  - intros (a & s1 & H1 & H2). exists (a, s1). eauto.
Qed.

Lemma lift_Ok {S E A} (m : res E A) (s s' : S) a :
  lift m s = Ok (a, s') <-> m = Ok a /\ s' = s.
Proof. unfold lift. rewrite bind_Ok. naive_solver. Qed.

Lemma stM_ret_Ok {S E A} (a b : A) (s s' : S) :
  mret (M := stM S E) a s = Ok (b, s') <-> a = b /\ s = s'.
Proof. unfold mret, stM_ret. naive_solver. Qed.

(** Run the first part of a computation. *)
Lemma stM_step {S E A B} (m : stM S E A) (k : A -> stM S E B) s a s' :
  m s = Ok (a, s') -> (m ≫= k) s = k a s'.
Proof. intros H. unfold mbind, stM_bind. by rewrite H. Qed.

Lemma stM_step_err {S E A B} (m : stM S E A) (k : A -> stM S E B) s e :
  m s = Err e -> (m ≫= k) s = Err e.
Proof. intros H. unfold mbind, stM_bind. by rewrite H. Qed.

Lemma stM_step_panic {S E A B} (m : stM S E A) (k : A -> stM S E B) s :
  m s = Panic -> (m ≫= k) s = Panic.
Proof. intros H. unfold mbind, stM_bind. by rewrite H. Qed.

Ltac inv_stM :=
  repeat match goal with
  | H : mbind _ _ _ = Ok (_, _) |- _ => apply stM_bind_Ok in H; destruct H as (?&?&?&?)
  | H : lift _ _ = Ok (_, _) |- _ => apply lift_Ok in H; destruct H as [? ->]
  | H : mret _ _ = Ok (_, _) |- _ => apply stM_ret_Ok in H; destruct H as [? ->]
  end; subst.

(** A [for range] loop over a state in such a computation. *)
Fixpoint foldS {S E X A} (f : X -> A -> stM S E X) (x : X) (l : list A) : stM S E X :=
  match l with
  | [] => mret x
  | a :: l => x' ← f x a; foldS f x' l
  end.

Lemma foldS_inv {S E X A} (P : X -> Prop) (f : X -> A -> stM S E X) l x s x' s' :
  (forall x a s x' s', In a l -> P x -> f x a s = Ok (x', s') -> P x') ->
  P x -> foldS f x l s = Ok (x', s') -> P x'.
Proof.
  revert x s; induction l as [|a l IH]; intros x s Hstep Hx H; cbn in H; inv_stM; [done|].
  eapply (IH _ _); [| |eassumption].
  - intros ? ? ? ? ? Hin. apply Hstep. right; done.
  - eapply Hstep; [left; done|eassumption..].
Qed.

(** ** Bytes

    A byte is a [Z] in [0, 256); a Go [[]byte] is a [list Z].  The integer
    layouts are those of [encoding/binary]. *)

Notation bytes := (list Z) (only parsing).

Definition is_bytes (l : bytes) : Prop := Forall is_u8 l.

Fixpoint put_le (n : nat) (x : Z) : bytes :=
  match n with
  | O => []
  | S n => x mod 256 :: put_le n (x / 256)
  end.

Fixpoint get_le (l : bytes) : Z :=
  match l with
  | [] => 0
  | b :: l => b + 256 * get_le l
  end.

Definition put_be (n : nat) (x : Z) : bytes := rev (put_le n x).
Definition get_be (l : bytes) : Z := get_le (rev l).

(** [bytes.Compare]: lexicographic order. *)
Fixpoint bytes_compare (a b : bytes) : comparison :=
  match a, b with
  | [], [] => Eq
  | [], _ :: _ => Lt
  | _ :: _, [] => Gt
  | x :: a, y :: b =>
      match x ?= y with
      | Eq => bytes_compare a b
      | c => c
      end
  end.

Lemma length_put_le n x : length (put_le n x) = n.
Proof. revert x; induction n; intros; cbn; auto. Qed.

Lemma put_le_bytes n x : is_bytes (put_le n x).
Proof.
  unfold is_bytes. revert x; induction n as [|n IH]; intros x; cbn; constructor.
  - apply (u8_range x).
  - apply IH.
Qed.

Lemma pow_256_succ n : 256 ^ Z.of_nat (S n) = 256 * 256 ^ Z.of_nat n.
Proof. rewrite Nat2Z.inj_succ, Z.pow_succ_r by lia. reflexivity. Qed.

Lemma get_put_le n x : get_le (put_le n x) = x mod 256 ^ Z.of_nat n.
Proof.
  revert x; induction n as [|n IH]; intros x; cbn [put_le get_le].
  - cbn. now rewrite Z.mod_1_r.
  - rewrite IH, pow_256_succ.
    rewrite (Z.rem_mul_r x 256) by (try apply Z.pow_nonzero; lia). reflexivity.
Qed.

Lemma get_le_range l : is_bytes l -> 0 <= get_le l < 256 ^ Z.of_nat (length l).
Proof.
  induction 1 as [|b l Hb Hl IH]; cbn [get_le length]; [cbn; lia|].
  rewrite pow_256_succ. unfold is_u8 in Hb. lia.
Qed.

Lemma put_get_le l : is_bytes l -> put_le (length l) (get_le l) = l.
Proof.
  induction 1 as [|b l Hb Hl IH]; cbn [get_le length put_le]; [reflexivity|].
  unfold is_u8 in Hb.
  assert (Hq : (b + 256 * get_le l) / 256 = get_le l)
    by (Z.div_mod_to_equations; lia).
  assert (Hr : (b + 256 * get_le l) mod 256 = b) by (Z.div_mod_to_equations; lia).
  congruence.
Qed.

Lemma length_put_be n x : length (put_be n x) = n.
Proof. unfold put_be. now rewrite length_rev, length_put_le. Qed.

Lemma put_be_bytes n x : is_bytes (put_be n x).
Proof. apply Forall_rev, put_le_bytes. Qed.

Lemma get_put_be n x : get_be (put_be n x) = x mod 256 ^ Z.of_nat n.
Proof. unfold get_be, put_be. now rewrite rev_involutive, get_put_le. Qed.

Lemma get_be_range l : is_bytes l -> 0 <= get_be l < 256 ^ Z.of_nat (length l).
Proof.
  intros H. unfold get_be. rewrite <- (length_rev l).
  apply get_le_range, Forall_rev, H.
Qed.

Lemma put_get_be l : is_bytes l -> put_be (length l) (get_be l) = l.
Proof.
  intros H. unfold put_be, get_be. rewrite <- (length_rev l), put_get_le.
  - apply rev_involutive.
  - apply Forall_rev, H.
Qed.

#[global] Arguments put_le : simpl never.
#[global] Arguments get_le : simpl never.

#[export] Hint Resolve put_le_bytes put_be_bytes : goint.
#[export] Hint Rewrite @length_app @length_rev length_put_le length_put_be : golen.

Lemma bytes_compare_refl a : bytes_compare a a = Eq.
Proof. induction a as [|x a IH]; cbn; [done|]. now rewrite Z.compare_refl. Qed.

Lemma bytes_compare_eq a b : bytes_compare a b = Eq <-> a = b.
Proof.
  split; [|intros ->; apply bytes_compare_refl].
  revert b; induction a as [|x a IH]; intros [|y b]; cbn; try done.
  destruct (Z.compare_spec x y); [subst|done|done].
  intros H. f_equal. auto.
Qed.

Lemma bytes_compare_antisym a b : bytes_compare b a = CompOpp (bytes_compare a b).
Proof.
  revert b; induction a as [|x a IH]; intros [|y b]; cbn; try done.
  rewrite (Z.compare_antisym x y). destruct (x ?= y); cbn; auto.
Qed.

Lemma bytes_compare_lt_trans a b c :
  bytes_compare a b = Lt -> bytes_compare b c = Lt -> bytes_compare a c = Lt.
Proof.
  revert b c; induction a as [|x a IH]; intros [|y b] [|z c]; cbn; try done.
  destruct (Z.compare_spec x y), (Z.compare_spec y z); subst; try done; intros.
  - rewrite Z.compare_refl. eauto.
  - destruct (Z.compare_spec y z); try lia; done.
  - destruct (Z.compare_spec x z); try lia; done.
  - destruct (Z.compare_spec x z); try lia; done.
Qed.

(** ** Slices

    Indexed stores and subslices that panic out of range, and loops that only check. *)

(** The assignment [l[i] = x]. *)
Definition assign {E A} (l : list A) (i : nat) (x : A) : res E (list A) :=
  if (i <? length l)%nat then Ok (<[i:=x]> l) else Panic.

(** [s[i]] for a signed index. *)
Definition index {E A} (s : list A) (i : Z) : res E A :=
  if i <? 0 then Panic else or_panic (s !! Z.to_nat i).

(** The slice [s[a:b]] of a slice without spare capacity. *)
Definition sub_slice {E A} (s : list A) (a b : nat) : res E (list A) :=
  if (a <=? b)%nat && (b <=? length s)%nat then Ok (take (b - a) (drop a s)) else Panic.

(** The same for signed bounds. *)
Definition z_slice {E A} (s : list A) (a b : Z) : res E (list A) :=
  if (a <? 0) || (b <? 0) then Panic else sub_slice s (Z.to_nat a) (Z.to_nat b).

(** A loop [for i, x := range l] whose body only returns errors, from index [i] on. *)
Fixpoint checkFrom {E A} (f : nat -> A -> res E unit) (i : nat) (l : list A) : res E unit :=
  match l with
  | [] => Ok tt
  | x :: l => f i x ≫= fun _ => checkFrom f (S i) l
  end.

Lemma assign_middle {E A} (pre post : list A) (x y : A) :
  assign (E := E) (pre ++ x :: post) (length pre) y = Ok (pre ++ y :: post).
Proof.
  unfold assign. rewrite length_app.
  destruct (Nat.ltb_spec (length pre) (length pre + length (x :: post))) as [_|H]; [|cbn in H; lia].
  rewrite insert_app_r_alt, Nat.sub_diag by lia. done.
Qed.

Lemma sub_slice_Ok {E A} (s : list A) a b : (a <= b <= length s)%nat ->
  sub_slice (E := E) s a b = Ok (take (b - a) (drop a s)).
Proof.
  intros H. unfold sub_slice.
  destruct (Nat.leb_spec a b), (Nat.leb_spec b (length s)); (done || lia).
Qed.

Lemma index_app {E A} (s : list A) x t : index (E := E) (s ++ x :: t) (Z.of_nat (length s)) = Ok x.
Proof.
  unfold index. destruct (Z.ltb_spec (Z.of_nat (length s)) 0); [lia|].
  rewrite Nat2Z.id, list_lookup_middle by done. done.
Qed.

Lemma index_Ok {E A} (s : list A) i : 0 <= i < Z.of_nat (length s) -> exists x, index (E := E) s i = Ok x.
Proof.
  intros H. unfold index. destruct (Z.ltb_spec i 0); [lia|].
  destruct (lookup_lt_is_Some_2 s (Z.to_nat i)) as [x Hx]; [lia|]. exists x. by rewrite Hx.
Qed.

Lemma z_slice_Ok {E A} (s : list A) a b : 0 <= a <= b -> b <= Z.of_nat (length s) ->
  z_slice (E := E) s a b = Ok (take (Z.to_nat b - Z.to_nat a) (drop (Z.to_nat a) s)).
Proof.
  intros H1 H2. unfold z_slice. destruct (Z.ltb_spec a 0), (Z.ltb_spec b 0); try lia.
  apply sub_slice_Ok. lia.
Qed.

Lemma z_slice_app {E A} (x y z : list A) a b : a = Z.of_nat (length x) -> b = a + Z.of_nat (length y) ->
  z_slice (E := E) (x ++ y ++ z) a b = Ok y.
Proof.
  intros -> ->. rewrite z_slice_Ok by (rewrite ?length_app; lia). f_equal.
  rewrite Nat2Z.id, drop_app_length.
  replace (Z.to_nat (Z.of_nat (length x) + Z.of_nat (length y)) - length x)%nat with (length y) by lia.
  apply take_app_length.
Qed.

Lemma length_sub_slice {E A} (s r : list A) a b :
  sub_slice (E := E) s a b = Ok r -> length r = (b - a)%nat.
Proof.
  unfold sub_slice. destruct (Nat.leb_spec a b), (Nat.leb_spec b (length s)); intros [= <-].
  rewrite length_take, length_drop. lia.
Qed.

Lemma checkFrom_Ok {E A} (f : nat -> A -> res E unit) i l :
  checkFrom f i l = Ok tt <-> forall k x, l !! k = Some x -> f (i + k)%nat x = Ok tt.
Proof.
  revert i. induction l as [|x l IH]; intros i; cbn; [done|]. rewrite bind_Ok. split.
  - intros ([] & Hx & Hl) [|k] y Hk; cbn in Hk; [rewrite Nat.add_0_r; congruence|].
    rewrite <- Nat.add_succ_comm. by apply (proj1 (IH _) Hl).
  - intros H. exists tt. split; [specialize (H 0%nat x eq_refl); by rewrite Nat.add_0_r in H|].
    apply IH. intros k y Hk. rewrite Nat.add_succ_comm. by apply H.
Qed.

Lemma checkFrom_no_panic {E A} (f : nat -> A -> res E unit) i l :
  (forall k x, l !! k = Some x -> f (i + k)%nat x <> Panic) -> checkFrom f i l <> Panic.
Proof.
  revert i. induction l as [|x l IH]; intros i H; cbn; [done|].
  specialize (H 0%nat x eq_refl) as H0. rewrite Nat.add_0_r in H0.
  destruct (f i x); cbn; [|done|done]. apply IH. intros k y Hk.
  rewrite Nat.add_succ_comm. by apply H.
Qed.
