(* ===== verification/TreapCore.v ===== *)
(** * The binary-search-tree core of the treaps

    [blockchain/stake/internal/tickettreap] (and, with another value type,
    [database/internal/treap]) keep key/value pairs in a treap: a binary search
    tree on the keys whose nodes also carry a random priority.  This file holds
    the node type, the loops the operations are made of, and the lemmas about
    them; the operations themselves are in [TicketTreap].

    A chain of node pointers is modelled by an inductive tree, [nil] by [Leaf].
    The parent stack that the loops of the code build while they walk down is
    modelled by a list of [frame]s, innermost first: a frame is the parent node
    with a hole on the side the walk took. *)

From S2P Require Import Prelude.
From stdpp Require Import sorting.
#[local] Open Scope Z_scope.

Section core.
Context {V : Type}.

(** [treapNode] *)
Inductive treapNode : Type :=
| Leaf
| Node (key : bytes) (value : V) (priority : Z) (left right : treapNode).

Inductive dir := GoLeft | GoRight.

Record frame := Frame {
  f_dir : dir;
  f_key : bytes;
  f_value : V;
  f_priority : Z;
  f_other : treapNode
}.

(** The parent node of [f] with [t] linked on the side of the hole. *)
Definition plug (t : treapNode) (f : frame) : treapNode :=
  match f_dir f with
  | GoLeft => Node (f_key f) (f_value f) (f_priority f) t (f_other f)
  | GoRight => Node (f_key f) (f_value f) (f_priority f) (f_other f) t
  end.

(** The root reached by following the parents upwards without rotations. *)
Definition rebuild (parents : list frame) (t : treapNode) : treapNode :=
  foldl plug t parents.

(** The lookup loop: the node that holds the key, or [nil]. *)
Fixpoint get_node (key : bytes) (node : treapNode) : treapNode :=
  match node with
  | Leaf => Leaf
  | Node k _ _ l r =>
      match bytes_compare key k with
      | Lt => get_node key l
      | Gt => get_node key r
      | Eq => node
      end
  end.

(** The descent of [Put] and [Delete]: the parents of the place of the key,
    and what is there. *)
Fixpoint descend (key : bytes) (node : treapNode) (parents : list frame)
    : list frame * treapNode :=
  match node with
  | Leaf => (parents, Leaf)
  | Node k v p l r =>
      match bytes_compare key k with
      | Lt => descend key l (Frame GoLeft k v p r :: parents)
      | Gt => descend key r (Frame GoRight k v p l :: parents)
      | Eq => (parents, node)
      end
  end.

(** The rotations of [Put]: the new node climbs while its priority is smaller
    than its parent's. *)
Fixpoint put_rotate (key : bytes) (value : V) (priority : Z)
    (left right : treapNode) (parents : list frame) : treapNode :=
  match parents with
  | [] => Node key value priority left right
  | f :: parents =>
      if priority >=? f_priority f
      then rebuild parents (plug (Node key value priority left right) f)
      else
        match f_dir f with
        | GoLeft =>
            put_rotate key value priority left
              (Node (f_key f) (f_value f) (f_priority f) right (f_other f)) parents
        | GoRight =>
            put_rotate key value priority
              (Node (f_key f) (f_value f) (f_priority f) (f_other f) left) right parents
        end
  end.

(** The rotations of [Delete]: the node to delete, whose children are [l] and
    [r], sinks below the child with the higher priority until it is a leaf,
    which is then unlinked.  The result is what stands in its place. *)
Fixpoint sink (l : treapNode) : treapNode -> treapNode :=
  fix sink_r (r : treapNode) : treapNode :=
    match l, r with
    | Leaf, Leaf => Leaf
    | Leaf, Node ck cv cp cl cr => Node ck cv cp (sink_r cl) cr
    | Node ck cv cp cl cr, Leaf => Node ck cv cp cl (sink cr Leaf)
    | Node lk lv lp ll lr, Node rk rv rp rl rr =>
        if lp >=? rp
        then Node lk lv lp ll (sink lr (Node rk rv rp rl rr))
        else Node rk rv rp (sink_r rl) rr
    end.

(** Number of nodes. *)
Fixpoint node_count (t : treapNode) : nat :=
  match t with
  | Leaf => 0
  | Node _ _ _ l r => S (node_count l + node_count r)
  end.

(** The in-order contents, the abstract value of a tree. *)
Fixpoint entries (t : treapNode) : list (bytes * V) :=
  match t with
  | Leaf => []
  | Node k v _ l r => entries l ++ (k, v) :: entries r
  end.

Definition klt (a b : bytes) : Prop := bytes_compare a b = Lt.

(** The search-tree invariant: the in-order keys strictly increase. *)
Definition bst (t : treapNode) : Prop := StronglySorted klt (entries t).*1.

(** The min-heap invariant on priorities. *)
Definition prio_above (p : Z) (t : treapNode) : Prop :=
  match t with
  | Leaf => True
  | Node _ _ q _ _ => p <= q
  end.

Fixpoint heap (t : treapNode) : Prop :=
  match t with
  | Leaf => True
  | Node _ _ p l r => prio_above p l /\ prio_above p r /\ heap l /\ heap r
  end.

(** The finite map a search tree represents. *)
Definition view (t : treapNode) : gmap (list Z) V := list_to_map (entries t).

(** ** Order *)

#[global] Instance klt_trans : Transitive klt.
Proof. intros a b c; apply bytes_compare_lt_trans. Qed.

Lemma klt_irrefl a : ~ klt a a.
Proof. unfold klt. now rewrite bytes_compare_refl. Qed.

Lemma compare_gt_klt a b : bytes_compare a b = Gt -> klt b a.
Proof. intros H. unfold klt. rewrite bytes_compare_antisym, H. reflexivity. Qed.

Lemma klt_sorted_NoDup l : StronglySorted klt l -> NoDup l.
Proof.
  induction 1 as [|x l Hl IH Hx]; constructor; auto.
  intros Hin. rewrite Forall_forall in Hx. exact (klt_irrefl x (Hx x Hin)).
Qed.

Lemma bst_NoDup t : bst t -> NoDup (entries t).*1.
Proof. apply klt_sorted_NoDup. Qed.

Lemma bst_node k v p l r :
  bst (Node k v p l r) <->
  bst l /\ bst r /\ (forall x, x ∈ (entries l).*1 -> klt x k) /\
  (forall x, x ∈ (entries r).*1 -> klt k x).
Proof.
  unfold bst; cbn. rewrite fmap_app, fmap_cons, StronglySorted_app; cbn.
  rewrite StronglySorted_cons, Forall_forall. split.
  - intros (H1 & Hl & H2 & Hr). repeat split; auto.
    intros x Hx. apply H1; [done|left].
  - intros (Hl & Hr & H1 & H2). repeat split; auto.
    intros x1 x2 Hx1 Hx2. apply elem_of_cons in Hx2 as [->|Hx2]; auto.
    etransitivity; eauto.
Qed.

Lemma length_entries t : length (entries t) = node_count t.
Proof.
  induction t as [|k v p l IHl r IHr]; cbn; [done|].
  rewrite length_app; cbn. lia.
Qed.

(** ** Lookup *)

Lemma view_node k v p l r :
  bst (Node k v p l r) -> view (Node k v p l r) = <[k := v]> (view l ∪ view r).
Proof.
  intros H. unfold view; cbn.
  rewrite (list_to_map_proper _ ((k, v) :: entries l ++ entries r)).
  - cbn. now rewrite list_to_map_app.
  - now apply bst_NoDup in H.
  - symmetry. apply Permutation_middle.
Qed.

Lemma view_None t x : view t !! x = None <-> x ∉ (entries t).*1.
Proof. symmetry. apply not_elem_of_list_to_map. Qed.

Lemma view_lt_None k t : (forall x, x ∈ (entries t).*1 -> klt x k) ->
  forall x, x = k \/ klt k x -> view t !! x = None.
Proof.
  intros H x Hx. apply view_None. intros Hin. apply H in Hin.
  apply (klt_irrefl x). destruct Hx as [->|Hx]; [done|by etransitivity].
Qed.

Lemma view_gt_None k t : (forall x, x ∈ (entries t).*1 -> klt k x) ->
  forall x, x = k \/ klt x k -> view t !! x = None.
Proof.
  intros H x Hx. apply view_None. intros Hin. apply H in Hin.
  apply (klt_irrefl x). destruct Hx as [->|Hx]; [done|by etransitivity].
Qed.

Definition node_value (t : treapNode) : option V :=
  match t with Leaf => None | Node _ v _ _ _ => Some v end.

Lemma get_node_view key t : bst t -> node_value (get_node key t) = view t !! key.
Proof.
  induction t as [|k v p l IHl r IHr]; intros Hb; cbn [get_node]; [done|].
  rewrite view_node by done. apply bst_node in Hb as (Hl & Hr & H1 & H2).
  destruct (bytes_compare key k) eqn:E.
  - apply bytes_compare_eq in E as ->. cbn. by rewrite lookup_insert_eq.
  - rewrite lookup_insert_ne, lookup_union_l, IHl; [done..| |].
    + eapply view_gt_None; eauto.
    + intros ->. exact (klt_irrefl _ E).
  - apply compare_gt_klt in E. rewrite lookup_insert_ne, lookup_union_r, IHr; [done..| |].
    + eapply view_lt_None; eauto.
    + intros ->. exact (klt_irrefl _ E).
Qed.

(** ** The walk down and the way back up *)

Fixpoint lefts (parents : list frame) : list (bytes * V) :=
  match parents with
  | [] => []
  | f :: ps =>
      lefts ps ++
      match f_dir f with
      | GoLeft => []
      | GoRight => entries (f_other f) ++ [(f_key f, f_value f)]
      end
  end.

Fixpoint rights (parents : list frame) : list (bytes * V) :=
  match parents with
  | [] => []
  | f :: ps =>
      match f_dir f with
      | GoLeft => (f_key f, f_value f) :: entries (f_other f)
      | GoRight => []
      end ++ rights ps
  end.

Lemma entries_rebuild ps t : entries (rebuild ps t) = lefts ps ++ entries t ++ rights ps.
Proof.
  revert t; induction ps as [|[[] k v p o] ps IH]; intros t; cbn.
  - now rewrite app_nil_r.
  - unfold rebuild in IH. rewrite IH; cbn. now rewrite app_nil_r, <- !app_assoc.
  - unfold rebuild in IH. rewrite IH; cbn. rewrite <- !app_assoc. done.
Qed.

Lemma descend_rebuild key t ps ps' n :
  descend key t ps = (ps', n) -> rebuild ps' n = rebuild ps t.
Proof.
  revert ps; induction t as [|k v p l IHl r IHr]; intros ps H; cbn in H; [by simplify_eq|].
  destruct (bytes_compare key k).
  - by simplify_eq.
  - apply IHl in H. exact H.
  - apply IHr in H. exact H.
Qed.

Lemma descend_found key t ps : snd (descend key t ps) = get_node key t.
Proof.
  revert ps; induction t as [|k v p l IHl r IHr]; intros ps; cbn; [done|].
  destruct (bytes_compare key k); cbn; auto.
Qed.

Lemma get_node_key key t k v p l r : get_node key t = Node k v p l r -> k = key.
Proof.
  induction t as [|k' v' p' l' IHl r' IHr]; cbn; [done|].
  destruct (bytes_compare key k') eqn:E; auto.
  apply bytes_compare_eq in E. intros; simplify_eq. done.
Qed.

(** The key separates what lies on the two sides of the path. *)
Definition separates (key : bytes) (ps : list frame) : Prop :=
  (forall x, x ∈ (lefts ps).*1 -> klt x key) /\ (forall x, x ∈ (rights ps).*1 -> klt key x).

Lemma descend_separates key t ps ps' n :
  bst t -> separates key ps -> descend key t ps = (ps', n) -> separates key ps'.
Proof.
  revert ps; induction t as [|k v p l IHl r IHr]; intros ps Hb Hs H; cbn in H; [by simplify_eq|].
  apply bst_node in Hb as (Hl & Hr & H1 & H2). destruct Hs as [Hs1 Hs2].
  destruct (bytes_compare key k) eqn:E; [by simplify_eq|..].
  - eapply IHl; [done| |done]. split; cbn.
    + rewrite app_nil_r. done.
    + intros x [->|Hx]%elem_of_cons; [done|].
      rewrite fmap_app, elem_of_app in Hx. destruct Hx as [Hx|Hx]; auto.
      etransitivity; [exact E|auto].
  - apply compare_gt_klt in E. eapply IHr; [done| |done]. split; cbn; [|done].
    intros x. rewrite !fmap_app, !elem_of_app. intros [Hx|[Hx|Hx]]; auto.
    + etransitivity; [|exact E]. auto.
    + apply list_elem_of_singleton in Hx as ->. done.
Qed.

Lemma separates_nil key : separates key [].
Proof. split; intros x Hx; inversion Hx. Qed.

(** ** Insertion *)

Lemma entries_put_rotate key v p l r ps :
  entries (put_rotate key v p l r ps) =
  lefts ps ++ (entries l ++ (key, v) :: entries r) ++ rights ps.
Proof.
  revert l r; induction ps as [|[[] k' v' p' o] ps IH]; intros l r; cbn.
  - now rewrite app_nil_r.
  - destruct (p >=? p'); [rewrite entries_rebuild|rewrite IH]; cbn;
      rewrite ?app_nil_r, <- ?app_assoc; cbn; rewrite <- ?app_assoc; done.
  - destruct (p >=? p'); [rewrite entries_rebuild|rewrite IH]; cbn;
      rewrite <- ?app_assoc; cbn; rewrite <- ?app_assoc; done.
Qed.

(** The sorted contents with the pair put in its place. *)
Lemma sorted_insert_between (key : bytes) (A B : list bytes) :
  StronglySorted klt (A ++ B) -> (forall x, x ∈ A -> klt x key) ->
  (forall x, x ∈ B -> klt key x) -> StronglySorted klt (A ++ key :: B).
Proof.
  rewrite !StronglySorted_app, StronglySorted_cons, Forall_forall.
  intros (H & HA & HB) H1 H2. repeat split; auto.
  intros x1 x2 Hx1 [->|Hx2]%elem_of_cons; auto.
Qed.

Lemma sorted_remove_between (key : bytes) (A B : list bytes) :
  StronglySorted klt (A ++ key :: B) -> StronglySorted klt (A ++ B).
Proof.
  rewrite !StronglySorted_app, StronglySorted_cons. intros (H & HA & _ & HB).
  repeat split; auto. intros x1 x2 Hx1 Hx2. apply H; [done|by right].
Qed.

Section insert_new.
Context (key : bytes) (v : V) (p : Z) (t : treapNode) (ps : list frame).
Hypothesis Hb : bst t.
Hypothesis Hd : descend key t [] = (ps, Leaf).

Lemma insert_new_entries : entries t = lefts ps ++ rights ps.
Proof. apply descend_rebuild in Hd. cbn in Hd. by rewrite <- Hd, entries_rebuild. Qed.

Lemma insert_new_separates : separates key ps.
Proof. eapply descend_separates; eauto using separates_nil. Qed.

Lemma insert_new_bst : bst (put_rotate key v p Leaf Leaf ps).
Proof.
  destruct insert_new_separates as [H1 H2]. unfold bst in *.
  rewrite insert_new_entries in Hb. rewrite entries_put_rotate; cbn.
  rewrite fmap_app in *. by apply sorted_insert_between.
Qed.

Lemma insert_new_view : view (put_rotate key v p Leaf Leaf ps) = <[key := v]> (view t).
Proof.
  unfold view. rewrite entries_put_rotate, insert_new_entries; cbn.
  rewrite (list_to_map_proper _ ((key, v) :: lefts ps ++ rights ps)).
  - done.
  - pose proof insert_new_bst as H. apply bst_NoDup in H.
    by rewrite entries_put_rotate in H.
  - symmetry. apply Permutation_middle.
Qed.

Lemma insert_new_size : node_count (put_rotate key v p Leaf Leaf ps) = S (node_count t).
Proof.
  rewrite <- !length_entries, entries_put_rotate, insert_new_entries; cbn.
  rewrite !length_app; cbn. lia.
Qed.

Lemma insert_new_absent : view t !! key = None.
Proof.
  rewrite <- get_node_view, <- (descend_found key t []), Hd by done. done.
Qed.
End insert_new.

Section found.
Context (key : bytes) (t : treapNode) (ps : list frame).
Context (k : bytes) (v0 : V) (p0 : Z) (l r : treapNode).
Hypothesis Hb : bst t.
Hypothesis Hd : descend key t [] = (ps, Node k v0 p0 l r).

Lemma found_key : k = key.
Proof. eapply get_node_key. rewrite <- (descend_found key t []), Hd. done. Qed.

Lemma found_entries :
  entries t = lefts ps ++ (entries l ++ (key, v0) :: entries r) ++ rights ps.
Proof.
  pose proof Hd as H. apply descend_rebuild in H. cbn in H.
  rewrite <- H, entries_rebuild; cbn. by rewrite found_key.
Qed.

Lemma found_lookup : view t !! key = Some v0.
Proof. rewrite <- get_node_view, <- (descend_found key t []), Hd by done. done. Qed.

Lemma found_keys v :
  (entries (rebuild ps (Node k v p0 l r))).*1 = (entries t).*1.
Proof.
  rewrite found_entries, entries_rebuild; cbn. rewrite found_key.
  rewrite !fmap_app; cbn. done.
Qed.

Lemma replace_bst v : bst (rebuild ps (Node k v p0 l r)).
Proof. unfold bst. by rewrite found_keys. Qed.

Lemma replace_view v : view (rebuild ps (Node k v p0 l r)) = <[key := v]> (view t).
Proof.
  pose proof (replace_bst v) as Hv. apply bst_NoDup in Hv.
  pose proof (bst_NoDup _ Hb) as Ht. unfold view.
  rewrite found_entries in *. rewrite entries_rebuild in *; cbn in *.
  rewrite found_key in *.
  rewrite (list_to_map_proper _
    ((key, v) :: lefts ps ++ (entries l ++ entries r) ++ rights ps)) by
    (done || solve_Permutation).
  rewrite (list_to_map_proper (lefts ps ++ (entries l ++ (key, v0) :: entries r) ++ rights ps)
    ((key, v0) :: lefts ps ++ (entries l ++ entries r) ++ rights ps)) by
    (done || solve_Permutation).
  cbn. by rewrite insert_insert_eq.
Qed.

Lemma replace_size v : node_count (rebuild ps (Node k v p0 l r)) = node_count t.
Proof.
  rewrite <- !length_entries, <- (length_fmap fst), found_keys, length_fmap. done.
Qed.
End found.

(** ** The min-heap *)

Definition top_prio (ps : list frame) (t : treapNode) : Prop :=
  match ps with
  | [] => True
  | f :: _ => prio_above (f_priority f) t
  end.

Fixpoint heap_path (ps : list frame) : Prop :=
  match ps with
  | [] => True
  | f :: ps =>
      prio_above (f_priority f) (f_other f) /\ heap (f_other f) /\
      top_prio ps (Node (f_key f) (f_value f) (f_priority f) Leaf Leaf) /\ heap_path ps
  end.

Lemma heap_rebuild ps t : heap (rebuild ps t) <-> heap t /\ top_prio ps t /\ heap_path ps.
Proof.
  revert t; induction ps as [|[[] k v p o] ps IH]; intros t.
  - cbn; naive_solver.
  - change (rebuild (Frame GoLeft k v p o :: ps) t) with (rebuild ps (Node k v p t o)).
    rewrite IH. destruct ps; cbn; naive_solver.
  - change (rebuild (Frame GoRight k v p o :: ps) t) with (rebuild ps (Node k v p o t)).
    rewrite IH. destruct ps; cbn; naive_solver.
Qed.

Lemma prio_above_le p q t : p <= q -> prio_above q t -> prio_above p t.
Proof. destruct t; cbn; lia. Qed.

Lemma heap_put_rotate key v p l r ps :
  heap (Node key v p l r) -> top_prio ps l -> top_prio ps r -> heap_path ps ->
  heap (put_rotate key v p l r ps).
Proof.
  revert l r; induction ps as [|[d k' v' p' o] ps IH]; intros l r Hn Hl Hr Hps; [done|].
  cbn in Hl, Hr, Hps. destruct Hps as (Ho1 & Ho2 & Htop & Hps). cbn [put_rotate f_priority].
  destruct (Z.geb_spec p p') as [Hge|Hlt].
  - apply heap_rebuild. destruct d, ps; cbn in *; naive_solver lia.
  - destruct Hn as (? & ? & ? & ?).
    destruct d; (apply IH; [cbn; repeat split; auto; lia| | |done]);
      destruct ps as [|g ps]; cbn in *; eauto using prio_above_le.
Qed.

(** ** Deletion *)

Lemma entries_sink l r : entries (sink l r) = entries l ++ entries r.
Proof.
  revert r; induction l as [|lk lv lp ll IHll lr IHlr]; intros r.
  - induction r as [|rk rv rp rl IHrl rr IHrr]; cbn in *; [done|]. by rewrite IHrl.
  - induction r as [|rk rv rp rl IHrl rr IHrr]; cbn in *.
    + rewrite IHlr; cbn. by rewrite !app_nil_r.
    + destruct (lp >=? rp); cbn [entries].
      * rewrite IHlr; cbn. by rewrite <- app_assoc.
      * rewrite IHrl, <- !app_assoc; cbn. by rewrite <- ?app_assoc.
Qed.

Section delete_found.
Context (key : bytes) (t : treapNode) (ps : list frame).
Context (k : bytes) (v0 : V) (p0 : Z) (l r : treapNode).
Hypothesis Hb : bst t.
Hypothesis Hd : descend key t [] = (ps, Node k v0 p0 l r).

Lemma delete_found_perm : entries t ≡ₚ (key, v0) :: entries (rebuild ps (sink l r)).
Proof.
  rewrite (found_entries key t ps k v0 p0 l r Hd), entries_rebuild, entries_sink.
  solve_Permutation.
Qed.

Lemma delete_found_bst : bst (rebuild ps (sink l r)).
Proof.
  unfold bst in *. rewrite (found_entries key t ps k v0 p0 l r Hd) in Hb.
  rewrite entries_rebuild, entries_sink.
  rewrite <- !app_assoc, app_assoc, fmap_app in Hb.
  rewrite <- app_assoc, app_assoc, fmap_app. cbn in Hb.
  eapply sorted_remove_between, Hb.
Qed.

Lemma delete_found_view : view (rebuild ps (sink l r)) = delete key (view t).
Proof.
  unfold view. rewrite (list_to_map_proper (entries t) _ (bst_NoDup t Hb) delete_found_perm).
  cbn. rewrite delete_insert_id; [done|].
  pose proof (bst_NoDup t Hb) as Hnd. rewrite delete_found_perm in Hnd.
  cbn in Hnd. apply NoDup_cons in Hnd as [Hni _].
  by apply not_elem_of_list_to_map_1.
Qed.

Lemma delete_found_size : S (node_count (rebuild ps (sink l r))) = node_count t.
Proof.
  rewrite <- !length_entries. pose proof delete_found_perm as H.
  apply Permutation_length in H. cbn in H. done.
Qed.
End delete_found.

(** ** In-order traversal

    [ForEach] keeps a stack of the nodes still to visit: it pushes a node and
    all its left descendants, and after visiting a node continues with its right
    child.  The callback is a closure over mutable variables: it takes and
    returns their values, together with the "keep going" flag. *)

Fixpoint push_left (node : treapNode) (parents : list treapNode) : list treapNode :=
  match node with
  | Leaf => parents
  | Node _ _ _ l _ => push_left l (node :: parents)
  end.

Context {S : Type}.

Fixpoint foreach_loop (fuel : nat) (fn : S -> bytes -> V -> S * bool) (s : S)
    (parents : list treapNode) : option S :=
  match parents with
  | [] => Some s
  | Leaf :: _ => None
  | Node k v _ _ r :: parents =>
      match fuel with
      | O => None
      | Datatypes.S fuel =>
          let '(s', continue) := fn s k v in
          if continue then foreach_loop fuel fn s' (push_left r parents)
          else Some s'
      end
  end.

(** The reference: the callback applied to the in-order pairs. *)
Fixpoint visit (fn : S -> bytes -> V -> S * bool) (s : S) (l : list (bytes * V)) : S :=
  match l with
  | [] => s
  | (k, v) :: l =>
      let '(s', continue) := fn s k v in
      if continue then visit fn s' l else s'
  end.

(** What the stack still holds, in visiting order. *)
Fixpoint pending (parents : list treapNode) : list (bytes * V) :=
  match parents with
  | [] => []
  | Leaf :: ps => pending ps
  | Node k v _ _ r :: ps => (k, v) :: entries r ++ pending ps
  end.

Definition is_node (t : treapNode) : Prop := t <> Leaf.

Lemma push_left_pending t ps : pending (push_left t ps) = entries t ++ pending ps.
Proof.
  revert ps; induction t as [|k v p l IHl r IHr]; intros ps; cbn; [done|].
  rewrite IHl; cbn. by rewrite <- app_assoc.
Qed.

Lemma push_left_nodes t ps : Forall is_node ps -> Forall is_node (push_left t ps).
Proof.
  revert ps; induction t as [|k v p l IHl r IHr]; intros ps H; cbn; [done|].
  apply IHl. constructor; done.
Qed.

Lemma foreach_loop_visit fuel fn s ps :
  Forall is_node ps -> (length (pending ps) <= fuel)%nat ->
  foreach_loop fuel fn s ps = Some (visit fn s (pending ps)).
Proof.
  revert s ps; induction fuel as [|fuel IH]; intros s [|[|k v p l r] ps] Hn Hf; cbn in *;
    try done; try lia; try (by inversion Hn).
  destruct (fn s k v) as [s' []]; [|done].
  rewrite IH, push_left_pending; [done|apply push_left_nodes; by inversion Hn|].
  rewrite push_left_pending. lia.
Qed.

End core.

Arguments treapNode : clear implicits.
Arguments frame : clear implicits.
