(* ===== verification/TicketTreap.v ===== *)
(** * The ticket treap

    [blockchain/stake/internal/tickettreap]: the parent stack ([common.go]), the
    immutable treap ([immutable.go]) and the mutable treap ([mutable.go]).

    The priority of a new node is the value [rng.Int()] returned, an argument of
    [Put] here.  [*Value] arguments that may be [nil] are [option Value]. *)

From S2P Require Import Prelude TreapCore.
From stdpp Require Import sorting.
#[local] Open Scope Z_scope.

(** ** The parent stack *)

Module ParentStack.
Section stack.
Context {A : Type}.

Definition staticDepth : Z := 128.

(** A slot holds [None] for the nil pointer.  [overflow] is a slice made with
    [make], so its capacity is its length. *)
Record parentStack := {
  index : Z;
  items : list (option A);
  overflow : list (option A)
}.

(** [var parents parentStack] *)
Definition empty : parentStack :=
  {| index := 0; items := replicate (Z.to_nat staticDepth) None; overflow := [] |}.

(** Indexing an array or a slice: out of range panics. *)
Definition slot (l : list (option A)) (i : Z) : option (option A) :=
  if i <? 0 then None else l !! Z.to_nat i.

Definition Len (s : parentStack) : Z := index s.

Definition At (s : parentStack) (n : Z) : option (option A) :=
  let i := index s - n - 1 in
  if i <? 0 then Some None
  else if i <? staticDepth then slot (items s) i
  else slot (overflow s) (i - staticDepth).

Definition Pop (s : parentStack) : option (option A * parentStack) :=
  if index s =? 0 then Some (None, s)
  else
    let i := index s - 1 in
    if i <? staticDepth
    then
      node ← slot (items s) i;
      Some (node, {| index := i; items := <[Z.to_nat i := None]> (items s);
                     overflow := overflow s |})
    else
      node ← slot (overflow s) (i - staticDepth);
      Some (node, {| index := i; items := items s;
                     overflow := <[Z.to_nat (i - staticDepth) := None]> (overflow s) |}).

Definition Push (s : parentStack) (node : A) : option parentStack :=
  if index s <? staticDepth
  then
    _ ← slot (items s) (index s);
    Some {| index := index s + 1; items := <[Z.to_nat (index s) := Some node]> (items s);
            overflow := overflow s |}
  else
    let i := index s - staticDepth in
    let cap := Z.of_nat (length (overflow s)) in
    let grown :=
      if i + 1 >? cap
      then overflow s ++ replicate (Z.to_nat (i + 1) - length (overflow s)) None
      else overflow s in
    _ ← slot grown i;
    Some {| index := index s + 1; items := items s;
            overflow := <[Z.to_nat i := Some node]> grown |}.

(** The stack [l] (top first) that a [parentStack] stands for. *)
Definition represents (s : parentStack) (l : list A) : Prop :=
  index s = Z.of_nat (length l) /\
  Z.of_nat (length (items s)) = staticDepth /\
  index s - staticDepth <= Z.of_nat (length (overflow s)) /\
  forall i a, reverse l !! i = Some a ->
    (if Z.of_nat i <? staticDepth then items s !! i
     else overflow s !! (i - Z.to_nat staticDepth)%nat) = Some (Some a).

Lemma empty_represents : represents empty [].
Proof.
  split; [done|]. split; [done|]. split; [done|]. intros i a H. done.
Qed.

Lemma slot_ok l i : 0 <= i -> slot l i = l !! Z.to_nat i.
Proof. intros H. unfold slot. destruct (Z.ltb_spec i 0); [lia|done]. Qed.

Lemma represents_lookup s l i a :
  represents s l -> reverse l !! i = Some a ->
  (if Z.of_nat i <? staticDepth then slot (items s) (Z.of_nat i)
   else slot (overflow s) (Z.of_nat i - staticDepth)) = Some (Some a).
Proof.
  intros (_ & _ & _ & H) Hi. specialize (H i a Hi). unfold staticDepth in *.
  destruct (Z.ltb_spec (Z.of_nat i) 128); rewrite slot_ok by lia.
  - by rewrite Nat2Z.id.
  - rewrite <- H. f_equal. lia.
Qed.

Lemma At_represents s l n :
  represents s l -> 0 <= n -> At s n = Some (l !! Z.to_nat n).
Proof.
  intros Hr Hn. unfold At. pose proof Hr as (Hi & _ & _ & _). rewrite Hi.
  destruct (Z.ltb_spec (Z.of_nat (length l) - n - 1) 0) as [Hlt|Hge].
  - rewrite lookup_ge_None_2 by lia. done.
  - set (j := (length l - 1 - Z.to_nat n)%nat).
    destruct (l !! Z.to_nat n) as [a|] eqn:E;
      [|apply lookup_ge_None_1 in E; lia].
    assert (Hrev : reverse l !! j = Some a).
    { rewrite reverse_lookup by lia. rewrite <- E. f_equal. lia. }
    pose proof (represents_lookup s l j a Hr Hrev) as H.
    replace (Z.of_nat (length l) - n - 1) with (Z.of_nat j) by lia. exact H.
Qed.

Lemma Push_represents s l a :
  represents s l -> exists s', Push s a = Some s' /\ represents s' (a :: l).
Proof.
  intros (Hi & Hlen & Hov & H). unfold Push. unfold staticDepth in *.
  destruct (Z.ltb_spec (index s) 128) as [Hs|Hs].
  - rewrite slot_ok by lia.
    destruct (items s !! Z.to_nat (index s)) eqn:E;
      [|apply lookup_ge_None_1 in E; lia]. cbn.
    eexists; split; [done|].
    unfold represents; cbn [index items overflow length]; split_and!.
    + lia.
    + by rewrite length_insert.
    + unfold staticDepth. lia.
    + intros i b. rewrite reverse_cons, lookup_snoc_Some, length_reverse. unfold staticDepth.
      intros [[Hlt Hb]|[-> ->]].
      * destruct (Z.ltb_spec (Z.of_nat i) 128); [|lia].
        rewrite list_lookup_insert_ne by lia.
        specialize (H i b Hb). destruct (Z.ltb_spec (Z.of_nat i) 128); [done|lia].
      * destruct (Z.ltb_spec (Z.of_nat (length l)) 128); [|lia].
        rewrite Hi, Nat2Z.id. apply list_lookup_insert_eq. lia.
  - set (g := if index s - 128 + 1 >? Z.of_nat (length (overflow s)) then _ else _).
    assert (Hg : index s - 128 + 1 <= Z.of_nat (length g)).
    { unfold g. rewrite Z.gtb_ltb.
      destruct (Z.ltb_spec (Z.of_nat (length (overflow s))) (index s - 128 + 1)); [|lia].
      rewrite length_app, length_replicate. lia. }
    assert (Hpre : forall j x, overflow s !! j = Some x -> g !! j = Some x).
    { unfold g. intros j x Hj. destruct (_ >? _); [|done].
      by apply lookup_app_l_Some. }
    rewrite slot_ok by lia.
    destruct (g !! Z.to_nat (index s - 128)) eqn:E;
      [|apply lookup_ge_None_1 in E; lia]. cbn.
    eexists; split; [done|].
    unfold represents; cbn [index items overflow length]; split_and!.
    + lia.
    + done.
    + unfold staticDepth. rewrite length_insert. lia.
    + intros i b. rewrite reverse_cons, lookup_snoc_Some, length_reverse. unfold staticDepth.
      intros [[Hlt Hb]|[-> ->]].
      * specialize (H i b Hb). destruct (Z.ltb_spec (Z.of_nat i) 128); [done|].
        rewrite list_lookup_insert_ne by lia. by apply Hpre.
      * destruct (Z.ltb_spec (Z.of_nat (length l)) 128); [lia|].
        replace (length l - Z.to_nat 128)%nat with (Z.to_nat (index s - 128)) by lia.
        apply list_lookup_insert_eq. lia.
Qed.

Lemma Pop_nil s : represents s [] -> Pop s = Some (None, s).
Proof. intros (Hi & _). unfold Pop. by rewrite Hi. Qed.

Lemma Pop_represents s a l :
  represents s (a :: l) -> exists s', Pop s = Some (Some a, s') /\ represents s' l.
Proof.
  intros Hr. pose proof Hr as (Hi & Hlen & Hov & H). cbn in Hi.
  assert (Ha : reverse (a :: l) !! length l = Some a)
    by (rewrite reverse_cons; apply lookup_snoc_Some; right; by rewrite length_reverse).
  pose proof (represents_lookup s (a :: l) (length l) a Hr Ha) as Hslot.
  unfold Pop. unfold staticDepth in *. destruct (Z.eqb_spec (index s) 0); [lia|].
  replace (index s - 1) with (Z.of_nat (length l)) by lia.
  assert (Hold : forall i b, reverse l !! i = Some b ->
    (if Z.of_nat i <? 128 then items s !! i
     else overflow s !! (i - Z.to_nat 128)%nat) = Some (Some b) /\ (i < length l)%nat).
  { intros i b Hb. split.
    - apply H. rewrite reverse_cons. by apply lookup_app_l_Some.
    - apply lookup_lt_Some in Hb. by rewrite length_reverse in Hb. }
  destruct (Z.ltb_spec (Z.of_nat (length l)) 128) as [Hs|Hs]; rewrite Hslot; cbn;
    (eexists; split; [done|]);
    unfold represents; cbn [index items overflow]; split_and!; unfold staticDepth;
    rewrite ?length_insert; try lia; intros i b Hb; destruct (Hold i b Hb) as [Hx Hlt].
  - destruct (Z.ltb_spec (Z.of_nat i) 128); [|lia].
    by rewrite list_lookup_insert_ne by lia.
  - destruct (Z.ltb_spec (Z.of_nat i) 128); [done|].
    by rewrite list_lookup_insert_ne by lia.
Qed.

End stack.
Arguments parentStack : clear implicits.

(** A sequence of operations on one stack, and what they return. *)
Inductive op (A : Type) := OpPush (a : A) | OpPop | OpAt (n : nat) | OpLen.
Arguments OpPush {A} a.
Arguments OpPop {A}.
Arguments OpAt {A} n.
Arguments OpLen {A}.

Inductive answer (A : Type) := AnsUnit | AnsNode (a : option A) | AnsLen (n : Z).
Arguments AnsUnit {A}.
Arguments AnsNode {A} a.
Arguments AnsLen {A} n.

Fixpoint run {A} (s : parentStack A) (ops : list (op A)) : option (list (answer A)) :=
  match ops with
  | [] => Some []
  | OpPush a :: ops => s' ← Push s a; rs ← run s' ops; Some (AnsUnit :: rs)
  | OpPop :: ops => '(n, s') ← Pop s; rs ← run s' ops; Some (AnsNode n :: rs)
  | OpAt n :: ops => a ← At s (Z.of_nat n); rs ← run s ops; Some (AnsNode a :: rs)
  | OpLen :: ops => rs ← run s ops; Some (AnsLen (Len s) :: rs)
  end.

(** The specification: an unbounded list, top first. *)
Fixpoint run_spec {A} (l : list A) (ops : list (op A)) : list (answer A) :=
  match ops with
  | [] => []
  | OpPush a :: ops => AnsUnit :: run_spec (a :: l) ops
  | OpPop :: ops => AnsNode (head l) :: run_spec (tail l) ops
  | OpAt n :: ops => AnsNode (l !! n) :: run_spec l ops
  | OpLen :: ops => AnsLen (Z.of_nat (length l)) :: run_spec l ops
  end.

Lemma run_refines {A} (ops : list (op A)) s l :
  represents s l -> run s ops = Some (run_spec l ops).
Proof.
  revert s l; induction ops as [|[a| |n|] ops IH]; intros s l Hr; cbn; [done|..].
  - destruct (Push_represents s l a Hr) as (s' & -> & Hr'). cbn. by rewrite (IH _ _ Hr').
  - destruct l as [|a l].
    + rewrite (Pop_nil s Hr); cbn. by rewrite (IH _ _ Hr).
    + destruct (Pop_represents s a l Hr) as (s' & -> & Hr'); cbn. by rewrite (IH _ _ Hr').
  - rewrite (At_represents s l _ Hr) by lia. cbn. rewrite Nat2Z.id. by rewrite (IH _ _ Hr).
  - rewrite (IH _ _ Hr); cbn. unfold Len. by rewrite (proj1 Hr).
Qed.

(** The parent stack, with its 128 inline slots and its overflow slice that
    grows one slot at a time, behaves on every sequence of Push, Pop, At and Len
    calls like an unbounded list, and never indexes out of range. *)
Theorem parentStack_refines_list {A} (ops : list (op A)) :
  run empty ops = Some (run_spec [] ops).
Proof. apply run_refines, empty_represents. Qed.

End ParentStack.

(** ** Values and nodes *)

(** [Value]: what is stored for a ticket. *)
Record Value := MkValue {
  Height : Z;
  KeyHeight : Z;
  Missed : bool;
  Revoked : bool;
  Spent : bool;
  Expired : bool
}.

#[export] Instance Value_eq_dec : EqDecision Value.
Proof. solve_decision. Defined.

Definition HashSize : Z := 32.
Definition nodeFieldsSize : Z := 32.
Definition nodeValueSize : Z := 4.

(** [nodeSize]; the key is a [chainhash.Hash] array, so its length is constant. *)
Definition nodeSize : Z := u64 (nodeFieldsSize + u64 (HashSize + nodeValueSize)).

(** ** The immutable treap *)

Module Immutable.

Record t := MkImmutable {
  root : treapNode Value;
  count : Z;
  totalSize : Z
}.

Definition newImmutable (root : treapNode Value) (count totalSize : Z) : t :=
  MkImmutable root count totalSize.

Definition NewImmutable : t := MkImmutable Leaf 0 0.

Definition Len (x : t) : Z := count x.
Definition Size (x : t) : Z := totalSize x.

Definition get (x : t) (key : bytes) : treapNode Value := get_node key (root x).

Definition Has (x : t) (key : bytes) : bool :=
  match get x key with Leaf => false | Node _ _ _ _ _ => true end.

Definition Get (x : t) (key : bytes) : option Value :=
  match get x key with Leaf => None | Node _ v _ _ _ => Some v end.

Definition Put (x : t) (key : bytes) (value : option Value) (prio : Z) : t :=
  match value with
  | None => x
  | Some value =>
      match root x with
      | Leaf => newImmutable (Node key value prio Leaf Leaf) 1 nodeSize
      | Node _ _ _ _ _ =>
          let '(parents, node) := descend key (root x) [] in
          match node with
          | Node k _ p l r =>
              newImmutable (rebuild parents (Node k value p l r)) (count x) (totalSize x)
          | Leaf =>
              newImmutable (put_rotate key value prio Leaf Leaf parents)
                (i64 (count x + 1)) (u64 (totalSize x + nodeSize))
          end
      end
  end.

Definition Delete (x : t) (key : bytes) : t :=
  let '(parents, delNode) := descend key (root x) [] in
  match delNode with
  | Leaf => x
  | Node _ _ _ l r =>
      match parents, l, r with
      | [], Leaf, Leaf => newImmutable Leaf 0 0
      | _, _, _ =>
          newImmutable (rebuild parents (sink l r))
            (i64 (count x - 1)) (u64 (totalSize x - nodeSize))
      end
  end.

Definition ForEach {S} (x : t) (fn : S -> bytes -> Value -> S * bool) (s : S) : option S :=
  foreach_loop (node_count (root x)) fn s (push_left (root x) []).

(** The representation invariant: a search tree whose recorded count and size
    are those of its nodes, at the width of their Go types. *)
Record wf (x : t) : Prop := {
  wf_bst : bst (root x);
  wf_count : count x = i64 (Z.of_nat (node_count (root x)));
  wf_totalSize : totalSize x = u64 (nodeSize * Z.of_nat (node_count (root x)))
}.

Lemma NewImmutable_wf : wf NewImmutable.
Proof. constructor; [constructor|reflexivity..]. Qed.

Lemma Get_view x key : wf x -> Get x key = view (root x) !! key.
Proof. intros H. rewrite <- get_node_view by apply H. reflexivity. Qed.

Lemma Has_Get x key : Has x key = bool_decide (is_Some (Get x key)).
Proof. unfold Has, Get. by destruct (get x key). Qed.

Lemma counters_succ n :
  i64 (i64 (Z.of_nat n) + 1) = i64 (Z.of_nat (S n)) /\
  u64 (u64 (nodeSize * Z.of_nat n) + nodeSize) = u64 (nodeSize * Z.of_nat (S n)).
Proof. autorewrite with goint. split; f_equal; lia. Qed.

Lemma counters_pred n m :
  S n = m ->
  i64 (i64 (Z.of_nat m) - 1) = i64 (Z.of_nat n) /\
  u64 (u64 (nodeSize * Z.of_nat m) - nodeSize) = u64 (nodeSize * Z.of_nat n).
Proof.
  intros <-. rewrite <- Z.add_opp_r. autorewrite with goint. split; f_equal; lia.
Qed.

Lemma Put_wf_view x key v prio :
  wf x -> wf (Put x key (Some v) prio) /\
  view (root (Put x key (Some v) prio)) = <[key := v]> (view (root x)).
Proof.
  intros [Hb Hc Ht]. unfold Put. destruct (root x) as [|rk rv rp rl rr] eqn:Er.
  - split; [|done]. constructor; [|done|done]. cbn. repeat constructor.
  - rewrite <- Er in *. destruct (descend key (root x) []) as [ps [|k v0 p l r]] eqn:Ed.
    + split; [|by eapply insert_new_view].
      constructor; cbn; [by eapply insert_new_bst|..];
        rewrite (insert_new_size key v prio (root x) ps Ed), ?Hc, ?Ht; apply counters_succ.
    + split; [|by eapply replace_view].
      constructor; cbn; [by eapply replace_bst|..];
        by erewrite replace_size by eauto.
Qed.

Lemma Delete_wf_view x key :
  wf x -> wf (Delete x key) /\ view (root (Delete x key)) = delete key (view (root x)).
Proof.
  intros [Hb Hc Ht]. unfold Delete.
  destruct (descend key (root x) []) as [ps [|k v0 p l r]] eqn:Ed.
  - split; [by constructor|]. symmetry. apply delete_id. by eapply insert_new_absent.
  - assert (Hmain : let x' := newImmutable (rebuild ps (sink l r)) (i64 (count x - 1))
                                (u64 (totalSize x - nodeSize)) in
      wf x' /\ view (root x') = delete key (view (root x))).
    { pose proof (delete_found_size key (root x) ps k v0 p l r Ed) as Hsz.
      destruct (counters_pred _ _ Hsz) as [H1 H2]. split; [|by eapply delete_found_view].
      constructor; cbn; [by eapply delete_found_bst|rewrite Hc|rewrite Ht]; done. }
    destruct ps as [|f ps]; [|exact Hmain].
    destruct l, r; try exact Hmain.
    destruct Hmain as [_ Hv]. split; [apply NewImmutable_wf|]. exact Hv.
Qed.

Lemma ForEach_visit {S} x (fn : S -> bytes -> Value -> S * bool) s :
  ForEach x fn s = Some (visit fn s (entries (root x))).
Proof.
  unfold ForEach. rewrite foreach_loop_visit, push_left_pending; cbn; rewrite ?app_nil_r; auto.
  - apply push_left_nodes. constructor.
  - rewrite push_left_pending; cbn. rewrite app_nil_r, length_entries. done.
Qed.

(** Every treap the package can build. *)
Inductive reachable : t -> Prop :=
| reach_new : reachable NewImmutable
| reach_put x key v prio : reachable x -> reachable (Put x key v prio)
| reach_delete x key : reachable x -> reachable (Delete x key).

(** Put alone keeps the heap order of the priorities. *)
Lemma Put_heap x key v prio : heap (root x) -> heap (root (Put x key v prio)).
Proof.
  intros Hh. unfold Put. destruct v as [v|]; [|done].
  destruct (root x) as [|rk rv rp rl rr] eqn:Er; [done|]. rewrite <- Er in *.
  destruct (descend key (root x) []) as [ps [|k v0 p l r]] eqn:Ed;
    apply descend_rebuild in Ed; cbn in Ed; rewrite <- Ed in Hh;
    apply heap_rebuild in Hh as (H1 & H2 & H3); cbn [root newImmutable].
  - apply heap_put_rotate; [done|by destruct ps..|done].
  - apply heap_rebuild. split_and!; [exact H1| |done]. by destruct ps.
Qed.

End Immutable.

(** ** The mutable treap

    Its methods update the receiver in place: each is a function from the old to
    the new state of the treap. *)

Module Mutable.

Record t := MkMutable {
  root : treapNode Value;
  count : Z;
  totalSize : Z
}.

Definition NewMutable : t := MkMutable Leaf 0 0.

Definition Reset (x : t) : t := MkMutable Leaf 0 0.

Definition Len (x : t) : Z := count x.
Definition Size (x : t) : Z := totalSize x.

Definition Has (x : t) (key : bytes) : bool :=
  match get_node key (root x) with Leaf => false | Node _ _ _ _ _ => true end.

Definition Get (x : t) (key : bytes) : option Value :=
  match get_node key (root x) with Leaf => None | Node _ v _ _ _ => Some v end.

Definition Put (x : t) (key : bytes) (value : option Value) (prio : Z) : t :=
  match value with
  | None => x
  | Some value =>
      match root x with
      | Leaf => MkMutable (Node key value prio Leaf Leaf) 1 nodeSize
      | Node _ _ _ _ _ =>
          let '(parents, node) := descend key (root x) [] in
          match node with
          | Node k _ p l r =>
              MkMutable (rebuild parents (Node k value p l r)) (count x) (totalSize x)
          | Leaf =>
              MkMutable (put_rotate key value prio Leaf Leaf parents)
                (i64 (count x + 1)) (u64 (totalSize x + nodeSize))
          end
      end
  end.

Definition Delete (x : t) (key : bytes) : t :=
  let '(parents, node) := descend key (root x) [] in
  match node with
  | Leaf => x
  | Node _ _ _ l r =>
      match parents, l, r with
      | [], Leaf, Leaf => MkMutable Leaf 0 0
      | _, _, _ =>
          MkMutable (rebuild parents (sink l r))
            (i64 (count x - 1)) (u64 (totalSize x - nodeSize))
      end
  end.

Definition ForEach {S} (x : t) (fn : S -> bytes -> Value -> S * bool) (s : S) : option S :=
  foreach_loop (node_count (root x)) fn s (push_left (root x) []).

(** The immutable treap with the same contents. *)
Definition freeze (x : t) : Immutable.t :=
  Immutable.MkImmutable (root x) (count x) (totalSize x).

Lemma freeze_Put x key v prio : freeze (Put x key v prio) = Immutable.Put (freeze x) key v prio.
Proof.
  destruct v as [v|]; [|done]. unfold Put, Immutable.Put, freeze; cbn.
  destruct (root x) as [|rk rv rp rl rr] eqn:Er; [done|]. rewrite <- Er.
  destruct (descend key (root x) []) as [ps [|k v0 p l r]]; done.
Qed.

Lemma freeze_Delete x key : freeze (Delete x key) = Immutable.Delete (freeze x) key.
Proof.
  unfold Delete, Immutable.Delete, freeze; cbn.
  destruct (descend key (root x) []) as [ps [|k v0 p l r]]; [done|].
  destruct ps, l, r; done.
Qed.

End Mutable.

(** ** What the stake code relies on

    The interface of a ticket pool: a finite map from ticket hashes to values
    that is enumerated in ascending order of the hashes.  The stake node is
    verified against this class; the immutable treap is its instance. *)

Class TicketPool (T : Type) := {
  pool_new : T;
  pool_len : T -> Z;
  pool_get : T -> bytes -> option Value;
  pool_put : T -> bytes -> Value -> Z -> T;
  pool_delete : T -> bytes -> T;
  pool_foreach : forall {S}, T -> (S -> bytes -> Value -> S * bool) -> S -> option S;
  pool_ok : T -> Prop;
  pool_entries : T -> list (bytes * Value);
  pool_view : T -> gmap (list Z) Value := fun x => list_to_map (pool_entries x);
  pool_new_ok : pool_ok pool_new /\ pool_entries pool_new = [];
  pool_len_ok : forall x, pool_ok x -> pool_len x = i64 (Z.of_nat (length (pool_entries x)));
  pool_sorted : forall x, pool_ok x -> StronglySorted klt (pool_entries x).*1;
  pool_get_ok : forall x k, pool_ok x -> pool_get x k = pool_view x !! k;
  pool_put_ok : forall x k v p, pool_ok x ->
    pool_ok (pool_put x k v p) /\ pool_view (pool_put x k v p) = <[k := v]> (pool_view x);
  pool_delete_ok : forall x k, pool_ok x ->
    pool_ok (pool_delete x k) /\ pool_view (pool_delete x k) = delete k (pool_view x);
  pool_foreach_ok : forall S x (fn : S -> bytes -> Value -> S * bool) s,
    pool_foreach x fn s = Some (visit fn s (pool_entries x))
}.

#[export, refine] Instance Immutable_pool : TicketPool Immutable.t := {
  pool_new := Immutable.NewImmutable;
  pool_len := Immutable.Len;
  pool_get := Immutable.Get;
  pool_put x k v p := Immutable.Put x k (Some v) p;
  pool_delete := Immutable.Delete;
  pool_foreach S x fn s := Immutable.ForEach x fn s;
  pool_ok := Immutable.wf;
  pool_entries x := entries (Immutable.root x)
}.
Proof.
  - split; [apply Immutable.NewImmutable_wf|done].
  - intros x H. rewrite length_entries. apply H.
  - intros x H. apply H.
  - intros x k H. by apply Immutable.Get_view.
  - intros x k v p H. by apply Immutable.Put_wf_view.
  - intros x k H. by apply Immutable.Delete_wf_view.
  - intros S x fn s. apply Immutable.ForEach_visit.
Defined.

Section pool_facts.
Context `{TicketPool T}.

Lemma pool_NoDup x : pool_ok x -> NoDup (pool_entries x).*1.
Proof. intros Hx. by apply klt_sorted_NoDup, pool_sorted. Qed.

Lemma pool_size_view x : pool_ok x -> size (pool_view x) = length (pool_entries x).
Proof.
  intros Hx. unfold pool_view. rewrite <- length_map_to_list.
  apply Permutation_length, map_to_list_to_map. by apply pool_NoDup.
Qed.

Lemma pool_entries_elem x k v : pool_ok x ->
  (k, v) ∈ pool_entries x <-> pool_view x !! k = Some v.
Proof. intros Hx. apply elem_of_list_to_map. by apply pool_NoDup. Qed.

(** The enumeration is determined by the map. *)
Lemma pool_entries_unique x y : pool_ok x -> pool_ok y ->
  pool_view x = pool_view y -> pool_entries x = pool_entries y.
Proof.
  intros Hx Hy E.
  apply (list_to_map_inj (M := gmap (list Z))) in E; [|by apply pool_NoDup..].
  assert (Hs : forall z, pool_ok z ->
    StronglySorted (fun a b : bytes * Value => klt a.1 b.1) (pool_entries z)).
  { intros z Hz. pose proof (pool_sorted z Hz) as Hs. clear -Hs.
    induction (pool_entries z) as [|a l IH]; [constructor|].
    cbn in Hs. apply StronglySorted_cons in Hs as [Ha Hs].
    constructor; [by apply IH|]. apply (proj1 (Forall_fmap _ _ _)) in Ha. exact Ha. }
  eapply StronglySorted_unique_strong; [|by apply Hs..|done].
  intros a b _ _ Hab Hba. exfalso. exact (klt_irrefl a.1 (klt_trans _ _ _ Hab Hba)).
Qed.
End pool_facts.

(** ** The theorems about the ticket treap *)

Inductive treap_op := TPut (key : bytes) (value : option Value) (prio : Z) | TDelete (key : bytes).

Definition treap_step (x : Immutable.t) (o : treap_op) : Immutable.t :=
  match o with
  | TPut k v p => Immutable.Put x k v p
  | TDelete k => Immutable.Delete x k
  end.

(** The specification: the same operations on a finite map. *)
Definition map_step (m : gmap (list Z) Value) (o : treap_op) : gmap (list Z) Value :=
  match o with
  | TPut k (Some v) _ => <[k := v]> m
  | TPut _ None _ => m
  | TDelete k => delete k m
  end.

Lemma treap_steps_view ops x m :
  Immutable.wf x -> view (Immutable.root x) = m ->
  Immutable.wf (foldl treap_step x ops) /\
  view (Immutable.root (foldl treap_step x ops)) = foldl map_step m ops.
Proof.
  revert x m; induction ops as [|[k [v|] p|k] ops IH]; intros x m Hx <-; cbn; [done|..].
  - destruct (Immutable.Put_wf_view x k v p Hx). by apply IH.
  - by apply IH.
  - destruct (Immutable.Delete_wf_view x k Hx). by apply IH.
Qed.

(** C26: after any sequence of Put and Delete calls on a new treap, whatever
    priorities the random source chose, Get and Has answer like the finite map
    built by the same calls, Len and Size are the number of its keys and that
    number times the node size (at their Go widths), and ForEach calls its
    callback on the pairs of that map in ascending order of the keys, each once,
    until the callback asks to stop. *)
Theorem treap_refines_map (ops : list treap_op) :
  let x := foldl treap_step Immutable.NewImmutable ops in
  let m := foldl map_step ∅ ops in
  (forall k, Immutable.Get x k = m !! k) /\
  (forall k, Immutable.Has x k = bool_decide (is_Some (m !! k))) /\
  Immutable.Len x = i64 (Z.of_nat (size m)) /\
  Immutable.Size x = u64 (68 * Z.of_nat (size m)) /\
  exists l, StronglySorted klt l.*1 /\ list_to_map l = m /\
    forall S (fn : S -> bytes -> Value -> S * bool) s,
      Immutable.ForEach x fn s = Some (visit fn s l).
Proof.
  intros x m.
  assert (Immutable.wf x /\ view (Immutable.root x) = m) as [Hw Hv].
  { apply treap_steps_view; [apply Immutable.NewImmutable_wf|done]. }
  clearbody x m.
  assert (Hg : forall k, Immutable.Get x k = m !! k)
    by (intros k; rewrite <- Hv; by apply Immutable.Get_view).
  assert (Hn : node_count (Immutable.root x) = size m).
  { rewrite <- Hv, <- length_entries. symmetry. exact (pool_size_view x Hw). }
  split_and!; [done| | | |].
  - intros k. by rewrite Immutable.Has_Get, Hg.
  - rewrite <- Hn. apply Hw.
  - rewrite <- Hn. apply Hw.
  - exists (entries (Immutable.root x)). split_and!; [apply Hw|done|].
    intros. apply Immutable.ForEach_visit.
Qed.

(** Delete does not keep the min-heap order of the priorities that Put
    keeps: it sinks the deleted node below the child with the larger priority, so
    in a treap of three nodes built by Put alone the new root has a larger
    priority than its child. *)
Theorem Delete_breaks_heap :
  let v := Some (MkValue 0 0 false false false false) in
  let x := foldl treap_step Immutable.NewImmutable
    [TPut [2] v 1; TPut [1] v 2; TPut [3] v 3] in
  heap (Immutable.root x) /\ ~ heap (Immutable.root (Immutable.Delete x [2])).
Proof. cbn. intuition lia. Qed.

(** In a treap built by Put calls alone no node has a smaller priority than
    its parent. *)
Theorem Put_keeps_heap (puts : list (bytes * Value * Z)) :
  heap (Immutable.root
    (foldl (fun x '(k, v, p) => Immutable.Put x k (Some v) p) Immutable.NewImmutable puts)).
Proof.
  assert (H : heap (Immutable.root Immutable.NewImmutable)) by exact I.
  revert H. generalize Immutable.NewImmutable.
  induction puts as [|[[k v] p] puts IH]; intros x Hx; cbn [foldl]; [done|].
  by apply IH, Immutable.Put_heap.
Qed.
