(* ===== verification/Lottery.v ===== *)
(** * The ticket lottery

    [blockchain/stake/lottery.go]: the hash-based pseudorandom generator, the
    draw of distinct ticket numbers, and the passes over the live ticket pool
    that find the winners and the expired tickets.

    [chainhash.HashH] is the function [HashH] of the sections.  The generator's
    rejection loops have no bound in the code; their models take fuel, and [None]
    means that the loop is still running. *)

From S2P Require Import Prelude TreapCore TicketTreap.
From stdpp Require Import sorting.
#[local] Open Scope Z_scope.

Section prng.
Context (HashH : bytes -> bytes).

Definition seedConst : bytes := [0x24; 0x3F; 0x6A; 0x88; 0x85; 0xA3; 0x08; 0xD3].

Record Hash256PRNG := MkPRNG {
  seed : bytes;
  hashIdx : Z;
  idx : Z;
  lastHash : bytes
}.

Definition NewHash256PRNG (seed : bytes) : Hash256PRNG :=
  let s := HashH (seed ++ seedConst) in
  {| seed := s; hashIdx := 0; idx := 0; lastHash := s |}.

Definition StateHash (hp : Hash256PRNG) : bytes :=
  HashH (lastHash hp ++ put_be 4 (u32 (idx hp)) ++ [u8 (hashIdx hp)]).

(** A [chainhash.Hash] has 32 bytes, so the slice below is in range exactly when
    [hashIdx] is at most 7 ([prng_ok]). *)
Definition Hash256Rand (hp : Hash256PRNG) : Z * Hash256PRNG :=
  let r := get_be (take 4 (drop (Z.to_nat (hashIdx hp * 4)) (lastHash hp))) in
  let hp1 := {| seed := seed hp; hashIdx := hashIdx hp + 1; idx := idx hp;
                lastHash := lastHash hp |} in
  let hp2 :=
    if hashIdx hp1 >? 7
    then {| seed := seed hp1; hashIdx := 0; idx := u64 (idx hp1 + 1);
            lastHash := HashH (seed hp1 ++ put_be 4 (u32 (idx hp1))) |}
    else hp1 in
  let hp3 :=
    if idx hp2 >? 0xFFFFFFFF
    then let s := HashH (seed hp2) in
         {| seed := s; hashIdx := hashIdx hp2; idx := 0; lastHash := s |}
    else hp2 in
  (r, hp3).

(** The number of smallest draws to reject. *)
Definition uniformMin (upperBound : Z) : Z :=
  if upperBound >? 0x80000000
  then u32 (1 + u32 (Z.lnot upperBound))
  else u32 (u32 (0xFFFFFFFF - u32 (upperBound * 2)) + 1) mod upperBound.

Fixpoint draw_loop (fuel : nat) (min : Z) (hp : Hash256PRNG) : option (Z * Hash256PRNG) :=
  match fuel with
  | O => None
  | S fuel =>
      let '(r, hp) := Hash256Rand hp in
      if r >=? min then Some (r, hp) else draw_loop fuel min hp
  end.

Definition uniformRandom (fuel : nat) (upperBound : Z) (hp : Hash256PRNG)
    : option (Z * Hash256PRNG) :=
  if upperBound <? 2 then Some (0, hp)
  else
    '(r, hp) ← draw_loop fuel (uniformMin upperBound) hp;
    Some (r mod upperBound, hp).

Fixpoint intInSlice (i : Z) (sl : list Z) : bool :=
  match sl with
  | [] => false
  | e :: sl => if i =? e then true else intInSlice i sl
  end.

Inductive lotteryError :=
| ErrListTooSmall | ErrListTooBig | ErrEmptyIdxs | ErrEmptyTreap | ErrIdxOutOfBounds.

Fixpoint idx_loop (fuel : nat) (sz n : Z) (lst : list Z) (listLen : Z) (prng : Hash256PRNG)
    : option (list Z * Hash256PRNG) :=
  if listLen <? n
  then
    match fuel with
    | O => None
    | S fuel' =>
        '(r, prng) ← uniformRandom fuel sz prng;
        if intInSlice r lst
        then idx_loop fuel' sz n lst listLen prng
        else idx_loop fuel' sz n (lst ++ [r]) (u16 (listLen + 1)) prng
    end
  else Some (lst, prng).

(** The generator is a pointer argument: its final state is returned too. *)
Definition findTicketIdxs (fuel : nat) (size n : Z) (prng : Hash256PRNG)
    : option (res lotteryError (list Z * Hash256PRNG)) :=
  if size <? n then Some (Err ErrListTooSmall)
  else if size >? 0xFFFFFFFF then Some (Err ErrListTooBig)
  else Ok <$> idx_loop fuel (u32 size) n [] 0 prng.

(** ** The generator is well formed *)

Hypothesis HashH_length : forall m, length (HashH m) = 32%nat.
Hypothesis HashH_bytes : forall m, is_bytes (HashH m).

Record prng_ok (hp : Hash256PRNG) : Prop := {
  ok_hashIdx : 0 <= hashIdx hp <= 7;
  ok_idx : 0 <= idx hp <= 0xFFFFFFFF;
  ok_length : length (lastHash hp) = 32%nat;
  ok_bytes : is_bytes (lastHash hp)
}.

Lemma NewHash256PRNG_ok s : prng_ok (NewHash256PRNG s).
Proof. constructor; cbn; auto; lia. Qed.

Lemma Hash256Rand_ok hp :
  prng_ok hp -> is_u32 (fst (Hash256Rand hp)) /\ prng_ok (snd (Hash256Rand hp)).
Proof.
  intros [H1 H2 H3 H4]. split.
  - assert (Hb : is_bytes (take 4 (drop (Z.to_nat (hashIdx hp * 4)) (lastHash hp))))
      by (by apply Forall_take, Forall_drop).
    apply get_be_range in Hb. unfold Hash256Rand; cbn [fst].
    rewrite length_take, length_drop, H3 in Hb.
    replace (4 `min` (32 - Z.to_nat (hashIdx hp * 4)))%nat with 4%nat in Hb by lia.
    unfold is_u32. lia.
  - unfold Hash256Rand; cbn [snd hashIdx idx seed lastHash].
    destruct (Z.gtb_spec (hashIdx hp + 1) 7); cbn [hashIdx idx seed lastHash].
    + rewrite (u64_small (idx hp + 1)) by (unfold is_u64; lia).
      destruct (Z.gtb_spec (idx hp + 1) 0xFFFFFFFF); constructor; cbn; auto; lia.
    + destruct (Z.gtb_spec (idx hp) 0xFFFFFFFF); constructor; cbn; auto; lia.
Qed.

#[local] Opaque Hash256Rand.

(** ** The draws the loops make *)

Fixpoint draws (k : nat) (hp : Hash256PRNG) : list Z :=
  match k with
  | O => []
  | S k => fst (Hash256Rand hp) :: draws k (snd (Hash256Rand hp))
  end.

Fixpoint advance (k : nat) (hp : Hash256PRNG) : Hash256PRNG :=
  match k with
  | O => hp
  | S k => advance k (snd (Hash256Rand hp))
  end.

(** The specification of the draw of [n] distinct numbers below [sz] from a
    sequence of random 32-bit numbers: reject the numbers below [uniformMin sz],
    reduce the others modulo [sz], and keep the first occurrences, until there
    are [n].  The second component counts the numbers used. *)
Fixpoint pick (sz n : Z) (ds : list Z) (acc : list Z) : option (list Z * nat) :=
  if Z.of_nat (length acc) <? n
  then
    match ds with
    | [] => None
    | r :: ds =>
        let acc' :=
          if r >=? uniformMin sz
          then if bool_decide (r mod sz ∈ acc) then acc else acc ++ [r mod sz]
          else acc in
        '(l, k) ← pick sz n ds acc';
        Some (l, S k)
    end
  else Some (acc, O).

Lemma intInSlice_elem i sl : intInSlice i sl = bool_decide (i ∈ sl).
Proof.
  induction sl as [|e sl IH]; cbn.
  - symmetry. apply bool_decide_eq_false. apply not_elem_of_nil.
  - destruct (Z.eqb_spec i e) as [->|Hne].
    + symmetry. apply bool_decide_eq_true. left.
    + rewrite IH. apply bool_decide_ext. rewrite elem_of_cons. naive_solver.
Qed.

Lemma draw_loop_mono fuel fuel' min hp x :
  (fuel <= fuel')%nat -> draw_loop fuel min hp = Some x -> draw_loop fuel' min hp = Some x.
Proof.
  revert fuel' hp; induction fuel as [|fuel IH]; intros [|fuel'] hp Hle H; cbn in *; try done; [lia|].
  destruct (Hash256Rand hp) as [r hp'], (r >=? min); [done|]. apply IH; [lia|done].
Qed.

Lemma uniformRandom_mono fuel fuel' ub hp x :
  (fuel <= fuel')%nat -> uniformRandom fuel ub hp = Some x -> uniformRandom fuel' ub hp = Some x.
Proof.
  unfold uniformRandom. destruct (ub <? 2); [done|].
  intros Hle (y & Hd & Hx)%bind_Some. rewrite (draw_loop_mono _ _ _ _ _ Hle Hd). exact Hx.
Qed.

Lemma idx_loop_mono fuel fuel' sz n l ll hp x :
  (fuel <= fuel')%nat -> idx_loop fuel sz n l ll hp = Some x ->
  idx_loop fuel' sz n l ll hp = Some x.
Proof.
  revert fuel' l ll hp; induction fuel as [|fuel IH]; intros [|fuel'] l ll hp Hle H;
    cbn [idx_loop] in *; destruct (ll <? n); try done; [lia|].
  apply bind_Some in H as ([r hp'] & Hu & H).
  rewrite (uniformRandom_mono (S fuel) (S fuel') _ _ _ Hle Hu); cbn.
  destruct (intInSlice r l); apply IH; done || lia.
Qed.

(** An unsuccessful draw costs one step and changes nothing else. *)
Lemma uniformRandom_reject fuel sz hp :
  2 <= sz -> fst (Hash256Rand hp) < uniformMin sz ->
  uniformRandom (S fuel) sz hp = uniformRandom fuel sz (snd (Hash256Rand hp)).
Proof.
  intros Hsz Hr. unfold uniformRandom. destruct (Z.ltb_spec sz 2); [lia|].
  cbn [draw_loop]. destruct (Hash256Rand hp) as [r hp']; cbn in *.
  destruct (Z.geb_spec r (uniformMin sz)); [lia|done].
Qed.

Lemma uniformRandom_accept fuel sz hp :
  2 <= sz -> uniformMin sz <= fst (Hash256Rand hp) ->
  uniformRandom (S fuel) sz hp = Some (fst (Hash256Rand hp) mod sz, snd (Hash256Rand hp)).
Proof.
  intros Hsz Hr. unfold uniformRandom. destruct (Z.ltb_spec sz 2); [lia|].
  cbn [draw_loop]. destruct (Hash256Rand hp) as [r hp']; cbn in *.
  destruct (Z.geb_spec r (uniformMin sz)); [done|lia].
Qed.

Lemma idx_loop_pick k sz n hp acc l c :
  2 <= sz -> is_u16 n ->
  pick sz n (draws k hp) acc = Some (l, c) ->
  idx_loop k sz n acc (Z.of_nat (length acc)) hp = Some (l, advance c hp).
Proof.
  intros Hsz Hn. revert hp acc c; induction k as [|k IH]; intros hp acc c H;
    cbn [pick draws idx_loop] in *;
    (destruct (Z.ltb_spec (Z.of_nat (length acc)) n) as [Hlt|]; [|by simplify_eq]); [done|].
  apply bind_Some in H as ([l' c'] & H & Heq); simplify_eq/=.
  destruct (Z.geb_spec (fst (Hash256Rand hp)) (uniformMin sz)) as [Hacc|Hrej].
  - rewrite uniformRandom_accept by done; cbn. rewrite intInSlice_elem.
    revert H. case_bool_decide as Hin; intros H; apply IH in H; [exact H|].
    rewrite length_app in H; cbn in H. rewrite Nat2Z.inj_add in H.
    rewrite u16_small by (unfold is_u16 in *; lia). exact H.
  - rewrite uniformRandom_reject by done. apply IH in H.
    destruct k as [|k]; cbn [idx_loop] in H;
      (destruct (Z.ltb_spec (Z.of_nat (length acc)) n); [|lia]); [done|].
    apply bind_Some in H as ([r hp'] & -> & H); cbn [mbind option_bind].
    destruct (intInSlice r acc); revert H; apply idx_loop_mono; lia.
Qed.

(** The residues of the accepted draws. *)
Definition accepted (sz : Z) (ds : list Z) : list Z :=
  (fun r => r mod sz) <$> filter (fun r => uniformMin sz <= r) ds.

Lemma accepted_cons sz r ds :
  accepted sz (r :: ds) =
  if r >=? uniformMin sz then r mod sz :: accepted sz ds else accepted sz ds.
Proof.
  unfold accepted. destruct (Z.geb_spec r (uniformMin sz)).
  - by rewrite filter_cons_True by lia.
  - by rewrite filter_cons_False by lia.
Qed.

(** The draw succeeds as soon as [n] different residues have been accepted. *)
Lemma pick_total sz n ds acc :
  n <= Z.of_nat (size (list_to_set (C := gset Z) (acc ++ accepted sz ds))) ->
  NoDup acc -> is_Some (pick sz n ds acc).
Proof.
  revert acc; induction ds as [|r ds IH]; intros acc Hn Hnd; cbn [pick];
    destruct (Z.ltb_spec (Z.of_nat (length acc)) n) as [Hlt|]; eauto.
  - rewrite app_nil_r, size_list_to_set in Hn by done. lia.
  - rewrite accepted_cons in Hn.
    assert (is_Some (pick sz n ds (if r >=? uniformMin sz
      then if bool_decide (r mod sz ∈ acc) then acc else acc ++ [r mod sz] else acc)))
      as [[l c] Hl].
    { destruct (r >=? uniformMin sz); [|by apply IH]. case_bool_decide as Hin; apply IH; auto.
      - replace (list_to_set (acc ++ accepted sz ds) : gset Z)
          with (list_to_set (acc ++ r mod sz :: accepted sz ds) : gset Z); [done|].
        apply set_eq. intros x. rewrite !elem_of_list_to_set. set_solver.
      - by rewrite <- app_assoc.
      - apply NoDup_app. split_and!; [done| |apply NoDup_singleton].
        intros x Hx ->%list_elem_of_singleton. done. }
    rewrite Hl. cbn. eauto.
Qed.

Definition distinct_below (sz : Z) (l : list Z) : Prop :=
  NoDup l /\ Forall (fun i => 0 <= i < sz) l.

Lemma distinct_below_snoc sz l x :
  distinct_below sz l -> x ∉ l -> 0 <= x < sz -> distinct_below sz (l ++ [x]).
Proof.
  intros [H1 H2] Hx Hr. split.
  - apply NoDup_app. split_and!; [done| |apply NoDup_singleton].
    intros y Hy ->%list_elem_of_singleton. done.
  - apply Forall_app. auto.
Qed.

Lemma uniformRandom_range fuel ub hp r hp' :
  0 < ub -> uniformRandom fuel ub hp = Some (r, hp') -> 0 <= r < ub.
Proof.
  unfold uniformRandom. intros Hub. destruct (Z.ltb_spec ub 2).
  - intros; simplify_eq; lia.
  - intros ([x y] & _ & H1)%bind_Some. simplify_eq/=. apply Z.mod_pos_bound. lia.
Qed.

(** Whatever the number of iterations, a result consists of [n] distinct
    numbers below [sz]. *)
Lemma idx_loop_sound fuel sz n acc hp l hp' :
  0 < sz -> is_u16 n -> distinct_below sz acc -> Z.of_nat (length acc) <= n ->
  idx_loop fuel sz n acc (Z.of_nat (length acc)) hp = Some (l, hp') ->
  distinct_below sz l /\ Z.of_nat (length l) = n.
Proof.
  intros Hsz Hn. revert acc hp; induction fuel as [|fuel IH]; intros acc hp Ha Hle H;
    cbn [idx_loop] in H;
    (destruct (Z.ltb_spec (Z.of_nat (length acc)) n);
      [|simplify_eq; split; [done|lia]]); [done|].
  apply bind_Some in H as ([r hp1] & Hu & H).
  pose proof (uniformRandom_range _ _ _ _ _ Hsz Hu) as Hr.
  rewrite intInSlice_elem in H. revert H. case_bool_decide as Hin; intros H.
  - eapply IH; [done|lia|exact H].
  - rewrite u16_small in H by (unfold is_u16 in *; lia).
    eapply (IH (acc ++ [r])); [by apply distinct_below_snoc|rewrite length_app; cbn; lia|].
    rewrite length_app; cbn [length]. rewrite Nat2Z.inj_add. exact H.
Qed.

Lemma findTicketIdxs_sound fuel sz n hp l hp' :
  is_u16 n -> 0 <= n -> findTicketIdxs fuel sz n hp = Some (Ok (l, hp')) ->
  distinct_below sz l /\ Z.of_nat (length l) = n /\ n <= sz <= 0xFFFFFFFF.
Proof.
  intros Hn H0. unfold findTicketIdxs.
  destruct (Z.ltb_spec sz n); [done|]. destruct (Z.gtb_spec sz 0xFFFFFFFF); [done|].
  rewrite u32_small by (unfold is_u32; lia).
  destruct (idx_loop _ _ _ _ _ _) as [[l1 hp1]|] eqn:E; cbn; [|done].
  intros; simplify_eq. destruct (Z.eq_dec n 0) as [->|Hnz].
  - destruct fuel; cbn in E; simplify_eq; split_and!; try done; split; constructor.
  - apply (idx_loop_sound fuel sz n [] hp) in E; cbn; try done; try lia;
      [destruct E; split_and!; done || lia|]. split; constructor.
Qed.

(** C34: the lottery draw terminates as soon as the generator has produced [n]
    different accepted residues, and then returns exactly the first [n] different
    residues, in the order of the draws, leaving the generator after the last
    draw used; they are [n] distinct positions of the pool. *)
Theorem findTicketIdxs_spec (k : nat) (sz n : Z) (hp : Hash256PRNG) :
  is_u16 n -> n <= sz <= 0xFFFFFFFF -> 2 <= sz ->
  n <= Z.of_nat (size (list_to_set (C := gset Z) (accepted sz (draws k hp)))) ->
  exists l c,
    pick sz n (draws k hp) [] = Some (l, c) /\
    findTicketIdxs k sz n hp = Some (Ok (l, advance c hp)) /\
    NoDup l /\ Z.of_nat (length l) = n /\ Forall (fun i => 0 <= i < sz) l.
Proof.
  intros Hn Hsz H2 Hk.
  destruct (pick_total sz n (draws k hp) []) as [[l c] Hp]; [done|constructor|].
  exists l, c. split; [done|].
  assert (Hf : findTicketIdxs k sz n hp = Some (Ok (l, advance c hp))).
  { unfold findTicketIdxs. destruct (Z.ltb_spec sz n); [lia|].
    destruct (Z.gtb_spec sz 0xFFFFFFFF); [lia|].
    rewrite u32_small by (unfold is_u32; lia).
    apply (idx_loop_pick k sz n hp []) in Hp; [|done..].
    change (Z.of_nat (length [])) with 0 in Hp. by rewrite Hp. }
  split; [done|].
  apply findTicketIdxs_sound in Hf as ([Hnd Hr] & Hl & _); [done..|].
  unfold is_u16 in Hn; lia.
Qed.

End prng.

(** ** The draw is unbiased *)

Lemma uniformMin_mod ub : 2 <= ub < 2 ^ 32 -> uniformMin ub = 2 ^ 32 mod ub.
Proof.
  intros H. unfold uniformMin. destruct (Z.gtb_spec ub 0x80000000).
  - unfold Z.lnot, u32. rewrite (Z.mod_small (1 + _ mod _)).
    + replace (Z.pred (- ub) mod 2 ^ 32) with (2 ^ 32 - 1 - ub)
        by (Z.div_mod_to_equations; lia).
      replace (2 ^ 32) with (2 ^ 32 - ub + 1 * ub) at 2 by lia.
      rewrite Z.mod_add, Z.mod_small by lia. lia.
    + Z.div_mod_to_equations; lia.
  - assert (E : u32 (u32 (0xFFFFFFFF - u32 (ub * 2)) + 1) = u32 (- (2 * ub))).
    { ilia. }
    rewrite E. destruct (Z.eq_dec ub 0x80000000) as [->|]; [done|].
    replace (u32 (- (2 * ub))) with (2 ^ 32 + (-2) * ub) by ilia.
    by rewrite Z.mod_add by lia.
Qed.

Lemma filter_none {A} (P : A -> Prop) `{forall x, Decision (P x)} l :
  (forall x, x ∈ l -> ~ P x) -> filter P l = [].
Proof.
  induction l as [|x l IH]; intros Hn; [done|].
  rewrite filter_cons_False by (apply Hn; left). apply IH. intros y Hy. apply Hn. by right.
Qed.

(** Each window of [ub] consecutive numbers has one of every residue. *)
Lemma residue_window ub x a :
  0 < ub -> 0 <= x < ub ->
  length (filter (fun r => r mod ub = x) (seqZ a ub)) = 1%nat.
Proof.
  intros Hub Hx. set (d := (x - a) mod ub).
  assert (Hd : 0 <= d < ub) by (apply Z.mod_pos_bound; lia).
  assert (Hwin : forall r, a <= r < a + ub -> r mod ub = x <-> r = a + d).
  { intros r Hr. assert (Ha : (a + d) mod ub = x).
    { unfold d. rewrite Zplus_mod_idemp_r. replace (a + (x - a)) with x by lia.
      by apply Z.mod_small. }
    split; [|by intros ->]. intros Hrx.
    pose proof (Z.div_mod (a + d) ub ltac:(lia)) as E1. rewrite Ha in E1.
    pose proof (Z.div_mod r ub ltac:(lia)) as E2. rewrite Hrx in E2.
    assert (r / ub = (a + d) / ub) by nia. nia. }
  assert (E : seqZ a ub = seqZ a d ++ [a + d] ++ seqZ (a + d + 1) (ub - d - 1)).
  { assert (E1 : [a + d] = seqZ (a + d) 1) by (cbn; f_equal; lia).
    rewrite E1, <- !seqZ_app by lia. f_equal. lia. }
  rewrite E, !filter_app, (filter_none _ (seqZ a d)), (filter_none _ (seqZ (a + d + 1) _)).
  - rewrite filter_cons_True; [done|]. by apply Hwin; [lia|].
  - intros r Hr%elem_of_seqZ. rewrite Hwin by lia. lia.
  - intros r Hr%elem_of_seqZ. rewrite Hwin by lia. lia.
Qed.

Lemma residue_count ub x a q :
  0 < ub -> 0 <= x < ub ->
  length (filter (fun r => r mod ub = x) (seqZ a (Z.of_nat q * ub))) = q.
Proof.
  intros Hub Hx. revert a; induction q as [|q IH]; intros a; [done|].
  rewrite Nat2Z.inj_succ, Z.mul_succ_l, Z.add_comm.
  rewrite seqZ_app, filter_app, length_app, IH, residue_window by lia. lia.
Qed.

(** Rejecting the draws below [uniformMin] removes the modulo bias: of the
    32-bit numbers that are accepted, every residue below the bound is produced
    by the same number of draws, fewer than the bound are rejected, and every
    result is below the bound. *)
Theorem uniformRandom_unbiased (ub x : Z) :
  2 <= ub < 2 ^ 32 -> 0 <= x < ub ->
  0 <= uniformMin ub < ub /\
  Z.of_nat (length (filter (fun r => r mod ub = x)
    (seqZ (uniformMin ub) (2 ^ 32 - uniformMin ub)))) = 2 ^ 32 / ub.
Proof.
  intros Hub Hx. rewrite uniformMin_mod by lia.
  split; [apply Z.mod_pos_bound; lia|].
  pose proof (Z.div_mod (2 ^ 32) ub ltac:(lia)) as E.
  set (q := 2 ^ 32 / ub) in *. assert (0 <= q) by (apply Z.div_pos; lia).
  replace (2 ^ 32 - 2 ^ 32 mod ub) with (Z.of_nat (Z.to_nat q) * ub) by lia.
  rewrite residue_count by lia. lia.
Qed.

(** ** Winners and expired tickets *)

Section passes.
Context `{TicketPool T}.

Definition MinInt32 : Z := - 2 ^ 31.
Definition MaxInt32 : Z := 2 ^ 31 - 1.

Definition maxInt (idxs : list Z) : Z :=
  foldl (fun max i => if i >? max then i else max) MinInt32 idxs.

Definition minInt (idxs : list Z) : Z :=
  foldl (fun min i => if i <? min then i else min) MaxInt32 idxs.

(** The position of the first occurrence, or -1. *)
Fixpoint originalIdx_from (i : Z) (idx : Z) (originalIdxs : list Z) : Z :=
  match originalIdxs with
  | [] => -1
  | x :: l => if idx =? x then i else originalIdx_from (i + 1) idx l
  end.

Definition originalIdx (originalIdxs : list Z) (idx : Z) : Z :=
  originalIdx_from 0 idx originalIdxs.

(** The variables the callback closes over. *)
Record winState := MkWin {
  w_idx : Z;
  w_winnerIdx : Z;
  w_winners : list (option bytes)
}.

(** The callback of [fetchWinners]; [None] is a run-time panic (an index out of
    range), which ends the traversal. *)
Definition winners_callback (originalIdxs sortedIdxs : list Z) (max : Z)
    (s : option winState) (k : bytes) (v : Value) : option winState * bool :=
  match s with
  | None => (None, false)
  | Some s =>
      if w_idx s >? max then (Some s, false)
      else
        match sortedIdxs !! Z.to_nat (w_winnerIdx s) with
        | None => (None, false)
        | Some i =>
            if w_idx s =? i
            then
              let p := originalIdx originalIdxs (w_idx s) in
              if (p <? 0) || (Z.of_nat (length (w_winners s)) <=? p)
              then (None, false)
              else
                (Some {| w_idx := w_idx s + 1;
                         w_winnerIdx :=
                           if w_winnerIdx s + 1 <? Z.of_nat (length sortedIdxs)
                           then w_winnerIdx s + 1 else w_winnerIdx s;
                         w_winners := <[Z.to_nat p := Some k]> (w_winners s) |}, true)
            else
              (Some {| w_idx := w_idx s + 1; w_winnerIdx := w_winnerIdx s;
                       w_winners := w_winners s |}, true)
        end
  end.

(** [idxs] and [t] may be nil; a slot of the result may hold a nil pointer. *)
Definition fetchWinners (idxs : option (list Z)) (t : option T)
    : res lotteryError (list (option bytes)) :=
  match idxs with
  | None => Err ErrEmptyIdxs
  | Some idxs =>
      match t with
      | None => Err ErrEmptyTreap
      | Some t =>
          if pool_len t =? 0 then Err ErrEmptyTreap
          else if maxInt idxs >=? pool_len t then Err ErrIdxOutOfBounds
          else if minInt idxs <? 0 then Err ErrIdxOutOfBounds
          else
            let sortedIdxs := merge_sort Z.le idxs in
            let s0 := MkWin 0 0 (replicate (length idxs) None) in
            match pool_foreach t (winners_callback idxs sortedIdxs (maxInt idxs)) (Some s0) with
            | Some (Some s) => Ok (w_winners s)
            | _ => Panic
            end
      end
  end.

(** Nothing but the pool's contents bounds the traversal, so its result is
    always there ([pool_foreach_ok]). *)
Definition fetchExpired (height : Z) (t : T) : option (list bytes) :=
  pool_foreach t
    (fun expired k v => (if KeyHeight v <=? height then expired ++ [k] else expired, true)) [].

Lemma fetchExpired_spec height t :
  fetchExpired height t =
  Some (filter (fun e => KeyHeight e.2 <= height) (pool_entries t)).*1.
Proof.
  unfold fetchExpired. rewrite pool_foreach_ok. f_equal.
  set (fn := fun _ _ _ => _).
  enough (G : forall l acc,
    visit fn acc l = acc ++ (filter (fun e => KeyHeight e.2 <= height) l).*1) by apply G.
  induction l as [|[k v] l IH]; intros acc; cbn [visit fn].
  - by rewrite app_nil_r.
  - unfold fn at 1. rewrite IH. destruct (Z.leb_spec (KeyHeight v) height).
    + rewrite filter_cons_True by done. cbn. by rewrite <- app_assoc.
    + rewrite filter_cons_False by (cbn; lia). done.
Qed.

(** ** The one-pass search finds the tickets at the drawn positions *)

Lemma maxInt_ge idxs i : i ∈ idxs -> i <= maxInt idxs.
Proof.
  unfold maxInt.
  enough (G : forall l m, m <= foldl (fun max i => if i >? max then i else max) m l /\
    forall i, i ∈ l -> i <= foldl (fun max i => if i >? max then i else max) m l)
    by apply G.
  induction l as [|x l IH]; intros m; cbn; [split; [lia|set_solver]|].
  destruct (IH (if x >? m then x else m)) as [H1 H2].
  destruct (Z.gtb_spec x m); (split; [lia|]); intros j [->|Hj]%elem_of_cons; auto; lia.
Qed.

Lemma minInt_nonneg idxs : Forall (fun i => 0 <= i) idxs -> 0 <= minInt idxs.
Proof.
  unfold minInt. assert (0 <= MaxInt32) by (unfold MaxInt32; lia).
  revert H0. generalize MaxInt32.
  induction idxs as [|x l IH]; intros m Hm Hl; cbn; [done|].
  inversion Hl; subst. apply IH; [|done]. destruct (x <? m); lia.
Qed.

Lemma maxInt_lt idxs b :
  - 2 ^ 31 < b -> Forall (fun i => i < b) idxs -> maxInt idxs < b.
Proof.
  intros Hb. unfold maxInt. assert (MinInt32 < b) by (unfold MinInt32; lia).
  revert H0. generalize MinInt32.
  induction idxs as [|x l IH]; intros m Hm Hl; cbn; [done|].
  inversion Hl; subst. apply IH; [|done]. destruct (x >? m); lia.
Qed.

Lemma originalIdx_from_spec l i j p :
  NoDup l -> l !! p = Some j -> originalIdx_from i j l = i + Z.of_nat p.
Proof.
  revert i p; induction l as [|x l IH]; intros i [|p] Hnd Hp; cbn in *; try done; simplify_eq.
  - rewrite Z.eqb_refl. lia.
  - apply NoDup_cons in Hnd as [Hx Hnd].
    destruct (Z.eqb_spec j x) as [->|]; [by apply list_elem_of_lookup_2 in Hp|].
    rewrite (IH _ p) by done. lia.
Qed.

Section pass.
Context (idxs : list Z) (es : list (bytes * Value)).
Hypothesis Hnd : NoDup idxs.
Hypothesis Hrange : Forall (fun i => 0 <= i < Z.of_nat (length es)) idxs.

Definition sorted_idxs : list Z := merge_sort Z.le idxs.
Definition key_at (i : Z) : option bytes := fst <$> es !! Z.to_nat i.

(** What has been filled in after the first [j] tickets. *)
Definition filled (j : Z) : list (option bytes) :=
  (fun i => if i <? j then key_at i else None) <$> idxs.

Lemma sorted_perm : sorted_idxs ≡ₚ idxs.
Proof. apply merge_sort_Permutation. Qed.

Lemma sorted_strict : StronglySorted Z.lt sorted_idxs.
Proof.
  assert (Hs : StronglySorted Z.le sorted_idxs) by (apply (StronglySorted_merge_sort _)).

  assert (Hn : NoDup sorted_idxs) by (by rewrite sorted_perm).
  induction Hs as [|x l Hl IH Hx]; [constructor|].
  apply NoDup_cons in Hn as [Hxl Hn]. constructor; [by apply IH|].
  rewrite Forall_forall in *. intros y Hy. specialize (Hx y Hy).
  assert (x <> y) by (intros ->; done). lia.
Qed.

Record pass_inv (j : Z) (s : winState) : Prop := {
  pi_idx : w_idx s = j;
  pi_winners : w_winners s = filled j;
  pi_pos : j <= maxInt idxs ->
    exists c, w_winnerIdx s = Z.of_nat c /\ (c < length idxs)%nat /\
    (forall x, x ∈ take c sorted_idxs -> x < j) /\
    (forall x, x ∈ drop c sorted_idxs -> j <= x)
}.

Lemma filled_skip j : j ∉ idxs -> filled (j + 1) = filled j.
Proof.
  intros Hj. unfold filled. apply list_fmap_ext. intros n x Hx.
  apply list_elem_of_lookup_2 in Hx. assert (x <> j) by (intros ->; done).
  cbn beta. destruct (Z.ltb_spec x (j + 1)), (Z.ltb_spec x j); done || lia.
Qed.

Lemma filled_hit j p k :
  idxs !! p = Some j -> key_at j = Some k -> filled (j + 1) = <[p := Some k]> (filled j).
Proof.
  intros Hp Hk. apply list_eq. intros n. unfold filled.
  destruct (decide (n = p)) as [->|Hne].
  - rewrite list_lookup_insert_eq by (rewrite length_fmap; by eapply lookup_lt_Some).
    rewrite list_lookup_fmap, Hp; cbn. destruct (Z.ltb_spec j (j + 1)); [by rewrite Hk|lia].
  - rewrite list_lookup_insert_ne, !list_lookup_fmap by done.
    destruct (idxs !! n) as [x|] eqn:Hx; [|done]. cbn. f_equal.
    assert (x <> j) by (intros ->; apply Hne; eapply NoDup_lookup; eauto).
    destruct (Z.ltb_spec x (j + 1)), (Z.ltb_spec x j); done || lia.
Qed.

Lemma filled_all j : maxInt idxs < j -> filled j = key_at <$> idxs.
Proof.
  intros Hj. unfold filled. apply list_fmap_ext. intros n x Hx.
  apply list_elem_of_lookup_2, maxInt_ge in Hx.
  cbn beta. destruct (Z.ltb_spec x j); [done|lia].
Qed.

Lemma sorted_split c i :
  sorted_idxs !! c = Some i ->
  sorted_idxs = take c sorted_idxs ++ i :: drop (S c) sorted_idxs /\
  forall x, x ∈ drop (S c) sorted_idxs -> i < x.
Proof.
  intros Hc. pose proof (take_drop_middle _ _ _ Hc) as E. split; [done|].
  pose proof sorted_strict as Hs. rewrite <- E in Hs.
  apply StronglySorted_app_1_r, StronglySorted_cons in Hs as [Hs _].
  by rewrite Forall_forall in Hs.
Qed.

Lemma elem_of_sorted x : x ∈ sorted_idxs <-> x ∈ idxs.
Proof. by rewrite sorted_perm. Qed.

Lemma pass_pos_hit j c :
  0 <= j -> sorted_idxs !! c = Some j -> (forall x, x ∈ take c sorted_idxs -> x < j) ->
  j + 1 <= maxInt idxs ->
  (S c < length idxs)%nat /\
  (forall x, x ∈ take (S c) sorted_idxs -> x < j + 1) /\
  (forall x, x ∈ drop (S c) sorted_idxs -> j + 1 <= x).
Proof.
  intros Hj Hc Hlow Hmax. destruct (sorted_split c j Hc) as [E Hhigh].
  assert (Htake : forall x, x ∈ take (S c) sorted_idxs -> x < j + 1).
  { intros x. rewrite (take_S_r _ _ _ Hc), elem_of_app, list_elem_of_singleton.
    intros [Hx| ->]; [apply Hlow in Hx|]; lia. }
  split_and!; [|done|intros x Hx%Hhigh; lia].
  destruct (Nat.ltb_spec (S c) (length idxs)) as [|Hge]; [done|exfalso].
  assert (maxInt idxs < j + 1); [|lia]. apply maxInt_lt; [lia|].
  apply Forall_forall. intros x Hx%elem_of_sorted. apply Htake.
  rewrite take_ge; [done|]. by rewrite sorted_perm.
Qed.

Lemma pass_step j k v s :
  0 <= j -> j <= maxInt idxs -> es !! Z.to_nat j = Some (k, v) -> pass_inv j s ->
  exists s', winners_callback idxs sorted_idxs (maxInt idxs) (Some s) k v = (Some s', true) /\
    pass_inv (j + 1) s'.
Proof.
  intros Hj Hmax He [Hidx Hwin Hpos]. destruct (Hpos Hmax) as (c & Hc & Hlen & Hlow & Hge).
  cbn. rewrite Hidx, Hc, Nat2Z.id. destruct (Z.gtb_spec j (maxInt idxs)); [lia|].
  destruct (sorted_idxs !! c) as [i|] eqn:Hi;
    [|apply lookup_ge_None_1 in Hi; rewrite sorted_perm in Hi; lia].
  destruct (sorted_split c i Hi) as [E Hhigh].
  destruct (Z.eqb_spec j i) as [<-|Hne].
  - assert (Hin : j ∈ idxs) by (apply elem_of_sorted; by eapply list_elem_of_lookup_2).
    apply list_elem_of_lookup_1 in Hin as [p Hp].
    pose proof (lookup_lt_Some _ _ _ Hp) as Hplen.
    unfold originalIdx. rewrite (originalIdx_from_spec idxs 0 j p Hnd Hp), Z.add_0_l.
    rewrite Hwin. unfold filled at 1. rewrite length_fmap.
    destruct (Z.ltb_spec (Z.of_nat p) 0); [lia|].
    destruct (Z.leb_spec (Z.of_nat (length idxs)) (Z.of_nat p)); [lia|]. cbn.
    eexists; split; [done|]. constructor; cbn; [done| |].
    + rewrite Nat2Z.id. symmetry. apply filled_hit; [done|].
      unfold key_at. by rewrite He.
    + intros Hmax'. destruct (pass_pos_hit j c Hj Hi Hlow Hmax') as (Hp1 & Hp2 & Hp3).
      exists (S c). rewrite sorted_perm. destruct (Z.ltb_spec (Z.of_nat c + 1)
        (Z.of_nat (length idxs))); [|lia]. split_and!; [lia|done..].
  - eexists; split; [done|].
    assert (Hij : j < i).
    { assert (j <= i); [|lia]. apply Hge. rewrite (drop_S _ _ _ Hi). left. }
    constructor; cbn; [done| |].
    + rewrite Hwin. symmetry. apply filled_skip. rewrite <- elem_of_sorted, E.
      rewrite elem_of_app, elem_of_cons. intros [Hx|[->|Hx]]; [apply Hlow in Hx; lia|lia|].
      apply Hhigh in Hx. lia.
    + intros _. exists c. split_and!; [done|done| |].
      * intros x Hx%Hlow. lia.
      * intros x. rewrite (drop_S _ _ _ Hi), elem_of_cons. intros [->|Hx%Hhigh]; lia.
Qed.

Lemma pass_visit n s :
  pass_inv (Z.of_nat n) s ->
  exists s', visit (winners_callback idxs sorted_idxs (maxInt idxs)) (Some s) (drop n es) = Some s' /\
    w_winners s' = key_at <$> idxs.
Proof.
  remember (drop n es) as l eqn:El. revert n s El.
  induction l as [|[k v] l IH]; intros n s El Hinv.
  - assert (length es <= n)%nat.
    { pose proof (f_equal length El) as HL. rewrite length_drop in HL. cbn in HL. lia. }
    exists s. split; [done|]. rewrite (pi_winners _ _ Hinv). apply filled_all.
    apply maxInt_lt; [lia|]. eapply Forall_impl; [exact Hrange|]. cbn. lia.
  - assert (He : es !! n = Some (k, v)).
    { assert (Hh : drop n es !! 0%nat = Some (k, v)) by (by rewrite <- El).
      rewrite lookup_drop, Nat.add_0_r in Hh. done. }
    cbn [visit]. destruct (Z.gtb_spec (Z.of_nat n) (maxInt idxs)) as [Hgt|Hle].
    + exists s. cbn. rewrite (pi_idx _ _ Hinv).
      destruct (Z.gtb_spec (Z.of_nat n) (maxInt idxs)); [|lia]. split; [done|].
      rewrite (pi_winners _ _ Hinv). by apply filled_all.
    + destruct (pass_step (Z.of_nat n) k v s) as (s' & -> & Hs'); [lia|done|by rewrite Nat2Z.id|done|].
      apply (IH (S n)).
      * rewrite (drop_S _ _ _ He) in El. by simplify_eq.
      * by replace (Z.of_nat (S n)) with (Z.of_nat n + 1) by lia.
Qed.

Lemma pass_start : idxs <> [] -> pass_inv 0 (MkWin 0 0 (replicate (length idxs) None)).
Proof.
  intros Hne. constructor; cbn; [done| |].
  - unfold filled. clear -Hrange. induction idxs as [|x l IH]; [done|]. cbn.
    inversion Hrange; subst. destruct (Z.ltb_spec x 0); [lia|]. f_equal. by apply IH.
  - intros _. exists 0%nat. split_and!; [done| | |].
    + destruct idxs; [done|cbn; lia].
    + intros x Hx. inversion Hx.
    + intros x Hx. cbn in Hx. apply elem_of_sorted in Hx.
      rewrite Forall_forall in Hrange. apply Hrange in Hx. lia.
Qed.

End pass.

Lemma fetchWinners_positions (idxs : list Z) (t : T) :
  pool_ok t -> Z.of_nat (length (pool_entries t)) < 2 ^ 63 -> idxs <> [] ->
  distinct_below (Z.of_nat (length (pool_entries t))) idxs ->
  exists ks, fetchWinners (Some idxs) (Some t) = Ok (Some <$> ks) /\
    length ks = length idxs /\
    forall p i, idxs !! p = Some i -> ks !! p = (pool_entries t).*1 !! Z.to_nat i.
Proof.
  intros Hok Hlen Hne [Hnd Hr]. set (n := Z.of_nat (length (pool_entries t))) in *.
  assert (Hlent : pool_len t = n).
  { rewrite pool_len_ok by done. apply i64_small. unfold is_i64; lia. }
  assert (Hn : 0 < n).
  { destruct idxs; [done|]. inversion Hr; lia. }
  destruct (pass_visit idxs (pool_entries t) Hnd Hr 0
    (MkWin 0 0 (replicate (length idxs) None))) as (s & Hs & Hw);
    [by apply (pass_start idxs (pool_entries t))|].
  exists ((fun i => default [] (key_at (pool_entries t) i)) <$> idxs). split_and!.
  - unfold fetchWinners. rewrite Hlent. destruct (Z.eqb_spec n 0); [lia|].
    destruct (Z.geb_spec (maxInt idxs) n) as [Hge|_].
    { assert (maxInt idxs < n); [|lia]. apply maxInt_lt; [lia|].
      eapply Forall_impl; [exact Hr|]. cbn; lia. }
    destruct (Z.ltb_spec (minInt idxs) 0) as [Hlt|_].
    { assert (0 <= minInt idxs); [|lia]. apply minInt_nonneg.
      eapply Forall_impl; [exact Hr|]. cbn; lia. }
    rewrite pool_foreach_ok. rewrite drop_0 in Hs. unfold sorted_idxs in Hs. rewrite Hs, Hw. f_equal.
    rewrite <- list_fmap_compose. apply list_fmap_ext. intros p i Hp. cbn.
    apply list_elem_of_lookup_2 in Hp. rewrite Forall_forall in Hr. apply Hr in Hp.
    unfold key_at. destruct (pool_entries t !! Z.to_nat i) eqn:E; [done|].
    apply lookup_ge_None_1 in E. lia.
  - by rewrite length_fmap.
  - intros p i Hp. rewrite !list_lookup_fmap, Hp; cbn. unfold key_at.
    apply list_elem_of_lookup_2 in Hp. rewrite Forall_forall in Hr. apply Hr in Hp.
    destruct (pool_entries t !! Z.to_nat i) eqn:E; [done|].
    apply lookup_ge_None_1 in E. lia.
Qed.

(** For distinct positions inside the pool, the single ordered pass over
    the pool returns, in the order in which the positions were drawn, the hashes
    of the tickets at these positions in ascending hash order; no slot is left
    nil and no index is out of range. *)
Theorem fetchWinners_spec (idxs : list Z) (t : T) :
  pool_ok t -> Z.of_nat (length (pool_entries t)) < 2 ^ 63 -> idxs <> [] ->
  distinct_below (Z.of_nat (length (pool_entries t))) idxs ->
  exists ks, fetchWinners (Some idxs) (Some t) = Ok (Some <$> ks) /\
    length ks = length idxs /\
    forall p i, idxs !! p = Some i -> ks !! p = (pool_entries t).*1 !! Z.to_nat i.
Proof. apply fetchWinners_positions. Qed.

End passes.

(** ** Sample draws *)

Module SampleDraw.

Definition HashH (m : bytes) : bytes :=
  put_le 32 (foldl (fun a b => a * 0x10001 + b + 1) 7 m * (2 ^ 61 - 1)).

Definition prng : Hash256PRNG := NewHash256PRNG HashH [1; 2; 3].

Definition put (t : Immutable.t) (n : Z) : Immutable.t :=
  pool_put t (replicate 32 n) (MkValue n 0 false false false false) ((n * 37 + 11) mod 101).

Definition pool : Immutable.t := foldl put pool_new [5; 3; 9; 1; 7; 4].

Lemma put_all l : forall t, pool_ok t -> pool_ok (foldl put t l).
Proof. induction l as [|n l IH]; intros t Ht; [done|]. by apply IH, pool_put_ok. Qed.

Lemma pool_sample_ok : pool_ok pool.
Proof. apply put_all, pool_new_ok. Qed.

End SampleDraw.

Lemma findTicketIdxs_spec_witness :
  exists l prng, findTicketIdxs SampleDraw.HashH 20 6 3 SampleDraw.prng = Some (Ok (l, prng)) /\
    NoDup l /\ length l = 3%nat.
Proof.
  destruct (findTicketIdxs_spec SampleDraw.HashH (fun m => length_put_le 32 _)
    (fun m => put_le_bytes 32 _) 20 6 3 SampleDraw.prng) as (l & c & _ & H1 & H2 & H3 & _);
    [unfold is_u16; lia|lia|lia|vm_compute; discriminate|].
  exists l, (advance SampleDraw.HashH c SampleDraw.prng). split; [exact H1|]. split; [exact H2|lia].
Defined.

Lemma uniformRandom_unbiased_witness :
  uniformMin 40960 = 24576 /\
  Z.of_nat (length (filter (fun r => r mod 40960 = 5)
    (seqZ (uniformMin 40960) (2 ^ 32 - uniformMin 40960)))) = 104857.
Proof.
  split; [reflexivity|].
  destruct (uniformRandom_unbiased 40960 5 ltac:(lia) ltac:(lia)) as [_ E]. exact E.
Defined.

Lemma fetchWinners_spec_witness :
  exists ks, fetchWinners (Some [4; 0; 2]) (Some SampleDraw.pool) = Ok (Some <$> ks) /\
    ks !! 1%nat = Some (replicate 32 1).
Proof.
  destruct (fetchWinners_spec [4; 0; 2] SampleDraw.pool SampleDraw.pool_sample_ok)
    as (ks & H1 & _ & H3); [vm_compute; reflexivity|discriminate| |].
  - split; [|vm_compute; repeat constructor; discriminate].
    apply (bool_decide_unpack _). vm_compute. exact I.
  - exists ks. split; [exact H1|]. rewrite (H3 1%nat 0 eq_refl). vm_compute. reflexivity.
Defined.
