(* ===== verification/WireCommon.v ===== *)
(** * The primitive wire encodings

    [wire/common.go] and [wire/blockheader.go].  An [io.Reader] over a buffer is
    the list of the bytes that are still to be read; a function that reads from it
    returns the value and what is left.  A function that writes to a
    [bytes.Buffer], whose [Write] never fails, is the bytes it appends. *)

From S2P Require Import Prelude.
#[local] Open Scope Z_scope.

(** [io.EOF], [io.ErrUnexpectedEOF], and the [MessageError]s. *)
Inductive wireError :=
| EOF | UnexpectedEOF
| NonCanonicalVarInt | TooLong | TooManyInputs | TooManyOutputs | TooManyTransactions
| WitnessMismatch | WitnessOnlyPrefix | UnsupportedTxType.

Definition reader (A : Type) : Type := bytes -> res wireError (A * bytes).

#[export] Instance reader_ret : MRet reader := fun A a r => Ok (a, r).
#[export] Instance reader_bind : MBind reader := fun A B k m r =>
  '(a, r') ← m r; k a r'.

Definition fail {A} (e : wireError) : reader A := fun _ => Err e.

(** [io.ReadFull] of a buffer of [n] bytes. *)
Definition ReadFull (n : nat) : reader bytes := fun r =>
  if (length r <? n)%nat
  then match r with [] => Err EOF | _ => Err UnexpectedEOF end
  else Ok (take n r, drop n r).

(** The [binarySerializer] readers and writers. *)
Definition Uint8 : reader Z := b ← ReadFull 1; mret (get_le b).
Definition Uint16 : reader Z := b ← ReadFull 2; mret (get_le b).
Definition Uint32 : reader Z := b ← ReadFull 4; mret (get_le b).
Definition Uint64 : reader Z := b ← ReadFull 8; mret (get_le b).

Definition PutUint8 (val : Z) : bytes := put_le 1 val.
Definition PutUint16 (val : Z) : bytes := put_le 2 val.
Definition PutUint32 (val : Z) : bytes := put_le 4 val.
Definition PutUint64 (val : Z) : bytes := put_le 8 val.

Definition MaxMessagePayload : Z := 1024 * 1024 * 32.

Definition ReadVarInt : reader Z :=
  discriminant ← Uint8;
  if discriminant =? 0xff then
    rv ← Uint64;
    if rv <? 0x100000000 then fail NonCanonicalVarInt else mret rv
  else if discriminant =? 0xfe then
    rv ← Uint32;
    if rv <? 0x10000 then fail NonCanonicalVarInt else mret rv
  else if discriminant =? 0xfd then
    rv ← Uint16;
    if rv <? 0xfd then fail NonCanonicalVarInt else mret rv
  else mret discriminant.

Definition WriteVarInt (val : Z) : bytes :=
  if val <? 0xfd then PutUint8 val
  else if val <=? 0xffff then PutUint8 0xfd ++ PutUint16 val
  else if val <=? 0xffffffff then PutUint8 0xfe ++ PutUint32 val
  else PutUint8 0xff ++ PutUint64 val.

Definition VarIntSerializeSize (val : Z) : Z :=
  if val <? 0xfd then 1
  else if val <=? 0xffff then 3
  else if val <=? 0xffffffff then 5
  else 9.

Definition ReadVarBytes (maxAllowed : Z) : reader bytes :=
  count ← ReadVarInt;
  if count >? maxAllowed then fail TooLong
  else ReadFull (Z.to_nat count).

Definition WriteVarBytes (b : bytes) : bytes :=
  WriteVarInt (Z.of_nat (length b)) ++ b.

(** A Go string is its bytes. *)
Definition ReadVarString : reader bytes := ReadVarBytes MaxMessagePayload.
Definition WriteVarString (str : bytes) : bytes := WriteVarBytes str.

(** ** Round trips

    [decodes p e a]: whatever follows the encoding [e], the reader [p] returns
    [a] and leaves exactly what follows.  [strict p enc ok]: whatever [p] accepts
    is the encoding of the well-formed value it returns. *)

Definition decodes {A} (p : reader A) (e : bytes) (a : A) : Prop :=
  forall rest, p (e ++ rest) = Ok (a, rest).

Definition strict {A} (p : reader A) (enc : A -> bytes) (ok : A -> Prop) : Prop :=
  forall b a rest, is_bytes b -> p b = Ok (a, rest) ->
    b = enc a ++ rest /\ ok a /\ is_bytes rest.

Create HintDb wire.

Lemma decodes_ret {A} (a : A) : decodes (mret a) [] a.
Proof. intros rest. reflexivity. Qed.

Lemma decodes_bind {A B} (p : reader A) (k : A -> reader B) e1 e2 a b :
  decodes p e1 a -> decodes (k a) e2 b -> decodes (p ≫= k) (e1 ++ e2) b.
Proof.
  intros H1 H2 rest. rewrite <- app_assoc. unfold mbind, reader_bind.
  rewrite H1. cbn. apply H2.
Qed.

Lemma decodes_bind_ret {A B} (p : reader A) (f : A -> B) e a :
  decodes p e a -> decodes (x ← p; mret (f x)) e (f a).
Proof.
  intros H rest. unfold mbind, reader_bind. rewrite H. reflexivity.
Qed.

Lemma decodes_ReadFull b n : length b = n -> decodes (ReadFull n) b b.
Proof.
  intros <- rest. unfold ReadFull. rewrite length_app.
  destruct (Nat.ltb_spec (length b + length rest) (length b)); [lia|].
  by rewrite take_app_length, drop_app_length.
Qed.

Lemma decodes_uint n x :
  0 <= x < 256 ^ Z.of_nat n ->
  decodes (b ← ReadFull n; mret (get_le b)) (put_le n x) x.
Proof.
  intros Hx. rewrite <- (Z.mod_small x (256 ^ Z.of_nat n)) at 2 by done.
  rewrite <- get_put_le. apply decodes_bind_ret, decodes_ReadFull, length_put_le.
Qed.

Lemma decodes_Uint8 x : is_u8 x -> decodes Uint8 (PutUint8 x) x.
Proof. intros H. apply (decodes_uint 1). exact H. Qed.
Lemma decodes_Uint16 x : is_u16 x -> decodes Uint16 (PutUint16 x) x.
Proof. intros H. apply (decodes_uint 2). exact H. Qed.
Lemma decodes_Uint32 x : is_u32 x -> decodes Uint32 (PutUint32 x) x.
Proof. intros H. apply (decodes_uint 4). exact H. Qed.
Lemma decodes_Uint64 x : is_u64 x -> decodes Uint64 (PutUint64 x) x.
Proof. intros H. apply (decodes_uint 8). exact H. Qed.

#[export] Hint Resolve decodes_ret decodes_bind decodes_ReadFull
  decodes_Uint8 decodes_Uint16 decodes_Uint32 decodes_Uint64 : wire.

Lemma decodes_VarInt x : is_u64 x -> decodes ReadVarInt (WriteVarInt x) x.
Proof.
  intros Hx. unfold is_u64 in Hx. unfold ReadVarInt, WriteVarInt.
  destruct (Z.ltb_spec x 0xfd).
  - rewrite <- (app_nil_r (PutUint8 x)).
    eapply decodes_bind; [apply decodes_Uint8; unfold is_u8; lia|].
    destruct (Z.eqb_spec x 0xff), (Z.eqb_spec x 0xfe), (Z.eqb_spec x 0xfd);
      try lia. apply decodes_ret.
  - destruct (Z.leb_spec x 0xffff); [|destruct (Z.leb_spec x 0xffffffff)];
      (eapply decodes_bind; [apply decodes_Uint8; unfold is_u8; lia|]); cbn [Z.eqb Pos.eqb].
    + rewrite <- (app_nil_r (PutUint16 x)).
      eapply decodes_bind; [apply decodes_Uint16; unfold is_u16; lia|].
      destruct (Z.ltb_spec x 0xfd); [lia|]. apply decodes_ret.
    + rewrite <- (app_nil_r (PutUint32 x)).
      eapply decodes_bind; [apply decodes_Uint32; unfold is_u32; lia|].
      destruct (Z.ltb_spec x 0x10000); [lia|]. apply decodes_ret.
    + rewrite <- (app_nil_r (PutUint64 x)).
      eapply decodes_bind; [apply decodes_Uint64; unfold is_u64; lia|].
      destruct (Z.ltb_spec x 0x100000000); [lia|]. apply decodes_ret.
Qed.

Lemma decodes_VarBytes max b :
  Z.of_nat (length b) <= max -> max < 2 ^ 64 -> decodes (ReadVarBytes max) (WriteVarBytes b) b.
Proof.
  intros Hb Hm. eapply decodes_bind; [apply decodes_VarInt; unfold is_u64; lia|].
  rewrite Z.gtb_ltb. destruct (Z.ltb_spec max (Z.of_nat (length b))); [lia|].
  rewrite Nat2Z.id. by apply decodes_ReadFull.
Qed.

#[export] Hint Resolve decodes_VarInt decodes_VarBytes : wire.

Lemma length_WriteVarInt x : is_u64 x -> Z.of_nat (length (WriteVarInt x)) = VarIntSerializeSize x.
Proof.
  intros _. unfold WriteVarInt, VarIntSerializeSize.
  destruct (x <? 0xfd), (x <=? 0xffff), (x <=? 0xffffffff); reflexivity.
Qed.

(** ** Strictness: only canonical encodings are accepted *)

Lemma strict_ReadFull n : strict (ReadFull n) id (fun b => length b = n /\ is_bytes b).
Proof.
  intros b a rest Hb. unfold ReadFull. destruct (Nat.ltb_spec (length b) n) as [|Hn].
  - by destruct b.
  - intros; simplify_eq. split_and!.
    + symmetry. apply take_drop.
    + rewrite length_take. lia.
    + by apply Forall_take.
    + by apply Forall_drop.
Qed.

Lemma strict_uint n :
  strict (b ← ReadFull n; mret (get_le b)) (put_le n) (fun x => 0 <= x < 256 ^ Z.of_nat n).
Proof.
  intros b a rest Hb H. unfold mbind, reader_bind in H. inv_res.
  destruct x as [x r]. cbn in H0. unfold mret, reader_ret in H0. simplify_eq.
  apply strict_ReadFull in H as (-> & [Hl Hx] & Hr); [|done].
  subst n. unfold id. split; [by rewrite put_get_le|]. split; [by apply get_le_range|done].
Qed.

Lemma reader_bind_Ok {A B} (p : reader A) (k : A -> reader B) b x rest :
  (p ≫= k) b = Ok (x, rest) <-> exists a r, p b = Ok (a, r) /\ k a r = Ok (x, rest).
Proof.
  unfold mbind, reader_bind. rewrite bind_Ok. split.
  - intros ([a r] & H1 & H2). eauto.
  - intros (a & r & H1 & H2). exists (a, r). eauto.
Qed.

(** Sequential composition: the second reader may depend on the first value. *)
Lemma strict_bind {A B} (p : reader A) (k : A -> reader B) (enc1 : A -> bytes)
    (ok1 : A -> Prop) (proj : B -> A) (enc2 : B -> bytes) (ok2 : B -> Prop) :
  strict p enc1 ok1 ->
  (forall a, ok1 a -> strict (k a) enc2 (fun b => proj b = a /\ ok2 b)) ->
  strict (p ≫= k) (fun b => enc1 (proj b) ++ enc2 b) ok2.
Proof.
  intros H1 H2 b x rest Hb (a & r & H & H0)%reader_bind_Ok.
  apply H1 in H as (-> & Ha & Hr); [|done].
  apply (H2 a Ha) in H0 as (-> & [<- Hx] & Hr'); [|done].
  by rewrite app_assoc.
Qed.

Lemma strict_ret {A} (a : A) : strict (mret a) (fun _ => []) (fun x => x = a).
Proof. intros b x rest Hb H. unfold mret, reader_ret in H. by simplify_eq. Qed.

Lemma strict_VarInt : strict ReadVarInt WriteVarInt is_u64.
Proof.
  intros b x rest Hb (d & r & H & H0)%reader_bind_Ok. apply strict_uint in H as (-> & Hd & Hr); [|done]. cbn in Hd.
  assert (Hbig : forall n min, (n = 2 \/ n = 4 \/ n = 8)%nat ->
    (v ← (b ← ReadFull n; mret (get_le b));
     if v <? min then fail NonCanonicalVarInt else mret v) r = Ok (x, rest) ->
    r = put_le n x ++ rest /\ min <= x < 256 ^ Z.of_nat n /\ is_bytes rest).
  { intros n min _ (v & r' & H & H1)%reader_bind_Ok.
    apply strict_uint in H as (-> & Hv & Hr'); [|done].
    destruct (Z.ltb_spec v min); [done|]. unfold mret, reader_ret in H1. simplify_eq.
    split_and!; done || lia. }
  unfold WriteVarInt.
  destruct (Z.eqb_spec d 0xff) as [->|]; [|destruct (Z.eqb_spec d 0xfe) as [->|];
    [|destruct (Z.eqb_spec d 0xfd) as [->|]]].
  - apply (Hbig 8%nat) in H0 as (-> & Hx & Hrest); [|lia]. cbn in Hx.
    destruct (Z.ltb_spec x 0xfd), (Z.leb_spec x 0xffff), (Z.leb_spec x 0xffffffff); try lia.
    rewrite app_assoc. split_and!; try done; unfold is_u64; lia.
  - apply (Hbig 4%nat) in H0 as (-> & Hx & Hrest); [|lia]. cbn in Hx.
    destruct (Z.ltb_spec x 0xfd), (Z.leb_spec x 0xffff), (Z.leb_spec x 0xffffffff); try lia.
    rewrite app_assoc. split_and!; try done; unfold is_u64; lia.
  - apply (Hbig 2%nat) in H0 as (-> & Hx & Hrest); [|lia]. cbn in Hx.
    destruct (Z.ltb_spec x 0xfd), (Z.leb_spec x 0xffff); try lia.
    rewrite app_assoc. split_and!; try done; unfold is_u64; lia.
  - unfold mret, reader_ret in H0. simplify_eq.
    destruct (Z.ltb_spec x 0xfd); [|lia]. split_and!; try done; unfold is_u64; lia.
Qed.

Lemma strict_VarBytes max :
  strict (ReadVarBytes max) WriteVarBytes (fun b => is_bytes b /\ Z.of_nat (length b) <= max).
Proof.
  intros b x rest Hb (c & r & H & H0)%reader_bind_Ok. apply strict_VarInt in H as (-> & Hc & Hr); [|done].
  rewrite Z.gtb_ltb in H0. destruct (Z.ltb_spec max c); [done|].
  apply strict_ReadFull in H0 as (-> & [Hl Hx] & Hrest); [|done].
  unfold WriteVarBytes, is_u64 in *.
  replace (Z.of_nat (length x)) with c by lia. unfold id.
  rewrite app_assoc. split_and!; try done; lia.
Qed.

(** ReadVarInt accepts exactly the shortest encodings: it reads [v] off the
    front of a byte string and leaves [rest] if and only if [v] is a 64-bit number
    and the byte string is WriteVarInt's output for [v] followed by [rest]; and
    VarIntSerializeSize predicts the length of that output. *)
Theorem varint_canonical (b : bytes) (v : Z) (rest : bytes) :
  is_bytes b ->
  (ReadVarInt b = Ok (v, rest) <->
   is_u64 v /\ is_bytes rest /\ b = WriteVarInt v ++ rest) /\
  (is_u64 v -> Z.of_nat (length (WriteVarInt v)) = VarIntSerializeSize v).
Proof.
  intros Hb. split; [|apply length_WriteVarInt]. split.
  - intros H. apply strict_VarInt in H; naive_solver.
  - intros (Hv & Hr & ->). by apply decodes_VarInt.
Qed.

Lemma varint_canonical_witness :
  ReadVarInt [0xfd; 0xfd; 0x00; 0x07] = Ok (0xfd, [0x07]) /\
  ReadVarInt [0xfd; 0xfc; 0x00; 0x07] = Err NonCanonicalVarInt.
Proof.
  split; [|reflexivity].
  apply (varint_canonical [0xfd; 0xfd; 0x00; 0x07] 0xfd [0x07]).
  - repeat constructor; lia.
  - split_and!; [unfold is_u64; lia..|repeat constructor; lia|reflexivity].
Defined.

(** ** readElement and writeElement *)

(** The Go types the two functions switch on: the integer types (with the named
    types [ServiceFlag], [InvType], [CurrencyNet], [BloomUpdateType] and
    [RejectCode] over them), [bool], the two timestamp encodings, and the byte
    arrays ([4], [12], [16], [32], and by way of [encoding/binary] [6]). *)
Inductive elem :=
| EInt32 | EUint32 | EInt64 | EUint64 | EBool | EUint32Time | EInt64Time
| EUint8 | EUint16 | EArray (n : nat).

Inductive val := VNum (z : Z) | VBool (b : bool) | VArray (b : bytes).

Definition readElement (e : elem) : reader val :=
  match e with
  | EInt32 => rv ← Uint32; mret (VNum (i32 rv))
  | EUint32 => rv ← Uint32; mret (VNum rv)
  | EInt64 => rv ← Uint64; mret (VNum (i64 rv))
  | EUint64 => rv ← Uint64; mret (VNum rv)
  | EBool => rv ← Uint8; mret (VBool (negb (rv =? 0)))
  | EUint32Time => rv ← Uint32; mret (VNum rv)
  | EInt64Time => rv ← Uint64; mret (VNum (i64 rv))
  | EUint8 => rv ← Uint8; mret (VNum rv)
  | EUint16 => rv ← Uint16; mret (VNum rv)
  | EArray n => b ← ReadFull n; mret (VArray b)
  end.

Definition writeElement (e : elem) (v : val) : bytes :=
  match e, v with
  | EInt32, VNum z => PutUint32 (u32 z)
  | (EUint32 | EUint32Time), VNum z => PutUint32 z
  | (EInt64 | EInt64Time), VNum z => PutUint64 (u64 z)
  | EUint64, VNum z => PutUint64 z
  | EBool, VBool b => PutUint8 (if b then 1 else 0)
  | EUint8, VNum z => PutUint8 z
  | EUint16, VNum z => PutUint16 z
  | EArray _, VArray b => b
  | _, _ => []
  end.

Fixpoint readElements (es : list elem) : reader (list val) :=
  match es with
  | [] => mret []
  | e :: es => v ← readElement e; vs ← readElements es; mret (v :: vs)
  end.

Fixpoint writeElements (es : list elem) (vs : list val) : bytes :=
  match es, vs with
  | e :: es, v :: vs => writeElement e v ++ writeElements es vs
  | _, _ => []
  end.

(** A value of the type. *)
Definition has_type (e : elem) (v : val) : Prop :=
  match e, v with
  | EInt32, VNum z => is_i32 z
  | (EUint32 | EUint32Time), VNum z => is_u32 z
  | (EInt64 | EInt64Time), VNum z => is_i64 z
  | EUint64, VNum z => is_u64 z
  | EBool, VBool b => True
  | EUint8, VNum z => is_u8 z
  | EUint16, VNum z => is_u16 z
  | EArray n, VArray b => length b = n /\ is_bytes b
  | _, _ => False
  end.

Lemma i32_u32 z : is_i32 z -> i32 (u32 z) = z.
Proof. ilia. Qed.
Lemma i64_u64 z : is_i64 z -> i64 (u64 z) = z.
Proof. ilia. Qed.
Lemma u32_i32 z : is_u32 z -> u32 (i32 z) = z.
Proof. ilia. Qed.
Lemma u64_i64 z : is_u64 z -> u64 (i64 z) = z.
Proof. ilia. Qed.

Lemma decodes_element e v : has_type e v -> decodes (readElement e) (writeElement e v) v.
Proof.
  destruct e, v; cbn [readElement writeElement has_type]; intros H; try done.
  all: try (apply (decodes_bind_ret _ VNum); auto with wire; fail).
  - rewrite <- (i32_u32 z) at 2 by done.
    apply (decodes_bind_ret _ (fun x => VNum (i32 x))). auto with wire goint.
  - rewrite <- (i64_u64 z) at 2 by done.
    apply (decodes_bind_ret _ (fun x => VNum (i64 x))). auto with wire goint.
  - replace (VBool b) with (VBool (negb ((if b then 1 else 0) =? 0))) by (by destruct b).
    apply (decodes_bind_ret _ (fun x => VBool (negb (x =? 0)))).
    apply decodes_Uint8. unfold is_u8. destruct b; lia.
  - rewrite <- (i64_u64 z) at 2 by done.
    apply (decodes_bind_ret _ (fun x => VNum (i64 x))). auto with wire goint.
  - destruct H as [H _]. apply (decodes_bind_ret _ VArray). auto with wire.
Qed.

Lemma decodes_elements es vs :
  Forall2 has_type es vs -> decodes (readElements es) (writeElements es vs) vs.
Proof.
  induction 1 as [|e v es vs Hv Hvs IH]; cbn; [apply decodes_ret|].
  eapply decodes_bind; [by apply decodes_element|].
  apply (decodes_bind_ret _ (cons v)), IH.
Qed.

(** Reading a [bool] accepts every nonzero byte; the other elements have one
    encoding. *)
Lemma strict_element e : e <> EBool -> strict (readElement e) (writeElement e) (has_type e).
Proof.
  intros He b v rest Hb H.
  destruct e; try done; apply reader_bind_Ok in H as (x & r & H & H0);
    unfold mret, reader_ret in H0; simplify_eq; cbn [writeElement has_type].
  all: try (apply strict_uint in H as (-> & Hx & Hr); [|done]).
  all: try (split_and!; [..|done]; try apply i32_range; try apply i64_range; done).
  all: try (rewrite ?u32_i32, ?u64_i64 by done; split_and!; [done|..];
            try apply i32_range; try apply i64_range; done).
  apply strict_ReadFull in H as (-> & [Hl Hx] & Hr); [|done]. done.
Qed.

Lemma strict_elements es :
  EBool ∉ es -> strict (readElements es) (writeElements es) (Forall2 has_type es).
Proof.
  induction es as [|e es IH]; intros He b vs rest Hb H; cbn in H.
  - apply strict_ret in H as (-> & -> & Hr); [|done]. split_and!; [done|constructor|done].
  - apply not_elem_of_cons in He as [He1 He2].
    apply reader_bind_Ok in H as (v & r & H & H0).
    apply reader_bind_Ok in H0 as (vs' & r' & H0 & H1).
    unfold mret, reader_ret in H1; simplify_eq.
    apply strict_element in H as (-> & Hv & Hr); [|done..].
    apply IH in H0 as (-> & Hvs & Hr'); [|done..].
    split_and!; [cbn [writeElements]; by rewrite <- app_assoc|by constructor|done].
Qed.

(** ** Block headers *)

(** [Timestamp] is the Unix time in seconds; the sub-second part of a [time.Time]
    is not encoded. *)
Record BlockHeader := MkHeader {
  h_Version : Z;
  h_PrevBlock : bytes;
  h_PrevKeyBlock : bytes;
  h_MerkleRoot : bytes;
  h_StakeRoot : bytes;
  h_VoteBits : Z;
  h_FinalState : bytes;
  h_Voters : Z;
  h_FreshStake : Z;
  h_Revocations : Z;
  h_PoolSize : Z;
  h_Bits : Z;
  h_SBits : Z;
  h_Height : Z;
  h_KeyHeight : Z;
  h_Size : Z;
  h_Timestamp : Z;
  h_Nonce : Z;
  h_ExtraData : bytes;
  h_StakeVersion : Z
}.

(** The types of the elements, in the order of the calls. *)
Definition header_elems : list elem :=
  [EInt32; EArray 32; EArray 32; EArray 32; EArray 32; EUint16; EArray 6; EUint16;
   EUint8; EUint8; EUint32; EUint32; EInt64; EUint32; EUint32; EUint32; EUint32Time;
   EArray 32; EUint32; EUint32].

Definition writeBlockHeader (bh : BlockHeader) : bytes :=
  let sec := u32 (h_Timestamp bh) in
  writeElements header_elems
    [VNum (h_Version bh); VArray (h_PrevBlock bh); VArray (h_PrevKeyBlock bh);
     VArray (h_MerkleRoot bh); VArray (h_StakeRoot bh); VNum (h_VoteBits bh);
     VArray (h_FinalState bh); VNum (h_Voters bh); VNum (h_FreshStake bh);
     VNum (h_Revocations bh); VNum (h_PoolSize bh); VNum (h_Bits bh); VNum (h_SBits bh);
     VNum (h_Height bh); VNum (h_KeyHeight bh); VNum (h_Size bh); VNum sec;
     VArray (h_ExtraData bh); VNum (h_Nonce bh); VNum (h_StakeVersion bh)].

Definition readBlockHeader : reader BlockHeader :=
  vs ← readElements header_elems;
  match vs with
  | [VNum version; VArray prev; VArray prevKey; VArray merkle; VArray stake; VNum votebits;
     VArray finalState; VNum voters; VNum fresh; VNum revocations; VNum poolSize; VNum bits;
     VNum sbits; VNum height; VNum keyHeight; VNum size; VNum timestamp; VArray extra;
     VNum nonce; VNum stakeVersion] =>
      mret (MkHeader version prev prevKey merkle stake votebits finalState voters fresh
        revocations poolSize bits sbits height keyHeight size timestamp nonce extra stakeVersion)
  | _ => fail EOF
  end.

(** [BlockHeader.Bytes]; writing to a buffer does not fail. *)
Definition header_Bytes (bh : BlockHeader) : res wireError bytes := Ok (writeBlockHeader bh).

Definition MaxBlockHeaderPayload : Z := 84 + 4 + 32 * 4.

(** A header whose fields are values of their Go types, with a timestamp that
    the encoding can represent. *)
Definition header_ok (bh : BlockHeader) : Prop :=
  is_i32 (h_Version bh) /\
  Forall (fun h => length h = 32%nat /\ is_bytes h)
    [h_PrevBlock bh; h_PrevKeyBlock bh; h_MerkleRoot bh; h_StakeRoot bh; h_ExtraData bh] /\
  is_u16 (h_VoteBits bh) /\
  (length (h_FinalState bh) = 6%nat /\ is_bytes (h_FinalState bh)) /\
  is_u16 (h_Voters bh) /\ is_u8 (h_FreshStake bh) /\ is_u8 (h_Revocations bh) /\
  is_i64 (h_SBits bh) /\
  Forall is_u32 [h_PoolSize bh; h_Bits bh; h_Height bh; h_KeyHeight bh; h_Size bh;
    h_Timestamp bh; h_Nonce bh; h_StakeVersion bh].

Ltac inv_Forall :=
  repeat match goal with
  | H : Forall _ (_ :: _) |- _ =>
      let H' := fresh H in apply Forall_cons_1 in H as [? H']
  | H : Forall2 _ (_ :: _) ?l |- _ =>
      let H' := fresh H in apply Forall2_cons_inv_l in H as (? & ? & ? & H' & ->)
  | H : Forall2 _ [] ?l |- _ => apply Forall2_nil_inv_l in H as ->
  | H : has_type ?e ?v |- _ => destruct v; cbn in H; try done; []
  end.

Lemma decodes_header bh :
  header_ok bh -> decodes readBlockHeader (writeBlockHeader bh) bh.
Proof.
  destruct bh. intros H. unfold header_ok in H. cbn in H.
  destruct H as (? & Hs & ? & ? & ? & ? & ? & ? & Hu). inv_Forall.
  unfold readBlockHeader, writeBlockHeader. cbv zeta.
  rewrite <- (app_nil_r (writeElements _ _)).
  eapply decodes_bind.
  - apply decodes_elements.
    repeat first [apply List.Forall2_nil | apply List.Forall2_cons];
      cbn [has_type]; auto with goint.
  - cbn. rewrite u32_small by done. apply decodes_ret.
Qed.

Lemma strict_header : strict readBlockHeader writeBlockHeader header_ok.
Proof.
  intros b bh rest Hb (vs & r & H & H0)%reader_bind_Ok.
  apply strict_elements in H as (-> & Hvs & Hr); [| |done]; cycle 1.
  { intros Hin. repeat (apply elem_of_cons in Hin as [Hin|Hin]; [discriminate|]).
    by apply not_elem_of_nil in Hin. }
  unfold header_elems in Hvs. inv_Forall.
  unfold mret, reader_ret in H0. simplify_eq.
  split; [|split; [|done]].
  - f_equal. unfold writeBlockHeader; cbn [h_Timestamp]. by rewrite u32_small by done.
  - unfold header_ok; cbn. repeat match goal with H : _ /\ _ |- _ => destruct H end.
    split_and!; auto; repeat (apply Forall_cons_2; auto); apply Forall_nil_2.
Qed.

Lemma writeBlockHeader_length bh :
  header_ok bh -> Z.of_nat (length (writeBlockHeader bh)) = MaxBlockHeaderPayload.
Proof.
  destruct bh. unfold header_ok. cbn. intros (? & Hs & ? & [Hf ?] & ? & ? & ? & ? & Hu).
  inv_Forall. repeat match goal with H : _ /\ _ |- _ => destruct H end.
  unfold MaxBlockHeaderPayload, PutUint8, PutUint16, PutUint32, PutUint64.
  repeat (rewrite length_app || rewrite length_put_le || cbn [length]). lia.
Qed.

(** A block header is read back exactly as it was written: reading a header
    off the front of a byte string succeeds with [bh] and leaves [rest] if and
    only if the byte string is the 216-byte encoding of [bh], a header whose
    fields fit their types, followed by [rest]. *)
Theorem header_roundtrip (b : bytes) (bh : BlockHeader) (rest : bytes) :
  is_bytes b ->
  (readBlockHeader b = Ok (bh, rest) <->
   header_ok bh /\ is_bytes rest /\ b = writeBlockHeader bh ++ rest) /\
  (header_ok bh -> Z.of_nat (length (writeBlockHeader bh)) = 216).
Proof.
  intros Hb. split; [|apply writeBlockHeader_length]. split.
  - intros H. apply strict_header in H; naive_solver.
  - intros (Hv & Hr & ->). by apply decodes_header.
Qed.

Definition sample_header : BlockHeader :=
  {| h_Version := -1; h_PrevBlock := replicate 32 1; h_PrevKeyBlock := replicate 32 2;
     h_MerkleRoot := replicate 32 3; h_StakeRoot := replicate 32 4; h_VoteBits := 1;
     h_FinalState := [1; 2; 3; 4; 5; 6]; h_Voters := 5; h_FreshStake := 20;
     h_Revocations := 1; h_PoolSize := 40960; h_Bits := 0x1d00ffff; h_SBits := -2;
     h_Height := 100000; h_KeyHeight := 8000; h_Size := 1024; h_Timestamp := 1500000000;
     h_Nonce := 7; h_ExtraData := replicate 32 9; h_StakeVersion := 4 |}.

Lemma sample_header_ok : header_ok sample_header.
Proof.
  unfold header_ok, is_i32, is_u16, is_u8, is_i64; cbn.
  split_and!; try lia; repeat (constructor; try done; try lia; repeat constructor; try done).
Qed.

Lemma header_roundtrip_witness :
  readBlockHeader (writeBlockHeader sample_header ++ [42]) = Ok (sample_header, [42]).
Proof.
  apply (header_roundtrip (writeBlockHeader sample_header ++ [42]) sample_header [42]).
  - apply Forall_app. split; [|repeat constructor; lia].
    vm_compute. repeat constructor; try discriminate.
  - split_and!; [apply sample_header_ok|repeat constructor; lia|reflexivity].
Defined.
