(* ===== verification/TicketDb.v ===== *)
(** * The ticket database

    [blockchain/stake/internal/ticketdb/chainio.go]: the serialized formats of the
    database information, the best chain state, the undo data and the ticket
    hashes, and the operations on the buckets.

    A database transaction is the contents of the metadata bucket it sees, and a
    writable one; a bucket is a finite map from byte strings to byte strings, in
    which a key with an empty value differs from a missing key, and whose [ForEach]
    runs in key order ([database/interface.go], [database/ffldb]).  A stored value
    is read as a slice whose capacity is its length.  A date is a Unix time in
    seconds. *)

From S2P Require Import Prelude TreapCore TicketTreap.
From stdpp Require Import sorting.
#[local] Open Scope Z_scope.

(** The error codes of [ticketdb/error.go], and the database's own error for a
    bucket that exists. *)
Inductive dbError :=
| ErrUndoDataShortRead | ErrUndoDataCorrupt
| ErrTicketHashesShortRead | ErrTicketHashesCorrupt
| ErrUninitializedBucket | ErrMissingKey
| ErrChainStateShortRead | ErrDatabaseInfoShortRead | ErrLoadAllTickets
| ErrBucketExists.

Definition HashSizeN : nat := 32.

(** [chainhash.NewHash] *)
Definition NewHash (b : bytes) : option bytes :=
  if (length b =? HashSizeN)%nat then Some b else None.

(** The slice [b[from:from+n]]; [None] when it exceeds the length. *)
Definition slice (b : bytes) (from n : nat) : option bytes :=
  if (from + n <=? length b)%nat then Some (take n (drop from b)) else None.

(** ** Database information *)

Definition upgradeStartedBit : Z := 0x80000000.
Definition currentDatabaseVersion : Z := 1.
Definition databaseInfoSize : nat := 8.

Record DatabaseInfo := MkDbInfo {
  Version : Z;
  Date : Z;
  UpgradeStarted : bool
}.

Definition serializeDatabaseInfo (dbi : DatabaseInfo) : bytes :=
  let version :=
    if UpgradeStarted dbi then Z.lor (Version dbi) upgradeStartedBit else Version dbi in
  put_le 4 version ++ put_le 4 (u32 (Date dbi)).

Definition deserializeDatabaseInfo (b : bytes) : res dbError DatabaseInfo :=
  if (length b <? databaseInfoSize)%nat then Err ErrDatabaseInfoShortRead
  else
    let rawVersion := get_le (take 4 b) in
    let ts := get_le (take 4 (drop 4 b)) in
    Ok {| Version := Z.land rawVersion (Z.lnot upgradeStartedBit);
          Date := ts;
          UpgradeStarted := Z.land upgradeStartedBit rawVersion >? 0 |}.

(** ** Best chain state *)

Record BestChainState := MkBest {
  bs_Hash : bytes;
  bs_Height : Z;
  bs_KeyHeight : Z;
  bs_Live : Z;
  bs_Missed : Z;
  bs_Revoked : Z;
  bs_PerBlock : Z;
  bs_NextWinners : list bytes
}.

Definition minimumBestChainStateSize : nat := 32 + 4 + 4 + 4 + 8 + 8 + 2.

(** The fields before the winners. *)
Definition bestStateFixed (state : BestChainState) : bytes :=
  bs_Hash state ++ put_le 4 (bs_Height state) ++ put_le 4 (bs_KeyHeight state) ++
  put_le 4 (bs_Live state) ++ put_le 8 (bs_Missed state) ++ put_le 8 (bs_Revoked state) ++
  put_le 2 (bs_PerBlock state).

(** The buffer has room for [PerBlock] winners; the slots of missing winners stay
    zero.  A winner past the buffer's length is copied into the spare capacity that
    [append] left, which the result does not show, and panics only past that
    capacity; [append_cap n] is the capacity of a buffer of length [n], which the
    language leaves open. *)
Definition serializeBestChainState (append_cap : nat -> nat) (state : BestChainState)
    : res dbError bytes :=
  let total := (minimumBestChainStateSize + HashSizeN * Z.to_nat (bs_PerBlock state))%nat in
  let n := length (bs_NextWinners state) in
  if (minimumBestChainStateSize + HashSizeN * n <=? Nat.max total (append_cap total))%nat
  then
    Ok (take total
      (bestStateFixed state ++ concat (bs_NextWinners state) ++
       replicate (HashSizeN * (Z.to_nat (bs_PerBlock state) - n)) 0))
  else Panic.

(** [n] hashes from the front of a byte string. *)
Fixpoint read_hashes (n : nat) (b : bytes) : option (list bytes) :=
  match n with
  | O => Some []
  | S n =>
      h ← slice b 0 HashSizeN;
      hs ← read_hashes n (drop HashSizeN b);
      Some (h :: hs)
  end.

Definition deserializeBestChainState (b : bytes) : res dbError BestChainState :=
  if (length b <? minimumBestChainStateSize)%nat then Err ErrChainStateShortRead
  else
    let perBlock := get_le (take 2 (drop 60 b)) in
    winners ← or_panic (read_hashes (Z.to_nat perBlock) (drop 62 b));
    Ok {| bs_Hash := take 32 b;
          bs_Height := get_le (take 4 (drop 32 b));
          bs_KeyHeight := get_le (take 4 (drop 36 b));
          bs_Live := get_le (take 4 (drop 40 b));
          bs_Missed := get_le (take 8 (drop 44 b));
          bs_Revoked := get_le (take 8 (drop 52 b));
          bs_PerBlock := perBlock;
          bs_NextWinners := winners |}.

(** ** Undo data *)

Record UndoTicketData := MkUndo {
  TicketHash : bytes;
  TicketHeight : Z;
  TicketKeyHeight : Z;
  u_Missed : bool;
  u_Revoked : bool;
  u_Spent : bool;
  u_Expired : bool
}.

Definition undoTicketDataSize : nat := 37 + 4.

Definition undoBitFlagsToByte (missed revoked spent expired : bool) : Z :=
  let b := 0 in
  let b := if missed then Z.lor b (Z.shiftl 1 0) else b in
  let b := if revoked then Z.lor b (Z.shiftl 1 1) else b in
  let b := if spent then Z.lor b (Z.shiftl 1 2) else b in
  if expired then Z.lor b (Z.shiftl 1 3) else b.

Definition undoBitFlagsFromByte (b : Z) : bool * bool * bool * bool :=
  (Z.land b (Z.shiftl 1 0) >? 0, Z.land b (Z.shiftl 1 1) >? 0,
   Z.land b (Z.shiftl 1 2) >? 0, Z.land b (Z.shiftl 1 3) >? 0).

Definition serializeUndo (utd : UndoTicketData) : bytes :=
  TicketHash utd ++ put_le 4 (TicketHeight utd) ++ put_le 4 (TicketKeyHeight utd) ++
  [undoBitFlagsToByte (u_Missed utd) (u_Revoked utd) (u_Spent utd) (u_Expired utd)].

Definition serializeBlockUndoData (utds : list UndoTicketData) : bytes :=
  concat (serializeUndo <$> utds).

(** One entry at the front of a byte string of at least [undoTicketDataSize]
    bytes. *)
Definition deserializeUndo (b : bytes) : UndoTicketData :=
  let '(missed, revoked, spent, expired) := undoBitFlagsFromByte (nth 40 b 0) in
  {| TicketHash := take 32 b;
     TicketHeight := get_le (take 4 (drop 32 b));
     TicketKeyHeight := get_le (take 4 (drop 36 b));
     u_Missed := missed; u_Revoked := revoked; u_Spent := spent; u_Expired := expired |}.

Fixpoint undo_loop (entries : nat) (b : bytes) : list UndoTicketData :=
  match entries with
  | O => []
  | S n => deserializeUndo b :: undo_loop n (drop undoTicketDataSize b)
  end.

(** [None] is the nil slice. *)
Definition deserializeBlockUndoData (b : option bytes) : res dbError (list UndoTicketData) :=
  match b with
  | Some [] => Ok []
  | _ =>
      let b := default [] b in
      if (length b <? undoTicketDataSize)%nat then Err ErrUndoDataShortRead
      else if negb (length b mod undoTicketDataSize =? 0)%nat then Err ErrUndoDataCorrupt
      else Ok (undo_loop (length b / undoTicketDataSize) b)
  end.

(** ** Ticket hashes *)

Definition serializeTicketHashes (ths : list bytes) : bytes := concat ths.

Definition deserializeTicketHashes (b : option bytes) : res dbError (list bytes) :=
  match b with
  | Some [] => Ok []
  | _ =>
      let b := default [] b in
      if (length b <? HashSizeN)%nat then Err ErrTicketHashesShortRead
      else if negb (length b mod HashSizeN =? 0)%nat then Err ErrTicketHashesCorrupt
      else
        match read_hashes (length b / HashSizeN) b with
        | Some hs => Ok hs
        | None => Err ErrUndoDataCorrupt
        end
  end.

(** ** The buckets

    The metadata bucket of a transaction: its own keys and its sub-buckets, under
    the names of [dbnamespace].  Calling a method of a bucket that does not exist
    is a nil dereference. *)

Definition StakeDbInfoBucketName : string := "stakedbinfo".
Definition StakeChainStateKeyName : string := "stakechainstate".
Definition LiveTicketsBucketName : string := "livetickets".
Definition MissedTicketsBucketName : string := "missedtickets".
Definition RevokedTicketsBucketName : string := "revokedtickets".
Definition StakeBlockUndoDataBucketName : string := "stakeblockundo".
Definition TicketsInBlockBucketName : string := "ticketsinblock".

Notation bucket := (gmap (list Z) (list Z)) (only parsing).

Record Tx := MkTx {
  meta : gmap string (list Z);
  buckets : gmap string (gmap (list Z) (list Z))
}.

(** The bytes of a name, for a key that is a name. *)
Definition name_bytes (s : string) : bytes :=
  (fun c => Z.of_N (Ascii.N_of_ascii c)) <$> String.list_ascii_of_string s.

Definition Bucket (tx : Tx) (name : string) : res dbError bucket :=
  or_panic (buckets tx !! name).

Definition bucket_put (tx : Tx) (name : string) (k v : bytes) : res dbError Tx :=
  b ← Bucket tx name;
  Ok (MkTx (meta tx) (<[name := <[k := v]> b]> (buckets tx))).

Definition bucket_delete (tx : Tx) (name : string) (k : bytes) : res dbError Tx :=
  b ← Bucket tx name;
  Ok (MkTx (meta tx) (<[name := delete k b]> (buckets tx))).

Definition CreateBucket (tx : Tx) (name : string) : res dbError Tx :=
  match buckets tx !! name with
  | Some _ => Err ErrBucketExists
  | None => Ok (MkTx (meta tx) (<[name := ∅]> (buckets tx)))
  end.

Definition DbPutDatabaseInfo (tx : Tx) (dbi : DatabaseInfo) : res dbError Tx :=
  bucket_put tx StakeDbInfoBucketName (name_bytes StakeDbInfoBucketName)
    (serializeDatabaseInfo dbi).

(** A missing bucket gives a nil result without an error. *)
Definition DbFetchDatabaseInfo (tx : Tx) : res dbError (option DatabaseInfo) :=
  match buckets tx !! StakeDbInfoBucketName with
  | None => Ok None
  | Some b =>
      match b !! name_bytes StakeDbInfoBucketName with
      | None => Err ErrMissingKey
      | Some v => Some <$> deserializeDatabaseInfo v
      end
  end.

Definition DbFetchBestState (tx : Tx) : res dbError BestChainState :=
  match meta tx !! StakeChainStateKeyName with
  | None => Err ErrMissingKey
  | Some v => deserializeBestChainState v
  end.

Definition DbPutBestState (append_cap : nat -> nat) (tx : Tx) (bcs : BestChainState)
    : res dbError Tx :=
  v ← serializeBestChainState append_cap bcs;
  Ok (MkTx (<[StakeChainStateKeyName := v]> (meta tx)) (buckets tx)).

Definition DbFetchBlockUndoData (tx : Tx) (height : Z) : res dbError (list UndoTicketData) :=
  b ← Bucket tx StakeBlockUndoDataBucketName;
  match b !! put_le 4 height with
  | None => Err ErrMissingKey
  | Some v => deserializeBlockUndoData (Some v)
  end.

Definition DbPutBlockUndoData (tx : Tx) (height : Z) (utds : list UndoTicketData)
    : res dbError Tx :=
  bucket_put tx StakeBlockUndoDataBucketName (put_le 4 height) (serializeBlockUndoData utds).

Definition DbDropBlockUndoData (tx : Tx) (height : Z) : res dbError Tx :=
  bucket_delete tx StakeBlockUndoDataBucketName (put_le 4 height).

Definition DbFetchNewTickets (tx : Tx) (height : Z) : res dbError (list bytes) :=
  b ← Bucket tx TicketsInBlockBucketName;
  match b !! put_le 4 height with
  | None => Err ErrMissingKey
  | Some v => deserializeTicketHashes (Some v)
  end.

Definition DbPutNewTickets (tx : Tx) (height : Z) (ths : list bytes) : res dbError Tx :=
  bucket_put tx TicketsInBlockBucketName (put_le 4 height) (serializeTicketHashes ths).

Definition DbDropNewTickets (tx : Tx) (height : Z) : res dbError Tx :=
  bucket_delete tx TicketsInBlockBucketName (put_le 4 height).

Definition DbDeleteTicket (tx : Tx) (ticketBucket : string) (hash : bytes) : res dbError Tx :=
  b ← Bucket tx ticketBucket;
  match b !! hash with
  | None => Err ErrMissingKey
  | Some _ => bucket_delete tx ticketBucket hash
  end.

(** The bytes stored for a ticket. *)
Definition ticketBytes (height keyHeight : Z) (missed revoked spent expired : bool) : bytes :=
  put_le 4 height ++ put_le 4 keyHeight ++ [undoBitFlagsToByte missed revoked spent expired].

Definition DbPutTicket (tx : Tx) (ticketBucket : string) (hash : bytes)
    (height keyHeight : Z) (missed revoked spent expired : bool) : res dbError Tx :=
  bucket_put tx ticketBucket hash (ticketBytes height keyHeight missed revoked spent expired).

(** The value [DbLoadAllTickets] makes of a pair; both failures of the callback
    make the load fail with the same error. *)
Definition loadTicket (k v : bytes) : option Value :=
  if (length v <? 9)%nat then None
  else
    h ← NewHash k;
    let '(missed, revoked, spent, expired) := undoBitFlagsFromByte (nth 8 v 0) in
    Some {| Height := get_le (take 4 v); KeyHeight := get_le (take 4 (drop 4 v));
            Missed := missed; Revoked := revoked; Spent := spent; Expired := expired |}.

(** [ForEach] of a bucket visits its pairs in the order of their keys. *)
Definition key_le (a b : bytes * bytes) : Prop := bytes_compare a.1 b.1 <> Gt.
#[export] Instance key_le_dec a b : Decision (key_le a b).
Proof. unfold key_le. apply _. Defined.

Definition sorted_pairs (b : bucket) : list (bytes * bytes) := merge_sort key_le (map_to_list b).

Section load.
Context `{TicketPool T} {R : Type} (rng_Int : R -> Z * R).

Definition DbLoadAllTickets (tx : Tx) (ticketBucket : string) : stM R dbError T :=
  b ← lift (Bucket tx ticketBucket);
  foldS (fun treap '(k, v) rng =>
      match loadTicket k v with
      | None => Err ErrLoadAllTickets
      | Some value =>
          let '(prio, rng) := rng_Int rng in
          Ok (pool_put treap k value prio, rng)
      end)
    pool_new (sorted_pairs b).

End load.

Definition DbCreate (now : Z) (tx : Tx) : res dbError Tx :=
  tx ← CreateBucket tx StakeDbInfoBucketName;
  tx ← DbPutDatabaseInfo tx
         {| Version := currentDatabaseVersion; Date := now; UpgradeStarted := false |};
  tx ← CreateBucket tx LiveTicketsBucketName;
  tx ← CreateBucket tx MissedTicketsBucketName;
  tx ← CreateBucket tx RevokedTicketsBucketName;
  tx ← CreateBucket tx StakeBlockUndoDataBucketName;
  CreateBucket tx TicketsInBlockBucketName.

(** ** Layout lemmas *)

Lemma field_at (pre x post : bytes) (m n : nat) :
  length pre = m -> length x = n -> take n (drop m (pre ++ x ++ post)) = x.
Proof. intros <- <-. rewrite drop_app_length. apply take_app_length. Qed.

Lemma get_le_u16 x : is_u16 x -> get_le (put_le 2 x) = x.
Proof. intros H. rewrite get_put_le. by apply Z.mod_small. Qed.
Lemma get_le_u32 x : is_u32 x -> get_le (put_le 4 x) = x.
Proof. intros H. rewrite get_put_le. by apply Z.mod_small. Qed.
Lemma get_le_u64 x : is_u64 x -> get_le (put_le 8 x) = x.
Proof. intros H. rewrite get_put_le. by apply Z.mod_small. Qed.

Lemma put_le_inj n x y :
  0 <= x < 256 ^ Z.of_nat n -> 0 <= y < 256 ^ Z.of_nat n -> put_le n x = put_le n y -> x = y.
Proof.
  intros Hx Hy E. apply (f_equal get_le) in E. rewrite !get_put_le in E.
  by rewrite !Z.mod_small in E.
Qed.

Lemma undoBitFlags_roundtrip m r s e :
  undoBitFlagsFromByte (undoBitFlagsToByte m r s e) = (m, r, s, e).
Proof. by destruct m, r, s, e. Qed.

Lemma undoBitFlags_range m r s e : 0 <= undoBitFlagsToByte m r s e < 16.
Proof. by destruct m, r, s, e. Qed.

Lemma undoBitFlags_canonical b :
  0 <= b < 16 ->
  let '(m, r, s, e) := undoBitFlagsFromByte b in undoBitFlagsToByte m r s e = b.
Proof.
  intros H.
  assert (G : Forall (fun b => let '(m, r, s, e) := undoBitFlagsFromByte b in
    undoBitFlagsToByte m r s e = b) (seqZ 0 16)) by (vm_compute; repeat constructor).
  rewrite Forall_forall in G. apply (G b). apply elem_of_seqZ. lia.
Qed.

(** Sequences of hashes. *)
Definition is_hash (h : bytes) : Prop := length h = HashSizeN.

Lemma length_concat_hashes hs : Forall is_hash hs -> length (concat hs) = (HashSizeN * length hs)%nat.
Proof.
  induction 1 as [|h hs Hh Hhs IH]; cbn [concat length]; [done|].
  rewrite length_app, IH, Hh. lia.
Qed.

Lemma read_hashes_concat hs rest :
  Forall is_hash hs -> read_hashes (length hs) (concat hs ++ rest) = Some hs.
Proof.
  induction 1 as [|h hs Hh Hhs IH]; cbn [concat length read_hashes]; [done|].
  unfold slice. rewrite <- app_assoc, length_app, Hh.
  destruct (Nat.leb_spec (0 + HashSizeN) (HashSizeN + length (concat hs ++ rest))); [|lia].
  cbn [mbind option_bind].
  rewrite drop_0, take_app_length' by done. rewrite drop_app_length' by done.
  by rewrite IH.
Qed.

Lemma read_hashes_total n b :
  (HashSizeN * n <= length b)%nat ->
  exists hs, read_hashes n b = Some hs /\ length hs = n /\ Forall is_hash hs /\
    concat hs = take (HashSizeN * n) b.
Proof.
  revert b; induction n as [|n IH]; intros b Hb; cbn [read_hashes].
  { exists []. rewrite Nat.mul_0_r. repeat constructor. }
  unfold slice. destruct (Nat.leb_spec (0 + HashSizeN) (length b)); [|unfold HashSizeN in *; lia].
  destruct (IH (drop HashSizeN b)) as (hs & -> & Hl & Hh & Hc);
    [rewrite length_drop; unfold HashSizeN in *; lia|].
  cbn [mbind option_bind]. rewrite drop_0.
  exists (take HashSizeN b :: hs). split_and!; [done|by cbn; rewrite Hl| |].
  - constructor; [|done]. unfold is_hash. rewrite length_take. lia.
  - cbn [concat]. rewrite Hc. replace (HashSizeN * S n)%nat with (HashSizeN + HashSizeN * n)%nat by lia.
    by rewrite take_take_drop.
Qed.

Definition zeroHash : bytes := replicate HashSizeN 0.

Lemma concat_zeroHash n : concat (replicate n zeroHash) = replicate (HashSizeN * n) 0.
Proof.
  induction n as [|n IH]; [done|]. cbn [replicate concat]. rewrite IH. unfold zeroHash.
  rewrite <- replicate_add. f_equal. lia.
Qed.

(** ** Round trips *)

Record utd_ok (u : UndoTicketData) : Prop := {
  utd_hash : is_hash (TicketHash u);
  utd_height : is_u32 (TicketHeight u);
  utd_keyHeight : is_u32 (TicketKeyHeight u)
}.

Lemma length_serializeUndo u : is_hash (TicketHash u) -> length (serializeUndo u) = undoTicketDataSize.
Proof. intros H. unfold serializeUndo. autorewrite with golen. by rewrite H. Qed.

Lemma deserializeUndo_serialize u rest : utd_ok u -> deserializeUndo (serializeUndo u ++ rest) = u.
Proof.
  intros [Hh Hg Hk]. destruct u as [h g kh m r s e]; cbn in Hh, Hg, Hk.
  unfold deserializeUndo, serializeUndo; cbn [TicketHash TicketHeight TicketKeyHeight
    u_Missed u_Revoked u_Spent u_Expired].
  rewrite <- !app_assoc.
  assert (Hf : nth 40 (h ++ put_le 4 g ++ put_le 4 kh ++ [undoBitFlagsToByte m r s e] ++ rest) 0
    = undoBitFlagsToByte m r s e).
  { rewrite !app_assoc, <- (app_assoc _ [_]). rewrite app_nth2; autorewrite with golen; rewrite Hh.
    - done.
    - unfold HashSizeN; lia. }
  rewrite Hf, undoBitFlags_roundtrip. f_equal.
  - by apply take_app_length'.
  - rewrite field_at; [by apply get_le_u32|done|apply length_put_le].
  - rewrite (app_assoc h), field_at; [by apply get_le_u32| |apply length_put_le].
    autorewrite with golen. by rewrite Hh.
Qed.

Lemma undo_loop_serialize utds rest :
  Forall utd_ok utds -> undo_loop (length utds) (serializeBlockUndoData utds ++ rest) = utds.
Proof.
  unfold serializeBlockUndoData.
  induction 1 as [|u utds Hu Hus IH]; cbn [length undo_loop fmap list_fmap concat]; [done|].
  rewrite <- app_assoc, deserializeUndo_serialize by done. f_equal.
  rewrite drop_app_length' by (symmetry; by apply length_serializeUndo, Hu). exact IH.
Qed.

Lemma length_serializeBlockUndoData utds :
  Forall utd_ok utds -> length (serializeBlockUndoData utds) = (undoTicketDataSize * length utds)%nat.
Proof.
  unfold serializeBlockUndoData.
  induction 1 as [|u utds Hu Hus IH]; cbn [length fmap list_fmap concat]; [done|].
  rewrite length_app, length_serializeUndo, IH by apply Hu. lia.
Qed.

Lemma deserialize_serializeBlockUndoData utds :
  Forall utd_ok utds -> deserializeBlockUndoData (Some (serializeBlockUndoData utds)) = Ok utds.
Proof.
  intros H. pose proof (length_serializeBlockUndoData utds H) as Hl.
  destruct utds as [|u us]; [done|].
  unfold deserializeBlockUndoData. destruct (serializeBlockUndoData (u :: us)) as [|x l] eqn:E;
    [cbn in Hl; lia|]. rewrite <- E in *. cbn [from_option id]. rewrite Hl.
  destruct (Nat.ltb_spec (undoTicketDataSize * length (u :: us)) undoTicketDataSize); [cbn in *; lia|].
  rewrite (Nat.mul_comm undoTicketDataSize), Nat.Div0.mod_mul, Nat.div_mul by done. cbn [negb Nat.eqb].
  rewrite <- (app_nil_r (serializeBlockUndoData _)), undo_loop_serialize by done. done.
Qed.

Lemma deserialize_serializeTicketHashes ths :
  Forall is_hash ths -> deserializeTicketHashes (Some (serializeTicketHashes ths)) = Ok ths.
Proof.
  intros H. pose proof (length_concat_hashes ths H) as Hl. unfold serializeTicketHashes.
  destruct ths as [|h hs]; [done|].
  unfold deserializeTicketHashes. destruct (concat (h :: hs)) as [|x l] eqn:E;
    [cbn in Hl; lia|]. rewrite <- E in *. cbn [from_option id]. rewrite Hl.
  destruct (Nat.ltb_spec (HashSizeN * length (h :: hs)) HashSizeN);
    [cbn [length] in *; unfold HashSizeN in *; lia|].
  rewrite (Nat.mul_comm HashSizeN), Nat.Div0.mod_mul, Nat.div_mul by done. cbn [negb Nat.eqb].
  by rewrite <- (app_nil_r (concat _)), read_hashes_concat.
Qed.

(** *** The best chain state *)

Record best_ok (b : BestChainState) : Prop := {
  bok_hash : is_hash (bs_Hash b);
  bok_height : is_u32 (bs_Height b);
  bok_keyHeight : is_u32 (bs_KeyHeight b);
  bok_live : is_u32 (bs_Live b);
  bok_missed : is_u64 (bs_Missed b);
  bok_revoked : is_u64 (bs_Revoked b);
  bok_perBlock : is_u16 (bs_PerBlock b);
  bok_winners : Forall is_hash (bs_NextWinners b);
  bok_count : Z.of_nat (length (bs_NextWinners b)) <= bs_PerBlock b
}.

(** The winners as they are read back: the missing ones are zero hashes. *)
Definition padded (b : BestChainState) : list bytes :=
  bs_NextWinners b ++ replicate (Z.to_nat (bs_PerBlock b) - length (bs_NextWinners b)) zeroHash.

Lemma padded_hashes b : best_ok b -> Forall is_hash (padded b).
Proof.
  intros H. apply Forall_app. split; [apply H|]. apply Forall_replicate.
  unfold is_hash, zeroHash. by rewrite length_replicate.
Qed.

Lemma length_padded b : best_ok b -> length (padded b) = Z.to_nat (bs_PerBlock b).
Proof.
  intros H. pose proof (bok_count b H). unfold padded. rewrite length_app, length_replicate. lia.
Qed.

Lemma length_bestStateFixed b : best_ok b -> length (bestStateFixed b) = minimumBestChainStateSize.
Proof. intros H. unfold bestStateFixed. autorewrite with golen. by rewrite (bok_hash b H). Qed.

Lemma serializeBestChainState_padded append_cap b :
  best_ok b -> serializeBestChainState append_cap b = Ok (bestStateFixed b ++ concat (padded b)).
Proof.
  intros H. unfold serializeBestChainState. pose proof (bok_count b H).
  destruct (Nat.leb_spec (minimumBestChainStateSize + HashSizeN * length (bs_NextWinners b))
    (Nat.max (minimumBestChainStateSize + HashSizeN * Z.to_nat (bs_PerBlock b))
      (append_cap (minimumBestChainStateSize + HashSizeN * Z.to_nat (bs_PerBlock b))%nat)));
    [|unfold HashSizeN in *; lia].
  unfold padded. rewrite concat_app, concat_zeroHash, take_ge; [done|].
  autorewrite with golen. rewrite length_bestStateFixed, length_concat_hashes, length_replicate
    by (done || apply H). unfold HashSizeN. lia.
Qed.

Lemma deserialize_bestState b :
  best_ok b ->
  deserializeBestChainState (bestStateFixed b ++ concat (padded b)) =
  Ok (MkBest (bs_Hash b) (bs_Height b) (bs_KeyHeight b) (bs_Live b) (bs_Missed b)
        (bs_Revoked b) (bs_PerBlock b) (padded b)).
Proof.
  intros H. pose proof (length_bestStateFixed b H) as Hf.
  unfold deserializeBestChainState. rewrite length_app, Hf.
  destruct (Nat.ltb_spec (minimumBestChainStateSize + length (concat (padded b)))
    minimumBestChainStateSize); [lia|].
  rewrite (drop_app_length' _ _ 62) by done.
  pose proof (padded_hashes b H) as Hp. pose proof (length_padded b H) as Hlen.
  pose proof (read_hashes_concat (padded b) [] Hp) as Hr.
  rewrite Hlen, app_nil_r in Hr. revert Hr. generalize (concat (padded b)) as W.
  destruct H as [Hh H1 H2 H3 H4 H5 H6 _ _]. unfold bestStateFixed.
  intros W Hr. rewrite <- !app_assoc.
  set (h := bs_Hash b) in *. set (a1 := put_le 4 (bs_Height b)). set (a2 := put_le 4 (bs_KeyHeight b)).
  set (a3 := put_le 4 (bs_Live b)). set (a4 := put_le 8 (bs_Missed b)).
  set (a5 := put_le 8 (bs_Revoked b)). set (a6 := put_le 2 (bs_PerBlock b)).
  assert (L1 : length a1 = 4%nat) by apply length_put_le.
  assert (L2 : length a2 = 4%nat) by apply length_put_le.
  assert (L3 : length a3 = 4%nat) by apply length_put_le.
  assert (L4 : length a4 = 8%nat) by apply length_put_le.
  assert (L5 : length a5 = 8%nat) by apply length_put_le.
  assert (L6 : length a6 = 2%nat) by apply length_put_le.
  rewrite (take_app_length' h) by done.
  rewrite (field_at h a1) by done.
  rewrite (app_assoc h a1), (field_at (h ++ a1) a2) by (rewrite ?length_app, ?Hh, ?L1; done).
  rewrite (app_assoc (h ++ a1) a2), (field_at _ a3)
    by (rewrite ?length_app, ?Hh, ?L1, ?L2; done).
  rewrite (app_assoc _ a3), (field_at _ a4)
    by (rewrite ?length_app, ?Hh, ?L1, ?L2, ?L3; done).
  rewrite (app_assoc _ a4), (field_at _ a5)
    by (rewrite ?length_app, ?Hh, ?L1, ?L2, ?L3, ?L4; done).
  rewrite (app_assoc _ a5), (field_at _ a6)
    by (rewrite ?length_app, ?Hh, ?L1, ?L2, ?L3, ?L4, ?L5; done).
  unfold a1, a2, a3, a4, a5, a6.
  rewrite !get_le_u32, !get_le_u64, get_le_u16, Hr by done. done.
Qed.

(** *** The database information *)

Lemma upgradeStartedBit_pow : upgradeStartedBit = 2 ^ 31.
Proof. reflexivity. Qed.

Lemma version_bits v : 0 <= v < 2 ^ 31 ->
  Z.lor v upgradeStartedBit = v + 2 ^ 31 /\
  Z.land (v + 2 ^ 31) (Z.lnot upgradeStartedBit) = v /\
  Z.land v (Z.lnot upgradeStartedBit) = v /\
  Z.land upgradeStartedBit (v + 2 ^ 31) = 2 ^ 31 /\ Z.land upgradeStartedBit v = 0.
Proof.
  intros Hv. rewrite upgradeStartedBit_pow.
  assert (Hd : Z.land v (2 ^ 31) = 0).
  { apply Z.bits_inj'. intros n Hn. rewrite Z.land_spec, Z.bits_0.
    destruct (Z.eq_dec n 31) as [->|].
    - by rewrite (testbit_small v 31 31) by lia.
    - rewrite Z.pow2_bits_false by lia. apply andb_false_r. }
  assert (Hor : v + 2 ^ 31 = Z.lor v (2 ^ 31)) 
    by (rewrite Z.add_nocarry_lxor by done; by apply Z.lxor_lor).
  rewrite Hor. split_and!; [done| | | |].
  - rewrite Z.land_lor_distr_l, Z.land_lnot_diag, Z.lor_0_r.
    apply Z.bits_inj'. intros n Hn. rewrite Z.land_spec, Z.lnot_spec by done.
    destruct (Z.eq_dec n 31) as [->|].
    + by rewrite (testbit_small v 31 31) by lia.
    + rewrite Z.pow2_bits_false by lia. apply andb_true_r.
  - apply Z.bits_inj'. intros n Hn. rewrite Z.land_spec, Z.lnot_spec by done.
    destruct (Z.eq_dec n 31) as [->|].
    + by rewrite (testbit_small v 31 31) by lia.
    + rewrite Z.pow2_bits_false by lia. apply andb_true_r.
  - by rewrite Z.land_lor_distr_r, (Z.land_comm _ v), Hd, Z.land_diag.
  - by rewrite Z.land_comm.
Qed.

Lemma deserialize_databaseInfo_rest dbi rest :
  0 <= Version dbi < 2 ^ 31 -> is_u32 (Date dbi) ->
  deserializeDatabaseInfo (serializeDatabaseInfo dbi ++ rest) = Ok dbi.
Proof.
  intros Hv Hd. destruct dbi as [v d up]; cbn in Hv, Hd.
  destruct (version_bits v Hv) as (B1 & B2 & B3 & B4 & B5).
  unfold deserializeDatabaseInfo, serializeDatabaseInfo; cbn [UpgradeStarted Version Date].
  set (ver := if up then _ else v).
  assert (Hver : is_u32 ver) by (unfold ver, is_u32; destruct up; rewrite ?B1; lia).
  rewrite <- app_assoc. rewrite !length_app, !length_put_le.
  destruct (Nat.ltb_spec (4 + (4 + length rest)) databaseInfoSize);
    [unfold databaseInfoSize in *; lia|].
  rewrite take_app_length' by (by rewrite length_put_le).
  rewrite field_at by apply length_put_le.
  rewrite u32_small, !get_le_u32 by done. f_equal.
  unfold ver. destruct up; rewrite ?B1; f_equal; rewrite ?B4, ?B5; done.
Qed.

(** ** Stored tickets *)

Definition value_ok (v : Value) : Prop := is_u32 (Height v) /\ is_u32 (KeyHeight v).

Definition storeTicket (v : Value) : bytes :=
  ticketBytes (Height v) (KeyHeight v) (Missed v) (Revoked v) (Spent v) (Expired v).

Lemma loadTicket_store k v : is_hash k -> value_ok v -> loadTicket k (storeTicket v) = Some v.
Proof.
  intros Hk [H1 H2]. destruct v as [h kh m r s e]; cbn in H1, H2.
  unfold loadTicket, storeTicket, ticketBytes; cbn [Height KeyHeight Missed Revoked Spent Expired].
  rewrite !length_app, !length_put_le. cbn [length Nat.add Nat.ltb Nat.leb].
  unfold NewHash. rewrite Hk, Nat.eqb_refl. cbn [mbind option_bind].
  assert (Hf : nth 8 (put_le 4 h ++ put_le 4 kh ++ [undoBitFlagsToByte m r s e]) 0
    = undoBitFlagsToByte m r s e).
  { rewrite app_assoc, app_nth2; rewrite length_app, !length_put_le; [done|lia]. }
  rewrite Hf, undoBitFlags_roundtrip.
  rewrite take_app_length' by (by rewrite length_put_le).
  rewrite field_at by apply length_put_le. by rewrite !get_le_u32.
Qed.

Section load_facts.
Context `{TicketPool T} {R : Type} (rng_Int : R -> Z * R).

(** The tickets of a bucket, when all of its pairs can be read. *)
Definition bucket_tickets (b : bucket) : option (gmap (list Z) Value) :=
  if bool_decide (map_Forall (fun k v => is_Some (loadTicket k v)) b)
  then Some (map_imap loadTicket b) else None.

Lemma load_pairs l t rng :
  pool_ok t ->
  match foldS (fun treap '(k, v) rng =>
      match loadTicket k v with
      | None => Err ErrLoadAllTickets
      | Some value =>
          let '(prio, rng) := rng_Int rng in
          Ok (pool_put treap k value prio, rng)
      end) t l rng with
  | Ok (t', _) => pool_ok t' /\ Forall (fun kv => is_Some (loadTicket kv.1 kv.2)) l /\
      pool_view t' = foldl (fun m kv => from_option (fun v => <[kv.1 := v]> m) m
        (loadTicket kv.1 kv.2)) (pool_view t) l
  | Err e => e = ErrLoadAllTickets /\ ~ Forall (fun kv => is_Some (loadTicket kv.1 kv.2)) l
  | Panic => False
  end.
Proof.
  revert t rng; induction l as [|[k v] l IH]; intros t rng Ht; cbn [foldS foldl].
  { split_and!; [done|constructor|done]. }
  unfold mbind at 1, stM_bind at 1. cbn [fst snd].
  destruct (loadTicket k v) as [value|] eqn:E; cbn [mbind res_bind].
  - destruct (rng_Int rng) as [prio rng']; cbn [mbind res_bind].
    destruct (pool_put_ok t k value prio Ht) as [Hp Hv].
    specialize (IH (pool_put t k value prio) rng' Hp).
    destruct (foldS _ _ l rng') as [[t' rng2]|e|]; [|..].
    + destruct IH as (H1 & H2 & H3). split_and!; [done| |].
      * constructor; [cbn; by rewrite E|done].
      * by rewrite H3, Hv.
    + destruct IH as [-> Hn]. split; [done|]. intros HF. by inversion HF.
    + done.
  - split; [done|]. intros HF. inversion HF as [|? ? [? Hx] ?]; subst. cbn in Hx. congruence.
Qed.

Lemma sorted_pairs_perm b : sorted_pairs b ≡ₚ map_to_list b.
Proof. apply merge_sort_Permutation. Qed.

Lemma sorted_pairs_NoDup b : NoDup (sorted_pairs b).*1.
Proof. rewrite sorted_pairs_perm. apply NoDup_fst_map_to_list. Qed.

Lemma fold_tickets_lookup (l : list (bytes * bytes)) (m : gmap (list Z) Value) (k : bytes) :
  NoDup l.*1 -> Forall (fun kv => is_Some (loadTicket kv.1 kv.2)) l ->
  foldl (fun m kv => from_option (fun v => <[kv.1 := v]> m) m (loadTicket kv.1 kv.2)) m l !! k =
  match (list_to_map l : gmap (list Z) (list Z)) !! k with
  | Some v => loadTicket k v
  | None => m !! k
  end.
Proof.
  revert m; induction l as [|[j v] l IH]; intros m Hnd Hl; [done|].
  cbn in Hnd. apply NoDup_cons in Hnd as [Hj Hnd].
  apply Forall_cons in Hl as [[x Hx] Hl]; cbn in Hx.
  cbn [foldl list_to_map foldr fst snd uncurry]. rewrite Hx; cbn [from_option]. rewrite IH by done.
  destruct (decide (j = k)) as [->|Hne].
  - rewrite lookup_insert_eq.
    rewrite (not_elem_of_list_to_map_1 (M := gmap (list Z)) l k) by done.
    by rewrite lookup_insert_eq.
  - by rewrite !lookup_insert_ne by done.
Qed.

Lemma load_all_tickets tx name b rng :
  buckets tx !! name = Some b ->
  match DbLoadAllTickets (T := T) rng_Int tx name rng with
  | Ok (t, _) => pool_ok t /\ bucket_tickets b = Some (pool_view t)
  | Err e => e = ErrLoadAllTickets /\ bucket_tickets b = None
  | Panic => False
  end.
Proof.
  intros Hb. unfold DbLoadAllTickets, Bucket, lift. unfold mbind at 1, stM_bind at 1.
  rewrite Hb; cbn [or_panic mbind res_bind].
  destruct (pool_new_ok (T := T)) as [Hok He].
  pose proof (load_pairs (sorted_pairs b) pool_new rng Hok) as HL.
  assert (Hall : Forall (fun kv => is_Some (loadTicket kv.1 kv.2)) (sorted_pairs b) <->
    map_Forall (fun k v => is_Some (loadTicket k v)) b).
  { rewrite sorted_pairs_perm. etransitivity; [|symmetry; apply map_Forall_to_list].
    split; (intros HF; eapply Forall_impl; [exact HF|]; by intros [k v]). }
  unfold bucket_tickets.
  destruct (foldS _ _ _ _) as [[t rng']|e|]; [|..].
  - destruct HL as (H1 & H2 & H3). split; [done|].
    rewrite bool_decide_true by (by apply Hall). f_equal. apply map_eq. intros k.
    rewrite H3, map_lookup_imap, fold_tickets_lookup by (done || apply sorted_pairs_NoDup).
    assert (El : (list_to_map (sorted_pairs b) : gmap (list Z) (list Z)) = b).
    { rewrite <- (list_to_map_to_list (M := gmap (list Z)) b) at 2.
      apply list_to_map_proper; [apply sorted_pairs_NoDup|apply sorted_pairs_perm]. }
    rewrite El. destruct (b !! k); [done|]. unfold pool_view. by rewrite He.
  - destruct HL as [-> Hn]. split; [done|]. rewrite bool_decide_false; [done|].
    by rewrite <- Hall.
  - done.
Qed.
End load_facts.

(** ** The theorems about the ticket database *)

(** The undo data of a block is read back exactly as it was written, and the
    reader classifies every byte string by its length: it accepts the empty string
    and the non-zero multiples of 41 bytes, one entry per 41 bytes, reports a short
    read below 41 bytes (and for a nil slice), corruption for any other length, and
    never panics. *)
Theorem block_undo_data_format :
  (forall utds, Forall utd_ok utds ->
    deserializeBlockUndoData (Some (serializeBlockUndoData utds)) = Ok utds) /\
  (forall b,
    match deserializeBlockUndoData b with
    | Ok utds => exists b', b = Some b' /\ length b' = (41 * length utds)%nat
    | Err ErrUndoDataShortRead => b = None \/ exists b', b = Some b' /\ (0 < length b' < 41)%nat
    | Err ErrUndoDataCorrupt => exists b', b = Some b' /\ (41 < length b')%nat /\
        ~ exists n, length b' = (41 * n)%nat
    | _ => False
    end).
Proof.
  split; [apply deserialize_serializeBlockUndoData|].
  intros [[|x l]|]; [by exists []| |by left].
  unfold deserializeBlockUndoData; cbn [from_option id]. set (b := x :: l).
  unfold undoTicketDataSize; cbn [Nat.add].
  destruct (Nat.ltb_spec (length b) 41) as [Hlt|Hge].
  { right. exists b. split; [done|]. split; [cbn; lia|done]. }
  destruct (Nat.eqb_spec (length b mod 41) 0) as [Hz|Hnz]; cbn [negb].
  - exists b. split; [done|].
    assert (Hu : forall n c, length (undo_loop n c) = n)
      by (induction n; intros; cbn; auto).
    rewrite Hu. by apply Nat.Div0.div_exact.
  - exists b. split_and!; [done| |].
    + assert (length b <> 41)%nat by (intros E; by rewrite E in Hnz). lia.
    + intros [n Hn]. rewrite Hn, Nat.mul_comm, Nat.Div0.mod_mul in Hnz. done.
Qed.

(** A best chain state that satisfies its field ranges and has at most
    [PerBlock] winners is stored in 62 + 32 * PerBlock bytes whatever spare capacity
    the runtime gives its buffer, and is read back with the same fields and its
    winners followed by zero hashes up to [PerBlock]. *)
Theorem best_state_roundtrip (append_cap : nat -> nat) (tx : Tx) (b : BestChainState) :
  best_ok b ->
  exists tx' v,
    DbPutBestState append_cap tx b = Ok tx' /\ buckets tx' = buckets tx /\
    meta tx' !! StakeChainStateKeyName = Some v /\
    Z.of_nat (length v) = 62 + 32 * bs_PerBlock b /\
    DbFetchBestState tx' =
      Ok (MkBest (bs_Hash b) (bs_Height b) (bs_KeyHeight b) (bs_Live b) (bs_Missed b)
            (bs_Revoked b) (bs_PerBlock b)
            (bs_NextWinners b ++
             replicate (Z.to_nat (bs_PerBlock b) - length (bs_NextWinners b)) zeroHash)).
Proof.
  intros H. unfold DbPutBestState. rewrite serializeBestChainState_padded by done.
  cbn [mbind res_bind]. eexists _, _. split_and!; [done|done| | |].
  - cbn [meta]. apply lookup_insert_eq.
  - rewrite length_app, length_bestStateFixed, length_concat_hashes, length_padded
      by (done || by apply padded_hashes).
    pose proof (bok_perBlock b H) as Hp. unfold is_u16 in Hp.
    unfold minimumBestChainStateSize, HashSizeN. lia.
  - unfold DbFetchBestState; cbn [meta]. rewrite lookup_insert_eq. by apply deserialize_bestState.
Qed.

Lemma best_state_roundtrip_witness :
  exists tx',
    DbPutBestState (fun n => n) (MkTx ∅ ∅) (MkBest zeroHash 7 5 3 2 1 5 [zeroHash]) = Ok tx' /\
    DbFetchBestState tx' = Ok (MkBest zeroHash 7 5 3 2 1 5 (replicate 5 zeroHash)).
Proof.
  destruct (best_state_roundtrip (fun n => n) (MkTx ∅ ∅)
    (MkBest zeroHash 7 5 3 2 1 5 [zeroHash])) as (tx' & v & H1 & _ & _ & _ & H2).
  - constructor; cbn; try (unfold is_u32, is_u64, is_u16; lia); try reflexivity.
    repeat constructor.
  - exists tx'. split; [exact H1|exact H2].
Defined.

(** A best chain state that lists more winners than tickets per block need not
    make the serialization panic, as its comment says: when the runtime grew the
    buffer to a capacity of 128 bytes, a second winner at one ticket per block is
    dropped without an error. *)
Theorem serializeBestChainState_drops_winner :
  exists v,
    serializeBestChainState (fun n => if (n =? 94)%nat then 128%nat else n)
      (MkBest zeroHash 7 5 3 2 1 1 [replicate 32 1; replicate 32 2]) = Ok v /\
    exists b, deserializeBestChainState v = Ok b /\ bs_NextWinners b = [replicate 32 1].
Proof. eexists. split; [vm_compute; reflexivity|]. eexists. split; vm_compute; reflexivity. Qed.

(** The length check of the best chain state reader covers the fixed fields
    only: of data cut inside the winners, the reader panics where shorter data gives
    the short read error. *)
Theorem truncated_best_state_panics (fixed : bytes) :
  length fixed = 60%nat ->
  deserializeBestChainState fixed = Err ErrChainStateShortRead /\
  deserializeBestChainState (fixed ++ put_le 2 5 ++ zeroHash) = Panic.
Proof.
  intros H. unfold deserializeBestChainState. rewrite !length_app, H. split; [done|].
  cbn [length_put_le Nat.add Nat.ltb Nat.leb minimumBestChainStateSize].
  rewrite (field_at fixed (put_le 2 5) zeroHash 60 2) by (done || apply length_put_le).
  rewrite app_assoc, (drop_app_length' _ _ 62) by (by rewrite length_app, H, length_put_le).
  rewrite get_le_u16 by (unfold is_u16; lia). reflexivity.
Qed.

Lemma truncated_best_state_panics_witness :
  deserializeBestChainState (replicate 60 7 ++ put_le 2 5 ++ zeroHash) = Panic.
Proof. apply (truncated_best_state_panics (replicate 60 7)). reflexivity. Defined.

(** Loading a ticket bucket into a pool, in whatever way the random source
    chooses the priorities, either gives a well-formed pool whose contents are
    exactly the tickets stored in the bucket, or fails with the load error because
    some pair of the bucket is not a 32-byte hash with at least 9 bytes; it never
    panics. *)
Theorem DbLoadAllTickets_spec {T R} `{TicketPool T} (rng_Int : R -> Z * R) tx name b rng :
  buckets tx !! name = Some b ->
  match DbLoadAllTickets (T := T) rng_Int tx name rng with
  | Ok (t, _) => pool_ok t /\ map_Forall (fun k v => is_Some (loadTicket k v)) b /\
      forall k, pool_get t k = b !! k ≫= loadTicket k
  | Err e => e = ErrLoadAllTickets /\
      ~ map_Forall (fun k v => length k = 32%nat /\ (9 <= length v)%nat) b
  | Panic => False
  end.
Proof.
  intros Hb. pose proof (load_all_tickets (T := T) rng_Int tx name b rng Hb) as HL.
  unfold bucket_tickets in HL.
  destruct (DbLoadAllTickets rng_Int tx name rng) as [[t rng']|e|]; [..|done].
  - destruct HL as [Hok E]. case_bool_decide as HF; [|done]. injection E as E.
    split_and!; [done|done|]. intros k. rewrite pool_get_ok, <- E by done. apply map_lookup_imap.
  - destruct HL as [-> E]. case_bool_decide as HF; [done|]. split; [done|]. intros HG. apply HF.
    intros k v Hk. destruct (HG k v Hk) as [H1 H2]. unfold loadTicket, NewHash.
    destruct (Nat.ltb_spec (length v) 9); [lia|]. rewrite H1. cbn [Nat.eqb HashSizeN mbind option_bind].
    destruct (undoBitFlagsFromByte _) as [[[? ?] ?] ?]. eauto.
Qed.

Lemma DbLoadAllTickets_spec_witness :
  match DbLoadAllTickets (T := Immutable.t) (fun r => (r, r + 1))
    (MkTx ∅ {[ LiveTicketsBucketName := {[ zeroHash := ticketBytes 3 2 false false false false ]} ]})
    LiveTicketsBucketName 5 with
  | Ok (t, _) => Immutable.Get t zeroHash = Some (MkValue 3 2 false false false false)
  | _ => False
  end.
Proof.
  pose proof (DbLoadAllTickets_spec (T := Immutable.t) (fun r => (r, r + 1))
    (MkTx ∅ {[ LiveTicketsBucketName := {[ zeroHash := ticketBytes 3 2 false false false false ]} ]})
    LiveTicketsBucketName {[ zeroHash := ticketBytes 3 2 false false false false ]} 5) as H.
  specialize (H eq_refl).
  destruct (DbLoadAllTickets _ _ _ _) as [[t rng]|e|] eqn:E;
    [|vm_compute in E; discriminate..].
  destruct H as (_ & _ & H). etransitivity; [exact (H zeroHash)|]. vm_compute. reflexivity.
Defined.
