(* ===== verification/Compact.v ===== *)
(** * Compact difficulty targets

    The conversions of [blockchain/difficulty.go] between hashes, big integers and
    the 32-bit compact form ([HashToBig], [CompactToBig], [BigToCompact]), of which
    [blockchain/stake/tickets.go] has copies of the first two, and [CalcWork].  A
    [big.Int] is a [Z]. *)

From S2P Require Import Prelude.
#[local] Open Scope Z_scope.

(** The loop that reverses the copy of the hash in place; the indices stay inside
    the array. *)
Fixpoint reverse_loop (n i : nat) (buf : bytes) : bytes :=
  match n with
  | O => buf
  | S n =>
      let blen := length buf in
      let x := nth i buf 0 in
      let y := nth (blen - 1 - i) buf 0 in
      reverse_loop n (S i) (<[(blen - 1 - i)%nat := x]> (<[i := y]> buf))
  end.

Definition HashToBig (hash : bytes) : Z :=
  get_be (reverse_loop (length hash / 2) 0 hash).

Definition CompactToBig (compact : Z) : Z :=
  let mantissa := Z.land compact 0x007fffff in
  let isNegative := negb (Z.land compact 0x00800000 =? 0) in
  let exponent := Z.shiftr compact 24 in
  let bn :=
    if exponent <=? 3 then Z.shiftr mantissa (8 * (3 - exponent))
    else Z.shiftl mantissa (8 * (exponent - 3)) in
  if isNegative then - bn else bn.

(** [len(n.Bytes())]: the length of the absolute value in base 256. *)
Definition byte_len (n : Z) : Z := if n =? 0 then 0 else Z.log2 (Z.abs n) / 8 + 1.

(** [Bits()[0]] is the lowest 64-bit word of the absolute value. *)
Definition BigToCompact (n : Z) : Z :=
  if n =? 0 then 0
  else
    let exponent := byte_len n in
    let mantissa :=
      if exponent <=? 3
      then u32 (Z.shiftl (u32 (u64 (Z.abs n))) (8 * (3 - exponent)))
      else u32 (u64 (Z.abs (Z.shiftr n (8 * (exponent - 3))))) in
    let '(mantissa, exponent) :=
      if negb (Z.land mantissa 0x00800000 =? 0)
      then (Z.shiftr mantissa 8, exponent + 1) else (mantissa, exponent) in
    let compact := Z.lor (u32 (Z.shiftl exponent 24)) mantissa in
    if n <? 0 then Z.lor compact 0x00800000 else compact.

Definition oneLsh256 : Z := Z.shiftl 1 256.

(** [Div] is Euclidean division; the denominator is positive here. *)
Definition CalcWork (bits : Z) : Z :=
  let difficultyNum := CompactToBig bits in
  if difficultyNum <=? 0 then 0 else oneLsh256 / (difficultyNum + 1).

(** ** Hashes *)

Lemma HashToBig_le h : length h = 32%nat -> HashToBig h = get_le h.
Proof.
  intros H. unfold HashToBig. rewrite H.
  do 32 (destruct h as [|? h]; [discriminate H|]). destruct h; [|discriminate H].
  reflexivity.
Qed.

(** ** The parts of a compact number *)

Lemma compact_parts c m e :
  0 <= m < 2 ^ 23 -> c = e * 2 ^ 24 + m ->
  CompactToBig c = if e <=? 3 then m / 256 ^ (3 - e) else m * 256 ^ (e - 3).
Proof.
  intros Hm ->. unfold CompactToBig.
  assert (E1 : Z.land (e * 2 ^ 24 + m) 0x007fffff = m).
  { change 0x007fffff with (Z.ones 23). rewrite Z.land_ones by lia.
    replace (e * 2 ^ 24 + m) with (m + (e * 2) * 2 ^ 23) by lia.
    rewrite Z.mod_add by lia. by apply Z.mod_small. }
  assert (E2 : Z.land (e * 2 ^ 24 + m) 0x00800000 = 0).
  { change 0x00800000 with (2 ^ 23). rewrite land_pow2 by lia.
    replace (e * 2 ^ 24 + m) with (m + (e * 2) * 2 ^ 23) by lia.
    rewrite Z.div_add by lia. rewrite Z.div_small by done.
    rewrite Z.add_0_l, Z.mod_mul by lia. lia. }
  assert (E3 : Z.shiftr (e * 2 ^ 24 + m) 24 = e).
  { rewrite Z.shiftr_div_pow2 by lia. rewrite Z.add_comm, Z.div_add by lia.
    rewrite Z.div_small by lia. lia. }
  rewrite E1, E2, E3. cbn [Z.eqb negb]. destruct (Z.leb_spec e 3).
  - rewrite Z.shiftr_div_pow2 by lia. f_equal.
    change 256 with (2 ^ 8). rewrite <- Z.pow_mul_r by lia. f_equal; lia.
  - rewrite Z.shiftl_mul_pow2 by lia. f_equal.
    change 256 with (2 ^ 8). rewrite <- Z.pow_mul_r by lia. f_equal; lia.
Qed.

Lemma byte_len_bounds n :
  0 < n -> 1 <= byte_len n /\ 256 ^ (byte_len n - 1) <= n < 256 ^ byte_len n.
Proof.
  intros Hn. unfold byte_len. destruct (Z.eqb_spec n 0); [lia|]. rewrite Z.abs_eq by lia.
  pose proof (Z.log2_nonneg n) as H0. pose proof (Z.log2_spec n Hn) as [H1 H2].
  set (l := Z.log2 n) in *. pose proof (Z.div_mod l 8 ltac:(lia)) as Hd.
  pose proof (Z.mod_pos_bound l 8 ltac:(lia)) as Hm.
  assert (0 <= l / 8) by (apply Z.div_pos; lia).
  split; [lia|]. change 256 with (2 ^ 8). rewrite <- !Z.pow_mul_r by lia. split.
  - etransitivity; [|exact H1]. apply Z.pow_le_mono_r; lia.
  - eapply Z.lt_le_trans; [exact H2|]. apply Z.pow_le_mono_r; lia.
Qed.

(** The three leading bytes of a positive number. *)
Definition leading (n : Z) : Z :=
  let e := byte_len n in
  if e <=? 3 then n * 256 ^ (3 - e) else n / 256 ^ (e - 3).

Lemma leading_range n : 0 < n -> 2 ^ 16 <= leading n < 2 ^ 24.
Proof.
  intros Hn. destruct (byte_len_bounds n Hn) as (H1 & H2 & H3). unfold leading.
  set (e := byte_len n) in *. destruct (Z.leb_spec e 3).
  - replace (2 ^ 16) with (256 ^ (e - 1) * 256 ^ (3 - e))
      by (rewrite <- Z.pow_add_r by lia; replace (e - 1 + (3 - e)) with 2 by lia; done).
    replace (2 ^ 24) with (256 ^ e * 256 ^ (3 - e))
      by (rewrite <- Z.pow_add_r by lia; replace (e + (3 - e)) with 3 by lia; done).
    assert (0 < 256 ^ (3 - e)) by (apply Z.pow_pos_nonneg; lia). nia.
  - assert (0 < 256 ^ (e - 3)) by (apply Z.pow_pos_nonneg; lia). split.
    + apply Z.div_le_lower_bound; [done|]. etransitivity; [|exact H2].
      change (2 ^ 16) with (256 ^ 2). rewrite <- Z.pow_add_r by lia.
      apply Z.pow_le_mono_r; lia.
    + apply Z.div_lt_upper_bound; [done|]. eapply Z.lt_le_trans; [exact H3|].
      change (2 ^ 24) with (256 ^ 3). rewrite <- Z.pow_add_r by lia.
      apply Z.pow_le_mono_r; lia.
Qed.

Lemma BigToCompact_leading n :
  0 < n -> byte_len n <= 254 ->
  BigToCompact n =
  if leading n <? 2 ^ 23 then byte_len n * 2 ^ 24 + leading n
  else (byte_len n + 1) * 2 ^ 24 + leading n / 256.
Proof.
  intros Hn He. destruct (byte_len_bounds n Hn) as (H1 & H2 & H3).
  pose proof (leading_range n Hn) as HL.
  unfold BigToCompact. destruct (Z.eqb_spec n 0); [lia|]. destruct (Z.ltb_spec n 0); [lia|].
  assert (Em : (if byte_len n <=? 3
    then u32 (Z.shiftl (u32 (u64 (Z.abs n))) (8 * (3 - byte_len n)))
    else u32 (u64 (Z.abs (Z.shiftr n (8 * (byte_len n - 3)))))) = leading n).
  { unfold leading in *. destruct (Z.leb_spec (byte_len n) 3).
    - assert (n < 2 ^ 24).
      { eapply Z.lt_le_trans; [exact H3|]. change (2 ^ 24) with (256 ^ 3).
        apply Z.pow_le_mono_r; lia. }
      rewrite Z.abs_eq, u64_small, (u32_small n) by (unfold is_u32, is_u64; lia).
      rewrite Z.shiftl_mul_pow2, Z.pow_mul_r by lia. apply u32_small. unfold is_u32.
      change (2 ^ 8) with 256. lia.
    - rewrite Z.shiftr_div_pow2, Z.pow_mul_r by lia. change (2 ^ 8) with 256.
      rewrite Z.abs_eq by lia. rewrite u64_small, u32_small by (unfold is_u32, is_u64; lia).
      done. }
  rewrite Em. change 0x00800000 with (2 ^ 23). rewrite land_pow2 by lia.
  set (m := leading n) in *. destruct (Z.ltb_spec m (2 ^ 23)).
  - assert (Hz : (m / 2 ^ 23) mod 2 * 2 ^ 23 = 0) by (by rewrite Z.div_small by lia).
    rewrite (proj2 (Z.eqb_eq _ _) Hz). cbn [negb].
    rewrite Z.shiftl_mul_pow2, u32_small by (unfold is_u32; lia). apply lor_disjoint; lia.
  - assert (Hq : m / 2 ^ 23 = 1) by (Z.div_mod_to_equations; lia).
    assert (Hz : (m / 2 ^ 23) mod 2 * 2 ^ 23 <> 0) by (by rewrite Hq).
    rewrite (proj2 (Z.eqb_neq _ _) Hz). cbn [negb].
    rewrite Z.shiftl_mul_pow2, Z.shiftr_div_pow2, u32_small by (unfold is_u32; lia).
    apply lor_disjoint; [lia|]. Z.div_mod_to_equations; lia.
Qed.

(** Compacting rounds a positive number down to a multiple of a power of 256 that
    leaves at least 15 bits of precision. *)
Lemma compact_rounds n :
  0 < n -> byte_len n <= 254 ->
  exists k, 0 <= k /\ CompactToBig (BigToCompact n) = n / 256 ^ k * 256 ^ k /\
    (k = 0 \/ 2 ^ 15 * 256 ^ k <= n) /\ n < 2 ^ 23 * 256 ^ k.
Proof.
  intros Hn He. rewrite BigToCompact_leading by done.
  pose proof (leading_range n Hn) as HL. destruct (byte_len_bounds n Hn) as (H1 & H2 & H3).
  set (e := byte_len n) in *. destruct (Z.ltb_spec (leading n) (2 ^ 23)) as [Hlt|Hge].
  - rewrite (compact_parts _ (leading n) e) by (done || lia). unfold leading in *; fold e in HL, Hlt |- *.
    destruct (Z.leb_spec e 3).
    + exists 0. assert (0 < 256 ^ (3 - e)) by (apply Z.pow_pos_nonneg; lia).
      split_and!; [done| |by left|rewrite Z.pow_0_r; nia].
      rewrite Z.div_mul, Z.pow_0_r, Z.div_1_r by lia. lia.
    + exists (e - 3). assert (0 < 256 ^ (e - 3)) by (apply Z.pow_pos_nonneg; lia).
      pose proof (Z.mul_div_le n (256 ^ (e - 3)) ltac:(done)).
      pose proof (Z.mul_succ_div_gt n (256 ^ (e - 3)) ltac:(done)).
      split_and!; [lia|done|right|]; nia.
  - assert (Hr : 0 <= leading n / 256 < 2 ^ 23) by (Z.div_mod_to_equations; lia).
    rewrite (compact_parts _ (leading n / 256) (e + 1)) by (done || lia).
    unfold leading in *; fold e in HL, Hr, Hge |- *. destruct (Z.leb_spec e 3).
    + destruct (Z.leb_spec (e + 1) 3).
      * exists 0. split_and!; [done| |by left|].
        2:{ rewrite Z.pow_0_r, Z.mul_1_r. eapply Z.lt_le_trans; [exact H3|].
            transitivity (256 ^ 2); [apply Z.pow_le_mono_r; lia|done]. }
        replace (256 ^ (3 - e)) with (256 * 256 ^ (3 - (e + 1)))
          by (rewrite <- Z.pow_succ_r by lia; f_equal; lia).
        assert (0 < 256 ^ (3 - (e + 1))) by (apply Z.pow_pos_nonneg; lia).
        rewrite (Z.mul_comm 256), Z.mul_assoc, Z.div_mul, Z.div_mul by lia.
        rewrite Z.pow_0_r, Z.div_1_r. lia.
      * assert (Ee : e = 3) by lia. exists 1. rewrite Ee in *.
        change (256 ^ (3 - 3)) with 1 in *. change (256 ^ (3 + 1 - 3)) with 256.
        change (256 ^ 1) with 256. rewrite Z.mul_1_r in *. split_and!; [lia|done|right|]; lia.
    + destruct (Z.leb_spec (e + 1) 3); [lia|]. exists (e + 1 - 3).
      assert (0 < 256 ^ (e - 3)) by (apply Z.pow_pos_nonneg; lia).
      assert (Ep : 256 ^ (e + 1 - 3) = 256 ^ (e - 3) * 256)
        by (rewrite Z.mul_comm, <- Z.pow_succ_r by lia; f_equal; lia).
      pose proof (Z.mul_div_le n (256 ^ (e - 3)) ltac:(done)).
      pose proof (Z.mul_succ_div_gt n (256 ^ (e - 3)) ltac:(done)).
      rewrite Z.div_div, <- Ep by lia. split_and!; [lia|done|right|]; rewrite Ep; nia.
Qed.

Lemma byte_len_unique n e : 1 <= e -> 256 ^ (e - 1) <= n < 256 ^ e -> byte_len n = e.
Proof.
  intros He [H1 H2]. assert (Hn : 0 < n).
  { eapply Z.lt_le_trans; [|exact H1]. apply Z.pow_pos_nonneg; lia. }
  destruct (byte_len_bounds n Hn) as (B1 & B2 & B3).
  destruct (Z.lt_trichotomy (byte_len n) e) as [Hlt|[Heq|Hgt]]; [exfalso|done|exfalso].
  - assert (256 ^ byte_len n <= 256 ^ (e - 1)) by (apply Z.pow_le_mono_r; lia). lia.
  - assert (256 ^ e <= 256 ^ (byte_len n - 1)) by (apply Z.pow_le_mono_r; lia). lia.
Qed.

Lemma byte_len_bound n k : 0 < n < 256 ^ k -> 0 <= k -> byte_len n <= k.
Proof.
  intros [Hn Hk] Hk0. destruct (byte_len_bounds n Hn) as (B1 & B2 & B3).
  destruct (Z.le_gt_cases (byte_len n) k) as [|Hgt]; [done|exfalso].
  assert (256 ^ k <= 256 ^ (byte_len n - 1)) by (apply Z.pow_le_mono_r; lia). lia.
Qed.

(** A positive compact number in normal form: the mantissa has its two highest
    bytes in use, and no bit of it is shifted out. *)
Definition canonical (c : Z) : Prop :=
  exists e m, c = e * 2 ^ 24 + m /\ 1 <= e <= 254 /\ 2 ^ 15 <= m < 2 ^ 23 /\
    (e <= 3 -> (256 ^ (3 - e) | m)).

Lemma canonical_byte_len n e m :
  2 ^ 15 <= m < 2 ^ 23 -> 1 <= e ->
  (if e <=? 3 then m = n * 256 ^ (3 - e) else n = m * 256 ^ (e - 3)) ->
  (2 ^ 16 <= m -> byte_len n = e) /\ (m < 2 ^ 16 -> 2 <= e /\ byte_len n = e - 1).
Proof.
  intros Hm He Hn. destruct (Z.leb_spec e 3).
  - assert (e = 1 \/ e = 2 \/ e = 3) as [->|[->| ->]] by lia; cbn in Hn;
      (split; intros; [apply byte_len_unique; cbn; lia|]);
      (split; [lia|]); apply byte_len_unique; cbn; lia.
  - assert (Hp : 256 ^ e = 2 ^ 24 * 256 ^ (e - 3))
      by (change (2 ^ 24) with (256 ^ 3); rewrite <- Z.pow_add_r by lia; f_equal; lia).
    assert (Hp1 : 256 ^ (e - 1) = 2 ^ 16 * 256 ^ (e - 3))
      by (change (2 ^ 16) with (256 ^ 2); rewrite <- Z.pow_add_r by lia; f_equal; lia).
    assert (Hp2 : 256 ^ (e - 1 - 1) = 2 ^ 8 * 256 ^ (e - 3))
      by (change (2 ^ 8) with (256 ^ 1); rewrite <- Z.pow_add_r by lia; f_equal; lia).
    assert (0 < 256 ^ (e - 3)) by (apply Z.pow_pos_nonneg; lia).
    split; intros; [|split; [lia|]]; apply byte_len_unique; try lia;
      rewrite ?Hp, ?Hp1, ?Hp2; nia.
Qed.

Lemma canonical_leading n e m :
  2 ^ 15 <= m < 2 ^ 23 -> 1 <= e ->
  (if e <=? 3 then m = n * 256 ^ (3 - e) else n = m * 256 ^ (e - 3)) ->
  leading n = if m <? 2 ^ 16 then m * 256 else m.
Proof.
  intros Hm He Hn. destruct (canonical_byte_len n e m Hm He Hn) as [Hb1 Hb2]. unfold leading.
  destruct (Z.ltb_spec m (2 ^ 16)) as [Hlt|Hge].
  - destruct (Hb2 Hlt) as [He2 ->]. destruct (Z.leb_spec e 3), (Z.leb_spec (e - 1) 3); try lia.
    + rewrite Hn, <- Z.mul_assoc. f_equal. rewrite Z.mul_comm, <- Z.pow_succ_r by lia. f_equal; lia.
    + assert (e = 4) as -> by lia. cbn in *. lia.
    + rewrite Hn. replace (e - 3) with (Z.succ (e - 1 - 3)) by lia.
      rewrite Z.pow_succ_r, Z.mul_assoc, Z.div_mul by (try apply Z.pow_nonzero; lia). done.
  - rewrite (Hb1 Hge). destruct (Z.leb_spec e 3); [done|].
    rewrite Hn, Z.div_mul by (apply Z.pow_nonzero; lia). done.
Qed.

(** ** The theorems about compact targets *)

(** On the positive compact numbers in normal form the two conversions are
    inverse: expanding a target and compacting it again gives the same 32 bits. *)
Theorem compact_roundtrip (c : Z) :
  canonical c -> BigToCompact (CompactToBig c) = c.
Proof.
  intros (e & m & -> & He & Hm & Hdiv). rewrite (compact_parts _ m e) by (done || lia).
  set (n := if e <=? 3 then _ else _).
  assert (Hn : if e <=? 3 then m = n * 256 ^ (3 - e) else n = m * 256 ^ (e - 3)).
  { unfold n. destruct (Z.leb_spec e 3); [|done].
    destruct (Hdiv ltac:(lia)) as [q ->]. rewrite Z.div_mul by (apply Z.pow_nonzero; lia). done. }
  assert (Hpos : 0 < n).
  { destruct (Z.leb_spec e 3).
    - assert (0 < 256 ^ (3 - e)) by (apply Z.pow_pos_nonneg; lia). nia.
    - assert (0 < 256 ^ (e - 3)) by (apply Z.pow_pos_nonneg; lia). nia. }
  destruct (canonical_byte_len n e m Hm ltac:(lia) Hn) as [Hb1 Hb2].
  pose proof (canonical_leading n e m Hm ltac:(lia) Hn) as HL.
  assert (Hlen : byte_len n <= 254).
  { destruct (Z.lt_ge_cases m (2 ^ 16)) as [Hc|Hc]; [destruct (Hb2 Hc); lia|].
    rewrite (Hb1 Hc); lia. }
  rewrite BigToCompact_leading, HL by done.
  destruct (Z.ltb_spec m (2 ^ 16)) as [Hlt|Hge].
  - destruct (Hb2 Hlt) as [_ ->]. destruct (Z.ltb_spec (m * 256) (2 ^ 23)); [lia|].
    rewrite Z.div_mul by lia. lia.
  - rewrite (Hb1 Hge). destruct (Z.ltb_spec m (2 ^ 23)); lia.
Qed.

Lemma compact_roundtrip_witness : BigToCompact (CompactToBig 0x1d00ffff) = 0x1d00ffff.
Proof.
  apply (compact_roundtrip 0x1d00ffff). exists 29, 0xffff.
  split; [reflexivity|]. split; [lia|]. split; [lia|]. intros H. lia.
Defined.

(** Compacting a positive target of at most 254 bytes never raises it, loses
    less than one part in 2^15 of it, and is monotone. *)
Theorem compact_precision (n n' : Z) :
  0 < n <= n' -> n' < 256 ^ 254 ->
  let c := CompactToBig (BigToCompact n) in
  let c' := CompactToBig (BigToCompact n') in
  0 < c <= n /\ (n - c) * 2 ^ 15 < n /\ c <= c'.
Proof.
  intros Hn Hn'. destruct (compact_rounds n) as (k & Hk & -> & Hl & Hu);
    [lia|apply byte_len_bound; lia|].
  destruct (compact_rounds n') as (k' & Hk' & -> & Hl' & Hu'); [lia|apply byte_len_bound; lia|].
  assert (Hp : 0 < 256 ^ k) by (apply Z.pow_pos_nonneg; lia).
  assert (Hp' : 0 < 256 ^ k') by (apply Z.pow_pos_nonneg; lia).
  pose proof (Z.mul_div_le n (256 ^ k) Hp) as D1.
  pose proof (Z.mul_succ_div_gt n (256 ^ k) Hp) as D2.
  pose proof (Z.mul_div_le n' (256 ^ k') Hp') as D3.
  pose proof (Z.mul_succ_div_gt n' (256 ^ k') Hp') as D4.
  assert (D5 : 0 < n / 256 ^ k).
  { destruct Hl as [->|Hl]; [rewrite Z.pow_0_r, Z.div_1_r; lia|].
    apply Z.div_str_pos. nia. }
  cbn zeta. split_and!; [nia|lia| |].
  - destruct Hl as [->|Hl]; [rewrite Z.pow_0_r, Z.div_1_r in *; lia|]. nia.
  - destruct (Z.lt_trichotomy k k') as [Hlt|[->|Hgt]].
    + assert (256 * 256 ^ k <= 256 ^ k')
        by (rewrite <- Z.pow_succ_r by lia; apply Z.pow_le_mono_r; lia).
      destruct Hl' as [->|Hl']; [lia|].
      assert (2 ^ 15 <= n' / 256 ^ k') by (apply Z.div_le_lower_bound; lia). nia.
    + assert (n / 256 ^ k' <= n' / 256 ^ k') by (apply Z.div_le_mono; lia). nia.
    + exfalso. destruct Hl as [->|Hl]; [lia|].
      assert (256 * 256 ^ k' <= 256 ^ k)
        by (rewrite <- Z.pow_succ_r by lia; apply Z.pow_le_mono_r; lia). nia.
Qed.

Lemma compact_precision_witness :
  let c := CompactToBig (BigToCompact 0x123456789) in 0 < c <= 0x123456789.
Proof. apply (compact_precision 0x123456789 (2 ^ 40)); lia. Defined.

(** A negative number is not always compacted to a number near it: the shift
    of the code rounds towards minus infinity and can carry into the exponent, so
    that -(2^32 - 1) becomes minus zero. *)
Theorem BigToCompact_negative_carry :
  BigToCompact (- (2 ^ 32 - 1)) = 0x05800000 /\ CompactToBig 0x05800000 = 0.
Proof. split; vm_compute; reflexivity. Qed.

(** The work of a block is positive exactly for the targets that are positive
    and below 2^256, and a lower positive target never counts for less work. *)
Theorem CalcWork_antitone (a b : Z) :
  0 < CompactToBig a <= CompactToBig b ->
  CalcWork b <= CalcWork a /\ (0 < CalcWork a <-> CompactToBig a < 2 ^ 256).
Proof.
  intros H. unfold CalcWork. change oneLsh256 with (2 ^ 256).
  destruct (Z.leb_spec (CompactToBig a) 0); [lia|]. destruct (Z.leb_spec (CompactToBig b) 0); [lia|].
  split; [apply Z.div_le_compat_l; lia|].
  split; intros Hc; [|apply Z.div_str_pos; lia].
  destruct (Z.lt_ge_cases (CompactToBig a) (2 ^ 256)); [done|].
  rewrite Z.div_small in Hc by lia. lia.
Qed.

Lemma CalcWork_antitone_witness : CalcWork 0x1d00ffff <= CalcWork 0x1b0404cb.
Proof.
  apply (CalcWork_antitone 0x1b0404cb 0x1d00ffff). vm_compute. split; [reflexivity|discriminate].
Defined.
