(* ===== verification/Compress.v ===== *)
(** * Compressed amounts, scripts and transaction outputs

    The formats of [blockchain/compress.go] in which the unspent outputs are stored:
    variable length quantities (module [Vlq]), amounts, scripts, whole outputs and the
    flag byte of a transaction.

    The functions of the code that write into a slice given by the caller are modelled
    by functions from the old to the new contents of that slice; an index beyond its
    end is a panic. *)

From S2P Require Import Prelude Opcodes.
From stdpp Require Import list.
#[local] Open Scope Z_scope.

Inductive compressError :=
| ErrAfterAmount | ErrNegativeScriptSize | ErrAfterScriptSize | LoopRunning.

(** ** Variable length quantities *)

Module Vlq.

(** A 64-bit number has at most ten groups of seven bits. *)
Definition fuel : nat := 10.

Fixpoint size_loop (fuel : nat) (n size : Z) : option Z :=
  if n >? 0x7f
  then
    match fuel with
    | O => None
    | S fuel => size_loop fuel (u64 (Z.shiftr n 7 - 1)) (size + 1)
    end
  else Some size.

Definition serializeSizeVLQ (n : Z) : Z := default 0 (size_loop fuel n 1).

(** The loop writes the groups from the lowest on; it gives the offset of the last. *)
Fixpoint put_loop (fuel offset : nat) (target : bytes) (n : Z) : res compressError (bytes * nat) :=
  match fuel with
  | O => Err LoopRunning
  | S fuel =>
      let highBitMask := if (offset =? 0)%nat then 0 else 0x80 in
      if (offset <? length target)%nat
      then
        let target := <[offset := Z.lor (u8 (Z.land n 0x7f)) highBitMask]> target in
        if n <=? 0x7f then Ok (target, offset)
        else put_loop fuel (S offset) target (u64 (Z.shiftr n 7 - 1))
      else Panic
  end.

(** The loop that exchanges the bytes at [i] and [j], from both ends; [n] bounds the
    number of exchanges. *)
Fixpoint swap_loop (n i j : nat) (target : bytes) : bytes :=
  match n with
  | O => target
  | S n =>
      if (i <? j)%nat
      then swap_loop n (S i) (j - 1)
             (<[j := nth i target 0]> (<[i := nth j target 0]> target))
      else target
  end.

Definition putVLQ (target : bytes) (n : Z) : res compressError (bytes * nat) :=
  '(target, offset) ← put_loop fuel 0 target n;
  Ok (swap_loop offset 0 offset target, (offset + 1)%nat).

Fixpoint deserialize_loop (n : Z) (size : nat) (serialized : bytes) : Z * nat :=
  match serialized with
  | [] => (n, size)
  | val :: serialized =>
      let size := S size in
      let n := Z.lor (u64 (Z.shiftl n 7)) (Z.land val 0x7f) in
      if negb (Z.land val 0x80 =? 0x80) then (n, size)
      else deserialize_loop (u64 (n + 1)) size serialized
  end.

Definition deserializeVLQ (serialized : bytes) : Z * nat := deserialize_loop 0 0 serialized.

(** *** The encoding of a number

    [prefix n] are the groups of [n], all of them marked as followed by another;
    [encodeVLQ] puts the lowest group, unmarked, after the marked ones. *)

Fixpoint prefix (k : nat) (n : Z) : bytes :=
  match k with
  | O => []
  | S k => if n <=? 127 then [n + 128] else prefix k (n / 128 - 1) ++ [n mod 128 + 128]
  end.

Definition encodeVLQ (n : Z) : bytes :=
  if n <=? 127 then [n] else prefix 9 (n / 128 - 1) ++ [n mod 128].

(** [below k n]: [n] has at most [k] groups. *)
Fixpoint bound (k : nat) : Z :=
  match k with
  | O => 0
  | S k => 128 + 128 * bound k
  end.

Lemma bound_u64 : 2 ^ 64 <= bound 10.
Proof. vm_compute. discriminate. Qed.

Lemma group_bits n : Z.land n 0x7f = n mod 128.
Proof. change 0x7f with (Z.ones 7). by rewrite Z.land_ones. Qed.

Lemma next_group n : 127 < n < 2 ^ 64 -> u64 (Z.shiftr n 7 - 1) = n / 128 - 1.
Proof. intros H. rewrite Z.shiftr_div_pow2 by lia. change (2 ^ 7) with 128. ilia. Qed.

Lemma next_bound k n : 127 < n < bound (S k) -> 0 <= n / 128 - 1 < bound k.
Proof. cbn [bound]. intros H. Z.div_mod_to_equations. lia. Qed.

Lemma mark_group x : 0 <= x < 128 -> Z.lor x 0x80 = x + 128.
Proof. intros H. rewrite Z.lor_comm. change 0x80 with (1 * 2 ^ 7). rewrite lor_disjoint by lia. lia. Qed.

Lemma length_prefix_pos k n : (0 < k)%nat -> (0 < length (prefix k n))%nat.
Proof.
  destruct k; [lia|]. intros _. cbn [prefix]. destruct (n <=? 127); cbn; [lia|].
  rewrite length_app. cbn. lia.
Qed.

(** Side conditions about the next group. *)
Ltac groups :=
  first [lia | apply next_bound; pose proof bound_u64; cbn [bound] in *; lia
        | Z.div_mod_to_equations; lia].

(** *** Writing *)

(** The rest of the loop, once the lowest group is written. *)
Lemma put_loop_prefix k : forall done rest n,
  (0 < length done)%nat -> 0 <= n < bound k -> n < 2 ^ 64 ->
  put_loop k (length done) (done ++ rest) n =
    if (length (prefix k n) <=? length rest)%nat
    then Ok (done ++ rev (prefix k n) ++ drop (length (prefix k n)) rest,
             (length done + length (prefix k n) - 1)%nat)
    else Panic.
Proof.
  induction k as [|k IH]; intros done rest n Hd Hn H64; [cbn in Hn; lia|].
  cbn [put_loop prefix]. destruct (Nat.eqb_spec (length done) 0); [lia|].
  rewrite length_app. destruct rest as [|r rest].
  { rewrite Nat.add_0_r, Nat.ltb_irrefl. destruct (n <=? 127); [done|].
    rewrite length_app, Nat.add_1_r. done. }
  destruct (Nat.ltb_spec (length done) (length done + length (r :: rest))) as [_|Hl]; [|cbn in Hl; lia].
  rewrite group_bits, u8_small, mark_group by (unfold is_u8; Z.div_mod_to_equations; lia).
  rewrite insert_app_r_alt, Nat.sub_diag by lia. cbn [list_insert insert].
  destruct (Z.leb_spec n 127) as [Hle|Hgt].
  - rewrite Z.mod_small by lia. cbn [length Nat.leb rev app drop].
    replace (length done + 1 - 1)%nat with (length done) by lia. done.
  - rewrite next_group by lia.
    replace (S (length done)) with (length (done ++ [n mod 128 + 128])) by (rewrite length_app; cbn; lia).
    change (n mod 128 + 128 :: rest) with ([n mod 128 + 128] ++ rest). rewrite app_assoc.
    rewrite IH; [|rewrite length_app; cbn; lia|apply next_bound; lia|Z.div_mod_to_equations; lia].
    rewrite !length_app, rev_app_distr. cbn [length]. rewrite !Nat.add_1_r. cbn [length rev app Nat.leb drop].
    destruct (length (prefix k (n / 128 - 1)) <=? length rest)%nat; [|done].
    rewrite <- app_assoc. cbn [app]. f_equal. f_equal. lia.
Qed.

(** The exchanges reverse the segment between the two indices. *)
Lemma swap_loop_rev n : forall seg a b : bytes,
  (length seg <= S n)%nat ->
  swap_loop n (length a) (length a + length seg - 1) (a ++ seg ++ b) = a ++ rev seg ++ b.
Proof.
  induction n as [|n IH]; intros seg a b Hn.
  { destruct seg as [|x [|]]; cbn in *; [done|done|lia]. }
  destruct seg as [|x seg]; cbn [swap_loop length].
  { destruct (Nat.ltb_spec (length a) (length a + 0 - 1)); [lia|done]. }
  destruct seg as [|y seg _] using rev_ind.
  { cbn [length]. destruct (Nat.ltb_spec (length a) (length a + 1 - 1)); [lia|done]. }
  rewrite length_app. cbn [length].
  destruct (Nat.ltb_spec (length a) (length a + S (length seg + 1) - 1)); [|lia].
  replace (length a + S (length seg + 1) - 1)%nat with (length a + S (length seg))%nat by lia.
  cbn [app]. rewrite <- app_assoc. cbn [app].
  rewrite (app_nth2 a _ _) by lia. rewrite Nat.sub_diag. cbn [nth].
  rewrite (app_nth2 a _ _) by lia. replace (length a + S (length seg) - length a)%nat with (S (length seg)) by lia.
  cbn [nth]. rewrite nth_middle.
  rewrite insert_app_r_alt, Nat.sub_diag by lia. cbn [list_insert insert].
  rewrite insert_app_r_alt by lia. replace (length a + S (length seg) - length a)%nat with (S (length seg)) by lia.
  change (<[S (length seg) := x]> (y :: seg ++ y :: b)) with (y :: <[length seg := x]> (seg ++ y :: b)).
  rewrite insert_app_r_alt, Nat.sub_diag by lia. cbn [list_insert insert].
  replace (S (length a)) with (length (a ++ [y])) by (rewrite length_app; cbn; lia).
  replace (length a + S (length seg) - 1)%nat with (length (a ++ [y]) + length seg - 1)%nat
    by (rewrite length_app; cbn; lia).
  change (y :: seg ++ x :: b) with ([y] ++ seg ++ x :: b). rewrite app_assoc, IH.
  - cbn [rev]. rewrite rev_app_distr. cbn [rev app]. rewrite <- !app_assoc. done.
  - cbn in Hn. rewrite length_app in Hn. cbn in Hn. lia.
Qed.

(** The first iterations. *)
Lemma put_loop_first k t0 target n :
  put_loop (S k) 0 (t0 :: target) n =
    let target := Z.lor (u8 (Z.land n 0x7f)) 0 :: target in
    if n <=? 0x7f then Ok (target, 0%nat) else put_loop k 1 target (u64 (Z.shiftr n 7 - 1)).
Proof. reflexivity. Qed.

Lemma size_loop_first k n s :
  size_loop (S k) n s = if n >? 0x7f then size_loop k (u64 (Z.shiftr n 7 - 1)) (s + 1) else Some s.
Proof. reflexivity. Qed.

(** [putVLQ] puts the encoding at the front of the target, if it fits. *)
Lemma putVLQ_spec target n :
  is_u64 n ->
  putVLQ target n =
    if (length (encodeVLQ n) <=? length target)%nat
    then Ok (encodeVLQ n ++ drop (length (encodeVLQ n)) target, length (encodeVLQ n))
    else Panic.
Proof.
  unfold is_u64. intros Hn. unfold putVLQ, fuel, encodeVLQ. destruct target as [|t0 target].
  { destruct (n <=? 127); [done|]. by rewrite length_app, Nat.add_1_r. }
  rewrite put_loop_first. cbv zeta. cbn [length]. rewrite group_bits, Z.lor_0_r, u8_small by (unfold is_u8; Z.div_mod_to_equations; lia).
  destruct (Z.leb_spec n 127) as [Hle|Hgt].
  { by rewrite Z.mod_small by lia. }
  rewrite next_group by lia.
  pose proof (put_loop_prefix 9 [n mod 128] target (n / 128 - 1)) as Hp. cbn [length app] in Hp.
  rewrite Hp by groups.
  clear Hp. set (P := prefix 9 (n / 128 - 1)). rewrite length_app. cbn [length]. rewrite Nat.add_1_r.
  cbn [Nat.leb]. destruct (Nat.leb_spec (length P) (length target)); [|done].
  cbn [mbind res_bind]. pose proof (swap_loop_rev (length P) (n mod 128 :: rev P) [] (drop (length P) target)) as Hs.
  cbn [length app rev] in Hs. rewrite length_rev, rev_involutive in Hs.
  replace (1 + length P - 1)%nat with (length P) by lia.
  replace (0 + S (length P) - 1)%nat with (length P) in Hs by lia.
  rewrite Hs by lia. cbn [drop]. rewrite Nat.add_1_r, <- app_assoc. done.
Qed.

Lemma serializeSizeVLQ_spec n : is_u64 n -> serializeSizeVLQ n = Z.of_nat (length (encodeVLQ n)).
Proof.
  assert (H : forall k m s, 0 <= m < bound k -> m < 2 ^ 64 ->
    size_loop k m s = Some (s + Z.of_nat (length (prefix k m)) - 1)).
  { induction k as [|k IH]; intros m s Hm H64; [cbn in Hm; lia|]. cbn [size_loop prefix].
    destruct (Z.gtb_spec m 0x7f), (Z.leb_spec m 127); try lia.
    - rewrite next_group, IH by groups.
      rewrite length_app. cbn [length]. f_equal. lia.
    - cbn [length]. f_equal. lia. }
  unfold is_u64. intros Hn. unfold serializeSizeVLQ, fuel, encodeVLQ.
  rewrite size_loop_first. destruct (Z.gtb_spec n 0x7f), (Z.leb_spec n 127); try lia; [|done].
  rewrite next_group, H by groups.
  rewrite length_app. cbn [length from_option]. unfold id. lia.
Qed.

(** *** Reading *)

Lemma length_encodeVLQ n : is_u64 n -> (1 <= length (encodeVLQ n) <= 10)%nat.
Proof.
  intros _. unfold encodeVLQ. destruct (n <=? 127); cbn [length]; [lia|].
  rewrite length_app. cbn [length].
  assert (forall k m, (length (prefix k m) <= k)%nat) as Hp; [|specialize (Hp 9%nat (n / 128 - 1)); lia].
  induction k as [|k IH]; intros m; cbn [prefix]; [done|]. destruct (m <=? 127); cbn [length]; [lia|].
  rewrite length_app. cbn [length]. specialize (IH (m / 128 - 1)). lia.
Qed.

(** One byte of the loop, marked or not. *)
Lemma read_marked n size g rest :
  0 <= n -> n * 128 + g < 2 ^ 64 -> 0 <= g < 128 ->
  deserialize_loop n size (g + 128 :: rest) = deserialize_loop (u64 (n * 128 + g + 1)) (S size) rest.
Proof.
  intros Hn Hm Hg. cbn [deserialize_loop].
  change 0x80 with (2 ^ 7). rewrite land_pow2, group_bits, Z.shiftl_mul_pow2 by lia. change (2 ^ 7) with 128.
  replace ((g + 128) / 128) with 1 by (Z.div_mod_to_equations; lia).
  replace ((g + 128) mod 128) with g by (Z.div_mod_to_equations; lia).
  rewrite u64_small by (unfold is_u64; lia). change 128 with (2 ^ 7) at 4. rewrite lor_disjoint by lia. done.
Qed.

Lemma read_last n size g rest :
  0 <= n -> n * 128 + g < 2 ^ 64 -> 0 <= g < 128 ->
  deserialize_loop n size (g :: rest) = (n * 128 + g, S size).
Proof.
  intros Hn Hm Hg. cbn [deserialize_loop].
  change 0x80 with (2 ^ 7). rewrite land_pow2, group_bits, Z.shiftl_mul_pow2 by lia. change (2 ^ 7) with 128.
  rewrite (Z.div_small g), (Z.mod_small g) by lia. change (negb _) with true. cbv iota.
  rewrite u64_small by (unfold is_u64; lia). change 128 with (2 ^ 7) at 1. rewrite lor_disjoint by lia. done.
Qed.

Lemma read_prefix k : forall n size rest,
  0 <= n < bound k -> n + 1 < 2 ^ 64 ->
  deserialize_loop 0 size (prefix k n ++ rest) =
    deserialize_loop (n + 1) (size + length (prefix k n)) rest.
Proof.
  induction k as [|k IH]; intros n size rest Hn H64; [cbn in Hn; lia|]. cbn [prefix].
  destruct (Z.leb_spec n 127).
  - cbn [app length]. rewrite read_marked by lia. rewrite u64_small by (unfold is_u64; lia).
    f_equal; lia.
  - rewrite <- app_assoc, IH by groups. cbn [app].
    rewrite read_marked by groups. rewrite u64_small by (unfold is_u64; groups).
    rewrite length_app. cbn [length]. f_equal; [Z.div_mod_to_equations; lia|lia].
Qed.

Lemma deserialize_encode n rest :
  is_u64 n -> deserializeVLQ (encodeVLQ n ++ rest) = (n, length (encodeVLQ n)).
Proof.
  unfold is_u64. intros Hn. unfold deserializeVLQ, encodeVLQ. destruct (Z.leb_spec n 127).
  - cbn [app]. rewrite read_last by lia. done.
  - rewrite <- app_assoc, read_prefix by groups. cbn [app]. rewrite read_last by groups.
    rewrite length_app. cbn [length]. f_equal; [Z.div_mod_to_equations; lia|lia].
Qed.

(** *** Every complete code is an encoding *)

Definition marked (b : Z) : Prop := 128 <= b < 256.

Lemma marked_bit b : is_u8 b -> (Z.land b 0x80 =? 0x80) = bool_decide (marked b).
Proof.
  unfold is_u8, marked. intros Hb. change 0x80 with (2 ^ 7). rewrite land_pow2 by lia. change (2 ^ 7) with 128.
  case_bool_decide.
  - replace (b / 128) with 1 by (Z.div_mod_to_equations; lia). done.
  - rewrite (Z.div_small b) by lia. done.
Qed.

Lemma marked_prefix k l :
  l <> [] -> (length l <= k)%nat -> Forall marked l ->
  exists m, prefix k m = l /\ 0 <= m < bound (length l).
Proof.
  revert k. induction l as [|b l IH] using rev_ind; intros k Hl Hk Hm; [done|].
  apply Forall_app in Hm as [Hm Hb]. apply Forall_cons in Hb as [Hb _]. unfold marked in Hb.
  rewrite length_app in Hk. cbn [length] in Hk. destruct k as [|k]; [lia|].
  rewrite length_app. cbn [length]. rewrite Nat.add_1_r. cbn [prefix bound].
  destruct l as [|c l].
  - exists (b - 128). destruct (Z.leb_spec (b - 128) 127); [|lia]. split; [|cbn [length bound]; lia].
    cbn [app]. f_equal. lia.
  - destruct (IH k) as (m & <- & Hr); [done|lia|done|]. clear IH.
    exists ((m + 1) * 128 + (b - 128)). destruct (Z.leb_spec ((m + 1) * 128 + (b - 128)) 127); [lia|].
    split; [|lia].
    replace (((m + 1) * 128 + (b - 128)) / 128 - 1) with m by (Z.div_mod_to_equations; lia).
    replace (((m + 1) * 128 + (b - 128)) mod 128) with (b - 128) by (Z.div_mod_to_equations; lia).
    f_equal. f_equal. lia.
Qed.

(** The loop stops after the first byte that is not marked. *)
Lemma read_size b : forall n size, is_bytes b ->
  (exists l g rest, b = l ++ g :: rest /\ Forall marked l /\ 0 <= g < 128 /\
    (deserialize_loop n size b).2 = (size + S (length l))%nat) \/
  (Forall marked b /\ (deserialize_loop n size b).2 = (size + length b)%nat).
Proof.
  induction b as [|x b IH]; intros n size Hb.
  - right. split; [constructor|cbn; lia].
  - apply Forall_cons in Hb as [Hx Hb]. cbn [deserialize_loop]. rewrite marked_bit by done.
    case_bool_decide as Hmk; cbn [negb].
    + destruct (IH (u64 (Z.lor (u64 (Z.shiftl n 7)) (Z.land x 0x7f) + 1)) (S size) Hb)
        as [(l & g & rest & -> & Hl & Hg & E)|[Hl E]].
      * left. exists (x :: l), g, rest. split; [done|]. split; [by constructor|]. split; [done|].
        rewrite E. cbn [length]. lia.
      * right. split; [by constructor|]. rewrite E. cbn [length]. lia.
    + left. exists [], x, b. unfold marked, is_u8 in *. split; [done|]. split; [constructor|].
      split; [lia|]. cbn. lia.
Qed.

Lemma decode_canonical b n size g :
  is_bytes b -> (size <= 9)%nat -> deserializeVLQ b = (n, size) ->
  last (take size b) = Some g -> g < 128 -> take size b = encodeVLQ n /\ is_u64 n.
Proof.
  intros Hb Hs Hd Hg Hlt. unfold deserializeVLQ in Hd.
  destruct (read_size b 0 0 Hb) as [(l & g' & rest & -> & Hl & Hg' & E)|[Hl E]]; rewrite Hd in E; cbn in E.
  - subst size. clear Hg Hlt g Hb.
    change (l ++ g' :: rest) with (l ++ [g'] ++ rest) in *. rewrite app_assoc in *.
    rewrite take_app_length' by (rewrite length_app; cbn; lia).
    assert (exists m, l ++ [g'] = encodeVLQ m /\ is_u64 m) as (m & Em & Hm).
    { destruct l as [|c l].
      - exists g'. unfold encodeVLQ. destruct (Z.leb_spec g' 127); [|lia]. split; [done|unfold is_u64; lia].
      - destruct (marked_prefix 9 (c :: l)) as (m & Em & Hr); [done|lia|done|].
        exists ((m + 1) * 128 + g'). unfold encodeVLQ. rewrite <- Em.
        assert (bound (length (c :: l)) <= bound 8) as Hbd.
        { assert (forall i j, (i <= j)%nat -> bound i <= bound j) as Hmono; [|apply Hmono; lia].
          induction i; intros [|j] Hij; cbn [bound]; [lia| |lia|specialize (IHi j); lia].
          clear. induction j; cbn [bound] in *; lia. }
        assert (bound 8 * 128 + 128 < 2 ^ 64) as Hb8 by (vm_compute; done).
        destruct (Z.leb_spec ((m + 1) * 128 + g') 127); [lia|].
        replace (((m + 1) * 128 + g') / 128 - 1) with m by (Z.div_mod_to_equations; lia).
        replace (((m + 1) * 128 + g') mod 128) with g' by (Z.div_mod_to_equations; lia).
        split; [done|unfold is_u64; lia]. }
    rewrite Em in *. change (deserialize_loop 0 0) with deserializeVLQ in Hd.
    rewrite deserialize_encode in Hd by done. injection Hd as <- _. done.
  - exfalso. subst size. rewrite firstn_all in Hg. apply last_Some_elem_of in Hg.
    rewrite Forall_forall in Hl. specialize (Hl _ Hg). unfold marked in Hl. lia.
Qed.

(** Variable length quantities are a bijection, as their description says.  A
    64-bit number is written in [serializeSizeVLQ] bytes, at most ten, at the front of
    any target that has room for them (and panics otherwise), leaves the rest of the
    target alone, and is read back with that size whatever follows.  Conversely a
    complete code of at most nine bytes is the one that [putVLQ] writes for the number
    that it is read as. *)
Theorem vlq_bijective (n : Z) (target : bytes) :
  is_u64 n ->
  let size := serializeSizeVLQ n in
  1 <= size <= 10 /\
  match putVLQ target n with
  | Ok (target', written) =>
      Z.of_nat written = size /\ size <= Z.of_nat (length target) /\
      drop written target' = drop written target /\ length target' = length target /\
      deserializeVLQ target' = (n, written)
  | Err _ => False
  | Panic => Z.of_nat (length target) < size
  end /\
  forall b m k g, is_bytes b -> (k <= 9)%nat -> deserializeVLQ b = (m, k) ->
    last (take k b) = Some g -> g < 128 ->
    exists b', putVLQ b m = Ok (b', k) /\ take k b' = take k b.
Proof.
  intros Hn size. unfold size. rewrite serializeSizeVLQ_spec, putVLQ_spec by done.
  pose proof (length_encodeVLQ n Hn). split; [lia|]. split.
  - destruct (Nat.leb_spec (length (encodeVLQ n)) (length target)); [|lia].
    split; [done|]. split; [lia|]. rewrite drop_app_length, deserialize_encode by done.
    split; [done|]. split; [rewrite length_app, length_drop; lia|done].
  - intros b m k g Hb Hk Hd Hl Hg. destruct (decode_canonical b m k g Hb Hk Hd Hl Hg) as [E Hm].
    assert (length (encodeVLQ m) = k) as Hlen.
    { pose proof (deserialize_encode m (drop k b) Hm) as Hd'. rewrite <- E in Hd' at 1.
      rewrite take_drop, Hd in Hd'. by injection Hd'. }
    rewrite putVLQ_spec by done. rewrite Hlen.
    assert (k <= length b)%nat by (rewrite <- Hlen, <- E, length_take; lia).
    destruct (Nat.leb_spec k (length b)); [|lia]. eexists. split; [done|].
    by rewrite E, take_app_length' by done.
Qed.
End Vlq.

Lemma vlq_bijective_witness :
  Vlq.putVLQ [9; 9; 9; 9; 9] 2113663 = Ok ([0xff; 0xff; 0x7f; 9; 9], 3%nat) /\
  Vlq.deserializeVLQ [0xff; 0xff; 0x7f; 9; 9] = (2113663, 3%nat) /\
  Vlq.serializeSizeVLQ 2113663 <= 10.
Proof.
  split; [vm_compute; reflexivity|]. split; [vm_compute; reflexivity|].
  destruct (Vlq.vlq_bijective 2113663 [9; 9; 9; 9; 9]) as [H _]; [unfold is_u64; lia|apply H].
Defined.

(** ** Amounts *)

Module Amount.

(** The loop that divides by ten, while it can and at most nine times. *)
Fixpoint strip_loop (k : nat) (amount exponent : Z) : Z * Z :=
  match k with
  | O => (amount, exponent)
  | S k => if amount mod 10 =? 0 then strip_loop k (amount / 10) (exponent + 1) else (amount, exponent)
  end.

Definition compressTxOutAmount (amount : Z) : Z :=
  if amount =? 0 then 0
  else
    let '(amount, exponent) := strip_loop 9 amount 0 in
    if exponent <? 9
    then
      let lastDigit := amount mod 10 in
      let amount := amount / 10 in
      u64 (u64 (1 + u64 (10 * u64 (u64 (u64 (9 * amount) + lastDigit) - 1))) + exponent)
    else u64 (10 + u64 (10 * u64 (amount - 1))).

Definition decompressTxOutAmount (amount : Z) : Z :=
  if amount =? 0 then 0
  else
    let amount := u64 (amount - 1) in
    let exponent := amount mod 10 in
    let amount := amount / 10 in
    let n :=
      if exponent <? 9
      then
        let lastDigit := u64 (amount mod 9 + 1) in
        let amount := amount / 9 in
        u64 (u64 (amount * 10) + lastDigit)
      else u64 (amount + 1) in
    Nat.iter (Z.to_nat exponent) (fun n => u64 (n * 10)) n.

(** Remove the wraps that do nothing, from the innermost on. *)
Ltac drop_u64 :=
  repeat match goal with
  | |- context [u64 ?x] =>
      lazymatch x with
      | context [u64 _] => fail
      | _ => rewrite (u64_small x) by (unfold is_u64; lia)
      end
  end.

Lemma strip_spec k : forall a e,
  0 < a ->
  let '(n, f) := strip_loop k a e in
  0 < n /\ e <= f <= e + Z.of_nat k /\ a = n * 10 ^ (f - e) /\
  (f < e + Z.of_nat k -> n mod 10 <> 0).
Proof.
  induction k as [|k IH]; intros a e Ha; cbn [strip_loop].
  { rewrite Z.sub_diag. split; [done|]. split; [lia|]. split; lia. }
  destruct (Z.eqb_spec (a mod 10) 0) as [E|E].
  - specialize (IH (a / 10) (e + 1)). destruct (strip_loop k (a / 10) (e + 1)) as [n f].
    destruct IH as (H1 & H2 & H3 & H4); [Z.div_mod_to_equations; lia|].
    split; [done|]. split; [lia|]. split; [|intros; apply H4; lia].
    replace (f - e) with (Z.succ (f - (e + 1))) by lia. rewrite Z.pow_succ_r by lia.
    Z.div_mod_to_equations. lia.
  - rewrite Z.sub_diag. split; [done|]. split; [lia|]. split; [lia|done].
Qed.

Lemma strip_shift n f k e :
  0 < n -> (f <= k)%nat -> ((f < k)%nat -> n mod 10 <> 0) ->
  strip_loop k (n * 10 ^ Z.of_nat f) e = (n, e + Z.of_nat f).
Proof.
  intros Hn. revert k e. induction f as [|f IH]; intros k e Hk Hd.
  - rewrite Z.pow_0_r, Z.mul_1_r, Z.add_0_r. destruct k; cbn [strip_loop]; [done|].
    destruct (Z.eqb_spec (n mod 10) 0); [|done]. exfalso. apply Hd; [lia|done].
  - destruct k as [|k]; [lia|]. cbn [strip_loop]. rewrite Nat2Z.inj_succ, Z.pow_succ_r by lia.
    replace (n * (10 * 10 ^ Z.of_nat f)) with (n * 10 ^ Z.of_nat f * 10) by lia.
    rewrite Z.mod_mul, Z.div_mul by lia. cbn [Z.eqb].
    rewrite IH by (lia || intros; apply Hd; lia). f_equal. lia.
Qed.

Lemma iter_ten e n :
  0 <= n -> n * 10 ^ Z.of_nat e < 2 ^ 64 ->
  Nat.iter e (fun n => u64 (n * 10)) n = n * 10 ^ Z.of_nat e.
Proof.
  intros Hn. induction e as [|e IH]; intros H; [cbn; lia|].
  rewrite Nat2Z.inj_succ, Z.pow_succ_r in * by lia.
  assert (0 < 10 ^ Z.of_nat e) by (apply Z.pow_pos_nonneg; lia).
  rewrite Nat.iter_succ, IH by nia. rewrite u64_small by (unfold is_u64; nia). lia.
Qed.

Lemma pow10_pos e : 0 < 10 ^ Z.of_nat e.
Proof. apply Z.pow_pos_nonneg; lia. Qed.

(** The digits of the two forms of a compressed amount. *)
Lemma compress_low n e :
  0 < n < 2 ^ 60 -> (e < 9)%nat -> n mod 10 <> 0 -> n * 10 ^ Z.of_nat e < 2 ^ 64 ->
  compressTxOutAmount (n * 10 ^ Z.of_nat e) =
    1 + 10 * (9 * (n / 10) + n mod 10 - 1) + Z.of_nat e.
Proof.
  intros Hn He Hd Hlt. pose proof (pow10_pos e). unfold compressTxOutAmount.
  destruct (Z.eqb_spec (n * 10 ^ Z.of_nat e) 0); [nia|].
  rewrite strip_shift by (lia || done). rewrite Z.add_0_l.
  destruct (Z.ltb_spec (Z.of_nat e) 9); [|lia].
  assert (1 <= n mod 10 <= 9) by (Z.div_mod_to_equations; lia).
  assert (0 <= n / 10 < 2 ^ 57) by (Z.div_mod_to_equations; lia).
  drop_u64. lia.
Qed.

Lemma compress_high n :
  0 < n -> n * 10 ^ 9 < 2 ^ 64 -> compressTxOutAmount (n * 10 ^ 9) = 10 + 10 * (n - 1).
Proof.
  intros Hn Hlt. unfold compressTxOutAmount. destruct (Z.eqb_spec (n * 10 ^ 9) 0); [lia|].
  change (10 ^ 9) with (10 ^ Z.of_nat 9). rewrite strip_shift by lia. cbn [Z.ltb].
  change (0 + Z.of_nat 9 <? 9) with false. cbv iota.
  drop_u64. lia.
Qed.

Lemma decompress_low n d e :
  0 <= n -> 1 <= d <= 9 -> (e < 9)%nat -> (n * 10 + d) * 10 ^ Z.of_nat e < 2 ^ 64 ->
  1 + 10 * (9 * n + d - 1) + Z.of_nat e < 2 ^ 64 ->
  decompressTxOutAmount (1 + 10 * (9 * n + d - 1) + Z.of_nat e) = (n * 10 + d) * 10 ^ Z.of_nat e.
Proof.
  intros Hn Hd He Hlt Hx. pose proof (pow10_pos e). unfold decompressTxOutAmount.
  set (x := 1 + 10 * (9 * n + d - 1) + Z.of_nat e) in *.
  destruct (Z.eqb_spec x 0); [lia|]. rewrite (u64_small (x - 1)) by (unfold is_u64; lia).
  replace ((x - 1) mod 10) with (Z.of_nat e) by (unfold x; Z.div_mod_to_equations; lia).
  replace ((x - 1) / 10) with (9 * n + d - 1) by (unfold x; Z.div_mod_to_equations; lia).
  destruct (Z.ltb_spec (Z.of_nat e) 9); [|lia]. rewrite Nat2Z.id.
  replace ((9 * n + d - 1) mod 9 + 1) with d by (Z.div_mod_to_equations; lia).
  replace ((9 * n + d - 1) / 9) with n by (Z.div_mod_to_equations; lia).
  assert (n * 10 + d < 2 ^ 64) by nia.
  rewrite (u64_small d), (u64_small (n * 10)), u64_small by (unfold is_u64; lia).
  apply iter_ten; lia.
Qed.

Lemma decompress_high n :
  0 < n -> n * 10 ^ 9 < 2 ^ 64 -> decompressTxOutAmount (10 + 10 * (n - 1)) = n * 10 ^ 9.
Proof.
  intros Hn Hlt. unfold decompressTxOutAmount. destruct (Z.eqb_spec (10 + 10 * (n - 1)) 0); [lia|].
  rewrite (u64_small (10 + 10 * (n - 1) - 1)) by (unfold is_u64; lia).
  replace ((10 + 10 * (n - 1) - 1) mod 10) with 9 by (Z.div_mod_to_equations; lia).
  replace ((10 + 10 * (n - 1) - 1) / 10) with (n - 1) by (Z.div_mod_to_equations; lia).
  change (9 <? 9) with false. cbv iota. rewrite u64_small by (unfold is_u64; lia).
  replace (n - 1 + 1) with n by lia. change (Z.to_nat 9) with 9%nat. apply (iter_ten 9); lia.
Qed.

Lemma decompress_compress a : 0 <= a < 2 ^ 60 -> decompressTxOutAmount (compressTxOutAmount a) = a.
Proof.
  intros Ha. destruct (Z.eq_dec a 0) as [->|Hne]; [done|].
  pose proof (strip_spec 9 a 0 ltac:(lia)) as Hs. destruct (strip_loop 9 a 0) as [n f].
  destruct Hs as (Hn & Hf & E & Hd). rewrite Z.sub_0_r in E.
  assert (exists e, f = Z.of_nat e) as [e ->] by (exists (Z.to_nat f); lia).
  pose proof (pow10_pos e). rewrite E. destruct (Nat.lt_ge_cases e 9).
  - assert (n < 2 ^ 60) by nia. specialize (Hd ltac:(lia)).
    assert (1 <= n mod 10 <= 9) by (Z.div_mod_to_equations; lia).
    rewrite compress_low by (lia || done).
    assert (E10 : n = n / 10 * 10 + n mod 10) by (Z.div_mod_to_equations; lia).
    rewrite E10 at 3. apply decompress_low; [Z.div_mod_to_equations; lia|lia|done|lia|].
    Z.div_mod_to_equations; lia.
  - replace e with 9%nat in * by lia. change (Z.of_nat 9) with 9 in *.
    rewrite compress_high, decompress_high by lia. done.
Qed.

Lemma compress_decompress x : 0 <= x < 10 ^ 11 -> compressTxOutAmount (decompressTxOutAmount x) = x.
Proof.
  intros Hx. destruct (Z.eq_dec x 0) as [->|Hne]; [done|].
  set (e := (x - 1) mod 10). set (q := (x - 1) / 10).
  assert (Ex : x = 1 + 10 * q + e) by (unfold e, q; Z.div_mod_to_equations; lia).
  assert (He : 0 <= e < 10) by (apply Z.mod_pos_bound; lia).
  assert (Hq : 0 <= q < 10 ^ 10) by (unfold q; Z.div_mod_to_equations; lia).
  clearbody e q. destruct (Z.eq_dec e 9) as [->|He9].
  - replace x with (10 + 10 * ((q + 1) - 1)) by lia. rewrite decompress_high, compress_high by lia. done.
  - assert (exists k, e = Z.of_nat k) as [k ->] by (exists (Z.to_nat e); lia).
    assert (Hp : 10 ^ Z.of_nat k <= 10 ^ 8) by (apply Z.pow_le_mono_r; lia). pose proof (pow10_pos k).
    set (n := q / 9). set (d := q mod 9 + 1).
    assert (Hd : 1 <= d <= 9) by (unfold d; Z.div_mod_to_equations; lia).
    assert (Hn : 0 <= n <= 10 ^ 10 / 9) by (unfold n; split; [apply Z.div_pos; lia|apply Z.div_le_mono; lia]).
    assert (E : q = 9 * n + d - 1) by (unfold n, d; Z.div_mod_to_equations; lia).
    replace x with (1 + 10 * (9 * n + d - 1) + Z.of_nat k) by lia. clearbody n d.
    change (10 ^ 10 / 9) with 1111111111 in Hn.
    assert ((n * 10 + d) * 10 ^ Z.of_nat k < 2 ^ 64) by nia.
    rewrite decompress_low by lia.
    rewrite compress_low by (lia || Z.div_mod_to_equations; lia).
    replace ((n * 10 + d) / 10) with n by (Z.div_mod_to_equations; lia).
    replace ((n * 10 + d) mod 10) with d by (Z.div_mod_to_equations; lia). done.
Qed.
End Amount.

Lemma amount_example : Amount.compressTxOutAmount 12345678 = 111111101.
Proof. reflexivity. Qed.

(** ** Scripts *)

Module ScriptForm.

Definition cstPayToPubKeyHash : Z := 0.
Definition cstPayToScriptHash : Z := 1.
Definition cstPayToPubKeyCompEven : Z := 2.
Definition cstPayToPubKeyCompOdd : Z := 3.
Definition cstPayToPubKeyUncompEven : Z := 4.
Definition cstPayToPubKeyUncompOdd : Z := 5.
Definition cstPayToPubKeyHashBliss : Z := 6.
Definition cstPayToPubKeyHashLms : Z := 7.
Definition numSpecialScripts : Z := 64.

(** The signature types of crypto/bliss and crypto/lms. *)
Definition BSTypeBliss : Z := 4.
Definition LMSTypeLMS : Z := 5.

(** [s[i]] where the length has been checked, and [s[a:b]]. *)
Definition at_ (s : bytes) (i : nat) : Z := nth i s 0.
Definition sub_ (s : bytes) (a b : nat) : bytes := take (b - a) (drop a s).

Definition isPubKeyHash (script : bytes) : option bytes :=
  if (length script =? 25)%nat && (at_ script 0 =? OP_DUP) && (at_ script 1 =? OP_HASH160)
     && (at_ script 2 =? OP_DATA_20) && (at_ script 23 =? OP_EQUALVERIFY)
     && (at_ script 24 =? OP_CHECKSIG)
  then Some (sub_ script 3 23) else None.

Definition isOneByteMaxDataPush (op : Z) : bool :=
  (op =? OP_1) || (op =? OP_2) || (op =? OP_3) || (op =? OP_4) || (op =? OP_5) || (op =? OP_6)
  || (op =? OP_7) || (op =? OP_8) || (op =? OP_9) || (op =? OP_10) || (op =? OP_11)
  || (op =? OP_12) || (op =? OP_13) || (op =? OP_14) || (op =? OP_15) || (op =? OP_16)
  || (op =? OP_DATA_1).

Definition isPubKeyHashAlt (script : bytes) : option (bytes * Z) :=
  if (length script =? 26)%nat && (at_ script 0 =? OP_DUP) && (at_ script 1 =? OP_HASH160)
     && (at_ script 2 =? OP_DATA_20) && (at_ script 23 =? OP_EQUALVERIFY)
     && isOneByteMaxDataPush (at_ script 24) && (at_ script 25 =? OP_CHECKSIGALT)
  then Some (sub_ script 3 23, at_ script 24) else None.

Definition isScriptHash (script : bytes) : option bytes :=
  if (length script =? 23)%nat && (at_ script 0 =? OP_HASH160) && (at_ script 1 =? OP_DATA_20)
     && (at_ script 22 =? OP_EQUAL)
  then Some (sub_ script 2 22) else None.

(** [copy(dst[off:], src)]: as many bytes as there are on both sides. *)
Definition copy_at (dst : bytes) (off : nat) (src : bytes) : bytes :=
  take off dst ++ take (length dst - off) src ++ drop (off + length src) dst.

(** [target[0] = t; copy(target[1:n], data)], where [n - 1] bytes are copied. *)
Definition put_tagged (target : bytes) (t : Z) (n : nat) (data : bytes) : res compressError (bytes * nat) :=
  if (n <=? length target)%nat
  then Ok (t :: data ++ drop n target, n) else Panic.

(** The public keys of [chainec.Secp256k1]. *)
Section keys.
Context {PubKey : Type} (ParsePubKey : bytes -> option PubKey).
Context (SerializeUncompressed : PubKey -> bytes).

Definition isPubKey (script : bytes) : option bytes :=
  if (length script =? 35)%nat && (at_ script 0 =? OP_DATA_33) && (at_ script 34 =? OP_CHECKSIG)
     && ((at_ script 1 =? 0x02) || (at_ script 1 =? 0x03))
     && bool_decide (is_Some (ParsePubKey (sub_ script 1 34)))
  then Some (sub_ script 1 34)
  else if (length script =? 67)%nat && (at_ script 0 =? OP_DATA_65) && (at_ script 66 =? OP_CHECKSIG)
     && (at_ script 1 =? 0x04)
     && bool_decide (is_Some (ParsePubKey (sub_ script 1 66)))
  then Some (sub_ script 1 66)
  else None.

Definition compressedScriptSize (pkScript : bytes) : Z :=
  if bool_decide (is_Some (isPubKeyHash pkScript)) then 21
  else if bool_decide (is_Some (isPubKeyHashAlt pkScript)) then 21
  else if bool_decide (is_Some (isScriptHash pkScript)) then 21
  else if bool_decide (is_Some (isPubKey pkScript)) then 33
  else Vlq.serializeSizeVLQ (u64 (Z.of_nat (length pkScript) + numSpecialScripts))
       + Z.of_nat (length pkScript).

Definition decodeCompressedScriptSize (serialized : bytes) : Z :=
  let '(scriptSize, bytesRead) := Vlq.deserializeVLQ serialized in
  if (bytesRead =? 0)%nat then 0
  else if (scriptSize =? cstPayToPubKeyHash) || (scriptSize =? cstPayToScriptHash)
     || (scriptSize =? cstPayToPubKeyHashBliss) || (scriptSize =? cstPayToPubKeyHashLms) then 21
  else if (scriptSize =? cstPayToPubKeyCompEven) || (scriptSize =? cstPayToPubKeyCompOdd)
     || (scriptSize =? cstPayToPubKeyUncompEven) || (scriptSize =? cstPayToPubKeyUncompOdd) then 33
  else i64 (u64 (u64 (scriptSize - numSpecialScripts) + Z.of_nat bytesRead)).

(** The general case: the size and the script itself. *)
Definition put_plain (target : bytes) (pkScript : bytes) : res compressError (bytes * nat) :=
  let encodedSize := u64 (Z.of_nat (length pkScript) + numSpecialScripts) in
  '(target, vlqSizeLen) ← Vlq.putVLQ target encodedSize;
  Ok (copy_at target vlqSizeLen pkScript, (vlqSizeLen + length pkScript)%nat).

(** An empty target is indexed, which panics. *)
Definition putCompressedScript (target : bytes) (pkScript : bytes) : res compressError (bytes * nat) :=
  if (length target =? 0)%nat then Panic
  else
    match isPubKeyHash pkScript with
    | Some hash => put_tagged target cstPayToPubKeyHash 21 hash
    | None =>
    match isScriptHash pkScript with
    | Some hash => put_tagged target cstPayToScriptHash 21 hash
    | None =>
    let alt :=
      match isPubKeyHashAlt pkScript with
      | Some (hash, tp) =>
          let tag := if (tp =? 0x05) || (tp =? 0x55) then cstPayToPubKeyHashLms
                     else cstPayToPubKeyHashBliss in
          put_tagged target tag 21 hash
      | None => put_plain target pkScript
      end in
    match isPubKey pkScript with
    | Some key =>
        let pubKeyFormat := at_ key 0 in
        if (pubKeyFormat =? 0x02) || (pubKeyFormat =? 0x03)
        then put_tagged target
               (if pubKeyFormat =? 0x02 then cstPayToPubKeyCompEven else cstPayToPubKeyCompOdd)
               33 (sub_ key 1 33)
        else if pubKeyFormat =? 0x04
        then put_tagged target
               (if Z.land (at_ key 64) 0x01 =? 0x01 then cstPayToPubKeyUncompOdd
                else cstPayToPubKeyUncompEven)
               33 (sub_ key 1 33)
        else alt
    | None => alt
    end end end.

(** [s[a:a+n]], which panics beyond the end of the slice. *)
Definition slice_panic (s : bytes) (a n : nat) : res compressError bytes :=
  if (a + n <=? length s)%nat then Ok (sub_ s a (a + n)) else Panic.

(** A nil result is [None]. *)
Definition decompressScript (compressedPkScript : bytes) : res compressError (option bytes) :=
  if (length compressedPkScript =? 0)%nat then Ok None
  else
    let '(encodedScriptSize, bytesRead) := Vlq.deserializeVLQ compressedPkScript in
    let alt sigType :=
      hash ← slice_panic compressedPkScript bytesRead 20;
      Ok (Some ([OP_DUP; OP_HASH160; OP_DATA_20] ++ hash ++ [OP_EQUALVERIFY; sigType; OP_CHECKSIGALT])) in
    if encodedScriptSize =? cstPayToPubKeyHash then
      hash ← slice_panic compressedPkScript bytesRead 20;
      Ok (Some ([OP_DUP; OP_HASH160; OP_DATA_20] ++ hash ++ [OP_EQUALVERIFY; OP_CHECKSIG]))
    else if encodedScriptSize =? cstPayToScriptHash then
      hash ← slice_panic compressedPkScript bytesRead 20;
      Ok (Some ([OP_HASH160; OP_DATA_20] ++ hash ++ [OP_EQUAL]))
    else if (encodedScriptSize =? cstPayToPubKeyCompEven)
         || (encodedScriptSize =? cstPayToPubKeyCompOdd) then
      let oddness := if encodedScriptSize =? cstPayToPubKeyCompOdd then 0x03 else 0x02 in
      x ← slice_panic compressedPkScript bytesRead 32;
      Ok (Some ([OP_DATA_33; oddness] ++ x ++ [OP_CHECKSIG]))
    else if (encodedScriptSize =? cstPayToPubKeyUncompEven)
         || (encodedScriptSize =? cstPayToPubKeyUncompOdd) then
      let oddness := if encodedScriptSize =? cstPayToPubKeyUncompOdd then 0x03 else 0x02 in
      let compressedKey := copy_at (oddness :: replicate 32 0) 1 (drop 1 compressedPkScript) in
      match ParsePubKey compressedKey with
      | None => Ok None
      | Some key =>
          Ok (Some (<[66%nat := OP_CHECKSIG]>
            (copy_at (OP_DATA_65 :: replicate 66 0) 1 (SerializeUncompressed key))))
      end
    else if encodedScriptSize =? cstPayToPubKeyHashBliss then alt BSTypeBliss
    else if encodedScriptSize =? cstPayToPubKeyHashLms then alt LMSTypeLMS
    else
      let scriptSize := i64 (u64 (encodedScriptSize - numSpecialScripts)) in
      if scriptSize <? 0 then Panic
      else
        script ← slice_panic compressedPkScript bytesRead (Z.to_nat scriptSize);
        Ok (Some script).

(** *** The shapes of the standard scripts *)

Lemma split_ends (s : bytes) a b :
  (a <= b <= length s)%nat -> s = take a s ++ sub_ s a b ++ drop b s.
Proof.
  intros H. unfold sub_. rewrite <- (take_drop a s) at 1. f_equal.
  rewrite <- (take_drop (b - a) (drop a s)) at 1. f_equal. rewrite drop_drop. f_equal. lia.
Qed.

Lemma length_sub (s : bytes) a b : (a <= b <= length s)%nat -> length (sub_ s a b) = (b - a)%nat.
Proof. intros H. unfold sub_. rewrite length_take, length_drop. lia. Qed.

Lemma take_at (s : bytes) n : (n <= length s)%nat -> take n s = at_ s <$> seq 0 n.
Proof.
  intros H. apply list_eq. intros i. destruct (Nat.lt_ge_cases i n).
  - rewrite lookup_take_lt, list_lookup_fmap, lookup_seq_lt by lia. cbn. unfold at_.
    destruct (lookup_lt_is_Some_2 s i) as [x Hx]; [lia|]. rewrite Hx. f_equal. symmetry.
    by apply nth_lookup_Some.
  - rewrite lookup_take_ge, list_lookup_fmap, lookup_seq_ge by lia. done.
Qed.

Lemma drop_at (s : bytes) n : (n <= length s)%nat -> drop n s = at_ s <$> seq n (length s - n).
Proof.
  intros H. apply list_eq. intros i. rewrite lookup_drop, list_lookup_fmap.
  destruct (Nat.lt_ge_cases i (length s - n)).
  - rewrite lookup_seq_lt by lia. cbn. unfold at_.
    destruct (lookup_lt_is_Some_2 s (n + i)) as [x Hx]; [lia|]. rewrite Hx. f_equal. symmetry.
    by apply nth_lookup_Some.
  - rewrite lookup_seq_ge by lia. apply lookup_ge_None. lia.
Qed.

(** Split a recognized script at both ends, and read off the tests. *)
Ltac tests :=
  repeat match goal with
  | H : _ && _ = true |- _ => apply andb_prop in H as [? ?]
  | H : (_ =? _)%nat = true |- _ => apply Nat.eqb_eq in H
  | H : (_ =? _) = true |- _ => apply Z.eqb_eq in H
  end.
Ltac shape a b :=
  match goal with Hl : length ?s = _ |- _ =>
    split; [|rewrite length_sub; lia];
    rewrite (split_ends s a b) at 1 by lia;
    rewrite (take_at s a), (drop_at s b), Hl by lia; cbn [seq fmap list_fmap Nat.sub];
    repeat match goal with H : at_ s ?i = ?v |- context [at_ s ?i] => rewrite H end
  end.

Lemma isPubKeyHash_shape s h : isPubKeyHash s = Some h ->
  s = [OP_DUP; OP_HASH160; OP_DATA_20] ++ h ++ [OP_EQUALVERIFY; OP_CHECKSIG] /\ length h = 20%nat.
Proof.
  unfold isPubKeyHash. destruct (_ && _) eqn:E; [|done]. intros [= <-]. tests. shape 3%nat 23%nat. done.
Qed.

Lemma isScriptHash_shape s h : isScriptHash s = Some h ->
  s = [OP_HASH160; OP_DATA_20] ++ h ++ [OP_EQUAL] /\ length h = 20%nat.
Proof.
  unfold isScriptHash. destruct (_ && _) eqn:E; [|done]. intros [= <-]. tests. shape 2%nat 22%nat. done.
Qed.

Lemma isPubKeyHashAlt_shape s h tp : isPubKeyHashAlt s = Some (h, tp) ->
  (s = [OP_DUP; OP_HASH160; OP_DATA_20] ++ h ++ [OP_EQUALVERIFY; tp; OP_CHECKSIGALT] /\
   length h = 20%nat) /\ isOneByteMaxDataPush tp = true.
Proof.
  unfold isPubKeyHashAlt. destruct (_ && _) eqn:E; [|done]. intros [= <- <-]. tests.
  split; [|done]. shape 3%nat 23%nat. done.
Qed.

(** A key script holds a valid compressed or uncompressed key. *)
Lemma isPubKey_shape s key : isPubKey s = Some key ->
  is_Some (ParsePubKey key) /\
  ((s = [OP_DATA_33] ++ key ++ [OP_CHECKSIG] /\ length key = 33%nat) /\
     (at_ key 0 = 2 \/ at_ key 0 = 3) \/
   (s = [OP_DATA_65] ++ key ++ [OP_CHECKSIG] /\ length key = 65%nat) /\ at_ key 0 = 4).
Proof.
  unfold isPubKey. destruct (_ && _) eqn:E.
  - intros [= <-]. tests.
    match goal with H : bool_decide _ = true |- _ => apply bool_decide_eq_true in H end.
    split; [done|]. left. split; [shape 1%nat 34%nat; done|].
    match goal with H : _ || _ = true |- _ => apply orb_prop in H as [H|H]; apply Z.eqb_eq in H end;
      [left|right]; unfold at_, sub_ in *; rewrite nth_firstn, nth_skipn; done.
  - clear E. destruct (_ && _) eqn:E; [|done]. intros [= <-]. tests.
    match goal with H : bool_decide _ = true |- _ => apply bool_decide_eq_true in H end.
    split; [done|]. right. split; [shape 1%nat 66%nat; done|].
    unfold at_, sub_ in *. rewrite nth_firstn, nth_skipn. done.
Qed.

(** *** The compressed form of a script *)

(** The tag and the data of a standard script. *)
Definition special (s : bytes) : option (Z * bytes) :=
  match isPubKeyHash s, isScriptHash s, isPubKey s, isPubKeyHashAlt s with
  | Some h, _, _, _ => Some (cstPayToPubKeyHash, h)
  | _, Some h, _, _ => Some (cstPayToScriptHash, h)
  | _, _, Some key, _ =>
      Some (if at_ key 0 =? 2 then cstPayToPubKeyCompEven
            else if at_ key 0 =? 3 then cstPayToPubKeyCompOdd
            else if Z.land (at_ key 64) 1 =? 1 then cstPayToPubKeyUncompOdd
            else cstPayToPubKeyUncompEven, sub_ key 1 33)
  | _, _, _, Some (h, tp) =>
      Some (if (tp =? 0x05) || (tp =? 0x55) then cstPayToPubKeyHashLms
            else cstPayToPubKeyHashBliss, h)
  | _, _, _, _ => None
  end.

Definition compressed (s : bytes) : bytes :=
  match special s with
  | Some (tag, data) => tag :: data
  | None => Vlq.encodeVLQ (Z.of_nat (length s) + numSpecialScripts) ++ s
  end.

Definition storable (s : bytes) : Prop := Z.of_nat (length s) < 2 ^ 62.

(** The standard forms exclude one another. *)
Lemma hash_not_alt s h : isPubKeyHash s = Some h -> isPubKeyHashAlt s = None.
Proof.
  intros [-> Hl]%isPubKeyHash_shape. unfold isPubKeyHashAlt. rewrite !length_app, Hl. done.
Qed.

Lemma script_not_others s h : isScriptHash s = Some h -> isPubKeyHash s = None /\ isPubKeyHashAlt s = None.
Proof.
  intros [-> Hl]%isScriptHash_shape. unfold isPubKeyHash, isPubKeyHashAlt.
  rewrite !length_app, Hl. done.
Qed.

Lemma key_not_others s key : isPubKey s = Some key ->
  isPubKeyHash s = None /\ isPubKeyHashAlt s = None /\ isScriptHash s = None.
Proof.
  intros [_ [[[-> Hl] _]|[[-> Hl] _]]]%isPubKey_shape;
    unfold isPubKeyHash, isPubKeyHashAlt, isScriptHash; rewrite !length_app, Hl; done.
Qed.

Lemma special_length s tag data : special s = Some (tag, data) ->
  0 <= tag <= 7 /\ length data = (if (2 <=? tag) && (tag <=? 5) then 32%nat else 20%nat).
Proof.
  unfold special. destruct (isPubKeyHash s) as [h|] eqn:E1.
  { intros [= <- <-]. apply isPubKeyHash_shape in E1 as [_ ->]. done. }
  destruct (isScriptHash s) as [h|] eqn:E2.
  { intros [= <- <-]. apply isScriptHash_shape in E2 as [_ ->]. done. }
  destruct (isPubKey s) as [key|] eqn:E3.
  { intros [= <- <-]. apply isPubKey_shape in E3 as [_ E3].
    assert (Hl : (33 <= length key)%nat) by lia. rewrite length_sub by lia.
    destruct (_ =? 2); [done|]. destruct (_ =? 3); [done|]. by destruct (_ =? 1). }
  destruct (isPubKeyHashAlt s) as [[h tp]|] eqn:E4; [|done].
  intros [= <- <-]. apply isPubKeyHashAlt_shape in E4 as [[_ ->] _]. by destruct (_ || _).
Qed.

Lemma put_special target s :
  putCompressedScript target s =
    if (length target =? 0)%nat then Panic
    else match special s with
         | Some (tag, data) => put_tagged target tag (S (length data)) data
         | None => put_plain target s
         end.
Proof.
  unfold putCompressedScript. destruct (length target =? 0)%nat; [done|]. unfold special.
  destruct (isPubKeyHash s) as [h|] eqn:E1; [by apply isPubKeyHash_shape in E1 as [_ ->]|].
  destruct (isScriptHash s) as [h|] eqn:E2; [by apply isScriptHash_shape in E2 as [_ ->]|].
  destruct (isPubKey s) as [key|] eqn:E3.
  - apply isPubKey_shape in E3 as [_ E3]. rewrite (length_sub key) by lia. cbn [Nat.sub].
    destruct E3 as [[_ [->| ->]]|[_ ->]]; reflexivity.
  - destruct (isPubKeyHashAlt s) as [[h tp]|] eqn:E4; [|done].
    by apply isPubKeyHashAlt_shape in E4 as [[_ ->] _].
Qed.

Lemma compressedScriptSize_spec s :
  storable s -> compressedScriptSize s = Z.of_nat (length (compressed s)).
Proof.
  unfold storable. intros Hs. unfold compressedScriptSize, compressed, special.
  destruct (isPubKeyHash s) as [h|] eqn:E1.
  { rewrite bool_decide_true by eauto. apply isPubKeyHash_shape in E1 as [_ E1]. cbn [length]. lia. }
  rewrite bool_decide_false by (by intros []).
  destruct (isScriptHash s) as [h|] eqn:E2.
  { destruct (script_not_others _ _ E2) as [_ ->]. rewrite (bool_decide_false (is_Some None)) by (by intros []).
    rewrite bool_decide_true by eauto. apply isScriptHash_shape in E2 as [_ E2]. cbn [length]. lia. }
  destruct (isPubKey s) as [key|] eqn:E3.
  { destruct (key_not_others _ _ E3) as (_ & -> & _). rewrite !(bool_decide_false (is_Some None)) by (by intros []).
    rewrite bool_decide_true by eauto. apply isPubKey_shape in E3 as [_ E3].
    cbn [length]. rewrite length_sub by lia. lia. }
  destruct (isPubKeyHashAlt s) as [[h tp]|] eqn:E4.
  { rewrite bool_decide_true by eauto. apply isPubKeyHashAlt_shape in E4 as [[_ E4] _]. cbn [length]. lia. }
  rewrite !(bool_decide_false (is_Some None)) by (by intros []). unfold numSpecialScripts.
  rewrite u64_small, Vlq.serializeSizeVLQ_spec by (unfold is_u64; lia). rewrite length_app. lia.
Qed.

(** [putCompressedScript] writes the compressed form where there is room for it. *)
Lemma putCompressedScript_spec target s :
  storable s -> (length (compressed s) <= length target)%nat ->
  putCompressedScript target s =
    Ok (compressed s ++ drop (length (compressed s)) target, length (compressed s)).
Proof.
  unfold storable. intros Hs Ht. rewrite put_special. unfold compressed in *.
  destruct (special s) as [[tag data]|] eqn:E.
  - cbn [length] in *. destruct (Nat.eqb_spec (length target) 0); [lia|]. unfold put_tagged.
    destruct (Nat.leb_spec (S (length data)) (length target)); [done|lia].
  - rewrite length_app in Ht. unfold put_plain, numSpecialScripts in *.
    set (n := Z.of_nat (length s) + 64) in *.
    assert (Hn : is_u64 n) by (unfold is_u64; lia). pose proof (Vlq.length_encodeVLQ n Hn).
    destruct (Nat.eqb_spec (length target) 0); [lia|]. rewrite u64_small, Vlq.putVLQ_spec by done.
    destruct (Nat.leb_spec (length (Vlq.encodeVLQ n)) (length target)); [|lia]. cbn [mbind res_bind].
    unfold copy_at. rewrite take_app_length, length_app, length_drop.
    rewrite firstn_all2 by lia. rewrite drop_app, drop_drop, length_app.
    rewrite drop_ge by lia. cbn [app]. f_equal. rewrite <- app_assoc. f_equal. f_equal. f_equal.
    f_equal. lia.
Qed.

Lemma tag_vlq tag rest : 0 <= tag <= 127 -> Vlq.deserializeVLQ (tag :: rest) = (tag, 1%nat).
Proof. intros H. unfold Vlq.deserializeVLQ. rewrite Vlq.read_last by lia. done. Qed.

(** The size of a compressed script is found from its front. *)
Lemma decode_size s rest :
  storable s -> decodeCompressedScriptSize (compressed s ++ rest) = Z.of_nat (length (compressed s)).
Proof.
  unfold storable. intros Hs. unfold decodeCompressedScriptSize, compressed.
  destruct (special s) as [[tag data]|] eqn:E.
  - destruct (special_length _ _ _ E) as [Ht Hl]. cbn [app]. rewrite tag_vlq by lia. cbn [length]. rewrite Hl.
    assert (tag = 0 \/ tag = 1 \/ tag = 2 \/ tag = 3 \/ tag = 4 \/ tag = 5 \/ tag = 6 \/ tag = 7) as Hc by lia.
    by destruct Hc as [->|[->|[->|[->|[->|[->|[->| ->]]]]]]].
  - unfold numSpecialScripts. set (n := Z.of_nat (length s) + 64). assert (Hn : is_u64 n) by (unfold is_u64; lia).
    rewrite <- app_assoc, Vlq.deserialize_encode by done. pose proof (Vlq.length_encodeVLQ n Hn).
    destruct (Nat.eqb_spec (length (Vlq.encodeVLQ n)) 0); [lia|].
    unfold cstPayToPubKeyHash, cstPayToScriptHash, cstPayToPubKeyHashBliss, cstPayToPubKeyHashLms,
      cstPayToPubKeyCompEven, cstPayToPubKeyCompOdd, cstPayToPubKeyUncompEven, cstPayToPubKeyUncompOdd.
    repeat match goal with |- context [n =? ?k] => destruct (Z.eqb_spec n k); [lia|] end.
    cbn [orb]. rewrite (u64_small (n - 64)), u64_small, i64_small by (unfold is_u64, is_i64; lia).
    rewrite length_app. lia.
Qed.

(** *** Decompression *)

(** What a key script relies on: the X coordinate of a valid uncompressed key with the
    parity of its Y coordinate identifies the key. *)
Definition keys_recover : Prop := forall X Y key,
  length X = 32%nat -> length Y = 32%nat -> ParsePubKey (0x04 :: X ++ Y) = Some key ->
  exists key',
    ParsePubKey ((if Z.land (at_ Y 31) 1 =? 1 then 0x03 else 0x02) :: X) = Some key' /\
    SerializeUncompressed key' = 0x04 :: X ++ Y.

(** The script that comes back: the type of an alternative signature is replaced. *)
Definition restored (s : bytes) : bytes :=
  match isPubKeyHashAlt s with
  | Some (h, tp) =>
      [OP_DUP; OP_HASH160; OP_DATA_20] ++ h ++
      [OP_EQUALVERIFY; if (tp =? 0x05) || (tp =? 0x55) then LMSTypeLMS else BSTypeBliss; OP_CHECKSIGALT]
  | None => s
  end.

Lemma slice_tagged tag data : slice_panic (tag :: data) 1 (length data) = Ok data.
Proof.
  unfold slice_panic, sub_. cbn [length]. rewrite Nat.leb_refl.
  replace (1 + length data - 1)%nat with (length data) by lia. cbn [drop]. by rewrite firstn_all.
Qed.

Lemma decompress_tagged tag data : 0 <= tag <= 7 ->
  decompressScript (tag :: data) =
    let hash n := slice_panic (tag :: data) 1 n in
    let alt sigType :=
      hash ← hash 20%nat;
      Ok (Some ([OP_DUP; OP_HASH160; OP_DATA_20] ++ hash ++ [OP_EQUALVERIFY; sigType; OP_CHECKSIGALT])) in
    if tag =? 0 then
      hash ← hash 20%nat; Ok (Some ([OP_DUP; OP_HASH160; OP_DATA_20] ++ hash ++ [OP_EQUALVERIFY; OP_CHECKSIG]))
    else if tag =? 1 then
      hash ← hash 20%nat; Ok (Some ([OP_HASH160; OP_DATA_20] ++ hash ++ [OP_EQUAL]))
    else if (tag =? 2) || (tag =? 3) then
      x ← hash 32%nat; Ok (Some ([OP_DATA_33; if tag =? 3 then 0x03 else 0x02] ++ x ++ [OP_CHECKSIG]))
    else if (tag =? 4) || (tag =? 5) then
      match ParsePubKey (copy_at ((if tag =? 5 then 0x03 else 0x02) :: replicate 32 0) 1 data) with
      | None => Ok None
      | Some key =>
          Ok (Some (<[66%nat := OP_CHECKSIG]>
            (copy_at (OP_DATA_65 :: replicate 66 0) 1 (SerializeUncompressed key))))
      end
    else if tag =? 6 then alt BSTypeBliss else alt LMSTypeLMS.
Proof.
  intros Ht. unfold decompressScript. cbn [length Nat.eqb]. rewrite tag_vlq by lia. cbn [drop].
  assert (tag = 0 \/ tag = 1 \/ tag = 2 \/ tag = 3 \/ tag = 4 \/ tag = 5 \/ tag = 6 \/ tag = 7) as Hc by lia.
  by destruct Hc as [->|[->|[->|[->|[->|[->|[->| ->]]]]]]].
Qed.

Lemma copy_at_exact b dst src : length src = length dst -> copy_at (b :: dst) 1 src = b :: src.
Proof.
  intros Hl. unfold copy_at. cbn [length]. replace (S (length dst) - 1)%nat with (length dst) by lia.
  rewrite <- Hl, firstn_all. cbn [take drop]. rewrite drop_ge by (cbn [length]; lia).
  by rewrite app_nil_r.
Qed.

Lemma decompress_key s key : keys_recover -> isPubKey s = Some key ->
  decompressScript (compressed s) = Ok (Some s).
Proof.
  intros Hk Hs. destruct (key_not_others _ _ Hs) as (E1 & E2 & E3). unfold compressed, special.
  rewrite E1, E3, Hs. apply isPubKey_shape in Hs as [[k Hp] [[[-> Hl] Hf]|[[-> Hl] Hf]]].
  - assert (Hd : length (sub_ key 1 33) = 32%nat) by (rewrite length_sub; lia).
    assert (Ek : key = at_ key 0 :: sub_ key 1 33).
    { rewrite (split_ends key 1 33) at 1 by lia. rewrite (take_at key 1), (drop_ge key 33) by lia.
      cbn. by rewrite app_nil_r. }
    rewrite decompress_tagged by (destruct Hf as [->| ->]; cbv; split; discriminate). cbv zeta.
    set (d := sub_ key 1 33) in *. clearbody d. pose proof (slice_tagged 2 d) as S2.
    pose proof (slice_tagged 3 d) as S3. rewrite Hd in S2, S3.
    destruct Hf as [E|E]; rewrite E in Ek |- *; cbn [Z.eqb Pos.eqb orb]; cbv delta [cstPayToPubKeyCompEven cstPayToPubKeyCompOdd];
      cbn [Z.eqb Pos.eqb orb]; rewrite ?S2, ?S3, Ek; done.
  - set (X := sub_ key 1 33). set (Y := sub_ key 33 65).
    assert (HX : length X = 32%nat) by (unfold X; rewrite length_sub; lia).
    assert (HY : length Y = 32%nat) by (unfold Y; rewrite length_sub; lia).
    assert (Ek : key = 4 :: X ++ Y).
    { rewrite (split_ends key 1 33) at 1 by lia. rewrite (take_at key 1) by lia. cbn [seq fmap list_fmap].
      rewrite Hf. cbn [app]. f_equal. f_equal. unfold Y, sub_. by rewrite firstn_all2 by (rewrite length_drop; lia). }
    assert (Ey : at_ key 64 = at_ Y 31) by (unfold Y, at_, sub_; rewrite nth_firstn, nth_skipn; done).
    rewrite Hf, Ey. cbn [Z.eqb Pos.eqb]. rewrite Ek in Hp. destruct (Hk X Y k HX HY Hp) as (k' & P1 & P2).
    rewrite decompress_tagged by (destruct (_ =? 1); cbv; split; discriminate). cbv zeta.
    replace (ParsePubKey _) with (Some k').
    2:{ rewrite copy_at_exact by done. destruct (Z.land (at_ Y 31) 1 =? 1); exact (eq_sym P1). }
    rewrite P2. assert (E : <[66%nat := OP_CHECKSIG]> (copy_at (OP_DATA_65 :: replicate 66 0) 1 (4 :: X ++ Y)) =
      [OP_DATA_65] ++ key ++ [OP_CHECKSIG]); [|rewrite E; by destruct (Z.land (at_ Y 31) 1 =? 1)].
    assert (HXY : length (4 :: X ++ Y) = 65%nat) by (cbn [length]; rewrite length_app; lia).
    rewrite Ek. unfold copy_at. rewrite (firstn_all2 (4 :: X ++ Y)), HXY
      by (cbn [length]; rewrite length_replicate; cbn [length] in HXY; lia).
    replace (drop (1 + 65) (OP_DATA_65 :: replicate 66 0)) with [0] by reflexivity.
    change (take 1 (OP_DATA_65 :: replicate 66 0)) with [OP_DATA_65].
    change ([OP_DATA_65] ++ (4 :: X ++ Y) ++ [0]) with ((OP_DATA_65 :: 4 :: X ++ Y) ++ [0]).
    rewrite insert_app_r_alt by (cbn [length] in *; lia).
    change (length (OP_DATA_65 :: 4 :: X ++ Y)) with (S (length (4 :: X ++ Y))). by rewrite HXY.
Qed.

Lemma decompress_compressed s :
  keys_recover -> storable s -> decompressScript (compressed s) = Ok (Some (restored s)).
Proof.
  unfold storable. intros Hk Hs. unfold restored.
  destruct (isPubKey s) as [key|] eqn:E3.
  { destruct (key_not_others _ _ E3) as (_ & -> & _). by eapply decompress_key. }
  unfold compressed, special. destruct (isPubKeyHash s) as [h|] eqn:E1.
  { rewrite (hash_not_alt _ _ E1). apply isPubKeyHash_shape in E1 as [-> Hl].
    rewrite decompress_tagged by (cbv; split; discriminate). cbv zeta. rewrite <- Hl, slice_tagged. done. }
  destruct (isScriptHash s) as [h|] eqn:E2.
  { destruct (script_not_others _ _ E2) as [_ ->]. apply isScriptHash_shape in E2 as [-> Hl].
    rewrite decompress_tagged by (cbv; split; discriminate). cbv zeta. rewrite <- Hl, slice_tagged. done. }
  rewrite E3. destruct (isPubKeyHashAlt s) as [[h tp]|] eqn:E4.
  { apply isPubKeyHashAlt_shape in E4 as [[_ Hl] _].
    rewrite decompress_tagged by (destruct (_ || _); cbv; split; discriminate). cbv zeta. rewrite <- Hl, slice_tagged.
    by destruct ((tp =? 5) || (tp =? 0x55)). }
  unfold numSpecialScripts. set (n := Z.of_nat (length s) + 64). assert (Hn : is_u64 n) by (unfold is_u64; lia).
  pose proof (Vlq.length_encodeVLQ n Hn). unfold decompressScript.
  destruct (Nat.eqb_spec (length (Vlq.encodeVLQ n ++ s)) 0) as [E|_]; [rewrite length_app in E; lia|].
  rewrite Vlq.deserialize_encode by done.
  unfold cstPayToPubKeyHash, cstPayToScriptHash, cstPayToPubKeyHashBliss, cstPayToPubKeyHashLms,
    cstPayToPubKeyCompEven, cstPayToPubKeyCompOdd, cstPayToPubKeyUncompEven, cstPayToPubKeyUncompOdd.
  repeat match goal with |- context [n =? ?k] => destruct (Z.eqb_spec n k); [lia|] end.
  cbn [orb]. unfold numSpecialScripts. rewrite u64_small, i64_small by (unfold is_u64, is_i64; lia).
  destruct (Z.ltb_spec (n - 64) 0); [lia|]. unfold slice_panic, sub_. rewrite length_app.
  replace (Z.to_nat (n - 64)) with (length s) by lia. rewrite Nat.leb_refl.
  rewrite drop_app_length. replace (_ + length s - _)%nat with (length s) by lia. by rewrite firstn_all.
Qed.
End keys.
End ScriptForm.

(** ** Transaction outputs *)

Module TxOut.
Import Vlq Amount ScriptForm.

Section keys.
Context {PubKey : Type} (ParsePubKey : bytes -> option PubKey).
Context (SerializeUncompressed : PubKey -> bytes).

#[local] Notation compressedScriptSize := (compressedScriptSize ParsePubKey).
#[local] Notation putCompressedScript := (putCompressedScript ParsePubKey).
#[local] Notation compressed := (compressed ParsePubKey).

Definition compressedTxOutSize (amount scriptVersion : Z) (pkScript : bytes)
    (preCompressed hasAmount : bool) : Z :=
  let scriptVersionSize := serializeSizeVLQ scriptVersion in
  if preCompressed && negb hasAmount then scriptVersionSize + Z.of_nat (length pkScript)
  else if preCompressed && hasAmount then
    scriptVersionSize + serializeSizeVLQ (compressTxOutAmount amount) + Z.of_nat (length pkScript)
  else if negb preCompressed && negb hasAmount then
    scriptVersionSize + compressedScriptSize pkScript
  else
    scriptVersionSize + serializeSizeVLQ (compressTxOutAmount amount) + compressedScriptSize pkScript.

(** A write into [target[off:]]. *)
Definition put_from (off : nat) (put : bytes -> res compressError (bytes * nat)) (target : bytes)
    : res compressError (bytes * nat) :=
  '(t, n) ← put (drop off target); Ok (take off target ++ t, (off + n)%nat).

(** [copy(target[offset:], pkScript); return offset + len(pkScript)] *)
Definition put_copy (pkScript target : bytes) : res compressError (bytes * nat) :=
  Ok (copy_at target 0 pkScript, length pkScript).

Definition putCompressedTxOut (target : bytes) (amount scriptVersion : Z) (pkScript : bytes)
    (preCompressed hasAmount : bool) : res compressError (bytes * nat) :=
  if preCompressed && hasAmount then
    '(target, offset) ← putVLQ target (compressTxOutAmount amount);
    '(target, offset) ← put_from offset (fun t => putVLQ t scriptVersion) target;
    put_from offset (put_copy pkScript) target
  else if preCompressed && negb hasAmount then
    '(target, offset) ← putVLQ target scriptVersion;
    put_from offset (put_copy pkScript) target
  else if negb preCompressed && negb hasAmount then
    '(target, offset) ← putVLQ target scriptVersion;
    put_from offset (fun t => putCompressedScript t pkScript) target
  else
    '(target, offset) ← putVLQ target (compressTxOutAmount amount);
    '(target, offset) ← put_from offset (fun t => putVLQ t scriptVersion) target;
    put_from offset (fun t => putCompressedScript t pkScript) target.

(** The amount, script version, compressed script and the number of bytes read. *)
Definition decodeCompressedTxOut (serialized : bytes) (hasAmount : bool)
    : res compressError (Z * Z * bytes * nat) :=
  '(amount, offset) ←
    (if hasAmount
     then
       let '(compressedAmount, bytesRead) := deserializeVLQ serialized in
       _ ← guard_err (length serialized <=? bytesRead)%nat ErrAfterAmount;
       Ok (i64 (decompressTxOutAmount compressedAmount), bytesRead)
     else Ok (0, 0%nat));
  let '(scriptVersion, bytesRead) := deserializeVLQ (drop offset serialized) in
  let offset := (offset + bytesRead)%nat in
  let scriptSize := decodeCompressedScriptSize (drop offset serialized) in
  _ ← guard_err (scriptSize <? 0) ErrNegativeScriptSize;
  _ ← guard_err (Z.of_nat (length (drop offset serialized)) <? scriptSize) ErrAfterScriptSize;
  let n := Z.to_nat scriptSize in
  Ok (amount, u16 scriptVersion, take n (drop offset serialized), (offset + n)%nat).

(** *** The encoding *)

Definition amountBytes (amount : Z) (hasAmount : bool) : bytes :=
  if hasAmount then encodeVLQ (compressTxOutAmount amount) else [].

Definition encodeTxOut (amount scriptVersion : Z) (script : bytes) (hasAmount : bool) : bytes :=
  amountBytes amount hasAmount ++ encodeVLQ scriptVersion ++ script.

Lemma compress_u64 a : is_u64 (compressTxOutAmount a).
Proof.
  unfold compressTxOutAmount. destruct (a =? 0); [unfold is_u64; lia|].
  destruct (strip_loop 9 a 0). destruct (_ <? 9); apply u64_range.
Qed.

(** A writer that puts [e] at the front of any target with room for it. *)
Definition puts (put : bytes -> res compressError (bytes * nat)) (e : bytes) : Prop :=
  forall target, (length e <= length target)%nat ->
    put target = Ok (e ++ drop (length e) target, length e).

Lemma puts_vlq n : is_u64 n -> puts (fun t => putVLQ t n) (encodeVLQ n).
Proof. intros Hn t Ht. rewrite putVLQ_spec by done. by destruct (Nat.leb_spec (length (encodeVLQ n)) (length t)); [|lia]. Qed.

Lemma puts_copy s : puts (put_copy s) s.
Proof. intros t Ht. unfold put_copy, copy_at. rewrite Nat.sub_0_r, (firstn_all2 s) by done. done. Qed.

Lemma puts_script s : storable s -> puts (fun t => putCompressedScript t s) (compressed s).
Proof. intros Hs t Ht. by apply putCompressedScript_spec. Qed.

Lemma puts_then e put2 e2 rest :
  puts put2 e2 -> (length e2 <= length rest)%nat ->
  put_from (length e) put2 (e ++ rest) =
    Ok ((e ++ e2) ++ drop (length e2) rest, length (e ++ e2)).
Proof.
  intros H Hl. unfold put_from. rewrite drop_app_length, H by done. cbn [mbind res_bind].
  by rewrite take_app_length, <- app_assoc, length_app.
Qed.

Lemma putCompressedTxOut_puts amount scriptVersion script pre has :
  is_u16 scriptVersion -> (pre = false -> storable script) ->
  puts (fun t => putCompressedTxOut t amount scriptVersion script pre has)
    (encodeTxOut amount scriptVersion (if pre then script else compressed script) has).
Proof.
  intros Hv Hs t Ht. assert (Hv' : is_u64 scriptVersion) by (unfold is_u16, is_u64 in *; lia).
  pose proof (compress_u64 amount) as Ha. unfold encodeTxOut, amountBytes in *.
  pose proof (puts_vlq _ Hv') as Pv. pose proof (puts_vlq _ Ha) as Pa.
  pose proof (puts_copy script) as Pc. pose proof (fun E => puts_script _ (Hs E)) as Ps.
  unfold putCompressedTxOut. destruct pre, has; cbn [andb negb app] in *;
    rewrite ?length_app in Ht; try specialize (Ps eq_refl).
  all: first [rewrite Pa by lia | rewrite Pv by lia]; cbn [mbind res_bind].
  all: repeat (rewrite (puts_then _ _ _ _ Pv) by (rewrite length_drop; lia); cbn [mbind res_bind]).
  all: first [rewrite (puts_then _ _ _ _ Pc) by (rewrite ?drop_drop, ?length_drop; lia)
             |rewrite (puts_then _ _ _ _ Ps) by (rewrite ?drop_drop, ?length_drop; lia)].
  all: by rewrite ?drop_drop, ?length_app, <- ?app_assoc, ?Nat.add_assoc.
Qed.

Lemma size_encodeTxOut amount scriptVersion script pre has :
  is_u16 scriptVersion -> storable script ->
  compressedTxOutSize amount scriptVersion script pre has =
    Z.of_nat (length (encodeTxOut amount scriptVersion (if pre then script else compressed script) has)).
Proof.
  intros Hv Hs. assert (Hv' : is_u64 scriptVersion) by (unfold is_u16, is_u64 in *; lia).
  unfold compressedTxOutSize, encodeTxOut, amountBytes.
  rewrite !serializeSizeVLQ_spec, compressedScriptSize_spec by (done || apply compress_u64).
  destruct pre, has; cbn [andb negb app]; rewrite !length_app; cbn [length]; lia.
Qed.

Lemma decode_encodeTxOut amount scriptVersion script has rest :
  0 <= amount < 2 ^ 60 -> is_u16 scriptVersion -> storable script ->
  decodeCompressedTxOut (encodeTxOut amount scriptVersion (compressed script) has ++ rest) has =
    Ok (if has then amount else 0, scriptVersion, compressed script,
        length (encodeTxOut amount scriptVersion (compressed script) has)).
Proof.
  intros Ha Hv Hs. assert (Hv' : is_u64 scriptVersion) by (unfold is_u16, is_u64 in *; lia).
  assert (Hc : (1 <= length (compressed script))%nat).
  { unfold ScriptForm.compressed. destruct (special ParsePubKey script) as [[]|]; cbn [length]; [lia|].
    rewrite length_app. pose proof (length_encodeVLQ (Z.of_nat (length script) + numSpecialScripts)).
    unfold storable, numSpecialScripts in *. specialize (H ltac:(unfold is_u64; lia)). lia. }
  unfold decodeCompressedTxOut, encodeTxOut. rewrite <- !app_assoc.
  set (tail := encodeVLQ scriptVersion ++ compressed script ++ rest).
  assert (E : (if has
     then
       let '(compressedAmount, bytesRead) := deserializeVLQ (amountBytes amount has ++ tail) in
       _ ← guard_err (length (amountBytes amount has ++ tail) <=? bytesRead)%nat ErrAfterAmount;
       Ok (i64 (decompressTxOutAmount compressedAmount), bytesRead)
     else Ok (0, 0%nat)) = Ok (if has then amount else 0, length (amountBytes amount has))).
  { destruct has; [|done]. cbn [amountBytes]. rewrite deserialize_encode by apply compress_u64.
    assert (Ht : (0 < length tail)%nat) by (unfold tail; rewrite !length_app; lia).
    rewrite length_app. destruct (Nat.leb_spec (length (encodeVLQ (compressTxOutAmount amount)) + length tail)
      (length (encodeVLQ (compressTxOutAmount amount)))); [lia|]. cbn.
    rewrite decompress_compress, i64_small by first [done | unfold is_i64; lia]. done. }
  rewrite E. cbn [mbind res_bind]. clear E. rewrite drop_app_length. unfold tail.
  rewrite deserialize_encode by done.
  rewrite app_assoc, <- (length_app (amountBytes amount has)), drop_app_length, decode_size by done.
  destruct (Z.ltb_spec (Z.of_nat (length (compressed script))) 0); [lia|]. cbn [guard_err mbind res_bind].
  rewrite (length_app (compressed script) rest). destruct (Z.ltb_spec (Z.of_nat (length (compressed script) + length rest))
    (Z.of_nat (length (compressed script)))); [lia|]. cbn [guard_err mbind res_bind].
  rewrite Nat2Z.id, take_app_length, u16_small by done. do 2 f_equal. rewrite !length_app. lia.
Qed.

(** An unspent output that is written with its amount, script version and script is
    read back.  With room for [compressedTxOutSize] bytes, [putCompressedTxOut] writes
    exactly as many and leaves the rest of the target alone; whatever follows,
    [decodeCompressedTxOut] returns the amount, the version, the compressed script and
    that size; and decompressing that script gives the original one, except that a
    pay-to-alternative-pubkey-hash script comes back as [restored] says.  A script that
    was already compressed is written as it is. *)
Theorem txout_roundtrip (amount scriptVersion : Z) (script target : bytes) (has : bool) :
  keys_recover ParsePubKey SerializeUncompressed ->
  0 <= amount < 2 ^ 60 -> is_u16 scriptVersion -> storable script ->
  let size := compressedTxOutSize amount scriptVersion script false has in
  size <= Z.of_nat (length target) ->
  exists target' n,
    putCompressedTxOut target amount scriptVersion script false has = Ok (target', n) /\
    Z.of_nat n = size /\ drop n target' = drop n target /\
    decodeCompressedTxOut target' has =
      Ok (if has then amount else 0, scriptVersion, compressed script, n) /\
    decompressScript ParsePubKey SerializeUncompressed (compressed script) = Ok (Some (restored script)) /\
    putCompressedTxOut target amount scriptVersion (compressed script) true has = Ok (target', n).
Proof.
  intros Hk Ha Hv Hs size Hsize. unfold size in *. rewrite size_encodeTxOut in * by done.
  set (e := encodeTxOut amount scriptVersion (compressed script) has) in *.
  exists (e ++ drop (length e) target), (length e).
  split; [apply (putCompressedTxOut_puts amount scriptVersion script false has); first [done | unfold e in Hsize; lia]|].
  split; [done|]. split; [by rewrite drop_app_length|].
  split; [by apply decode_encodeTxOut|]. split; [by apply decompress_compressed|].
  apply (putCompressedTxOut_puts amount scriptVersion (compressed script) true has); first [done | unfold e in Hsize; lia].
Qed.
End keys.
End TxOut.

(** ** The flags of a transaction *)

Module Flags.

Definition txTypeBitmask : Z := 0x0c.
Definition txTypeShift : Z := 2.

Definition encodeFlags (isCoinBase hasExpiry : bool) (txType : Z) (fullySpent : bool) : Z :=
  let b := u8 (Z.shiftl (u8 txType) txTypeShift) in
  let b := if isCoinBase then Z.lor b 0x01 else b in
  let b := if hasExpiry then Z.lor b 0x02 else b in
  if fullySpent then Z.lor b 0x10 else b.

Definition decodeFlagsFullySpent (b : Z) : bool := negb (Z.land b (Z.shiftl 1 4) =? 0).

Definition decodeFlags (b : Z) : bool * bool * Z * bool :=
  let isCoinBase := negb (Z.land b 0x01 =? 0) in
  let hasExpiry := negb (Z.land b (Z.shiftl 1 1) =? 0) in
  let fullySpent := negb (Z.land b (Z.shiftl 1 4) =? 0) in
  let txType := Z.shiftr (Z.land b txTypeBitmask) txTypeShift in
  (isCoinBase, hasExpiry, txType, fullySpent).

Lemma flags_roundtrip isCoinBase hasExpiry txType fullySpent :
  0 <= txType < 4 ->
  decodeFlags (encodeFlags isCoinBase hasExpiry txType fullySpent) =
    (isCoinBase, hasExpiry, txType, fullySpent) /\
  decodeFlagsFullySpent (encodeFlags isCoinBase hasExpiry txType fullySpent) = fullySpent.
Proof.
  intros H. assert (txType = 0 \/ txType = 1 \/ txType = 2 \/ txType = 3) as Hc by lia.
  destruct Hc as [->|[->|[->| ->]]], isCoinBase, hasExpiry, fullySpent; split; reflexivity.
Qed.
End Flags.

(** The compression of amounts loses nothing: every amount below 2^60 atoms is
    restored by decompressing its compressed value, and every compressed value below
    10^11 stands for an amount that is compressed to it again. *)
Theorem amount_bijective (a : Z) :
  (0 <= a < 2 ^ 60 -> Amount.decompressTxOutAmount (Amount.compressTxOutAmount a) = a) /\
  (0 <= a < 10 ^ 11 -> Amount.compressTxOutAmount (Amount.decompressTxOutAmount a) = a).
Proof. split; [apply Amount.decompress_compress|apply Amount.compress_decompress]. Qed.

Lemma amount_bijective_witness :
  Amount.decompressTxOutAmount (Amount.compressTxOutAmount 5000000000) = 5000000000.
Proof. apply (amount_bijective 5000000000). lia. Defined.

(** The compression of scripts does lose something: a pay-to-alternative-pubkey-hash
    script, which pushes the type of the signature with one of OP_1 to OP_16 or
    OP_DATA_1, is recognized and compressed, but the script that decompression gives back
    has the bare type number 4 or 5 as an opcode in the place of that push (the number
    OP_4 or OP_5 for the two types in use), and so is never the original script. *)
Theorem alt_script_not_restored {PubKey} (ParsePubKey : bytes -> option PubKey)
    (SerializeUncompressed : PubKey -> bytes) (hash : bytes) (tp : Z) :
  ScriptForm.keys_recover ParsePubKey SerializeUncompressed ->
  length hash = 20%nat -> ScriptForm.isOneByteMaxDataPush tp = true ->
  let script t := [OP_DUP; OP_HASH160; OP_DATA_20] ++ hash ++ [OP_EQUALVERIFY; t; OP_CHECKSIGALT] in
  exists t,
    ScriptForm.decompressScript ParsePubKey SerializeUncompressed
      (ScriptForm.compressed ParsePubKey (script tp)) = Ok (Some (script t)) /\
    (t = OP_DATA_4 \/ t = OP_DATA_5) /\ script t <> script tp.
Proof.
  intros Hk Hl Htp script.
  assert (E : ScriptForm.isPubKeyHashAlt (script tp) = Some (hash, tp)).
  { unfold script. do 20 (destruct hash as [|? hash]; [discriminate Hl|]). destruct hash; [|discriminate Hl].
    unfold ScriptForm.isPubKeyHashAlt, ScriptForm.at_, ScriptForm.sub_. cbn [length app nth take drop Nat.sub Nat.eqb andb].
    rewrite Htp. reflexivity. }
  rewrite ScriptForm.decompress_compressed.
  2: done.
  2:{ unfold ScriptForm.storable, script. rewrite !length_app, Hl. cbn. lia. }
  unfold ScriptForm.restored. rewrite E. eexists. split; [done|].
  assert (Hne : tp <> OP_DATA_4 /\ tp <> OP_DATA_5) by (split; intros ->; discriminate Htp).
  split; [destruct (_ || _); [right|left]; done|].
  unfold script. intros Heq. do 2 apply app_inv_head in Heq. injection Heq as Ht.
  destruct (_ || _); [by destruct Hne|by destruct Hne].
Qed.

(** Keys with equal coordinates, for the examples. *)
Module SampleKeys.

Definition ParsePubKey (b : bytes) : option bytes :=
  match b with
  | [] => None
  | f :: c =>
      if f =? 4 then
        if (length c =? 64)%nat && bool_decide (take 32 c = drop 32 c) then Some b else None
      else
        if (length c =? 32)%nat && (f =? (if Z.land (ScriptForm.at_ c 31) 1 =? 1 then 3 else 2))
        then Some (4 :: c ++ c) else None
  end.

Lemma recover : ScriptForm.keys_recover ParsePubKey (fun k => k).
Proof.
  intros X Y key HX HY Hp. unfold ParsePubKey in Hp. cbn [Z.eqb Pos.eqb] in Hp.
  destruct (_ && _) eqn:E; [|done]. apply andb_prop in E as [_ E]. apply bool_decide_eq_true in E.
  rewrite take_app_length', drop_app_length' in E by done. subst Y.
  exists (4 :: X ++ X). split; [|done]. unfold ParsePubKey.
  destruct (Z.land (ScriptForm.at_ X 31) 1 =? 1) eqn:Eo; cbn [Z.eqb Pos.eqb]; rewrite HX; cbn [Nat.eqb andb];
    rewrite ?Eo; done.
Qed.

Definition hash : bytes := replicate 20 7.
Definition alt : bytes := [OP_DUP; OP_HASH160; OP_DATA_20] ++ hash ++ [OP_EQUALVERIFY; OP_4; OP_CHECKSIGALT].
Definition key : bytes := [OP_DATA_65; 4] ++ replicate 64 9 ++ [OP_CHECKSIG].
End SampleKeys.

Lemma txout_roundtrip_witness :
  exists target' n,
    TxOut.putCompressedTxOut SampleKeys.ParsePubKey (replicate 50 0) 1000 0 SampleKeys.key false true =
      Ok (target', n) /\
    TxOut.decodeCompressedTxOut target' true = Ok (1000, 0, 5 :: replicate 32 9, n) /\
    ScriptForm.decompressScript SampleKeys.ParsePubKey (fun k => k) (5 :: replicate 32 9) =
      Ok (Some SampleKeys.key).
Proof.
  destruct (TxOut.txout_roundtrip SampleKeys.ParsePubKey (fun k => k) 1000 0 SampleKeys.key
    (replicate 50 0) true SampleKeys.recover) as (t & n & H1 & _ & _ & H4 & H5 & _);
    [lia|unfold is_u16; lia|vm_compute; reflexivity|vm_compute; discriminate|].
  exists t, n. split; [exact H1|]. split; [exact H4|]. exact H5.
Defined.

Lemma alt_script_not_restored_witness :
  exists t,
    ScriptForm.decompressScript SampleKeys.ParsePubKey (fun k => k)
      (ScriptForm.compressed SampleKeys.ParsePubKey SampleKeys.alt) =
      Ok (Some ([OP_DUP; OP_HASH160; OP_DATA_20] ++ SampleKeys.hash ++ [OP_EQUALVERIFY; t; OP_CHECKSIGALT])) /\
    t <> OP_4.
Proof.
  destruct (alt_script_not_restored SampleKeys.ParsePubKey (fun k => k) SampleKeys.hash OP_4
    SampleKeys.recover eq_refl eq_refl) as (t & H1 & [->| ->] & _); eexists; split; [exact H1|discriminate| |];
    [exact H1|discriminate].
Defined.
