(* ===== verification/MsgTx.v ===== *)
(** * Transactions and their serializations

    [wire/msgtx.go]: the transaction message with its five serializations, the
    decoders, the sizes they predict, the deep copy and the hashes.  A pointer to an
    input or output that is filled in later is the value itself; the free list of script
    buffers only saves allocations and is left out, but the move of the scripts into one
    contiguous buffer is modelled.  [chainhash.HashH] is a parameter. *)

From stdpp Require Import list.
From S2P Require Import Prelude WireCommon.
#[local] Open Scope Z_scope.

Definition TxVersion : Z := 1.
Definition MaxTxInSequenceNum : Z := 0xffffffff.
Definition NullValueIn : Z := -1.
Definition NullBlockHeight : Z := 0.
Definition NullBlockIndex : Z := 0xffffffff.
Definition DefaultPkScriptVersion : Z := 0.
Definition TxTreeRegular : Z := 0.
Definition TxTreeStake : Z := 1.
Definition SequenceLockTimeDisabled : Z := Z.shiftl 1 31.
Definition SequenceLockTimeIsSeconds : Z := Z.shiftl 1 22.
Definition SequenceLockTimeMask : Z := 0x0000ffff.

Definition minTxInPayload : Z := 11 + 32.
Definition maxTxInPerMessage : Z := MaxMessagePayload / minTxInPayload + 1.
Definition minTxOutPayload : Z := 9.
Definition maxTxOutPerMessage : Z := MaxMessagePayload / minTxOutPayload + 1.

(** [TxSerializeType], a [uint16]. *)
Definition TxSerializeFull : Z := 0.
Definition TxSerializeNoWitness : Z := 1.
Definition TxSerializeOnlyWitness : Z := 2.
Definition TxSerializeWitnessSigning : Z := 3.
Definition TxSerializeWitnessValueSigning : Z := 4.

Record OutPoint := MkOutPoint {
  o_Hash : bytes;
  o_Index : Z;
  o_Tree : Z
}.

Record TxIn := MkTxIn {
  PreviousOutPoint : OutPoint;
  Sequence : Z;
  ValueIn : Z;
  BlockHeight : Z;
  BlockIndex : Z;
  SignatureScript : bytes
}.

Record TxOut := MkTxOut {
  Value : Z;
  out_Version : Z;
  PkScript : bytes
}.

Record MsgTx := MkMsgTx {
  CachedHash : option bytes;
  SerType : Z;
  tx_Version : Z;
  tx_TxIn : list TxIn;
  tx_TxOut : list TxOut;
  LockTime : Z;
  Expiry : Z
}.

(** Updates of single fields. *)
Definition with_script (ti : TxIn) (s : bytes) : TxIn :=
  MkTxIn (PreviousOutPoint ti) (Sequence ti) (ValueIn ti) (BlockHeight ti) (BlockIndex ti) s.
Definition with_sequence (ti : TxIn) (s : Z) : TxIn :=
  MkTxIn (PreviousOutPoint ti) s (ValueIn ti) (BlockHeight ti) (BlockIndex ti) (SignatureScript ti).
Definition with_pkscript (to : TxOut) (s : bytes) : TxOut :=
  MkTxOut (Value to) (out_Version to) s.
Definition with_sertype (m : MsgTx) (t : Z) : MsgTx :=
  MkMsgTx (CachedHash m) t (tx_Version m) (tx_TxIn m) (tx_TxOut m) (LockTime m) (Expiry m).
Definition with_ins (m : MsgTx) (l : list TxIn) : MsgTx :=
  MkMsgTx (CachedHash m) (SerType m) (tx_Version m) l (tx_TxOut m) (LockTime m) (Expiry m).
Definition with_outs (m : MsgTx) (l : list TxOut) : MsgTx :=
  MkMsgTx (CachedHash m) (SerType m) (tx_Version m) (tx_TxIn m) l (LockTime m) (Expiry m).

Definition NewTxIn (prevOut : OutPoint) (signatureScript : bytes) : TxIn :=
  MkTxIn prevOut MaxTxInSequenceNum NullValueIn NullBlockHeight NullBlockIndex signatureScript.

Definition NewTxOut (value : Z) (pkScript : bytes) : TxOut :=
  MkTxOut value DefaultPkScriptVersion pkScript.

Definition NewMsgTx : MsgTx := MkMsgTx None TxSerializeFull TxVersion [] [] 0 0.

Definition AddTxIn (m : MsgTx) (ti : TxIn) : MsgTx := with_ins m (tx_TxIn m ++ [ti]).
Definition AddTxOut (m : MsgTx) (to : TxOut) : MsgTx := with_outs m (tx_TxOut m ++ [to]).

(** ** Encoding *)

Definition WriteOutPoint (op : OutPoint) : bytes :=
  o_Hash op ++ PutUint32 (o_Index op) ++ PutUint8 (u8 (o_Tree op)).

Definition writeTxInPrefix (ti : TxIn) : bytes :=
  WriteOutPoint (PreviousOutPoint ti) ++ PutUint32 (Sequence ti).

Definition writeTxInWitness (ti : TxIn) : bytes :=
  PutUint64 (u64 (ValueIn ti)) ++ PutUint32 (BlockHeight ti) ++ PutUint32 (BlockIndex ti) ++
  WriteVarBytes (SignatureScript ti).

Definition writeTxInWitnessSigning (ti : TxIn) : bytes := WriteVarBytes (SignatureScript ti).

Definition writeTxInWitnessValueSigning (ti : TxIn) : bytes :=
  PutUint64 (u64 (ValueIn ti)) ++ WriteVarBytes (SignatureScript ti).

Definition writeTxOut (to : TxOut) : bytes :=
  PutUint64 (u64 (Value to)) ++ PutUint16 (out_Version to) ++ WriteVarBytes (PkScript to).

(** A count followed by the items. *)
Definition write_all {A} (enc : A -> bytes) (l : list A) : bytes :=
  WriteVarInt (Z.of_nat (length l)) ++ concat (enc <$> l).

Definition encodePrefix (m : MsgTx) : bytes :=
  write_all writeTxInPrefix (tx_TxIn m) ++ write_all writeTxOut (tx_TxOut m) ++
  PutUint32 (LockTime m) ++ PutUint32 (Expiry m).

Definition encodeWitness (m : MsgTx) : bytes := write_all writeTxInWitness (tx_TxIn m).

Definition encodeWitnessSigning (m : MsgTx) : bytes :=
  write_all writeTxInWitnessSigning (tx_TxIn m).

Definition encodeWitnessValueSigning (m : MsgTx) : bytes :=
  write_all writeTxInWitnessValueSigning (tx_TxIn m).

Definition BtcEncode (m : MsgTx) : res wireError bytes :=
  let serializedVersion := Z.lor (tx_Version m) (u32 (Z.shiftl (SerType m) 16)) in
  let v := PutUint32 serializedVersion in
  if SerType m =? TxSerializeNoWitness then Ok (v ++ encodePrefix m)
  else if SerType m =? TxSerializeOnlyWitness then Ok (v ++ encodeWitness m)
  else if SerType m =? TxSerializeWitnessSigning then Ok (v ++ encodeWitnessSigning m)
  else if SerType m =? TxSerializeWitnessValueSigning then Ok (v ++ encodeWitnessValueSigning m)
  else if SerType m =? TxSerializeFull then Ok (v ++ encodePrefix m ++ encodeWitness m)
  else Err UnsupportedTxType.

Definition Serialize (m : MsgTx) : res wireError bytes := BtcEncode m.
Definition tx_Bytes (m : MsgTx) : res wireError bytes := Serialize m.

Definition serialize (m : MsgTx) (serType : Z) : res wireError bytes :=
  Serialize (with_sertype m serType).

Definition BytesPrefix (m : MsgTx) : res wireError bytes := serialize m TxSerializeNoWitness.
Definition BytesWitness (m : MsgTx) : res wireError bytes := serialize m TxSerializeOnlyWitness.

Definition mustSerialize (m : MsgTx) (serType : Z) : res wireError bytes :=
  match serialize m serType with
  | Ok b => Ok b
  | Err _ | Panic => Panic
  end.

(** ** Sizes *)

Definition SerializeSizePrefix (ti : TxIn) : Z := 41.

Definition SerializeSizeWitness (ti : TxIn) : Z :=
  let n := Z.of_nat (length (SignatureScript ti)) in
  8 + 4 + 4 + VarIntSerializeSize n + n.

Definition SerializeSizeWitnessSigning (ti : TxIn) : Z :=
  let n := Z.of_nat (length (SignatureScript ti)) in VarIntSerializeSize n + n.

Definition SerializeSizeWitnessValueSigning (ti : TxIn) : Z :=
  let n := Z.of_nat (length (SignatureScript ti)) in 8 + VarIntSerializeSize n + n.

Definition out_SerializeSize (to : TxOut) : Z :=
  let n := Z.of_nat (length (PkScript to)) in 8 + 2 + VarIntSerializeSize n + n.

(** [for _, x := range l { n += size(x) }] *)
Definition add_sizes {A} (size : A -> Z) (l : list A) (n : Z) : Z :=
  foldl (fun n x => n + size x) n l.

Definition SerializeSize (m : MsgTx) : Z :=
  let ins := VarIntSerializeSize (Z.of_nat (length (tx_TxIn m))) in
  let outs := VarIntSerializeSize (Z.of_nat (length (tx_TxOut m))) in
  if SerType m =? TxSerializeNoWitness
  then add_sizes out_SerializeSize (tx_TxOut m)
         (add_sizes SerializeSizePrefix (tx_TxIn m) (12 + ins + outs))
  else if SerType m =? TxSerializeOnlyWitness
  then add_sizes SerializeSizeWitness (tx_TxIn m) (4 + ins)
  else if SerType m =? TxSerializeWitnessSigning
  then add_sizes SerializeSizeWitnessSigning (tx_TxIn m) (4 + ins)
  else if SerType m =? TxSerializeWitnessValueSigning
  then add_sizes SerializeSizeWitnessValueSigning (tx_TxIn m) (4 + ins)
  else if SerType m =? TxSerializeFull
  then add_sizes out_SerializeSize (tx_TxOut m)
         (add_sizes SerializeSizeWitness (tx_TxIn m)
           (add_sizes SerializeSizePrefix (tx_TxIn m) (12 + ins + ins + outs)))
  else 0.

(** The loop over the outputs that records where each script starts. *)
Fixpoint locs_loop (n : Z) (outs : list TxOut) : list Z :=
  match outs with
  | [] => []
  | txOut :: outs =>
      let l := Z.of_nat (length (PkScript txOut)) in
      let n := n + (8 + 2 + VarIntSerializeSize l) in
      n :: locs_loop (n + l) outs
  end.

Definition PkScriptLocs (m : MsgTx) : list Z :=
  let numTxOut := Z.of_nat (length (tx_TxOut m)) in
  if numTxOut =? 0 then []
  else
    let n := 4 + VarIntSerializeSize (Z.of_nat (length (tx_TxIn m))) + VarIntSerializeSize numTxOut in
    locs_loop (add_sizes SerializeSizePrefix (tx_TxIn m) n) (tx_TxOut m).

(** ** Decoding *)

Definition readScript (maxAllowed : Z) : reader bytes :=
  count ← ReadVarInt;
  if count >? maxAllowed then fail TooLong
  else ReadFull (Z.to_nat count).

Definition ReadOutPoint : reader OutPoint :=
  hash ← ReadFull 32;
  index ← Uint32;
  tree ← Uint8;
  mret (MkOutPoint hash index (i8 tree)).

(** A fresh [TxIn] or [TxOut], all fields zero. *)
Definition zeroTxIn : TxIn := MkTxIn (MkOutPoint (replicate 32 0) 0 0) 0 0 0 0 [].
Definition zeroTxOut : TxOut := MkTxOut 0 0 [].

Definition readTxInPrefix (serType : Z) (ti : TxIn) : reader TxIn :=
  if serType =? TxSerializeOnlyWitness then fail WitnessOnlyPrefix
  else
    op ← ReadOutPoint;
    sequence ← Uint32;
    mret (MkTxIn op sequence (ValueIn ti) (BlockHeight ti) (BlockIndex ti) (SignatureScript ti)).

Definition readTxInWitness (ti : TxIn) : reader TxIn :=
  valueIn ← Uint64;
  blockHeight ← Uint32;
  blockIndex ← Uint32;
  script ← readScript MaxMessagePayload;
  mret (MkTxIn (PreviousOutPoint ti) (Sequence ti) (i64 valueIn) blockHeight blockIndex script).

Definition readTxInWitnessSigning (ti : TxIn) : reader TxIn :=
  script ← readScript MaxMessagePayload;
  mret (MkTxIn (PreviousOutPoint ti) (Sequence ti) (ValueIn ti) (BlockHeight ti) (BlockIndex ti) script).

Definition readTxInWitnessValueSigning (ti : TxIn) : reader TxIn :=
  valueIn ← Uint64;
  script ← readScript MaxMessagePayload;
  mret (MkTxIn (PreviousOutPoint ti) (Sequence ti) (i64 valueIn) (BlockHeight ti) (BlockIndex ti) script).

Definition readTxOut (to : TxOut) : reader TxOut :=
  value ← Uint64;
  version ← Uint16;
  script ← readScript MaxMessagePayload;
  mret (MkTxOut (i64 value) version script).

(** [for i := 0; i < count; i++] over a reader. *)
Fixpoint read_n {A} (n : nat) (p : reader A) : reader (list A) :=
  match n with
  | O => mret []
  | S n => x ← p; l ← read_n n p; mret (x :: l)
  end.

(** [totalScriptSize += uint64(len(script))] over the items. *)
Definition script_sizes {A} (script : A -> bytes) (l : list A) : Z :=
  foldl (fun n x => u64 (n + Z.of_nat (length (script x)))) 0 l.

Definition decodePrefix (m : MsgTx) : reader (MsgTx * Z) :=
  count ← ReadVarInt;
  if count >? maxTxInPerMessage then fail TooManyInputs
  else
    ins ← read_n (Z.to_nat count) (readTxInPrefix (SerType m) zeroTxIn);
    count ← ReadVarInt;
    if count >? maxTxOutPerMessage then fail TooManyOutputs
    else
      outs ← read_n (Z.to_nat count) (readTxOut zeroTxOut);
      lockTime ← Uint32;
      expiry ← Uint32;
      mret (MkMsgTx (CachedHash m) (SerType m) (tx_Version m) ins outs lockTime expiry,
            script_sizes PkScript outs).

(** The inputs of a witness-only serialization. *)
Definition decode_inputs (p : TxIn -> reader TxIn) (m : MsgTx) : reader (MsgTx * Z) :=
  count ← ReadVarInt;
  if count >? maxTxInPerMessage then fail TooManyInputs
  else
    ins ← read_n (Z.to_nat count) (p zeroTxIn);
    mret (with_outs (with_ins m ins) [], script_sizes SignatureScript ins).

(** The fields of the witness, put into an input that has the fields of the prefix. *)
Definition take_witness (ti w : TxIn) : TxIn :=
  MkTxIn (PreviousOutPoint ti) (Sequence ti) (ValueIn w) (BlockHeight w) (BlockIndex w)
    (SignatureScript w).

Definition decodeWitness (m : MsgTx) (isFull : bool) : reader (MsgTx * Z) :=
  if negb isFull then decode_inputs readTxInWitness m
  else
    count ← ReadVarInt;
    if negb (i64 count =? Z.of_nat (length (tx_TxIn m))) then fail WitnessMismatch
    else if count >? maxTxInPerMessage then fail TooManyInputs
    else
      ws ← read_n (Z.to_nat count) (readTxInWitness zeroTxIn);
      mret (with_ins m (zip_with take_witness (tx_TxIn m) ws), script_sizes SignatureScript ws).

Definition decodeWitnessSigning (m : MsgTx) : reader (MsgTx * Z) :=
  decode_inputs readTxInWitnessSigning m.

Definition decodeWitnessValueSigning (m : MsgTx) : reader (MsgTx * Z) :=
  decode_inputs readTxInWitnessValueSigning m.

(** One script moved into the contiguous buffer: [copy], then [scripts[offset:end:end]],
    which panics when [end] is past the buffer. *)
Definition move_script {E} (buf : bytes) (offset : nat) (script : bytes) : res E (bytes * nat * bytes) :=
  if (length buf <? offset)%nat then Panic
  else
    let n := Nat.min (length script) (length buf - offset) in
    let buf := take offset buf ++ take n script ++ drop (offset + n) buf in
    let e := (offset + length script)%nat in
    if (length buf <? e)%nat then Panic
    else Ok (buf, e, take (length script) (drop offset buf)).

(** The closures [writeTxIns] and [writeTxOuts]; the result is read off the final
    buffer, since the slices share it. *)
Fixpoint move_scripts {E} (buf : bytes) (offset : nat) (scripts : list bytes)
    : res E (bytes * nat * list (nat * nat)) :=
  match scripts with
  | [] => Ok (buf, offset, [])
  | s :: scripts =>
      '(buf, e, _) ← move_script buf offset s;
      '(buf, offset', locs) ← move_scripts buf e scripts;
      Ok (buf, offset', (offset, length s) :: locs)
  end.

Definition slice_at (buf : bytes) (loc : nat * nat) : bytes := take loc.2 (drop loc.1 buf).

Definition writeTxScriptsToMsgTx {E} (m : MsgTx) (totalScriptSize serType : Z) : res E MsgTx :=
  let scripts := replicate (Z.to_nat totalScriptSize) 0 in
  if serType =? TxSerializeNoWitness
  then
    '(buf, _, outs) ← move_scripts scripts 0 (PkScript <$> tx_TxOut m);
    Ok (with_outs m (zip_with with_pkscript (tx_TxOut m) (slice_at buf <$> outs)))
  else if (serType =? TxSerializeOnlyWitness) || (serType =? TxSerializeWitnessSigning) ||
          (serType =? TxSerializeWitnessValueSigning)
  then
    '(buf, _, ins) ← move_scripts scripts 0 (SignatureScript <$> tx_TxIn m);
    Ok (with_ins m (zip_with with_script (tx_TxIn m) (slice_at buf <$> ins)))
  else if serType =? TxSerializeFull
  then
    '(buf, offset, ins) ← move_scripts scripts 0 (SignatureScript <$> tx_TxIn m);
    '(buf, _, outs) ← move_scripts buf offset (PkScript <$> tx_TxOut m);
    Ok (with_outs (with_ins m (zip_with with_script (tx_TxIn m) (slice_at buf <$> ins)))
          (zip_with with_pkscript (tx_TxOut m) (slice_at buf <$> outs)))
  else Ok m.

Definition lift_res {A} (m : res wireError A) : reader A := fun r => a ← m; Ok (a, r).

(** The [switch] on the serialization type.  The receiver keeps the fields that its
    type does not encode. *)
Definition decode_body (m : MsgTx) : reader MsgTx :=
  let t := SerType m in
  if t =? TxSerializeNoWitness then
    x ← decodePrefix m; lift_res (writeTxScriptsToMsgTx x.1 x.2 t)
  else if t =? TxSerializeOnlyWitness then
    x ← decodeWitness m false; lift_res (writeTxScriptsToMsgTx x.1 x.2 t)
  else if t =? TxSerializeWitnessSigning then
    x ← decodeWitnessSigning m; lift_res (writeTxScriptsToMsgTx x.1 x.2 t)
  else if t =? TxSerializeWitnessValueSigning then
    x ← decodeWitnessValueSigning m; lift_res (writeTxScriptsToMsgTx x.1 x.2 t)
  else if t =? TxSerializeFull then
    x ← decodePrefix m;
    y ← decodeWitness x.1 true;
    lift_res (writeTxScriptsToMsgTx y.1 (u64 (x.2 + y.2)) t)
  else fail UnsupportedTxType.

Definition BtcDecode (m : MsgTx) : reader MsgTx :=
  version ← Uint32;
  decode_body (MkMsgTx (CachedHash m) (Z.shiftr version 16) (Z.land version 0xffff)
    (tx_TxIn m) (tx_TxOut m) (LockTime m) (Expiry m)).

Definition Deserialize (m : MsgTx) : reader MsgTx := BtcDecode m.

Definition FromBytes (m : MsgTx) (b : bytes) : res wireError MsgTx := fst <$> Deserialize m b.

(** ** Copies *)

(** The copy of a slice with [make] and [copy]; an empty one becomes nil. *)
Definition copy_bytes (s : bytes) : bytes :=
  if (0 <? length s)%nat then take (length s) s else [].

(** [Hash.SetBytes] leaves the zero hash in place when the length is wrong. *)
Definition set_hash (h : bytes) : bytes := if (length h =? 32)%nat then h else replicate 32 0.

Definition Copy (m : MsgTx) : MsgTx :=
  MkMsgTx None (SerType m) (tx_Version m)
    ((fun ti => MkTxIn
        (MkOutPoint (set_hash (o_Hash (PreviousOutPoint ti))) (o_Index (PreviousOutPoint ti))
           (o_Tree (PreviousOutPoint ti)))
        (Sequence ti) (ValueIn ti) (BlockHeight ti) (BlockIndex ti)
        (copy_bytes (SignatureScript ti))) <$> tx_TxIn m)
    ((fun to => MkTxOut (Value to) (out_Version to) (copy_bytes (PkScript to))) <$> tx_TxOut m)
    (LockTime m) (Expiry m).

(** ** Hashes *)

Section hashes.
Context (HashH : bytes -> bytes).

Definition hash_of (m : MsgTx) (serType : Z) : res wireError bytes :=
  b ← mustSerialize m serType; Ok (HashH b).

Definition TxHash (m : MsgTx) : res wireError bytes := hash_of m TxSerializeNoWitness.
Definition TxHashWitness (m : MsgTx) : res wireError bytes := hash_of m TxSerializeOnlyWitness.
Definition TxHashWitnessSigning (m : MsgTx) : res wireError bytes := hash_of m TxSerializeWitnessSigning.
Definition TxHashWitnessValueSigning (m : MsgTx) : res wireError bytes :=
  hash_of m TxSerializeWitnessValueSigning.

Definition TxHashFull (m : MsgTx) : res wireError bytes :=
  prefixHash ← TxHash m;
  witnessHash ← TxHashWitness m;
  Ok (HashH (prefixHash ++ witnessHash)).

Definition RecacheTxHash (m : MsgTx) : res wireError (bytes * MsgTx) :=
  h ← TxHash m;
  Ok (h, MkMsgTx (Some h) (SerType m) (tx_Version m) (tx_TxIn m) (tx_TxOut m) (LockTime m) (Expiry m)).

Definition CachedTxHash (m : MsgTx) : res wireError (bytes * MsgTx) :=
  match CachedHash m with
  | Some h => Ok (h, m)
  | None => RecacheTxHash m
  end.

End hashes.

(** ** Well-formed transactions *)

Definition script_ok (s : bytes) : Prop := is_bytes s /\ Z.of_nat (length s) <= MaxMessagePayload.

Definition outpoint_ok (o : OutPoint) : Prop :=
  (length (o_Hash o) = 32%nat /\ is_bytes (o_Hash o)) /\ is_u32 (o_Index o) /\ is_i8 (o_Tree o).

Definition prefix_ok (ti : TxIn) : Prop := outpoint_ok (PreviousOutPoint ti) /\ is_u32 (Sequence ti).

Definition witness_ok (ti : TxIn) : Prop :=
  is_i64 (ValueIn ti) /\ is_u32 (BlockHeight ti) /\ is_u32 (BlockIndex ti) /\
  script_ok (SignatureScript ti).

Definition signing_ok (ti : TxIn) : Prop := script_ok (SignatureScript ti).

Definition value_signing_ok (ti : TxIn) : Prop := is_i64 (ValueIn ti) /\ script_ok (SignatureScript ti).

Definition txout_ok (to : TxOut) : Prop :=
  is_i64 (Value to) /\ is_u16 (out_Version to) /\ script_ok (PkScript to).

(** What the four serializations keep of an input. *)
Definition prefix_of (ti : TxIn) : TxIn :=
  MkTxIn (PreviousOutPoint ti) (Sequence ti) 0 0 0 [].
Definition witness_of (ti : TxIn) : TxIn := take_witness zeroTxIn ti.
Definition signing_of (ti : TxIn) : TxIn := with_script zeroTxIn (SignatureScript ti).
Definition value_signing_of (ti : TxIn) : TxIn :=
  MkTxIn (PreviousOutPoint zeroTxIn) 0 (ValueIn ti) 0 0 (SignatureScript ti).

(** ** Readers of the parts *)

Lemma i8_u8 x : is_i8 x -> i8 (u8 x) = x.
Proof. ilia. Qed.
Lemma u8_i8 x : is_u8 x -> u8 (i8 x) = x.
Proof. ilia. Qed.
Lemma i8_range x : is_i8 (i8 x).
Proof. ilia. Qed.

Lemma decodes_script s : script_ok s -> decodes (readScript MaxMessagePayload) (WriteVarBytes s) s.
Proof. intros [_ H]. apply decodes_VarBytes; [done|]. unfold MaxMessagePayload. lia. Qed.

Lemma strict_script : strict (readScript MaxMessagePayload) WriteVarBytes script_ok.
Proof. apply strict_VarBytes. Qed.

#[export] Hint Resolve decodes_script : wire.

(** Read one field and go on. *)
Ltac dec_step :=
  eapply decodes_bind; [solve [eauto with wire goint]|].
(** The last field. *)
Ltac dec_last :=
  first [apply decodes_ret | rewrite <- (app_nil_r (WriteVarBytes _)); dec_step; apply decodes_ret
        |match goal with |- decodes _ (?f ?x) _ => rewrite <- (app_nil_r (f x)); dec_step; apply decodes_ret end].

Lemma decodes_OutPoint o : outpoint_ok o -> decodes ReadOutPoint (WriteOutPoint o) o.
Proof.
  destruct o as [h i t]. intros ([Hl _] & Hi & Ht). cbn in *. unfold ReadOutPoint, WriteOutPoint; cbn.
  dec_step. dec_step. rewrite <- (i8_u8 t) at 2 by done.
  apply (decodes_bind_ret _ (fun x => MkOutPoint h i (i8 x))). auto with wire goint.
Qed.
#[export] Hint Resolve decodes_OutPoint : wire.

Lemma decodes_prefix t ti : t <> TxSerializeOnlyWitness -> prefix_ok ti ->
  decodes (readTxInPrefix t zeroTxIn) (writeTxInPrefix ti) (prefix_of ti).
Proof.
  intros Ht [Ho Hs]. unfold readTxInPrefix. destruct (Z.eqb_spec t TxSerializeOnlyWitness); [done|].
  unfold writeTxInPrefix. dec_step. dec_last.
Qed.

Lemma decodes_i64 {A} (x : Z) (k : Z -> reader A) e (a : A) : is_i64 x ->
  decodes (k (u64 x)) e a -> decodes (Uint64 ≫= k) (PutUint64 (u64 x) ++ e) a.
Proof. intros Hx Hk. eapply decodes_bind; [auto with wire goint|done]. Qed.

Lemma decodes_witness ti : witness_ok ti ->
  decodes (readTxInWitness zeroTxIn) (writeTxInWitness ti) (witness_of ti).
Proof.
  intros (Hv & Hh & Hi & Hs). apply decodes_i64; [done|]. dec_step. dec_step.
  rewrite i64_u64 by done. dec_last.
Qed.

Lemma decodes_signing ti : signing_ok ti ->
  decodes (readTxInWitnessSigning zeroTxIn) (writeTxInWitnessSigning ti) (signing_of ti).
Proof. intros Hs. unfold readTxInWitnessSigning, writeTxInWitnessSigning. dec_last. Qed.

Lemma decodes_value_signing ti : value_signing_ok ti ->
  decodes (readTxInWitnessValueSigning zeroTxIn) (writeTxInWitnessValueSigning ti) (value_signing_of ti).
Proof. intros (Hv & Hs). apply decodes_i64; [done|]. rewrite i64_u64 by done. dec_last. Qed.

Lemma decodes_txout to : txout_ok to -> decodes (readTxOut zeroTxOut) (writeTxOut to) to.
Proof.
  destruct to as [v ver s]. intros (Hv & Hver & Hs). cbn in *. apply decodes_i64; [done|].
  unfold writeTxOut; cbn. dec_step. rewrite i64_u64 by done. dec_last.
Qed.

(** Split an accepted run of a reader into its steps. *)
Ltac inv_reader :=
  repeat match goal with
  | H : mbind _ _ _ = Ok (_, _) |- _ => apply reader_bind_Ok in H as (?&?&?&?)
  | H : mret _ _ = Ok (_, _) |- _ => unfold mret, reader_ret in H; simplify_eq
  | H : fail _ _ = Ok _ |- _ => discriminate H
  end.

(** Replace every field that was read by its encoding. *)
Ltac fields :=
  repeat match goal with
  | H : Uint8 ?b = Ok _, Hb : is_bytes ?b |- _ => apply strict_uint in H as (-> & ? & ?); [|exact Hb]
  | H : Uint16 ?b = Ok _, Hb : is_bytes ?b |- _ => apply strict_uint in H as (-> & ? & ?); [|exact Hb]
  | H : Uint32 ?b = Ok _, Hb : is_bytes ?b |- _ => apply strict_uint in H as (-> & ? & ?); [|exact Hb]
  | H : Uint64 ?b = Ok _, Hb : is_bytes ?b |- _ => apply strict_uint in H as (-> & ? & ?); [|exact Hb]
  | H : ReadFull _ ?b = Ok _, Hb : is_bytes ?b |- _ => apply strict_ReadFull in H as (-> & ? & ?); [|exact Hb]
  | H : ReadVarInt ?b = Ok _, Hb : is_bytes ?b |- _ => apply strict_VarInt in H as (-> & ? & ?); [|exact Hb]
  | H : readScript _ ?b = Ok _, Hb : is_bytes ?b |- _ => apply strict_script in H as (-> & ? & ?); [|exact Hb]
  end.

Lemma strict_OutPoint : strict ReadOutPoint WriteOutPoint outpoint_ok.
Proof.
  intros b o rest Hb H. unfold ReadOutPoint in H. inv_reader. fields.
  unfold WriteOutPoint, outpoint_ok; cbn. rewrite u8_i8 by done. rewrite <- !app_assoc.
  split_and!; first [done|tauto|apply i8_range].
Qed.

Lemma strict_prefix t : t <> TxSerializeOnlyWitness ->
  strict (readTxInPrefix t zeroTxIn) writeTxInPrefix (fun ti => prefix_ok ti /\ ti = prefix_of ti).
Proof.
  intros Ht b ti rest Hb H. unfold readTxInPrefix in H.
  destruct (Z.eqb_spec t TxSerializeOnlyWitness); [done|]. inv_reader.
  apply strict_OutPoint in H as (-> & Ho & ?); [|done]. fields.
  unfold writeTxInPrefix, prefix_ok; cbn. rewrite <- !app_assoc. done.
Qed.

Lemma strict_witness :
  strict (readTxInWitness zeroTxIn) writeTxInWitness (fun ti => witness_ok ti /\ ti = witness_of ti).
Proof.
  intros b ti rest Hb H. unfold readTxInWitness in H. inv_reader. fields.
  unfold writeTxInWitness, witness_ok; cbn. rewrite u64_i64 by done. rewrite <- !app_assoc.
  split_and!; first [done|tauto|apply i64_range].
Qed.

Lemma strict_signing :
  strict (readTxInWitnessSigning zeroTxIn) writeTxInWitnessSigning
    (fun ti => signing_ok ti /\ ti = signing_of ti).
Proof.
  intros b ti rest Hb H. unfold readTxInWitnessSigning in H. inv_reader. fields. done.
Qed.

Lemma strict_value_signing :
  strict (readTxInWitnessValueSigning zeroTxIn) writeTxInWitnessValueSigning
    (fun ti => value_signing_ok ti /\ ti = value_signing_of ti).
Proof.
  intros b ti rest Hb H. unfold readTxInWitnessValueSigning in H. inv_reader. fields.
  unfold writeTxInWitnessValueSigning, value_signing_ok; cbn. rewrite u64_i64 by done. rewrite <- !app_assoc.
  split_and!; first [done|tauto|apply i64_range].
Qed.

Lemma strict_txout : strict (readTxOut zeroTxOut) writeTxOut txout_ok.
Proof.
  intros b to rest Hb H. unfold readTxOut in H. inv_reader. fields.
  unfold writeTxOut, txout_ok; cbn. rewrite u64_i64 by done. rewrite <- !app_assoc.
  split_and!; first [done|tauto|apply i64_range].
Qed.

(** ** Lists of items *)

Lemma decodes_read_n {A B} (p : reader B) (enc : A -> bytes) (f : A -> B) l :
  Forall (fun x => decodes p (enc x) (f x)) l ->
  decodes (read_n (length l) p) (concat (enc <$> l)) (f <$> l).
Proof.
  induction 1 as [|x l Hx Hl IH]; cbn; [apply decodes_ret|].
  eapply decodes_bind; [done|]. by apply (decodes_bind_ret _ (cons (f x))).
Qed.

Lemma strict_read_n {A} (p : reader A) enc ok n : strict p enc ok ->
  strict (read_n n p) (fun l => concat (enc <$> l)) (fun l => length l = n /\ Forall ok l).
Proof.
  intros Hp. induction n as [|n IH]; intros b l rest Hb H; cbn in H; inv_reader.
  - split_and!; [done|done|constructor|done].
  - apply Hp in H as (-> & Hx & Hr); [|done]. apply IH in H0 as (-> & [Hn Hl] & Hr'); [|done].
    cbn. rewrite <- app_assoc. split_and!; [done|by rewrite Hn|by constructor|done].
Qed.

(** A count below a bound, and that many items. *)
Lemma decodes_counted {A B C} (p : reader B) (enc : A -> bytes) (f : A -> B) l max e
    (k : list B -> reader C) e2 c :
  Z.of_nat (length l) <= max -> max < 2 ^ 64 ->
  Forall (fun x => decodes p (enc x) (f x)) l ->
  decodes (k (f <$> l)) e2 c ->
  decodes (count ← ReadVarInt; if count >? max then fail e else l ← read_n (Z.to_nat count) p; k l)
    (write_all enc l ++ e2) c.
Proof.
  intros Hl Hm Hp Hk. unfold write_all. rewrite <- app_assoc.
  eapply decodes_bind; [apply decodes_VarInt; unfold is_u64; lia|].
  rewrite Z.gtb_ltb. destruct (Z.ltb_spec max (Z.of_nat (length l))); [lia|].
  rewrite Nat2Z.id. eapply decodes_bind; [by apply decodes_read_n|done].
Qed.

Lemma counted_Ok {A C} (p : reader A) enc ok max e (k : list A -> reader C) b c rest :
  strict p enc ok -> is_bytes b ->
  (count ← ReadVarInt; if count >? max then fail e else l ← read_n (Z.to_nat count) p; k l) b = Ok (c, rest) ->
  exists l r, b = write_all enc l ++ r /\ Z.of_nat (length l) <= max /\ Forall ok l /\
    is_bytes r /\ k l r = Ok (c, rest).
Proof.
  intros Hp Hb H. inv_reader. fields. rewrite Z.gtb_ltb in H0.
  destruct (Z.ltb_spec max x); [done|]. inv_reader.
  apply (strict_read_n p enc ok) in H0 as (-> & [Hn Hl] & Hr); [|done..].
  unfold is_u64 in *. exists x1, x2. unfold write_all. rewrite <- app_assoc.
  assert (x = Z.of_nat (length x1)) as -> by lia. done.
Qed.

(** ** The contiguous buffer *)

Fixpoint spans (offset : nat) (scripts : list bytes) : list (nat * nat) :=
  match scripts with
  | [] => []
  | s :: l => (offset, length s) :: spans (offset + length s) l
  end.

Lemma move_script_spec {E} (d s sp : bytes) : (length s <= length sp)%nat ->
  exists v, move_script (E := E) (d ++ sp) (length d) s =
    Ok ((d ++ s) ++ drop (length s) sp, length (d ++ s), v).
Proof.
  intros Hs. unfold move_script. rewrite length_app.
  destruct (Nat.ltb_spec (length d + length sp) (length d)); [lia|].
  rewrite Nat.min_l by lia. rewrite take_app_length, firstn_all, <- drop_drop, drop_app_length.
  rewrite !length_app, length_drop.
  destruct (Nat.ltb_spec (length d + (length s + (length sp - length s))) (length d + length s)); [lia|].
  eexists. by rewrite <- app_assoc.
Qed.

Lemma move_scripts_spec {E} scripts : forall d sp : bytes, (length (concat scripts) <= length sp)%nat ->
  move_scripts (E := E) (d ++ sp) (length d) scripts =
    Ok (d ++ concat scripts ++ drop (length (concat scripts)) sp,
        (length d + length (concat scripts))%nat, spans (length d) scripts).
Proof.
  induction scripts as [|s l IH]; intros d sp Hs; cbn in *.
  - by rewrite Nat.add_0_r.
  - rewrite length_app in *. destruct (move_script_spec (E := E) d s sp) as [v ->]; [lia|]. cbn.
    rewrite IH by (rewrite length_drop; lia). cbn.
    rewrite drop_drop, !length_app, <- !app_assoc. by rewrite Nat.add_assoc.
Qed.

Lemma slices_spans scripts : forall d rest : bytes,
  slice_at (d ++ concat scripts ++ rest) <$> spans (length d) scripts = scripts.
Proof.
  induction scripts as [|s l IH]; intros d rest; cbn; [done|]. f_equal.
  - unfold slice_at; cbn. by rewrite drop_app_length, <- app_assoc, take_app_length.
  - rewrite <- length_app. etrans; [|apply (IH (d ++ s) rest)]. by rewrite <- !app_assoc.
Qed.

Lemma zip_scripts_id ins : zip_with with_script ins (SignatureScript <$> ins) = ins.
Proof. induction ins as [|[] l IH]; cbn; [done|]. by f_equal. Qed.

Lemma zip_pkscripts_id outs : zip_with with_pkscript outs (PkScript <$> outs) = outs.
Proof. induction outs as [|[] l IH]; cbn; [done|]. by f_equal. Qed.

Lemma script_sizes_acc {A} (f : A -> bytes) l n :
  0 <= n -> n + Z.of_nat (length (concat (f <$> l))) < 2 ^ 64 ->
  foldl (fun n x => u64 (n + Z.of_nat (length (f x)))) n l = n + Z.of_nat (length (concat (f <$> l))).
Proof.
  revert n; induction l as [|x l IH]; intros n Hn Hl; cbn in *; [lia|].
  rewrite length_app, Nat2Z.inj_add in *. rewrite u64_small by (unfold is_u64; lia).
  rewrite IH by lia. lia.
Qed.

Lemma concat_bound {A} (f : A -> bytes) l (m : Z) :
  Forall (fun x => Z.of_nat (length (f x)) <= m) l ->
  Z.of_nat (length (concat (f <$> l))) <= Z.of_nat (length l) * m.
Proof. induction 1; cbn [fmap list_fmap concat length]; [lia|]. rewrite length_app. lia. Qed.

(** The scripts of a message of allowed size fit in 2^48 bytes. *)
Lemma scripts_total {A} (f : A -> bytes) l max : max <= 2 ^ 22 ->
  Z.of_nat (length l) <= max -> Forall (fun x => script_ok (f x)) l ->
  Z.of_nat (length (concat (f <$> l))) <= 2 ^ 48 /\
  script_sizes f l = Z.of_nat (length (concat (f <$> l))).
Proof.
  intros Hm Hl Hf. assert (H : Z.of_nat (length (concat (f <$> l))) <= 2 ^ 48).
  { pose proof (concat_bound f l MaxMessagePayload) as Hb. unfold MaxMessagePayload in *.
    lapply Hb; [lia|]. eapply Forall_impl; [|exact Hf]. by intros x [_ ?]. }
  split; [done|]. unfold script_sizes. rewrite script_sizes_acc; lia.
Qed.

Lemma moved_ins {E} m t :
  t = TxSerializeOnlyWitness \/ t = TxSerializeWitnessSigning \/ t = TxSerializeWitnessValueSigning ->
  Z.of_nat (length (tx_TxIn m)) <= maxTxInPerMessage ->
  Forall (fun ti => script_ok (SignatureScript ti)) (tx_TxIn m) ->
  writeTxScriptsToMsgTx (E := E) m (script_sizes SignatureScript (tx_TxIn m)) t = Ok m.
Proof.
  intros Ht Hl Hs. destruct (scripts_total SignatureScript (tx_TxIn m) maxTxInPerMessage) as [_ ->];
    [by vm_compute|done..|].
  unfold writeTxScriptsToMsgTx. rewrite Nat2Z.id.
  set (sp := replicate _ 0). assert (Hsp : length sp = length (concat (SignatureScript <$> tx_TxIn m)))
    by apply length_replicate.
  pose proof (move_scripts_spec (E := E) (SignatureScript <$> tx_TxIn m) [] sp) as H.
  pose proof (slices_spans (SignatureScript <$> tx_TxIn m) []
    (drop (length (concat (SignatureScript <$> tx_TxIn m))) sp)) as H'. cbn in H, H'.
  destruct Ht as [ -> | [ -> | -> ] ]; cbn [Z.eqb orb]; unfold TxSerializeNoWitness, TxSerializeOnlyWitness,
    TxSerializeWitnessSigning, TxSerializeWitnessValueSigning; cbn;
    rewrite H by lia; cbn; rewrite H', zip_scripts_id; by destruct m.
Qed.

Lemma moved_outs {E} m :
  Z.of_nat (length (tx_TxOut m)) <= maxTxOutPerMessage ->
  Forall (fun to => script_ok (PkScript to)) (tx_TxOut m) ->
  writeTxScriptsToMsgTx (E := E) m (script_sizes PkScript (tx_TxOut m)) TxSerializeNoWitness = Ok m.
Proof.
  intros Hl Hs. destruct (scripts_total PkScript (tx_TxOut m) maxTxOutPerMessage) as [_ ->];
    [by vm_compute|done..|].
  unfold writeTxScriptsToMsgTx. rewrite Nat2Z.id.
  set (sp := replicate _ 0). assert (Hsp : length sp = length (concat (PkScript <$> tx_TxOut m)))
    by apply length_replicate.
  pose proof (move_scripts_spec (E := E) (PkScript <$> tx_TxOut m) [] sp) as H.
  pose proof (slices_spans (PkScript <$> tx_TxOut m) []
    (drop (length (concat (PkScript <$> tx_TxOut m))) sp)) as H'. cbn in H, H'.
  change (TxSerializeNoWitness =? TxSerializeNoWitness) with true.
  cbv iota. rewrite H by lia. cbn. rewrite H', zip_pkscripts_id. by destruct m.
Qed.

Lemma moved_all {E} m :
  Z.of_nat (length (tx_TxIn m)) <= maxTxInPerMessage ->
  Z.of_nat (length (tx_TxOut m)) <= maxTxOutPerMessage ->
  Forall (fun ti => script_ok (SignatureScript ti)) (tx_TxIn m) ->
  Forall (fun to => script_ok (PkScript to)) (tx_TxOut m) ->
  writeTxScriptsToMsgTx (E := E) m
    (u64 (script_sizes PkScript (tx_TxOut m) + script_sizes SignatureScript (tx_TxIn m)))
    TxSerializeFull = Ok m.
Proof.
  intros Hli Hlo Hi Ho.
  destruct (scripts_total SignatureScript (tx_TxIn m) maxTxInPerMessage) as [Hbi ->]; [by vm_compute|done..|].
  destruct (scripts_total PkScript (tx_TxOut m) maxTxOutPerMessage) as [Hbo ->]; [by vm_compute|done..|].
  rewrite u64_small by (unfold is_u64; lia).
  set (ins := SignatureScript <$> tx_TxIn m) in *. set (outs := PkScript <$> tx_TxOut m) in *.
  unfold writeTxScriptsToMsgTx.
  change (TxSerializeFull =? TxSerializeNoWitness) with false.
  change ((TxSerializeFull =? _) || _ || _) with false.
  change (TxSerializeFull =? TxSerializeFull) with true. cbv iota.
  set (sp := replicate _ 0).
  assert (Hsp : length sp = (length (concat ins) + length (concat outs))%nat)
    by (unfold sp; rewrite length_replicate; lia).
  pose proof (move_scripts_spec (E := E) ins [] sp) as H. cbn in H.
  fold ins outs. rewrite H by lia. cbn.
  rewrite move_scripts_spec by (rewrite length_drop; lia). cbn.
  rewrite slices_spans.
  pose proof (slices_spans ins []) as H'. cbn in H'. rewrite H'.
  unfold ins, outs. rewrite zip_scripts_id, zip_pkscripts_id. by destruct m.
Qed.

(** ** The round trip *)

Definition prefix_part_ok (m : MsgTx) : Prop :=
  Z.of_nat (length (tx_TxIn m)) <= maxTxInPerMessage /\ Forall prefix_ok (tx_TxIn m) /\
  Z.of_nat (length (tx_TxOut m)) <= maxTxOutPerMessage /\ Forall txout_ok (tx_TxOut m) /\
  is_u32 (LockTime m) /\ is_u32 (Expiry m).

Definition inputs_ok (ok : TxIn -> Prop) (m : MsgTx) : Prop :=
  Z.of_nat (length (tx_TxIn m)) <= maxTxInPerMessage /\ Forall ok (tx_TxIn m).

(** The fields that the serialization type encodes are values of their types, and there
    are no more inputs and outputs than a message may have. *)
Definition tx_ok (m : MsgTx) : Prop :=
  is_u16 (tx_Version m) /\
  if decide (SerType m = TxSerializeNoWitness) then prefix_part_ok m
  else if decide (SerType m = TxSerializeOnlyWitness) then inputs_ok witness_ok m
  else if decide (SerType m = TxSerializeWitnessSigning) then inputs_ok signing_ok m
  else if decide (SerType m = TxSerializeWitnessValueSigning) then inputs_ok value_signing_ok m
  else SerType m = TxSerializeFull /\ prefix_part_ok m /\ inputs_ok witness_ok m.

(** The message [m] as a receiver [r] has it after decoding: the fields that are not
    encoded are those of [r], or zero inside an input. *)
Definition decoded (r m : MsgTx) : MsgTx :=
  let put ins outs lock expiry :=
    MkMsgTx (CachedHash r) (SerType m) (tx_Version m) ins outs lock expiry in
  if decide (SerType m = TxSerializeNoWitness)
  then put (prefix_of <$> tx_TxIn m) (tx_TxOut m) (LockTime m) (Expiry m)
  else if decide (SerType m = TxSerializeOnlyWitness)
  then put (witness_of <$> tx_TxIn m) [] (LockTime r) (Expiry r)
  else if decide (SerType m = TxSerializeWitnessSigning)
  then put (signing_of <$> tx_TxIn m) [] (LockTime r) (Expiry r)
  else if decide (SerType m = TxSerializeWitnessValueSigning)
  then put (value_signing_of <$> tx_TxIn m) [] (LockTime r) (Expiry r)
  else put (tx_TxIn m) (tx_TxOut m) (LockTime m) (Expiry m).

Lemma decodes_Prefix m r :
  SerType r <> TxSerializeOnlyWitness -> prefix_part_ok m ->
  let m' := MkMsgTx (CachedHash r) (SerType r) (tx_Version r) (prefix_of <$> tx_TxIn m) (tx_TxOut m)
              (LockTime m) (Expiry m) in
  decodes (decodePrefix r) (encodePrefix m) (m', script_sizes PkScript (tx_TxOut m)).
Proof.
  intros Ht (Hli & Hi & Hlo & Ho & Hl & He) m'. unfold decodePrefix, encodePrefix.
  apply decodes_counted with (f := prefix_of); [done|by vm_compute| |].
  { eapply Forall_impl; [|exact Hi]. intros ti. by apply decodes_prefix. }
  apply decodes_counted with (f := id); [done|by vm_compute| |].
  { eapply Forall_impl; [|exact Ho]. apply decodes_txout. }
  rewrite list_fmap_id. dec_step. rewrite <- (app_nil_r (PutUint32 _)). dec_step. apply decodes_ret.
Qed.

Lemma decodes_inputs p enc f ok m r : 
  (forall ti, ok ti -> decodes (p zeroTxIn) (enc ti) (f ti)) -> inputs_ok ok m ->
  decodes (decode_inputs p r) (write_all enc (tx_TxIn m))
    (with_outs (with_ins r (f <$> tx_TxIn m)) [], script_sizes SignatureScript (f <$> tx_TxIn m)).
Proof.
  intros Hp [Hl Hi]. unfold decode_inputs. rewrite <- (app_nil_r (write_all _ _)).
  apply decodes_counted with (f := f); [done|by vm_compute| |apply decodes_ret].
  eapply Forall_impl; [|exact Hi]. done.
Qed.

Lemma take_witness_of ins : zip_with take_witness (prefix_of <$> ins) (witness_of <$> ins) = ins.
Proof. induction ins as [|[] l IH]; cbn; [done|]. by f_equal. Qed.

Lemma decodes_Witness_full m r :
  inputs_ok witness_ok m -> tx_TxIn r = prefix_of <$> tx_TxIn m ->
  decodes (decodeWitness r true) (encodeWitness m)
    (with_ins r (tx_TxIn m), script_sizes SignatureScript (tx_TxIn m)).
Proof.
  intros [Hl Hi] Hr. unfold decodeWitness, encodeWitness, write_all; cbn [negb].
  assert (Hc : Z.of_nat (length (tx_TxIn m)) <= 2 ^ 22) by (etrans; [exact Hl|by vm_compute]).
  eapply decodes_bind; [apply decodes_VarInt; unfold is_u64; lia|].
  rewrite i64_small by (unfold is_i64; lia). rewrite Hr, length_fmap, Z.eqb_refl; cbn [negb].
  rewrite Z.gtb_ltb. destruct (Z.ltb_spec maxTxInPerMessage (Z.of_nat (length (tx_TxIn m)))); [lia|].
  rewrite Nat2Z.id, <- (app_nil_r (concat _)).
  eapply decodes_bind; [apply decodes_read_n with (f := witness_of);
    eapply Forall_impl; [|exact Hi]; apply decodes_witness|].
  rewrite take_witness_of. unfold script_sizes at 1. rewrite foldl_fmap. apply decodes_ret.
Qed.

Lemma version_join v t : is_u16 v -> is_u16 t ->
  Z.lor v (u32 (Z.shiftl t 16)) = t * 2 ^ 16 + v.
Proof.
  intros Hv Ht. rewrite Z.shiftl_mul_pow2 by lia. rewrite u32_small by ilia.
  rewrite Z.lor_comm. apply lor_disjoint; [lia|exact Hv].
Qed.

Lemma version_type v t : is_u16 v -> is_u16 t -> Z.shiftr (t * 2 ^ 16 + v) 16 = t.
Proof. intros Hv Ht. rewrite Z.shiftr_div_pow2 by lia. ilia. Qed.

Lemma version_number v t : is_u16 v -> Z.land (t * 2 ^ 16 + v) 0xffff = v.
Proof.
  intros Hv. change 0xffff with (Z.ones 16). rewrite Z.land_ones by lia.
  rewrite Z.add_comm, Z.mod_add by lia. apply Z.mod_small. exact Hv.
Qed.

Lemma version_split x : is_u32 x ->
  is_u16 (Z.land x 0xffff) /\ is_u16 (Z.shiftr x 16) /\
  Z.lor (Z.land x 0xffff) (u32 (Z.shiftl (Z.shiftr x 16) 16)) = x.
Proof.
  intros Hx. assert (H1 : is_u16 (Z.land x 0xffff)).
  { change 0xffff with (Z.ones 16). rewrite Z.land_ones by lia. ilia. }
  assert (H2 : is_u16 (Z.shiftr x 16)) by (rewrite Z.shiftr_div_pow2 by lia; ilia).
  split_and!; [done|done|]. rewrite version_join by done.
  change 0xffff with (Z.ones 16). rewrite Z.land_ones, Z.shiftr_div_pow2 by lia. ilia.
Qed.

Lemma sertype_u16 m : tx_ok m -> is_u16 (SerType m).
Proof.
  intros [_ H]. unfold is_u16.
  repeat case_decide; try destruct H as [H _]; rewrite ?H0, ?H1, ?H2, ?H3, ?H; by vm_compute.
Qed.

Lemma scripts_signing ins : Forall signing_ok ins ->
  Forall (fun ti => script_ok (SignatureScript ti)) (signing_of <$> ins).
Proof. intros H. apply Forall_fmap. eapply Forall_impl; [|exact H]. done. Qed.

Lemma scripts_value_signing ins : Forall value_signing_ok ins ->
  Forall (fun ti => script_ok (SignatureScript ti)) (value_signing_of <$> ins).
Proof. intros H. apply Forall_fmap. eapply Forall_impl; [|exact H]. by intros ti [_ ?]. Qed.

Lemma scripts_witness ins : Forall witness_ok ins ->
  Forall (fun ti => script_ok (SignatureScript ti)) ins.
Proof. intros H. eapply Forall_impl; [|exact H]. by intros ti (_ & _ & _ & ?). Qed.

Lemma scripts_witness_of ins : Forall witness_ok ins ->
  Forall (fun ti => script_ok (SignatureScript ti)) (witness_of <$> ins).
Proof. intros H. apply Forall_fmap. eapply Forall_impl; [|exact H]. by intros ti (_ & _ & _ & ?). Qed.

Lemma scripts_txout outs : Forall txout_ok outs -> Forall (fun to => script_ok (PkScript to)) outs.
Proof. intros H. eapply Forall_impl; [|exact H]. by intros to (_ & _ & ?). Qed.

Lemma decodes_lift {A B} (p : reader A) (f : A -> res wireError B) e a b :
  decodes p e a -> f a = Ok b -> decodes (x ← p; lift_res (f x)) e b.
Proof.
  intros Hp Hf rest. unfold mbind, reader_bind. rewrite Hp. cbn. unfold lift_res. by rewrite Hf.
Qed.

Ltac moved L := match goal with |- writeTxScriptsToMsgTx ?x _ _ = _ => apply (L _ x) end.

Lemma decodes_body m r : tx_ok m -> SerType r = SerType m -> tx_Version r = tx_Version m ->
  exists e, BtcEncode m = Ok (PutUint32 (Z.lor (tx_Version m) (u32 (Z.shiftl (SerType m) 16))) ++ e) /\
    decodes (decode_body r) e (decoded r m).
Proof.
  intros [_ Hm] Ht Hv. unfold BtcEncode, decode_body, decoded. rewrite Ht.
  repeat case_decide; try match goal with H : SerType m = _ |- _ => rewrite H in * end.
  - eexists; split; [done|]. eapply decodes_lift; [apply decodes_Prefix; [by rewrite Ht|done]|].
    cbn [fst snd CachedHash SerType tx_Version tx_TxIn tx_TxOut LockTime Expiry]. destruct Hm as (_ & _ & Hlo & Ho & _). rewrite Hv, Ht.
    moved (@moved_outs); [done|by apply scripts_txout].
  - eexists; split; [done|]. eapply decodes_lift.
    { apply (decodes_inputs _ _ witness_of witness_ok); [apply decodes_witness|done]. }
    unfold with_outs, with_ins; cbn [fst snd CachedHash SerType tx_Version tx_TxIn tx_TxOut LockTime Expiry]. destruct Hm as (Hl & Hi). rewrite Hv, Ht.
    moved (@moved_ins); cbn;
      [by left|by rewrite length_fmap|by apply scripts_witness_of].
  - eexists; split; [done|]. eapply decodes_lift.
    { apply (decodes_inputs _ _ signing_of signing_ok); [apply decodes_signing|done]. }
    unfold with_outs, with_ins; cbn [fst snd CachedHash SerType tx_Version tx_TxIn tx_TxOut LockTime Expiry]. destruct Hm as (Hl & Hi). rewrite Hv, Ht.
    moved (@moved_ins); cbn;
      [by right; left|by rewrite length_fmap|by apply scripts_signing].
  - eexists; split; [done|]. eapply decodes_lift.
    { apply (decodes_inputs _ _ value_signing_of value_signing_ok); [apply decodes_value_signing|done]. }
    unfold with_outs, with_ins; cbn [fst snd CachedHash SerType tx_Version tx_TxIn tx_TxOut LockTime Expiry]. destruct Hm as (Hl & Hi). rewrite Hv, Ht.
    moved (@moved_ins); cbn;
      [by right; right|by rewrite length_fmap|by apply scripts_value_signing].
  - destruct Hm as (Hf & Hp & Hw). rewrite Hf. eexists; split; [done|].
    eapply decodes_bind; [apply decodes_Prefix; [by rewrite Ht, Hf|done]|].
    eapply decodes_lift; [apply (decodes_Witness_full m); done|].
    unfold with_ins; cbn [fst snd CachedHash SerType tx_Version tx_TxIn tx_TxOut LockTime Expiry]. destruct Hp as (Hli & Hi & Hlo & Ho & _), Hw as [_ Hw]. rewrite Hv, Ht, ?Hf.
    moved (@moved_all);
      [done|done|by apply scripts_witness|by apply scripts_txout].
Qed.

Lemma decodes_tx m r : tx_ok m -> exists e, BtcEncode m = Ok e /\ decodes (BtcDecode r) e (decoded r m).
Proof.
  intros Hm. pose proof (sertype_u16 m Hm) as Ht. pose proof Hm as [Hv _].
  edestruct (decodes_body m (MkMsgTx (CachedHash r) (SerType m) (tx_Version m) (tx_TxIn r) (tx_TxOut r)
    (LockTime r) (Expiry r))) as (e & He & Hd); [done..|].
  eexists; split; [exact He|]. rewrite version_join by done.
  eapply decodes_bind; [apply decodes_Uint32; ilia|].
  rewrite version_type, version_number by done. exact Hd.
Qed.

Lemma Forall_part (ok : TxIn -> Prop) (f : TxIn -> TxIn) ins :
  Forall (fun ti => ok ti /\ ti = f ti) ins -> Forall ok ins /\ f <$> ins = ins.
Proof.
  induction 1 as [|ti l [H1 H2] _ [IH1 IH2]]; [done|]. split; [by constructor|].
  cbn. by rewrite <- H2, IH2.
Qed.

Lemma prefix_Ok r b m total rest : SerType r <> TxSerializeOnlyWitness -> is_bytes b ->
  decodePrefix r b = Ok ((m, total), rest) ->
  b = encodePrefix m ++ rest /\ prefix_part_ok m /\ is_bytes rest /\
  m = MkMsgTx (CachedHash r) (SerType r) (tx_Version r) (prefix_of <$> tx_TxIn m) (tx_TxOut m)
        (LockTime m) (Expiry m) /\ total = script_sizes PkScript (tx_TxOut m).
Proof.
  intros Ht Hb H. unfold decodePrefix in H.
  eapply counted_Ok in H as (ins & r1 & -> & Hli & Hi & Hr & H); [|by apply strict_prefix|done].
  eapply counted_Ok in H as (outs & r2 & -> & Hlo & Ho & Hr2 & H); [|apply strict_txout|done].
  inv_reader. fields. apply Forall_part in Hi as [Hi Hfi].
  unfold encodePrefix, prefix_part_ok; cbn. rewrite <- !app_assoc, Hfi. done.
Qed.

Lemma inputs_Ok p enc ok f r b m total rest : 
  strict (p zeroTxIn) enc (fun ti => ok ti /\ ti = f ti) -> is_bytes b ->
  decode_inputs p r b = Ok ((m, total), rest) ->
  b = write_all enc (tx_TxIn m) ++ rest /\ inputs_ok ok m /\ is_bytes rest /\
  m = with_outs (with_ins r (f <$> tx_TxIn m)) [] /\ total = script_sizes SignatureScript (tx_TxIn m).
Proof.
  intros Hp Hb H. unfold decode_inputs in H.
  eapply counted_Ok in H as (ins & r1 & -> & Hli & Hi & Hr & H); [|exact Hp|done].
  inv_reader. apply Forall_part in Hi as [Hi Hfi]. unfold inputs_ok; cbn. by rewrite Hfi.
Qed.

Lemma zip_take_fields ins ws : length ins = length ws ->
  Forall (fun w => witness_ok w /\ w = witness_of w) ws ->
  let l := zip_with take_witness ins ws in
  Forall witness_ok l /\ concat (writeTxInWitness <$> l) = concat (writeTxInWitness <$> ws) /\
  prefix_of <$> l = prefix_of <$> ins /\ SignatureScript <$> l = SignatureScript <$> ws.
Proof.
  intros Hl Hw. revert ins Hl. induction Hw as [|w ws [Hw _] _ IH]; intros [|ti ins] Hl; try done.
  cbn. edestruct (IH ins) as (H1 & H2 & H3 & H4); [cbn in Hl; lia|].
  split_and!; [by constructor|by rewrite H2|by rewrite H3|by rewrite H4].
Qed.

Lemma prefix_same (l1 l2 : list TxIn) : prefix_of <$> l1 = prefix_of <$> l2 ->
  concat (writeTxInPrefix <$> l1) = concat (writeTxInPrefix <$> l2) /\
  (Forall prefix_ok l1 -> Forall prefix_ok l2).
Proof.
  revert l2; induction l1 as [|[] l1 IH]; intros [|[] l2] H; try done. cbn in H. injection H as -> -> H.
  apply IH in H as [H1 H2]. cbn. rewrite H1. split; [done|].
  intros [??]%Forall_cons_1. constructor; [done|]. by apply H2.
Qed.

Lemma script_sizes_fmap {A} (f : A -> bytes) (l1 l2 : list A) : f <$> l1 = f <$> l2 ->
  script_sizes f l1 = script_sizes f l2.
Proof.
  intros H. unfold script_sizes. generalize 0 as n. revert l2 H.
  induction l1 as [|x l1 IH]; intros [|y l2] H n; try done. cbn in H. injection H as H1 H2.
  cbn. rewrite H1. by apply IH.
Qed.

Lemma witness_Ok r b m total rest : is_bytes b ->
  decodeWitness r true b = Ok ((m, total), rest) ->
  b = encodeWitness m ++ rest /\ inputs_ok witness_ok m /\ is_bytes rest /\
  m = with_ins r (tx_TxIn m) /\ prefix_of <$> tx_TxIn m = prefix_of <$> tx_TxIn r /\
  length (tx_TxIn m) = length (tx_TxIn r) /\ total = script_sizes SignatureScript (tx_TxIn m).
Proof.
  intros Hb H. unfold decodeWitness in H; cbn [negb] in H. inv_reader. fields.
  destruct (Z.eqb_spec (i64 x) (Z.of_nat (length (tx_TxIn r)))) as [Hn|]; [|done]. cbn [negb] in H0.
  rewrite Z.gtb_ltb in H0. destruct (Z.ltb_spec maxTxInPerMessage x); [done|].
  inv_reader. eapply strict_read_n in H0 as (-> & [Hlw Hw] & Hr); [|apply strict_witness|done].
  assert (maxTxInPerMessage <= 2 ^ 22) by (by vm_compute).
  rewrite i64_small in Hn by (unfold is_i64, is_u64 in *; lia).
  destruct (zip_take_fields (tx_TxIn r) x1) as (Hz1 & Hz2 & Hz3 & Hz4); [lia|done|].
  assert (Hlz : length (zip_with take_witness (tx_TxIn r) x1) = Z.to_nat x)
    by (rewrite length_zip_with; lia).
  unfold encodeWitness, write_all, inputs_ok; cbn [tx_TxIn with_ins].
  rewrite Hz2, Hlz, <- app_assoc, Z2Nat.id by (unfold is_u64 in *; lia).
  split_and!; [done|done|done|done|done|done|lia|]. symmetry. by apply script_sizes_fmap.
Qed.

Lemma lift_res_Ok {A B} (p : reader A) (f : A -> res wireError B) b y rest :
  (x ← p; lift_res (f x)) b = Ok (y, rest) -> exists x, p b = Ok (x, rest) /\ f x = Ok y.
Proof.
  intros H. inv_reader. unfold lift_res in H0. inv_res. eexists. split; [exact H|]. done.
Qed.

(** What decoding the body of a message of the type of [r] into [r] gives. *)
Definition body_result (r m : MsgTx) (b rest : bytes) : Prop :=
  SerType m = SerType r /\ tx_Version m = tx_Version r /\
  (is_u16 (tx_Version r) -> tx_ok m) /\ m = decoded r m /\ is_bytes rest /\
  exists e, b = e ++ rest /\
    BtcEncode m = Ok (PutUint32 (Z.lor (tx_Version m) (u32 (Z.shiftl (SerType m) 16))) ++ e).

Lemma body_inputs p enc ok f r b m rest t :
  strict (p zeroTxIn) enc (fun ti => ok ti /\ ti = f ti) -> is_bytes b ->
  (forall ins, Forall ok ins -> Forall (fun ti => script_ok (SignatureScript ti)) ins) ->
  t = TxSerializeOnlyWitness \/ t = TxSerializeWitnessSigning \/ t = TxSerializeWitnessValueSigning ->
  (x ← decode_inputs p r; lift_res (writeTxScriptsToMsgTx x.1 x.2 t)) b = Ok (m, rest) ->
  b = write_all enc (tx_TxIn m) ++ rest /\ inputs_ok ok m /\ is_bytes rest /\
  m = with_outs (with_ins r (f <$> tx_TxIn m)) [].
Proof.
  intros Hp Hb Hs Ht ([m' total] & H & H0)%lift_res_Ok.
  eapply inputs_Ok in H as (-> & [Hl Hi] & Hr & Hm' & ->); [|exact Hp|done]. cbn in H0.
  rewrite moved_ins in H0 by auto. simplify_eq. by split_and!.
Qed.

Lemma body_Ok r b m rest : is_bytes b -> decode_body r b = Ok (m, rest) -> body_result r m b rest.
Proof.
  intros Hb H. unfold decode_body in H. unfold body_result, tx_ok, decoded, BtcEncode.
  destruct (Z.eqb_spec (SerType r) TxSerializeNoWitness) as [Ht|];
    [|destruct (Z.eqb_spec (SerType r) TxSerializeOnlyWitness) as [Ht|];
    [|destruct (Z.eqb_spec (SerType r) TxSerializeWitnessSigning) as [Ht|];
    [|destruct (Z.eqb_spec (SerType r) TxSerializeWitnessValueSigning) as [Ht|];
    [|destruct (Z.eqb_spec (SerType r) TxSerializeFull) as [Ht|]; [|done]]]]].
  - apply lift_res_Ok in H as ([m' total] & H & H0).
    apply prefix_Ok in H as (-> & Hp & Hr & Hm & ->); [|by rewrite Ht|done]. cbn in H0.
    rewrite Ht, moved_outs in H0 by (destruct Hp as (?&?&?&?&_); auto using scripts_txout). simplify_eq.
    assert (SerType m = TxSerializeNoWitness /\ tx_Version m = tx_Version r) as [Hs Hv]
      by (rewrite Hm; done). rewrite Hs, Hv, Ht.
    split_and!; [done|done|done|by rewrite Hm at 1; rewrite Ht|done|by eexists].
  - eapply (body_inputs _ _ witness_ok witness_of) in H as (-> & Hi & Hr & Hm);
      [|apply strict_witness|done|apply scripts_witness|tauto].
    assert (SerType m = TxSerializeOnlyWitness /\ tx_Version m = tx_Version r) as [Hs Hv]
      by (rewrite Hm; done). rewrite Hs, Hv, Ht.
    split_and!; first [done|by eexists|by rewrite Hm at 1; unfold with_outs, with_ins; cbn; rewrite Ht].
  - eapply (body_inputs _ _ signing_ok signing_of) in H as (-> & Hi & Hr & Hm);
      [|apply strict_signing|done|done|tauto].
    assert (SerType m = TxSerializeWitnessSigning /\ tx_Version m = tx_Version r) as [Hs Hv]
      by (rewrite Hm; done). rewrite Hs, Hv, Ht.
    split_and!; first [done|by eexists|by rewrite Hm at 1; unfold with_outs, with_ins; cbn; rewrite Ht].
  - eapply (body_inputs _ _ value_signing_ok value_signing_of) in H as (-> & Hi & Hr & Hm);
      [|apply strict_value_signing|done| |tauto].
    2:{ intros ins Hins. eapply Forall_impl; [|exact Hins]. by intros ? [_ ?]. }
    assert (SerType m = TxSerializeWitnessValueSigning /\ tx_Version m = tx_Version r) as [Hs Hv]
      by (rewrite Hm; done). rewrite Hs, Hv, Ht.
    split_and!; first [done|by eexists|by rewrite Hm at 1; unfold with_outs, with_ins; cbn; rewrite Ht].
  - apply reader_bind_Ok in H as ([m1 total1] & b1 & H1 & H).
    apply prefix_Ok in H1 as (-> & Hp & Hr & Hm & ->); [|by rewrite Ht|done]. cbn in H.
    apply lift_res_Ok in H as ([m2 total2] & H2 & H0).
    apply witness_Ok in H2 as (-> & Hw & Hr2 & Hm2 & Hpre & Hlen & ->); [|done]. cbn in H0.
    destruct Hp as (Hli & Hi & Hlo & Ho & Hlt & Hex).
    assert (Houts : tx_TxOut m2 = tx_TxOut m1 /\ LockTime m2 = LockTime m1 /\ Expiry m2 = Expiry m1)
      by (rewrite Hm2; done). destruct Houts as (Houts & Hlk & Hexp).
    rewrite <- Houts, Ht, moved_all in H0;
      [|by rewrite Hlen|by rewrite Houts|apply scripts_witness, Hw|rewrite Houts; by apply scripts_txout].
    simplify_eq. destruct (prefix_same (tx_TxIn m) (tx_TxIn m1)) as [Hc _]; [done|].
    destruct (prefix_same (tx_TxIn m1) (tx_TxIn m)) as [_ Hpo]; [done|].
    assert (SerType m = TxSerializeFull /\ tx_Version m = tx_Version r /\ CachedHash m = CachedHash r)
      as (Hs & Hv & Hca) by (rewrite Hm2, Hm; done). rewrite Hs, Hv, Ht.
    split_and!; try done.
    + intros Hver. split; [done|]. repeat (case_decide; [done|]). unfold prefix_part_ok.
      rewrite Houts, Hlk, Hexp, Hlen. auto 10.
    + repeat (case_decide; [done|]). rewrite <- Hs, <- Hv, <- Hca. by destruct m.
    + eexists (encodePrefix m ++ encodeWitness m). rewrite <- app_assoc. split; [|done]. f_equal.
      unfold encodePrefix, write_all. by rewrite Houts, Hlk, Hexp, Hlen, Hc.
Qed.

(** ** Sizes *)

Lemma length_VarBytes s : script_ok s ->
  Z.of_nat (length (WriteVarBytes s)) =
    VarIntSerializeSize (Z.of_nat (length s)) + Z.of_nat (length s).
Proof.
  intros [_ Hs]. unfold WriteVarBytes. rewrite length_app, Nat2Z.inj_add, length_WriteVarInt; [done|].
  unfold is_u64, MaxMessagePayload in *. lia.
Qed.

Lemma add_sizes_spec {A} (enc : A -> bytes) (size : A -> Z) l n :
  Forall (fun x => Z.of_nat (length (enc x)) = size x) l ->
  add_sizes size l n = n + Z.of_nat (length (concat (enc <$> l))).
Proof.
  intros H. revert n. induction H as [|x l Hx _ IH]; intros n; cbn; [lia|].
  unfold add_sizes in IH. rewrite IH, length_app. lia.
Qed.

Lemma write_all_size {A} (enc : A -> bytes) (size : A -> Z) l n :
  Z.of_nat (length l) <= 2 ^ 22 ->
  Forall (fun x => Z.of_nat (length (enc x)) = size x) l ->
  add_sizes size l (n + VarIntSerializeSize (Z.of_nat (length l))) = n + Z.of_nat (length (write_all enc l)).
Proof.
  intros Hl H. rewrite (add_sizes_spec enc) by done. unfold write_all.
  rewrite length_app, Nat2Z.inj_add, length_WriteVarInt by (unfold is_u64; lia). lia.
Qed.

Lemma add_sizes_acc {A} (size : A -> Z) l : exists s, forall n, add_sizes size l n = n + s.
Proof.
  exists (add_sizes size l 0). unfold add_sizes. intros n. rewrite <- (Z.add_0_r n) at 1. generalize 0.
  revert n; induction l as [|x l IH]; intros n z; cbn; [done|]. rewrite <- IH. f_equal. lia.
Qed.

Ltac sizes :=
  unfold PutUint8, PutUint16, PutUint32, PutUint64;
  rewrite ?length_app, ?Nat2Z.inj_add, ?length_put_le, ?length_VarBytes by done; lia.

Lemma size_prefix ti : prefix_ok ti -> Z.of_nat (length (writeTxInPrefix ti)) = SerializeSizePrefix ti.
Proof.
  intros [[[H _] _] _]. unfold writeTxInPrefix, WriteOutPoint, SerializeSizePrefix.
  sizes.
Qed.

Lemma size_witness ti : witness_ok ti -> Z.of_nat (length (writeTxInWitness ti)) = SerializeSizeWitness ti.
Proof.
  intros (_ & _ & _ & H). unfold writeTxInWitness, SerializeSizeWitness.
  sizes.
Qed.

Lemma size_value_signing ti : value_signing_ok ti ->
  Z.of_nat (length (writeTxInWitnessValueSigning ti)) = SerializeSizeWitnessValueSigning ti.
Proof.
  intros (_ & H). unfold writeTxInWitnessValueSigning, SerializeSizeWitnessValueSigning.
  sizes.
Qed.

Lemma size_out to : txout_ok to -> Z.of_nat (length (writeTxOut to)) = out_SerializeSize to.
Proof.
  intros (_ & _ & H). unfold writeTxOut, out_SerializeSize.
  sizes.
Qed.

Lemma inputs_bound n : n <= maxTxInPerMessage -> n <= 2 ^ 22.
Proof. intros H. etrans; [exact H|]. by vm_compute. Qed.
Lemma outputs_bound n : n <= maxTxOutPerMessage -> n <= 2 ^ 22.
Proof. intros H. etrans; [exact H|]. by vm_compute. Qed.

Lemma sized_prefix m n : prefix_part_ok m ->
  add_sizes out_SerializeSize (tx_TxOut m) (add_sizes SerializeSizePrefix (tx_TxIn m)
    (n + 8 + VarIntSerializeSize (Z.of_nat (length (tx_TxIn m))) +
       VarIntSerializeSize (Z.of_nat (length (tx_TxOut m))))) =
  n + Z.of_nat (length (encodePrefix m)).
Proof.
  intros (Hli & Hi & Hlo & Ho & _). unfold encodePrefix.
  pose proof (write_all_size writeTxInPrefix SerializeSizePrefix (tx_TxIn m) n) as H1.
  pose proof (write_all_size writeTxOut out_SerializeSize (tx_TxOut m) n) as H2.
  lapply H1; [clear H1; intros H1|by apply inputs_bound].
  lapply H2; [clear H2; intros H2|by apply outputs_bound].
  lapply H1; [clear H1; intros H1|eapply Forall_impl; [|exact Hi]; apply size_prefix].
  lapply H2; [clear H2; intros H2|eapply Forall_impl; [|exact Ho]; apply size_out].
  destruct (add_sizes_acc SerializeSizePrefix (tx_TxIn m)) as [sp Hsp].
  destruct (add_sizes_acc out_SerializeSize (tx_TxOut m)) as [so Hso].
  rewrite ?Hsp, ?Hso in *. sizes.
Qed.

Lemma sized_inputs (enc : TxIn -> bytes) size ok m :
  (forall ti, ok ti -> Z.of_nat (length (enc ti)) = size ti) -> inputs_ok ok m ->
  add_sizes size (tx_TxIn m) (4 + VarIntSerializeSize (Z.of_nat (length (tx_TxIn m)))) =
  4 + Z.of_nat (length (write_all enc (tx_TxIn m))).
Proof.
  intros Hs [Hl Hi]. apply write_all_size; [by apply inputs_bound|].
  eapply Forall_impl; [|exact Hi]. exact Hs.
Qed.

Lemma SerializeSize_spec m e : tx_ok m -> BtcEncode m = Ok e -> Z.of_nat (length e) = SerializeSize m.
Proof.
  intros [_ Hm] He. unfold BtcEncode, SerializeSize in *.
  set (v := PutUint32 _) in He. assert (Hv : Z.of_nat (length v) = 4) by (unfold v, PutUint32; sizes).
  clearbody v. repeat case_decide;
    try match goal with H : SerType m = _ |- _ => rewrite H in He |- *; injection He as <- end.
  - rewrite length_app, Nat2Z.inj_add, Hv. symmetry. by apply (sized_prefix m 4).
  - rewrite length_app, Nat2Z.inj_add, Hv. symmetry.
    by apply (sized_inputs _ _ witness_ok); [apply size_witness|].
  - rewrite length_app, Nat2Z.inj_add, Hv. symmetry.
    by apply (sized_inputs _ _ signing_ok); [intros ti; apply length_VarBytes|].
  - rewrite length_app, Nat2Z.inj_add, Hv. symmetry.
    by apply (sized_inputs _ _ value_signing_ok); [apply size_value_signing|].
  - destruct Hm as (Hf & Hp & Hw). rewrite Hf in He |- *; injection He as <-.
    rewrite !length_app, !Nat2Z.inj_add, Hv.
    pose proof (sized_inputs _ _ witness_ok m size_witness Hw) as Hi.
    pose proof (sized_prefix m 4 Hp) as Ho. unfold encodeWitness.
    set (cin := VarIntSerializeSize (Z.of_nat (length (tx_TxIn m)))) in *.
    set (cout := VarIntSerializeSize (Z.of_nat (length (tx_TxOut m)))) in *.
    transitivity (add_sizes out_SerializeSize (tx_TxOut m) (add_sizes SerializeSizeWitness (tx_TxIn m)
      (add_sizes SerializeSizePrefix (tx_TxIn m) (12 + cin + cin + cout)))); [|reflexivity].
    destruct (add_sizes_acc SerializeSizeWitness (tx_TxIn m)) as [sw Hsw].
    destruct (add_sizes_acc SerializeSizePrefix (tx_TxIn m)) as [sp Hsp].
    destruct (add_sizes_acc out_SerializeSize (tx_TxOut m)) as [so Hso].
    rewrite ?Hsw, ?Hsp, ?Hso in *. lia.
Qed.

Lemma locs_loop_spec outs : forall (pre post : bytes) n i to, Forall txout_ok outs ->
  n = Z.of_nat (length pre) -> outs !! i = Some to ->
  exists loc, locs_loop n outs !! i = Some loc /\
    take (length (PkScript to)) (drop (Z.to_nat loc) (pre ++ concat (writeTxOut <$> outs) ++ post)) = PkScript to.
Proof.
  induction outs as [|o outs IH]; intros pre post n i to Ho -> Hi; [done|].
  apply Forall_cons_1 in Ho as [Hok Ho]. pose proof Hok as (_ & _ & Hs & _).
  set (head := PutUint64 (u64 (Value o)) ++ PutUint16 (out_Version o) ++
    WriteVarInt (Z.of_nat (length (PkScript o)))).
  assert (Hw : writeTxOut o = head ++ PkScript o)
    by (unfold writeTxOut, WriteVarBytes, head; by rewrite <- !app_assoc).
  pose proof (size_out o Hok) as Hsz. unfold out_SerializeSize in Hsz. rewrite Hw, length_app in Hsz.
  destruct i as [|i]; cbn in Hi |- *.
  - simplify_eq. eexists; split; [done|]. rewrite Hw, <- !app_assoc, app_assoc.
    replace (Z.to_nat _) with (length (pre ++ head)) by (rewrite length_app; lia).
    by rewrite drop_app_length, take_app_length.
  - edestruct (IH (pre ++ writeTxOut o) post) as (loc & H1 & H2); [done| |exact Hi|].
    2:{ exists loc. split; [exact H1|]. rewrite <- H2 at 2. by rewrite <- !app_assoc. }
    rewrite Hw, !length_app. lia.
Qed.

(** The fields of a transaction that its prefix has. *)
Definition same_prefix (m1 m2 : MsgTx) : Prop :=
  tx_Version m1 = tx_Version m2 /\ prefix_of <$> tx_TxIn m1 = prefix_of <$> tx_TxIn m2 /\
  tx_TxOut m1 = tx_TxOut m2 /\ LockTime m1 = LockTime m2 /\ Expiry m1 = Expiry m2.

Lemma prefix_bytes m : mustSerialize m TxSerializeNoWitness =
  Ok (PutUint32 (Z.lor (tx_Version m) (u32 (Z.shiftl TxSerializeNoWitness 16))) ++ encodePrefix m).
Proof. reflexivity. Qed.

Lemma same_prefix_bytes m1 m2 : same_prefix m1 m2 ->
  mustSerialize m1 TxSerializeNoWitness = mustSerialize m2 TxSerializeNoWitness.
Proof.
  intros (Hv & Hi & Ho & Hl & He). rewrite !prefix_bytes, Hv. do 2 f_equal.
  unfold encodePrefix, write_all. rewrite Ho, Hl, He.
  assert (length (tx_TxIn m1) = length (tx_TxIn m2)) as ->
    by (rewrite <- (length_fmap prefix_of), Hi; apply length_fmap).
  by destruct (prefix_same (tx_TxIn m1) (tx_TxIn m2) Hi) as [-> _].
Qed.

Lemma prefix_bytes_same m1 m2 :
  is_u16 (tx_Version m1) -> is_u16 (tx_Version m2) -> prefix_part_ok m1 -> prefix_part_ok m2 ->
  mustSerialize m1 TxSerializeNoWitness = mustSerialize m2 TxSerializeNoWitness -> same_prefix m1 m2.
Proof.
  intros Hv1 Hv2 H1 H2 H.
  destruct (decodes_tx (with_sertype m1 TxSerializeNoWitness) NewMsgTx) as (e1 & He1 & Hd1); [done|].
  destruct (decodes_tx (with_sertype m2 TxSerializeNoWitness) NewMsgTx) as (e2 & He2 & Hd2); [done|].
  unfold mustSerialize, serialize, Serialize in H. rewrite He1, He2 in H. simplify_eq.
  specialize (Hd1 []). specialize (Hd2 []). rewrite Hd1 in Hd2.
  unfold decoded, same_prefix in *. destruct m1, m2. cbn in *. by simplify_eq.
Qed.

Lemma Copy_spec m : Forall prefix_ok (tx_TxIn m) ->
  Copy m = MkMsgTx None (SerType m) (tx_Version m) (tx_TxIn m) (tx_TxOut m) (LockTime m) (Expiry m).
Proof.
  intros H. assert (Hc : forall s, copy_bytes s = s).
  { intros [|x s]; [done|]. unfold copy_bytes. cbn -[take]. apply (firstn_all (x :: s)). }
  unfold Copy. f_equal.
  - induction H as [|[[h i t] ? ? ? ? ?] l [[[Hl _] _] _] _ IH]; [done|]. cbn in *.
    unfold set_hash. rewrite Hl, Hc. cbn. by f_equal.
  - induction (tx_TxOut m) as [|[] l IH]; [done|]. cbn. rewrite Hc. by f_equal.
Qed.

(** PkScriptLocs gives the offsets of the public key scripts in the serialization. *)
Lemma PkScriptLocs_spec m e i to : tx_ok m ->
  SerType m = TxSerializeFull \/ SerType m = TxSerializeNoWitness ->
  BtcEncode m = Ok e -> tx_TxOut m !! i = Some to ->
  exists loc, PkScriptLocs m !! i = Some loc /\
    take (length (PkScript to)) (drop (Z.to_nat loc) e) = PkScript to.
Proof.
  intros [_ Hm] Ht He Hi.
  assert (Hp : prefix_part_ok m /\ exists post, e =
    PutUint32 (Z.lor (tx_Version m) (u32 (Z.shiftl (SerType m) 16))) ++ encodePrefix m ++ post).
  { unfold BtcEncode in He. set (v := PutUint32 _) in *. clearbody v.
    destruct Ht as [Ht|Ht]; rewrite Ht in *; injection He as <-.
    - destruct Hm as (_ & Hp & _). split; [done|by eexists].
    - split; [done|]. exists []. by rewrite app_nil_r. }
  destruct Hp as [(Hli & Hins & Hlo & Hout & _) [post ->]]. unfold PkScriptLocs.
  assert (Hne : Z.of_nat (length (tx_TxOut m)) <> 0) by (destruct (tx_TxOut m); [done|cbn; lia]).
  destruct (Z.eqb_spec (Z.of_nat (length (tx_TxOut m))) 0); [done|].
  set (v := PutUint32 _). assert (Hv : Z.of_nat (length v) = 4) by (unfold v, PutUint32; sizes).
  unfold encodePrefix. unfold write_all at 2. rewrite <- !app_assoc. rewrite 2!app_assoc.
  apply locs_loop_spec with (pre := (v ++ write_all writeTxInPrefix (tx_TxIn m)) ++
    WriteVarInt (Z.of_nat (length (tx_TxOut m)))); [done| |done].
  rewrite !length_app, !Nat2Z.inj_add, Hv, length_WriteVarInt
    by (apply outputs_bound in Hlo; unfold is_u64; lia).
  pose proof (write_all_size writeTxInPrefix SerializeSizePrefix (tx_TxIn m) 4) as H1.
  lapply H1; [clear H1; intros H1|by apply inputs_bound].
  lapply H1; [clear H1; intros H1|eapply Forall_impl; [|exact Hins]; apply size_prefix].
  destruct (add_sizes_acc SerializeSizePrefix (tx_TxIn m)) as [sp Hsp]. rewrite Hsp in *. lia.
Qed.

Lemma BtcDecode_Ok (r m : MsgTx) (b rest : bytes) : is_bytes b -> BtcDecode r b = Ok (m, rest) ->
  tx_ok m /\ decoded r m = m /\ is_bytes rest /\ exists e, BtcEncode m = Ok e /\ b = e ++ rest.
Proof.
  intros Hb (v & b1 & Hv & H)%reader_bind_Ok. fields.
  match goal with H : 0 <= v < _ |- _ => apply version_split in H as (Hn & Ht0 & H3) end.
  apply body_Ok in H as (Ht & Hv & Hok & Hm & Hr & e & -> & He); [|done]. cbn in Ht, Hv, Hok.
  rewrite Ht, Hv, H3 in He. split_and!; [by apply Hok| |done|].
  - rewrite Hm at 2. done.
  - eexists. split; [exact He|]. by rewrite <- app_assoc.
Qed.

(** C33: transactions are read back from each of their five serializations.  Decoding a
    byte string into a receiver [r] gives the transaction [m] and leaves [rest] if and only
    if the fields that the serialization type of [m] encodes fit their types, the others
    are those of the receiver (or zero), and the byte string is the encoding of [m] followed
    by [rest]; so no other byte string decodes to it.  Every well-formed transaction has an
    encoding, of the length that SerializeSize predicts, and decoding it gives back all the
    encoded fields.  The move of the scripts into a contiguous buffer changes nothing. *)
Theorem tx_roundtrip (r m : MsgTx) (b rest : bytes) :
  is_bytes b ->
  (BtcDecode r b = Ok (m, rest) <->
   tx_ok m /\ decoded r m = m /\ is_bytes rest /\ exists e, BtcEncode m = Ok e /\ b = e ++ rest) /\
  (tx_ok m -> exists e, BtcEncode m = Ok e /\ Z.of_nat (length e) = SerializeSize m /\
     BtcDecode r (e ++ rest) = Ok (decoded r m, rest)).
Proof.
  intros Hb. split; [split|].
  - by apply BtcDecode_Ok.
  - intros (Hok & Hd & Hr & e & He & ->). destruct (decodes_tx m r Hok) as (e' & He' & Hdec).
    rewrite He in He'. simplify_eq. rewrite <- Hd at 1. apply Hdec.
  - intros Hok. destruct (decodes_tx m r Hok) as (e & He & Hdec). exists e.
    split_and!; [done|by apply SerializeSize_spec|apply Hdec].
Qed.

Definition sample_tx : MsgTx :=
  MkMsgTx None TxSerializeFull 1
    [MkTxIn (MkOutPoint (replicate 32 7) 3 1) 0xffffffff (-5) 100 2 [0x51; 0x52]]
    [MkTxOut 5000 0 [0x76; 0xa9]; MkTxOut (-1) 1 []] 10 20.

Lemma replicate_bytes n x : is_u8 x -> is_bytes (replicate n x).
Proof. intros H. apply Forall_replicate, H. Qed.

Lemma sample_tx_ok : tx_ok sample_tx.
Proof.
  assert (Hin : prefix_part_ok sample_tx).
  { unfold prefix_part_ok. cbn [tx_TxIn tx_TxOut LockTime Expiry sample_tx].
    assert (H2 : is_bytes [0x76; 0xa9]) by (repeat constructor; lia).
    split_and!; [by vm_compute| |by vm_compute| |by vm_compute..].
    - constructor; [|constructor]. split; [|by vm_compute].
      split_and!; [reflexivity|apply replicate_bytes; by vm_compute|by vm_compute..].
    - constructor; [|constructor; [|constructor]]; (split_and!; [by vm_compute..|split; [|by vm_compute]]);
        [done|constructor]. }
  split; [by vm_compute|].
  change (TxSerializeFull = TxSerializeFull /\ prefix_part_ok sample_tx /\ inputs_ok witness_ok sample_tx).
  split; [reflexivity|]. split; [exact Hin|]. split; [by vm_compute|].
  constructor; [|constructor]. split_and!; [by vm_compute..|].
  split; [repeat constructor; lia|by vm_compute].
Qed.

Lemma tx_roundtrip_witness : exists b, BtcEncode sample_tx = Ok b /\
  BtcDecode NewMsgTx (b ++ [42]) = Ok (sample_tx, [42]).
Proof.
  destruct (tx_roundtrip NewMsgTx sample_tx [] [42]) as [_ H]; [constructor|].
  destruct (H sample_tx_ok) as (b & Hb & _ & Hd). by exists b.
Defined.

(** The transaction hash identifies exactly the prefix of a transaction: it does not
    depend on the witness fields, and two transactions whose hashed bytes are equal have
    the same version, previous outpoints, sequence numbers, outputs, lock time and
    expiry. *)
Theorem txid_identifies_prefix (HashH : bytes -> bytes) (m1 m2 : MsgTx) :
  (same_prefix m1 m2 -> TxHash HashH m1 = TxHash HashH m2) /\
  (is_u16 (tx_Version m1) -> is_u16 (tx_Version m2) -> prefix_part_ok m1 -> prefix_part_ok m2 ->
   mustSerialize m1 TxSerializeNoWitness = mustSerialize m2 TxSerializeNoWitness -> same_prefix m1 m2).
Proof.
  split; [|apply prefix_bytes_same]. intros H. unfold TxHash, hash_of. by rewrite (same_prefix_bytes m1 m2 H).
Qed.

Lemma txid_identifies_prefix_witness :
  TxHash (fun b => b) sample_tx = TxHash (fun b => b) (with_ins sample_tx (prefix_of <$> tx_TxIn sample_tx)).
Proof. apply (txid_identifies_prefix (fun b => b)). by split_and!. Defined.
