(* ===== verification/MsgBlock.v ===== *)
(** * Block messages

    [wire/msgblock.go]: a block is a header and two counted lists of transactions, the
    regular and the stake tree.  [DeserializeTxLoc] also records where each transaction
    lies in the buffer.  The protocol version only selects between two equal limits. *)

From stdpp Require Import list.
From S2P Require Import Prelude WireCommon MsgTx.
#[local] Open Scope Z_scope.

Definition MaxBlocksPerMsg : Z := 500.
Definition MaxBlockPayloadV3 : Z := 2048000.
Definition MaxBlockPayload : Z := 2048000.
Definition minTxPayload : Z := 4 + 1 + 1 + 1 + 4 + 4.
Definition ProtocolVersion : Z := 1.
Definition blockHeaderLen : Z := 180 + 32 + 4.

Definition MaxTxPerTxTree (pver : Z) : Z :=
  if pver <=? 3 then MaxBlockPayloadV3 / minTxPayload / 2 + 1
  else MaxBlockPayload / minTxPayload / 2 + 1.

Record TxLoc := MkTxLoc { TxStart : Z; TxLen : Z }.

Record MsgBlock := MkBlock {
  Header : BlockHeader;
  Transactions : list MsgTx;
  STransactions : list MsgTx
}.

Definition NewMsgBlock (blockHeader : BlockHeader) : MsgBlock := MkBlock blockHeader [] [].

Definition AddTransaction (msg : MsgBlock) (tx : MsgTx) : MsgBlock :=
  MkBlock (Header msg) (Transactions msg ++ [tx]) (STransactions msg).
Definition AddSTransaction (msg : MsgBlock) (tx : MsgTx) : MsgBlock :=
  MkBlock (Header msg) (Transactions msg) (STransactions msg ++ [tx]).
Definition ClearTransactions (msg : MsgBlock) : MsgBlock :=
  MkBlock (Header msg) [] (STransactions msg).
Definition ClearSTransactions (msg : MsgBlock) : MsgBlock :=
  MkBlock (Header msg) (Transactions msg) [].

(** [var tx MsgTx] *)
Definition zeroTx : MsgTx := MkMsgTx None 0 0 [] [] 0 0.

(** ** Decoding *)

Definition block_BtcDecode (pver : Z) : reader MsgBlock :=
  header ← readBlockHeader;
  txCount ← ReadVarInt;
  if txCount >? MaxTxPerTxTree pver then fail TooManyTransactions
  else
    txs ← read_n (Z.to_nat txCount) (BtcDecode zeroTx);
    stakeTxCount ← ReadVarInt;
    if stakeTxCount >? MaxTxPerTxTree pver then fail TooManyTransactions
    else
      stxs ← read_n (Z.to_nat stakeTxCount) (BtcDecode zeroTx);
      mret (MkBlock header txs stxs).

Definition block_Deserialize : reader MsgBlock := block_BtcDecode 0.

Definition block_FromBytes (b : bytes) : res wireError MsgBlock := fst <$> block_Deserialize b.

(** [r.Len()] *)
Definition Len : reader Z := fun r => Ok (Z.of_nat (length r), r).

(** The next transaction and where it lies in a buffer of [fullLen] bytes. *)
Definition locatedTx (fullLen : Z) : reader (MsgTx * TxLoc) :=
  before ← Len;
  tx ← Deserialize zeroTx;
  after ← Len;
  let start := fullLen - before in
  mret (tx, MkTxLoc start ((fullLen - after) - start)).

Definition DeserializeTxLoc : reader (MsgBlock * list TxLoc * list TxLoc) :=
  fullLen ← Len;
  header ← readBlockHeader;
  txCount ← ReadVarInt;
  if txCount >? MaxTxPerTxTree ProtocolVersion then fail TooManyTransactions
  else
    txs ← read_n (Z.to_nat txCount) (locatedTx fullLen);
    stakeTxCount ← ReadVarInt;
    if stakeTxCount >? MaxTxPerTxTree ProtocolVersion then fail TooManyTransactions
    else
      stxs ← read_n (Z.to_nat stakeTxCount) (locatedTx fullLen);
      mret (MkBlock header txs.*1 stxs.*1, txs.*2, stxs.*2).

(** ** Encoding *)

(** [for _, tx := range txs { err = tx.BtcEncode(w); ... }] *)
Fixpoint encodeTxs (txs : list MsgTx) : res wireError bytes :=
  match txs with
  | [] => Ok []
  | tx :: txs => b ← BtcEncode tx; rest ← encodeTxs txs; Ok (b ++ rest)
  end.

Definition block_BtcEncode (msg : MsgBlock) : res wireError bytes :=
  txs ← encodeTxs (Transactions msg);
  stxs ← encodeTxs (STransactions msg);
  Ok (writeBlockHeader (Header msg) ++ WriteVarInt (Z.of_nat (length (Transactions msg))) ++ txs ++
      WriteVarInt (Z.of_nat (length (STransactions msg))) ++ stxs).

Definition block_Serialize (msg : MsgBlock) : res wireError bytes := block_BtcEncode msg.
Definition block_Bytes (msg : MsgBlock) : res wireError bytes := block_Serialize msg.

Definition block_SerializeSize (msg : MsgBlock) : Z :=
  let n := blockHeaderLen + VarIntSerializeSize (Z.of_nat (length (Transactions msg))) +
           VarIntSerializeSize (Z.of_nat (length (STransactions msg))) in
  let n := add_sizes SerializeSize (Transactions msg) n in
  if (0 <? length (STransactions msg))%nat then add_sizes SerializeSize (STransactions msg) n else n.

Definition block_MaxPayloadLength (pver : Z) : Z :=
  if pver <=? 3 then MaxBlockPayloadV3 else MaxBlockPayload.

Section hashes.
Context (HashH : bytes -> bytes).

Definition block_BlockHash (msg : MsgBlock) : bytes := HashH (writeBlockHeader (Header msg)).

Fixpoint hashList (txs : list MsgTx) : res wireError (list bytes) :=
  match txs with
  | [] => Ok []
  | tx :: txs => h ← TxHash HashH tx; hs ← hashList txs; Ok (h :: hs)
  end.

Definition TxHashes (msg : MsgBlock) : res wireError (list bytes) := hashList (Transactions msg).
Definition STxHashes (msg : MsgBlock) : res wireError (list bytes) := hashList (STransactions msg).

End hashes.

(** ** The round trip *)

Definition enc_tx (tx : MsgTx) : bytes := match BtcEncode tx with Ok e => e | _ => [] end.

(** A transaction of a block: what is encoded is all there is. *)
Definition block_tx_ok (tx : MsgTx) : Prop := tx_ok tx /\ decoded zeroTx tx = tx.

Definition block_ok (msg : MsgBlock) : Prop :=
  header_ok (Header msg) /\
  Z.of_nat (length (Transactions msg)) <= MaxTxPerTxTree 0 /\ Forall block_tx_ok (Transactions msg) /\
  Z.of_nat (length (STransactions msg)) <= MaxTxPerTxTree 0 /\ Forall block_tx_ok (STransactions msg).

Lemma MaxTxPerTxTree_eq pver : MaxTxPerTxTree pver = MaxTxPerTxTree 0.
Proof. unfold MaxTxPerTxTree. by destruct (pver <=? 3). Qed.

Lemma enc_tx_Ok tx : block_tx_ok tx ->
  BtcEncode tx = Ok (enc_tx tx) /\ decodes (BtcDecode zeroTx) (enc_tx tx) tx.
Proof.
  intros [Hok Hd]. destruct (decodes_tx tx zeroTx Hok) as (e & He & Hdec). unfold enc_tx.
  rewrite He, Hd in *. done.
Qed.

Lemma strict_tx : strict (BtcDecode zeroTx) enc_tx block_tx_ok.
Proof.
  intros b tx rest Hb H. apply BtcDecode_Ok in H as (Hok & Hd & Hr & e & He & ->); [|done].
  unfold enc_tx. rewrite He. done.
Qed.

Lemma encodeTxs_Ok txs : Forall block_tx_ok txs -> encodeTxs txs = Ok (concat (enc_tx <$> txs)).
Proof.
  induction 1 as [|tx txs Htx _ IH]; [done|]. cbn. destruct (enc_tx_Ok tx Htx) as [-> _].
  cbn. by rewrite IH.
Qed.

Lemma Ok_inj {E A} (x y : A) : Ok (E := E) x = Ok y -> x = y.
Proof. congruence. Qed.

Lemma block_encode_Ok msg : block_ok msg -> block_BtcEncode msg =
  Ok (writeBlockHeader (Header msg) ++ write_all enc_tx (Transactions msg) ++ write_all enc_tx (STransactions msg)).
Proof.
  intros (_ & _ & Ht & _ & Hs). unfold block_BtcEncode, write_all. rewrite !encodeTxs_Ok by done.
  cbn. by rewrite <- !app_assoc.
Qed.

Lemma decodes_block pver msg e : block_ok msg -> block_BtcEncode msg = Ok e -> decodes (block_BtcDecode pver) e msg.
Proof.
  intros Hok He. pose proof (block_encode_Ok msg Hok) as E0. rewrite He in E0. apply Ok_inj in E0 as ->.
  destruct Hok as (Hh & Hlt & Ht & Hls & Hs). unfold block_BtcDecode. rewrite (MaxTxPerTxTree_eq pver).
  assert (Hdec : forall l, Forall block_tx_ok l -> Forall (fun tx => decodes (BtcDecode zeroTx) (enc_tx tx) (id tx)) l).
  { intros l Hl. eapply Forall_impl; [|exact Hl]. apply enc_tx_Ok. }
  eapply decodes_bind; [by apply decodes_header|].
  eapply (decodes_counted _ enc_tx id); [done|by vm_compute|by apply Hdec|].
  rewrite <- (app_nil_r (write_all enc_tx (STransactions msg))).
  eapply (decodes_counted _ enc_tx id); [done|by vm_compute|by apply Hdec|].
  rewrite !list_fmap_id. destruct msg. apply decodes_ret.
Qed.

Lemma strict_block pver b msg rest : is_bytes b -> block_BtcDecode pver b = Ok (msg, rest) ->
  block_ok msg /\ is_bytes rest /\ exists e, block_BtcEncode msg = Ok e /\ b = e ++ rest.
Proof.
  intros Hb H. unfold block_BtcDecode in H. rewrite (MaxTxPerTxTree_eq pver) in H.
  apply reader_bind_Ok in H as (h & r & Hh & H). apply strict_header in Hh as (-> & Hh & Hr); [|done].
  apply (counted_Ok _ enc_tx block_tx_ok) in H as (txs & r2 & -> & Hlt & Ht & Hr2 & H); [|apply strict_tx|done].
  apply (counted_Ok _ enc_tx block_tx_ok) in H as (stxs & r3 & -> & Hls & Hs & Hr3 & H); [|apply strict_tx|done].
  unfold mret, reader_ret in H. apply Ok_inj in H. assert (MkBlock h txs stxs = msg /\ r3 = rest) as [<- ->] by (split; congruence).
  assert (Hok : block_ok (MkBlock h txs stxs)) by (by split_and!).
  split; [done|]. split; [done|]. eexists. split; [by apply block_encode_Ok|]. cbn. by rewrite <- !app_assoc.
Qed.

Lemma add_sizes_sum {A} (size : A -> Z) l n : add_sizes size l n = n + add_sizes size l 0.
Proof.
  unfold add_sizes. revert n. induction l as [|x l IH]; intros n; cbn; [lia|].
  rewrite (IH (n + size x)), (IH (0 + size x)). lia.
Qed.

Lemma encoded_size txs : Forall block_tx_ok txs ->
  Z.of_nat (length (concat (enc_tx <$> txs))) = add_sizes SerializeSize txs 0.
Proof.
  induction 1 as [|tx txs Htx _ IH]; [done|]. rewrite fmap_cons. cbn [concat].
  rewrite length_app, Nat2Z.inj_add, IH.
  destruct (enc_tx_Ok tx Htx) as [He _]. destruct Htx as [Hok _].
  rewrite (SerializeSize_spec tx _ Hok He). change (add_sizes SerializeSize (tx :: txs) 0) with (add_sizes SerializeSize txs (0 + SerializeSize tx)).
  rewrite (add_sizes_sum _ txs (0 + SerializeSize tx)). lia.
Qed.

Lemma block_encoded_size msg e : block_ok msg -> block_BtcEncode msg = Ok e -> Z.of_nat (length e) = block_SerializeSize msg.
Proof.
  intros Hok He. pose proof (block_encode_Ok msg Hok) as E0. rewrite He in E0. apply Ok_inj in E0 as ->.
  destruct Hok as (Hh & Hlt & Ht & Hls & Hs). unfold write_all, block_SerializeSize.
  assert (MaxTxPerTxTree 0 < 2 ^ 64) by (by vm_compute).
  rewrite !length_app, !Nat2Z.inj_add, !length_WriteVarInt, !encoded_size by (done || unfold is_u64; lia).
  rewrite writeBlockHeader_length by done.
  set (k := blockHeaderLen + _ + _). rewrite (add_sizes_sum _ (Transactions msg) k).
  assert (Hk : k = MaxBlockHeaderPayload + VarIntSerializeSize (Z.of_nat (length (Transactions msg))) +
    VarIntSerializeSize (Z.of_nat (length (STransactions msg)))) by reflexivity.
  clearbody k. destruct (Nat.ltb_spec 0 (length (STransactions msg))) as [Hne|He'].
  - rewrite (add_sizes_sum _ (STransactions msg) (k + _)). lia.
  - destruct (STransactions msg); [|cbn in He'; lia]. change (add_sizes SerializeSize [] 0) with 0. lia.
Qed.

(** ** Locations *)

(** The location covers exactly the encoding of the transaction in the buffer. *)
Definition locates (b : bytes) (tl : MsgTx * TxLoc) : Prop :=
  exists e, BtcEncode tl.1 = Ok e /\ TxLen tl.2 = Z.of_nat (length e) /\ 0 <= TxStart tl.2 /\
    take (length e) (drop (Z.to_nat (TxStart tl.2)) b) = e.

Lemma locatedTx_Ok b pre r tx loc r' : b = pre ++ r -> is_bytes r ->
  locatedTx (Z.of_nat (length b)) r = Ok ((tx, loc), r') ->
  BtcDecode zeroTx r = Ok (tx, r') /\ is_bytes r' /\ locates b (tx, loc) /\ exists mid, r = mid ++ r'.
Proof.
  intros -> Hr H. unfold locatedTx, Len, Deserialize in H. unfold mbind, reader_bind in H. cbn in H.
  destruct (BtcDecode zeroTx r) as [[tx' r2]| |] eqn:Hd; cbn in H; [|done|done].
  apply Ok_inj in H. injection H as -> <- ->. split; [done|].
  apply BtcDecode_Ok in Hd as (_ & _ & Hr' & e & He & ->); [|done].
  split; [done|]. split; [|by exists e]. exists e. cbn [fst snd TxLen TxStart].
  rewrite !length_app, !Nat2Z.inj_add. split_and!; [done|lia|lia|].
  replace (Z.to_nat _) with (length pre) by lia. by rewrite drop_app_length, take_app_length.
Qed.

Lemma located_n b n pre r l r' : b = pre ++ r -> is_bytes r ->
  read_n n (locatedTx (Z.of_nat (length b))) r = Ok (l, r') ->
  read_n n (BtcDecode zeroTx) r = Ok (l.*1, r') /\ is_bytes r' /\ Forall (locates b) l /\
  exists mid, r = mid ++ r'.
Proof.
  revert pre r l. induction n as [|n IH]; intros pre r l Hb Hr H; cbn [read_n] in *.
  { unfold mret, reader_ret in *. apply Ok_inj in H. injection H as <- <-.
    split_and!; [done|done|constructor|by exists []]. }
  apply reader_bind_Ok in H as ([tx loc] & r1 & H1 & H). apply reader_bind_Ok in H as (l1 & r2 & H2 & H).
  unfold mret, reader_ret in H. apply Ok_inj in H. injection H as <- <-.
  destruct (locatedTx_Ok _ _ _ _ _ _ Hb Hr H1) as (Hd & Hr1 & Hl & mid & ->).
  destruct (IH (pre ++ mid) r1 l1) as (Hd2 & Hr2 & Hl2 & mid2 & ->); [by rewrite <- app_assoc|done..|].
  split_and!; [|done|by constructor|exists (mid ++ mid2); by rewrite <- app_assoc].
  unfold mbind, reader_bind. rewrite Hd. cbn. by rewrite Hd2.
Qed.

Lemma DeserializeTxLoc_Ok b msg locs slocs rest : is_bytes b ->
  DeserializeTxLoc b = Ok ((msg, locs, slocs), rest) ->
  block_Deserialize b = Ok (msg, rest) /\
  Forall2 (fun tx loc => locates b (tx, loc)) (Transactions msg) locs /\
  Forall2 (fun tx loc => locates b (tx, loc)) (STransactions msg) slocs.
Proof.
  assert (Hzip : forall l, Forall (locates b) l -> Forall2 (fun tx loc => locates b (tx, loc)) l.*1 l.*2).
  { induction 1 as [|[] l ? _ IH]; cbn; constructor; done. }
  intros Hb H. unfold DeserializeTxLoc in H. unfold Len at 1 in H. unfold mbind at 1, reader_bind at 1 in H.
  cbn [mbind res_bind] in H. apply reader_bind_Ok in H as (h & r & Hh & H).
  pose proof Hh as Hh'. apply strict_header in Hh' as (Eb & _ & Hr); [|done].
  apply reader_bind_Ok in H as (n & r1 & Hn & H). pose proof Hn as Hn'.
  apply strict_VarInt in Hn' as (Er & _ & Hr1); [|done]. destruct (n >? _) eqn:En; [done|].
  apply reader_bind_Ok in H as (txs & r2 & Ht & H).
  eapply (located_n b _ (writeBlockHeader h ++ WriteVarInt n)) in Ht as (Ht & Hr2 & Hlt & mid & Er1);
    [|by rewrite Eb, Er, app_assoc|done].
  apply reader_bind_Ok in H as (m & r3 & Hm & H). pose proof Hm as Hm'.
  apply strict_VarInt in Hm' as (Er2 & _ & Hr3); [|done]. destruct (m >? _) eqn:Em; [done|].
  apply reader_bind_Ok in H as (stxs & r4 & Hs & H).
  eapply (located_n b _ (writeBlockHeader h ++ WriteVarInt n ++ mid ++ WriteVarInt m)) in Hs as (Hs & _ & Hls & _);
    [|by rewrite Eb, Er, Er1, Er2, <- !app_assoc|done].
  unfold mret, reader_ret in H. apply Ok_inj in H. injection H as <- <- <- <-.
  split; [|by split; apply Hzip]. unfold block_Deserialize, block_BtcDecode.
  unfold mbind, reader_bind. rewrite Hh. cbn [mbind res_bind]. rewrite Hn. cbn [mbind res_bind].
  change (MaxTxPerTxTree 0) with (MaxTxPerTxTree ProtocolVersion). rewrite En, Ht. cbn [mbind res_bind].
  rewrite Hm. cbn [mbind res_bind]. by rewrite Em, Hs.
Qed.

(** ** The theorem *)

(** Blocks are read back from their serialization.  Decoding a byte string gives the
    block [msg] and leaves [rest] if and only if the header and every transaction of both
    trees are well formed, neither tree has more transactions than fit in a block, and the
    byte string is the encoding of [msg] followed by [rest]; the encoding has the length
    that SerializeSize predicts.  When DeserializeTxLoc succeeds it returns the same block,
    and each location covers exactly the encoding of its transaction in the buffer. *)
Theorem block_roundtrip (pver : Z) (msg : MsgBlock) (b rest : bytes) :
  is_bytes b ->
  (block_BtcDecode pver b = Ok (msg, rest) <->
   block_ok msg /\ is_bytes rest /\ exists e, block_BtcEncode msg = Ok e /\ b = e ++ rest) /\
  (block_ok msg -> exists e, block_BtcEncode msg = Ok e /\ Z.of_nat (length e) = block_SerializeSize msg) /\
  (forall locs slocs, DeserializeTxLoc b = Ok ((msg, locs, slocs), rest) ->
   block_Deserialize b = Ok (msg, rest) /\
   Forall2 (fun tx loc => locates b (tx, loc)) (Transactions msg) locs /\
   Forall2 (fun tx loc => locates b (tx, loc)) (STransactions msg) slocs).
Proof.
  intros Hb. split_and!.
  - split; [by apply strict_block|]. intros (Hok & Hr & e & He & ->). by apply decodes_block.
  - intros Hok. pose proof (block_encode_Ok msg Hok) as He. eexists. split; [exact He|by apply block_encoded_size].
  - intros locs slocs. by apply DeserializeTxLoc_Ok.
Qed.

Definition sample_block : MsgBlock := MkBlock sample_header [sample_tx; sample_tx] [sample_tx].

Lemma sample_block_ok : block_ok sample_block.
Proof.
  assert (Ht : block_tx_ok sample_tx) by (split; [apply sample_tx_ok|reflexivity]).
  assert (H1 : Forall block_tx_ok [sample_tx]) by (apply Forall_cons_2; [exact Ht|constructor]).
  split; [apply sample_header_ok|].
  split_and!; [by vm_compute|apply Forall_cons_2; [exact Ht|exact H1]|by vm_compute|exact H1].
Qed.

Lemma block_roundtrip_witness : exists e, block_BtcEncode sample_block = Ok e /\
  block_BtcDecode 1 (e ++ [7]) = Ok (sample_block, [7]).
Proof.
  assert (H1 : is_bytes []) by constructor.
  destruct (block_roundtrip 1 sample_block [] [] H1) as (_ & H & _).
  destruct (H sample_block_ok) as (e & He & _). exists e. split; [exact He|].
  apply decodes_block; [apply sample_block_ok|exact He].
Defined.
