(* ===== verification/Merkle.v ===== *)
(** * Merkle trees over the transactions of a block

    [blockchain/merkle.go]: the tree kept in a linear array, the two ways its leaves are
    filled (with and without the hash carried by the coinbase of a micro block in front), and a
    recursive reference tree.  A nil pointer of the array is [None]; a store outside the
    array panics.  [chainhash.HashH] is a parameter, and the binding theorem produces an
    explicit collision of it instead of assuming that it has none. *)

From S2P Require Import Prelude WireCommon MsgTx.
From stdpp Require Import list.
#[local] Open Scope Z_scope.

Definition HashSize : nat := 32.

(** [math.Log2] is exact in its integer part for every slice length below [2^48]; the
    conversion to [uint] truncates. *)
Definition nextPowerOfTwo (n : Z) : Z :=
  if Z.land n (n - 1) =? 0 then n
  else
    let exponent := Z.log2 n + 1 in
    Z.shiftl 1 exponent.

Section merkle.
Context (HashH : bytes -> bytes).

Definition HashMerkleBranches (l r : bytes) : bytes := HashH (l ++ r).

(** The body of the loop that computes the parents, for the node pair at [i]. *)
Definition parentStep (st : list (option bytes) * nat) (i : nat) :
    res wireError (list (option bytes) * nat) :=
  let '(merkles, offset) := st in
  l ← or_panic (merkles !! i);
  parent ← match l with
    | None => Ok None
    | Some hl =>
      r ← or_panic (merkles !! S i);
      Ok (Some match r with
        | None => HashMerkleBranches hl hl
        | Some hr => HashMerkleBranches hl hr
        end)
    end;
  merkles' ← assign merkles offset parent;
  Ok (merkles', S offset).

(** The values of [for i := 0; i < bound; i += 2]. *)
Definition evens (bound : nat) : list nat := (fun k => (2 * k)%nat) <$> seq 0 ((bound + 1) / 2).

(** The loop that stores the hashes of the transactions from [offset] on. *)
Fixpoint storeHashes (merkles : list (option bytes)) (offset : nat) (transactions : list MsgTx) :
    res wireError (list (option bytes)) :=
  match transactions with
  | [] => Ok merkles
  | tx :: transactions =>
    txHashFull ← TxHashFull HashH tx;
    merkles' ← assign merkles offset (Some txHashFull);
    storeHashes merkles' (S offset) transactions
  end.

(** The hash that the coinbase of a micro block carries: bytes 6 to 37 of its first script. *)
Definition coinbaseHash (PKScript : bytes) : res wireError bytes :=
  foldM (fun ens i => b ← or_panic (PKScript !! (i + 6)%nat); Ok (ens ++ [b]))
    [] (seq 0 HashSize).

Definition BuildMerkleTreeStore (transactions : list MsgTx) (compressed : bool) :
    res wireError (list (option bytes)) :=
  let offset := if compressed then 1%nat else 0%nat in
  match transactions with
  | [] => Ok [Some (replicate HashSize 0)]
  | tx :: _ =>
    let nextPoT := Z.to_nat (nextPowerOfTwo (Z.of_nat (length transactions + offset))) in
    let arraySize := (nextPoT * 2 - 1)%nat in
    let merkles := replicate arraySize None in
    let fill (merkles : list (option bytes)) : res wireError (list (option bytes)) :=
      merkles' ← storeHashes merkles offset transactions;
      fst <$> foldM parentStep (merkles', nextPoT) (evens (arraySize - 1)) in
    if compressed then
      match tx_TxOut tx with
      | out0 :: _ :: _ =>
        if (length (PkScript out0) <? 36)%nat
        then assign merkles 0 (Some (replicate HashSize 0))
        else ens ← coinbaseHash (PkScript out0); assign merkles 0 (Some ens) ≫= fill
      | _ => assign merkles 0 (Some (replicate HashSize 0))
      end
    else fill merkles
  end.

(** ** The reference tree

    A tree of depth [d] over at most [2^d] leaves; an empty subtree has no hash, and a node
    without a right child hashes its left child with itself. *)

Definition node (l r : option bytes) : option bytes :=
  match l, r with
  | None, _ => None
  | Some a, None => Some (HashMerkleBranches a a)
  | Some a, Some b => Some (HashMerkleBranches a b)
  end.

Fixpoint root (d : nat) (leaves : list bytes) : option bytes :=
  match d with
  | O => head leaves
  | S d => node (root d (take (2 ^ d) leaves)) (root d (drop (2 ^ d) leaves))
  end.

(** The same tree level by level, the leaves first: what the array holds. *)
Fixpoint pairUp (l : list (option bytes)) : list (option bytes) :=
  match l with
  | a :: b :: l => node a b :: pairUp l
  | _ => []
  end.

Fixpoint levels (d : nat) (l : list (option bytes)) : list (option bytes) :=
  match d with
  | O => l
  | S d => l ++ levels d (pairUp l)
  end.

(** The leaf slots of a tree of depth [d]. *)
Definition slots (d : nat) (leaves : list bytes) : list (option bytes) :=
  (Some <$> leaves) ++ replicate (2 ^ d - length leaves) None.

End merkle.

(** The leaves that a tree of depth [d] really hashes, with its duplications. *)
Fixpoint expand (d : nat) (leaves : list bytes) : list bytes :=
  match d with
  | O => leaves
  | S d =>
    let l := expand d (take (2 ^ d) leaves) in
    match drop (2 ^ d) leaves with
    | [] => l ++ l
    | rest => l ++ expand d rest
    end
  end.

(** ** The power of two *)

Lemma nextPowerOfTwo_spec n : 0 < n -> exists d : nat,
  nextPowerOfTwo n = 2 ^ Z.of_nat d /\ n <= 2 ^ Z.of_nat d < 2 * n.
Proof.
  intros Hn. unfold nextPowerOfTwo. pose proof (Z.log2_spec n Hn) as [Hlo Hhi].
  pose proof (Z.log2_nonneg n) as H0. rewrite Z.pow_succ_r in Hhi by done.
  destruct (Z.eqb_spec (Z.land n (n - 1)) 0) as [Hz|Hz].
  - exists (Z.to_nat (Z.log2 n)). rewrite Z2Nat.id by done.
    destruct (decide (n = 2 ^ Z.log2 n)) as [Heq|Hne]; [lia|]. exfalso.
    (* the top bit survives in [n - 1] *)
    assert (Hb : Z.testbit (Z.land n (n - 1)) (Z.log2 n) = true).
    { rewrite Z.land_spec, Z.bit_log2 by done. cbn.
      assert (Z.log2 (n - 1) = Z.log2 n) as <- by (apply Z.log2_unique; [lia|rewrite Z.pow_succ_r; lia]).
      apply Z.bit_log2. pose proof (Z.pow_pos_nonneg 2 (Z.log2 n)). lia. }
    rewrite Hz, Z.bits_0 in Hb. done.
  - exists (Z.to_nat (Z.log2 n + 1)). rewrite Z2Nat.id by lia.
    rewrite Z.shiftl_1_l, Z.pow_add_r by lia. change (2 ^ 1) with 2.
    split; [done|]. split; [lia|].
    enough (n <> 2 ^ Z.log2 n) by lia. intros Heq. apply Hz.
    replace (n - 1) with (Z.ones (Z.log2 n)) by (rewrite Z.ones_equiv; lia).
    rewrite Z.land_ones by done. rewrite Heq at 1.
    apply Z.mod_same. pose proof (Z.pow_pos_nonneg 2 (Z.log2 n)). lia.
Qed.

(** No smaller power of two has room. *)
Lemma smallest_depth n d : nextPowerOfTwo (Z.of_nat n) = 2 ^ Z.of_nat d -> forall d', (n <= 2 ^ d')%nat -> (d <= d')%nat.
Proof.
  intros Hd d' Hle. destruct (Nat.eq_dec n 0%nat) as [->|Hn].
  { change (0 = 2 ^ Z.of_nat d) in Hd. pose proof (Z.pow_pos_nonneg 2 (Z.of_nat d)). lia. }
  destruct (nextPowerOfTwo_spec (Z.of_nat n)) as (d0 & He & Hb); [lia|].
  rewrite He in Hd. rewrite Hd in Hb. apply Nat2Z.inj_le in Hle. rewrite Nat2Z.inj_pow in Hle.
  assert (2 ^ Z.of_nat d < 2 ^ (Z.of_nat d' + 1)) as Hlt%Z.pow_lt_mono_r_iff by (rewrite Z.pow_add_r by lia; lia); lia.
Qed.

(** ** Levels *)

Section levels.
Context (HashH : bytes -> bytes).
#[local] Notation node := (node HashH).
#[local] Notation pairUp := (pairUp HashH).
#[local] Notation levels := (levels HashH).
#[local] Notation root := (root HashH).

Lemma length_pairUp n l : length l = (2 * n)%nat -> length (pairUp l) = n.
Proof.
  revert l. induction n as [|n IH]; intros [|a [|b l]] H; cbn in *; try lia.
  f_equal. apply IH. lia.
Qed.

Lemma pairUp_lookup k l a b :
  l !! (2 * k)%nat = Some a -> l !! S (2 * k) = Some b -> pairUp l !! k = Some (node a b).
Proof.
  revert l. induction k as [|k IH]; intros [|x [|y l]] Ha Hb; cbn in Ha, Hb; simplify_eq; try done.
  replace (k + S (k + 0))%nat with (S (2 * k)) in * by lia. by apply IH.
Qed.

Lemma pairUp_take n l : pairUp (take (2 * n) l) = take n (pairUp l).
Proof.
  revert l. induction n as [|n IH]; intros l; [done|].
  replace (2 * S n)%nat with (S (S (2 * n))) by lia.
  destruct l as [|a [|b l]]; [done..|]. cbn -[Nat.mul]. by rewrite IH.
Qed.

Lemma pairUp_drop n l : pairUp (drop (2 * n) l) = drop n (pairUp l).
Proof.
  revert l. induction n as [|n IH]; intros l; [done|].
  replace (2 * S n)%nat with (S (S (2 * n))) by lia.
  destruct l as [|a [|b l]]; cbn -[Nat.mul]; [done| |apply IH]. by destruct (2 * n)%nat.
Qed.

Lemma pow2_pos d : (0 < 2 ^ d)%nat.
Proof. apply Nat.neq_0_lt_0, Nat.pow_nonzero. done. Qed.

Lemma length_levels d l : length l = (2 ^ d)%nat -> length (levels d l) = (2 * 2 ^ d - 1)%nat.
Proof.
  revert l. induction d as [|d IH]; intros l H; [cbn in *; lia|].
  pose proof (pow2_pos d). cbn in *. rewrite length_app, IH by (apply length_pairUp; lia). lia.
Qed.

Lemma levels_leaf d l k x : l !! k = Some x -> levels d l !! k = Some x.
Proof. destruct d; [done|]. apply lookup_app_l_Some. Qed.

(** Every node above the leaves is the parent of the pair that the loop reads. *)
Lemma levels_parent d l k : length l = (2 ^ d)%nat -> (k < 2 ^ d - 1)%nat ->
  exists a b, levels d l !! (2 * k)%nat = Some a /\ levels d l !! S (2 * k) = Some b /\
    levels d l !! (2 ^ d + k)%nat = Some (node a b).
Proof.
  revert l k. induction d as [|d IH]; intros l k Hl Hk; [cbn in Hk; lia|].
  assert (Hp : length (pairUp l) = (2 ^ d)%nat) by (apply length_pairUp; rewrite Hl; cbn; lia).
  cbn [levels]. rewrite <- Hl, (lookup_app_r l _ (length l + k)) by lia.
  replace (length l + k - length l)%nat with k by lia.
  destruct (Nat.lt_ge_cases k (2 ^ d)) as [Hlt|Hge].
  - assert (2 * k < length l /\ S (2 * k) < length l)%nat as [H0 H1] by (rewrite Nat.pow_succ_r' in Hl; lia).
    apply lookup_lt_is_Some in H0 as [a Ha], H1 as [b Hb]. exists a, b.
    split; [by apply lookup_app_l_Some|]. split; [by apply lookup_app_l_Some|].
    by apply levels_leaf, pairUp_lookup.
  - destruct (IH (pairUp l) (k - 2 ^ d)%nat Hp) as (a & b & Ha & Hb & Hn); [rewrite Nat.pow_succ_r' in Hk; lia|].
    exists a, b. rewrite !lookup_app_r by (rewrite Nat.pow_succ_r' in Hl; lia).
    replace (2 * k - length l)%nat with (2 * (k - 2 ^ d))%nat by (rewrite Nat.pow_succ_r' in Hl; lia).
    replace (S (2 * k) - length l)%nat with (S (2 * (k - 2 ^ d)))%nat by (rewrite Nat.pow_succ_r' in Hl; lia).
    replace (2 ^ d + (k - 2 ^ d))%nat with k in Hn by lia. done.
Qed.

(** *** The last level is the root *)

Fixpoint slotRoot (d : nat) (l : list (option bytes)) : option bytes :=
  match d with
  | O => mjoin (head l)
  | S d => node (slotRoot d (take (2 ^ d) l)) (slotRoot d (drop (2 ^ d) l))
  end.

Lemma slotRoot_pairUp d l : length l = (2 ^ S d)%nat -> slotRoot d (pairUp l) = slotRoot (S d) l.
Proof.
  revert l. induction d as [|d IH]; intros l Hl.
  { destruct l as [|a [|b [|]]]; cbn in *; try lia. done. }
  cbn [slotRoot]. rewrite <- pairUp_take, <- pairUp_drop.
  assert (2 ^ S d = 2 * 2 ^ d)%nat as E by done.
  rewrite !IH by (rewrite ?length_take, ?length_drop, Hl; cbn; lia).
  by rewrite <- E.
Qed.

Lemma last_levels d l : length l = (2 ^ d)%nat -> last (levels d l) = Some (slotRoot d l).
Proof.
  revert l. induction d as [|d IH]; intros l Hl.
  { destruct l as [|a [|]]; cbn in *; try lia. done. }
  assert (Hp : length (pairUp l) = (2 ^ d)%nat) by (apply length_pairUp; rewrite Hl; cbn; lia).
  cbn [levels]. rewrite last_app, IH, slotRoot_pairUp by done. done.
Qed.

Lemma take_slots n d l : (2 ^ d <= n)%nat ->
  take (2 ^ d) ((Some <$> l) ++ replicate (n - length l) (None (A := bytes))) = slots d (take (2 ^ d) l).
Proof.
  intros H. unfold slots. rewrite take_app, take_replicate, length_fmap, length_take, fmap_take.
  do 2 f_equal. lia.
Qed.

Lemma drop_slots d l :
  drop (2 ^ d) ((Some <$> l) ++ replicate (2 ^ S d - length l) (None (A := bytes))) =
  slots d (drop (2 ^ d) l).
Proof.
  unfold slots. rewrite drop_app, drop_replicate, length_fmap, length_drop, fmap_drop.
  do 2 f_equal. cbn. lia.
Qed.

Lemma slotRoot_slots d l : (length l <= 2 ^ d)%nat -> slotRoot d (slots d l) = root d l.
Proof.
  revert l. induction d as [|d IH]; intros l Hl.
  { destruct l as [|a [|]]; cbn in *; try lia; done. }
  cbn [slotRoot root]. unfold slots at 1 2. rewrite take_slots, drop_slots by (cbn; lia).
  rewrite !IH; [done| |]; rewrite ?length_take, ?length_drop; cbn in Hl; lia.
Qed.

End levels.

(** ** The loops *)

Section loops.
Context (HashH : bytes -> bytes).

Lemma storeHashes_spec txs hs pre n :
  Forall2 (fun tx h => TxHashFull HashH tx = Ok h) txs hs -> (length hs <= n)%nat ->
  storeHashes HashH (pre ++ replicate n None) (length pre) txs =
    Ok (pre ++ (Some <$> hs) ++ replicate (n - length hs) None).
Proof.
  intros H. revert pre n. induction H as [|tx h txs hs Hh _ IH]; intros pre n Hn; cbn -[assign TxHashFull].
  { by rewrite Nat.sub_0_r. }
  destruct n as [|n]; cbn in Hn; [lia|]. rewrite Hh. cbn -[assign TxHashFull]. rewrite assign_middle. cbn -[TxHashFull].
  specialize (IH (pre ++ [Some h]) n ltac:(lia)). rewrite length_app, Nat.add_comm, <- !app_assoc in IH.
  exact IH.
Qed.

Lemma evens_spec N : (0 < N)%nat -> evens (N * 2 - 1 - 1) = (fun k => (2 * k)%nat) <$> seq 0 (N - 1).
Proof.
  intros H. unfold evens. do 2 f_equal. symmetry. apply Nat.div_unique with (r := 1%nat); lia.
Qed.

(** The array after [k] steps: the leaves and [k] parents of the level list. *)
Definition filled (d : nat) (l : list (option bytes)) (k : nat) : list (option bytes) :=
  take (2 ^ d + k) (levels HashH d l) ++ replicate (2 ^ d - 1 - k) None.

Lemma parentStep_spec d l k : length l = (2 ^ d)%nat -> (k < 2 ^ d - 1)%nat ->
  parentStep HashH (filled d l k, (2 ^ d + k)%nat) (2 * k) = Ok (filled d l (S k), S (2 ^ d + k)).
Proof.
  intros Hl Hk. destruct (levels_parent HashH d l k Hl Hk) as (a & b & Ha & Hb & Hn).
  pose proof (length_levels HashH d l Hl) as HL. unfold parentStep.
  assert (Hget : forall i x, levels HashH d l !! i = Some x -> (i < 2 ^ d + k)%nat -> filled d l k !! i = Some x).
  { intros i x Hx Hi. unfold filled. rewrite lookup_app_l by (rewrite length_take; lia).
    by rewrite lookup_take_lt. }
  rewrite (Hget _ _ Ha), (Hget _ _ Hb) by lia. cbn -[assign Nat.mul Nat.pow].
  set (parent := match a with None => _ | Some _ => _ end).
  assert (Hp : parent = Ok (node HashH a b)) by (by destruct a, b).
  rewrite Hp. cbn -[assign Nat.mul Nat.pow]. unfold filled at 1.
  replace (2 ^ d - 1 - k)%nat with (S (2 ^ d - 1 - S k)) by lia. cbn [replicate].
  assert (Hlen : length (take (2 ^ d + k) (levels HashH d l)) = (2 ^ d + k)%nat)
    by (rewrite length_take; lia).
  rewrite <- Hlen at 2. rewrite assign_middle. cbn -[Nat.pow Nat.add]. do 2 f_equal.
  unfold filled. rewrite Nat.add_succ_r, (take_S_r _ _ _ Hn), <- app_assoc. done.
Qed.

Lemma parents_spec d l m k : length l = (2 ^ d)%nat -> (k + m = 2 ^ d - 1)%nat ->
  foldM (parentStep HashH) (filled d l k, (2 ^ d + k)%nat) ((fun k => (2 * k)%nat) <$> seq k m) =
    Ok (levels HashH d l, (2 ^ d + 2 ^ d - 1)%nat).
Proof.
  intros Hl. revert k. induction m as [|m IH]; intros k Hk; pose proof (pow2_pos d).
  - cbn [foldM seq fmap list_fmap]. unfold filled. replace (2 ^ d - 1 - k)%nat with 0%nat by lia.
    rewrite app_nil_r, take_ge by (rewrite length_levels by done; lia). do 2 f_equal. lia.
  - cbn [seq fmap list_fmap foldM]. rewrite parentStep_spec by (done || lia).
    cbn -[Nat.mul Nat.pow Nat.add]. rewrite <- Nat.add_succ_r. apply IH. lia.
Qed.

Lemma fill_spec d txs pre hs :
  Forall2 (fun tx h => TxHashFull HashH tx = Ok h) txs hs -> (length (pre ++ hs) <= 2 ^ d)%nat ->
  (merkles ← storeHashes HashH ((Some <$> pre) ++ replicate (2 ^ d * 2 - 1 - length pre) None) (length pre) txs;
   fst <$> foldM (parentStep HashH) (merkles, (2 ^ d)%nat) (evens (2 ^ d * 2 - 1 - 1))) =
  Ok (levels HashH d (slots d (pre ++ hs))).
Proof.
  intros H Hlen. pose proof (pow2_pos d) as Hp. rewrite length_app in Hlen.
  assert (Hsl : length (slots d (pre ++ hs)) = (2 ^ d)%nat).
  { unfold slots. rewrite length_app, length_fmap, length_replicate, length_app. lia. }
  rewrite <- (length_fmap Some pre) at 2. rewrite (storeHashes_spec _ _ _ _ H) by lia. cbn [mbind res_bind].
  assert ((Some <$> pre) ++ (Some <$> hs) ++ replicate (2 ^ d * 2 - 1 - length pre - length hs) None =
          filled d (slots d (pre ++ hs)) 0) as ->.
  { unfold filled. rewrite Nat.add_0_r, Nat.sub_0_r.
    assert (take (2 ^ d) (levels HashH d (slots d (pre ++ hs))) = slots d (pre ++ hs)) as ->.
    { destruct d; [by apply take_ge; rewrite Hsl|]. cbn [levels]. by rewrite take_app_length'. }
    unfold slots. rewrite fmap_app, <- !app_assoc, <- replicate_add, length_app. do 3 f_equal. lia. }
  rewrite evens_spec by done. pose proof (parents_spec d (slots d (pre ++ hs)) (2 ^ d - 1) 0 Hsl eq_refl) as Hf.
  rewrite Nat.add_0_r in Hf. by rewrite Hf.
Qed.

Lemma coinbaseHash_spec s : (38 <= length s)%nat -> coinbaseHash s = Ok (take 32 (drop 6 s)).
Proof.
  intros H. do 38 (destruct s as [|? s]; [cbn in H; lia|]). reflexivity.
Qed.

Lemma coinbaseHash_short s : (length s < 38)%nat -> coinbaseHash s = Panic.
Proof.
  intros H. do 38 (destruct s as [|? s]; [reflexivity|]). cbn in H. lia.
Qed.

End loops.

(** ** The hash of a whole transaction *)

(** Two inputs of the hash function with one output. *)
Definition collision (HashH : bytes -> bytes) : Prop := exists x y, x <> y /\ HashH x = HashH y.

(** A transaction message as it is sent: every field fits its type. *)
Definition full_ok (m : MsgTx) : Prop := SerType m = TxSerializeFull /\ tx_ok m.

(** Equal up to the cached hash, which is not part of the message. *)
Definition same_tx (m1 m2 : MsgTx) : Prop :=
  MkMsgTx None (SerType m1) (tx_Version m1) (tx_TxIn m1) (tx_TxOut m1) (LockTime m1) (Expiry m1) =
  MkMsgTx None (SerType m2) (tx_Version m2) (tx_TxIn m2) (tx_TxOut m2) (LockTime m2) (Expiry m2).

Section fullhash.
Context (HashH : bytes -> bytes).

Lemma hash_inj x y : HashH x = HashH y -> x = y \/ collision HashH.
Proof. intros H. destruct (decide (x = y)); [by left|right; by exists x, y]. Qed.

Lemma witness_bytes_same m1 m2 :
  is_u16 (tx_Version m1) -> is_u16 (tx_Version m2) -> inputs_ok witness_ok m1 -> inputs_ok witness_ok m2 ->
  mustSerialize m1 TxSerializeOnlyWitness = mustSerialize m2 TxSerializeOnlyWitness ->
  witness_of <$> tx_TxIn m1 = witness_of <$> tx_TxIn m2.
Proof.
  intros Hv1 Hv2 H1 H2 H.
  destruct (decodes_tx (with_sertype m1 TxSerializeOnlyWitness) NewMsgTx) as (e1 & He1 & Hd1); [done|].
  destruct (decodes_tx (with_sertype m2 TxSerializeOnlyWitness) NewMsgTx) as (e2 & He2 & Hd2); [done|].
  unfold mustSerialize, serialize, Serialize in H. rewrite He1, He2 in H. simplify_eq.
  specialize (Hd1 []). specialize (Hd2 []). rewrite Hd1 in Hd2.
  unfold decoded in *. destruct m1, m2. cbn in *. by simplify_eq.
Qed.

Lemma txin_parts (l1 l2 : list TxIn) :
  prefix_of <$> l1 = prefix_of <$> l2 -> witness_of <$> l1 = witness_of <$> l2 -> l1 = l2.
Proof.
  revert l2. induction l1 as [|i1 l1 IH]; intros [|i2 l2] Hp Hw; try done.
  destruct i1, i2. cbn in *. injection Hp as ? ? Hp. injection Hw as ? ? ? ? Hw.
  f_equal; [congruence|auto].
Qed.

Context (hash_32 : forall b, length (HashH b) = 32%nat).

Lemma hash_of_Ok m t h : hash_of HashH m t = Ok h -> exists b, mustSerialize m t = Ok b /\ h = HashH b.
Proof. unfold hash_of. intros H. inv_res. eauto. Qed.

Lemma TxHashFull_32 tx h : TxHashFull HashH tx = Ok h -> length h = 32%nat.
Proof. intros H. unfold TxHashFull in H. inv_res. apply hash_32. Qed.

Lemma TxHashFull_inj m1 m2 h : full_ok m1 -> full_ok m2 ->
  TxHashFull HashH m1 = Ok h -> TxHashFull HashH m2 = Ok h -> same_tx m1 m2 \/ collision HashH.
Proof.
  intros [S1 [V1 O1]] [S2 [V2 O2]] H1 H2. unfold TxHashFull in *.
  apply bind_Ok in H1 as (p1 & P1 & H1), H2 as (p2 & P2 & H2).
  apply bind_Ok in H1 as (w1 & W1 & [= <-]), H2 as (w2 & W2 & [= H]).
  unfold TxHash, TxHashWitness in *. apply hash_of_Ok in P1 as (bp1 & P1 & ->), P2 as (bp2 & P2 & ->).
  apply hash_of_Ok in W1 as (bw1 & W1 & ->), W2 as (bw2 & W2 & ->).
  apply hash_inj in H as [H|?]; [|by right]. apply app_inj_1 in H as [Hp Hw]; [|by rewrite !hash_32].
  apply hash_inj in Hp as [->|?]; [|by right]. apply hash_inj in Hw as [->|?]; [|by right]. left.
  rewrite S1 in O1. rewrite S2 in O2. cbn in O1, O2. destruct O1 as (_ & O1 & I1), O2 as (_ & O2 & I2).
  destruct (prefix_bytes_same m1 m2) as (Ev & Ei & Eo & El & Ee); [done..|congruence|].
  pose proof (witness_bytes_same m1 m2 V1 V2 I1 I2 ltac:(congruence)) as Ew.
  unfold same_tx. rewrite S1, S2, Ev, Eo, El, Ee. by rewrite (txin_parts _ _ Ei Ew).
Qed.

End fullhash.

#[local] Opaque coinbaseHash TxHashFull.

(** ** What the root commits to *)

(** The leaf hashes of a block. *)
Definition leavesOf (HashH : bytes -> bytes) (compressed : bool) (txs : list MsgTx) : res wireError (list bytes) :=
  hs ← foldM (fun hs tx => h ← TxHashFull HashH tx; Ok (hs ++ [h])) [] txs;
  if compressed then
    match txs with
    | tx :: _ =>
      match tx_TxOut tx with
      | out0 :: _ :: _ => ens ← coinbaseHash (PkScript out0); Ok (ens :: hs)
      | _ => Panic
      end
    | [] => Panic
    end
  else Ok hs.

Section commits.
Context (HashH : bytes -> bytes).
#[local] Notation root := (root HashH).

Lemma hashes_Forall2 txs hs acc :
  foldM (fun hs tx => h ← TxHashFull HashH tx; Ok (hs ++ [h])) acc txs = Ok hs ->
  exists hs', hs = acc ++ hs' /\ Forall2 (fun tx h => TxHashFull HashH tx = Ok h) txs hs'.
Proof.
  revert acc. induction txs as [|tx txs IH]; intros acc H; cbn -[TxHashFull] in H.
  { inv_res. exists []. by rewrite app_nil_r. }
  inv_res. destruct (IH _ ltac:(eassumption)) as (hs' & -> & Hf).
  eexists (_ :: hs'). rewrite <- app_assoc. split; [done|]. by constructor.
Qed.

Lemma leavesOf_length compressed txs leaves : leavesOf HashH compressed txs = Ok leaves ->
  length leaves = (length txs + if compressed then 1 else 0)%nat.
Proof.
  intros H. unfold leavesOf in H. apply bind_Ok in H as (hs & Hh & H).
  apply hashes_Forall2 in Hh as (hs' & -> & Hf%Forall2_length). cbn in H.
  destruct compressed; [|inv_res; lia].
  destruct txs as [|tx txs]; [done|]. destruct (tx_TxOut tx) as [|? [|? ?]]; try done.
  inv_res. cbn in *. lia.
Qed.

(** Whatever the leaves are, the array holds the level list of the reference tree. *)
Lemma BuildMerkleTreeStore_spec compressed txs leaves : txs <> [] ->
  leavesOf HashH compressed txs = Ok leaves ->
  exists d, nextPowerOfTwo (Z.of_nat (length leaves)) = 2 ^ Z.of_nat d /\ (0 < length leaves <= 2 ^ d)%nat /\
    BuildMerkleTreeStore HashH txs compressed = Ok (levels HashH d (slots d leaves)).
Proof.
  intros Hne H. pose proof (leavesOf_length _ _ _ H) as Hlen.
  assert (0 < length leaves)%nat by (destruct txs; [done|]; cbn in Hlen; lia).
  destruct (nextPowerOfTwo_spec (Z.of_nat (length leaves))) as (d & Hd & Hb); [lia|].
  exists d. split; [done|]. assert (Hd' : Z.to_nat (2 ^ Z.of_nat d) = (2 ^ d)%nat)
    by (rewrite <- Nat2Z.inj_pow with (n := 2%nat); apply Nat2Z.id).
  split; [apply (f_equal Z.of_nat) in Hd'; lia|].
  unfold leavesOf in H. apply bind_Ok in H as (hs & Hh & H).
  apply hashes_Forall2 in Hh as (hs' & -> & Hf). cbn in H.
  destruct txs as [|tx txs]; [done|]. unfold BuildMerkleTreeStore. rewrite <- Hlen, Hd, Hd'.
  destruct compressed.
  - destruct (tx_TxOut tx) as [|out0 [|? ?]]; try done. apply bind_Ok in H as (ens & He & H). inv_res.
    destruct (Nat.lt_ge_cases (length (PkScript out0)) 38) as [Hs|Hs]; [rewrite coinbaseHash_short in He; done|].
    destruct (Nat.ltb_spec (length (PkScript out0)) 36); [lia|]. rewrite He. cbn [mbind res_bind].
    pose proof (fill_spec HashH d (tx :: txs) [ens] hs' Hf ltac:(cbn in *; apply (f_equal Z.of_nat) in Hd'; lia)) as Hfill.
    pose proof (pow2_pos d). destruct (2 ^ d * 2 - 1)%nat as [|n] eqn:En; [lia|]. cbn [replicate].
    change (assign (None :: replicate n None) 0 (Some ens)) with (Ok (E := wireError) (Some ens :: replicate n None)).
    cbn [app mbind res_bind].
    cbn [length fmap list_fmap app] in Hfill. rewrite Nat.sub_succ, Nat.sub_0_r in Hfill.
    rewrite Nat.sub_succ, Nat.sub_0_r. exact Hfill.
  - injection H as <-. pose proof (fill_spec HashH d (tx :: txs) [] hs' Hf ltac:(cbn in *; apply (f_equal Z.of_nat) in Hd'; lia)) as Hfill.
    cbn [length fmap list_fmap app] in Hfill. rewrite Nat.sub_0_r in Hfill. exact Hfill.
Qed.

Lemma leavesOf_tail compressed txs leaves : leavesOf HashH compressed txs = Ok leaves ->
  exists hs, Forall2 (fun tx h => TxHashFull HashH tx = Ok h) txs hs /\
    hs = (if compressed then tail leaves else leaves).
Proof.
  intros H. unfold leavesOf in H. apply bind_Ok in H as (hs & Hh & H).
  apply hashes_Forall2 in Hh as (hs' & -> & Hf). exists hs'. split; [done|]. cbn in H.
  destruct compressed; [|by injection H].
  destruct txs as [|tx txs]; [done|]. destruct (tx_TxOut tx) as [|? [|? ?]]; try done.
  by apply bind_Ok in H as (? & _ & [= <-]).
Qed.

Lemma stored_root compressed txs leaves store : txs <> [] ->
  leavesOf HashH compressed txs = Ok leaves -> BuildMerkleTreeStore HashH txs compressed = Ok store ->
  exists d, nextPowerOfTwo (Z.of_nat (length leaves)) = 2 ^ Z.of_nat d /\ (0 < length leaves <= 2 ^ d)%nat /\
    last store = Some (root d leaves).
Proof.
  intros Hne H Hs. destruct (BuildMerkleTreeStore_spec compressed txs leaves Hne H) as (d & Hd & Hl & Hb).
  exists d. rewrite Hb in Hs. injection Hs as <-. split_and!; [done|lia|lia|].
  rewrite last_levels, slotRoot_slots; [done|lia|].
  unfold slots. rewrite length_app, length_fmap, length_replicate. lia.
Qed.

(** *** Duplication *)

Lemma drop_nonempty d (l : list bytes) : (length l <= 2 ^ S d)%nat ->
  (drop (2 ^ d) l = [] /\ take (2 ^ d) l = l) \/
  ((0 < length (drop (2 ^ d) l) <= 2 ^ d)%nat /\ length (take (2 ^ d) l) = (2 ^ d)%nat).
Proof.
  intros Hl. rewrite Nat.pow_succ_r' in Hl. rewrite length_drop, length_take.
  destruct (Nat.le_gt_cases (length l) (2 ^ d)); [left|right; lia].
  split; [by apply drop_ge|by apply take_ge].
Qed.

Lemma expand_S d l : expand (S d) l =
  expand d (take (2 ^ d) l) ++ expand d (match drop (2 ^ d) l with [] => take (2 ^ d) l | r => r end).
Proof. cbn. by destruct (drop (2 ^ d) l). Qed.

Lemma length_expand d l : (0 < length l <= 2 ^ d)%nat -> length (expand d l) = (2 ^ d)%nat.
Proof.
  revert l. induction d as [|d IH]; intros l Hl; [cbn in *; lia|]. pose proof (pow2_pos d).
  rewrite expand_S, length_app, !IH; [cbn; lia| |].
  - destruct (drop_nonempty d l) as [[Hd ->]|[? ?]]; [lia| |destruct (drop _ l); cbn in *; lia].
    apply (f_equal length) in Hd as Hd'. rewrite length_drop in Hd'. rewrite Hd. cbn in Hd'. lia.
  - rewrite length_take. lia.
Qed.

Lemma root_nil d : root d [] = None.
Proof. induction d as [|d IH]; [done|]. cbn. rewrite take_nil, drop_nil, IH. done. Qed.

Lemma root_Some d l : (0 < length l <= 2 ^ d)%nat -> exists r, root d l = Some r.
Proof.
  revert l. induction d as [|d IH]; intros l Hl.
  { destruct l; cbn in *; [lia|eauto]. }
  pose proof (pow2_pos d). destruct (IH (take (2 ^ d) l)) as [r Hr]; [rewrite length_take; lia|].
  cbn. rewrite Hr. destruct (root d (drop _ _)); eauto.
Qed.

(** The root of a list is the root of the full list with its duplications. *)
Lemma root_expand d l : (0 < length l <= 2 ^ d)%nat -> root d (expand d l) = root d l.
Proof.
  revert l. induction d as [|d IH]; intros l Hl; [done|]. pose proof (pow2_pos d).
  assert (Ht : (0 < length (take (2 ^ d) l) <= 2 ^ d)%nat) by (rewrite length_take; lia).
  rewrite expand_S. cbn [root Merkle.root]. rewrite take_app_length', drop_app_length' by (by rewrite length_expand).
  destruct (drop_nonempty d l) as [[Hd Htk]|[Hd _]]; [lia| |].
  - rewrite Hd, Htk, root_nil, !IH by (by rewrite <- Htk).
    destruct (root_Some d l) as [r ->]; [by rewrite <- Htk|]. done.
  - rewrite (IH _ Ht). destruct (drop (2 ^ d) l) as [|x r] eqn:E; [cbn in Hd; lia|].
    by rewrite IH.
Qed.

(** Lists without repetitions can be recovered from their expansion. *)
Lemma expand_inj d l1 l2 : (0 < length l1 <= 2 ^ d)%nat -> (0 < length l2 <= 2 ^ d)%nat ->
  NoDup l1 -> NoDup l2 -> expand d l1 = expand d l2 -> l1 = l2.
Proof.
  revert l1 l2. induction d as [|d IH]; intros l1 l2 H1 H2 Hn1 Hn2; [done|]. pose proof (pow2_pos d).
  assert (Ht : forall l : list bytes, (0 < length l)%nat -> (0 < length (take (2 ^ d) l) <= 2 ^ d)%nat)
    by (intros; rewrite length_take; lia).
  assert (Htn : forall l : list bytes, NoDup l -> NoDup (take (2 ^ d) l) /\ NoDup (drop (2 ^ d) l) /\
     (forall x, x ∈ take (2 ^ d) l -> x ∉ drop (2 ^ d) l)).
  { intros l Hl. rewrite <- (take_drop (2 ^ d) l) in Hl. apply NoDup_app in Hl. naive_solver. }
  destruct (Htn _ Hn1) as (Ha1 & Hb1 & Hc1), (Htn _ Hn2) as (Ha2 & Hb2 & Hc2).
  assert (Hno : forall l : list bytes, (0 < length l <= 2 ^ S d)%nat ->
    (forall x, x ∈ take (2 ^ d) l -> x ∉ drop (2 ^ d) l) -> take (2 ^ d) l <> drop (2 ^ d) l).
  { intros l Hl Hc Heq. specialize (Ht l ltac:(lia)). destruct (take (2 ^ d) l) as [|x r] eqn:E; [cbn in Ht; lia|].
    apply (Hc x); [|rewrite <- Heq]; left. }
  rewrite !expand_S. intros [He Hr]%app_inj_1; [|rewrite !length_expand; auto; apply Ht; lia].
  apply IH in He; [|apply Ht; lia..|done|done].
  rewrite <- (take_drop (2 ^ d) l1), <- (take_drop (2 ^ d) l2). f_equal; [done|].
  destruct (drop_nonempty d l1) as [[Hd1 _]|[Hd1 _]]; [lia| |];
  destruct (drop_nonempty d l2) as [[Hd2 _]|[Hd2 _]]; try lia.
  - congruence.
  - rewrite Hd1 in Hr. destruct (drop (2 ^ d) l2) as [|y r2] eqn:E2; [cbn in Hd2; lia|].
    apply IH in Hr; [|apply Ht; lia|done..]. edestruct (Hno l2); [lia|by rewrite E2|congruence].
  - rewrite Hd2 in Hr. destruct (drop (2 ^ d) l1) as [|y r1] eqn:E1; [cbn in Hd1; lia|].
    apply IH in Hr; [|done|apply Ht; lia|done..]. edestruct (Hno l1); [lia|by rewrite E1|congruence].
  - destruct (drop (2 ^ d) l1) as [|y1 r1]; [cbn in Hd1; lia|].
    destruct (drop (2 ^ d) l2) as [|y2 r2]; [cbn in Hd2; lia|]. by apply IH.
Qed.

(** *** Binding up to a collision *)

Context (hash_32 : forall b, length (HashH b) = 32%nat).

Lemma root_32 d l r : Forall (fun h => length h = 32%nat) l -> root d l = Some r -> length r = 32%nat.
Proof.
  destruct d as [|d]; intros Hl; cbn.
  - destruct l; [done|]. intros [= <-]. by apply Forall_cons_1 in Hl as [].
  - unfold node, HashMerkleBranches. destruct (root d (take (2 ^ d) l)), (root d (drop (2 ^ d) l)); intros [= <-]; apply hash_32.
Qed.

Lemma root_binding d l1 l2 : length l1 = (2 ^ d)%nat -> length l2 = (2 ^ d)%nat ->
  Forall (fun h => length h = 32%nat) l1 -> Forall (fun h => length h = 32%nat) l2 ->
  root d l1 = root d l2 -> l1 = l2 \/ collision HashH.
Proof.
  revert l1 l2. induction d as [|d IH]; intros l1 l2 H1 H2 F1 F2 Hr.
  { destruct l1 as [|? [|]], l2 as [|? [|]]; cbn in *; try lia. left. congruence. }
  pose proof (pow2_pos d). rewrite Nat.pow_succ_r' in H1, H2.
  assert (Hs : forall l, length l = (2 * 2 ^ d)%nat -> Forall (fun h : bytes => length h = 32%nat) l -> exists a b,
    root d (take (2 ^ d) l) = Some a /\ root d (drop (2 ^ d) l) = Some b /\ length a = 32%nat).
  { intros l Hl Fl. destruct (root_Some d (take (2 ^ d) l)) as [a Ha]; [rewrite length_take; lia|].
    destruct (root_Some d (drop (2 ^ d) l)) as [b Hb]; [rewrite length_drop; lia|]. exists a, b.
    split_and!; [done..|]. eapply root_32; [|exact Ha]. by apply Forall_take. }
  destruct (Hs l1 H1 F1) as (a1 & b1 & Ha1 & Hb1 & L1), (Hs l2 H2 F2) as (a2 & b2 & Ha2 & Hb2 & L2).
  cbn in Hr. rewrite Ha1, Hb1, Ha2, Hb2 in Hr. injection Hr as Hr. apply (hash_inj HashH) in Hr as [Hr|?]; [|by right].
  apply app_inj_1 in Hr as [-> ->]; [|congruence].
  destruct (IH (take (2 ^ d) l1) (take (2 ^ d) l2)) as [Ht|?]; try (by right);
    rewrite ?length_take; try lia; try (by apply Forall_take); [congruence|].
  destruct (IH (drop (2 ^ d) l1) (drop (2 ^ d) l2)) as [Hd|?]; try (by right);
    rewrite ?length_drop; try lia; try (by apply Forall_drop); [congruence|].
  left. by rewrite <- (take_drop (2 ^ d) l1), Ht, Hd, take_drop.
Qed.

Lemma expand_Forall (P : bytes -> Prop) d l : Forall P l -> Forall P (expand d l).
Proof.
  revert l. induction d as [|d IH]; intros l Hl; [done|]. rewrite expand_S.
  apply Forall_app. split; apply IH; [by apply Forall_take|].
  apply (Forall_drop _ (2 ^ d)) in Hl as Hd. destruct (drop _ _); [by apply Forall_take|done].
Qed.

Lemma leaves_binding d l1 l2 : (0 < length l1 <= 2 ^ d)%nat -> (0 < length l2 <= 2 ^ d)%nat ->
  Forall (fun h => length h = 32%nat) l1 -> Forall (fun h => length h = 32%nat) l2 ->
  NoDup l1 -> NoDup l2 -> root d l1 = root d l2 -> l1 = l2 \/ collision HashH.
Proof.
  intros H1 H2 F1 F2 N1 N2 Hr. rewrite <- (root_expand d l1), <- (root_expand d l2) in Hr by done.
  apply root_binding in Hr as [Hr|?]; [left; by eapply expand_inj|by right|
    by apply length_expand..|by apply expand_Forall|by apply expand_Forall].
Qed.

Lemma leavesOf_32 compressed txs leaves : leavesOf HashH compressed txs = Ok leaves ->
  Forall (fun h => length h = 32%nat) leaves.
Proof.
  intros H. unfold leavesOf in H. apply bind_Ok in H as (hs & Hh & H).
  apply hashes_Forall2 in Hh as (hs' & -> & Hf). cbn in H.
  assert (Forall (fun h => length h = 32%nat) hs').
  { clear H. induction Hf as [|tx h txs' hs' Hh _ IH]; constructor; [by eapply (TxHashFull_32 HashH)|done]. }
  destruct compressed; [|by injection H as <-].
  destruct txs as [|tx txs]; [done|]. destruct (tx_TxOut tx) as [|out [|? ?]]; try done.
  apply bind_Ok in H as (ens & He & [= <-]). constructor; [|done].
  destruct (Nat.lt_ge_cases (length (PkScript out)) 38) as [Hs|Hs];
    [rewrite coinbaseHash_short in He; done|].
  rewrite coinbaseHash_spec in He by done. injection He as <-. rewrite length_take, length_drop. lia.
Qed.

Lemma leaves_same compressed txs1 txs2 leaves : Forall full_ok txs1 -> Forall full_ok txs2 ->
  leavesOf HashH compressed txs1 = Ok leaves -> leavesOf HashH compressed txs2 = Ok leaves ->
  Forall2 same_tx txs1 txs2 \/ collision HashH.
Proof.
  intros F1 F2 H1 H2. apply leavesOf_tail in H1 as (hs & Hf1 & E1), H2 as (hs2 & Hf2 & E2).
  assert (hs = hs2) as <- by congruence. clear E1 E2. revert txs2 F2 Hf2. induction Hf1 as [|m1 h txs1 hs Hm1 _ IH]; intros txs2 F2 Hf2.
  { inversion Hf2. left. constructor. }
  inversion Hf2 as [|m2 ? txs2' ? Hm2 Hf2']; subst.
  apply Forall_cons_1 in F1 as [O1 F1], F2 as [O2 F2].
  destruct (TxHashFull_inj HashH hash_32 m1 m2 h O1 O2 Hm1 Hm2) as [?|?]; [|by right].
  destruct (IH F1 txs2') as [?|?]; [done..|left; by constructor|by right].
Qed.

End commits.

(** ** Two edges *)

(** The length test admits scripts of 36 and 37 bytes, but byte 37 is read. *)
Lemma compressed_coinbase_panics HashH tx txs out0 out1 outs :
  tx_TxOut tx = out0 :: out1 :: outs -> (36 <= length (PkScript out0) < 38)%nat ->
  BuildMerkleTreeStore HashH (tx :: txs) true = Panic.
Proof.
  intros Ho Hl. unfold BuildMerkleTreeStore. rewrite Ho.
  destruct (Nat.ltb_spec (length (PkScript out0)) 36); [lia|]. by rewrite coinbaseHash_short by lia.
Qed.

(** Repeating the last of three transactions does not change the root: the check for
    duplicate transactions is needed. *)
Lemma duplicate_keeps_root HashH a b c : root HashH 2 [a; b; c] = root HashH 2 [a; b; c; c].
Proof. reflexivity. Qed.

(** ** The theorems *)

(** C20: the linear array that BuildMerkleTreeStore fills is the Merkle tree.  For a
    non-empty list of transactions, with or without the coinbase hash in front, the
    function returns the complete binary tree of the smallest depth that has room for the
    leaves, stored level by level; its last element is the root of the recursive
    definition, in which a missing right child is replaced by its sibling; and there are
    always exactly twice as many entries as leaf slots, less one. *)
Theorem BuildMerkleTreeStore_tree HashH (compressed : bool) (txs : list MsgTx) (leaves : list bytes) :
  txs <> [] -> leavesOf HashH compressed txs = Ok leaves ->
  exists d r, nextPowerOfTwo (Z.of_nat (length leaves)) = 2 ^ Z.of_nat d /\
    (length leaves <= 2 ^ d)%nat /\ (forall d', (length leaves <= 2 ^ d')%nat -> (d <= d')%nat) /\
    BuildMerkleTreeStore HashH txs compressed = Ok (levels HashH d (slots d leaves)) /\
    length (levels HashH d (slots d leaves)) = (2 * 2 ^ d - 1)%nat /\
    root HashH d leaves = Some r /\ last (levels HashH d (slots d leaves)) = Some (Some r).
Proof.
  intros Hne H. destruct (BuildMerkleTreeStore_spec HashH compressed txs leaves Hne H) as (d & Hd & Hl & Hb).
  assert (Hs : length (slots d leaves) = (2 ^ d)%nat).
  { unfold slots. rewrite length_app, length_fmap, length_replicate. lia. }
  destruct (root_Some HashH d leaves Hl) as [r Hr]. exists d, r.
  split_and!; [done|lia|by apply smallest_depth|done| |done|].
  - by apply length_levels.
  - by rewrite last_levels, slotRoot_slots, Hr by (done || lia).
Qed.

Definition toyHash (b : bytes) : bytes :=
  foldr Z.add 0 b mod 256 :: take 31 (rev b ++ replicate 31 (Z.of_nat (length b))).

Lemma BuildMerkleTreeStore_tree_witness : exists d r store,
  BuildMerkleTreeStore toyHash [sample_tx; sample_tx; sample_tx] false = Ok store /\
  nextPowerOfTwo 3 = 2 ^ Z.of_nat d /\ last store = Some (Some r).
Proof.
  destruct (leavesOf toyHash false [sample_tx; sample_tx; sample_tx]) as [leaves| |] eqn:E.
  2, 3: vm_compute in E; discriminate E.
  pose proof (leavesOf_length _ _ _ _ E) as El.
  assert (Hne : [sample_tx; sample_tx; sample_tx] <> []) by discriminate.
  destruct (BuildMerkleTreeStore_tree toyHash false _ leaves Hne E) as (d & r & Hd & _ & _ & Hb & _ & _ & Hl).
  exists d, r, (levels toyHash d (slots d leaves)). split_and!; [exact Hb|rewrite <- Hd, El; reflexivity|exact Hl].
Defined.

(** C22: the Merkle root commits to the whole body of a block.  If two lists of distinct
    transactions that need trees of the same depth have the same root, then they are the
    same transactions in the same order, witness data included, or two different inputs
    on which the hash function agrees are exhibited. *)
Theorem merkle_root_commits HashH (compressed : bool) (txs1 txs2 : list MsgTx) l1 l2 s1 s2 :
  (forall b, length (HashH b) = 32%nat) ->
  Forall full_ok txs1 -> Forall full_ok txs2 -> txs1 <> [] -> txs2 <> [] ->
  leavesOf HashH compressed txs1 = Ok l1 -> leavesOf HashH compressed txs2 = Ok l2 ->
  NoDup l1 -> NoDup l2 ->
  nextPowerOfTwo (Z.of_nat (length l1)) = nextPowerOfTwo (Z.of_nat (length l2)) ->
  BuildMerkleTreeStore HashH txs1 compressed = Ok s1 ->
  BuildMerkleTreeStore HashH txs2 compressed = Ok s2 -> last s1 = last s2 ->
  Forall2 same_tx txs1 txs2 \/ collision HashH.
Proof.
  intros H32 F1 F2 N1 N2 E1 E2 D1 D2 Hp B1 B2 Hl.
  destruct (stored_root HashH compressed txs1 l1 s1) as (d1 & P1 & L1 & R1); [done..|].
  destruct (stored_root HashH compressed txs2 l2 s2) as (d2 & P2 & L2 & R2); [done..|].
  assert (d1 = d2) as <-.
  { rewrite Hp, P2 in P1. apply Z.pow_inj_r in P1; lia. }
  rewrite R1, R2 in Hl. injection Hl as Hl.
  apply (leaves_binding HashH H32) in Hl as [->|?]; [|by right|done|done|by eapply leavesOf_32..|done|done].
  by apply (leaves_same HashH H32 compressed _ _ l2).
Qed.

Definition sample_tx2 : MsgTx :=
  MkMsgTx None TxSerializeFull 1 (tx_TxIn sample_tx) (tx_TxOut sample_tx) 11 20.

Lemma sample_tx2_ok : tx_ok sample_tx2.
Proof.
  pose proof sample_tx_ok as [Hv [Ht [(H1 & H2 & H3 & H4 & _) Hw]]].
  split; [done|]. split; [done|]. split; [|done]. split_and!; [done..|by vm_compute|by vm_compute].
Qed.

Lemma toyHash_32 b : length (toyHash b) = 32%nat.
Proof. unfold toyHash. cbn [length]. rewrite length_take, length_app, length_replicate. lia. Qed.

Lemma merkle_root_commits_witness : exists l s,
  leavesOf toyHash false [sample_tx; sample_tx2] = Ok l /\
  BuildMerkleTreeStore toyHash [sample_tx; sample_tx2] false = Ok s /\
  (Forall2 same_tx [sample_tx; sample_tx2] [sample_tx; sample_tx2] \/ collision toyHash).
Proof.
  destruct (leavesOf toyHash false [sample_tx; sample_tx2]) as [l| |] eqn:E.
  2, 3: vm_compute in E; discriminate E.
  destruct (BuildMerkleTreeStore toyHash [sample_tx; sample_tx2] false) as [s| |] eqn:Es.
  2, 3: vm_compute in Es; discriminate Es.
  exists l, s. split; [done|]. split; [done|].
  assert (Hok : Forall full_ok [sample_tx; sample_tx2]).
  { apply Forall_cons_2; [split; [done|apply sample_tx_ok]|].
    apply Forall_cons_2; [split; [done|apply sample_tx2_ok]|apply Forall_nil_2]. }
  assert (Hnd : NoDup l).
  { vm_compute in E. injection E as <-. apply NoDup_cons_2; [|apply NoDup_cons_2; [|apply NoDup_nil_2]].
    - apply not_elem_of_cons. split; [discriminate|apply not_elem_of_nil].
    - apply not_elem_of_nil. }
  exact (merkle_root_commits toyHash false _ _ l l s s toyHash_32 Hok Hok
    ltac:(discriminate) ltac:(discriminate) E E Hnd Hnd eq_refl Es Es eq_refl).
Defined.
