(* ===== verification/ScriptNum.v ===== *)
(** * Script numbers

    [txscript/scriptnum.go] and the two conversions of [txscript/stack.go] between byte
    strings and booleans.  A [scriptNum] is an [int64], encoded on the stack in little
    endian with a sign bit. *)

From stdpp Require Import list.
From S2P Require Import Prelude.
#[local] Open Scope Z_scope.

(** The errors of the script engine: the values of [txscript/error.go] that the modelled
    code returns, then the errors it formats on the spot. *)
Inductive scriptError :=
| ErrStackShortScript | ErrStackLongScript | ErrStackUnderflow | ErrStackInvalidArgs
| ErrStackOpDisabled | ErrStackVerifyFailed | ErrStackNumberTooBig | ErrStackInvalidOpcode
| ErrStackReservedOpcode | ErrStackEarlyReturn | ErrStackNoIf | ErrStackMissingEndif
| ErrStackTooManyPubKeys | ErrStackTooManyOperations | ErrStackElementTooBig
| ErrStackScriptFailed | ErrStackScriptUnfinished | ErrStackEmptyStack
| ErrStackP2SHNonPushOnly | ErrStackNonPushOnly | ErrStackOverflow
| ErrStackInvalidLowSSignature | ErrStackInvalidPubKey | ErrStackCleanStack
| ErrStackMinimalData | ErrInvalidFlags | ErrInvalidIndex | ErrSighashSingleIdx
| ErrSubstrIdxNegative | ErrSubstrIdxOutOfBounds | ErrNegativeRotation | ErrRotationOverflow
| ErrNegativeShift | ErrShiftOverflow | ErrDivideByZero | ErrP2SHStakeOpCodes
| InvalidOpcodeLength | ReservedForUpgrades | MismatchedLockTime | UnsatisfiedLockTime
| NegativeLockTime | NegativeSequence | FinalizedInput | BadTxVersion | SequenceDisabled
| NegativeSignatureCount | MoreSignaturesThanKeys | PastInputScripts | InvalidHashType
| MalformedSignature | NoPushedData | NotStakeOutput | NotNullData | WrongScriptType
| BadTypePush | BadSignatureScheme | SerializationFailed | StillRunning
| OutOfRange.

Definition maxInt32 : Z := 2 ^ 31 - 1.
Definition minInt32 : Z := - 2 ^ 31.
Definition mathOpCodeMaxScriptNumLen : Z := 4.
Definition altSigSuitesMaxscriptNumLen : Z := 1.

(** [v[i]] for an index that is in range. *)
Definition byte_at (v : bytes) (i : nat) : Z := nth i v 0.

(** [c && f(v[0])], which reads the byte only when [c] holds. *)
Definition and_first (c : bool) (v : bytes) (f : Z -> bool) : res scriptError bool :=
  if c then b0 ← index v 0; Ok (f b0) else Ok false.

Definition checkMinimalDataEncoding (v : bytes) : res scriptError unit :=
  if (length v =? 0)%nat then Ok tt
  else
    let n := Z.of_nat (length v) in
    top ← index v (n - 1);
    if Z.land top 0x7f =? 0
    then
      if n =? 1 then Err ErrStackMinimalData
      else
        below ← index v (n - 2);
        if Z.land below 0x80 =? 0 then Err ErrStackMinimalData else Ok tt
    else Ok tt.

(** The loop of [scriptNum.Bytes]; eight rounds are enough for an [int64]. *)
Fixpoint bytes_loop (fuel : nat) (n : Z) : bytes :=
  match fuel with
  | O => []
  | S fuel => if n >? 0 then Z.land n 0xff :: bytes_loop fuel (Z.shiftr n 8) else []
  end.

Definition num_Bytes (n : Z) : res scriptError bytes :=
  if n =? 0 then Ok []
  else
    let isNegative := n <? 0 in
    let n := if isNegative then i64 (- n) else n in
    let result := bytes_loop 8 n in
    match rev result with
    | [] => Panic
    | top :: low =>
        if negb (Z.land top 0x80 =? 0)
        then Ok (result ++ [if isNegative then 0x80 else 0x00])
        else if isNegative then Ok (rev low ++ [Z.lor top 0x80])
        else Ok result
    end.

Definition Int32 (n : Z) : Z :=
  if n >? maxInt32 then maxInt32 else if n <? minInt32 then minInt32 else i32 n.

(** [for i, val := range v { result |= int64(val) << uint8(8*i) }] *)
Fixpoint or_loop (i : Z) (v : bytes) (result : Z) : Z :=
  match v with
  | [] => result
  | val :: v => or_loop (i + 1) v (Z.lor result (i64 (Z.shiftl val (u8 (8 * i)))))
  end.

Definition makeScriptNum (v : bytes) (requireMinimal : bool) (scriptNumLen : Z) : res scriptError Z :=
  if Z.of_nat (length v) >? scriptNumLen then Err ErrStackNumberTooBig
  else
    _ ← (if requireMinimal then checkMinimalDataEncoding v else Ok tt);
    if (length v =? 0)%nat then Ok 0
    else
      let result := or_loop 0 v 0 in
      top ← index v (Z.of_nat (length v) - 1);
      if negb (Z.land top 0x80 =? 0)
      then
        let mask := Z.lnot (i64 (Z.shiftl 0x80 (u8 (8 * (Z.of_nat (length v) - 1))))) in
        Ok (i64 (- Z.land result mask))
      else Ok result.

(** [asBool] and [fromBool] of [txscript/stack.go]. *)
Fixpoint asBool (t : bytes) : bool :=
  match t with
  | [] => false
  | [b] => if b =? 0 then false else negb (b =? 0x80)
  | b :: t => if b =? 0 then asBool t else true
  end.

Definition fromBool (v : bool) : bytes := if v then [1] else [].

Lemma and_first_Ok c v f : (c = true -> v <> []) -> exists b, and_first c v f = Ok b.
Proof.
  intros H. unfold and_first. destruct c; [|by eexists]. destruct v; [by destruct (H eq_refl)|by eexists].
Qed.

(** ** The magnitude and the sign *)

Lemma get_le_snoc w b : get_le (w ++ [b]) = get_le w + b * 256 ^ Z.of_nat (length w).
Proof.
  induction w as [|x w IH].
  - cbn [app]. unfold get_le. cbn. lia.
  - change (get_le ((x :: w) ++ [b])) with (x + 256 * get_le (w ++ [b])).
    change (get_le (x :: w)) with (x + 256 * get_le w).
    cbn [length]. rewrite IH, pow_256_succ. lia.
Qed.

Lemma pow_256_8 k : 0 <= k -> 256 ^ k = 2 ^ (8 * k).
Proof. intros H. rewrite Z.pow_mul_r by lia. reflexivity. Qed.

Lemma or_loop_get_le v : forall w,
  is_bytes w -> is_bytes v -> (length w + length v <= 7)%nat ->
  or_loop (Z.of_nat (length w)) v (get_le w) = get_le (w ++ v).
Proof.
  induction v as [|b v IH]; intros w Hw Hv Hl; cbn [or_loop]; [by rewrite app_nil_r|].
  apply Forall_cons_1 in Hv as [Hb Hv]. cbn in Hl.
  assert (Hp : 0 < 256 ^ Z.of_nat (length w)) by (apply Z.pow_pos_nonneg; lia).
  pose proof (get_le_range w Hw) as Hr.
  assert (Hk : b * 256 ^ Z.of_nat (length w) < 2 ^ 56).
  { assert (256 ^ Z.of_nat (length w) <= 256 ^ 6) by (apply Z.pow_le_mono_r; lia).
    unfold is_u8 in Hb. change (256 ^ 6) with (2 ^ 48) in *. nia. }
  rewrite u8_small by (unfold is_u8; lia).
  rewrite Z.shiftl_mul_pow2, <- pow_256_8 by lia. rewrite i64_small by (unfold is_i64, is_u8 in *; nia).
  replace (Z.lor (get_le w) (b * 256 ^ Z.of_nat (length w))) with (get_le (w ++ [b])).
  2:{ rewrite get_le_snoc, pow_256_8 in * by lia.
      rewrite Z.lor_comm, lor_disjoint by (exact Hr || lia). lia. }
  replace (Z.of_nat (length w) + 1) with (Z.of_nat (length (w ++ [b]))) by (rewrite length_app; cbn; lia).
  rewrite IH; [by rewrite <- app_assoc|apply Forall_app; split; [done|by constructor]|done|].
  rewrite length_app; cbn; lia.
Qed.

Lemma land_ff x : Z.land x 0xff = x mod 256.
Proof. change 0xff with (Z.ones 8). by rewrite Z.land_ones by lia. Qed.

Lemma low_bits x : Z.land x 0x7f = x mod 128.
Proof. change 0x7f with (Z.ones 7). by rewrite Z.land_ones by lia. Qed.

Lemma sign_bit x : is_u8 x -> (Z.land x 0x80 =? 0) = (x <? 128).
Proof.
  intros Hx. change 0x80 with (2 ^ 7). rewrite land_pow2 by lia. unfold is_u8 in Hx.
  destruct (Z.ltb_spec x (2 ^ 7)).
  - rewrite Z.div_small by lia. done.
  - replace (x / 2 ^ 7) with 1 by (Z.div_mod_to_equations; lia). done.
Qed.

Lemma set_sign x : 0 <= x < 128 -> Z.lor x 0x80 = x + 128.
Proof.
  intros Hx. rewrite Z.lor_comm. change 0x80 with (1 * 2 ^ 7). rewrite lor_disjoint by lia. lia.
Qed.

(** The digits of a positive number are found again, when the top one is not zero. *)
Lemma bytes_loop_digits fuel : forall w b, is_bytes (w ++ [b]) -> 0 < b -> (length w < fuel)%nat ->
  bytes_loop fuel (get_le (w ++ [b])) = w ++ [b].
Proof.
  induction fuel as [|fuel IH]; intros w b Hw Hb Hl; [lia|].
  assert (Hpos : 0 < get_le (w ++ [b])).
  { rewrite get_le_snoc. apply Forall_app in Hw as [Hw _]. apply get_le_range in Hw.
    assert (0 < 256 ^ Z.of_nat (length w)) by (apply Z.pow_pos_nonneg; lia). nia. }
  cbn [bytes_loop]. rewrite Z.gtb_ltb. destruct (Z.ltb_spec 0 (get_le (w ++ [b]))); [|lia].
  rewrite land_ff, Z.shiftr_div_pow2 by lia.
  destruct w as [|x w].
  - apply Forall_cons_1 in Hw as [Hb' _]. unfold is_u8 in Hb'. change (get_le ([] ++ [b])) with (b + 256 * 0).
    rewrite Z.mul_0_r, Z.add_0_r, Z.mod_small by lia. rewrite Z.div_small by lia.
    destruct fuel; reflexivity.
  - apply Forall_cons_1 in Hw as [Hx Hw]. change (get_le ((x :: w) ++ [b])) with (x + 256 * get_le (w ++ [b])).
    unfold is_u8 in Hx.
    replace ((x + 256 * get_le (w ++ [b])) mod 256) with x by (Z.div_mod_to_equations; lia).
    replace ((x + 256 * get_le (w ++ [b])) / 2 ^ 8) with (get_le (w ++ [b])) by (Z.div_mod_to_equations; lia).
    cbn in Hl. rewrite IH by (done || lia). done.
Qed.

(** Every positive number has such digits. *)
Lemma digits_exist (k : nat) : forall n, 0 < n < 256 ^ Z.of_nat k ->
  exists w b, is_bytes (w ++ [b]) /\ 0 < b /\ (length w < k)%nat /\ get_le (w ++ [b]) = n.
Proof.
  induction k as [|k IH]; intros n Hn; [cbn in Hn; lia|]. rewrite pow_256_succ in Hn.
  destruct (Z.ltb_spec n 256).
  - exists [], n. split_and!; [constructor; [unfold is_u8; lia|done]|lia|cbn; lia|].
    change (get_le ([] ++ [n])) with (n + 256 * 0). lia.
  - destruct (IH (n / 256)) as (w & b & Hw & Hb & Hl & Hg); [Z.div_mod_to_equations; lia|].
    exists (n mod 256 :: w), b. split_and!; [constructor; [|done]|done|cbn; lia|].
    + unfold is_u8. Z.div_mod_to_equations; lia.
    + change (get_le ((n mod 256 :: w) ++ [b])) with (n mod 256 + 256 * get_le (w ++ [b])). rewrite Hg.
      Z.div_mod_to_equations; lia.
Qed.

Lemma clear_top j low : 0 <= j -> 0 <= low < 2 ^ j -> Z.land (2 ^ j + low) (Z.lnot (2 ^ j)) = low.
Proof.
  intros Hj Hlow. rewrite <- Z.ldiff_land, <- Z.sub_nocarry_ldiff; [lia|].
  apply Z.bits_inj'. intros i Hi. rewrite Z.ldiff_spec, Z.bits_0.
  destruct (Z.eq_dec i j) as [->|Hne].
  - replace (Z.testbit (2 ^ j + low) j) with true; [by rewrite andb_false_r|].
    symmetry. apply Z.testbit_true; [done|].
    replace (2 ^ j + low) with (low + 1 * 2 ^ j) by lia. rewrite Z.div_add by lia.
    by rewrite Z.div_small by done.
  - by rewrite Z.pow2_bits_false by lia.
Qed.

(** The number that a string of at most seven bytes stands for. *)
Definition num_of (w : bytes) (b : Z) : Z :=
  if b <? 128 then get_le w + b * 256 ^ Z.of_nat (length w)
  else - (get_le w + (b - 128) * 256 ^ Z.of_nat (length w)).

Lemma make_plain w b L : is_bytes (w ++ [b]) -> Z.of_nat (length w) < L <= 7 ->
  makeScriptNum (w ++ [b]) false L = Ok (num_of w b).
Proof.
  intros Hv HL. pose proof Hv as [Hw Hb]%Forall_app. apply Forall_cons_1 in Hb as [Hb _].
  assert (Hl : length (w ++ [b]) = S (length w)) by (rewrite length_app; cbn; lia).
  assert (Hp : 0 < 256 ^ Z.of_nat (length w)) by (apply Z.pow_pos_nonneg; lia).
  assert (Hk : 256 ^ Z.of_nat (length w) <= 2 ^ 48).
  { change (2 ^ 48) with (256 ^ 6). apply Z.pow_le_mono_r; lia. }
  pose proof (get_le_range w Hw) as Hr. unfold makeScriptNum, num_of.
  rewrite Z.gtb_ltb. destruct (Z.ltb_spec L (Z.of_nat (length (w ++ [b])))); [lia|].
  cbn [mbind res_bind]. rewrite Hl. cbn [Nat.eqb].
  replace (Z.of_nat (S (length w)) - 1) with (Z.of_nat (length w)) by lia.
  rewrite index_app. cbn [mbind res_bind].
  assert (Ho : or_loop 0 (w ++ [b]) 0 = get_le (w ++ [b]))
    by (apply (or_loop_get_le (w ++ [b]) []); [apply Forall_nil_2|done|cbn; lia]).
  rewrite Ho, sign_bit by done. unfold is_u8 in Hb.
  destruct (Z.ltb_spec b 128); cbn [negb]; [by rewrite get_le_snoc|].
  rewrite (u8_small (8 * _)) by (unfold is_u8; lia).
  change 128 with (2 ^ 7) at 1. rewrite Z.shiftl_mul_pow2, <- Z.pow_add_r by lia.
  assert (Hj : 2 ^ (7 + 8 * Z.of_nat (length w)) = 128 * 256 ^ Z.of_nat (length w))
    by (rewrite Z.pow_add_r, <- pow_256_8 by lia; lia).
  rewrite (i64_small (2 ^ _)) by (rewrite Hj; unfold is_i64; lia).
  replace (get_le (w ++ [b])) with
    (2 ^ (7 + 8 * Z.of_nat (length w)) + (get_le w + (b - 128) * 256 ^ Z.of_nat (length w)))
    by (rewrite get_le_snoc, Hj; lia).
  rewrite clear_top by (rewrite ?Hj; nia). rewrite i64_small; [done|]. unfold is_i64. nia.
Qed.

Lemma make_minimal v L n :
  makeScriptNum v true L = Ok n <-> checkMinimalDataEncoding v = Ok tt /\ makeScriptNum v false L = Ok n.
Proof.
  unfold makeScriptNum. destruct (_ >? L); [naive_solver|]. cbn.
  destruct (checkMinimalDataEncoding v) as [[]|e|]; cbn; naive_solver.
Qed.

(** Minimal strings: the top byte carries more than the sign, or the byte below needs
    its high bit. *)
Lemma check_minimal_spec w b : is_bytes (w ++ [b]) ->
  checkMinimalDataEncoding (w ++ [b]) = Ok tt <->
  b mod 128 <> 0 \/ exists w' c, w = w' ++ [c] /\ 128 <= c.
Proof.
  intros [Hw Hb]%Forall_app. unfold checkMinimalDataEncoding.
  rewrite length_app. cbn [length]. rewrite Nat.add_1_r. cbn [Nat.eqb].
  replace (Z.of_nat (S (length w)) - 1) with (Z.of_nat (length w)) by lia.
  rewrite index_app. cbn [mbind res_bind]. rewrite low_bits.
  destruct (Z.eqb_spec (b mod 128) 0) as [Hz|]; [|naive_solver].
  destruct w as [|c w'] using rev_ind.
  { cbn. split; [done|]. intros [?|(w' & c & H & _)]; [done|]. by destruct w'. }
  clear IHw'. rewrite length_app. cbn [length]. rewrite Nat.add_1_r.
  destruct (Z.eqb_spec (Z.of_nat (S (S (length w')))) 1); [lia|].
  replace (Z.of_nat (S (S (length w'))) - 2) with (Z.of_nat (length w')) by lia.
  rewrite <- app_assoc. cbn [app]. rewrite index_app. cbn [mbind res_bind].
  apply Forall_app in Hw as [_ Hc]. apply Forall_cons_1 in Hc as [Hc _]. rewrite sign_bit by done.
  destruct (Z.ltb_spec c 128).
  - split; [done|]. intros [?|(w'' & c' & H' & Hc')]; [done|]. apply app_inj_tail in H' as [_ ->]. lia.
  - split; [|done]. intros _. right. by exists w', c.
Qed.

(** The sign as the high bit of a byte. *)
Definition sign_of (neg : bool) : Z := if neg then 128 else 0.

Lemma Bytes_digits w b (neg : bool) : is_bytes (w ++ [b]) -> 0 < b -> (length w < 7)%nat ->
  num_Bytes (if neg then - get_le (w ++ [b]) else get_le (w ++ [b])) =
    Ok (if b <? 128 then w ++ [b + sign_of neg] else (w ++ [b]) ++ [sign_of neg]).
Proof.
  intros Hv Hb Hl. pose proof (bytes_loop_digits 8 w b Hv Hb ltac:(lia)) as Hd.
  pose proof (get_le_range _ Hv) as Hr. rewrite length_app in Hr.
  assert (H56 : 256 ^ Z.of_nat (length w + length [b]) <= 256 ^ 7) by (apply Z.pow_le_mono_r; cbn; lia).
  change (256 ^ 7) with (2 ^ 56) in H56.
  assert (Hpos : get_le (w ++ [b]) <> 0).
  { intros H0. rewrite H0 in Hd. by destruct w. }
  unfold num_Bytes. set (m := get_le (w ++ [b])) in *.
  destruct (Z.eqb_spec (if neg then - m else m) 0); [destruct neg; lia|].
  assert ((if neg then - m else m) <? 0 = neg) as ->
    by (destruct neg; [apply Z.ltb_lt|apply Z.ltb_ge]; lia).
  assert ((if neg then i64 (- (if neg then - m else m)) else (if neg then - m else m)) = m) as ->
    by (destruct neg; [rewrite i64_small by (unfold is_i64; lia); lia|done]).
  rewrite Hd, rev_app_distr. cbn [rev app].
  apply Forall_app in Hv as [_ Hbb]. apply Forall_cons_1 in Hbb as [Hbb _]. rewrite sign_bit by done.
  destruct (Z.ltb_spec b 128); cbn [negb]; [|by destruct neg].
  destruct neg; [rewrite rev_involutive, set_sign by lia; done|]. by rewrite Z.add_0_r.
Qed.

Lemma num_of_zero_high w b neg : 0 <= b < 128 ->
  num_of w (b + sign_of neg) = if neg then - get_le (w ++ [b]) else get_le (w ++ [b]).
Proof.
  intros Hb. unfold num_of, sign_of. rewrite get_le_snoc. destruct neg.
  - destruct (Z.ltb_spec (b + 128) 128); [lia|]. do 2 f_equal. lia.
  - rewrite Z.add_0_r. destruct (Z.ltb_spec b 128); lia.
Qed.

(** A byte is its low seven bits and its sign. *)
Lemma byte_sign b : is_u8 b -> exists c neg, b = c + sign_of neg /\ 0 <= c < 128 /\ c = b mod 128.
Proof.
  intros Hb. exists (b mod 128), (128 <=? b). unfold sign_of, is_u8 in *.
  destruct (Z.leb_spec 128 b); Z.div_mod_to_equations; lia.
Qed.

Lemma sign_of_byte neg : is_u8 (sign_of neg).
Proof. by destruct neg. Qed.

Lemma num_of_bound w b L : is_bytes (w ++ [b]) -> Z.of_nat (length w) < L ->
  Z.abs (num_of w b) < 2 ^ (8 * L - 1).
Proof.
  intros [Hw Hb]%Forall_app HL. apply Forall_cons_1 in Hb as [Hb _].
  pose proof (get_le_range w Hw) as Hr. unfold num_of, is_u8 in *.
  assert (Hp : 128 * 256 ^ Z.of_nat (length w) <= 2 ^ (8 * L - 1)).
  { rewrite pow_256_8 by lia. change 128 with (2 ^ 7). rewrite <- Z.pow_add_r by lia.
    apply Z.pow_le_mono_r; lia. }
  destruct (Z.ltb_spec b 128); nia.
Qed.

Lemma encode_decoded w b L : is_bytes (w ++ [b]) -> Z.of_nat (length w) < L <= 7 ->
  checkMinimalDataEncoding (w ++ [b]) = Ok tt -> num_Bytes (num_of w b) = Ok (w ++ [b]).
Proof.
  intros Hv HL Hmin. pose proof Hv as [Hw Hb]%Forall_app. apply Forall_cons_1 in Hb as [Hb _].
  destruct (byte_sign b Hb) as (c & neg & -> & Hc & Hcm). rewrite num_of_zero_high by done.
  apply check_minimal_spec in Hmin; [|done]. rewrite <- Hcm in Hmin.
  destruct (Z.eq_dec c 0) as [->|Hc0].
  - destruct Hmin as [?|(w' & d & -> & Hd)]; [done|].
    assert (Hg : get_le ((w' ++ [d]) ++ [0]) = get_le (w' ++ [d])) by (rewrite get_le_snoc; lia).
    rewrite Hg, Bytes_digits by (done || (rewrite length_app in HL; cbn in HL; lia)).
    destruct (Z.ltb_spec d 128); [lia|]. by rewrite Z.add_0_l.
  - rewrite Bytes_digits; [|apply Forall_app; split; [done|constructor; [unfold is_u8; lia|done]]|lia|lia].
    destruct (Z.ltb_spec c 128); [done|lia].
Qed.

Lemma decode_encoded n L : n <> 0 -> Z.abs n < 2 ^ (8 * L - 1) -> 0 < L <= 7 ->
  exists w b, num_Bytes n = Ok (w ++ [b]) /\ is_bytes (w ++ [b]) /\ Z.of_nat (length w) < L /\
    checkMinimalDataEncoding (w ++ [b]) = Ok tt /\ num_of w b = n.
Proof.
  intros Hn Hb HL.
  assert (Hp : 2 ^ (8 * L) = 256 ^ Z.of_nat (Z.to_nat L)) by (rewrite Z2Nat.id, pow_256_8 by lia; done).
  assert (H2 : 2 ^ (8 * L) = 2 * 2 ^ (8 * L - 1)) by (rewrite <- Z.pow_succ_r by lia; f_equal; lia).
  destruct (digits_exist (Z.to_nat L) (Z.abs n)) as (w & b & Hv & Hb0 & Hl & Hg); [lia|].
  assert (Hneg : n = if n <? 0 then - get_le (w ++ [b]) else get_le (w ++ [b]))
    by (destruct (Z.ltb_spec n 0); lia).
  pose proof (Bytes_digits w b (n <? 0) Hv Hb0 ltac:(lia)) as He. rewrite <- Hneg in He.
  pose proof Hv as [Hw Hbb]%Forall_app. apply Forall_cons_1 in Hbb as [Hbb _].
  destruct (Z.ltb_spec b 128) as [Hlo|Hhi].
  - exists w, (b + sign_of (n <? 0)).
    assert (Hv' : is_bytes (w ++ [b + sign_of (n <? 0)])).
    { apply Forall_app; split; [done|]. constructor; [|done]. unfold is_u8, sign_of.
      destruct (n <? 0); lia. }
    split_and!; [done|done|lia| |rewrite num_of_zero_high by lia; symmetry; exact Hneg].
    apply check_minimal_spec; [done|]. left. unfold sign_of. destruct (n <? 0); Z.div_mod_to_equations; lia.
  - exists (w ++ [b]), (sign_of (n <? 0)).
    assert (Hv' : is_bytes ((w ++ [b]) ++ [sign_of (n <? 0)])).
    { apply Forall_app; split; [done|]. constructor; [apply sign_of_byte|done]. }
    assert (HlL : Z.of_nat (length w) < L - 1).
    { apply (Z.pow_lt_mono_r_iff 256); [lia..|]. rewrite get_le_snoc in Hg.
      pose proof (get_le_range w Hw). rewrite (pow_256_8 (L - 1)) by lia.
      assert (2 ^ (8 * L - 1) = 128 * 2 ^ (8 * (L - 1)))
        by (change 128 with (2 ^ 7); rewrite <- Z.pow_add_r by lia; f_equal; lia). nia. }
    split_and!; [done|done|rewrite length_app; cbn; lia| |].
    + apply check_minimal_spec; [done|]. right. by exists w, b.
    + replace (sign_of (n <? 0)) with (0 + sign_of (n <? 0)) by lia. rewrite num_of_zero_high by lia.
      rewrite get_le_snoc, Z.mul_0_l, Z.add_0_r. symmetry. exact Hneg.
Qed.

(** Script numbers and their minimal encodings are in bijection.  For the limits of
    up to seven bytes (the engine uses 1, 4 and 5), makeScriptNum accepts a byte string
    under the minimal encoding rule with value [n] if and only if [n] is within the range
    of the limit and the byte string is what scriptNum.Bytes gives for [n]; every number
    in that range has an encoding; and without the rule every string within the limit is
    read as some number in the range. *)
Theorem scriptnum_canonical (v : bytes) (n L : Z) :
  is_bytes v -> 0 < L <= 7 ->
  (makeScriptNum v true L = Ok n <-> num_Bytes n = Ok v /\ Z.abs n < 2 ^ (8 * L - 1)) /\
  (Z.abs n < 2 ^ (8 * L - 1) -> exists e, num_Bytes n = Ok e /\ is_bytes e) /\
  (Z.of_nat (length v) <= L -> exists x, makeScriptNum v false L = Ok x /\ Z.abs x < 2 ^ (8 * L - 1)).
Proof.
  intros Hv HL. assert (H1 : 0 < 2 ^ (8 * L - 1)) by (apply Z.pow_pos_nonneg; lia). split; [split|split].
  - intros [Hmin Hn]%make_minimal. destruct v as [|b w _] using rev_ind.
    { unfold makeScriptNum in Hn. destruct (_ >? L); [done|]. cbn in Hn. by simplify_eq. }
    assert (Z.of_nat (length w) < L).
    { unfold makeScriptNum in Hn. rewrite Z.gtb_ltb, length_app in Hn. cbn [length] in Hn.
      destruct (Z.ltb_spec L (Z.of_nat (length w + 1))); [done|lia]. }
    rewrite make_plain in Hn by (done || lia). simplify_eq.
    split; [apply (encode_decoded w b L); [done|lia|done]|by apply num_of_bound].
  - intros [He Hb]. apply make_minimal. destruct (Z.eq_dec n 0) as [->|Hn].
    + cbn in He. simplify_eq. split; [done|]. unfold makeScriptNum. rewrite Z.gtb_ltb.
      destruct (Z.ltb_spec L (Z.of_nat (length (@nil Z)))) as [H|]; [cbn in H; lia|done].
    + destruct (decode_encoded n L) as (w & b & He' & Hv' & Hl & Hmin & <-); [done..|].
      rewrite He in He'. simplify_eq. split; [done|]. apply make_plain; [done|lia].
  - intros Hb. destruct (Z.eq_dec n 0) as [->|Hn]; [exists []; split; [done|apply Forall_nil_2]|].
    destruct (decode_encoded n L) as (w & b & He & Hv' & _); [done..|]. by exists (w ++ [b]).
  - intros Hl. destruct v as [|b w _] using rev_ind.
    { exists 0. unfold makeScriptNum. rewrite Z.gtb_ltb.
      destruct (Z.ltb_spec L (Z.of_nat (length (@nil Z)))) as [H|]; [cbn in H; lia|done]. }
    rewrite length_app in Hl. cbn in Hl. exists (num_of w b).
    split; [apply make_plain|apply num_of_bound]; done || lia.
Qed.

Lemma scriptnum_canonical_witness :
  num_Bytes (-255) = Ok [0xff; 0x80] /\ makeScriptNum [0xff; 0x80] true 4 = Ok (-255) /\
  makeScriptNum [0x7f; 0x00] true 4 = Err ErrStackMinimalData.
Proof.
  assert (H : num_Bytes (-255) = Ok [0xff; 0x80]) by reflexivity.
  split; [exact H|]. split; [|reflexivity].
  apply (scriptnum_canonical [0xff; 0x80] (-255) 4); [repeat constructor; lia|lia|].
  split; [exact H|reflexivity].
Defined.

(** A byte string is true exactly when it does not stand for the number zero (of either
    sign). *)
Lemma asBool_snoc w b : is_bytes (w ++ [b]) ->
  asBool (w ++ [b]) = negb (bool_decide (get_le w = 0 /\ b mod 128 = 0)).
Proof.
  induction w as [|x w IH]; intros Hv; cbn [app] in *.
  - apply Forall_cons_1 in Hv as [Hb _]. unfold is_u8 in Hb. cbn [asBool].
    destruct (Z.eqb_spec b 0) as [->|]; [done|]. change (get_le []) with 0.
    destruct (Z.eqb_spec b 128) as [->|]; [done|]. cbn [negb].
    rewrite bool_decide_false; [done|]. intros [_ H]. Z.div_mod_to_equations. lia.
  - apply Forall_cons_1 in Hv as [Hx Hv]. unfold is_u8 in Hx.
    change (get_le (x :: w)) with (x + 256 * get_le w).
    assert (asBool (x :: w ++ [b]) = if x =? 0 then asBool (w ++ [b]) else true) as ->
      by (by destruct w).
    pose proof Hv as [Hw _]%Forall_app. pose proof (get_le_range w Hw).
    destruct (Z.eqb_spec x 0) as [->|].
    + rewrite IH by done. f_equal. apply bool_decide_ext. lia.
    + rewrite bool_decide_false; [done|]. lia.
Qed.

Lemma asBool_number v n L : is_bytes v -> 0 < L <= 7 -> makeScriptNum v false L = Ok n ->
  asBool v = negb (n =? 0).
Proof.
  intros Hv HL Hn. destruct v as [|b w _] using rev_ind.
  { unfold makeScriptNum in Hn. destruct (_ >? L); [done|]. cbn in Hn. by simplify_eq. }
  assert (Z.of_nat (length w) < L).
  { unfold makeScriptNum in Hn. rewrite Z.gtb_ltb, length_app in Hn. cbn [length] in Hn.
    destruct (Z.ltb_spec L (Z.of_nat (length w + 1))); [done|lia]. }
  rewrite make_plain in Hn by (done || lia). simplify_eq. rewrite asBool_snoc by done. f_equal.
  apply Forall_app in Hv as [Hw Hb]. apply Forall_cons_1 in Hb as [Hb _]. unfold is_u8 in Hb.
  pose proof (get_le_range w Hw). unfold num_of.
  assert (0 < 256 ^ Z.of_nat (length w)) by (apply Z.pow_pos_nonneg; lia).
  assert (Hm : b mod 128 = if b <? 128 then b else b - 128)
    by (destruct (Z.ltb_spec b 128); Z.div_mod_to_equations; lia).
  rewrite Hm. destruct (b <? 128) eqn:Hlt; [apply Z.ltb_lt in Hlt|apply Z.ltb_ge in Hlt];
    (match goal with |- _ = (?x =? 0) => destruct (Z.eqb_spec x 0) as [Hz|Hz] end;
     [apply bool_decide_true; nia|apply bool_decide_false; intros [??]; nia]).
Qed.
