(* ===== verification/ScriptStack.v ===== *)
(** * The stacks of the script engine

    [txscript/stack.go].  The operations do not look into the items they move, so the
    stack is polymorphic in them; where an operation interprets an item as a number or a
    boolean, the bytes of the item are read by an argument [view].  The last item of the
    list is the top of the stack. *)

From stdpp Require Import list.
From S2P Require Import Prelude ScriptNum.
#[local] Open Scope Z_scope.

Record stack (A : Type) := MkStack { stk : list A; verifyMinimalData : bool }.
Arguments MkStack {A} _ _.
Arguments stk {A} _.
Arguments verifyMinimalData {A} _.

(** Arithmetic on lengths of lists. *)
Ltac lens := rewrite ?length_app in *; cbn [length] in *; rewrite ?length_app in *; cbn [length] in *; lia.

Section stack.
Context {A : Type}.

(** A computation on a stack. *)
Notation stackM := (stM (stack A) scriptError).

Definition set_stk (l : list A) : stackM unit := fun s => Ok (tt, MkStack l (verifyMinimalData s)).

Definition Depth (s : stack A) : Z := i32 (Z.of_nat (length (stk s))).

Definition PushByteArray (so : A) : stackM unit := fun s =>
  Ok (tt, MkStack (stk s ++ [so]) (verifyMinimalData s)).

(** [s.stk[i]] with an [int32] index. *)
Definition item (s : stack A) (i : Z) : res scriptError A := index (stk s) i.

Definition PeekByteArray (idx : Z) : stackM A := fun s =>
  let sz := i32 (Z.of_nat (length (stk s))) in
  if (idx <? 0) || (idx >=? sz) then Err ErrStackUnderflow
  else so ← item s (i32 (sz - idx - 1)); Ok (so, s).

Definition nipN (idx : Z) : stackM A := fun s =>
  let sz := i32 (Z.of_nat (length (stk s))) in
  if (idx <? 0) || (idx >? sz - 1) then Err ErrStackUnderflow
  else
    so ← item s (i32 (sz - idx - 1));
    rest ←
      (if idx =? 0 then z_slice (stk s) 0 (sz - 1)
       else if idx =? sz - 1 then z_slice (stk s) 1 (Z.of_nat (length (stk s)))
       else
         s1 ← z_slice (stk s) (sz - idx) sz;
         below ← z_slice (stk s) 0 (sz - idx - 1);
         Ok (below ++ s1));
    Ok (so, MkStack rest (verifyMinimalData s)).

Definition PopByteArray : stackM A := nipN 0.

Definition NipN (idx : Z) : stackM unit := _ ← nipN idx; mret tt.

Definition Tuck : stackM unit :=
  so2 ← PopByteArray;
  so1 ← PopByteArray;
  _ ← PushByteArray so2;
  _ ← PushByteArray so1;
  PushByteArray so2.

(** [for ; n > 0; n--] with a body that may fail. *)
Fixpoint times (n : nat) (body : stackM unit) : stackM unit :=
  match n with
  | O => mret tt
  | S n => _ ← body; times n body
  end.

(** The guard on the argument of the operations on several items. *)
Definition need_args (n : Z) (m : stackM unit) : stackM unit :=
  if n <? 1 then fun _ => Err ErrStackInvalidArgs else m.

Definition DropN (n : Z) : stackM unit :=
  need_args n (times (Z.to_nat n) (_ ← PopByteArray; mret tt)).

Definition DupN (n : Z) : stackM unit :=
  need_args n (times (Z.to_nat n) (so ← PeekByteArray (n - 1); PushByteArray so)).

Definition RotN (n : Z) : stackM unit :=
  need_args n (times (Z.to_nat n) (so ← nipN (i32 (3 * n - 1)); PushByteArray so)).

Definition SwapN (n : Z) : stackM unit :=
  need_args n (times (Z.to_nat n) (so ← nipN (i32 (2 * n - 1)); PushByteArray so)).

Definition OverN (n : Z) : stackM unit :=
  need_args n (times (Z.to_nat n) (so ← PeekByteArray (i32 (2 * n - 1)); PushByteArray so)).

Definition PickN (n : Z) : stackM unit := so ← PeekByteArray n; PushByteArray so.

Definition RollN (n : Z) : stackM unit := so ← nipN n; PushByteArray so.

(** Items read as numbers and booleans. *)
Section view.
Context (view : A -> bytes).

Definition PopInt (maxLen : Z) : stackM Z := fun s =>
  '(so, s') ← PopByteArray s;
  n ← makeScriptNum (view so) (verifyMinimalData s) maxLen;
  Ok (n, s').

Definition PopBool : stackM bool := so ← PopByteArray; mret (asBool (view so)).

Definition PeekInt (idx : Z) : stackM Z := fun s =>
  '(so, s') ← PeekByteArray idx s;
  n ← makeScriptNum (view so) (verifyMinimalData s) mathOpCodeMaxScriptNumLen;
  Ok (n, s').

Definition PeekBool (idx : Z) : stackM bool := so ← PeekByteArray idx; mret (asBool (view so)).

End view.

(** [getStack] and [setStack] of [txscript/engine.go]: the items bottom up, and the stack
    with given items. *)
Fixpoint get_loop (n : nat) (i : Z) (s : stack A) : res scriptError (list A) :=
  match n with
  | O => Ok []
  | S n => '(so, _) ← PeekByteArray i s; l ← get_loop n (i + 1) s; Ok (l ++ [so])
  end.

Definition getStack (s : stack A) : res scriptError (list A) := get_loop (Z.to_nat (Depth s)) 0 s.

Definition setStack (data : list A) : stackM unit := fun s =>
  let s := match DropN (Depth s) s with Ok (_, s') => s' | _ => s end in
  Ok (tt, MkStack (stk s ++ data) (verifyMinimalData s)).

(** ** The items on top *)

(** The stacks of the engine never come near the range of an [int32]. *)
Definition small (s : stack A) : Prop := Z.of_nat (length (stk s)) < 2 ^ 31.

Lemma size_small s : small s -> i32 (Z.of_nat (length (stk s))) = Z.of_nat (length (stk s)).
Proof. intros H. apply i32_small. unfold small, is_i32 in *. lia. Qed.

Lemma nip_spec base x ys m k : Z.of_nat (length (base ++ x :: ys)) < 2 ^ 31 -> k = Z.of_nat (length ys) ->
  nipN k (MkStack (base ++ x :: ys) m) = Ok (x, MkStack (base ++ ys) m).
Proof.
  intros Hs ->. unfold nipN. rewrite size_small by done. cbn [stk verifyMinimalData].
  rewrite length_app in *. cbn [length] in *.
  destruct (Z.ltb_spec (Z.of_nat (length ys)) 0); [lia|].
  rewrite Z.gtb_ltb. destruct (Z.ltb_spec (Z.of_nat (length base + S (length ys)) - 1) (Z.of_nat (length ys))); [lia|].
  cbn [orb]. rewrite i32_small by (unfold is_i32; lia).
  replace (Z.of_nat (length base + S (length ys)) - Z.of_nat (length ys) - 1) with (Z.of_nat (length base)) by lia.
  unfold item. cbn [stk]. rewrite index_app. cbn [mbind res_bind].
  destruct (Z.eqb_spec (Z.of_nat (length ys)) 0) as [Hz|].
  { destruct ys; [|cbn in Hz; lia]. change (base ++ [x]) with ([] ++ base ++ [x]).
    rewrite z_slice_app by (cbn; lia). cbn. by rewrite app_nil_r. }
  destruct (Z.eqb_spec (Z.of_nat (length ys)) (Z.of_nat (length base + S (length ys)) - 1)) as [Hz|].
  { destruct base; [|cbn in Hz; lia]. pose proof (z_slice_app (E := scriptError) [x] ys [] 1) as H'.
    rewrite app_nil_r in H'. cbn [app]. rewrite H' by (cbn [length]; lia). done. }
  pose proof (z_slice_app (E := scriptError) (base ++ [x]) ys []) as H'.
  rewrite app_nil_r, <- app_assoc in H'. cbn [app] in H'. rewrite (H' (_ - _)) by (rewrite ?length_app; cbn [length]; lia).
  cbn [mbind res_bind]. change (base ++ x :: ys) with ([] ++ base ++ x :: ys).
  rewrite z_slice_app by (cbn; lia). done.
Qed.

Lemma peek_spec base x ys m k : Z.of_nat (length (base ++ x :: ys)) < 2 ^ 31 -> k = Z.of_nat (length ys) ->
  PeekByteArray k (MkStack (base ++ x :: ys) m) = Ok (x, MkStack (base ++ x :: ys) m).
Proof.
  intros Hs ->. unfold PeekByteArray. rewrite size_small by done. cbn [stk verifyMinimalData].
  rewrite length_app in *. cbn [length] in *.
  destruct (Z.ltb_spec (Z.of_nat (length ys)) 0); [lia|].
  rewrite Z.geb_leb. destruct (Z.leb_spec (Z.of_nat (length base + S (length ys))) (Z.of_nat (length ys))); [lia|].
  cbn [orb]. rewrite i32_small by (unfold is_i32; lia).
  replace (Z.of_nat (length base + S (length ys)) - Z.of_nat (length ys) - 1) with (Z.of_nat (length base)) by lia.
  unfold item. cbn [stk]. by rewrite index_app.
Qed.

Lemma nip_underflow s k : small s -> k < 0 \/ Z.of_nat (length (stk s)) <= k -> nipN k s = Err ErrStackUnderflow.
Proof.
  intros Hs Hk. unfold nipN. rewrite size_small by done. rewrite Z.gtb_ltb.
  destruct (Z.ltb_spec k 0); [done|]. destruct (Z.ltb_spec (Z.of_nat (length (stk s)) - 1) k); [done|lia].
Qed.

Lemma peek_underflow s k : small s -> k < 0 \/ Z.of_nat (length (stk s)) <= k ->
  PeekByteArray k s = Err ErrStackUnderflow.
Proof.
  intros Hs Hk. unfold PeekByteArray. rewrite size_small by done. rewrite Z.geb_leb.
  destruct (Z.ltb_spec k 0); [done|]. destruct (Z.leb_spec (Z.of_nat (length (stk s))) k); [done|lia].
Qed.

(** ** Loops of the operations on several items *)

Lemma roll_step base x ys m k :
  Z.of_nat (length (base ++ x :: ys)) < 2 ^ 31 -> k = Z.of_nat (length ys) ->
  (so ← nipN k; PushByteArray so) (MkStack (base ++ x :: ys) m) = Ok (tt, MkStack (base ++ ys ++ [x]) m).
Proof.
  intros Hs Hk. rewrite (stM_step _ _ _ _ _ (nip_spec base x ys m k Hs Hk)).
  unfold PushByteArray. cbn. by rewrite <- app_assoc.
Qed.

Lemma copy_step base x ys m k :
  Z.of_nat (length (base ++ x :: ys)) < 2 ^ 31 -> k = Z.of_nat (length ys) ->
  (so ← PeekByteArray k; PushByteArray so) (MkStack (base ++ x :: ys) m) =
    Ok (tt, MkStack (base ++ x :: ys ++ [x]) m).
Proof.
  intros Hs Hk. rewrite (stM_step _ _ _ _ _ (peek_spec base x ys m k Hs Hk)).
  unfold PushByteArray. cbn. by rewrite <- app_assoc.
Qed.

Lemma roll_loop (x1 : list A) : forall base ys m k,
  Z.of_nat (length (base ++ x1 ++ ys)) < 2 ^ 31 -> k = Z.of_nat (length (x1 ++ ys)) - 1 ->
  times (length x1) (so ← nipN k; PushByteArray so) (MkStack (base ++ x1 ++ ys) m) =
    Ok (tt, MkStack (base ++ ys ++ x1) m).
Proof.
  induction x1 as [|x x1 IH]; intros base ys m k Hs Hk; cbn [times length].
  { by rewrite app_nil_r. }
  cbn [app] in *. erewrite stM_step by (apply roll_step; lens). cbn [app]. rewrite <- app_assoc.
  rewrite (IH base (ys ++ [x])) by lens. by rewrite <- !app_assoc.
Qed.

Lemma peek_loop (x1 : list A) : forall base ys m k,
  Z.of_nat (length (base ++ x1 ++ ys ++ x1)) < 2 ^ 31 -> k = Z.of_nat (length (x1 ++ ys)) - 1 ->
  times (length x1) (so ← PeekByteArray k; PushByteArray so) (MkStack (base ++ x1 ++ ys) m) =
    Ok (tt, MkStack (base ++ x1 ++ ys ++ x1) m).
Proof.
  induction x1 as [|x x1 IH]; intros base ys m k Hs Hk; cbn [times length].
  { by rewrite app_nil_r. }
  cbn [app] in *. erewrite stM_step by (apply copy_step; lens).
  pose proof (IH (base ++ [x]) (ys ++ [x]) m k) as H. rewrite <- !app_assoc in *. cbn [app] in *.
  apply H; lens.
Qed.

Lemma pop_spec base x m : Z.of_nat (length (base ++ [x])) < 2 ^ 31 ->
  PopByteArray (MkStack (base ++ [x]) m) = Ok (x, MkStack base m).
Proof. intros Hs. unfold PopByteArray. rewrite nip_spec by done. by rewrite app_nil_r. Qed.

Lemma pop_underflow m : PopByteArray (MkStack [] m) = Err ErrStackUnderflow.
Proof. reflexivity. Qed.

Lemma drop_step base x m : Z.of_nat (length (base ++ [x])) < 2 ^ 31 ->
  (_ ← PopByteArray; mret tt) (MkStack (base ++ [x]) m) = Ok (tt, MkStack base m).
Proof. intros Hs. by rewrite (stM_step _ _ _ _ _ (pop_spec base x m Hs)). Qed.

Lemma drop_loop (xs : list A) : forall base m, Z.of_nat (length (base ++ xs)) < 2 ^ 31 ->
  times (length xs) (_ ← PopByteArray; mret tt) (MkStack (base ++ xs) m) = Ok (tt, MkStack base m).
Proof.
  induction xs as [|x xs IH] using rev_ind; intros base m Hs.
  { by rewrite app_nil_r. }
  rewrite (length_app xs [x]). cbn [length]. rewrite Nat.add_1_r. cbn [times]. rewrite app_assoc in *.
  rewrite (stM_step _ _ _ _ _ (drop_step _ _ _ Hs)). apply IH. lens.
Qed.

Lemma drop_underflow n : forall s, small s -> Z.of_nat (length (stk s)) < Z.of_nat n ->
  times n (_ ← PopByteArray; mret tt) s = Err ErrStackUnderflow.
Proof.
  induction n as [|n IH]; intros [l m] Hs Hn; [lia|]. cbn [times].
  destruct l as [|x l _] using rev_ind; [done|]. unfold small in *. cbn [stk] in *.
  rewrite (stM_step _ _ _ _ _ (drop_step _ _ _ Hs)). apply IH; unfold small; cbn [stk]; lens.
Qed.

Lemma first_underflow n k (f : A -> stackM unit) (get : Z -> stackM A) s :
  get k s = Err ErrStackUnderflow -> times (S n) (so ← get k; f so) s = Err ErrStackUnderflow.
Proof.
  intros H. cbn [times]. by do 2 apply stM_step_err.
Qed.

Lemma get_loop_spec ys : forall base m, Z.of_nat (length (base ++ ys)) < 2 ^ 31 ->
  get_loop (length base) (Z.of_nat (length ys)) (MkStack (base ++ ys) m) = Ok base.
Proof.
  intros base. revert ys. induction base as [|x base IH] using rev_ind; intros ys m Hs; [done|].
  rewrite length_app. cbn [length]. rewrite Nat.add_1_r. cbn [get_loop]. rewrite <- app_assoc in *.
  cbn [app] in *. rewrite (peek_spec base x ys) by done. cbn.
  replace (Z.of_nat (length ys) + 1) with (Z.of_nat (length (x :: ys))) by (cbn; lia).
  by rewrite (IH (x :: ys)).
Qed.

Lemma getStack_spec s : small s -> getStack s = Ok (stk s).
Proof.
  destruct s as [l m]. intros Hs. unfold getStack, Depth. rewrite size_small by done. cbn [stk].
  rewrite Nat2Z.id. pose proof (get_loop_spec [] l m) as H. rewrite app_nil_r in H. by apply H.
Qed.

Lemma DropN_all s : small s -> stk s <> [] -> DropN (Depth s) s = Ok (tt, MkStack [] (verifyMinimalData s)).
Proof.
  destruct s as [l m]. intros Hs Hne. unfold DropN, need_args, Depth. rewrite size_small by done.
  cbn [stk verifyMinimalData] in *. destruct (Z.ltb_spec (Z.of_nat (length l)) 1).
  { destruct l; [done|cbn in *; lia]. }
  rewrite Nat2Z.id. by apply (drop_loop l []).
Qed.

Lemma setStack_spec data s : small s -> setStack data s = Ok (tt, MkStack data (verifyMinimalData s)).
Proof.
  intros Hs. unfold setStack. destruct (decide (stk s = [])) as [He|Hne].
  - assert (DropN (Depth s) s = Err ErrStackInvalidArgs) as -> by (destruct s; cbn in *; by subst).
    by rewrite He.
  - by rewrite DropN_all.
Qed.

Lemma need_args_pos n m : 1 <= n -> need_args n m = m.
Proof. intros H. unfold need_args. destruct (Z.ltb_spec n 1); [lia|done]. Qed.

Lemma first_fails n k (f : A -> stackM unit) (get : Z -> stackM A) s :
  1 <= n -> get k s = Err ErrStackUnderflow ->
  need_args n (times (Z.to_nat n) (so ← get k; f so)) s = Err ErrStackUnderflow.
Proof.
  intros Hn H. rewrite need_args_pos by done. destruct (Z.to_nat n) eqn:E; [lia|].
  by apply first_underflow.
Qed.

End stack.

Arguments stM_step {S E A B} m k s a s' _.

(** The stack operations do what their comments draw.  For every [n] and every stack
    (within the range of an int32) that has the items, DropN, DupN, RotN, SwapN, OverN,
    PickN, RollN, NipN and Tuck turn the top of the stack into the documented one and leave
    the items below alone; and when there are too few items the operations on [n] items
    return ErrStackUnderflow. *)
Theorem stack_transformations {A} (base x1 x2 x3 : list A) (x : A) (m : bool) (n : Z) :
  1 <= n < 2 ^ 20 -> Z.of_nat (length base) < 2 ^ 20 ->
  Z.of_nat (length x1) = n -> Z.of_nat (length x2) = n -> Z.of_nat (length x3) = n ->
  let s l := MkStack (base ++ l) m in
  let top l := Ok (tt, s l) in
  DropN n (s x1) = top [] /\
  DupN n (s x1) = top (x1 ++ x1) /\
  RotN n (s (x1 ++ x2 ++ x3)) = top (x2 ++ x3 ++ x1) /\
  SwapN n (s (x1 ++ x2)) = top (x2 ++ x1) /\
  OverN n (s (x1 ++ x2)) = top (x1 ++ x2 ++ x1) /\
  PickN n (s (x :: x1)) = top (x :: x1 ++ [x]) /\
  RollN n (s (x :: x1)) = top (x1 ++ [x]) /\
  NipN n (s (x :: x1)) = top x1 /\
  (forall y, Tuck (s [x; y]) = top [y; x; y]) /\
  (forall t : stack A, small t -> Z.of_nat (length (stk t)) < n ->
     DropN n t = Err ErrStackUnderflow /\ DupN n t = Err ErrStackUnderflow) /\
  (forall t : stack A, small t -> Z.of_nat (length (stk t)) < 2 * n ->
     SwapN n t = Err ErrStackUnderflow /\ OverN n t = Err ErrStackUnderflow) /\
  (forall t : stack A, small t -> Z.of_nat (length (stk t)) < 3 * n -> RotN n t = Err ErrStackUnderflow).
Proof.
  intros Hn Hb H1 H2 H3 s top. unfold top, s.
  assert (E3 : i32 (3 * n - 1) = 3 * n - 1) by (apply i32_small; unfold is_i32; lia).
  assert (E2 : i32 (2 * n - 1) = 2 * n - 1) by (apply i32_small; unfold is_i32; lia).
  assert (Hx : Z.to_nat n = length x1) by lia.
  unfold DropN, DupN, RotN, SwapN, OverN, PickN, RollN, NipN, Tuck. rewrite E2, E3.
  split_and!.
  - rewrite need_args_pos, Hx by lia. rewrite drop_loop by lens. by rewrite app_nil_r.
  - rewrite need_args_pos, Hx by lia. pose proof (peek_loop x1 base [] m (n - 1)) as H. cbn [app] in H. rewrite app_nil_r in H.
    apply H; lens.
  - rewrite need_args_pos, Hx by lia. rewrite (roll_loop x1 base (x2 ++ x3)) by lens. by rewrite <- app_assoc.
  - rewrite need_args_pos, Hx by lia. by rewrite roll_loop by lens.
  - rewrite need_args_pos, Hx by lia. by rewrite peek_loop by lens.
  - by rewrite copy_step by lens.
  - by rewrite roll_step by lens.
  - by erewrite stM_step by (apply nip_spec; lens).
  - intros y. change [x; y] with ([x] ++ [y]). rewrite app_assoc.
    erewrite stM_step by (apply pop_spec; lens). erewrite stM_step by (apply pop_spec; lens).
    unfold mbind, stM_bind, PushByteArray. cbn. by rewrite <- !app_assoc.
  - intros t Ht Hl. split.
    + rewrite need_args_pos by lia. apply drop_underflow; [done|lia].
    + apply first_fails; [lia|]. apply peek_underflow; [done|lia].
  - intros t Ht Hl. split; (apply first_fails; [lia|]).
    + apply nip_underflow; [done|lia].
    + apply peek_underflow; [done|lia].
  - intros t Ht Hl. apply first_fails; [lia|]. apply nip_underflow; [done|lia].
Qed.

Lemma stack_transformations_witness :
  SwapN 2 (MkStack [0; 1; 2; 3; 4] false) = Ok (tt, MkStack [0; 3; 4; 1; 2] false) /\
  RotN 1 (MkStack [1; 2] false) = Err ErrStackUnderflow.
Proof.
  split.
  - destruct (stack_transformations [0] [1; 2] [3; 4] [5; 6] 7 false 2) as (_ & _ & _ & H & _);
      [lia|reflexivity..|exact H].
  - destruct (stack_transformations [0] [1] [2] [3] 7 false 1) as (_ & _ & _ & _ & _ & _ & _ & _ & _ & _ & _ & H);
      [lia|reflexivity..|]. apply H; reflexivity.
Defined.
