(* ===== verification/Script.v ===== *)
(** * Parsing and classifying scripts

    The parser of [txscript/script.go] with the inverse it is meant to have, the parsed
    opcodes of [txscript/opcode.go], and the questions that [txscript/script.go] and
    [txscript/standard.go] ask about parsed scripts.

    The data of a parsed opcode is a slice of the script.  The parser is polymorphic in
    how that slice is represented ([D]): the classification below takes its bytes, and the
    engine a reference into the memory of the script.  [None] is the nil slice. *)

From S2P Require Import Prelude Opcodes ScriptNum.
From stdpp Require Import list strings.
#[local] Open Scope Z_scope.

Definition MaxOpsPerScript : Z := 255.
Definition MaxPubKeysPerMultiSig : Z := 20.
Definition MaxScriptElementSize : Z := 8192.
Definition maxScriptSize : Z := 16384.
Definition DefaultScriptVersion : Z := 0.
Definition MaxDataCarrierSize : Z := 256.

Record parsedOpcode (D : Type) := MkPop { pop_op : opcode; pop_data : option D }.
Arguments MkPop {D} _ _.
Arguments pop_op {D} _.
Arguments pop_data {D} _.

(** [opcodes[instr]] for a byte [instr]. *)
Definition opcode_at (instr : Z) : opcode :=
  nth (Z.to_nat instr) opcodeArray (MkOpcode OP_FALSE "OP_0" 1 F_opcodeFalse).

(** ** Parsing *)

(** One round of the loop: the opcode at [i], its data as offset and length, and the next
    position; or the error it stops with.  [OutOfRange] is no error of the code: it marks a
    read or a slice beyond the end of the script, where the code panics. *)
Definition parse_data (script : bytes) (i : nat) (op : opcode)
    : option (nat * nat) * nat + scriptError :=
  let len := Z.of_nat (length script) in
  let i' := Z.of_nat i in
  let cut off n next :=
    if (off + n <=? length script)%nat then inl (Some (off, n), next) else inr OutOfRange in
  if op_length op =? 1 then inl (None, S i)
  else if op_length op >? 1 then
    if len - i' <? op_length op then inr ErrStackShortScript
    else cut (S i) (Z.to_nat (op_length op - 1)) (Z.to_nat (i' + op_length op))
  else if op_length op <? 0 then
    let off := i' + 1 in
    if len - off <? - op_length op then inr ErrStackShortScript
    else
      let b k := index script (off + k) in
      match
        (if op_length op =? -1 then b 0
         else if op_length op =? -2 then b1 ← b 1; b0 ← b 0; Ok (Z.lor (Z.shiftl b1 8) b0)
         else if op_length op =? -4
         then
           b3 ← b 3; b2 ← b 2; b1 ← b 1; b0 ← b 0;
           Ok (Z.lor (Z.lor (Z.lor (Z.shiftl b3 24) (Z.shiftl b2 16)) (Z.shiftl b1 8)) b0)
         else Err InvalidOpcodeLength)
      with
      | Panic => inr OutOfRange
      | Err e => inr e
      | Ok l =>
          let off := off + - op_length op in
          if (i64 l >? len - off) || (i64 l <? 0) then inr ErrStackShortScript
          else cut (Z.to_nat off) (Z.to_nat l) (Z.to_nat (i' + (1 - op_length op + l)))
      end
  else inl (None, i).

(** The opcode byte at [i]; in the parser for scripts of 26 bytes, which reads the bytes 1
    to 16 at offset 24 as OP_1 to OP_16, [alt] is set. *)
Definition instr_at (alt : bool) (script : bytes) (i : nat) : Z :=
  let instr := byte_at script i in
  if alt && (i =? 24)%nat && (instr >=? OP_DATA_1) && (instr <=? OP_DATA_16)
  then u8 (instr + 80) else instr.

Section parse.
Context {D : Type} (mk : nat -> nat -> D).

(** The loop; when it stops with an error the opcodes up to it are kept.  Every round
    moves on by a byte at least, so the length of the script is enough fuel. *)
Fixpoint parse_loop (alt : bool) (script : bytes) (fuel i : nat)
    : list (parsedOpcode D) * option scriptError :=
  if (length script <=? i)%nat then ([], None)
  else
    match fuel with
    | O => ([], Some StillRunning)
    | S fuel =>
        let op := opcode_at (instr_at alt script i) in
        match parse_data script i op with
        | inr e => ([], Some e)
        | inl (d, i') =>
            let '(pops, err) := parse_loop alt script fuel i' in
            (MkPop op ((fun '(off, n) => mk off n) <$> d) :: pops, err)
        end
    end.

Definition parseScriptTemplate (script : bytes) : list (parsedOpcode D) * option scriptError :=
  parse_loop false script (length script) 0.

Definition parseAltScriptTemplate (script : bytes) : list (parsedOpcode D) * option scriptError :=
  parse_loop true script (length script) 0.

Definition parse_with (script : bytes) : list (parsedOpcode D) * option scriptError :=
  if (length script =? 26)%nat then parseAltScriptTemplate script
  else parseScriptTemplate script.

End parse.

(** The bytes of a slice of the script. *)
Definition slice_bytes (script : bytes) (off n : nat) : bytes := take n (drop off script).

Notation pop := (parsedOpcode (list Z)).

Definition parseScript (script : bytes) : list pop * option scriptError :=
  parse_with (slice_bytes script) script.

(** [pops, err := parseScript(script)] followed by [if err != nil { return err }]. *)
Definition parse_ok (script : bytes) : res scriptError (list pop) :=
  match parseScript script with
  | (pops, None) => Ok pops
  | (_, Some e) => Err e
  end.

(** ** Parsed opcodes *)

Section pops.
Context {D : Type}.

Definition pop_value (p : parsedOpcode D) : Z := op_value (pop_op p).

Definition isDisabled (p : parsedOpcode D) : bool := pop_value p =? OP_CODESEPARATOR.

Definition alwaysIllegal (p : parsedOpcode D) : bool :=
  (pop_value p =? OP_VERIF) || (pop_value p =? OP_VERNOTIF).

Definition isConditional (p : parsedOpcode D) : bool :=
  (pop_value p =? OP_IF) || (pop_value p =? OP_NOTIF) || (pop_value p =? OP_ELSE) ||
  (pop_value p =? OP_ENDIF).

(** The bytes of the data; those of a nil slice are none. *)
Definition data_of (view : D -> bytes) (p : parsedOpcode D) : bytes :=
  match pop_data p with Some d => view d | None => [] end.

Definition checkMinimalDataPush (view : D -> bytes) (p : parsedOpcode D) : res scriptError unit :=
  let data := data_of view p in
  let dataLen := Z.of_nat (length data) in
  let opcode := pop_value p in
  if (dataLen =? 0) && negb (opcode =? OP_0) then Err ErrStackMinimalData
  else
  small ← and_first (dataLen =? 1) data (fun d0 => (d0 >=? 1) && (d0 <=? 16));
  if small : bool then
    d0 ← index data 0;
    guard_err (negb (opcode =? u8 (OP_1 + d0 - 1))) ErrStackMinimalData
  else
  minus ← and_first (dataLen =? 1) data (fun d0 => d0 =? 0x81);
  if minus : bool then guard_err (negb (opcode =? OP_1NEGATE)) ErrStackMinimalData
  else if dataLen <=? 75 then guard_err (negb (opcode =? dataLen)) ErrStackMinimalData
  else if dataLen <=? 255 then guard_err (negb (opcode =? OP_PUSHDATA1)) ErrStackMinimalData
  else if dataLen <=? 65535 then guard_err (negb (opcode =? OP_PUSHDATA2)) ErrStackMinimalData
  else Ok tt.

(** [parsedOpcode.bytes] *)
Definition pop_bytes (view : D -> bytes) (p : parsedOpcode D) : res scriptError bytes :=
  let data := data_of view p in
  let len := op_length (pop_op p) in
  let ret := [pop_value p] in
  if len =? 1
  then if negb (length data =? 0)%nat then Err ErrStackInvalidOpcode else Ok ret
  else
    let l := Z.of_nat (length data) in
    let '(ret, nbytes) :=
      if len <? 0
      then
        if len =? -1 then
          let ret := ret ++ [u8 l] in (ret, get_le (drop 1 ret) + Z.of_nat (length ret))
        else if len =? -2 then
          let ret := ret ++ [u8 (Z.land l 0xff); u8 (Z.land (Z.shiftr l 8) 0xff)] in
          (ret, get_le (drop 1 ret) + Z.of_nat (length ret))
        else if len =? -4 then
          let ret := ret ++ [u8 (Z.land l 0xff); u8 (Z.land (Z.shiftr l 8) 0xff);
                             u8 (Z.land (Z.shiftr l 16) 0xff); u8 (Z.land (Z.shiftr l 24) 0xff)] in
          (ret, get_le (drop 1 ret) + Z.of_nat (length ret))
        else (ret, len)
      else (ret, len) in
    let ret := ret ++ data in
    if negb (Z.of_nat (length ret) =? nbytes) then Err ErrStackInvalidOpcode else Ok ret.

Fixpoint unparseScript (view : D -> bytes) (pops : list (parsedOpcode D)) : res scriptError bytes :=
  match pops with
  | [] => Ok []
  | p :: pops => b ← pop_bytes view p; script ← unparseScript view pops; Ok (b ++ script)
  end.

Definition removeOpcode (pkscript : list (parsedOpcode D)) (opcode : Z) : list (parsedOpcode D) :=
  filter (fun p => pop_value p <> opcode) pkscript.

Definition canonicalPush (view : D -> bytes) (p : parsedOpcode D) : bool :=
  let opcode := pop_value p in
  let data := data_of view p in
  let dataLen := Z.of_nat (length data) in
  if opcode >? OP_16 then true
  else if (opcode <? OP_PUSHDATA1) && (opcode >? OP_0) && ((dataLen =? 1) && (byte_at data 0 <=? 16))
  then false
  else if (opcode =? OP_PUSHDATA1) && (dataLen <? OP_PUSHDATA1) then false
  else if (opcode =? OP_PUSHDATA2) && (dataLen <=? 0xff) then false
  else if (opcode =? OP_PUSHDATA4) && (dataLen <=? 0xffff) then false
  else true.

(** [bytes.Contains] *)
Fixpoint contains (b sub : bytes) : bool :=
  bool_decide (take (length sub) b = sub) ||
  match b with
  | [] => false
  | _ :: b => contains b sub
  end.

Definition removeOpcodeByData (view : D -> bytes) (pkscript : list (parsedOpcode D)) (data : bytes)
    : list (parsedOpcode D) :=
  filter (fun p => negb (canonicalPush view p) || negb (contains (data_of view p) data)) pkscript.

Definition isSmallInt (op : opcode) : bool :=
  (op_value op =? OP_0) || ((op_value op >=? OP_1) && (op_value op <=? OP_16)).

Definition asSmallInt (op : opcode) : Z :=
  if op_value op =? OP_0 then 0 else u8 (op_value op - (OP_1 - 1)).

Definition isPushOnly (pops : list (parsedOpcode D)) : bool :=
  forallb (fun p => negb (pop_value p >? OP_16)) pops.

(** [len(pops[i].data)] and [pops[i].opcode.value], for an index in range. *)
Definition val_at (pops : list (parsedOpcode D)) (i : nat) : Z :=
  match pops !! i with Some p => pop_value p | None => 0 end.

Definition len_at (view : D -> bytes) (pops : list (parsedOpcode D)) (i : nat) : Z :=
  match pops !! i with Some p => Z.of_nat (length (data_of view p)) | None => 0 end.

(** The counting loop, with the opcode before the current one. *)
Fixpoint sigop_loop (precise : bool) (prev : option opcode) (pops : list (parsedOpcode D)) (nSigs : Z) : Z :=
  match pops with
  | [] => nSigs
  | p :: pops =>
      let v := pop_value p in
      let nSigs :=
        if (v =? OP_CHECKSIG) || (v =? OP_CHECKSIGVERIFY) || (v =? OP_CHECKSIGALT) ||
           (v =? OP_CHECKSIGALTVERIFY)
        then nSigs + 1
        else if (v =? OP_CHECKMULTISIG) || (v =? OP_CHECKMULTISIGVERIFY) then
          match prev with
          | Some q =>
              if precise && (op_value q >=? OP_1) && (op_value q <=? OP_16)
              then nSigs + asSmallInt q else nSigs + MaxPubKeysPerMultiSig
          | None => nSigs + MaxPubKeysPerMultiSig
          end
        else nSigs in
      sigop_loop precise (Some (pop_op p)) pops nSigs
  end.

Definition getSigOpCount (pops : list (parsedOpcode D)) (precise : bool) : Z :=
  sigop_loop precise None pops 0.

End pops.

(** ** Classification *)

Inductive ScriptClass :=
| NonStandardTy | PubKeyTy | PubKeyHashTy | ScriptHashTy | MultiSigTy | NullDataTy
| StakeSubmissionTy | StakeGenTy | StakeRevocationTy | StakeSubChangeTy
| PubkeyAltTy | PubkeyHashAltTy.

#[export] Instance ScriptClass_eq_dec : EqDecision ScriptClass.
Proof. solve_decision. Defined.

Section classify.
Context {D : Type} (view : D -> bytes).
Notation pops := (list (parsedOpcode D)).

(** [len(pops) == n && pops[0].opcode.value == v0 && ...] *)
Definition opcodes_are (l : pops) (vs : list Z) : bool :=
  (length l =? length vs)%nat && forallb (fun '(p, v) => pop_value p =? v) (zip l vs).

Definition isPubkey (l : pops) : bool :=
  (length l =? 2)%nat && ((len_at view l 0 =? 33) || (len_at view l 0 =? 65)) &&
  (val_at l 1 =? OP_CHECKSIG).

Definition isOneByteMaxDataPush (v : Z) : bool :=
  let value := if v <? OP_1 then u8 (v + 80) else v in
  (value =? OP_1) || (value =? OP_2) || (value =? OP_3) || (value =? OP_4) || (value =? OP_5) ||
  (value =? OP_6) || (value =? OP_7) || (value =? OP_8) || (value =? OP_9) || (value =? OP_10) ||
  (value =? OP_11) || (value =? OP_12) || (value =? OP_13) || (value =? OP_14) ||
  (value =? OP_15) || (value =? OP_16) || (value =? OP_DATA_1).

Definition isPubkeyAlt (l : pops) : bool :=
  (length l =? 3)%nat && (len_at view l 0 <? 512) && isOneByteMaxDataPush (val_at l 1) &&
  (val_at l 2 =? OP_CHECKSIGALT).

Definition isPubkeyHash (l : pops) : bool :=
  opcodes_are l [OP_DUP; OP_HASH160; OP_DATA_20; OP_EQUALVERIFY; OP_CHECKSIG].

Definition isPubkeyHashAlt (l : pops) : bool :=
  (length l =? 6)%nat && (val_at l 0 =? OP_DUP) && (val_at l 1 =? OP_HASH160) &&
  (val_at l 2 =? OP_DATA_20) && (val_at l 3 =? OP_EQUALVERIFY) &&
  isOneByteMaxDataPush (val_at l 4) && (val_at l 5 =? OP_CHECKSIGALT).

Definition isScriptHash (l : pops) : bool := opcodes_are l [OP_HASH160; OP_DATA_20; OP_EQUAL].

Definition isStakeOpcode (v : Z) : bool := (v >=? 186) && (v <=? 189).

Definition isAnyKindOfScriptHash (l : pops) : bool :=
  if isScriptHash l then true
  else
    (length l =? 4)%nat && isStakeOpcode (val_at l 0) && (val_at l 1 =? OP_HASH160) &&
    (val_at l 2 =? OP_DATA_20) && (val_at l 3 =? OP_EQUAL).

(** [isSmallInt(pops[i].opcode)] and [asSmallInt(pops[i].opcode)] *)
Definition small_at (l : pops) (i : nat) : bool :=
  match l !! i with Some p => isSmallInt (pop_op p) | None => false end.
Definition int_at (l : pops) (i : nat) : Z :=
  match l !! i with Some p => asSmallInt (pop_op p) | None => 0 end.

Definition isMultiSig (l : pops) : bool :=
  let n := length l in
  if (n <? 4)%nat then false
  else if negb (small_at l 0) then false
  else if negb (small_at l (n - 2)) then false
  else if negb (val_at l (n - 1) =? OP_CHECKMULTISIG) then false
  else if negb (Z.of_nat (n - 2 - 1) =? int_at l (n - 2)) then false
  else forallb (fun p => let k := length (data_of view p) in (k =? 33)%nat || (k =? 65)%nat)
         (take (n - 3) (drop 1 l)).

Definition isNullData (l : pops) : bool :=
  if (length l =? 1)%nat && (val_at l 0 =? OP_RETURN) then true
  else
    (length l =? 2)%nat && (val_at l 0 =? OP_RETURN) && (val_at l 1 <=? OP_PUSHDATA4) &&
    (len_at view l 1 <=? MaxDataCarrierSize).

(** The four stake tags have the same two forms: the tag before a pay-to-pubkey-hash or a
    pay-to-script-hash script. *)
Definition tagged (tag : Z) (l : pops) : bool :=
  opcodes_are l [tag; OP_DUP; OP_HASH160; OP_DATA_20; OP_EQUALVERIFY; OP_CHECKSIG] ||
  opcodes_are l [tag; OP_HASH160; OP_DATA_20; OP_EQUAL].

Definition isStakeSubmission (l : pops) : bool := tagged OP_SSTX l.
Definition isStakeGen (l : pops) : bool := tagged OP_SSGEN l.
Definition isStakeRevocation (l : pops) : bool := tagged OP_SSRTX l.
Definition isSStxChange (l : pops) : bool := tagged OP_SSTXCHANGE l.

Definition typeOfScript (l : pops) : ScriptClass :=
  if isPubkey l then PubKeyTy
  else if isPubkeyAlt l then PubkeyAltTy
  else if isPubkeyHash l then PubKeyHashTy
  else if isPubkeyHashAlt l then PubkeyHashAltTy
  else if isScriptHash l then ScriptHashTy
  else if isMultiSig l then MultiSigTy
  else if isNullData l then NullDataTy
  else if isStakeSubmission l then StakeSubmissionTy
  else if isStakeGen l then StakeGenTy
  else if isStakeRevocation l then StakeRevocationTy
  else if isSStxChange l then StakeSubChangeTy
  else NonStandardTy.

End classify.

Definition class_of (l : list pop) : ScriptClass := typeOfScript (fun d => d) l.

Definition GetScriptClass (version : Z) (script : bytes) : ScriptClass :=
  if negb (version =? DefaultScriptVersion) then NonStandardTy
  else
    match parseScript script with
    | (pops, None) => class_of pops
    | (_, Some _) => NonStandardTy
    end.

Definition is_stake_class (c : ScriptClass) : bool :=
  bool_decide (c = StakeSubmissionTy) || bool_decide (c = StakeGenTy) ||
  bool_decide (c = StakeRevocationTy) || bool_decide (c = StakeSubChangeTy).

Definition IsStakeOutput (pkScript : bytes) : bool :=
  match parseScript pkScript with
  | (pops, None) => is_stake_class (class_of pops)
  | (_, Some _) => false
  end.

Definition GetStakeOutSubclass (pkScript : bytes) : res scriptError ScriptClass :=
  pops ← parse_ok pkScript;
  if is_stake_class (class_of pops)
  then Ok (class_of (filter (fun p => negb (isStakeOpcode (pop_value p))) pops))
  else Err NotStakeOutput.

Definition ContainsStakeOpCodes (pkScript : bytes) : res scriptError bool :=
  pops ← parse_ok pkScript;
  Ok (existsb (fun p => isStakeOpcode (pop_value p)) pops).

Definition IsPayToScriptHash (script : bytes) : bool :=
  match parseScript script with (pops, None) => isScriptHash pops | _ => false end.

Definition IsPushOnlyScript (script : bytes) : bool :=
  match parseScript script with (pops, None) => isPushOnly pops | _ => false end.

Definition IsMultisigScript (script : bytes) : res scriptError bool :=
  pops ← parse_ok script; Ok (isMultiSig (fun d => d) pops).

(** [pops[len(pops)-1].data] *)
Definition last_data (pops : list pop) : res scriptError bytes :=
  p ← or_panic (last pops); Ok (data_of (fun d => d) p).

Definition IsMultisigSigScript (script : bytes) : res scriptError bool :=
  if (length script =? 0)%nat then Ok false
  else
    match parseScript script with
    | (pops, None) =>
        d ← last_data pops;
        match parseScript d with
        | (subPops, None) => Ok (isMultiSig (fun d => d) subPops)
        | _ => Ok false
        end
    | _ => Ok false
    end.

(** The data that a parsed opcode contributes; [None] is nothing. *)
Definition pushed (p : pop) : option bytes :=
  match pop_data p with
  | Some d => Some d
  | None => if pop_value p =? OP_0 then Some [] else None
  end.

Definition PushedData (script : bytes) : res scriptError (list bytes) :=
  pops ← parse_ok script; Ok (omap pushed (pops : list pop)).

(** The error of GetStakeOutSubclass is dropped, and the class is then the zero value. *)
Definition HasP2SHScriptSigStakeOpCodes (version : Z) (scriptSig scriptPubKey : bytes)
    : res scriptError unit :=
  let class := GetScriptClass version scriptPubKey in
  let class :=
    if IsStakeOutput scriptPubKey
    then match GetStakeOutSubclass scriptPubKey with Ok c => c | _ => NonStandardTy end
    else class in
  if bool_decide (class = ScriptHashTy)
  then
    pData ← PushedData scriptSig;
    match last pData with
    | None => Err NoPushedData
    | Some shScript =>
        hasStakeOpCodes ← ContainsStakeOpCodes shScript;
        guard_err hasStakeOpCodes ErrP2SHStakeOpCodes
    end
  else Ok tt.

Definition GetSigOpCount (script : bytes) : Z := getSigOpCount (parseScript script).1 false.

Definition GetPreciseSigOpCount (scriptSig scriptPubKey : bytes) (bip16 : bool) : Z :=
  let pops := (parseScript scriptPubKey).1 in
  if negb (bip16 && isScriptHash pops) then getSigOpCount pops true
  else
    match parseScript scriptSig with
    | (_, Some _) => 0
    | (sigPops, None) =>
        if negb (isPushOnly sigPops) then 0
        else
          match last sigPops with
          | None => 0
          | Some p =>
              let shScript := data_of (fun d => d) p in
              if (length shScript =? 0)%nat then 0
              else getSigOpCount (parseScript shScript).1 true
          end
    end.

Definition IsUnspendable (amount : Z) (pkScript : bytes) : bool :=
  if amount =? 0 then true
  else
    match parseScript pkScript with
    | (_, Some _) => true
    | (pops, None) => (0 <? length pops)%nat && (val_at pops 0 =? OP_RETURN)
    end.

Definition expectedInputs (pops : list pop) (class subclass : ScriptClass) : Z :=
  match class with
  | PubKeyTy => 1
  | PubKeyHashTy => 2
  | StakeSubmissionTy | StakeGenTy | StakeRevocationTy | StakeSubChangeTy =>
      if bool_decide (subclass = PubKeyHashTy) then 2 else 1
  | ScriptHashTy => 1
  | MultiSigTy => int_at pops 0
  | _ => -1
  end.

Record ScriptInfo := MkScriptInfo {
  PkScriptClass : ScriptClass;
  NumInputs : Z;
  ExpectedInputs : Z;
  SigOps : Z
}.

Definition CalcScriptInfo (sigScript pkScript : bytes) (bip16 : bool) : res scriptError ScriptInfo :=
  sigPops ← parse_ok sigScript;
  pkPops ← parse_ok pkScript;
  let class := class_of pkPops in
  if negb (isPushOnly sigPops) then Err ErrStackNonPushOnly
  else
    subClass ← (if is_stake_class class then GetStakeOutSubclass pkScript else Ok NonStandardTy);
    let expected := expectedInputs pkPops class subClass in
    let num := Z.of_nat (length sigPops) in
    if (bool_decide (class = ScriptHashTy) || bool_decide (subClass = ScriptHashTy)) && bip16
    then
      script ← last_data sigPops;
      shPops ← parse_ok script;
      let shInputs := expectedInputs shPops (class_of shPops) NonStandardTy in
      let expected := if shInputs =? -1 then -1 else expected + shInputs in
      Ok (MkScriptInfo class num expected (getSigOpCount shPops true))
    else Ok (MkScriptInfo class num expected (getSigOpCount pkPops true)).

Definition CalcMultiSigStats (script : bytes) : res scriptError (Z * Z) :=
  pops ← parse_ok script;
  if (length pops <? 4)%nat then Err ErrStackUnderflow
  else Ok (int_at pops (length pops - 2), int_at pops 0).

Definition MultisigRedeemScriptFromScriptSig (script : bytes) : res scriptError bytes :=
  pops ← parse_ok script; last_data pops.

Fixpoint hash_loop (reached : bool) (pops : list pop) : bytes :=
  match pops with
  | [] => []
  | p :: pops =>
      if pop_value p =? OP_HASH160 then hash_loop true pops
      else if reached then data_of (fun d => d) p
      else hash_loop reached pops
  end.

Definition GetScriptHashFromP2SHScript (pkScript : bytes) : res scriptError bytes :=
  pops ← parse_ok pkScript; Ok (hash_loop false pops).

Definition GetMultisigMandN (script : bytes) : res scriptError (Z * Z) :=
  pops ← parse_ok script;
  first ← or_panic (pops !! 0%nat);
  if (length pops <? 2)%nat then Panic
  else Ok (u8 (asSmallInt (pop_op first)), u8 (int_at pops (length pops - 2))).

Definition extractOneBytePush (p : pop) : res scriptError Z :=
  let v := pop_value p in
  if negb (isOneByteMaxDataPush v) then Ok (-1)
  else if (v >=? OP_1) && (v <=? OP_16) then Ok (u8 (v - 80))
  else or_panic (data_of (fun d => d) p !! 0%nat).

Definition GetNullDataContent (version : Z) (pkScript : bytes) : res scriptError bytes :=
  if negb (bool_decide (GetScriptClass version pkScript = NullDataTy)) then Err NotNullData
  else
    pops ← parse_ok pkScript;
    p ← or_panic (pops !! 1%nat);
    Ok (data_of (fun d => d) p).

(** The signature suites of OP_CHECKSIGALT: [chainec.ECTypeEdwards],
    [chainec.ECTypeSecSchnorr], [bs.BSTypeBliss] and [lms.LMSTypeLMS]. *)
Definition edwards : Z := 1.
Definition secSchnorr : Z := 2.
Definition bliss : Z := 4.
Definition lm : Z := 5.

Definition ExtractPkScriptAltSigType (pkScript : bytes) : res scriptError Z :=
  pops ← parse_ok pkScript;
  let isPKA := isPubkeyAlt (fun d => d) pops in
  let isPKHA := isPubkeyHashAlt pops in
  if negb (isPKA || isPKHA) then Err WrongScriptType
  else
    p ← or_panic (pops !! (if isPKHA then 4 else 1)%nat);
    valInt ← extractOneBytePush p;
    if valInt <? 0 then Err BadTypePush
    else
      let val := u8 valInt in
      if (val =? edwards) || (val =? secSchnorr) || (val =? bliss) || (val =? lm)
      then Ok val else Err BadSignatureScheme.

(** ** The opcodes of the table *)

(** The three kinds of opcodes: no data, data of a fixed length, a length prefix. *)
Definition plain_op (op : opcode) : Prop := op_length op = 1.
Definition fixed_op (op : opcode) : Prop := 1 < op_length op <= 76.
Definition prefixed_op (op : opcode) : Prop :=
  op_length op = -1 \/ op_length op = -2 \/ op_length op = -4.

Definition kind_ok (v : Z) : bool :=
  let op := opcode_at v in
  (op_value op =? v) &&
  ((op_length op =? 1) || ((1 <? op_length op) && (op_length op <=? 76)) ||
   (op_length op =? -1) || (op_length op =? -2) || (op_length op =? -4)).

Lemma opcode_kinds v : is_u8 v ->
  op_value (opcode_at v) = v /\
  (plain_op (opcode_at v) \/ fixed_op (opcode_at v) \/ prefixed_op (opcode_at v)).
Proof.
  intros Hv. assert (H : forallb kind_ok (Z.of_nat <$> seq 0 256) = true) by (vm_compute; reflexivity).
  rewrite forallb_forall in H. specialize (H v). unfold kind_ok in H.
  unfold plain_op, fixed_op, prefixed_op, is_u8 in *.
  lapply H; [lia|]. apply list_elem_of_In. apply list_elem_of_fmap. exists (Z.to_nat v).
  split; [lia|]. apply elem_of_seq. lia.
Qed.

(** ** The encoding of a parsed opcode *)

Definition pop_tail (p : pop) : bytes :=
  let d := data_of (fun d => d) p in
  if op_length (pop_op p) <? 0
  then put_le (Z.to_nat (- op_length (pop_op p))) (Z.of_nat (length d)) ++ d
  else d.

Definition pop_enc (p : pop) : bytes := pop_value p :: pop_tail p.

(** A parsed opcode is well-formed when it is an entry of the table with data of the
    length that the entry asks for. *)
Definition pop_wf (p : pop) : Prop :=
  is_u8 (pop_value p) /\ pop_op p = opcode_at (pop_value p) /\
  is_bytes (data_of (fun d => d) p) /\
  match pop_data p with
  | None => op_length (pop_op p) = 1
  | Some d =>
      (1 < op_length (pop_op p) /\ Z.of_nat (length d) = op_length (pop_op p) - 1) \/
      (op_length (pop_op p) < 0 /\
       Z.of_nat (length d) < 256 ^ (- op_length (pop_op p)))
  end.

Lemma land_byte l k m : 0 <= k -> m = 2 ^ k -> Z.land (Z.shiftr l k) 0xff = (l / m) mod 256.
Proof.
  intros Hk ->. change 0xff with (Z.ones 8). by rewrite Z.land_ones, Z.shiftr_div_pow2 by lia.
Qed.

Lemma len_bytes4 l : [u8 (Z.land l 0xff); u8 (Z.land (Z.shiftr l 8) 0xff);
    u8 (Z.land (Z.shiftr l 16) 0xff); u8 (Z.land (Z.shiftr l 24) 0xff)] = put_le 4 l.
Proof.
  rewrite <- (Z.shiftr_0_r l) at 1.
  rewrite (land_byte l 0 1), (land_byte l 8 256), (land_byte l 16 65536), (land_byte l 24 16777216)
    by (lia || reflexivity).
  unfold put_le, u8. change (2 ^ 8) with 256. rewrite !Z.mod_mod, Z.div_1_r, !Z.div_div by lia. reflexivity.
Qed.

Lemma len_bytes2 l : [u8 (Z.land l 0xff); u8 (Z.land (Z.shiftr l 8) 0xff)] = put_le 2 l.
Proof. pose proof (len_bytes4 l) as H. unfold put_le in *. congruence. Qed.

Lemma pop_bytes_wf p : pop_wf p -> pop_bytes (fun d => d) p = Ok (pop_enc p).
Proof.
  intros (Hv & Hop & _ & Hd). destruct (opcode_kinds _ Hv) as [_ Hk]. rewrite <- Hop in Hk.
  unfold pop_bytes, pop_enc, pop_tail, data_of in *. destruct (pop_data p) as [d|].
  2:{ rewrite Hd. done. }
  destruct Hd as [[Hl Hd]|[Hl Hd]].
  - destruct (Z.eqb_spec (op_length (pop_op p)) 1); [lia|].
    destruct (Z.ltb_spec (op_length (pop_op p)) 0); [lia|]. cbn [app length].
    destruct (Z.eqb_spec (Z.of_nat (S (length d))) (op_length (pop_op p))); [done|lia].
  - destruct Hk as [Hk|[Hk|Hk]]; [unfold plain_op in Hk; lia|unfold fixed_op in Hk; lia|].
    assert (Hcheck : forall n (l : bytes), length l = n -> l = put_le n (Z.of_nat (length d)) ->
      Z.of_nat (length d) < 256 ^ Z.of_nat n ->
      (if negb (Z.of_nat (length (([pop_value p] ++ l) ++ d)) =?
         get_le (drop 1 ([pop_value p] ++ l)) + Z.of_nat (length ([pop_value p] ++ l)))
       then Err ErrStackInvalidOpcode else Ok (([pop_value p] ++ l) ++ d)) =
      Ok (E := scriptError) (pop_value p :: put_le n (Z.of_nat (length d)) ++ d)).
    { intros n l Hn -> Hb. change (drop 1 ([pop_value p] ++ put_le n (Z.of_nat (length d)))) with (put_le n (Z.of_nat (length d))). rewrite get_put_le, Z.mod_small by lia.
      rewrite !length_app, length_put_le. cbn [length].
      match goal with |- (if negb (?a =? ?b) then _ else _) = _ => destruct (Z.eqb_spec a b); [|lia] end.
      done. }
    destruct Hk as [Hk|[Hk|Hk]]; rewrite Hk in *; cbn [Z.eqb Z.ltb Z.compare Z.opp Pos.eqb];
      (apply Hcheck; [reflexivity| |exact Hd]).
    + unfold put_le, u8. done.
    + apply len_bytes2.
    + apply len_bytes4.
Qed.

(** ** The parser *)

(** Split a property of all elements of a list with known head. *)
Ltac inv_Forall_bytes H :=
  repeat (let Hx := fresh "Hx" in apply Forall_cons_1 in H as [Hx H]).

Lemma index_drop (script : bytes) i k : 0 <= k ->
  index (E := scriptError) script (Z.of_nat i + 1 + k) = or_panic (drop (S i) script !! Z.to_nat k).
Proof.
  intros Hk. unfold index. destruct (Z.ltb_spec (Z.of_nat i + 1 + k) 0); [lia|].
  rewrite lookup_drop. do 2 f_equal. lia.
Qed.

Lemma read_le2 b0 b1 : is_u8 b0 -> is_u8 b1 -> Z.lor (Z.shiftl b1 8) b0 = get_le [b0; b1].
Proof.
  intros H0 H1. rewrite Z.shiftl_mul_pow2, lor_disjoint by (unfold is_u8 in *; lia).
  unfold get_le. lia.
Qed.

Lemma read_le4 b0 b1 b2 b3 : is_u8 b0 -> is_u8 b1 -> is_u8 b2 -> is_u8 b3 ->
  Z.lor (Z.lor (Z.lor (Z.shiftl b3 24) (Z.shiftl b2 16)) (Z.shiftl b1 8)) b0 = get_le [b0; b1; b2; b3].
Proof.
  unfold is_u8. intros H0 H1 H2 H3. rewrite !Z.shiftl_mul_pow2 by lia.
  rewrite (lor_disjoint b3 (b2 * 2 ^ 16) 24) by lia.
  replace (b3 * 2 ^ 24 + b2 * 2 ^ 16) with ((b3 * 2 ^ 8 + b2) * 2 ^ 16) by lia.
  rewrite lor_disjoint by lia.
  replace ((b3 * 2 ^ 8 + b2) * 2 ^ 16 + b1 * 2 ^ 8) with ((b3 * 2 ^ 16 + b2 * 2 ^ 8 + b1) * 2 ^ 8) by lia.
  rewrite lor_disjoint by lia. unfold get_le. lia.
Qed.

(** The length that is read is the little-endian number in front of the data. *)
Lemma prefix_length script i op : is_bytes script -> prefixed_op op ->
  Z.of_nat i + 1 - op_length op <= Z.of_nat (length script) ->
  let n := Z.to_nat (- op_length op) in
  let b k := index script (Z.of_nat i + 1 + k) in
  (if op_length op =? -1 then b 0
   else if op_length op =? -2 then b1 ← b 1; b0 ← b 0; Ok (Z.lor (Z.shiftl b1 8) b0)
   else if op_length op =? -4
   then
     b3 ← b 3; b2 ← b 2; b1 ← b 1; b0 ← b 0;
     Ok (Z.lor (Z.lor (Z.lor (Z.shiftl b3 24) (Z.shiftl b2 16)) (Z.shiftl b1 8)) b0)
   else Err InvalidOpcodeLength) = Ok (get_le (take n (drop (S i) script))).
Proof.
  intros Hs Hop Hlen n b. unfold b. rewrite !index_drop by lia.
  assert (Hd : is_bytes (drop (S i) script)) by (by apply Forall_drop).
  assert (Hl : (n <= length (drop (S i) script))%nat) by (unfold n, prefixed_op in *; rewrite length_drop; lia).
  revert Hd Hl. unfold n. generalize (drop (S i) script) as x. clear -Hop.
  intros x Hd Hl. destruct Hop as [H|[H|H]]; rewrite H in *;
    cbn [Z.eqb Z.opp Pos.eqb Z.to_nat] in *; change (Pos.to_nat 1) with 1%nat in *;
    change (Pos.to_nat 2) with 2%nat in *; change (Pos.to_nat 4) with 4%nat in *.
  - destruct x as [|x0 x]; [cbn in Hl; lia|]. change (Ok (E := scriptError) x0 = Ok (get_le [x0])). unfold get_le. f_equal. lia.
  - destruct x as [|x0 [|x1 x]]; try (cbn in Hl; lia). inv_Forall_bytes Hd.
    change (take 2 (x0 :: x1 :: x)) with [x0; x1].
    change (Ok (E := scriptError) (Z.lor (Z.shiftl x1 8) x0) = Ok (get_le [x0; x1])). by rewrite read_le2.
  - destruct x as [|x0 [|x1 [|x2 [|x3 x]]]]; try (cbn in Hl; lia). inv_Forall_bytes Hd.
    change (take 4 (x0 :: x1 :: x2 :: x3 :: x)) with [x0; x1; x2; x3].
    change (Ok (E := scriptError) (Z.lor (Z.lor (Z.lor (Z.shiftl x3 24) (Z.shiftl x2 16)) (Z.shiftl x1 8)) x0) =
      Ok (get_le [x0; x1; x2; x3])). by rewrite read_le4.
Qed.

Lemma pop_tail_inj p p' a b : pop_wf p -> pop_wf p' -> pop_op p = pop_op p' ->
  pop_tail p ++ a = pop_tail p' ++ b -> p = p' /\ a = b.
Proof.
  intros (_ & _ & _ & Hd) (_ & _ & _ & Hd') Hop He. unfold pop_tail, data_of in *.
  destruct p as [op d], p' as [op' d']. cbn [pop_op pop_data] in *. subst op'.
  destruct (Z.ltb_spec (op_length op) 0) as [Hneg|Hpos].
  - destruct d as [d|]; [|lia]. destruct d' as [d'|]; [|lia].
    destruct Hd as [Hd|[_ Hd]]; [lia|]. destruct Hd' as [Hd'|[_ Hd']]; [lia|].
    rewrite <- !app_assoc in He.
    apply app_inj_1 in He as [Hl He]; [|by rewrite !length_put_le].
    assert (Hn : length d = length d').
    { apply (f_equal get_le) in Hl. rewrite !get_put_le, Z2Nat.id in Hl by lia.
      rewrite !Z.mod_small in Hl by lia. lia. }
    apply app_inj_1 in He as [-> ->]; done.
  - destruct d as [d|], d' as [d'|].
    + destruct Hd as [[_ Hd]|Hd]; [|lia]. destruct Hd' as [[_ Hd']|Hd']; [|lia].
      apply app_inj_1 in He as [-> ->]; [done|lia].
    + lia.
    + lia.
    + done.
Qed.

(** One round: the data that is sliced out is what follows the opcode byte; an error says
    that no well-formed opcode is there. *)
Definition parse_round (script : bytes) (i : nat) (op : opcode) : Prop :=
  match parse_data script i op with
  | inl (d, i') =>
      let p := MkPop op ((fun '(off, n) => slice_bytes script off n) <$> d) in
      pop_wf p /\ (i < i' <= length script)%nat /\ drop (S i) script = pop_tail p ++ drop i' script
  | inr e =>
      e = ErrStackShortScript /\
      forall p post, pop_wf p -> pop_op p = op -> drop (S i) script <> pop_tail p ++ post
  end.

Section round.
Context (script : bytes) (i : nat) (op : opcode).
Context (Hs : is_bytes script) (Hi : (i < length script)%nat).
Context (Hu8 : is_u8 (op_value op)) (Hself : op = opcode_at (op_value op)).

Lemma round_plain : plain_op op -> parse_round script i op.
Proof.
  intros Hk. unfold plain_op, parse_round, parse_data in *. rewrite Hk.
  cbn [Z.eqb Pos.eqb fmap option_fmap option_map].
  unfold pop_wf, pop_tail, pop_value, data_of; cbn [pop_op pop_data]. rewrite Hk.
  split_and!; first [done|apply Forall_nil_2|lia].
Qed.

Lemma round_fixed : fixed_op op -> parse_round script i op.
Proof.
  intros Hk. unfold fixed_op, parse_round, parse_data in *.
  assert (Hlen : length (drop (S i) script) = (length script - S i)%nat) by apply length_drop.
  destruct (Z.eqb_spec (op_length op) 1) as [|Hne]; [lia|].
  rewrite Z.gtb_ltb. destruct (Z.ltb_spec 1 (op_length op)); [|lia].
  destruct (Z.ltb_spec (Z.of_nat (length script) - Z.of_nat i) (op_length op)).
  - split; [done|]. intros p post (_ & _ & _ & Hd) Hop He. apply (f_equal length) in He.
    rewrite length_app, Hlen in He. unfold pop_tail, data_of in He. rewrite Hop in *.
    destruct (Z.ltb_spec (op_length op) 0); [lia|].
    destruct (pop_data p); [|lia]. destruct Hd as [[_ Hd]|Hd]; lia.
  - destruct (Nat.leb_spec (S i + Z.to_nat (op_length op - 1)) (length script)); [|lia].
    cbn [fmap option_fmap option_map]. unfold slice_bytes.
    set (n := Z.to_nat (op_length op - 1)).
    assert (Htake : length (take n (drop (S i) script)) = n) by (rewrite length_take; lia).
    unfold pop_wf, pop_tail, pop_value, data_of; cbn [pop_op pop_data].
    destruct (Z.ltb_spec (op_length op) 0); [lia|].
    split_and!; [done|done|by apply Forall_take, Forall_drop|left; lia|lia|lia|].
    replace (Z.to_nat (Z.of_nat i + op_length op)) with (S i + n)%nat by lia.
    rewrite <- drop_drop. symmetry. apply take_drop.
Qed.

(** An opcode with a length prefix is there only if the prefix and the data fit. *)
Lemma prefixed_fits p post : op_length op < 0 -> pop_wf p -> pop_op p = op ->
  let n := Z.to_nat (- op_length op) in
  drop (S i) script = pop_tail p ++ post ->
  (n <= length (drop (S i) script))%nat /\
  get_le (take n (drop (S i) script)) <= Z.of_nat (length (drop (S i) script)) - Z.of_nat n.
Proof.
  intros Hneg (_ & _ & _ & Hd) Hop n He. unfold pop_tail, data_of in He. rewrite Hop in *.
  destruct (Z.ltb_spec (op_length op) 0); [|lia]. fold n in He.
  destruct (pop_data p) as [d|]; [|lia]. destruct Hd as [Hd|[_ Hd]]; [lia|].
  rewrite He, <- app_assoc, take_app_length' by (symmetry; apply length_put_le).
  rewrite get_put_le, Z.mod_small by (unfold n; rewrite Z2Nat.id by lia; lia).
  rewrite !length_app, length_put_le. lia.
Qed.

Lemma round_prefixed : prefixed_op op -> parse_round script i op.
Proof.
  intros Hk. assert (Hneg : op_length op < 0) by (unfold prefixed_op in Hk; lia).
  assert (Hlen : length (drop (S i) script) = (length script - S i)%nat) by apply length_drop.
  pose proof prefixed_fits as Hfits. unfold parse_round, parse_data.
  destruct (Z.eqb_spec (op_length op) 1) as [|Hne]; [lia|].
  rewrite Z.gtb_ltb. destruct (Z.ltb_spec 1 (op_length op)); [lia|].
  destruct (Z.ltb_spec (op_length op) 0); [|lia]. cbv zeta in Hfits.
  set (n := Z.to_nat (- op_length op)) in *.
  destruct (Z.ltb_spec (Z.of_nat (length script) - (Z.of_nat i + 1)) (- op_length op)).
  { split; [done|]. intros p post Hp Hop He. apply Hfits in He as [He _]; [lia|done..]. }
  pose proof (prefix_length script i op Hs Hk ltac:(lia)) as Hl. cbv zeta in Hl. rewrite Hl. fold n.
  set (x := drop (S i) script) in *. set (l := get_le (take n x)) in *.
  assert (Hx : is_bytes x) by (by apply Forall_drop).
  assert (Htn : length (take n x) = n) by (rewrite length_take; lia).
  assert (Hlr : 0 <= l < 256 ^ Z.of_nat n).
  { pose proof (get_le_range (take n x)) as Hr. rewrite Htn in Hr. apply Hr. by apply Forall_take. }
  assert (Hn4 : 256 ^ Z.of_nat n <= 2 ^ 32).
  { change (2 ^ 32) with (256 ^ 4). apply Z.pow_le_mono_r; [lia|]. unfold prefixed_op in Hk. lia. }
  rewrite i64_small by (unfold is_i64; lia). rewrite Z.gtb_ltb.
  destruct (Z.ltb_spec (Z.of_nat (length script) - (Z.of_nat i + 1 + - op_length op)) l); cbn [orb].
  { split; [done|]. intros p post Hp Hop He. apply Hfits in He as [_ He]; [lia|done..]. }
  destruct (Z.ltb_spec l 0); [lia|].
  replace (Z.to_nat (Z.of_nat i + 1 + - op_length op)) with (S i + n)%nat by lia.
  destruct (Nat.leb_spec (S i + n + Z.to_nat l) (length script)); [|lia]. cbn [fmap option_fmap option_map].
  unfold slice_bytes. rewrite <- drop_drop. fold x.
  assert (Hld : length (take (Z.to_nat l) (drop n x)) = Z.to_nat l)
    by (rewrite length_take, length_drop; lia).
  unfold pop_wf, pop_tail, pop_value, data_of; cbn [pop_op pop_data].
  destruct (Z.ltb_spec (op_length op) 0); [|lia]. fold n.
  split_and!; [done|done|by apply Forall_take, Forall_drop| |lia|lia|].
  - right. split; [done|]. rewrite Hld. replace (- op_length op) with (Z.of_nat n) by lia. lia.
  - rewrite Hld, Z2Nat.id by lia. unfold l at 1.
    replace (put_le n (get_le (take n x))) with (take n x)
      by (symmetry; rewrite <- Htn at 1; apply put_get_le; by apply Forall_take).
    replace (Z.to_nat (Z.of_nat i + (1 - op_length op + l))) with (S i + (n + Z.to_nat l))%nat by lia.
    rewrite <- !drop_drop. fold x. rewrite <- app_assoc, take_drop. symmetry. apply take_drop.
Qed.

End round.

Lemma parse_data_spec script i v : is_bytes script -> (i < length script)%nat -> is_u8 v ->
  parse_round script i (opcode_at v).
Proof.
  intros Hs Hi Hv. destruct (opcode_kinds v Hv) as [Hval Hk].
  destruct Hk as [Hk|[Hk|Hk]]; [apply round_plain|apply round_fixed|apply round_prefixed];
    rewrite ?Hval; done.
Qed.

Lemma instr_at_u8 alt script i : is_bytes script -> (i < length script)%nat -> is_u8 (instr_at alt script i).
Proof.
  intros Hs Hi. unfold instr_at. destruct (_ && _); [apply u8_range|].
  unfold byte_at. destruct (nth_lookup_or_length script i 0) as [H|H]; [|lia].
  by apply (Forall_lookup_1 _ _ _ _ Hs H).
Qed.

Lemma drop_byte (script : bytes) i : (i < length script)%nat -> drop i script = byte_at script i :: drop (S i) script.
Proof.
  intros Hi. destruct (lookup_lt_is_Some_2 script i Hi) as [x Hx].
  rewrite (drop_S script x i Hx). unfold byte_at. f_equal. symmetry. by apply nth_lookup_Some.
Qed.

(** What the loop gives at position [i]: well-formed opcodes that cover what follows, up to
    a rest which is empty unless it is cut off. *)
Definition parse_result (alt : bool) (script : bytes) (i : nat)
    (r : list pop * option scriptError) : Prop :=
  Forall pop_wf r.1 /\
  exists rest,
    length (drop i script) = (length (concat (pop_enc <$> r.1)) + length rest)%nat /\
    (alt = false -> drop i script = concat (pop_enc <$> r.1) ++ rest) /\
    (r.2 = None /\ rest = [] \/
     r.2 = Some ErrStackShortScript /\ rest <> [] /\
     (alt = false -> forall p post, pop_wf p -> rest <> pop_enc p ++ post)).

Lemma parse_loop_sound alt script : is_bytes script ->
  forall fuel i, (i <= length script)%nat -> (length script - i <= fuel)%nat ->
  parse_result alt script i (parse_loop (slice_bytes script) alt script fuel i).
Proof.
  intros Hs. induction fuel as [|fuel IH]; intros i Hi Hf; cbn [parse_loop];
    (destruct (Nat.leb_spec (length script) i) as [Hle|Hlt];
     [split; [done|]; exists []; rewrite drop_ge by done; split_and!; [done|done|by left]|]); [lia|].
  pose proof (parse_data_spec script i _ Hs Hlt (instr_at_u8 alt script i Hs Hlt)) as Hd.
  unfold parse_round in Hd. set (op := opcode_at (instr_at alt script i)) in *.
  destruct (opcode_kinds _ (instr_at_u8 alt script i Hs Hlt)) as [Hval _]. fold op in Hval.
  assert (Hplain : alt = false -> op_value op = byte_at script i) by (rewrite Hval; intros ->; done).
  destruct (parse_data script i op) as [[d i']|e].
  - destruct Hd as (Hwf & Hi' & Hdrop). destruct (IH i') as (Hpops & rest & Hlen & Heq & Herr); [lia|lia|].
    destruct (parse_loop _ alt script fuel i') as [pops err]. cbn [fst snd] in *.
    split; [by constructor|]. exists rest. cbn [fmap list_fmap concat fst snd].
    rewrite (drop_byte script i Hlt), Hdrop. cbn [length pop_enc]. rewrite !length_app, Hlen. cbn [length pop_enc].
    split_and!; [lia| |done].
    intros Halt. rewrite (Heq Halt), <- (Hplain Halt), <- app_assoc. done.
  - destruct Hd as [-> Hno]. split; [done|]. exists (drop i script). cbn [fst snd fmap list_fmap concat].
    split_and!; [done|done|]. right. split; [done|].
    rewrite (drop_byte script i Hlt). split; [done|]. intros Halt p post Hp Heq. cbn in Heq.
    injection Heq as Hv Heq. apply (Hno p post Hp); [|exact Heq].
    destruct Hp as (_ & -> & _). unfold op. f_equal. rewrite <- Hval, (Hplain Halt), Hv. done.
Qed.

(** The data that a round slices out lies in the script, before the next position. *)
Lemma parse_data_bounds script i v d i' : is_bytes script -> (i < length script)%nat -> is_u8 v ->
  parse_data script i (opcode_at v) = inl (d, i') ->
  (i < i' <= length script)%nat /\
  match d with
  | Some (off, n) => (off + n <= length script)%nat
  | None => op_length (opcode_at v) = 1
  end.
Proof.
  intros Hs Hi Hv H. pose proof (parse_data_spec script i v Hs Hi Hv) as Hr. unfold parse_round in Hr.
  rewrite H in Hr. destruct Hr as (Hwf & Hi' & _). split; [done|].
  destruct d as [[off n]|]; [|by destruct Hwf as (_ & _ & _ & Hwf)].
  unfold parse_data in H. repeat case_match; simplify_eq; by apply Nat.leb_le.
Qed.

(** What the parser gives whatever the representation of the data: entries of the table,
    whose data satisfies what holds of every slice inside the script, and not more of them
    than bytes. *)
Lemma parse_loop_shape {D} (mk : nat -> nat -> D) (Good : D -> Prop) alt script : is_bytes script ->
  (forall off n, (off + n <= length script)%nat -> Good (mk off n)) ->
  forall fuel i, (i <= length script)%nat -> (length script - i <= fuel)%nat ->
  let r := parse_loop mk alt script fuel i in
  Forall (fun p => is_u8 (pop_value p) /\ pop_op p = opcode_at (pop_value p) /\
            match pop_data p with Some d => Good d | None => op_length (pop_op p) = 1 end) r.1 /\
  (length r.1 <= length script - i)%nat /\ (r.2 = None \/ r.2 = Some ErrStackShortScript).
Proof.
  intros Hs Hgood. induction fuel as [|fuel IH]; intros i Hi Hf; cbn [parse_loop];
    (destruct (Nat.leb_spec (length script) i) as [Hle|Hlt]; [cbn; split_and!; [done|lia|auto]|]); [lia|].
  pose proof (instr_at_u8 alt script i Hs Hlt) as Hv.
  pose proof (parse_data_spec script i _ Hs Hlt Hv) as Hd. unfold parse_round in Hd.
  destruct (opcode_kinds _ Hv) as [Hval _].
  destruct (parse_data script i _) as [[d i']|e] eqn:E; [|destruct Hd as [-> _]; cbn; split_and!; [done|lia|auto]].
  destruct (parse_data_bounds _ _ _ _ _ Hs Hlt Hv E) as [Hi' Hb].
  destruct (IH i') as (IH1 & IH2 & IH3); [lia|lia|].
  destruct (parse_loop mk alt script fuel i') as [pops err]. cbn [fst snd length] in *.
  split_and!; [|lia|done]. constructor; [|done]. unfold pop_value. cbn [pop_op pop_data]. rewrite Hval.
  split_and!; [done|done|]. destruct d as [[off n]|]; cbn; [by apply Hgood|done].
Qed.

Lemma parse_with_shape {D} (mk : nat -> nat -> D) (Good : D -> Prop) script : is_bytes script ->
  (forall off n, (off + n <= length script)%nat -> Good (mk off n)) ->
  let r := parse_with mk script in
  Forall (fun p => is_u8 (pop_value p) /\ pop_op p = opcode_at (pop_value p) /\
            match pop_data p with Some d => Good d | None => op_length (pop_op p) = 1 end) r.1 /\
  (length r.1 <= length script)%nat /\ (r.2 = None \/ r.2 = Some ErrStackShortScript).
Proof.
  intros Hs Hg r. unfold r, parse_with, parseAltScriptTemplate, parseScriptTemplate.
  destruct (length script =? 26)%nat.
  - pose proof (parse_loop_shape mk Good true script Hs Hg (length script) 0) as H. rewrite Nat.sub_0_r in H. apply H; lia.
  - pose proof (parse_loop_shape mk Good false script Hs Hg (length script) 0) as H. rewrite Nat.sub_0_r in H. apply H; lia.
Qed.

Lemma pop_enc_inj p q a b : pop_wf p -> pop_wf q -> pop_enc p ++ a = pop_enc q ++ b -> p = q /\ a = b.
Proof.
  intros Hp Hq H. cbn in H. injection H as Hv H. apply pop_tail_inj; try done.
  destruct Hp as (_ & -> & _), Hq as (_ & -> & _). by rewrite Hv.
Qed.

(** A byte string is the encoding of one list of opcodes at most, and the parser finds it. *)
Lemma enc_unique l1 l2 rest : Forall pop_wf l1 -> Forall pop_wf l2 ->
  concat (pop_enc <$> l1) = concat (pop_enc <$> l2) ++ rest ->
  rest = [] \/ (forall p post, pop_wf p -> rest <> pop_enc p ++ post) ->
  l1 = l2 /\ rest = [].
Proof.
  intros H1 H2. revert l1 H1. induction H2 as [|q l2 Hq _ IH]; intros l1 H1 He Hr.
  - destruct H1 as [|p l1 Hp _]; [done|]. cbn in He. destruct Hr as [->|Hr]; [done|].
    exfalso. by apply (Hr p (concat (pop_enc <$> l1)) Hp).
  - destruct H1 as [|p l1 Hp H1]; [done|]. cbn [fmap list_fmap concat] in He.
    rewrite <- app_assoc in He. apply pop_enc_inj in He as [-> He]; [|done..].
    destruct (IH l1 H1 He Hr) as [-> ->]. done.
Qed.

Lemma unparse_wf l : Forall pop_wf l -> unparseScript (fun d => d) l = Ok (concat (pop_enc <$> l)).
Proof.
  induction 1 as [|p l Hp _ IH]; cbn [unparseScript]; [done|].
  by rewrite pop_bytes_wf, IH.
Qed.

Lemma template_sound script : is_bytes script ->
  parse_result false script 0 (parseScriptTemplate (slice_bytes script) script).
Proof. intros Hs. apply parse_loop_sound; [done|lia|lia]. Qed.

Lemma template_complete l : Forall pop_wf l -> is_bytes (concat (pop_enc <$> l)) ->
  let s := concat (pop_enc <$> l) in parseScriptTemplate (slice_bytes s) s = (l, None).
Proof.
  intros Hl Hs s. destruct (template_sound s Hs) as (Hwf & rest & _ & Heq & Herr).
  destruct (parseScriptTemplate _ s) as [l' err]. cbn [fst snd] in *. specialize (Heq eq_refl).
  rewrite drop_0 in Heq. destruct (enc_unique l l' rest) as [-> ->]; [done|done|exact Heq| |].
  { destruct Herr as [[_ ->]|(_ & _ & H)]; [by left|right; by apply H]. }
  destruct Herr as [[-> _]|(_ & H & _)]; [done|by destruct H].
Qed.

(** The special case of the parser applies to no byte of the script. *)
Definition no_alt_byte (script : bytes) : Prop :=
  length script = 26%nat -> ~ (OP_DATA_1 <= byte_at script 24 <= OP_DATA_16).

Lemma parse_loop_alt {D} (mk : nat -> nat -> D) script : ~ (OP_DATA_1 <= byte_at script 24 <= OP_DATA_16) ->
  forall fuel i, parse_loop mk true script fuel i = parse_loop mk false script fuel i.
Proof.
  intros H fuel. induction fuel as [|fuel IH]; intros i; cbn [parse_loop]; [done|].
  destruct (_ <=? _)%nat; [done|].
  assert (instr_at true script i = instr_at false script i) as ->.
  { unfold instr_at. cbn [andb]. destruct (Nat.eqb_spec i 24) as [->|]; [|done]. cbn [andb].
    rewrite Z.geb_leb. destruct (Z.leb_spec OP_DATA_1 (byte_at script 24)),
      (Z.leb_spec (byte_at script 24) OP_DATA_16); try done. lia. }
  destruct (parse_data _ _ _) as [[d i']|]; [|done]. by rewrite IH.
Qed.

Lemma parseScript_template script : no_alt_byte script ->
  parseScript script = parseScriptTemplate (slice_bytes script) script.
Proof.
  intros H. unfold parseScript, parse_with. destruct (Nat.eqb_spec (length script) 26); [|done].
  unfold parseAltScriptTemplate, parseScriptTemplate. by apply parse_loop_alt, H.
Qed.

(** C28: parsing and unparsing scripts are inverse to each other.  On every script that the
    special case for scripts of 26 bytes leaves alone, the parser succeeds with a list of
    opcodes if and only if they are entries of the opcode table with data of the length
    they ask for and unparseScript gives back the script; otherwise it stops with
    ErrStackShortScript, the opcodes it returns unparse to the part of the script before
    the error, and no opcode can be read where it stopped.  It never runs out of fuel. *)
Theorem parse_unparse (script : bytes) :
  is_bytes script -> no_alt_byte script ->
  (forall pops, parseScript script = (pops, None) <->
     Forall pop_wf pops /\ unparseScript (fun d => d) pops = Ok script) /\
  (forall pops e, parseScript script = (pops, Some e) ->
     e = ErrStackShortScript /\ Forall pop_wf pops /\
     exists before rest, unparseScript (fun d => d) pops = Ok before /\ script = before ++ rest /\
       forall p post, pop_wf p -> rest <> pop_enc p ++ post).
Proof.
  intros Hs Halt. rewrite parseScript_template by done.
  destruct (template_sound script Hs) as (Hwf & rest & _ & Heq & Herr). specialize (Heq eq_refl).
  rewrite drop_0 in Heq. split.
  - intros pops. split.
    + intros H. rewrite H in *. cbn [fst snd] in *.
      destruct Herr as [[_ ->]|(? & _)]; [|done]. rewrite app_nil_r in Heq.
      split; [done|]. by rewrite unparse_wf, <- Heq.
    + intros [Hp Hu]. rewrite unparse_wf in Hu by done. simplify_eq. by apply template_complete.
  - intros pops e H. rewrite H in *. cbn [fst snd] in *.
    destruct Herr as [[? _]|(He & _ & Hr)]; [done|]. simplify_eq.
    split; [done|]. split; [done|]. exists (concat (pop_enc <$> pops)), rest.
    split; [by apply unparse_wf|]. split; [done|]. by apply Hr.
Qed.

Lemma parse_unparse_witness :
  parseScript [OP_1; OP_DATA_2; 7; 8; OP_ADD] =
    ([MkPop (opcode_at OP_1) None; MkPop (opcode_at OP_DATA_2) (Some [7; 8]); MkPop (opcode_at OP_ADD) None], None) /\
  unparseScript (fun d => d)
    [MkPop (opcode_at OP_1) None; MkPop (opcode_at OP_DATA_2) (Some [7; 8]); MkPop (opcode_at OP_ADD) None] =
    Ok [OP_1; OP_DATA_2; 7; 8; OP_ADD].
Proof.
  assert (H : parseScript [OP_1; OP_DATA_2; 7; 8; OP_ADD] =
    ([MkPop (opcode_at OP_1) None; MkPop (opcode_at OP_DATA_2) (Some [7; 8]); MkPop (opcode_at OP_ADD) None], None))
    by (vm_compute; reflexivity).
  split; [exact H|]. apply (parse_unparse [OP_1; OP_DATA_2; 7; 8; OP_ADD]);
    [repeat constructor; try (by vm_compute)|discriminate|exact H].
Defined.
