(* ===== verification/StakeTx.v ===== *)
(** * Stake transactions

    [blockchain/stake/staketx.go]: how a transaction is recognised as a ticket purchase
    (SStx), a vote (SSGen) or a revocation (SSRtx), what is read out of such a transaction,
    and the arithmetic that divides a ticket's reward among those who paid for it.  A
    function that returns [(bool, error)] is a result whose [Ok] value is the boolean. *)

From S2P Require Import Prelude Opcodes WireCommon MsgTx Script.
From stdpp Require Import list.
#[local] Open Scope Z_scope.

Inductive TxType := TxTypeRegular | TxTypeSStx | TxTypeSSGen | TxTypeSSRtx.

#[export] Instance TxType_eq_dec : EqDecision TxType.
Proof. solve_decision. Defined.

(** The error codes of [stake/error.go] that this file returns; [BadLength] is the plain
    error of [SStxNullOutputAmounts]. *)
Inductive stakeRuleError :=
| ErrSStxTooManyInputs | ErrSStxTooManyOutputs | ErrSStxNoOutputs | ErrSStxInvalidOutputs
| ErrSStxInOutProportions | ErrSStxBadCommitAmount | ErrSStxBadChangeAmts
| ErrSSGenWrongNumInputs | ErrSSGenTooManyOutputs | ErrSSGenNoOutputs | ErrSSGenWrongIndex
| ErrSSGenWrongTxTree | ErrSSGenNoStakebase | ErrSSGenNoReference | ErrSSGenBadReference
| ErrSSGenNoVotePush | ErrSSGenBadVotePush | ErrSSGenBadGenOuts
| ErrSSRtxWrongNumInputs | ErrSSRtxTooManyOutputs | ErrSSRtxNoOutputs | ErrSSRtxWrongTxTree
| ErrSSRtxBadOuts | ErrVerSStxAmts | ErrVerifyInput | ErrVerifyOutType | ErrVerifyTooMuchFees
| ErrVerifySpendTooMuch | ErrVerifyOutputAmt | ErrVerifyOutPkhs | BadLength.

Definition MaxInputsPerSStx : nat := 64.
Definition MaxOutputsPerSStx : nat := MaxInputsPerSStx * 2 + 1.
Definition NumInputsPerSSGen : nat := 2.
Definition MaxOutputsPerSSGen : nat := MaxInputsPerSStx + 2.
Definition NumInputsPerSSRtx : nat := 1.
Definition MaxOutputsPerSSRtx : nat := MaxInputsPerSStx.
Definition SStxPKHMinOutSize : nat := 32.
Definition SStxPKHMaxOutSize : nat := 77.
Definition SSGenBlockReferenceOutSize : nat := 38 + 4.
Definition SSGenVoteBitsOutputMinSize : nat := 4.
Definition SSGenVoteBitsOutputMaxSize : nat := 77.
Definition MaxSingleBytePushLength : Z := 75.
Definition SStxVoteReturnFractionMask : Z := 0x003f.
Definition SStxRevReturnFractionMask : Z := 0x3f00.
Definition SStxVoteFractionFlag : Z := 0x0040.
Definition SStxRevFractionFlag : Z := 0x4000.
Definition VoteConsensusVersionAbsent : Z := 0.
Definition validSStxAddressOutMinPrefix : bytes := [0x6a; 0x1e].
Definition validSSGenReferenceOutPrefix : bytes := [0x6a; 0x28].
Definition validSSGenVoteOutMinPrefix : bytes := [0x6a; 0x02].
Definition rangeLimitMax : Z := 63.
Definition zeroHash : bytes := replicate 32 0.
Definition MaxUint32 : Z := 0xffffffff.

(** ** Accessory functions *)

Definition isNullOutpoint (tx : MsgTx) : res stakeRuleError bool :=
  ti ← or_panic (tx_TxIn tx !! 0%nat);
  let nullInOP := PreviousOutPoint ti in
  Ok ((o_Index nullInOP =? MaxUint32) && bool_decide (o_Hash nullInOP = zeroHash) &&
      (o_Tree nullInOP =? TxTreeRegular)).

Definition isNullFraudProof (tx : MsgTx) : res stakeRuleError bool :=
  txIn ← or_panic (tx_TxIn tx !! 0%nat);
  Ok (if negb (BlockHeight txIn =? NullBlockHeight) then false
      else if negb (BlockIndex txIn =? NullBlockIndex) then false
      else true).

Definition IsStakeBase (tx : MsgTx) : res stakeRuleError bool :=
  if negb (length (tx_TxIn tx) =? 2)%nat then Ok false
  else
    nullOutpoint ← isNullOutpoint tx;
    if negb nullOutpoint then Ok false
    else
      nullFraudProof ← isNullFraudProof tx;
      if negb nullFraudProof then Ok false else Ok true.

Record MinimalOutput := MkMinimalOutput {
  mo_PkScript : bytes;
  mo_Value : Z;
  mo_Version : Z
}.

Definition ConvertToMinimalOutputs (tx : MsgTx) : list MinimalOutput :=
  (fun txOut => MkMinimalOutput (PkScript txOut) (Value txOut) (out_Version txOut)) <$> tx_TxOut tx.

(** The six slices that [SStxStakeOutputInfo] returns. *)
Record StakeOutputInfo := MkInfo {
  isP2SH : list bool;
  addresses : list bytes;
  amounts : list Z;
  changeAmounts : list Z;
  allSpendRules : list (bool * bool);
  allSpendLimits : list (Z * Z)
}.

(** [amtEncoded] with the most significant bit cleared, and that bit. *)
Definition decodeAmount (amtEncoded : bytes) : res stakeRuleError (bool * Z) :=
  msb ← or_panic (amtEncoded !! 7%nat);
  let amtCleared := <[7%nat := Z.land msb 0x7f]> amtEncoded in
  Ok (negb (Z.land msb 0x80 =? 0), i64 (get_le amtCleared)).

Definition commitmentInfo (info : StakeOutputInfo) (idx : nat) (out : MinimalOutput) :
    res stakeRuleError StakeOutputInfo :=
  amtEncoded ← sub_slice (mo_PkScript out) 22 30;
  '(p2sh, amt) ← decodeAmount amtEncoded;
  isP2SH' ← assign (isP2SH info) (idx / 2) p2sh;
  addr ← sub_slice (mo_PkScript out) 2 22;
  addresses' ← assign (addresses info) (idx / 2) addr;
  amounts' ← assign (amounts info) (idx / 2) amt;
  feeLimit ← sub_slice (mo_PkScript out) 30 32;
  let feeLimitUint16 := get_le feeLimit in
  let spendRules :=
    (Z.land feeLimitUint16 SStxVoteFractionFlag =? SStxVoteFractionFlag,
     Z.land feeLimitUint16 SStxRevFractionFlag =? SStxRevFractionFlag) in
  let spendLimits :=
    (Z.land feeLimitUint16 SStxVoteReturnFractionMask,
     Z.shiftr (Z.land feeLimitUint16 SStxRevReturnFractionMask) 8) in
  allSpendRules' ← assign (allSpendRules info) (idx / 2) spendRules;
  allSpendLimits' ← assign (allSpendLimits info) (idx / 2) spendLimits;
  Ok (MkInfo isP2SH' addresses' amounts' (changeAmounts info) allSpendRules' allSpendLimits').

Definition stakeOutputStep (info : StakeOutputInfo) (idxOut : nat * MinimalOutput) :
    res stakeRuleError StakeOutputInfo :=
  let '(idx, out) := idxOut in
  if (0 <? idx)%nat && negb (idx mod 2 =? 0)%nat then commitmentInfo info idx out
  else if (0 <? idx)%nat && (idx mod 2 =? 0)%nat then
    changeAmounts' ← assign (changeAmounts info) (idx / 2 - 1) (mo_Value out);
    Ok (MkInfo (isP2SH info) (addresses info) (amounts info) changeAmounts'
          (allSpendRules info) (allSpendLimits info))
  else Ok info.

Definition indexed {A} (l : list A) : list (nat * A) := zip (seq 0 (length l)) l.

Definition SStxStakeOutputInfo (outs : list MinimalOutput) : res stakeRuleError StakeOutputInfo :=
  let expectedInLen := (length outs / 2)%nat in
  foldM stakeOutputStep
    (MkInfo (replicate expectedInLen false) (replicate expectedInLen []) (replicate expectedInLen 0)
       (replicate expectedInLen 0) (replicate expectedInLen (false, false)) (replicate expectedInLen (0, 0)))
    (indexed outs).

Definition TxSStxStakeOutputInfo (tx : MsgTx) : res stakeRuleError StakeOutputInfo :=
  SStxStakeOutputInfo (ConvertToMinimalOutputs tx).

Definition AmountFromSStxPkScrCommitment (pkScript : bytes) : res stakeRuleError Z :=
  if (length pkScript <? SStxPKHMinOutSize)%nat then Err ErrSStxBadCommitAmount
  else
    amtEncoded ← sub_slice pkScript 22 30;
    '(_, amt) ← decodeAmount amtEncoded;
    Ok amt.

(** The block hash, its height and its key height. *)
Definition SSGenBlockVotedOn (tx : MsgTx) : res stakeRuleError (bytes * Z * Z) :=
  out0 ← or_panic (tx_TxOut tx !! 0%nat);
  blockHash ← sub_slice (PkScript out0) 2 34;
  height ← sub_slice (PkScript out0) 34 38;
  keyHeight ← sub_slice (PkScript out0) 38 42;
  Ok (blockHash, get_le height, get_le keyHeight).

Definition SSGenVoteBits (tx : MsgTx) : res stakeRuleError Z :=
  out1 ← or_panic (tx_TxOut tx !! 1%nat);
  bits ← sub_slice (PkScript out1) 2 4;
  Ok (get_le bits).

Definition SSGenVersion (tx : MsgTx) : res stakeRuleError Z :=
  out1 ← or_panic (tx_TxOut tx !! 1%nat);
  if (length (PkScript out1) <? 8)%nat then Ok VoteConsensusVersionAbsent
  else version ← sub_slice (PkScript out1) 4 8; Ok (get_le version).

(** ** Amounts *)

(** The loop over the contributions: the contributions so far and their sum. *)
Fixpoint contributions (amounts changeAmounts : list Z) (sum : Z) : res stakeRuleError (list Z * Z) :=
  match amounts, changeAmounts with
  | amount :: amounts, change :: changeAmounts =>
    let contrib := i64 (amount - change) in
    if contrib <? 0 then Err ErrSStxBadChangeAmts
    else
      '(contribs, sum) ← contributions amounts changeAmounts (i64 (sum + contrib));
      Ok (contrib :: contribs, sum)
  | _, _ => Ok ([], sum)
  end.

(** The fees and the contributed amounts. *)
Definition SStxNullOutputAmounts (amounts changeAmounts : list Z) (amountTicket : Z) :
    res stakeRuleError (Z * list Z) :=
  if negb (length amounts =? length changeAmounts)%nat then Err BadLength
  else if amountTicket <=? 0 then Err ErrSStxBadCommitAmount
  else
    '(contribAmounts, sum) ← contributions amounts changeAmounts 0;
    Ok (i64 (sum - amountTicket), contribAmounts).

(** [big.Int.Div], Euclidean division, panics on zero; [Uint64] takes the low bits of the
    absolute value. *)
Definition big_Div {E} (x y : Z) : res E Z :=
  if y =? 0 then Panic else Ok (Z.sgn y * (x / Z.abs y)).
Definition big_Uint64 (x : Z) : Z := u64 (Z.abs x).

Definition sum_i64 (l : list Z) : Z := foldl (fun acc x => i64 (acc + x)) 0 l.

Definition rewardOf (amountWithStakebase totalContrib amount : Z) : res stakeRuleError Z :=
  let amountBig := amount * amountWithStakebase in
  let amountBig := Z.shiftl amountBig 32 in
  amountBig ← big_Div amountBig totalContrib;
  let amountBig := Z.shiftr amountBig 32 in
  Ok (i64 (big_Uint64 amountBig)).

Fixpoint mapR {E A B} (f : A -> res E B) (l : list A) : res E (list B) :=
  match l with
  | [] => Ok []
  | x :: l => y ← f x; ys ← mapR f l; Ok (y :: ys)
  end.

Definition CalculateRewards (amounts : list Z) (amountTicket subsidy : Z) : res stakeRuleError (list Z) :=
  let amountWithStakebase := i64 (amountTicket + subsidy) in
  let totalContrib := sum_i64 amounts in
  mapR (rewardOf amountWithStakebase totalContrib) amounts.

Definition VerifySStxAmounts (sstxAmts sstxCalcAmts : list Z) : res stakeRuleError unit :=
  if negb (length sstxCalcAmts =? length sstxAmts)%nat then Err ErrVerSStxAmts
  else
    checkFrom (fun idx amt =>
      a ← or_panic (sstxAmts !! idx);
      guard_err (negb (amt =? a)) ErrVerSStxAmts) 0 sstxCalcAmts.

(** The check of one payout against the calculated amount and the fee rule. *)
Definition verifyAmount (amt calcAmt : Z) (rule : bool) (limit : Z) : res stakeRuleError unit :=
  if rule then
    let feeAllowance :=
      if (limit <? rangeLimitMax) && (i64 (Z.shiftl 1 limit) <? calcAmt)
      then i64 (Z.shiftl 1 limit) else calcAmt in
    let amtLimitLow := i64 (calcAmt - feeAllowance) in
    let amtLimitHigh := calcAmt in
    if amt <? amtLimitLow then Err ErrVerifyTooMuchFees
    else if amt >? amtLimitHigh then Err ErrVerifySpendTooMuch
    else Ok tt
  else guard_err (negb (amt =? calcAmt)) ErrVerifyOutputAmt.

Definition VerifyStakingPkhsAndAmounts (sstxTypes : list bool) (sstxPkhs : list bytes)
    (ssSpendAmts : list Z) (ssSpendTypes : list bool) (ssSpendPkhs : list bytes)
    (ssSpendCalcAmts : list Z) (isVote : bool) (spendRules : list (bool * bool))
    (spendLimits : list (Z * Z)) : res stakeRuleError unit :=
  if negb (length sstxTypes =? length ssSpendTypes)%nat then Err ErrVerifyInput
  else if negb (length ssSpendAmts =? length ssSpendCalcAmts)%nat then Err ErrVerifyInput
  else if negb (length sstxPkhs =? length ssSpendPkhs)%nat then Err ErrVerifyInput
  else
    _ ← checkFrom (fun idx typ =>
          t ← or_panic (ssSpendTypes !! idx);
          guard_err (negb (Bool.eqb typ t)) ErrVerifyOutType) 0 sstxTypes;
    _ ← checkFrom (fun idx amt =>
          rules ← or_panic (spendRules !! idx);
          limits ← or_panic (spendLimits !! idx);
          let rule := if isVote then rules.1 else rules.2 in
          let limit := if isVote then limits.1 else limits.2 in
          calcAmt ← or_panic (ssSpendCalcAmts !! idx);
          verifyAmount amt calcAmt rule limit) 0 ssSpendAmts;
    checkFrom (fun idx pkh =>
      p ← or_panic (ssSpendPkhs !! idx);
      guard_err (negb (bool_decide (pkh = p))) ErrVerifyOutPkhs) 0 sstxPkhs.

(** ** Identification *)

Definition defaultVersion (out : TxOut) : bool := out_Version out =? DefaultScriptVersion.

Definition hasClass (out : TxOut) (class : ScriptClass) : bool :=
  bool_decide (GetScriptClass (out_Version out) (PkScript out) = class).

(** The first two bytes of an OP_RETURN push: the opcode and a length from [minPrefix[1]]
    to 75, compared as [uint8]s. *)
Definition pushPrefixOk (minPrefix rawScript : bytes) : res stakeRuleError bool :=
  p0 ← or_panic (minPrefix !! 0%nat);
  minPush ← or_panic (minPrefix !! 1%nat);
  let maxPush := u8 (minPush + u8 (MaxSingleBytePushLength - minPush)) in
  b0 ← or_panic (rawScript !! 0%nat);
  pushLen ← or_panic (rawScript !! 1%nat);
  Ok ((b0 =? p0) && ((pushLen >=? minPush) && (pushLen <=? maxPush))).

Definition sstxOutput (outTxIndex : nat) (out : TxOut) : res stakeRuleError unit :=
  if (outTxIndex mod 2 =? 0)%nat
  then guard_err (negb (hasClass out StakeSubChangeTy)) ErrSStxInvalidOutputs
  else if negb (hasClass out NullDataTy) then Err ErrSStxInvalidOutputs
  else if (length (PkScript out) <? SStxPKHMinOutSize)%nat ||
          (SStxPKHMaxOutSize <? length (PkScript out))%nat then Err ErrSStxInvalidOutputs
  else
    ok ← pushPrefixOk validSStxAddressOutMinPrefix (PkScript out);
    guard_err (negb ok) ErrSStxInvalidOutputs.

Definition IsSStx (tx : MsgTx) : res stakeRuleError bool :=
  if (MaxInputsPerSStx <? length (tx_TxIn tx))%nat then Err ErrSStxTooManyInputs
  else if (MaxOutputsPerSStx <? length (tx_TxOut tx))%nat then Err ErrSStxTooManyOutputs
  else
    match tx_TxOut tx with
    | [] => Err ErrSStxNoOutputs
    | out0 :: outs =>
      if negb (forallb defaultVersion (out0 :: outs)) then Err ErrSStxInvalidOutputs
      else if negb (hasClass out0 StakeSubmissionTy) then Err ErrSStxInvalidOutputs
      else if negb (length (tx_TxIn tx) * 2 + 1 =? length (out0 :: outs))%nat
      then Err ErrSStxInOutProportions
      else _ ← checkFrom sstxOutput 1 outs; Ok true
    end.

(** The input after the stakebase. *)
Definition ssgenInput (i : nat) (txin : TxIn) : res stakeRuleError unit :=
  if (i =? 0)%nat then Ok tt
  else if negb (o_Index (PreviousOutPoint txin) =? 0) then Err ErrSSGenWrongIndex
  else guard_err (negb (o_Tree (PreviousOutPoint txin) =? TxTreeStake)) ErrSSGenWrongTxTree.

Definition IsSSGen (tx : MsgTx) : res stakeRuleError bool :=
  if negb (length (tx_TxIn tx) =? NumInputsPerSSGen)%nat then Err ErrSSGenWrongNumInputs
  else if (MaxOutputsPerSSGen <? length (tx_TxOut tx))%nat then Err ErrSSGenTooManyOutputs
  else if (length (tx_TxOut tx) =? 0)%nat then Err ErrSSGenNoOutputs
  else
    stakeBase ← IsStakeBase tx;
    if negb stakeBase then Err ErrSSGenNoStakebase
    else
      _ ← checkFrom ssgenInput 0 (tx_TxIn tx);
      if negb (forallb defaultVersion (tx_TxOut tx)) then Err ErrSSGenBadGenOuts
      else
        out0 ← or_panic (tx_TxOut tx !! 0%nat);
        if negb (hasClass out0 NullDataTy) then Err ErrSSGenNoReference
        else if negb (length (PkScript out0) =? SSGenBlockReferenceOutSize)%nat then Err ErrSSGenBadReference
        else if negb (bool_decide (take 2 (PkScript out0) = validSSGenReferenceOutPrefix))
        then Err ErrSSGenBadReference
        else
          out1 ← or_panic (tx_TxOut tx !! 1%nat);
          if negb (hasClass out1 NullDataTy) then Err ErrSSGenNoVotePush
          else if (length (PkScript out1) <? SSGenVoteBitsOutputMinSize)%nat ||
                  (SSGenVoteBitsOutputMaxSize <? length (PkScript out1))%nat then Err ErrSSGenBadVotePush
          else
            ok ← pushPrefixOk validSSGenVoteOutMinPrefix (PkScript out1);
            if negb ok then Err ErrSSGenBadVotePush
            else if negb (forallb (fun out => hasClass out StakeGenTy) (drop 2 (tx_TxOut tx)))
            then Err ErrSSGenBadGenOuts
            else Ok true.

Definition IsSSRtx (tx : MsgTx) : res stakeRuleError bool :=
  if negb (length (tx_TxIn tx) =? NumInputsPerSSRtx)%nat then Err ErrSSRtxWrongNumInputs
  else if (MaxOutputsPerSSRtx <? length (tx_TxOut tx))%nat then Err ErrSSRtxTooManyOutputs
  else if (length (tx_TxOut tx) =? 0)%nat then Err ErrSSRtxNoOutputs
  else if negb (forallb defaultVersion (tx_TxOut tx)) then Err ErrSSRtxBadOuts
  else if negb (forallb (fun txin => o_Tree (PreviousOutPoint txin) =? TxTreeStake) (tx_TxIn tx))
  then Err ErrSSRtxWrongTxTree
  else if negb (forallb (fun out => hasClass out StakeRevocationTy) (tx_TxOut tx)) then Err ErrSSRtxBadOuts
  else Ok true.

(** The error of a classification is dropped; a panic is not. *)
Definition succeeded (m : res stakeRuleError bool) : res stakeRuleError bool :=
  match m with Ok b => Ok b | Err _ => Ok false | Panic => Panic end.

Definition DetermineTxType (tx : MsgTx) : res stakeRuleError TxType :=
  ok ← succeeded (IsSStx tx);
  if (ok : bool) then Ok TxTypeSStx
  else
    ok ← succeeded (IsSSGen tx);
    if (ok : bool) then Ok TxTypeSSGen
    else
      ok ← succeeded (IsSSRtx tx);
      if (ok : bool) then Ok TxTypeSSRtx else Ok TxTypeRegular.

(** The tree that [SetTxTree] gives a transaction. *)
Definition SetTxTree (tx : MsgTx) : res stakeRuleError Z :=
  txType ← DetermineTxType tx;
  Ok (if bool_decide (txType <> TxTypeRegular) then TxTreeStake else TxTreeRegular).

(** ** Rewards *)

Fixpoint zsum (l : list Z) : Z :=
  match l with [] => 0 | x :: l => x + zsum l end.

Lemma zsum_nonneg l : Forall (fun x => 0 <= x) l -> 0 <= zsum l.
Proof. induction 1; cbn in *; lia. Qed.

Lemma zsum_elem l i x : Forall (fun x => 0 <= x) l -> l !! i = Some x -> x <= zsum l.
Proof.
  intros H. revert i. induction H as [|y l Hy Hl IH]; intros [|i] Hi; cbn in *; try done.
  - injection Hi as ->. pose proof (zsum_nonneg l Hl). lia.
  - specialize (IH _ Hi). lia.
Qed.

Lemma foldl_i64_exact l acc : Forall (fun x => 0 <= x) l -> 0 <= acc -> acc + zsum l < 2 ^ 63 ->
  foldl (fun acc x => i64 (acc + x)) acc l = acc + zsum l.
Proof.
  intros H. revert acc. induction H as [|x l Hx Hl IH]; intros acc Hacc Hs; cbn in *; [lia|].
  pose proof (zsum_nonneg l Hl). rewrite i64_small by (unfold is_i64; lia). rewrite IH; lia.
Qed.

Lemma sum_i64_exact l : Forall (fun x => 0 <= x) l -> zsum l < 2 ^ 63 -> sum_i64 l = zsum l.
Proof. intros H Hs. unfold sum_i64. by rewrite foldl_i64_exact by (done || lia). Qed.

Lemma rewardOf_exact a s t : 0 <= a <= t -> 0 < t -> 0 <= s < 2 ^ 63 ->
  rewardOf s t a = Ok (a * s / t) /\ 0 <= a * s / t <= s.
Proof.
  intros Ha Ht Hs. assert (Hb : 0 <= a * s / t <= s).
  { split; [apply Z.div_pos; nia|]. apply Z.div_le_upper_bound; nia. }
  split; [|done]. unfold rewardOf, big_Div. destruct (Z.eqb_spec t 0); [lia|]. cbn [mbind res_bind].
  rewrite Z.sgn_pos, Z.abs_eq, Z.mul_1_l, Z.shiftl_mul_pow2, Z.shiftr_div_pow2 by lia.
  rewrite Z.div_div, Z.div_mul_cancel_r by lia. unfold big_Uint64.
  rewrite Z.abs_eq, u64_small, i64_small; [done|unfold is_i64; lia|unfold is_u64; lia|lia].
Qed.

Lemma rewards_exact l s t : Forall (fun a => 0 <= a <= t) l -> 0 < t -> 0 <= s < 2 ^ 63 ->
  mapR (rewardOf s t) l = Ok ((fun a => a * s / t) <$> l).
Proof.
  intros H Ht Hs. induction H as [|a l Ha _ IH]; cbn; [done|].
  destruct (rewardOf_exact a s t Ha Ht Hs) as [-> _]. cbn. by rewrite IH.
Qed.

Lemma rewards_sum l s t : 0 < t -> 0 <= s ->
  t * zsum ((fun a => a * s / t) <$> l) <= zsum l * s /\
  zsum l * s - t * Z.of_nat (length l) <= t * zsum ((fun a => a * s / t) <$> l) /\
  (l <> [] -> zsum l * s - t * Z.of_nat (length l) < t * zsum ((fun a => a * s / t) <$> l)).
Proof.
  intros Ht Hs. induction l as [|a l (IH1 & IH2 & IH3)]; cbn -[Z.mul]; [split_and!; (done || lia)|].
  pose proof (Z.mul_div_le (a * s) t Ht). pose proof (Z.mul_succ_div_gt (a * s) t Ht).
  rewrite Nat2Z.inj_succ. split_and!; [nia|nia|intros _; nia].
Qed.

Lemma CalculateRewards_exact amounts amountTicket subsidy :
  Forall (fun a => 0 <= a) amounts -> 0 < zsum amounts < 2 ^ 63 -> 0 <= amountTicket + subsidy < 2 ^ 63 ->
  CalculateRewards amounts amountTicket subsidy =
    Ok ((fun a => a * (amountTicket + subsidy) / zsum amounts) <$> amounts).
Proof.
  intros H Hs Ht. unfold CalculateRewards. rewrite i64_small by (unfold is_i64; lia).
  rewrite sum_i64_exact by (done || lia). apply rewards_exact; [|lia..].
  apply Forall_lookup. intros i a Ha. split; [by eapply Forall_lookup_1 in H|by eapply zsum_elem].
Qed.

(** The reward of a ticket is divided in proportion to what was paid for it.  For
    non-negative contributions whose sum fits in 64 bits, contributor [i] gets the
    contribution times the ticket price plus subsidy, divided by the sum of the
    contributions and rounded down; the computation does not overflow; together the
    contributors get at most the price plus the subsidy, and less than one atom per
    contributor is lost to rounding. *)
Theorem CalculateRewards_bounds (amounts : list Z) (amountTicket subsidy : Z) :
  Forall (fun a => 0 <= a) amounts -> 0 < zsum amounts < 2 ^ 63 ->
  0 <= amountTicket + subsidy < 2 ^ 63 ->
  exists outs, CalculateRewards amounts amountTicket subsidy = Ok outs /\
    Forall2 (fun a out => out = a * (amountTicket + subsidy) / zsum amounts /\
                          0 <= out <= amountTicket + subsidy) amounts outs /\
    amountTicket + subsidy - Z.of_nat (length amounts) < zsum outs <= amountTicket + subsidy.
Proof.
  intros H Hs Ht. eexists. split; [by apply CalculateRewards_exact|]. split.
  - apply Forall2_fmap_r, Forall_Forall2_diag, Forall_lookup. intros i a Ha. cbn. split; [done|].
    apply rewardOf_exact; [|lia..]. split; [by eapply Forall_lookup_1 in H|by eapply zsum_elem].
  - destruct (rewards_sum amounts (amountTicket + subsidy) (zsum amounts)) as (H1 & _ & H2); [lia..|].
    assert (amounts <> []) as Hne%H2 by (intros ->; cbn in Hs; lia). nia.
Qed.

Lemma CalculateRewards_bounds_witness :
  exists outs, CalculateRewards [3; 5; 7] 100 10 = Ok outs /\ 110 - 3 < zsum outs <= 110.
Proof.
  destruct (CalculateRewards_bounds [3; 5; 7] 100 10) as (outs & H & _ & Hb);
    [repeat constructor; lia|cbn; lia|lia|]. exists outs. split; [exact H|exact Hb].
Defined.

(** ** Payouts *)

Lemma verifyAmount_le amt calc rule limit : 0 <= calc < 2 ^ 63 ->
  verifyAmount amt calc rule limit = Ok tt ->
  amt <= calc /\ (rule = false -> amt = calc) /\
  (0 <= limit < 63 -> calc - 2 ^ limit <= amt).
Proof.
  intros Hc. unfold verifyAmount. destruct rule; [|intros H; inv_res; apply negb_false_iff, Z.eqb_eq in H; subst].
  2: { split_and!; [lia|done|]. intros Hl. pose proof (Z.pow_pos_nonneg 2 limit). lia. }
  set (fee := if _ && _ then _ else _).
  destruct (Z.ltb_spec amt (i64 (calc - fee))) as [|Hlo]; [done|].
  rewrite Z.gtb_ltb. destruct (Z.ltb_spec calc amt); [done|]. intros _. split_and!; [lia|done|]. intros Hl.
  assert (Hp : 0 < 2 ^ limit <= 2 ^ 62) by (split; [apply Z.pow_pos_nonneg|apply Z.pow_le_mono_r]; lia).
  assert (Hf : fee = calc /\ calc <= 2 ^ limit \/ fee = 2 ^ limit /\ fee < calc).
  { unfold fee. rewrite Z.shiftl_1_l, i64_small by (unfold is_i64; lia).
    destruct (Z.ltb_spec limit rangeLimitMax) as [_|H2]; [|unfold rangeLimitMax in H2; lia].
    destruct (Z.ltb_spec (2 ^ limit) calc); [right|left]; cbn; lia. }
  clearbody fee. destruct Hf as [[-> Hf]|[-> Hf]]; rewrite i64_small in Hlo by (unfold is_i64; lia); lia.
Qed.

Lemma calc_range contribs amountTicket subsidy calc :
  Forall (fun a => 0 <= a) contribs -> 0 < zsum contribs < 2 ^ 63 -> 0 <= amountTicket + subsidy < 2 ^ 63 ->
  CalculateRewards contribs amountTicket subsidy = Ok calc ->
  Forall (fun c => 0 <= c < 2 ^ 63) calc /\ zsum calc <= amountTicket + subsidy /\
  length calc = length contribs.
Proof.
  intros H Hs Ht Hc. rewrite CalculateRewards_exact in Hc by done. injection Hc as <-. split_and!.
  - apply Forall_fmap, Forall_lookup. intros i a Ha. cbn.
    destruct (rewardOf_exact a (amountTicket + subsidy) (zsum contribs)) as [_ ?]; [|lia..].
    split; [by eapply Forall_lookup_1 in H|by eapply zsum_elem].
  - destruct (rewards_sum contribs (amountTicket + subsidy) (zsum contribs)) as [? _]; [lia..|nia].
  - apply length_fmap.
Qed.

(** A loop that compares two slices of the same length. *)
Lemma checkFrom_eq {E A} (eqb : A -> A -> bool) (e : E) (l l' : list A) :
  (forall x y, eqb x y = true -> x = y) -> length l = length l' ->
  checkFrom (fun i x => y ← or_panic (l' !! i); guard_err (negb (eqb x y)) e) 0 l = Ok tt -> l' = l.
Proof.
  intros Heq Hlen H. rewrite checkFrom_Ok in H. apply list_eq_same_length with (length l); [done..|].
  intros i x y Hi Hy Hx. specialize (H i y Hx). cbn in H. inv_res.
  match goal with H : l' !! _ = Some ?z, H2 : negb _ = false |- _ =>
    rewrite Hy in H; injection H as <-; apply negb_false_iff, Heq in H2; congruence end.
Qed.

Lemma zsum_le l1 l2 : Forall2 (fun x y => x <= y) l1 l2 -> zsum l1 <= zsum l2.
Proof. induction 1; cbn; lia. Qed.

(** C21: what a vote or revocation that passes the payout check pays.  The calculated
    amounts are those of CalculateRewards; then the outputs go to exactly the addresses and
    address types that the ticket committed to, in order, and together pay at most the
    ticket price plus the subsidy.  Each output pays at most its share, exactly its share
    when the commitment does not allow fees, and with a fee limit [l] below 63 at most
    [2^l] less than it. *)
Theorem staking_payout_bounded (types types' : list bool) (pkhs pkhs' : list bytes)
    (amts contribs calc : list Z) (amountTicket subsidy : Z) (isVote : bool)
    (rules : list (bool * bool)) (limits : list (Z * Z)) :
  Forall (fun a => 0 <= a) contribs -> 0 < zsum contribs < 2 ^ 63 ->
  0 <= amountTicket + subsidy < 2 ^ 63 ->
  CalculateRewards contribs amountTicket subsidy = Ok calc ->
  VerifyStakingPkhsAndAmounts types pkhs amts types' pkhs' calc isVote rules limits = Ok tt ->
  types' = types /\ pkhs' = pkhs /\ length amts = length contribs /\
  zsum amts <= amountTicket + subsidy /\
  forall i amt share r l, amts !! i = Some amt -> calc !! i = Some share ->
    rules !! i = Some r -> limits !! i = Some l ->
    let rule := if isVote then r.1 else r.2 in
    let limit := if isVote then l.1 else l.2 in
    amt <= share /\ (rule = false -> amt = share) /\ (0 <= limit < 63 -> share - 2 ^ limit <= amt).
Proof.
  intros Hc Hs Ht Hcalc H.
  destruct (calc_range contribs amountTicket subsidy calc) as (Hr & Hsum & Hlen); [done..|].
  unfold VerifyStakingPkhsAndAmounts in H.
  destruct (Nat.eqb_spec (length types) (length types')) as [L1|]; [|done].
  destruct (Nat.eqb_spec (length amts) (length calc)) as [L2|]; [|done].
  destruct (Nat.eqb_spec (length pkhs) (length pkhs')) as [L3|]; [|done]. cbn [negb] in H.
  apply bind_Ok in H as ([] & Htypes & H). apply bind_Ok in H as ([] & Hamts & Hpkhs).
  assert (Hpay : forall i amt share, amts !! i = Some amt -> calc !! i = Some share ->
    exists r l, rules !! i = Some r /\ limits !! i = Some l /\
    verifyAmount amt share (if isVote then r.1 else r.2) (if isVote then l.1 else l.2) = Ok tt).
  { intros i amt share Ha Hsh. rewrite checkFrom_Ok in Hamts. specialize (Hamts i amt Ha). cbn in Hamts.
    inv_res. simplify_eq. eauto. }
  split_and!.
  - eapply (checkFrom_eq Bool.eqb); [apply Bool.eqb_prop|done|exact Htypes].
  - eapply (checkFrom_eq (fun x y => bool_decide (x = y))); [|done|exact Hpkhs].
    intros x y. apply bool_decide_eq_true_1.
  - congruence.
  - etransitivity; [|exact Hsum]. apply zsum_le, Forall2_same_length_lookup_2; [done|].
    intros i x y Hx Hy. destruct (Hpay i x y Hx Hy) as (r & l & _ & _ & Hv).
    apply verifyAmount_le in Hv as [? _]; [done|by eapply Forall_lookup_1 in Hr].
  - intros i amt share r l Ha Hsh Hri Hli. destruct (Hpay i amt share Ha Hsh) as (r' & l' & Hr' & Hl' & Hv).
    simplify_eq. apply verifyAmount_le in Hv; [done|by eapply Forall_lookup_1 in Hr].
Qed.

Lemma staking_payout_bounded_witness : zsum [36; 40; 0] <= 110.
Proof.
  destruct (staking_payout_bounded [false; true; false] [false; true; false] [[1]; [2]; [3]] [[1]; [2]; [3]]
    [36; 40; 0] [5; 6; 4] [36; 44; 29] 100 10 true
    [(false, false); (true, false); (true, true)] [(0, 0); (3, 0); (63, 0)]) as (_ & _ & _ & H & _);
    [repeat constructor; lia|cbn; lia|lia|vm_compute; reflexivity|vm_compute; reflexivity|exact H].
Defined.

(** ** Classification *)

(** Decide every test of a classification in hypothesis [H] that would make it fail. *)
Ltac class_step H :=
  match type of H with
  | context [if negb ?b then _ else _] => destruct b eqn:?; cbn [negb] in H; [|discriminate H]
  | context [if ?b then Err _ else _] => destruct b eqn:?; [discriminate H|]
  end.

Lemma hasClass_true out c : hasClass out c = true -> GetScriptClass (out_Version out) (PkScript out) = c.
Proof. apply bool_decide_eq_true_1. Qed.

Lemma pushPrefixOk_total minPrefix script : (2 <= length minPrefix)%nat -> (2 <= length script)%nat ->
  exists b, pushPrefixOk minPrefix script = Ok b.
Proof.
  intros Hm Hs. destruct minPrefix as [|? [|? ?]], script as [|? [|? ?]]; cbn in *; try lia. by eexists.
Qed.

(** What the outputs of each kind of stake transaction look like. *)
Lemma IsSStx_true tx : IsSStx tx = Ok true ->
  exists out0 outs, tx_TxOut tx = out0 :: outs /\ hasClass out0 StakeSubmissionTy = true /\
    length (tx_TxOut tx) = (length (tx_TxIn tx) * 2 + 1)%nat /\ checkFrom sstxOutput 1 outs = Ok tt.
Proof.
  intros H. unfold IsSStx in H. do 2 class_step H. destruct (tx_TxOut tx) as [|out0 outs]; [done|].
  do 3 class_step H. inv_res. exists out0, outs. split_and!; [done..| |].
  - symmetry. by apply Nat.eqb_eq.
  - match goal with x : unit |- _ => destruct x end. done.
Qed.

Lemma IsSStx_no_panic tx : IsSStx tx <> Panic.
Proof.
  assert (Hc : forall l, checkFrom sstxOutput 1 l <> Panic).
  { intros l. apply checkFrom_no_panic. intros k out _. unfold sstxOutput, guard_err.
    repeat (case_match; try done).
    match goal with H : _ || _ = false |- _ => apply orb_false_iff in H as [Hlt%Nat.ltb_ge _] end.
    destruct (pushPrefixOk_total validSStxAddressOutMinPrefix (PkScript out)) as [b ->];
      [cbn; lia|unfold SStxPKHMinOutSize in Hlt; lia|]. cbn. by destruct b. }
  unfold IsSStx. repeat (case_match; try done).
  match goal with |- context [checkFrom sstxOutput 1 ?l] => specialize (Hc l); by destruct (checkFrom sstxOutput 1 l) end.
Qed.

Lemma IsSSRtx_no_panic tx : IsSSRtx tx <> Panic.
Proof. unfold IsSSRtx. by repeat case_match. Qed.

Lemma IsSSRtx_true tx : IsSSRtx tx = Ok true ->
  length (tx_TxIn tx) = 1%nat /\
  (forall out, tx_TxOut tx !! 0%nat = Some out -> hasClass out StakeRevocationTy = true).
Proof.
  intros H. unfold IsSSRtx in H. repeat class_step H. split; [by apply Nat.eqb_eq|].
  intros out Ho. destruct (tx_TxOut tx); [done|]. cbn in Ho. injection Ho as ->.
  match goal with H : forallb (fun out => hasClass out _) _ = true |- _ => cbn in H; by apply andb_true_iff in H as [? _] end.
Qed.

(** The tests that a vote passes before its second output is looked at. *)
Definition voteReference (tx : MsgTx) : Prop :=
  exists i0 i1 out0 outs, tx_TxIn tx = [i0; i1] /\ tx_TxOut tx = out0 :: outs /\
    IsStakeBase tx = Ok true /\ o_Index (PreviousOutPoint i1) = 0 /\
    o_Tree (PreviousOutPoint i1) = TxTreeStake /\ forallb defaultVersion (out0 :: outs) = true /\
    (length outs <= 65)%nat /\ hasClass out0 NullDataTy = true /\ length (PkScript out0) = 42%nat /\
    take 2 (PkScript out0) = validSSGenReferenceOutPrefix.

(** The tests on the second and later outputs. *)
Definition voteTail (tx : MsgTx) : res stakeRuleError bool :=
  out1 ← or_panic (tx_TxOut tx !! 1%nat);
  if negb (hasClass out1 NullDataTy) then Err ErrSSGenNoVotePush
  else if (length (PkScript out1) <? SSGenVoteBitsOutputMinSize)%nat ||
          (SSGenVoteBitsOutputMaxSize <? length (PkScript out1))%nat then Err ErrSSGenBadVotePush
  else
    ok ← pushPrefixOk validSSGenVoteOutMinPrefix (PkScript out1);
    if negb ok then Err ErrSSGenBadVotePush
    else if negb (forallb (fun out => hasClass out StakeGenTy) (drop 2 (tx_TxOut tx)))
    then Err ErrSSGenBadGenOuts
    else Ok true.

Lemma IsStakeBase_total tx : exists b, IsStakeBase tx = Ok b.
Proof.
  unfold IsStakeBase, isNullOutpoint, isNullFraudProof.
  destruct (tx_TxIn tx) as [|i0 ins]; [eexists; reflexivity|]. cbn -[Nat.eqb].
  repeat case_match; eexists; reflexivity.
Qed.

Lemma IsSSGen_reference tx : voteReference tx -> IsSSGen tx = voteTail tx.
Proof.
  intros (i0 & i1 & out0 & outs & Hi & Ho & Hb & Hx & Ht & Hv & Hl & Hc & Hlen & Hp).
  unfold IsSSGen, voteTail. rewrite Hi, Hb, Ho. cbn [mbind res_bind].
  assert (Hch : checkFrom ssgenInput 0 [i0; i1] = Ok tt) by (cbn; unfold ssgenInput; by rewrite Hx, Ht).
  rewrite Hch, Hv. cbn [or_panic lookup list_lookup mbind res_bind]. rewrite Hc, Hlen, Hp.
  destruct (Nat.ltb_spec MaxOutputsPerSSGen (length (out0 :: outs))) as [Hgt|_];
    [unfold MaxOutputsPerSSGen, MaxInputsPerSStx in Hgt; cbn in Hgt; lia|].
  reflexivity.
Qed.

Ltac err_case b := destruct b eqn:?; cbn [negb]; [|left; eexists; reflexivity].

Lemma IsSSGen_cases tx : (exists e, IsSSGen tx = Err e) \/ voteReference tx.
Proof.
  unfold IsSSGen. err_case (length (tx_TxIn tx) =? NumInputsPerSSGen)%nat.
  destruct (Nat.ltb_spec MaxOutputsPerSSGen (length (tx_TxOut tx))) as [|Hmax]; [left; eexists; reflexivity|].
  destruct (tx_TxOut tx) as [|out0 outs] eqn:Ho; [left; eexists; reflexivity|]. cbn [length Nat.eqb].
  destruct (IsStakeBase_total tx) as [b Hb]. rewrite Hb. cbn [mbind res_bind].
  destruct b; cbn [negb]; [|left; eexists; reflexivity].
  destruct (tx_TxIn tx) as [|i0 [|i1 [|]]] eqn:Hi; try done. cbn [checkFrom].
  unfold ssgenInput. cbn [Nat.eqb mbind res_bind].
  err_case (o_Index (PreviousOutPoint i1) =? 0).
  err_case (o_Tree (PreviousOutPoint i1) =? TxTreeStake). cbn [guard_err mbind res_bind].
  err_case (forallb defaultVersion (out0 :: outs)). cbn [or_panic lookup list_lookup mbind res_bind].
  err_case (hasClass out0 NullDataTy).
  err_case (length (PkScript out0) =? SSGenBlockReferenceOutSize)%nat.
  destruct (decide (take 2 (PkScript out0) = validSSGenReferenceOutPrefix)) as [Hp|Hp];
    [|left; rewrite bool_decide_eq_false_2 by done; eexists; reflexivity].
  right. exists i0, i1, out0, outs. split_and!; [done..|by apply Z.eqb_eq|by apply Z.eqb_eq|done| |done| |done].
  - unfold MaxOutputsPerSSGen, MaxInputsPerSStx in Hmax. cbn in Hmax. lia.
  - by apply Nat.eqb_eq.
Qed.

Lemma voteTail_panic tx : voteTail tx = Panic <-> tx_TxOut tx !! 1%nat = None.
Proof.
  unfold voteTail. destruct (tx_TxOut tx !! 1%nat) as [out1|]; [|done]. cbn [or_panic mbind res_bind].
  split; [|done]. intros H. do 2 class_step H.
  match goal with H : _ || _ = false |- _ => apply orb_false_iff in H as [Hlt%Nat.ltb_ge _] end.
  destruct (pushPrefixOk_total validSSGenVoteOutMinPrefix (PkScript out1)) as [b Hb];
    [cbn; lia|unfold SSGenVoteBitsOutputMinSize in Hlt; lia|].
  rewrite Hb in H. cbn in H. by repeat class_step H.
Qed.

Lemma IsSSGen_true tx : IsSSGen tx = Ok true -> voteReference tx /\
  exists out1, tx_TxOut tx !! 1%nat = Some out1 /\ (4 <= length (PkScript out1))%nat.
Proof.
  intros H. destruct (IsSSGen_cases tx) as [[e He]|Hr]; [congruence|]. split; [done|].
  rewrite (IsSSGen_reference tx Hr) in H. unfold voteTail in H.
  destruct (tx_TxOut tx !! 1%nat) as [out1|]; [|done]. cbn [or_panic mbind res_bind] in H. exists out1.
  split; [done|]. do 2 class_step H.
  match goal with H : _ || _ = false |- _ => by apply orb_false_iff in H as [Hlt%Nat.ltb_ge _] end.
Qed.

Lemma voteReference_not_SStx tx : voteReference tx -> IsSStx tx <> Ok true.
Proof.
  intros (i0 & i1 & out0 & outs & _ & Ho & _ & _ & _ & _ & _ & Hc & _) H.
  apply IsSStx_true in H as (o & os & Ho' & Hc' & _). rewrite Ho in Ho'. injection Ho' as -> _.
  apply hasClass_true in Hc, Hc'. congruence.
Qed.

Lemma IsSSRtx_exclusive tx : IsSSRtx tx = Ok true -> ~ voteReference tx /\ IsSStx tx <> Ok true.
Proof.
  intros [Hl H]%IsSSRtx_true. split.
  - intros (i0 & i1 & ? & ? & Hi & _). by rewrite Hi in Hl.
  - intros (o & os & Ho & Hc & _)%IsSStx_true. specialize (H o ltac:(by rewrite Ho)).
    apply hasClass_true in H, Hc. congruence.
Qed.

Lemma succeeded_true m : succeeded m = Ok true <-> m = Ok true.
Proof. by destruct m as [[]| |]. Qed.

Lemma succeeded_no_panic m : m <> Panic -> exists b, succeeded m = Ok b.
Proof. destruct m as [b|e|]; [by exists b|by exists false|done]. Qed.

(** Classifying a transaction panics in exactly one case: it has a null stakebase
    input and a stake-tree input at index 0, and its only output is a well-formed block
    reference.  IsSSGen then reads the vote output, which is not there.  Every other
    transaction, of any shape, gets a type. *)
Theorem DetermineTxType_panics (tx : MsgTx) :
  DetermineTxType tx = Panic <-> voteReference tx /\ length (tx_TxOut tx) = 1%nat.
Proof.
  assert (Hlone : voteReference tx -> (tx_TxOut tx !! 1%nat = None <-> length (tx_TxOut tx) = 1%nat)).
  { intros (? & ? & ? & outs & _ & -> & _). destruct outs; cbn; split; intros; (done || lia). }
  unfold DetermineTxType. destruct (succeeded_no_panic _ (IsSStx_no_panic tx)) as [b1 E1].
  rewrite E1. cbn [mbind res_bind]. destruct (IsSSGen_cases tx) as [[e He]|Hr].
  - assert (~ voteReference tx \/ tx_TxOut tx !! 1%nat <> None) as Hn.
    { destruct (decide (tx_TxOut tx !! 1%nat = None)) as [Hnone|]; [|by right]. left. intros Hr.
      rewrite (IsSSGen_reference tx Hr) in He. by rewrite (proj2 (voteTail_panic tx) Hnone) in He. }
    split; [|intros [Hr Hl]; rewrite Hlone in Hn by done; naive_solver].
    destruct b1; [done|]. rewrite He. cbn [succeeded mbind res_bind].
    destruct (succeeded_no_panic _ (IsSSRtx_no_panic tx)) as [b3 ->]. by destruct b3.
  - destruct b1; [by apply succeeded_true, voteReference_not_SStx in E1|].
    rewrite (IsSSGen_reference tx Hr). split.
    + intros H. split; [done|]. apply Hlone; [done|]. apply voteTail_panic.
      destruct (voteTail tx) as [[]|e|] eqn:Ht; cbn in H; [done| | |done];
      destruct (succeeded_no_panic _ (IsSSRtx_no_panic tx)) as [b3 E3]; rewrite E3 in H; by destruct b3.
    + intros [_ Hl]. apply Hlone in Hl; [|done]. by rewrite (proj2 (voteTail_panic tx) Hl).
Qed.

Lemma DetermineTxType_class (tx : MsgTx) (t : TxType) :
  DetermineTxType tx = Ok t ->
  (IsSStx tx = Ok true <-> t = TxTypeSStx) /\ (IsSSGen tx = Ok true <-> t = TxTypeSSGen) /\
  (IsSSRtx tx = Ok true <-> t = TxTypeSSRtx).
Proof.
  intros H. unfold DetermineTxType in H.
  apply bind_Ok in H as (b1 & E1 & H). destruct b1.
  { injection H as <-. rewrite succeeded_true in E1. split_and!; [by split|split; [|done]|split; [|done]].
    - intros [Hr _]%IsSSGen_true. by apply voteReference_not_SStx in Hr.
    - by intros [_ ?]%IsSSRtx_exclusive. }
  assert (IsSStx tx <> Ok true) by (rewrite <- succeeded_true, E1; done).
  apply bind_Ok in H as (b2 & E2 & H). destruct b2.
  { injection H as <-. rewrite succeeded_true in E2. split_and!; [by split|by split|split; [|done]].
    intros [Hn _]%IsSSRtx_exclusive. by apply IsSSGen_true in E2 as [Hr _]. }
  assert (IsSSGen tx <> Ok true) by (rewrite <- succeeded_true, E2; done).
  apply bind_Ok in H as (b3 & E3 & H). destruct b3; injection H as <-.
  - rewrite succeeded_true in E3. naive_solver.
  - assert (IsSSRtx tx <> Ok true) by (rewrite <- succeeded_true, E3; done). naive_solver.
Qed.

(** The three kinds of stake transaction exclude each other, so the order in which
    they are tested does not matter: whenever a transaction gets a type, the type says
    exactly which of the three tests it passes. *)
Theorem DetermineTxType_exact (tx : MsgTx) (t : TxType) :
  DetermineTxType tx = Ok t ->
  (IsSStx tx = Ok true <-> t = TxTypeSStx) /\ (IsSSGen tx = Ok true <-> t = TxTypeSSGen) /\
  (IsSSRtx tx = Ok true <-> t = TxTypeSSRtx).
Proof. apply DetermineTxType_class. Qed.

(** *** What is read out of a stake transaction *)

(** A loop all of whose steps succeed from states that satisfy an invariant. *)
Lemma foldM_total {E S A} (P : S -> Prop) (f : S -> A -> res E S) l s :
  (forall s x, x ∈ l -> P s -> exists s', f s x = Ok s' /\ P s') -> P s ->
  exists s', foldM f s l = Ok s' /\ P s'.
Proof.
  revert s. induction l as [|x l IH]; intros s Hstep Hs; cbn; [by exists s|].
  destruct (Hstep s x) as (s' & -> & Hs'); [left|done|]. cbn. apply IH; [|done].
  intros ? ? ?. apply Hstep. by right.
Qed.

Lemma assign_total {E A} (l : list A) i x : (i < length l)%nat -> assign (E := E) l i x = Ok (<[i:=x]> l).
Proof. intros H. unfold assign. by destruct (Nat.ltb_spec i (length l)); [|lia]. Qed.

(** All six slices have the same length, and the amounts are not negative. *)
Definition info_ok (n : nat) (info : StakeOutputInfo) : Prop :=
  length (isP2SH info) = n /\ length (addresses info) = n /\ length (amounts info) = n /\
  length (changeAmounts info) = n /\ length (allSpendRules info) = n /\ length (allSpendLimits info) = n /\
  Forall (fun a => 0 <= a < 2 ^ 63) (amounts info) /\
  Forall (fun l : Z * Z => 0 <= l.1 <= 63 /\ 0 <= l.2 <= 63) (allSpendLimits info).

Lemma decodeAmount_total b : length b = 8%nat -> is_bytes b ->
  exists p a, decodeAmount b = Ok (p, a) /\ 0 <= a < 2 ^ 63.
Proof.
  intros Hl Hb. do 8 (destruct b as [|? b]; [cbn in Hl; lia|]). destruct b; [|cbn in Hl; lia].
  repeat (apply Forall_cons_1 in Hb as [? Hb]). unfold decodeAmount. cbn -[Z.land i64 get_le].
  eexists _, _. split; [reflexivity|]. rewrite Z.land_ones with (n := 7) by lia.
  assert (Hg : 0 <= get_le [z; z0; z1; z2; z3; z4; z5; z6 mod 2 ^ 7] < 2 ^ 63).
  { unfold is_u8 in *. cbv [get_le]. Z.div_mod_to_equations. lia. }
  rewrite i64_small; [exact Hg|unfold is_i64; lia].
Qed.

Lemma sub_slice_bytes {E} (s r : bytes) a b : is_bytes s -> sub_slice (E := E) s a b = Ok r -> is_bytes r.
Proof. unfold sub_slice. intros Hs. destruct (_ && _); intros [= <-]. by apply Forall_take, Forall_drop. Qed.

Lemma fee_limits x : 0 <= x < 65536 ->
  0 <= Z.land x SStxVoteReturnFractionMask <= 63 /\
  0 <= Z.shiftr (Z.land x SStxRevReturnFractionMask) 8 <= 63.
Proof.
  intros Hx. change SStxVoteReturnFractionMask with (Z.ones 6). rewrite Z.land_ones by lia. split.
  - pose proof (Z.mod_pos_bound x (2 ^ 6)). lia.
  - rewrite Z.shiftr_land. change (Z.shiftr SStxRevReturnFractionMask 8) with (Z.ones 6).
    rewrite Z.land_ones by lia. pose proof (Z.mod_pos_bound (Z.shiftr x 8) (2 ^ 6)). lia.
Qed.

Lemma commitmentInfo_total n info idx out : info_ok n info -> (idx / 2 < n)%nat ->
  (32 <= length (mo_PkScript out))%nat -> is_bytes (mo_PkScript out) ->
  exists info', commitmentInfo info idx out = Ok info' /\ info_ok n info'.
Proof.
  intros (L1 & L2 & L3 & L4 & L5 & L6 & Ha & Hf) Hi Hl Hb. unfold commitmentInfo.
  pose proof (sub_slice_Ok (E := stakeRuleError) (mo_PkScript out) 22 30 ltac:(lia)) as H1.
  pose proof (sub_slice_bytes _ _ _ _ Hb H1) as B1. pose proof (length_sub_slice _ _ _ _ H1) as N1.
  pose proof (sub_slice_Ok (E := stakeRuleError) (mo_PkScript out) 30 32 ltac:(lia)) as H2.
  pose proof (sub_slice_bytes _ _ _ _ Hb H2) as B2. pose proof (length_sub_slice _ _ _ _ H2) as N2.
  destruct (decodeAmount_total _ N1 B1) as (p & amt & Hd & Hamt). rewrite H1. cbn [mbind res_bind].
  rewrite Hd. cbn [mbind res_bind]. rewrite (sub_slice_Ok (mo_PkScript out) 2 22) by lia. rewrite H2.
  rewrite (assign_total (isP2SH info)) by lia. cbn [mbind res_bind].
  rewrite (assign_total (addresses info)) by lia. cbn [mbind res_bind].
  rewrite (assign_total (amounts info)) by lia. cbn [mbind res_bind].
  rewrite (assign_total (allSpendRules info)) by lia. cbn [mbind res_bind].
  rewrite (assign_total (allSpendLimits info)) by lia. cbn [mbind res_bind].
  eexists. split; [reflexivity|]. unfold info_ok. cbn [isP2SH addresses amounts changeAmounts allSpendRules allSpendLimits].
  rewrite !length_insert. split_and!; try done; apply Forall_insert; try done.
  apply fee_limits. pose proof (get_le_range _ B2) as Hr. rewrite N2 in Hr. exact Hr.
Qed.

Lemma stakeOutputStep_total n info idx out : info_ok n info -> (0 < idx -> (idx - 1) / 2 < n)%nat ->
  ((idx mod 2)%nat = 1%nat -> (32 <= length (mo_PkScript out))%nat /\ is_bytes (mo_PkScript out)) ->
  exists info', stakeOutputStep info (idx, out) = Ok info' /\ info_ok n info'.
Proof.
  intros Hok Hi Hodd. unfold stakeOutputStep. destruct (Nat.ltb_spec 0 idx) as [Hpos|Hz]; cbn [andb].
  2: by exists info.
  pose proof (Nat.mod_upper_bound idx 2). pose proof (Nat.div_mod_eq idx 2). specialize (Hi Hpos).
  destruct (Nat.eqb_spec (idx mod 2) 0) as [He|He]; cbn [negb].
  - assert ((idx / 2 - 1 < n)%nat) as Hlt.
    { replace (idx - 1)%nat with (1 + (idx / 2 - 1) * 2)%nat in Hi by lia. rewrite Nat.div_add in Hi by done. exact Hi. }
    destruct Hok as (L1 & L2 & L3 & L4 & L5 & L6 & Ha & Hf).
    rewrite assign_total by (by rewrite L4). cbn [mbind res_bind]. eexists. split; [reflexivity|].
    unfold info_ok. cbn [isP2SH addresses amounts changeAmounts allSpendRules allSpendLimits].
    by rewrite length_insert.
  - destruct Hodd as [Hl Hb]; [lia|]. apply commitmentInfo_total; try done.
    replace (idx - 1)%nat with (0 + (idx / 2) * 2)%nat in Hi by lia. by rewrite Nat.div_add in Hi.
Qed.

Lemma indexed_lookup {A} (l : list A) i x : (i, x) ∈ indexed l -> l !! i = Some x.
Proof.
  unfold indexed. intros (k & Hk)%list_elem_of_lookup. apply lookup_zip_with_Some in Hk as (j & y & [= <- <-] & Hj & Hy).
  apply lookup_seq in Hj as [-> _]. done.
Qed.

Lemma sstxOutput_odd i out : (S i mod 2)%nat = 1%nat -> sstxOutput (1 + i) out = Ok tt ->
  (32 <= length (PkScript out))%nat.
Proof.
  intros Hi H. unfold sstxOutput in H. cbn [Nat.add] in H. rewrite Hi in H. cbn [Nat.eqb] in H. do 2 class_step H.
  match goal with H : _ || _ = false |- _ => by apply orb_false_iff in H as [Hlt%Nat.ltb_ge _] end.
Qed.

(** The accessors are safe on the transactions they are meant for.  On every
    transaction that is classified as a vote, the voted block, the vote bits and the vote
    version can be read without a panic.  On every ticket, the commitments can be read:
    there is one address, amount, change amount and pair of fee rules per input, amounts
    fit in 63 bits and fee limits in 6 bits. *)
Theorem stake_accessors_safe (tx : MsgTx) :
  Forall (fun out => is_bytes (PkScript out)) (tx_TxOut tx) ->
  (DetermineTxType tx = Ok TxTypeSSGen ->
   exists ref bits version, SSGenBlockVotedOn tx = Ok ref /\ length ref.1.1 = 32%nat /\
     SSGenVoteBits tx = Ok bits /\ SSGenVersion tx = Ok version) /\
  (DetermineTxType tx = Ok TxTypeSStx ->
   exists info, TxSStxStakeOutputInfo tx = Ok info /\ info_ok (length (tx_TxIn tx)) info).
Proof.
  intros Hbytes. split; intros H.
  - pose proof (proj2 (proj1 (proj2 (DetermineTxType_class tx _ H))) eq_refl) as Hg.
    apply IsSSGen_true in Hg as ((i0 & i1 & out0 & outs & _ & Ho & _ & _ & _ & _ & _ & _ & Hlen & _) & out1 & Ho1 & Hl1).
    unfold SSGenBlockVotedOn, SSGenVoteBits, SSGenVersion. rewrite Ho in *. cbn in Ho1.
    cbn [or_panic lookup list_lookup mbind res_bind]. rewrite Ho1.
    rewrite !sub_slice_Ok by lia. cbn [or_panic mbind res_bind]. rewrite !sub_slice_Ok by lia. cbn [mbind res_bind].
    assert (Hv : exists v, (if (length (PkScript out1) <? 8)%nat then Ok VoteConsensusVersionAbsent
      else version ← sub_slice (PkScript out1) 4 8; Ok (get_le version)) = Ok (E := stakeRuleError) v).
    { destruct (Nat.ltb_spec (length (PkScript out1)) 8); [by eexists|].
      rewrite sub_slice_Ok by lia. by eexists. }
    destruct Hv as [v Hv]. eexists _, _, v. split; [reflexivity|].
    split; [cbn [fst]; rewrite length_take, length_drop; lia|]. split; [reflexivity|exact Hv].
  - pose proof (proj2 (proj1 (DetermineTxType_class tx _ H)) eq_refl) as Hg.
    apply IsSStx_true in Hg as (out0 & outs & Ho & _ & Hlen & Hc).
    unfold TxSStxStakeOutputInfo, SStxStakeOutputInfo.
    assert (Hn : (length (ConvertToMinimalOutputs tx) / 2 = length (tx_TxIn tx))%nat).
    { unfold ConvertToMinimalOutputs. rewrite length_fmap, Hlen, Nat.add_comm, Nat.div_add by done. done. }
    rewrite Hn. set (n := length (tx_TxIn tx)) in *. apply foldM_total.
    2: { unfold info_ok. cbn. rewrite !length_replicate. split_and!; try done; apply Forall_replicate; cbn; lia. }
    intros info [idx out] Hin Hok. apply indexed_lookup in Hin. unfold ConvertToMinimalOutputs in Hin.
    apply list_lookup_fmap_Some in Hin as (o & -> & Hin). apply stakeOutputStep_total; [done| |].
    + intros Hpos. apply lookup_lt_Some in Hin. rewrite Hlen in Hin. apply Nat.Div0.div_lt_upper_bound. lia.
    + intros Hodd. split; [|by eapply Forall_lookup_1 in Hbytes].
      destruct idx as [|k]; [done|]. rewrite Ho in Hin. cbn in Hin.
      rewrite checkFrom_Ok in Hc. specialize (Hc k o Hin). by apply sstxOutput_odd in Hc.
Qed.

(** *** Examples *)

Definition sample_p2pkh : bytes := [0x76; 0xa9; 0x14] ++ replicate 20 7 ++ [0x88; 0xac].

Definition sample_vote : MsgTx :=
  MkMsgTx None TxSerializeFull 1
    [MkTxIn (MkOutPoint zeroHash MaxUint32 TxTreeRegular) MaxUint32 10 0 NullBlockIndex [];
     MkTxIn (MkOutPoint (replicate 32 9) 0 TxTreeStake) MaxUint32 100 5 1 []]
    [MkTxOut 0 0 (0x6a :: 0x28 :: replicate 40 3); MkTxOut 0 0 [0x6a; 0x02; 0x01; 0x00];
     MkTxOut 110 0 (0xbb :: sample_p2pkh)] 0 0.

Definition sample_ticket : MsgTx :=
  MkMsgTx None TxSerializeFull 1 [MkTxIn (MkOutPoint (replicate 32 8) 1 TxTreeRegular) MaxUint32 120 4 2 []]
    [MkTxOut 100 0 (0xba :: sample_p2pkh); MkTxOut 0 0 (0x6a :: 0x1e :: replicate 30 4);
     MkTxOut 15 0 (0xbd :: sample_p2pkh)] 0 0.

(** A vote without its vote output. *)
Definition lone_reference : MsgTx :=
  MkMsgTx None TxSerializeFull 1 (tx_TxIn sample_vote) [MkTxOut 0 0 (0x6a :: 0x28 :: replicate 40 3)] 0 0.

Lemma lone_reference_panics : DetermineTxType lone_reference = Panic.
Proof. vm_compute. reflexivity. Qed.

Lemma DetermineTxType_exact_witness : IsSSGen sample_vote = Ok true /\ IsSStx sample_vote <> Ok true.
Proof.
  destruct (DetermineTxType_exact sample_vote TxTypeSSGen) as (H1 & H2 & _); [vm_compute; reflexivity|].
  split; [by apply H2|]. intros H. apply H1 in H. discriminate H.
Defined.

Lemma is_bytes_check b : forallb (fun x => (0 <=? x) && (x <? 256)) b = true -> is_bytes b.
Proof.
  induction b as [|x b IH]; intros H; [apply Forall_nil_2|]. cbn in H. apply andb_true_iff in H as [Hx Hb].
  apply Forall_cons_2; [unfold is_u8; lia|by apply IH].
Qed.

Lemma scripts_check outs :
  forallb (fun out => forallb (fun x => (0 <=? x) && (x <? 256)) (PkScript out)) outs = true ->
  Forall (fun out => is_bytes (PkScript out)) outs.
Proof.
  induction outs as [|o l IH]; intros H; [apply Forall_nil_2|]. cbn in H. apply andb_true_iff in H as [Ho Hl].
  apply Forall_cons_2; [by apply is_bytes_check|by apply IH].
Qed.

Lemma stake_accessors_safe_witness :
  (exists ref, SSGenBlockVotedOn sample_vote = Ok ref) /\
  (exists info, TxSStxStakeOutputInfo sample_ticket = Ok info /\ info_ok 1 info).
Proof.
  split.
  - destruct (stake_accessors_safe sample_vote) as [H _]; [apply scripts_check; vm_compute; reflexivity|].
    destruct H as (ref & _ & _ & H & _); [vm_compute; reflexivity|by exists ref].
  - destruct (stake_accessors_safe sample_ticket) as [_ H]; [apply scripts_check; vm_compute; reflexivity|].
    apply H. vm_compute. reflexivity.
Defined.
