(* ===== verification/ScriptBuild.v ===== *)
(** * Building scripts and reading addresses out of them

    The script builder of [txscript/scriptbuilder.go], the functions of
    [txscript/standard.go] that build scripts for addresses, and [ExtractPkScriptAddrs],
    which goes the other way.  Addresses are a type of another repository; the class
    [Addresses] holds what this code uses of them.  The theorems show that scripts from the
    builder parse into the opcodes that were added, and that the addresses come back. *)

From S2P Require Import Prelude Opcodes ScriptNum Script.
From stdpp Require Import list.
#[local] Open Scope Z_scope.

Inductive buildError := ErrScriptNotCanonical | ErrUnsupportedAddress | ErrBadNumRequired.

(** ** The builder *)

Record ScriptBuilder := MkBuilder { b_script : bytes; b_err : option buildError }.

Definition NewScriptBuilder : ScriptBuilder := MkBuilder [] None.

Definition Reset (b : ScriptBuilder) : ScriptBuilder := MkBuilder [] None.

(** A step of the builder: after an error nothing is added; when the script would become
    too long the error is set. *)
Definition sized (n : Z) (add : ScriptBuilder -> ScriptBuilder) (b : ScriptBuilder) : ScriptBuilder :=
  if Z.of_nat (length (b_script b)) + n >? maxScriptSize
  then MkBuilder (b_script b) (Some ErrScriptNotCanonical) else add b.

Definition unless_err (add : ScriptBuilder -> ScriptBuilder) (b : ScriptBuilder) : ScriptBuilder :=
  match b_err b with Some _ => b | None => add b end.

Definition append (l : bytes) (b : ScriptBuilder) : ScriptBuilder :=
  MkBuilder (b_script b ++ l) (b_err b).

Definition AddOp (opcode : Z) : ScriptBuilder -> ScriptBuilder := unless_err (sized 1 (append [opcode])).

Definition AddOps (opcodes : bytes) : ScriptBuilder -> ScriptBuilder :=
  unless_err (sized (Z.of_nat (length opcodes)) (append opcodes)).

Definition canonicalDataSize (data : bytes) : Z :=
  let dataLen := Z.of_nat (length data) in
  if dataLen =? 0 then 1
  else if (dataLen =? 1) && (byte_at data 0 <=? 16) then 1
  else if (dataLen =? 1) && (byte_at data 0 =? 0x81) then 1
  else if dataLen <? OP_PUSHDATA1 then 1 + dataLen
  else if dataLen <=? 0xff then 2 + dataLen
  else if dataLen <=? 0xffff then 3 + dataLen
  else 5 + dataLen.

Definition addData (data : bytes) : ScriptBuilder -> ScriptBuilder :=
  let dataLen := Z.of_nat (length data) in
  if (dataLen =? 0) || (dataLen =? 1) && (byte_at data 0 =? 0) then append [OP_0]
  else if (dataLen =? 1) && (byte_at data 0 <=? 16) then append [u8 (OP_1 - 1 + byte_at data 0)]
  else if (dataLen =? 1) && (byte_at data 0 =? 0x81) then append [OP_1NEGATE]
  else
    let prefix :=
      if dataLen <? OP_PUSHDATA1 then [u8 (OP_DATA_1 - 1 + dataLen)]
      else if dataLen <=? 0xff then [OP_PUSHDATA1; u8 dataLen]
      else if dataLen <=? 0xffff then OP_PUSHDATA2 :: put_le 2 dataLen
      else OP_PUSHDATA4 :: put_le 4 dataLen in
    append (prefix ++ data).

Definition AddFullData (data : bytes) : ScriptBuilder -> ScriptBuilder := unless_err (addData data).

Definition AddData (data : bytes) : ScriptBuilder -> ScriptBuilder :=
  unless_err (sized (canonicalDataSize data) (fun b =>
    if Z.of_nat (length data) >? MaxScriptElementSize
    then MkBuilder (b_script b) (Some ErrScriptNotCanonical) else addData data b)).

(** The smallest integer has no encoding: taking its absolute value overflows, and its
    conversion panics. *)
Definition AddInt64 (val : Z) (b : ScriptBuilder) : res buildError ScriptBuilder :=
  match b_err b with
  | Some _ => Ok b
  | None =>
      if Z.of_nat (length (b_script b)) + 1 >? maxScriptSize
      then Ok (MkBuilder (b_script b) (Some ErrScriptNotCanonical))
      else if val =? 0 then Ok (append [OP_0] b)
      else if (val =? -1) || ((val >=? 1) && (val <=? 16)) then Ok (append [u8 (OP_1 - 1 + val)] b)
      else data ← map_err (fun _ => ErrScriptNotCanonical) (num_Bytes val); Ok (AddData data b)
  end.

(** [Script] returns the script and the error; callers return both. *)
Definition Script (b : ScriptBuilder) : res buildError bytes :=
  match b_err b with Some e => Err e | None => Ok (b_script b) end.

Notation "b ▷ f" := (f b) (at level 61, left associativity, only parsing) : go_scope.
#[local] Open Scope go_scope.

(** ** Scripts for public keys and hashes *)

Definition payToPubKeyHashScript (pubKeyHash : bytes) : res buildError bytes :=
  Script (NewScriptBuilder ▷ AddOp OP_DUP ▷ AddOp OP_HASH160 ▷ AddData pubKeyHash
          ▷ AddOp OP_EQUALVERIFY ▷ AddOp OP_CHECKSIG).

Definition payToPubKeyHashAlt (suite : Z) (pubKeyHash : bytes) : res buildError bytes :=
  Script (NewScriptBuilder ▷ AddOp OP_DUP ▷ AddOp OP_HASH160 ▷ AddData pubKeyHash
          ▷ AddOp OP_EQUALVERIFY ▷ AddData [u8 suite] ▷ AddOp OP_CHECKSIGALT).

Definition payToPubKeyHashEdwardsScript : bytes -> res buildError bytes := payToPubKeyHashAlt edwards.
Definition payToPubKeyHashSchnorrScript : bytes -> res buildError bytes := payToPubKeyHashAlt secSchnorr.
Definition payToPubKeyHashBlissScript : bytes -> res buildError bytes := payToPubKeyHashAlt bliss.
Definition payToPubKeyHashLmsScript : bytes -> res buildError bytes := payToPubKeyHashAlt lm.

Definition payToScriptHashScript (scriptHash : bytes) : res buildError bytes :=
  Script (NewScriptBuilder ▷ AddOp OP_HASH160 ▷ AddData scriptHash ▷ AddOp OP_EQUAL).

Definition PayToScriptHashScript (scriptHash : bytes) : res buildError bytes := payToScriptHashScript scriptHash.

Definition payToPubKeyScript (serializedPubKey : bytes) : res buildError bytes :=
  Script (NewScriptBuilder ▷ AddData serializedPubKey ▷ AddOp OP_CHECKSIG).

Definition payToAltPubKey (suite : Z) (serializedPubKey : bytes) : res buildError bytes :=
  Script (NewScriptBuilder ▷ AddData serializedPubKey ▷ AddData [u8 suite] ▷ AddOp OP_CHECKSIGALT).

Definition payToEdwardsPubKeyScript : bytes -> res buildError bytes := payToAltPubKey edwards.
Definition payToSchnorrPubKeyScript : bytes -> res buildError bytes := payToAltPubKey secSchnorr.
Definition payToBlissPubKeyScript : bytes -> res buildError bytes := payToAltPubKey bliss.
Definition payToLmsPubKeyScript : bytes -> res buildError bytes := payToAltPubKey lm.

(** ** Addresses

    The dynamic types of [hcashutil.Address] that this package distinguishes. *)
Inductive AddressType :=
| AddressPubKeyHash | AddressScriptHash | AddressSecpPubKey | AddressEdwardsPubKey
| AddressSecSchnorrPubKey | AddressBlissPubKey | AddressLmsPubKey.

#[export] Instance AddressType_eq_dec : EqDecision AddressType.
Proof. solve_decision. Defined.

(** What is used of addresses and keys: the type of an address, its signature suite, the
    bytes it contributes to a script, and the constructors for the network of the node,
    which may fail. *)
Class Addresses := {
  Address : Type;
  addressType : Address -> option AddressType;
  DSA : Address -> Z;
  ScriptAddress : Address -> bytes;
  PublicKey : Type;
  ParsePubKey : bytes -> option PublicKey;
  NewAddressPubKeyHash : bytes -> Z -> option Address;
  NewAddressScriptHashFromHash : bytes -> option Address;
  NewAddressSecpPubKeyCompressed : PublicKey -> option Address;
  NewAddressEdwardsPubKey : bytes -> option Address;
  NewAddressSecSchnorrPubKey : bytes -> option Address;
  NewAddressBlissPubKey : bytes -> option Address;
  NewAddressLmsPubKey : bytes -> option Address
}.

(** The suites [chainec.ECTypeSecp256k1], [bs.BSTypeBliss] and so on as they are numbered. *)
Definition ECTypeSecp256k1 : Z := 0.

Section addresses.
Context `{Addresses}.

(** An interface value is an address or nil, [None]. *)
Definition PayToAddrScript (addr : option Address) : res buildError bytes :=
  match addr with
  | None => Err ErrUnsupportedAddress
  | Some addr =>
      match addressType addr with
      | Some AddressPubKeyHash =>
          let dsa := DSA addr in
          if dsa =? ECTypeSecp256k1 then payToPubKeyHashScript (ScriptAddress addr)
          else if dsa =? edwards then payToPubKeyHashEdwardsScript (ScriptAddress addr)
          else if dsa =? secSchnorr then payToPubKeyHashSchnorrScript (ScriptAddress addr)
          else if dsa =? bliss then payToPubKeyHashBlissScript (ScriptAddress addr)
          else if dsa =? lm then payToPubKeyHashLmsScript (ScriptAddress addr)
          else Err ErrUnsupportedAddress
      | Some AddressScriptHash => payToScriptHashScript (ScriptAddress addr)
      | Some AddressSecpPubKey => payToPubKeyScript (ScriptAddress addr)
      | Some AddressEdwardsPubKey => payToEdwardsPubKeyScript (ScriptAddress addr)
      | Some AddressSecSchnorrPubKey => payToSchnorrPubKeyScript (ScriptAddress addr)
      | Some AddressBlissPubKey => payToBlissPubKeyScript (ScriptAddress addr)
      | Some AddressLmsPubKey => payToLmsPubKeyScript (ScriptAddress addr)
      | None => Err ErrUnsupportedAddress
      end
  end.

(** *** Stake outputs

    The switch on the address with which the functions for stake outputs start: the type
    of script and the number of the suite for the alternative form. *)
Definition stakeScriptType (addr : Address) : res buildError (ScriptClass * Z) :=
  match addressType addr with
  | Some AddressPubKeyHash =>
      if negb (DSA addr =? ECTypeSecp256k1) then Err ErrUnsupportedAddress else Ok (PubKeyHashTy, bliss)
  | Some AddressBlissPubKey =>
      if negb (DSA addr =? bliss) then Err ErrUnsupportedAddress else Ok (PubkeyHashAltTy, bliss)
  | Some AddressLmsPubKey =>
      if negb (DSA addr =? lm) then Err ErrUnsupportedAddress else Ok (PubkeyHashAltTy, lm)
  | Some AddressScriptHash => Ok (ScriptHashTy, bliss)
  | _ => Err ErrUnsupportedAddress
  end.

Definition stakePKH (tag : Z) (hash : bytes) : res buildError bytes :=
  Script (NewScriptBuilder ▷ AddOp tag ▷ AddOp OP_DUP ▷ AddOp OP_HASH160 ▷ AddData hash
          ▷ AddOp OP_EQUALVERIFY ▷ AddOp OP_CHECKSIG).

Definition stakeSH (tag : Z) (hash : bytes) : res buildError bytes :=
  Script (NewScriptBuilder ▷ AddOp tag ▷ AddOp OP_HASH160 ▷ AddData hash ▷ AddOp OP_EQUAL).

(** The four functions differ in the tag of the first and the last form only; the form for
    the alternative suites has OP_SSGEN in all of them. *)
Definition payToStake (tag : Z) (addr : option Address) : res buildError bytes :=
  match addr with
  | None => Err ErrUnsupportedAddress
  | Some addr =>
      '(scriptType, altData) ← stakeScriptType addr;
      let hash := ScriptAddress addr in
      if bool_decide (scriptType = PubKeyHashTy) then stakePKH tag hash
      else if bool_decide (scriptType = PubkeyHashAltTy) then
        Script (NewScriptBuilder ▷ AddOp OP_SSGEN ▷ AddOp OP_DUP ▷ AddOp OP_HASH160 ▷ AddData hash
                ▷ AddOp OP_EQUALVERIFY ▷ AddData [u8 altData] ▷ AddOp OP_CHECKSIG)
      else stakeSH tag hash
  end.

Definition PayToSStx : option Address -> res buildError bytes := payToStake OP_SSTX.
Definition PayToSStxChange : option Address -> res buildError bytes := payToStake OP_SSTXCHANGE.
Definition PayToSSGen : option Address -> res buildError bytes := payToStake OP_SSGEN.
Definition PayToSSRtx : option Address -> res buildError bytes := payToStake OP_SSRTX.

(** A nil slice is [None]. *)
Definition direct (pay : bytes -> res buildError bytes) (hash : option bytes) : res buildError bytes :=
  match hash with None => Err ErrUnsupportedAddress | Some hash => pay hash end.

Definition PayToSSGenPKHDirect : option bytes -> res buildError bytes := direct (stakePKH OP_SSGEN).
Definition PayToSSGenSHDirect : option bytes -> res buildError bytes := direct (stakeSH OP_SSGEN).
Definition PayToSSRtxPKHDirect : option bytes -> res buildError bytes := direct (stakePKH OP_SSRTX).
Definition PayToSSRtxSHDirect : option bytes -> res buildError bytes := direct (stakeSH OP_SSRTX).

Definition GenerateSStxAddrPush (addr : option Address) (amount limits : Z) : res buildError bytes :=
  match addr with
  | None => Err ErrUnsupportedAddress
  | Some addr =>
      '(scriptType, _) ← stakeScriptType addr;
      let amountBuffer := put_le 8 (u64 amount) in
      let amountBuffer :=
        if bool_decide (scriptType = ScriptHashTy)
        then <[7%nat := Z.lor (byte_at amountBuffer 7) (Z.shiftl 1 7)]> amountBuffer else amountBuffer in
      Ok ([0x6a; 0x1e] ++ ScriptAddress addr ++ amountBuffer ++ put_le 2 limits)
  end.

Definition GenerateSSGenBlockRef (blockHash : bytes) (height keyHeight : Z) : bytes :=
  [0x6a; 0x28] ++ blockHash ++ put_le 4 height ++ put_le 4 keyHeight.

Definition GenerateSSGenVotes (votebits : Z) : bytes := [0x6a; 0x02] ++ put_le 2 votebits.

Definition GenerateProvablyPruneableOut (data : bytes) : res buildError bytes :=
  Script (NewScriptBuilder ▷ AddOp OP_RETURN ▷ AddData data).

Definition MultiSigScript (pubkeys : list Address) (nrequired : Z) : res buildError bytes :=
  if Z.of_nat (length pubkeys) <? nrequired then Err ErrBadNumRequired
  else
    builder ← AddInt64 nrequired NewScriptBuilder;
    let builder := foldl (fun b key => b ▷ AddData (ScriptAddress key)) builder pubkeys in
    builder ← AddInt64 (Z.of_nat (length pubkeys)) builder;
    Script (builder ▷ AddOp OP_CHECKMULTISIG).

(** *** Addresses of a script *)

Inductive extractError := InvalidScriptVersion | ExtractFailed (e : scriptError).

(** The data of the opcode at [i], which the class of the script makes sure is there. *)
Definition data_at (pops : list pop) (i : nat) : res extractError bytes :=
  p ← or_panic (pops !! i); Ok (data_of (fun d => d) p).

(** [suite, _ := ExtractPkScriptAltSigType(pkScript)]: the number that comes with an error. *)
Definition altSuite (pkScript : bytes) : res extractError Z :=
  match ExtractPkScriptAltSigType pkScript with
  | Ok suite => Ok suite
  | Err WrongScriptType | Err BadSignatureScheme => Ok (-1)
  | Err _ => Ok 0
  | Panic => Panic
  end.

Definition secpAddress (data : bytes) : option Address :=
  pk ← ParsePubKey data; NewAddressSecpPubKeyCompressed pk.

Definition altAddress (suite : Z) (data : bytes) : option Address :=
  if suite =? edwards then NewAddressEdwardsPubKey data
  else if suite =? secSchnorr then NewAddressSecSchnorrPubKey data
  else if suite =? bliss then NewAddressBlissPubKey data
  else if suite =? lm then NewAddressLmsPubKey data
  else None.

(** The addresses of the keys [pops[1]] to [pops[numPubKeys]]. *)
Fixpoint keyAddresses (pops : list pop) (numPubKeys : nat) (i : nat) : res extractError (list Address) :=
  match numPubKeys with
  | O => Ok []
  | S n =>
      data ← data_at pops (S i);
      addrs ← keyAddresses pops n (S i);
      Ok (option_list (secpAddress data) ++ addrs)
  end.

(** A stake output is its tag before a script that is none, so the second call makes no
    further one; the length of the script is enough fuel. *)
Fixpoint extractAddrs (fuel : nat) (version : Z) (pkScript : bytes) :
    res extractError (ScriptClass * list Address * Z) :=
  match fuel with
  | O => Err (ExtractFailed StillRunning)
  | S fuel =>
      if negb (version =? DefaultScriptVersion) then Err InvalidScriptVersion
      else
        pops ← map_err ExtractFailed (parse_ok pkScript);
        let scriptClass := class_of pops in
        match scriptClass with
        | PubKeyHashTy =>
            data ← data_at pops 2;
            Ok (scriptClass, option_list (NewAddressPubKeyHash data ECTypeSecp256k1), 1)
        | PubkeyHashAltTy =>
            suite ← altSuite pkScript;
            data ← data_at pops 2;
            Ok (scriptClass, option_list (NewAddressPubKeyHash data suite), 1)
        | PubKeyTy =>
            data ← data_at pops 0;
            Ok (scriptClass, option_list (secpAddress data), 1)
        | PubkeyAltTy =>
            suite ← altSuite pkScript;
            data ← data_at pops 0;
            Ok (scriptClass, option_list (altAddress suite data), 1)
        | StakeSubmissionTy | StakeGenTy | StakeRevocationTy | StakeSubChangeTy =>
            match extractAddrs fuel version (drop 1 pkScript) with
            | Ok (_, addrs, requiredSigs) => Ok (scriptClass, addrs, requiredSigs)
            | Err _ => Ok (scriptClass, [], 0)
            | Panic => Panic
            end
        | ScriptHashTy =>
            data ← data_at pops 1;
            Ok (scriptClass, option_list (NewAddressScriptHashFromHash data), 1)
        | MultiSigTy =>
            first ← or_panic (pops !! 0%nat);
            last2 ← or_panic (pops !! (length pops - 2)%nat);
            addrs ← keyAddresses pops (Z.to_nat (asSmallInt (pop_op last2))) 0;
            Ok (scriptClass, addrs, asSmallInt (pop_op first))
        | NullDataTy | NonStandardTy => Ok (scriptClass, [], 0)
        end
  end.

Definition ExtractPkScriptAddrs (version : Z) (pkScript : bytes) :
    res extractError (ScriptClass * list Address * Z) :=
  extractAddrs (S (length pkScript)) version pkScript.

End addresses.

(** The cases of an integer that is one of [k] from [lo] on. *)
Ltac enumerate n lo k :=
  let H := fresh in
  assert (H : In n (seqZ lo k)) by (apply list_elem_of_In, elem_of_seqZ; lia);
  vm_compute in H; repeat destruct H as [<-|H]; [..|done].

(** ** What the builder builds *)

#[local] Arguments opcode_at : simpl never.
#[local] Arguments op_length : simpl never.
#[local] Arguments op_value : simpl never.

(** The parsed opcode that pushing [data] amounts to. *)
Definition dataOp (data : bytes) : Z :=
  let dataLen := Z.of_nat (length data) in
  if dataLen <? OP_PUSHDATA1 then dataLen
  else if dataLen <=? 0xff then OP_PUSHDATA1
  else if dataLen <=? 0xffff then OP_PUSHDATA2
  else OP_PUSHDATA4.

Definition dataPop (data : bytes) : pop :=
  match data with
  | [] => MkPop (opcode_at OP_0) None
  | [x] => if x =? 0 then MkPop (opcode_at OP_0) None
           else if x <=? 16 then MkPop (opcode_at (80 + x)) None
           else if x =? 0x81 then MkPop (opcode_at OP_1NEGATE) None
           else MkPop (opcode_at OP_DATA_1) (Some [x])
  | _ => MkPop (opcode_at (dataOp data)) (Some data)
  end.

Definition opPop (v : Z) : pop := MkPop (opcode_at v) None.

(** An opcode that is a single byte. *)
Definition single_op (v : Z) : Prop := is_u8 v /\ op_length (opcode_at v) = 1.

Lemma opPop_wf v : single_op v -> pop_wf (opPop v).
Proof.
  intros [Hv Hl]. destruct (opcode_kinds v Hv) as [Ho _]. unfold pop_wf, pop_value, opPop. cbn.
  rewrite Ho. split_and!; [apply Hv..|done|constructor|done].
Qed.

Lemma opPop_enc v : single_op v -> pop_enc (opPop v) = [v].
Proof.
  intros [Hv Hl]. destruct (opcode_kinds v Hv) as [Ho _]. unfold pop_enc, pop_tail, pop_value, opPop. cbn.
  by rewrite Ho, Hl.
Qed.

Lemma small_single x : 0 <= x <= 16 -> single_op (if x =? 0 then OP_0 else 80 + x).
Proof.
  intros Hx. assert (Ha : forallb (fun n => op_length (opcode_at (if n =? 0 then OP_0 else 80 + n)) =? 1)
    (Z.of_nat <$> seq 0 17) = true) by (vm_compute; reflexivity).
  rewrite forallb_forall in Ha. specialize (Ha x). split.
  - destruct (Z.eqb_spec x 0); unfold is_u8, OP_0, OP_FALSE; lia.
  - apply Z.eqb_eq, Ha, list_elem_of_In, list_elem_of_fmap. exists (Z.to_nat x).
    split; [lia|]. apply elem_of_seq. lia.
Qed.

Lemma fixed_length n : 1 <= n <= 75 -> op_length (opcode_at n) = n + 1.
Proof.
  intros Hn. assert (Ha : forallb (fun n => op_length (opcode_at n) =? n + 1) (Z.of_nat <$> seq 1 75) = true)
    by (vm_compute; reflexivity).
  rewrite forallb_forall in Ha. apply Z.eqb_eq, Ha, list_elem_of_In, list_elem_of_fmap. exists (Z.to_nat n).
  split; [lia|]. apply elem_of_seq. lia.
Qed.

(** The data of a push with a length of its own, and its encoding. *)
Lemma dataPop_long data : is_bytes data -> 1 <= Z.of_nat (length data) <= MaxScriptElementSize ->
  let p := MkPop (opcode_at (dataOp data)) (Some data) in
  pop_wf p /\ pop_enc p =
    (if Z.of_nat (length data) <? OP_PUSHDATA1 then [u8 (OP_DATA_1 - 1 + Z.of_nat (length data))]
     else if Z.of_nat (length data) <=? 0xff then [OP_PUSHDATA1; u8 (Z.of_nat (length data))]
     else if Z.of_nat (length data) <=? 0xffff then OP_PUSHDATA2 :: put_le 2 (Z.of_nat (length data))
     else OP_PUSHDATA4 :: put_le 4 (Z.of_nat (length data))) ++ data.
Proof.
  intros Hb Hl p. unfold MaxScriptElementSize in Hl.
  assert (Hop : is_u8 (dataOp data)) by (unfold dataOp, OP_PUSHDATA1, OP_PUSHDATA2, OP_PUSHDATA4, is_u8;
    repeat case_match; lia).
  destruct (opcode_kinds _ Hop) as [Ho _].
  unfold pop_wf, pop_enc, pop_tail, pop_value, p. cbn [pop_op pop_data data_of]. rewrite Ho.
  unfold dataOp in *. destruct (Z.ltb_spec (Z.of_nat (length data)) OP_PUSHDATA1) as [H|H].
  - unfold OP_PUSHDATA1 in H. rewrite fixed_length by lia.
    destruct (Z.ltb_spec (Z.of_nat (length data) + 1) 0); [lia|]. unfold OP_DATA_1.
    rewrite u8_small by (unfold is_u8; lia). split; [|cbn; f_equal; lia]. split_and!; [apply Hop..|done|done|].
    left. lia.
  - unfold OP_PUSHDATA1 in H. destruct (Z.leb_spec (Z.of_nat (length data)) 0xff).
    + assert (op_length (opcode_at OP_PUSHDATA1) = -1) as -> by reflexivity.
      split; [split_and!; [apply Hop..|done|done|right; cbn; lia]|reflexivity].
    + destruct (Z.leb_spec (Z.of_nat (length data)) 0xffff); [|lia].
      assert (op_length (opcode_at OP_PUSHDATA2) = -2) as -> by reflexivity.
      split; [split_and!; [apply Hop..|done|done|right; cbn; lia]|reflexivity].
Qed.

Lemma single_spec v : single_op v ->
  pop_wf (opPop v) /\ (forall b, append [v] b = append (pop_enc (opPop v)) b) /\
  1 = Z.of_nat (length (pop_enc (opPop v))).
Proof. intros Hv. rewrite opPop_enc by done. split_and!; [by apply opPop_wf|done|done]. Qed.

(** Pushing data appends the encoding of its opcode, whose length is the canonical size. *)
Lemma dataPop_spec data : is_bytes data -> Z.of_nat (length data) <= MaxScriptElementSize ->
  pop_wf (dataPop data) /\ (forall b, addData data b = append (pop_enc (dataPop data)) b) /\
  canonicalDataSize data = Z.of_nat (length (pop_enc (dataPop data))).
Proof.
  intros Hb Hl. unfold addData, canonicalDataSize. destruct data as [|x [|y data]].
  - apply (single_spec OP_0), (small_single 0). lia.
  - apply Forall_cons_1 in Hb as [Hx _]. unfold is_u8 in Hx. cbn [length dataPop byte_at nth].
    change (Z.of_nat 1 =? 0) with false. change (Z.of_nat 1 =? 1) with true. cbn [orb andb].
    destruct (Z.eqb_spec x 0) as [->|]; [apply (single_spec OP_0), (small_single 0); lia|].
    destruct (Z.leb_spec x 16).
    { pose proof (small_single x ltac:(lia)) as H0. destruct (Z.eqb_spec x 0); [done|].
      apply single_spec in H0. unfold OP_1. rewrite u8_small by (unfold is_u8; lia).
      replace (81 - 1 + x) with (80 + x) by lia. exact H0. }
    destruct (Z.eqb_spec x 0x81) as [->|].
    { apply (single_spec OP_1NEGATE). split; [unfold is_u8, OP_1NEGATE; lia|done]. }
    destruct (dataPop_long [x]) as [Hw He]; [apply Forall_cons_2; [exact Hx|constructor]|cbn; unfold MaxScriptElementSize; lia|].
    cbn zeta in Hw, He. change (dataOp [x]) with OP_DATA_1 in *.
    split_and!; [done| |by rewrite He]. intros b. by rewrite He.
  - cbn [dataPop]. set (d := x :: y :: data) in *.
    assert (Hlen : 2 <= Z.of_nat (length d)) by (unfold d; cbn [length]; lia).
    destruct (Z.eqb_spec (Z.of_nat (length d)) 0); [lia|]. destruct (Z.eqb_spec (Z.of_nat (length d)) 1); [lia|].
    cbn [orb andb]. destruct (dataPop_long d Hb ltac:(lia)) as [Hw He]. cbn zeta in Hw, He.
    split_and!; [done|intros b; by rewrite He|]. rewrite He, length_app, Nat2Z.inj_add.
    repeat case_match; cbn [length]; rewrite ?length_put_le; lia.
Qed.

(** A program for the builder, and the opcodes that it asks for. *)
Inductive action := Op (v : Z) | Push (data : bytes) | Num (n : Z).

Definition perform (a : action) (b : ScriptBuilder) : res buildError ScriptBuilder :=
  match a with
  | Op v => Ok (AddOp v b)
  | Push data => Ok (AddData data b)
  | Num n => AddInt64 n b
  end.

Definition build (acts : list action) : res buildError bytes :=
  b ← foldM (fun b a => perform a b) NewScriptBuilder acts; Script b.

Definition action_data (a : action) : bytes :=
  match a with
  | Op _ => []
  | Push data => data
  | Num n => match num_Bytes n with Ok d => d | _ => [] end
  end.

Definition action_pop (a : action) : pop :=
  match a with Op v => opPop v | _ => dataPop (action_data a) end.

(** Opcodes of one byte, data that are bytes, numbers of at most 55 bits. *)
Definition action_ok (a : action) : Prop :=
  match a with
  | Op v => single_op v
  | Push data => is_bytes data
  | Num n => Z.abs n < 2 ^ 55
  end.

Definition encoded (acts : list action) : bytes := concat (pop_enc ∘ action_pop <$> acts).

(** Everything fits: no element is too large, and the whole script is not. *)
Definition fits (acts : list action) : Prop :=
  Forall (fun a => Z.of_nat (length (action_data a)) <= MaxScriptElementSize) acts /\
  Z.of_nat (length (encoded acts)) <= maxScriptSize.

Lemma num_Bytes_small n : Z.abs n < 2 ^ 55 -> n <> 0 ->
  exists w b, num_Bytes n = Ok (w ++ [b]) /\ is_bytes (w ++ [b]) /\ (length w < 7)%nat /\ num_of w b = n.
Proof.
  intros Hn H0. destruct (decode_encoded n 7 H0 ltac:(exact Hn) ltac:(lia)) as (w & b & He & Hb & Hl & _ & Hg).
  exists w, b. split_and!; [done..|lia|done].
Qed.

Lemma canonicalDataSize_pos data : 1 <= canonicalDataSize data.
Proof. unfold canonicalDataSize. repeat case_match; lia. Qed.

(** Adding an integer is pushing its encoding as a script number. *)
Lemma AddInt64_data n b : Z.abs n < 2 ^ 55 -> AddInt64 n b = Ok (AddData (action_data (Num n)) b).
Proof.
  intros Hn. unfold AddInt64, AddData, unless_err, sized. destruct (b_err b); [done|].
  destruct (Z.gtb_spec (Z.of_nat (length (b_script b)) + 1) maxScriptSize) as [H|H].
  { pose proof (canonicalDataSize_pos (action_data (Num n))).
    destruct (Z.gtb_spec (Z.of_nat (length (b_script b)) + canonicalDataSize (action_data (Num n))) maxScriptSize);
      [done|lia]. }
  destruct (decide (- 1 <= n <= 16)) as [Hs|Hs].
  - assert (canonicalDataSize (action_data (Num n)) = 1 /\
      Z.of_nat (length (action_data (Num n))) >? MaxScriptElementSize = false) as [-> ->]
      by (enumerate n (-1) 18; split; reflexivity).
    destruct (Z.gtb_spec (Z.of_nat (length (b_script b)) + 1) maxScriptSize); [lia|].
    enumerate n (-1) 18; reflexivity.
  - destruct (Z.eqb_spec n 0); [lia|]. destruct (Z.eqb_spec n (-1)); [lia|]. rewrite Z.geb_leb.
    destruct (Z.leb_spec 1 n), (Z.leb_spec n 16); try lia; cbn [orb andb].
    all: destruct (num_Bytes_small n Hn) as (w & x & He & _ & _ & _); [done|].
    all: cbn [action_data]; rewrite He; cbn [map_err mbind res_bind]; unfold AddData, unless_err, sized.
    all: by destruct (b_err b).
Qed.

Definition action_fits (s : bytes) (a : action) : bool :=
  (Z.of_nat (length (action_data a)) <=? MaxScriptElementSize) &&
  (Z.of_nat (length s) + Z.of_nat (length (pop_enc (action_pop a))) <=? maxScriptSize).

Lemma action_data_bytes a : action_ok a -> is_bytes (action_data a).
Proof.
  destruct a as [v|data|n]; cbn; [constructor|done|]. intros Hn. destruct (Z.eq_dec n 0) as [->|H0]; [constructor|].
  by destruct (num_Bytes_small n Hn H0) as (w & b & -> & Hb & _).
Qed.

Lemma AddData_step data s : is_bytes data ->
  AddData data (MkBuilder s None) =
    if (Z.of_nat (length data) <=? MaxScriptElementSize) &&
       (Z.of_nat (length s) + Z.of_nat (length (pop_enc (dataPop data))) <=? maxScriptSize)
    then MkBuilder (s ++ pop_enc (dataPop data)) None else MkBuilder s (Some ErrScriptNotCanonical).
Proof.
  intros Hb. unfold AddData, unless_err, sized. cbn [b_err b_script].
  destruct (Z.leb_spec (Z.of_nat (length data)) MaxScriptElementSize) as [Hl|Hl]; cbn [andb].
  - destruct (dataPop_spec data Hb Hl) as (_ & Ha & Hs). rewrite Hs, Z.gtb_ltb, Z.ltb_antisym.
    destruct (_ <=? maxScriptSize); cbn [negb]; [|done]. rewrite Z.gtb_ltb.
    destruct (Z.ltb_spec MaxScriptElementSize (Z.of_nat (length data))); [lia|]. by rewrite Ha.
  - destruct (_ >? maxScriptSize); [done|]. destruct (Z.gtb_spec (Z.of_nat (length data)) MaxScriptElementSize); [done|lia].
Qed.

(** One step of a program: the opcode is appended when it fits. *)
Lemma perform_step a s : action_ok a ->
  perform a (MkBuilder s None) =
    Ok (if action_fits s a then MkBuilder (s ++ pop_enc (action_pop a)) None
        else MkBuilder s (Some ErrScriptNotCanonical)).
Proof.
  intros Ha. unfold action_fits. destruct a as [v|data|n]; cbn [perform action_data action_pop].
  - rewrite opPop_enc by done. unfold AddOp, unless_err, sized. cbn [b_err b_script length].
    rewrite Z.gtb_ltb, Z.ltb_antisym. by destruct (_ <=? maxScriptSize).
  - by rewrite AddData_step.
  - rewrite AddInt64_data by done. by rewrite AddData_step by (by apply (action_data_bytes (Num n))).
Qed.

Lemma perform_err a s e : perform a (MkBuilder s (Some e)) = Ok (MkBuilder s (Some e)).
Proof. by destruct a. Qed.

Lemma perform_errs acts s e :
  foldM (fun b a => perform a b) (MkBuilder s (Some e)) acts = Ok (MkBuilder s (Some e)).
Proof. induction acts as [|a acts IH]; cbn [foldM]; [done|]. by rewrite perform_err. Qed.

Lemma perform_all acts : Forall action_ok acts -> forall s, Z.of_nat (length s) <= maxScriptSize -> exists b,
  foldM (fun b a => perform a b) (MkBuilder s None) acts = Ok b /\
  ((b = MkBuilder (s ++ encoded acts) None /\
    Forall (fun a => Z.of_nat (length (action_data a)) <= MaxScriptElementSize) acts /\
    Z.of_nat (length (s ++ encoded acts)) <= maxScriptSize) \/
   (b_err b = Some ErrScriptNotCanonical /\
    ~ (Forall (fun a => Z.of_nat (length (action_data a)) <= MaxScriptElementSize) acts /\
       Z.of_nat (length (s ++ encoded acts)) <= maxScriptSize))).
Proof.
  induction 1 as [|a acts Ha Hok IH]; intros s Hs; cbn [foldM].
  { eexists. split; [done|]. left. unfold encoded. cbn [fmap list_fmap concat]. by rewrite app_nil_r. }
  rewrite perform_step by done. cbn [mbind res_bind].
  assert (He : s ++ encoded (a :: acts) = (s ++ pop_enc (action_pop a)) ++ encoded acts)
    by (unfold encoded; by rewrite <- app_assoc). rewrite He.
  destruct (action_fits s a) eqn:E; unfold action_fits in E.
  - apply andb_true_iff in E as [E1%Z.leb_le E2%Z.leb_le].
    destruct (IH (s ++ pop_enc (action_pop a))) as (b & Hb & Hc); [rewrite length_app; lia|].
    exists b. split; [done|]. rewrite Forall_cons. naive_solver.
  - eexists. rewrite perform_errs. split; [done|]. right. split; [done|]. intros [[Hd _]%Forall_cons_1 Hl].
    rewrite !length_app in Hl. apply andb_false_iff in E as [E%Z.leb_gt|E%Z.leb_gt]; lia.
Qed.

Lemma build_total acts : Forall action_ok acts ->
  (fits acts /\ build acts = Ok (encoded acts)) \/ (~ fits acts /\ build acts = Err ErrScriptNotCanonical).
Proof.
  intros Hok. destruct (perform_all acts Hok [] ltac:(cbn; unfold maxScriptSize; lia)) as (b & Hb & Hc).
  unfold build, NewScriptBuilder. rewrite Hb. cbn [mbind res_bind]. unfold Script.
  destruct Hc as [(-> & H1 & H2)|(-> & Hn)]; [left|right]; by split.
Qed.

Lemma action_pop_wf a : action_ok a -> Z.of_nat (length (action_data a)) <= MaxScriptElementSize -> pop_wf (action_pop a).
Proof.
  intros Ha Hl. pose proof (action_data_bytes a Ha) as Hb.
  destruct a as [v|data|n]; [by apply opPop_wf|by apply dataPop_spec|by apply dataPop_spec].
Qed.

Lemma pop_enc_bytes p : pop_wf p -> is_bytes (pop_enc p).
Proof.
  intros (Hv & _ & Hd & _). unfold pop_enc, pop_tail. apply Forall_cons_2; [done|].
  destruct (_ <? 0); [|done]. apply Forall_app. split; [apply put_le_bytes|done].
Qed.

Lemma built_pops acts : Forall action_ok acts -> fits acts ->
  Forall pop_wf (action_pop <$> acts) /\ is_bytes (encoded acts).
Proof.
  intros Hok [Hd _]. assert (Hw : Forall pop_wf (action_pop <$> acts)).
  { apply Forall_fmap, Forall_forall. intros a Ha. rewrite Forall_forall in Hok, Hd. cbn.
    by apply action_pop_wf; [apply Hok|apply Hd]. }
  split; [done|]. unfold encoded. apply Forall_concat. rewrite list_fmap_compose. apply Forall_fmap.
  eapply Forall_impl; [exact Hw|]. intros p Hp. by apply pop_enc_bytes.
Qed.

Lemma build_parse acts : Forall action_ok acts -> fits acts -> no_alt_byte (encoded acts) ->
  build acts = Ok (encoded acts) /\ parse_ok (encoded acts) = Ok (action_pop <$> acts).
Proof.
  intros Hok Hf Ha. split; [by destruct (build_total acts Hok) as [[_ ->]|[? _]]|].
  destruct (built_pops acts Hok Hf) as [Hw Hb]. unfold parse_ok. rewrite parseScript_template by done.
  unfold encoded in *. rewrite list_fmap_compose in *. by rewrite template_complete.
Qed.

Lemma dataPop_minimal data : is_bytes data -> Z.of_nat (length data) <= MaxScriptElementSize ->
  pop_value (dataPop data) <= OP_PUSHDATA4 -> checkMinimalDataPush (fun d => d) (dataPop data) = Ok tt.
Proof.
  intros Hb Hl Hv. unfold checkMinimalDataPush. destruct data as [|x [|y data]]; [reflexivity| |].
  - apply Forall_cons_1 in Hb as [Hx _]. unfold is_u8 in Hx. cbn [dataPop] in *.
    destruct (Z.eqb_spec x 0); [reflexivity|]. destruct (Z.leb_spec x 16).
    { destruct (opcode_kinds (80 + x)) as [Ho _]; [unfold is_u8; lia|]. unfold pop_value in Hv. cbn in Hv.
      rewrite Ho in Hv. unfold OP_PUSHDATA4 in Hv. lia. }
    destruct (Z.eqb_spec x 0x81); [subst; by vm_compute in Hv|].
    cbn [pop_data data_of length]. change (Z.of_nat 1 =? 0) with false. change (Z.of_nat 1 =? 1) with true.
    change (index (E := scriptError) [x] 0) with (Ok (E := scriptError) x). unfold and_first.
    change (index (E := scriptError) [x] 0) with (Ok (E := scriptError) x). cbn [andb mbind res_bind].
    rewrite Z.geb_leb. destruct (Z.leb_spec 1 x), (Z.leb_spec x 16); try lia. cbn [andb mbind res_bind].
    destruct (Z.eqb_spec x 0x81); [done|]. reflexivity.
  - cbn [dataPop] in *. set (d := x :: y :: data) in *. unfold pop_value. cbn [pop_op pop_data data_of].
    assert (Hn : 2 <= Z.of_nat (length d)) by (unfold d; cbn [length]; lia).
    assert (Hop : is_u8 (dataOp d)) by (unfold dataOp, OP_PUSHDATA1, OP_PUSHDATA2, OP_PUSHDATA4, is_u8;
      repeat case_match; lia).
    rewrite (proj1 (opcode_kinds _ Hop)). destruct (Z.eqb_spec (Z.of_nat (length d)) 0); [lia|].
    destruct (Z.eqb_spec (Z.of_nat (length d)) 1); [lia|]. unfold and_first.
    cbn [andb mbind res_bind]. unfold dataOp, guard_err, OP_PUSHDATA1 in *.
    destruct (Z.leb_spec (Z.of_nat (length d)) 75), (Z.ltb_spec (Z.of_nat (length d)) 76); try lia;
      [by rewrite Z.eqb_refl|]. destruct (Z.leb_spec (Z.of_nat (length d)) 255); [done|].
    by destruct (Z.leb_spec (Z.of_nat (length d)) 65535).
Qed.

(** Adding opcodes at once comes to the same as adding them one by one. *)
Lemma AddOps_one_by_one vs : forall b, Z.of_nat (length (b_script b)) <= maxScriptSize ->
  Script (AddOps vs b) = Script (foldl (fun b v => AddOp v b) b vs).
Proof.
  intros b Hb. destruct (b_err b) as [e|] eqn:E.
  { assert (Hf : foldl (fun b v => AddOp v b) b vs = b)
      by (induction vs as [|v vs IH]; [done|]; cbn [foldl]; unfold AddOp at 2, unless_err; by rewrite E, IH).
    rewrite Hf. unfold AddOps, unless_err. by rewrite E. }
  destruct b as [s e]. cbn in *. subst e. revert s Hb. induction vs as [|v vs IH]; intros s Hb.
  { unfold AddOps, unless_err, sized, append. cbn [b_err b_script length foldl]. rewrite Z.gtb_ltb, app_nil_r.
    destruct (Z.ltb_spec maxScriptSize (Z.of_nat (length s) + Z.of_nat 0)); [lia|done]. }
  cbn [foldl]. unfold AddOp at 2, unless_err, sized. cbn [b_err b_script]. rewrite Z.gtb_ltb.
  destruct (Z.ltb_spec maxScriptSize (Z.of_nat (length s) + 1)) as [Hl|Hl].
  - unfold AddOps, unless_err, sized. cbn [b_err b_script length]. rewrite Z.gtb_ltb.
    destruct (Z.ltb_spec maxScriptSize (Z.of_nat (length s) + Z.of_nat (S (length vs)))); [|lia].
    clear. induction vs as [|w vs IH]; [done|]. exact IH.
  - change (append [v] (MkBuilder s None)) with (MkBuilder (s ++ [v]) None).
    rewrite <- IH by (rewrite length_app; cbn; lia). unfold AddOps, unless_err, sized, append. cbn [b_err b_script].
    rewrite length_app. cbn [length]. rewrite <- app_assoc. cbn [app].
    replace (Z.of_nat (length s + 1) + Z.of_nat (length vs)) with (Z.of_nat (length s) + Z.of_nat (S (length vs))) by lia.
    by destruct (_ >? maxScriptSize).
Qed.

(** C36: scripts from the builder are what was asked for.  A program of opcodes, data and
    integers, where the opcodes are those of a single byte and the integers are below 2^55
    in absolute value, builds the concatenation of the encodings of its opcodes if no
    element and not the whole script is too large, and fails with ErrScriptNotCanonical
    otherwise.  The script parses into exactly one opcode for each step, unless it has 26
    bytes and the byte at offset 24, which the parser reads in another way, is one of 1 to
    16; and every push in it is the shortest one that the engine accepts under the rule of
    minimal pushes.  On a builder whose script is not too long, adding a list of opcodes at
    once gives the same script or error as adding them one by one. *)
Theorem built_scripts_parse (acts : list action) :
  Forall action_ok acts ->
  (fits acts /\ build acts = Ok (encoded acts) \/ ~ fits acts /\ build acts = Err ErrScriptNotCanonical) /\
  (forall script, build acts = Ok script -> no_alt_byte script ->
    parse_ok script = Ok (action_pop <$> acts) /\ Z.of_nat (length script) <= maxScriptSize /\
    Forall (fun p => pop_value p <= OP_PUSHDATA4 -> checkMinimalDataPush (fun d => d) p = Ok tt)
      (action_pop <$> acts)) /\
  (forall vs b, Z.of_nat (length (b_script b)) <= maxScriptSize ->
    Script (AddOps vs b) = Script (foldl (fun b v => AddOp v b) b vs)).
Proof.
  intros Hok. pose proof (build_total acts Hok) as Ht. split; [done|].
  split; [|intros vs b Hb; by apply AddOps_one_by_one]. intros script Hs Ha.
  destruct Ht as [[Hf Hb]|[_ Hb]]; rewrite Hb in Hs; [|done]. injection Hs as <-.
  split_and!; [by apply build_parse|by destruct Hf|].
  apply Forall_fmap, Forall_forall. intros a Hin Hv. rewrite Forall_forall in Hok. specialize (Hok a Hin).
  destruct Hf as [Hd _]. rewrite Forall_forall in Hd. specialize (Hd a Hin). cbn in Hv |- *.
  pose proof (action_data_bytes a Hok) as Hby. destruct a as [v|data|n]; [|by apply dataPop_minimal..].
  destruct Hok as [Hv8 Hl]. cbn [action_pop] in *. unfold pop_value, opPop in Hv. cbn [pop_op] in Hv.
  rewrite (proj1 (opcode_kinds v Hv8)) in Hv.
  assert (v = 0) as ->; [|reflexivity]. unfold OP_PUSHDATA4 in Hv. unfold is_u8 in Hv8.
  destruct (Z.eq_dec v 0); [done|]. destruct (Z_le_gt_dec v 75); [rewrite fixed_length in Hl; lia|].
  assert (v = 76 \/ v = 77 \/ v = 78) as [->|[->| ->]] by lia; by vm_compute in Hl.
Qed.

Lemma built_scripts_parse_witness :
  build [Num 1; Push [0]; Push [7; 8]; Num 300; Op OP_ADD] =
    Ok [OP_1; OP_0; OP_DATA_2; 7; 8; OP_DATA_2; 44; 1; OP_ADD] /\
  parse_ok [OP_1; OP_0; OP_DATA_2; 7; 8; OP_DATA_2; 44; 1; OP_ADD] =
    Ok (action_pop <$> [Num 1; Push [0]; Push [7; 8]; Num 300; Op OP_ADD]).
Proof.
  assert (H : build [Num 1; Push [0]; Push [7; 8]; Num 300; Op OP_ADD] =
    Ok [OP_1; OP_0; OP_DATA_2; 7; 8; OP_DATA_2; 44; 1; OP_ADD]) by (vm_compute; reflexivity).
  split; [exact H|]. refine (proj1 (proj1 (proj2 (built_scripts_parse _ _)) _ H ltac:(discriminate))).
  repeat first [apply Forall_nil_2|apply Forall_cons_2]; cbn; try lia; try (unfold is_u8; lia).
  split; [unfold is_u8, OP_ADD; lia|reflexivity].
Defined.

(** The builder adds a number of a suite as a single opcode. *)
Lemma AddData_suite s b : s ∈ [edwards; secSchnorr; bliss; lm] -> AddData [u8 s] b = AddOp (80 + s) b.
Proof.
  intros Hs. rewrite !elem_of_cons in Hs. destruct Hs as [->|[->|[->|[->|Hs]]]]; [..|by apply elem_of_nil in Hs];
    unfold AddData, AddOp, unless_err, sized; destruct (b_err b); reflexivity.
Qed.

(** Opcodes of one byte, written as a test. *)
Definition high_ops (vs : list Z) : bool :=
  forallb (fun v => (16 <? v) && (v <? 256) && (op_length (opcode_at v) =? 1)) vs.

Lemma high_ops_single vs : high_ops vs = true -> Forall (fun v => single_op v /\ 16 < v) vs.
Proof.
  unfold high_ops. rewrite forallb_forall. intros H. apply Forall_forall. intros v Hv%list_elem_of_In%H.
  unfold single_op, is_u8. lia.
Qed.

Lemma suite_high s vs : s ∈ [edwards; secSchnorr; bliss; lm] -> high_ops vs = true -> high_ops (80 + s :: vs) = true.
Proof.
  intros Hs Hv. unfold high_ops in *. cbn [forallb]. rewrite Hv, andb_true_r.
  rewrite !elem_of_cons in Hs. destruct Hs as [->|[->|[->|[->|Hs]]]]; [..|by apply elem_of_nil in Hs]; reflexivity.
Qed.

Lemma encoded_ops vs : Forall (fun v => single_op v /\ 16 < v) vs -> encoded (Op <$> vs) = vs.
Proof.
  induction 1 as [|v vs [Hv _] _ IH]; [done|]. unfold encoded in *. cbn [fmap list_fmap concat] in *.
  unfold compose at 1. cbn [action_pop]. rewrite opPop_enc by done. cbn [app]. by f_equal.
Qed.

Lemma encoded_app a1 a2 : encoded (a1 ++ a2) = encoded a1 ++ encoded a2.
Proof. unfold encoded. by rewrite fmap_app, concat_app. Qed.

(** Programs that push one element of data between opcodes of one byte. *)
Lemma around_data pre d post : high_ops pre = true -> high_ops post = true -> is_bytes d ->
  2 <= Z.of_nat (length d) <= MaxScriptElementSize -> (2 <= length post /\ length pre + length post <= 100)%nat ->
  exists script, build ((Op <$> pre) ++ [Push d] ++ (Op <$> post)) = Ok script /\
    parse_ok script = Ok ((opPop <$> pre) ++ MkPop (opcode_at (dataOp d)) (Some d) :: (opPop <$> post)).
Proof.
  intros Hpre%high_ops_single Hpost%high_ops_single Hb Hl [Hp2 Hsz].
  set (acts := (Op <$> pre) ++ [Push d] ++ (Op <$> post)).
  assert (Hd : dataPop d = MkPop (opcode_at (dataOp d)) (Some d)).
  { destruct d as [|? [|? d]]; [cbn in Hl; lia..|done]. }
  assert (Hops : forall vs, Forall (fun v => single_op v /\ 16 < v) vs -> Forall action_ok (Op <$> vs)).
  { intros vs Hv. apply Forall_fmap. eapply Forall_impl; [exact Hv|]. by intros v [? _]. }
  assert (Hok : Forall action_ok acts).
  { apply Forall_app. split; [by apply Hops|]. apply Forall_app. split; [|by apply Hops].
    apply Forall_cons_2; [done|apply Forall_nil_2]. }
  assert (Henc : encoded acts = pre ++ pop_enc (dataPop d) ++ post).
  { unfold acts. rewrite !encoded_app, !encoded_ops by done. unfold encoded at 1.
    cbn [fmap list_fmap concat]. unfold compose. cbn [action_pop action_data]. by rewrite app_nil_r. }
  destruct (dataPop_spec d Hb ltac:(lia)) as (_ & _ & Hc).
  assert (Hle : canonicalDataSize d <= 5 + Z.of_nat (length d)) by (unfold canonicalDataSize; repeat case_match; lia).
  assert (Hfit : fits acts).
  { split.
    - assert (Hz : forall vs, Forall (fun a => Z.of_nat (length (action_data a)) <= MaxScriptElementSize) (Op <$> vs))
        by (intros vs; apply Forall_fmap, Forall_true; by vm_compute).
      apply Forall_app. split; [apply Hz|]. apply Forall_app. split; [|apply Hz].
      apply Forall_cons_2; [cbn [action_data]; lia|apply Forall_nil_2].
    - rewrite Henc, !length_app. unfold MaxScriptElementSize, maxScriptSize in *. lia. }
  assert (Halt : no_alt_byte (encoded acts)).
  { intros H26. rewrite Henc in *. rewrite app_assoc in *. rewrite length_app in H26. unfold byte_at.
    rewrite app_nth2 by lia. set (k := (24 - length _)%nat).
    destruct (lookup_lt_is_Some_2 post k ltac:(lia)) as [v Hv]. rewrite (nth_lookup_Some _ _ _ _ Hv).
    apply (Forall_lookup_1 _ _ _ _ Hpost) in Hv as [_ Hv]. unfold OP_DATA_1, OP_DATA_16. lia. }
  exists (encoded acts). destruct (build_parse acts Hok Hfit Halt) as [H1 H2]. split; [done|].
  rewrite H2. unfold acts. rewrite !fmap_app, <- !list_fmap_compose. cbn [fmap list_fmap app action_pop action_data].
  by rewrite Hd.
Qed.

(** ** Addresses survive *)

Definition altType (suite : Z) : option AddressType :=
  if suite =? edwards then Some AddressEdwardsPubKey
  else if suite =? secSchnorr then Some AddressSecSchnorrPubKey
  else if suite =? bliss then Some AddressBlissPubKey
  else if suite =? lm then Some AddressLmsPubKey
  else None.

(** What the package of addresses documents: addresses of hashes are made of 20 bytes and
    keep them and their suite; addresses of keys keep a serialization that parses back. *)
Class AddressLaws `{Addresses} : Prop := {
  pkh_law h s a : NewAddressPubKeyHash h s = Some a ->
    addressType a = Some AddressPubKeyHash /\ DSA a = s /\ ScriptAddress a = h /\ is_bytes h /\ length h = 20%nat;
  sh_law h a : NewAddressScriptHashFromHash h = Some a ->
    addressType a = Some AddressScriptHash /\ ScriptAddress a = h /\ is_bytes h /\ length h = 20%nat;
  secp_law pk a : NewAddressSecpPubKeyCompressed pk = Some a ->
    addressType a = Some AddressSecpPubKey /\ ParsePubKey (ScriptAddress a) = Some pk /\
    is_bytes (ScriptAddress a) /\ length (ScriptAddress a) = 33%nat;
  alt_law s d a : altAddress s d = Some a ->
    addressType a = altType s /\ DSA a = s /\ altAddress s (ScriptAddress a) = Some a /\ is_bytes (ScriptAddress a) /\
    2 <= Z.of_nat (length (ScriptAddress a)) <= MaxScriptElementSize
}.

(** A list of known length as the list of its elements. *)
Ltac explode h H := repeat (destruct h as [|? h]; [try discriminate H|try discriminate H]).

Section survive.
Context `{AddressLaws}.

Inductive standard_address : Address -> ScriptClass -> Prop :=
| standard_pkh h a : NewAddressPubKeyHash h ECTypeSecp256k1 = Some a -> standard_address a PubKeyHashTy
| standard_pkh_alt h s a : s ∈ [edwards; secSchnorr; bliss; lm] -> NewAddressPubKeyHash h s = Some a ->
    standard_address a PubkeyHashAltTy
| standard_sh h a : NewAddressScriptHashFromHash h = Some a -> standard_address a ScriptHashTy
| standard_secp pk a : NewAddressSecpPubKeyCompressed pk = Some a -> standard_address a PubKeyTy
| standard_alt s d a : altAddress s d = Some a -> Z.of_nat (length (ScriptAddress a)) < 512 ->
    standard_address a PubkeyAltTy.

Lemma extract_pkh_alt h s a : s ∈ [edwards; secSchnorr; bliss; lm] -> NewAddressPubKeyHash h s = Some a ->
  exists script, PayToAddrScript (Some a) = Ok script /\
    ExtractPkScriptAddrs 0 script = Ok (PubkeyHashAltTy, [a], 1).
Proof.
  intros Hs Ha. destruct (pkh_law _ _ _ Ha) as (Ht & Hd & Hh & _ & Hl). explode h Hl.
  unfold PayToAddrScript. rewrite Ht, Hd, Hh. clear Ht Hd Hh Hl.
  rewrite !elem_of_cons in Hs. destruct Hs as [->|[->|[->|[->|Hs]]]]; [..|by apply elem_of_nil in Hs];
    (eexists; split; [reflexivity|]; vm_compute; vm_compute in Ha; rewrite Ha; reflexivity).
Qed.

Lemma extract_pkh h a : NewAddressPubKeyHash h ECTypeSecp256k1 = Some a ->
  exists script, PayToAddrScript (Some a) = Ok script /\
    ExtractPkScriptAddrs 0 script = Ok (PubKeyHashTy, [a], 1).
Proof.
  intros Ha. destruct (pkh_law _ _ _ Ha) as (Ht & Hd & Hh & _ & Hl). explode h Hl.
  unfold PayToAddrScript. rewrite Ht, Hd, Hh. clear Ht Hd Hh Hl.
  eexists. split; [reflexivity|]. vm_compute. vm_compute in Ha. by rewrite Ha.
Qed.

Lemma extract_sh h a : NewAddressScriptHashFromHash h = Some a ->
  exists script, PayToAddrScript (Some a) = Ok script /\
    ExtractPkScriptAddrs 0 script = Ok (ScriptHashTy, [a], 1).
Proof.
  intros Ha. destruct (sh_law _ _ Ha) as (Ht & Hh & _ & Hl). explode h Hl.
  unfold PayToAddrScript. rewrite Ht, Hh. clear Ht Hh Hl.
  eexists. split; [reflexivity|]. vm_compute. vm_compute in Ha. by rewrite Ha.
Qed.

Lemma extract_secp pk a : NewAddressSecpPubKeyCompressed pk = Some a ->
  exists script, PayToAddrScript (Some a) = Ok script /\
    ExtractPkScriptAddrs 0 script = Ok (PubKeyTy, [a], 1).
Proof.
  intros Ha. destruct (secp_law _ _ Ha) as (Ht & Hp & _ & Hl).
  unfold PayToAddrScript. rewrite Ht. destruct (ScriptAddress a) as [|x d]; [discriminate Hl|]. clear Ht.
  injection Hl as Hl. explode d Hl.
  eexists. split; [reflexivity|]. vm_compute. vm_compute in Hp. rewrite Hp. vm_compute in Ha. by rewrite Ha.
Qed.

(** The pay-to-alternative-pubkey script parses into three opcodes. *)
Lemma alt_pubkey_parses s d : s ∈ [edwards; secSchnorr; bliss; lm] -> is_bytes d ->
  2 <= Z.of_nat (length d) <= MaxScriptElementSize ->
  exists script, payToAltPubKey s d = Ok script /\
    parse_ok script = Ok [MkPop (opcode_at (dataOp d)) (Some d); opPop (80 + s); opPop OP_CHECKSIGALT].
Proof.
  intros Hs Hb Hl. destruct (around_data [] d [80 + s; OP_CHECKSIGALT]) as (script & Hp & Hps);
    [done|by apply suite_high|done|done|cbn; lia|].
  exists script. split; [|exact Hps]. unfold payToAltPubKey. rewrite AddData_suite by done. exact Hp.
Qed.

Lemma dataOp_range d : 0 <= dataOp d <= 78.
Proof. unfold dataOp, OP_PUSHDATA1, OP_PUSHDATA2, OP_PUSHDATA4. repeat case_match; lia. Qed.

(** Its class depends on the size of the key. *)
Lemma alt_pubkey_class s d : s ∈ [edwards; secSchnorr; bliss; lm] ->
  let pops := [MkPop (opcode_at (dataOp d)) (Some d); opPop (80 + s); opPop OP_CHECKSIGALT] in
  isPubkeyAlt (fun d => d) pops = (Z.of_nat (length d) <? 512) /\
  class_of pops = if Z.of_nat (length d) <? 512 then PubkeyAltTy else NonStandardTy.
Proof.
  intros Hs pops. pose proof (dataOp_range d) as Hr.
  assert (Hv : pop_value (MkPop (opcode_at (dataOp d)) (Some d)) = dataOp d)
    by (unfold pop_value; cbn [pop_op]; apply opcode_kinds; unfold is_u8; lia).
  assert (Ha : isPubkeyAlt (fun d => d) pops = (Z.of_nat (length d) <? 512)).
  { unfold isPubkeyAlt, pops, len_at, val_at. cbn [length nth lookup list_lookup data_of pop_data].
    change (3 =? 3)%nat with true. cbn [andb].
    rewrite !elem_of_cons in Hs. destruct Hs as [->|[->|[->|[->|Hs]]]]; [..|by apply elem_of_nil in Hs];
      by destruct (Z.of_nat (length d) <? 512). }
  split; [exact Ha|]. unfold class_of, typeOfScript. rewrite Ha.
  assert (isPubkey (fun d => d) pops = false) as -> by reflexivity.
  destruct (_ <? 512); [done|].
  assert (isScriptHash pops = false) as ->.
  { unfold isScriptHash, opcodes_are, pops. cbn [length zip zip_with forallb]. rewrite Hv.
    destruct (Z.eqb_spec (dataOp d) OP_HASH160) as [E|]; [|done]. unfold OP_HASH160 in E. lia. }
  reflexivity.
Qed.

Lemma payToAlt s a d : altAddress s d = Some a -> s ∈ [edwards; secSchnorr; bliss; lm] /\
  PayToAddrScript (Some a) = payToAltPubKey s (ScriptAddress a).
Proof.
  intros Ha. destruct (alt_law _ _ _ Ha) as (Ht & _). unfold PayToAddrScript. rewrite Ht.
  unfold altAddress in Ha. unfold altType. rewrite !elem_of_cons.
  repeat (case_match; [simplify_eq/=; rewrite ?Z.eqb_eq in *; subst; split; [tauto|reflexivity]|]). done.
Qed.

Lemma extract_alt s d a : altAddress s d = Some a ->
  exists script, PayToAddrScript (Some a) = Ok script /\
    ExtractPkScriptAddrs 0 script =
      if Z.of_nat (length (ScriptAddress a)) <? 512 then Ok (PubkeyAltTy, [a], 1) else Ok (NonStandardTy, [], 0).
Proof.
  intros Ha. destruct (payToAlt s a d Ha) as [Hs ->]. destruct (alt_law _ _ _ Ha) as (_ & _ & Hr & Hb & Hl).
  destruct (alt_pubkey_parses s _ Hs Hb Hl) as (script & Hp & Hps). exists script. split; [done|].
  unfold ExtractPkScriptAddrs. cbn [extractAddrs]. rewrite Hps. cbn [map_err mbind res_bind].
  destruct (alt_pubkey_class s (ScriptAddress a) Hs) as [Hi Hc]. cbn zeta in *. rewrite Hc.
  change (negb (0 =? DefaultScriptVersion)) with false. cbn iota.
  destruct (Z.of_nat (length (ScriptAddress a)) <? 512); [|done].
  unfold altSuite, ExtractPkScriptAltSigType. rewrite Hps. cbn [mbind res_bind]. rewrite Hi. cbn [orb negb].
  rewrite !elem_of_cons in Hs. destruct Hs as [->|[->|[->|[->|Hs]]]]; [..|by apply elem_of_nil in Hs];
    cbn [isPubkeyHashAlt length Nat.eqb andb lookup list_lookup or_panic mbind res_bind];
    match goal with |- context [extractOneBytePush ?q] =>
      let v := eval vm_compute in (extractOneBytePush q) in change (extractOneBytePush q) with v end;
    cbn -[altAddress u8]; rewrite u8_small by done; cbn -[altAddress];
    unfold edwards, secSchnorr, bliss, lm in Hr; by rewrite Hr.
Qed.

Lemma address_survives (a : Address) (class : ScriptClass) :
  standard_address a class ->
  exists script, PayToAddrScript (Some a) = Ok script /\
    ExtractPkScriptAddrs 0 script = Ok (class, [a], 1).
Proof.
  intros [h a' Ha|h s a' Hs Ha|h a' Ha|pk a' Ha|s d a' Ha Hl].
  - by eapply extract_pkh.
  - by eapply extract_pkh_alt.
  - by eapply extract_sh.
  - by eapply extract_secp.
  - destruct (extract_alt s d a' Ha) as (script & Hp & He). exists script. split; [done|].
    apply Z.ltb_lt in Hl. by rewrite Hl in He.
Qed.

(** *** Stake outputs *)

Definition stake_tags : list (ScriptClass * Z) :=
  [(StakeSubmissionTy, OP_SSTX); (StakeGenTy, OP_SSGEN); (StakeRevocationTy, OP_SSRTX);
   (StakeSubChangeTy, OP_SSTXCHANGE)].

(** The functions that build stake outputs, with the class and the tag they are for. *)
Definition stake_payers : list (ScriptClass * Z * (option Address -> res buildError bytes)) :=
  [(StakeSubmissionTy, OP_SSTX, PayToSStx); (StakeGenTy, OP_SSGEN, PayToSSGen);
   (StakeRevocationTy, OP_SSRTX, PayToSSRtx); (StakeSubChangeTy, OP_SSTXCHANGE, PayToSStxChange)].

Lemma stake_payer class tag pay : (class, tag, pay) ∈ stake_payers -> (class, tag) ∈ stake_tags /\ pay = payToStake tag.
Proof.
  unfold stake_payers, stake_tags. rewrite !elem_of_cons, !elem_of_nil.
  intros [E|[E|[E|[E|[]]]]]; injection E as -> -> ->; (split; [tauto|reflexivity]).
Qed.

Lemma stake_pkh class tag h a : (class, tag) ∈ stake_tags -> NewAddressPubKeyHash h ECTypeSecp256k1 = Some a ->
  exists script, payToStake tag (Some a) = Ok script /\
    parse_ok script = Ok [opPop tag; opPop OP_DUP; opPop OP_HASH160; MkPop (opcode_at OP_DATA_20) (Some h);
                          opPop OP_EQUALVERIFY; opPop OP_CHECKSIG] /\
    ExtractPkScriptAddrs 0 script = Ok (class, [a], 1) /\ GetStakeOutSubclass script = Ok PubKeyHashTy.
Proof.
  intros Hin Ha. destruct (pkh_law _ _ _ Ha) as (Ht & Hd & Hh & _ & Hl). explode h Hl.
  unfold payToStake, stakeScriptType. rewrite Ht, Hd, Hh. clear Ht Hd Hh Hl.
  unfold stake_tags in Hin. rewrite !elem_of_cons in Hin.
  destruct Hin as [E|[E|[E|[E|E]]]]; [..|by apply elem_of_nil in E]; injection E as -> ->;
    (eexists; split_and!; [reflexivity|vm_compute; reflexivity| |vm_compute; reflexivity];
     vm_compute; vm_compute in Ha; rewrite Ha; reflexivity).
Qed.

Lemma stake_sh class tag h a : (class, tag) ∈ stake_tags -> NewAddressScriptHashFromHash h = Some a ->
  exists script, payToStake tag (Some a) = Ok script /\
    parse_ok script = Ok [opPop tag; opPop OP_HASH160; MkPop (opcode_at OP_DATA_20) (Some h); opPop OP_EQUAL] /\
    ExtractPkScriptAddrs 0 script = Ok (class, [a], 1) /\ GetStakeOutSubclass script = Ok ScriptHashTy.
Proof.
  intros Hin Ha. destruct (sh_law _ _ Ha) as (Ht & Hh & _ & Hl). explode h Hl.
  unfold payToStake, stakeScriptType. rewrite Ht, Hh. clear Ht Hh Hl.
  unfold stake_tags in Hin. rewrite !elem_of_cons in Hin.
  destruct Hin as [E|[E|[E|[E|E]]]]; [..|by apply elem_of_nil in E]; injection E as -> ->;
    (eexists; split_and!; [reflexivity|vm_compute; reflexivity| |vm_compute; reflexivity];
     vm_compute; vm_compute in Ha; rewrite Ha; reflexivity).
Qed.

(** The form for the alternative suites is no standard script. *)
Lemma stake_alt tag s d a : altAddress s d = Some a -> s = bliss \/ s = lm ->
  exists script, payToStake tag (Some a) = Ok script /\
    parse_ok script = Ok [opPop OP_SSGEN; opPop OP_DUP; opPop OP_HASH160;
                          MkPop (opcode_at (dataOp (ScriptAddress a))) (Some (ScriptAddress a));
                          opPop OP_EQUALVERIFY; opPop (80 + s); opPop OP_CHECKSIG] /\
    ExtractPkScriptAddrs 0 script = Ok (NonStandardTy, [], 0) /\ GetStakeOutSubclass script = Err NotStakeOutput.
Proof.
  intros Ha Hs. destruct (alt_law _ _ _ Ha) as (Ht & Hdsa & _ & Hb & Hl).
  assert (Hin : s ∈ [edwards; secSchnorr; bliss; lm]) by (rewrite !elem_of_cons; tauto).
  destruct (around_data [OP_SSGEN; OP_DUP; OP_HASH160] (ScriptAddress a) [OP_EQUALVERIFY; 80 + s; OP_CHECKSIG])
    as (script & Hp & Hps); [by vm_compute|destruct Hs as [->| ->]; by vm_compute|done|done|cbn; lia|].
  assert (Hpay : payToStake tag (Some a) = Ok script).
  { rewrite <- Hp. unfold payToStake, stakeScriptType. rewrite Ht, Hdsa.
    destruct Hs as [->| ->]; cbn [altType Z.eqb mbind res_bind];
      unfold build; cbn [mbind res_bind fmap list_fmap app foldM perform];
      rewrite <- AddData_suite by done; reflexivity. }
  assert (Hc : class_of ((opPop <$> [OP_SSGEN; OP_DUP; OP_HASH160]) ++
    MkPop (opcode_at (dataOp (ScriptAddress a))) (Some (ScriptAddress a)) ::
    (opPop <$> [OP_EQUALVERIFY; 80 + s; OP_CHECKSIG])) = NonStandardTy) by reflexivity.
  exists script. split; [done|]. split; [exact Hps|]. unfold ExtractPkScriptAddrs, GetStakeOutSubclass. cbn [extractAddrs].
  rewrite Hps. cbn [map_err mbind res_bind]. rewrite Hc. split; [done|]. reflexivity.
Qed.

(** C37: what stake outputs pay to.  For the address of a secp256k1 key hash or of a script
    hash, each of PayToSStx, PayToSSGen, PayToSSRtx and PayToSStxChange gives its own tag
    before the script of the address; the script is of the class of the function, and the
    address and the kind of hash are read back from it.  For the address of a Bliss or LMS
    key they succeed too, but the tag is OP_SSGEN in all four, and the suite is followed by
    OP_CHECKSIG, not by OP_CHECKSIGALT: the script is no stake output, and no address is
    found in it. *)
Theorem stake_outputs_survive (class : ScriptClass) (tag : Z) (pay : option Address -> res buildError bytes)
    (a : Address) :
  (class, tag, pay) ∈ stake_payers ->
  (forall h, NewAddressPubKeyHash h ECTypeSecp256k1 = Some a -> exists script, pay (Some a) = Ok script /\
     parse_ok script = Ok [opPop tag; opPop OP_DUP; opPop OP_HASH160; MkPop (opcode_at OP_DATA_20) (Some h);
                           opPop OP_EQUALVERIFY; opPop OP_CHECKSIG] /\
     ExtractPkScriptAddrs 0 script = Ok (class, [a], 1) /\ GetStakeOutSubclass script = Ok PubKeyHashTy) /\
  (forall h, NewAddressScriptHashFromHash h = Some a -> exists script, pay (Some a) = Ok script /\
     parse_ok script = Ok [opPop tag; opPop OP_HASH160; MkPop (opcode_at OP_DATA_20) (Some h); opPop OP_EQUAL] /\
     ExtractPkScriptAddrs 0 script = Ok (class, [a], 1) /\ GetStakeOutSubclass script = Ok ScriptHashTy) /\
  (forall s d, altAddress s d = Some a -> s = bliss \/ s = lm -> exists script, pay (Some a) = Ok script /\
     parse_ok script = Ok [opPop OP_SSGEN; opPop OP_DUP; opPop OP_HASH160;
                           MkPop (opcode_at (dataOp (ScriptAddress a))) (Some (ScriptAddress a));
                           opPop OP_EQUALVERIFY; opPop (80 + s); opPop OP_CHECKSIG] /\
     ExtractPkScriptAddrs 0 script = Ok (NonStandardTy, [], 0) /\
     GetStakeOutSubclass script = Err NotStakeOutput).
Proof.
  intros [Hin ->]%stake_payer. split_and!.
  - intros h Ha. by apply stake_pkh.
  - intros h Ha. by apply stake_sh.
  - intros s d Ha Hs. by eapply stake_alt.
Qed.

(** *** Multiple signatures *)

Definition multisig_acts (keys : list Address) (n : Z) : list action :=
  Num n :: (Push ∘ ScriptAddress <$> keys) ++ [Num (Z.of_nat (length keys)); Op OP_CHECKMULTISIG].

Definition keyPop (a : Address) : pop := MkPop (opcode_at OP_DATA_33) (Some (ScriptAddress a)).

Definition secp_key (a : Address) : Prop := exists pk, NewAddressSecpPubKeyCompressed pk = Some a.

Lemma AddData_fold keys b :
  Ok (foldl (fun b key => AddData (ScriptAddress key) b) b keys) =
  foldM (fun b a => perform a b) b (Push ∘ ScriptAddress <$> keys).
Proof. revert b. induction keys as [|a keys IH]; intros b; [done|]. cbn [foldl fmap list_fmap foldM perform]. apply IH. Qed.

Lemma MultiSigScript_build keys n : n <= Z.of_nat (length keys) -> MultiSigScript keys n = build (multisig_acts keys n).
Proof.
  intros Hn. unfold MultiSigScript, build, multisig_acts. destruct (Z.ltb_spec (Z.of_nat (length keys)) n); [lia|].
  cbn [foldM perform]. rewrite bind_assoc. destruct (AddInt64 n NewScriptBuilder) as [b|e|]; cbn [mbind res_bind]; [|done..].
  rewrite foldM_app, <- AddData_fold. cbn [mbind res_bind foldM perform].
  by destruct (AddInt64 _ (foldl _ b keys)).
Qed.

Lemma secp_pop a : secp_key a -> dataPop (ScriptAddress a) = keyPop a /\ is_bytes (ScriptAddress a) /\
  length (ScriptAddress a) = 33%nat /\ secpAddress (ScriptAddress a) = Some a.
Proof.
  intros [pk Ha]. destruct (secp_law _ _ Ha) as (_ & Hp & Hb & Hl). split_and!; [|done|done|].
  - unfold dataPop, keyPop. destruct (ScriptAddress a) as [|x [|y d]]; [done..|]. unfold dataOp. by rewrite Hl.
  - unfold secpAddress. by rewrite Hp.
Qed.

Lemma small_pop n : 1 <= n <= 16 ->
  action_pop (Num n) = opPop (80 + n) /\ pop_enc (opPop (80 + n)) = [80 + n] /\
  isSmallInt (opcode_at (80 + n)) = true /\ asSmallInt (opcode_at (80 + n)) = n /\ pop_value (opPop (80 + n)) = 80 + n /\
  length (action_data (Num n)) = 1%nat.
Proof.
  intros Hn. pose proof (small_single n ltac:(lia)) as Hs. destruct (Z.eqb_spec n 0); [lia|].
  rewrite opPop_enc by done. enumerate n 1 16; split_and!; reflexivity.
Qed.

Lemma length_keyPops keys : Forall secp_key keys ->
  length (concat (pop_enc <$> (keyPop <$> keys))) = (34 * length keys)%nat.
Proof.
  induction 1 as [|a keys Ha _ IH]; [done|]. cbn [fmap list_fmap concat length]. rewrite length_app, IH.
  destruct (secp_pop a Ha) as (_ & _ & H33 & _). unfold pop_enc, pop_tail, keyPop. cbn [pop_op pop_data data_of length].
  change (op_length (opcode_at OP_DATA_33) <? 0) with false. cbn iota. lia.
Qed.

Definition multisig_pops (keys : list Address) (n : Z) : list pop :=
  opPop (80 + n) :: (keyPop <$> keys) ++ [opPop (80 + Z.of_nat (length keys)); opPop OP_CHECKMULTISIG].

Lemma multisig_parses keys n : Forall secp_key keys -> 1 <= n <= Z.of_nat (length keys) -> (length keys <= 16)%nat ->
  exists script, MultiSigScript keys n = Ok script /\ parse_ok script = Ok (multisig_pops keys n).
Proof.
  intros Hk Hn H16. set (acts := multisig_acts keys n).
  assert (Hpops : action_pop <$> acts = multisig_pops keys n).
  { unfold acts, multisig_acts, multisig_pops. cbn [fmap list_fmap]. rewrite (proj1 (small_pop n ltac:(lia))). f_equal.
    rewrite fmap_app. cbn [fmap list_fmap]. rewrite (proj1 (small_pop (Z.of_nat (length keys)) ltac:(lia))).
    f_equal. rewrite <- list_fmap_compose. apply list_fmap_ext. intros i a Ha.
    apply (secp_pop a). by eapply Forall_lookup_1. }
  assert (Hok : Forall action_ok acts).
  { unfold acts, multisig_acts. apply Forall_cons_2; [cbn; lia|]. apply Forall_app. split.
    - apply Forall_fmap. eapply Forall_impl; [exact Hk|]. intros a Ha. apply (secp_pop a Ha).
    - apply Forall_cons_2; [cbn; lia|]. apply Forall_cons_2; [|apply Forall_nil_2].
      split; [unfold is_u8, OP_CHECKMULTISIG; lia|reflexivity]. }
  assert (Hlen : length (encoded acts) = (3 + 34 * length keys)%nat).
  { unfold encoded. rewrite list_fmap_compose, Hpops. unfold multisig_pops. cbn [fmap list_fmap concat].
    rewrite fmap_app, concat_app. cbn [fmap list_fmap concat]. rewrite !length_app.
    rewrite (proj1 (proj2 (small_pop n ltac:(lia)))), (proj1 (proj2 (small_pop (Z.of_nat (length keys)) ltac:(lia)))).
    change (pop_enc (opPop OP_CHECKMULTISIG)) with [OP_CHECKMULTISIG]. cbn [length app]. rewrite length_keyPops by done. lia. }
  assert (Hfit : fits acts).
  { split; [|rewrite Hlen; unfold maxScriptSize; lia]. unfold acts, multisig_acts.
    assert (Hnum : forall m, 1 <= m <= 16 -> Z.of_nat (length (action_data (Num m))) <= MaxScriptElementSize).
    { intros m Hm. destruct (small_pop m Hm) as (_ & _ & _ & _ & _ & ->). by vm_compute. }
    apply Forall_cons_2; [apply Hnum; lia|]. apply Forall_app. split.
    - apply Forall_fmap. eapply Forall_impl; [exact Hk|]. intros a Ha. cbn. unfold MaxScriptElementSize.
      destruct (secp_pop a Ha) as (_ & _ & -> & _). lia.
    - apply Forall_cons_2; [apply Hnum; lia|]. apply Forall_cons_2; [by vm_compute|apply Forall_nil_2]. }
  exists (encoded acts). rewrite MultiSigScript_build, <- Hpops by lia.
  apply (build_parse acts); [done|done|]. intros H26. rewrite Hlen in H26. lia.
Qed.

Lemma multisig_class keys n : Forall secp_key keys -> 1 <= n <= Z.of_nat (length keys) -> (length keys <= 16)%nat ->
  class_of (multisig_pops keys n) = MultiSigTy.
Proof.
  intros Hk Hn H16. destruct (small_pop n ltac:(lia)) as (_ & _ & Hs & _ & Hv & _).
  destruct (small_pop (Z.of_nat (length keys)) ltac:(lia)) as (_ & _ & Hs2 & Hi2 & Hv2 & _).
  set (l := multisig_pops keys n). assert (Hl : length l = (3 + length keys)%nat)
    by (unfold l, multisig_pops; cbn [length]; rewrite length_app, length_fmap; cbn [length]; lia).
  assert (Hat0 : l !! 0%nat = Some (opPop (80 + n))) by done.
  assert (Hat : forall k, l !! (length keys + S k)%nat =
    [opPop (80 + Z.of_nat (length keys)); opPop OP_CHECKMULTISIG] !! k).
  { intros k. rewrite Nat.add_succ_r. transitivity (((keyPop <$> keys) ++
      [opPop (80 + Z.of_nat (length keys)); opPop OP_CHECKMULTISIG]) !! (length keys + k)%nat); [done|].
    rewrite lookup_app_r by (rewrite length_fmap; lia). rewrite length_fmap. f_equal. lia. }
  assert (Hd : opcodes_are l [OP_DUP; OP_HASH160; OP_DATA_20; OP_EQUALVERIFY; OP_CHECKSIG] = false /\
    isPubkeyHashAlt l = false).
  { unfold opcodes_are, isPubkeyHashAlt, val_at. rewrite Hat0. unfold l, multisig_pops. cbn [zip zip_with forallb].
    rewrite Hv. destruct (Z.eqb_spec (80 + n) OP_DUP) as [E|]; [unfold OP_DUP in E; lia|].
    cbn [andb]. by rewrite !andb_false_r. }
  unfold class_of, typeOfScript, isPubkey, isPubkeyAlt, isPubkeyHash, isScriptHash.
  rewrite (proj1 Hd), (proj2 Hd). unfold opcodes_are. rewrite Hl. cbn [length].
  destruct (Nat.eqb_spec (3 + length keys) 2); [lia|]. destruct (Nat.eqb_spec (3 + length keys) 3); [lia|]. cbn [andb].
  enough (isMultiSig (fun d => d) l = true) as -> by done. unfold isMultiSig. rewrite Hl.
  destruct (Nat.ltb_spec (3 + length keys) 4); [lia|]. unfold small_at, int_at, val_at. rewrite Hat0.
  replace (3 + length keys - 2)%nat with (length keys + 1)%nat by lia. rewrite (Hat 0%nat).
  replace (3 + length keys - 1)%nat with (length keys + 2)%nat by lia. rewrite (Hat 1%nat).
  cbn [lookup list_lookup pop_op opPop]. rewrite Hs, Hs2, Hi2. cbn [negb].
  change (pop_value (opPop OP_CHECKMULTISIG) =? OP_CHECKMULTISIG) with true. cbn [negb].
  replace (length keys + 1 - 1)%nat with (length keys) by lia. rewrite Z.eqb_refl. cbn [negb].
  replace (3 + length keys - 3)%nat with (length keys) by lia. unfold l, multisig_pops. cbn [drop].
  rewrite drop_0, take_app_length' by (by rewrite length_fmap). apply forallb_forall. intros p Hp%list_elem_of_In.
  apply list_elem_of_fmap in Hp as (a & -> & Ha). rewrite Forall_forall in Hk.
  destruct (secp_pop a (Hk a Ha)) as (_ & _ & H33 & _). unfold keyPop. cbn [data_of pop_data]. by rewrite H33.
Qed.

Lemma keyAddresses_all keys pops post i : Forall secp_key keys -> drop (S i) pops = (keyPop <$> keys) ++ post ->
  keyAddresses pops (length keys) i = Ok keys.
Proof.
  intros Hk. revert i. induction Hk as [|a keys Ha _ IH]; intros i Hd; [done|]. cbn [length keyAddresses].
  assert (Hi : pops !! S i = Some (keyPop a)) by (by rewrite <- (Nat.add_0_r (S i)), <- lookup_drop, Hd).
  unfold data_at. rewrite Hi. cbn [or_panic mbind res_bind]. rewrite IH.
  - cbn [mbind res_bind]. unfold keyPop. cbn [data_of pop_data]. by destruct (secp_pop a Ha) as (_ & _ & _ & ->).
  - replace (S (S i)) with (S i + 1)%nat by lia. by rewrite <- drop_drop, Hd.
Qed.

Lemma multisig_survives keys n : Forall secp_key keys -> 1 <= n <= Z.of_nat (length keys) -> (length keys <= 16)%nat ->
  exists script, MultiSigScript keys n = Ok script /\ ExtractPkScriptAddrs 0 script = Ok (MultiSigTy, keys, n).
Proof.
  intros Hk Hn H16. destruct (multisig_parses keys n Hk Hn H16) as (script & Hm & Hp). exists script. split; [done|].
  destruct (small_pop n ltac:(lia)) as (_ & _ & _ & Hi & _ & _).
  destruct (small_pop (Z.of_nat (length keys)) ltac:(lia)) as (_ & _ & _ & Hi2 & _ & _).
  unfold ExtractPkScriptAddrs. cbn [extractAddrs]. rewrite Hp. cbn [map_err mbind res_bind].
  rewrite multisig_class by done. change (negb (0 =? DefaultScriptVersion)) with false. cbn iota.
  assert (Hl2 : multisig_pops keys n !! (length (multisig_pops keys n) - 2)%nat =
    Some (opPop (80 + Z.of_nat (length keys)))).
  { unfold multisig_pops. cbn [length]. rewrite length_app, length_fmap. cbn [length].
    replace (S (length keys + 2) - 2)%nat with (S (length keys)) by lia. rewrite <- lookup_tail. cbn [tail].
    rewrite lookup_app_r by (by rewrite length_fmap). by rewrite length_fmap, Nat.sub_diag. }
  rewrite Hl2. change (multisig_pops keys n !! 0%nat) with (Some (opPop (80 + n))).
  cbn [or_panic mbind res_bind opPop pop_op]. rewrite Hi, Hi2, Nat2Z.id.
  by erewrite (keyAddresses_all keys (multisig_pops keys n) _ 0 Hk).
Qed.

(** Addresses survive being paid to.  For every address of a public key hash, a script
    hash, a secp256k1 key or a key of an alternative suite of less than 512 bytes,
    PayToAddrScript builds a script of the class of the address, and ExtractPkScriptAddrs
    reads exactly that address, with one required signature, back from it.  From a
    multisignature script for at most 16 keys it reads the keys in order and the number of
    required signatures. *)
Theorem addresses_survive (a : Address) (class : ScriptClass) (keys : list Address) (n : Z) :
  (standard_address a class ->
   exists script, PayToAddrScript (Some a) = Ok script /\
     ExtractPkScriptAddrs 0 script = Ok (class, [a], 1)) /\
  (Forall secp_key keys -> 1 <= n <= Z.of_nat (length keys) -> (length keys <= 16)%nat ->
   exists script, MultiSigScript keys n = Ok script /\ ExtractPkScriptAddrs 0 script = Ok (MultiSigTy, keys, n)).
Proof. split; [apply address_survives|apply multisig_survives]. Qed.
End survive.

(** ** A model of addresses

    The address types as the bytes they keep, to show that the laws can hold. *)
Module Sample.

Record address := MkAddress { a_type : AddressType; a_suite : Z; a_bytes : bytes }.

Definition sized_address (t : AddressType) (s : Z) (lo hi : nat) (d : bytes) : option address :=
  if forallb (fun x => (0 <=? x) && (x <? 256)) d && (lo <=? length d)%nat && (length d <=? hi)%nat
  then Some (MkAddress t s d) else None.

#[export] Instance sample_addresses : Addresses := {|
  Address := address;
  addressType a := Some (a_type a);
  DSA := a_suite;
  ScriptAddress := a_bytes;
  PublicKey := bytes;
  ParsePubKey d := Some d;
  NewAddressPubKeyHash h s := sized_address AddressPubKeyHash s 20 20 h;
  NewAddressScriptHashFromHash h := sized_address AddressScriptHash 0 20 20 h;
  NewAddressSecpPubKeyCompressed pk := sized_address AddressSecpPubKey 0 33 33 pk;
  NewAddressEdwardsPubKey := sized_address AddressEdwardsPubKey edwards 32 32;
  NewAddressSecSchnorrPubKey := sized_address AddressSecSchnorrPubKey secSchnorr 33 33;
  NewAddressBlissPubKey := sized_address AddressBlissPubKey bliss 897 897;
  NewAddressLmsPubKey := sized_address AddressLmsPubKey lm 32 32
|}.

Lemma sized_address_Some t s lo hi d a : sized_address t s lo hi d = Some a ->
  a = MkAddress t s d /\ is_bytes d /\ (lo <= length d <= hi)%nat.
Proof.
  unfold sized_address. intros H. destruct (forallb _ d) eqn:Hf; cbn [andb] in H; [|done].
  destruct (Nat.leb_spec lo (length d)); [|done]. destruct (Nat.leb_spec (length d) hi); [|done].
  cbn [andb] in H. simplify_eq. split_and!; [done| |lia..]. rewrite forallb_forall in Hf. apply Forall_forall.
  intros x Hx%list_elem_of_In%Hf. unfold is_u8. lia.
Qed.

#[export] Instance sample_laws : AddressLaws.
Proof.
  split.
  - intros h s a (-> & Hb & Hl)%sized_address_Some. cbn. split_and!; [done..|lia].
  - intros h a (-> & Hb & Hl)%sized_address_Some. cbn. split_and!; [done..|lia].
  - intros pk a (-> & Hb & Hl)%sized_address_Some. cbn. split_and!; [done..|lia].
  - intros s d a. unfold altAddress, altType, MaxScriptElementSize.
    repeat (match goal with |- context [s =? ?c] => destruct (Z.eqb_spec s c) as [->|] end; [intros E; pose proof E as (-> & Hb & Hl)%sized_address_Some;
      cbn [ScriptAddress DSA addressType a_bytes a_suite a_type sample_addresses]; split_and!; [done..|lia|lia]|]).
    done.
Qed.

Definition bob : bytes := Z.of_nat <$> seq 1 20.
Definition bob_address : @Address sample_addresses := MkAddress AddressPubKeyHash ECTypeSecp256k1 bob.
Definition bob_lms : @Address sample_addresses := MkAddress AddressPubKeyHash lm bob.

Lemma addresses_survive_witness :
  exists script, PayToAddrScript (Some bob_lms) = Ok script /\
    ExtractPkScriptAddrs 0 script = Ok (PubkeyHashAltTy, [bob_lms], 1).
Proof.
  apply (addresses_survive bob_lms PubkeyHashAltTy [] 0).
  apply (standard_pkh_alt bob lm); [set_solver|reflexivity].
Defined.

Definition bob_key : @Address sample_addresses := MkAddress AddressLmsPubKey lm (Z.of_nat <$> seq 1 32).

Lemma stake_outputs_survive_witness :
  (exists script, PayToSStx (Some bob_address) = Ok script /\
     parse_ok script = Ok [opPop OP_SSTX; opPop OP_DUP; opPop OP_HASH160; MkPop (opcode_at OP_DATA_20) (Some bob);
                           opPop OP_EQUALVERIFY; opPop OP_CHECKSIG] /\
     ExtractPkScriptAddrs 0 script = Ok (StakeSubmissionTy, [bob_address], 1) /\
     GetStakeOutSubclass script = Ok PubKeyHashTy) /\
  (exists script, PayToSSRtx (Some bob_key) = Ok script /\ ExtractPkScriptAddrs 0 script = Ok (NonStandardTy, [], 0)).
Proof.
  split.
  - apply (proj1 (stake_outputs_survive StakeSubmissionTy OP_SSTX PayToSStx bob_address ltac:(unfold stake_payers; set_solver)) bob).
    reflexivity.
  - destruct (proj2 (proj2 (stake_outputs_survive StakeRevocationTy OP_SSRTX PayToSSRtx bob_key ltac:(unfold stake_payers; set_solver)))
      lm (Z.of_nat <$> seq 1 32)) as (script & H1 & _ & H2 & _); [reflexivity|right; reflexivity|].
    exists script. split; [exact H1|exact H2].
Defined.

End Sample.
