(* ===== verification/StakeOut.v ===== *)
(** * Building and reading stake transactions

    The functions of [stake/staketx.go] that read addresses out of stake transactions, and
    the agreement between those who make tickets and votes with the functions of
    [txscript/standard.go] and those who check them: what is committed to is what is read. *)

From S2P Require Import Prelude Opcodes WireCommon MsgTx ScriptNum Script ScriptBuild StakeTx.
From stdpp Require Import list.
#[local] Open Scope Z_scope.

Inductive outInfoError := OutExtract (e : extractError) | OutNotTagged | OutSubclass (e : scriptError) | OutBadType.

Section info.
Context `{Addresses}.

Definition AddrFromSStxPkScrCommitment (pkScript : bytes) : res stakeRuleError (option Address) :=
  if (length pkScript <? SStxPKHMinOutSize)%nat then Err ErrSStxBadCommitAmount
  else
    amtEncoded ← sub_slice pkScript 22 30;
    msb ← or_panic (amtEncoded !! 7%nat);
    let isP2SH := negb (Z.land msb (Z.shiftl 1 7) =? 0) in
    hashBytes ← sub_slice pkScript 2 22;
    Ok (if isP2SH then NewAddressScriptHashFromHash hashBytes
        else NewAddressPubKeyHash hashBytes ECTypeSecp256k1).

(** What is read of one output that must be of the class [want]: whether it pays to a
    script hash, the hash and the amount. *)
Definition outputInfo (want : ScriptClass) (out : TxOut) : res outInfoError (bool * bytes * Z) :=
  '(class, addr, _) ← map_err OutExtract (ExtractPkScriptAddrs (out_Version out) (PkScript out));
  if negb (bool_decide (class = want)) then Err OutNotTagged
  else
    subClass ← map_err OutSubclass (GetStakeOutSubclass (PkScript out));
    if negb (bool_decide (subClass = PubKeyHashTy) || bool_decide (subClass = ScriptHashTy)) then Err OutBadType
    else
      a ← or_panic (addr !! 0%nat);
      Ok (bool_decide (subClass = ScriptHashTy), ScriptAddress a, Value out).

Definition outputsInfo (want : ScriptClass) (outs : list TxOut) :
    res outInfoError (list bool * list bytes * list Z) :=
  infos ← mapR (outputInfo want) outs;
  Ok (infos.*1.*1, infos.*1.*2, infos.*2).

(** The slices are made for two outputs less than there are. *)
Definition TxSSGenStakeOutputInfo (tx : MsgTx) : res outInfoError (list bool * list bytes * list Z) :=
  if (length (tx_TxOut tx) <? 2)%nat then Panic else outputsInfo StakeGenTy (drop 2 (tx_TxOut tx)).

Definition TxSSRtxStakeOutputInfo (tx : MsgTx) : res outInfoError (list bool * list bytes * list Z) :=
  outputsInfo StakeRevocationTy (tx_TxOut tx).

End info.

(** ** What is built is what is read *)

(** The two kinds of address that stake transactions use. *)
Inductive stake_address `{Addresses} : Address -> bool -> bytes -> Prop :=
| stake_address_pkh h a : NewAddressPubKeyHash h ECTypeSecp256k1 = Some a -> stake_address a false h
| stake_address_sh h a : NewAddressScriptHashFromHash h = Some a -> stake_address a true h.

Section agree.
Context `{AddressLaws}.

Lemma stake_address_spec a p2sh h : stake_address a p2sh h ->
  is_bytes h /\ length h = 20%nat /\ ScriptAddress a = h /\
  stakeScriptType a = Ok (if p2sh then ScriptHashTy else PubKeyHashTy, bliss).
Proof.
  intros [h' a' Ha|h' a' Ha].
  - destruct (pkh_law _ _ _ Ha) as (Ht & Hd & Hh & Hb & Hl). split_and!; [done..|].
    unfold stakeScriptType. by rewrite Ht, Hd.
  - destruct (sh_law _ _ Ha) as (Ht & Hh & Hb & Hl). split_and!; [done..|].
    unfold stakeScriptType. by rewrite Ht.
Qed.

Lemma stake_script class tag a p2sh h : (class, tag) ∈ stake_tags -> stake_address a p2sh h ->
  exists script, payToStake tag (Some a) = Ok script /\ ExtractPkScriptAddrs 0 script = Ok (class, [a], 1) /\
    GetStakeOutSubclass script = Ok (if p2sh then ScriptHashTy else PubKeyHashTy) /\
    GetScriptClass 0 script = class.
Proof.
  intros Hin Ha.
  assert (Hc : forall script, ExtractPkScriptAddrs 0 script = Ok (class, [a], 1) -> GetScriptClass 0 script = class).
  { intros script. unfold ExtractPkScriptAddrs, GetScriptClass, parse_ok. cbn [extractAddrs].
    unfold parse_ok. destruct (parseScript script) as [pops [e|]]; [done|]. cbn [map_err mbind res_bind].
    change (negb (0 =? DefaultScriptVersion)) with false. cbn iota. intros E.
    destruct (class_of pops) eqn:Ec; rewrite ?Ec in E |- *;
      repeat (destruct (data_at _ _) in E; cbn [mbind res_bind] in E; try done);
      repeat (destruct (altSuite _) in E; cbn [mbind res_bind] in E; try done);
      repeat (destruct (or_panic _) in E; cbn [mbind res_bind] in E; try done);
      repeat (destruct (keyAddresses _ _ _) in E; cbn [mbind res_bind] in E; try done);
      repeat (destruct (extractAddrs _ _ _) as [[[? ?] ?]|?|] in E; try done); by simplify_eq. }
  destruct Ha as [h' a' Ha|h' a' Ha].
  - destruct (stake_pkh class tag h' a' Hin Ha) as (script & ? & _ & ? & ?). exists script. eauto.
  - destruct (stake_sh class tag h' a' Hin Ha) as (script & ? & _ & ? & ?). exists script. eauto.
Qed.

(** *** Commitments *)

Lemma null_push_class n rest : n ∈ [30; 40; 2]%nat -> length rest = n ->
  GetScriptClass 0 (0x6a :: Z.of_nat n :: rest) = NullDataTy.
Proof.
  intros Hn Hl. rewrite !elem_of_cons in Hn. destruct Hn as [->|[->|[->|Hn]]]; [..|by apply elem_of_nil in Hn];
    explode rest Hl; vm_compute; reflexivity.
Qed.

Lemma low_byte x : 0 <= x < 128 ->
  Z.land x 0x80 = 0 /\ Z.land x 0x7f = x /\ Z.land (Z.lor x 0x80) 0x80 = 0x80 /\ Z.land (Z.lor x 0x80) 0x7f = x /\
  0 <= Z.lor x 0x80 < 256.
Proof.
  intros Hx.
  assert (Ha : forallb (fun x => (Z.land x 0x80 =? 0) && (Z.land x 0x7f =? x) &&
    (Z.land (Z.lor x 0x80) 0x80 =? 0x80) && (Z.land (Z.lor x 0x80) 0x7f =? x) && (Z.lor x 0x80 <? 256))
    (Z.of_nat <$> seq 0 128) = true) by (vm_compute; reflexivity).
  rewrite forallb_forall in Ha. specialize (Ha x). lapply Ha.
  - intros E. assert (0 <= Z.lor x 0x80) by (apply Z.lor_nonneg; lia). lia.
  - apply list_elem_of_In, list_elem_of_fmap. exists (Z.to_nat x). split; [lia|]. apply elem_of_seq. lia.
Qed.

(** The amount in a commitment, with the flag for a script hash in its highest bit. *)
Lemma amount_flag (p2sh : bool) amount : 0 <= amount < 2 ^ 63 ->
  let b := put_le 8 (u64 amount) in
  let b' := if p2sh then <[7%nat := Z.lor (byte_at b 7) (Z.shiftl 1 7)]> b else b in
  length b' = 8%nat /\ is_bytes b' /\ decodeAmount b' = Ok (p2sh, amount) /\
  exists msb, b' !! 7%nat = Some msb /\ negb (Z.land msb (Z.shiftl 1 7) =? 0) = p2sh.
Proof.
  intros Ha b. assert (Hg : get_le b = amount).
  { unfold b. rewrite u64_small by (unfold is_u64; lia). rewrite get_put_le. apply Z.mod_small. change (256 ^ Z.of_nat 8) with (2 ^ 64). lia. }
  assert (Hb : is_bytes b) by apply put_le_bytes. assert (Hl : length b = 8%nat) by apply length_put_le.
  clearbody b. explode b Hl. do 7 (apply Forall_cons_1 in Hb as [? Hb]).
  apply Forall_cons_1 in Hb as [Hmsb _]. unfold is_u8 in *. change (Z.shiftl 1 7) with 0x80. cbn [byte_at nth].
  match type of Hmsb with 0 <= ?x < _ => rename x into x7 end.
  assert (Hx : 0 <= x7 < 128) by (unfold get_le in Hg; lia). destruct (low_byte x7 Hx) as (L1 & L2 & L3 & L4 & L5).
  assert (Hi : i64 amount = amount) by (apply i64_small; unfold is_i64; lia).
  destruct p2sh; cbn zeta; cbn [insert list_insert length lookup list_lookup].
  - split_and!; [done|repeat (apply Forall_cons_2; [unfold is_u8; lia|]); apply Forall_nil_2| |].
    + unfold decodeAmount. cbn [lookup list_lookup or_panic mbind res_bind insert list_insert].
      by rewrite L3, L4, Hg, Hi.
    + eexists. split; [done|]. by rewrite L3.
  - split_and!; [done|repeat (apply Forall_cons_2; [unfold is_u8; lia|]); apply Forall_nil_2| |].
    + unfold decodeAmount. cbn [lookup list_lookup or_panic mbind res_bind insert list_insert].
      by rewrite L1, L2, Hg, Hi.
    + eexists. split; [done|]. by rewrite L1.
Qed.

Lemma slice_middle {E} (a b c : bytes) n m : length a = n -> length b = m ->
  sub_slice (E := E) (a ++ b ++ c) n (n + m) = Ok b.
Proof.
  intros <- <-. rewrite sub_slice_Ok by (rewrite !length_app; lia).
  rewrite drop_app_length, Nat.add_comm, Nat.add_sub, take_app_length. done.
Qed.

Definition feeRules (limits : Z) : (bool * bool) * (Z * Z) :=
  ((Z.land limits SStxVoteFractionFlag =? SStxVoteFractionFlag,
    Z.land limits SStxRevFractionFlag =? SStxRevFractionFlag),
   (Z.land limits SStxVoteReturnFractionMask, Z.shiftr (Z.land limits SStxRevReturnFractionMask) 8)).

(** A commitment is read as it was made. *)
Lemma commitment_read a p2sh h amount limits : stake_address a p2sh h -> 0 <= amount < 2 ^ 63 -> is_u16 limits ->
  exists script, GenerateSStxAddrPush (Some a) amount limits = Ok script /\ GetScriptClass 0 script = NullDataTy /\
    (forall i, (i mod 2)%nat = 1%nat -> sstxOutput i (MkTxOut 0 0 script) = Ok tt) /\
    AddrFromSStxPkScrCommitment script = Ok (Some a) /\ AmountFromSStxPkScrCommitment script = Ok amount /\
    (forall pP pH pA pR pL P H' A C R L x1 x2 x3 x4 x5 idx,
       (idx / 2)%nat = length pP -> length pP = length pH -> length pP = length pA -> length pP = length pR ->
       length pP = length pL ->
       commitmentInfo (MkInfo (pP ++ x1 :: P) (pH ++ x2 :: H') (pA ++ x3 :: A) C (pR ++ x4 :: R) (pL ++ x5 :: L)) idx
         (MkMinimalOutput script 0 0) =
       Ok (MkInfo (pP ++ p2sh :: P) (pH ++ h :: H') (pA ++ amount :: A) C
             (pR ++ (feeRules limits).1 :: R) (pL ++ (feeRules limits).2 :: L))).
Proof.
  intros Ha Hamt Hlim. destruct (stake_address_spec a p2sh h Ha) as (Hb & Hl & Hs & Ht).
  destruct (amount_flag p2sh amount Hamt) as (Hl8 & Hb8 & Hd & msb & Hm7 & Hmsb).
  match type of Hl8 with length ?t = _ => set (amt := t) in * end.
  assert (Hll : length (put_le 2 limits) = 2%nat) by apply length_put_le.
  exists ([0x6a; 0x1e] ++ h ++ amt ++ put_le 2 limits).
  assert (E1 : forall E, sub_slice (E := E) ([0x6a; 0x1e] ++ h ++ amt ++ put_le 2 limits) 2 22 = Ok h)
    by (intros E; by apply (slice_middle _ _ _ 2 20)).
  assert (E2 : forall E, sub_slice (E := E) ([0x6a; 0x1e] ++ h ++ amt ++ put_le 2 limits) 22 30 = Ok amt).
  { intros E. rewrite (app_assoc [0x6a; 0x1e]). apply (slice_middle _ _ _ 22 8); [rewrite length_app; cbn; lia|done]. }
  assert (E3 : forall E, sub_slice (E := E) ([0x6a; 0x1e] ++ h ++ amt ++ put_le 2 limits) 30 32 = Ok (put_le 2 limits)).
  { intros E. rewrite (app_assoc h), (app_assoc [0x6a; 0x1e]), <- (app_nil_r (put_le 2 limits)).
    apply (slice_middle _ _ _ 30 2); [rewrite !length_app; cbn; lia|done]. }
  assert (Hlen : length ([0x6a; 0x1e] ++ h ++ amt ++ put_le 2 limits) = 32%nat) by (rewrite !length_app; cbn; lia).
  assert (Hc : GetScriptClass 0 ([0x6a; 0x1e] ++ h ++ amt ++ put_le 2 limits) = NullDataTy).
  { apply (null_push_class 30); [set_solver|]. rewrite !length_app. lia. }
  split_and!.
  - unfold GenerateSStxAddrPush. rewrite Ht. cbn [mbind res_bind]. rewrite Hs. unfold amt. by destruct p2sh.
  - exact Hc.
  - intros i Hi. unfold sstxOutput, hasClass. rewrite Hi. cbn [Nat.eqb out_Version PkScript].
    rewrite Hc, Hlen. unfold pushPrefixOk. by cbn.
  - unfold AddrFromSStxPkScrCommitment. rewrite Hlen. cbn [Nat.ltb Nat.leb SStxPKHMinOutSize].
    rewrite E2. cbn [mbind res_bind]. rewrite Hm7. cbn [or_panic mbind res_bind]. rewrite E1. cbn [mbind res_bind].
    rewrite Hmsb. destruct Ha as [h' a' E|h' a' E]; by rewrite E.
  - unfold AmountFromSStxPkScrCommitment. rewrite Hlen. cbn [Nat.ltb Nat.leb SStxPKHMinOutSize].
    rewrite E2. cbn [mbind res_bind]. by rewrite Hd.
  - intros pP pH pA pR pL P H' A C R L x1 x2 x3 x4 x5 idx Hi L1 L2 L3 L4. unfold commitmentInfo.
    cbn [mo_PkScript isP2SH addresses amounts changeAmounts allSpendRules allSpendLimits].
    rewrite E2. cbn [mbind res_bind]. rewrite Hd. cbn [mbind res_bind]. rewrite Hi, assign_middle.
    cbn [mbind res_bind]. rewrite E1. cbn [mbind res_bind]. rewrite L1, assign_middle. cbn [mbind res_bind].
    rewrite <- L1, L2, assign_middle. cbn [mbind res_bind]. rewrite E3. cbn [mbind res_bind].
    rewrite get_put_le, Z.mod_small by (cbn; unfold is_u16 in Hlim; lia).
    rewrite <- L2, L3, assign_middle. cbn [mbind res_bind]. rewrite <- L3, L4, assign_middle. done.
Qed.

(** *** Tickets

    A ticket is made of the price and the address that may vote, and for each contributor
    the address, amount and fee limits of the commitment and the address and amount of the
    change. *)
Record commitment := MkCommitment {
  c_addr : Address; c_p2sh : bool; c_hash : bytes; c_amount : Z; c_limits : Z;
  c_changeAddr : Address; c_change : Z
}.

Definition commitment_ok (c : commitment) : Prop :=
  stake_address (c_addr c) (c_p2sh c) (c_hash c) /\ 0 <= c_amount c < 2 ^ 63 /\ is_u16 (c_limits c) /\
  exists p2sh h, stake_address (c_changeAddr c) p2sh h.

Definition commitmentOuts (c : commitment) : res buildError (list TxOut) :=
  push ← GenerateSStxAddrPush (Some (c_addr c)) (c_amount c) (c_limits c);
  change ← PayToSStxChange (Some (c_changeAddr c));
  Ok [MkTxOut 0 0 push; MkTxOut (c_change c) 0 change].

Definition ticketOuts (addr : Address) (price : Z) (cs : list commitment) : res buildError (list TxOut) :=
  script ← PayToSStx (Some addr);
  outs ← mapR commitmentOuts cs;
  Ok (MkTxOut price 0 script :: concat outs).

(** What is to be read out of the ticket. *)
Definition ticketInfo (cs : list commitment) : StakeOutputInfo :=
  MkInfo (c_p2sh <$> cs) (c_hash <$> cs) (c_amount <$> cs) (c_change <$> cs)
    ((fun c => (feeRules (c_limits c)).1) <$> cs) ((fun c => (feeRules (c_limits c)).2) <$> cs).

Definition minimal (out : TxOut) : MinimalOutput := MkMinimalOutput (PkScript out) (Value out) (out_Version out).

Lemma commitmentOuts_spec c : commitment_ok c -> exists push change,
  commitmentOuts c = Ok [MkTxOut 0 0 push; MkTxOut (c_change c) 0 change] /\
  GetScriptClass 0 push = NullDataTy /\ GetScriptClass 0 change = StakeSubChangeTy /\
  (forall i, (i mod 2)%nat = 1%nat -> sstxOutput i (MkTxOut 0 0 push) = Ok tt) /\
  (forall i, (i mod 2)%nat = 0%nat -> sstxOutput i (MkTxOut (c_change c) 0 change) = Ok tt) /\
  forall (pre : StakeOutputInfo) (n k : nat),
    length (isP2SH pre) = k -> length (addresses pre) = k -> length (amounts pre) = k ->
    length (changeAmounts pre) = k -> length (allSpendRules pre) = k -> length (allSpendLimits pre) = k ->
    let pad k := MkInfo (isP2SH pre ++ replicate k false) (addresses pre ++ replicate k [])
      (amounts pre ++ replicate k 0) (changeAmounts pre ++ replicate k 0)
      (allSpendRules pre ++ replicate k (false, false)) (allSpendLimits pre ++ replicate k (0, 0)) in
    foldM stakeOutputStep (pad (S n)) [((2 * k + 1)%nat, MkMinimalOutput push 0 0);
      (S (2 * k + 1), MkMinimalOutput change (c_change c) 0)] =
    Ok (MkInfo ((isP2SH pre ++ [c_p2sh c]) ++ replicate n false) ((addresses pre ++ [c_hash c]) ++ replicate n [])
      ((amounts pre ++ [c_amount c]) ++ replicate n 0) ((changeAmounts pre ++ [c_change c]) ++ replicate n 0)
      ((allSpendRules pre ++ [(feeRules (c_limits c)).1]) ++ replicate n (false, false))
      ((allSpendLimits pre ++ [(feeRules (c_limits c)).2]) ++ replicate n (0, 0))).
Proof.
  intros (Ha & Hamt & Hlim & p2sh & h & Hch).
  destruct (commitment_read _ _ _ _ _ Ha Hamt Hlim) as (push & Hp & Hpc & Hpo & _ & _ & Hread).
  destruct (stake_script StakeSubChangeTy OP_SSTXCHANGE (c_changeAddr c) p2sh h) as (change & Hc & _ & _ & Hcc);
    [set_solver|done|]. exists push, change. split_and!; [|done|done|done| |].
  - unfold commitmentOuts, PayToSStxChange. rewrite Hp. cbn [mbind res_bind]. rewrite Hc. done.
  - intros i Hi. unfold sstxOutput, hasClass. rewrite Hi. cbn [Nat.eqb out_Version PkScript]. by rewrite Hcc.
  - intros pre n k H1 H2 H3 H4 H5 H6 pad. cbn [foldM].
    replace (S (2 * k + 1)) with (2 * k + 2)%nat by lia. unfold stakeOutputStep.
    assert (Hm1 : ((2 * k + 1) mod 2 = 1)%nat) by (rewrite Nat.add_comm, Nat.mul_comm, Nat.Div0.mod_add; done).
    assert (Hm2 : ((2 * k + 2) mod 2 = 0)%nat)
      by (replace (2 * k + 2)%nat with (0 + (k + 1) * 2)%nat by lia; by rewrite Nat.Div0.mod_add).
    assert (Hd1 : ((2 * k + 1) / 2 = k)%nat) by (rewrite Nat.add_comm, Nat.mul_comm, Nat.div_add by done; done).
    assert (Hd2 : ((2 * k + 2) / 2 - 1 = k)%nat)
      by (replace (2 * k + 2)%nat with (0 + (k + 1) * 2)%nat by lia; rewrite Nat.div_add by done; cbn; lia).
    rewrite Hm1, Hm2. destruct (Nat.ltb_spec 0 (2 * k + 1)); [|lia]. destruct (Nat.ltb_spec 0 (2 * k + 2)); [|lia].
    cbn [andb negb Nat.eqb]. unfold pad. cbn [replicate]. rewrite Hread by congruence. cbn [mbind res_bind].
    cbn [isP2SH addresses amounts changeAmounts allSpendRules allSpendLimits mo_Value].
    rewrite Hd2, <- H4, assign_middle. cbn [mbind res_bind]. by rewrite <- !app_assoc.
Qed.

Lemma info_loop cs pre k outss : Forall commitment_ok cs -> mapR commitmentOuts cs = Ok outss ->
  length (isP2SH pre) = k -> length (addresses pre) = k -> length (amounts pre) = k ->
  length (changeAmounts pre) = k -> length (allSpendRules pre) = k -> length (allSpendLimits pre) = k ->
  foldM stakeOutputStep
    (MkInfo (isP2SH pre ++ replicate (length cs) false) (addresses pre ++ replicate (length cs) [])
      (amounts pre ++ replicate (length cs) 0) (changeAmounts pre ++ replicate (length cs) 0)
      (allSpendRules pre ++ replicate (length cs) (false, false)) (allSpendLimits pre ++ replicate (length cs) (0, 0)))
    (zip (seq (2 * k + 1) (length (concat outss))) (minimal <$> concat outss)) =
  Ok (MkInfo (isP2SH pre ++ isP2SH (ticketInfo cs)) (addresses pre ++ addresses (ticketInfo cs))
    (amounts pre ++ amounts (ticketInfo cs)) (changeAmounts pre ++ changeAmounts (ticketInfo cs))
    (allSpendRules pre ++ allSpendRules (ticketInfo cs)) (allSpendLimits pre ++ allSpendLimits (ticketInfo cs))).
Proof.
  intros Hok. revert pre k outss. induction Hok as [|c cs Hc _ IH]; intros pre k outss Hm H1 H2 H3 H4 H5 H6.
  { cbn in Hm. simplify_eq. cbn. by rewrite !app_nil_r. }
  cbn [mapR] in Hm. destruct (commitmentOuts_spec c Hc) as (push & change & Ho & _ & _ & _ & _ & Hstep).
  rewrite Ho in Hm. cbn [mbind res_bind] in Hm. apply bind_Ok in Hm as (rest & Hr & Hm). injection Hm as <-.
  specialize (Hstep pre (length cs) k H1 H2 H3 H4 H5 H6). cbn zeta in Hstep.
  change (zip _ _) with ([((2 * k + 1)%nat, MkMinimalOutput push 0 0); (S (2 * k + 1), MkMinimalOutput change (c_change c) 0)] ++
    zip (seq (S (S (2 * k + 1))) (length (concat rest))) (minimal <$> concat rest)).
  rewrite foldM_app. cbn [length]. rewrite Hstep. cbn [mbind res_bind].
  specialize (IH (MkInfo (isP2SH pre ++ [c_p2sh c]) (addresses pre ++ [c_hash c]) (amounts pre ++ [c_amount c])
    (changeAmounts pre ++ [c_change c]) (allSpendRules pre ++ [(feeRules (c_limits c)).1])
    (allSpendLimits pre ++ [(feeRules (c_limits c)).2])) (S k) rest Hr).
  cbn [isP2SH addresses amounts changeAmounts allSpendRules allSpendLimits] in IH. rewrite !length_app in IH.
  cbn [length] in IH. replace (S (S (2 * k + 1))) with (2 * S k + 1)%nat by lia. rewrite IH by lia.
  rewrite <- !app_assoc. done.
Qed.

Lemma commitments_built cs : Forall commitment_ok cs -> exists outss, mapR commitmentOuts cs = Ok outss /\
  length (concat outss) = (2 * length cs)%nat /\ Forall (fun out => out_Version out = 0) (concat outss) /\
  forall k, checkFrom sstxOutput (2 * k + 1) (concat outss) = Ok tt.
Proof.
  induction 1 as [|c cs Hc _ (outss & Hm & Hl & Hv & Hch)]; [by exists []|].
  destruct (commitmentOuts_spec c Hc) as (push & change & Ho & _ & _ & H1 & H2 & _).
  eexists. cbn [mapR]. rewrite Ho, Hm. cbn [mbind res_bind]. split; [done|]. cbn [concat app length].
  split_and!; [lia|by repeat (apply Forall_cons_2; [done|])|]. intros k. cbn [checkFrom].
  rewrite H1 by (rewrite Nat.add_comm, Nat.mul_comm, Nat.Div0.mod_add; done). cbn [mbind res_bind].
  rewrite H2 by (replace (S (2 * k + 1)) with (0 + (k + 1) * 2)%nat by lia; by rewrite Nat.Div0.mod_add).
  cbn [mbind res_bind]. replace (S (S (2 * k + 1))) with (2 * S k + 1)%nat by lia. apply Hch.
Qed.

(** Buyers and validators of tickets agree.  A ticket made with PayToSStx,
    GenerateSStxAddrPush and PayToSStxChange for up to 64 contributors is recognized as a
    ticket, and from its outputs exactly the kinds of hash, the hashes, the amounts, the
    change and the fee rules are read that it was made from. *)
Theorem ticket_agreement (addr : Address) (p2sh : bool) (h : bytes) (price : Z) (cs : list commitment) :
  stake_address addr p2sh h -> Forall commitment_ok cs -> (length cs <= 64)%nat ->
  exists outs, ticketOuts addr price cs = Ok outs /\
    forall tx, tx_TxOut tx = outs -> length (tx_TxIn tx) = length cs ->
      IsSStx tx = Ok true /\ TxSStxStakeOutputInfo tx = Ok (ticketInfo cs).
Proof.
  intros Ha Hcs H64. destruct (stake_script StakeSubmissionTy OP_SSTX addr p2sh h) as (script & Hs & _ & _ & Hc);
    [set_solver|done|]. destruct (commitments_built cs Hcs) as (outss & Hm & Hl & Hv & Hch).
  exists (MkTxOut price 0 script :: concat outss). split.
  { unfold ticketOuts, PayToSStx. rewrite Hs. cbn [mbind res_bind]. by rewrite Hm. }
  intros tx Ho Hi. split.
  - unfold IsSStx. rewrite Ho, Hi. cbn [length]. rewrite Hl.
    destruct (Nat.ltb_spec MaxInputsPerSStx (length cs)) as [E|_]; [unfold MaxInputsPerSStx in E; lia|].
    destruct (Nat.ltb_spec MaxOutputsPerSStx (S (2 * length cs))) as [E|_];
      [unfold MaxOutputsPerSStx, MaxInputsPerSStx in E; lia|].
    assert (forallb defaultVersion (MkTxOut price 0 script :: concat outss) = true) as ->.
    { cbn [forallb]. apply forallb_forall. intros out Hin%list_elem_of_In. rewrite Forall_forall in Hv.
      unfold defaultVersion. by rewrite (Hv out Hin). }
    unfold hasClass. cbn [out_Version PkScript]. rewrite Hc. cbn [negb].
    rewrite bool_decide_eq_true_2 by done. cbn [negb].
    destruct (Nat.eqb_spec (length cs * 2 + 1) (S (2 * length cs))); [|lia]. cbn [negb].
    pose proof (Hch 0%nat) as Hch0. cbn [Nat.mul Nat.add] in Hch0. by rewrite Hch0.
  - unfold TxSStxStakeOutputInfo, SStxStakeOutputInfo, ConvertToMinimalOutputs, indexed. rewrite Ho, length_fmap.
    cbn [length]. rewrite Hl. replace (S (2 * length cs)) with (1 + length cs * 2)%nat by lia.
    rewrite Nat.div_add by done. change (1 / 2)%nat with 0%nat. rewrite Nat.add_0_l.
    pose proof (info_loop cs (MkInfo [] [] [] [] [] []) 0 outss Hcs Hm eq_refl eq_refl eq_refl eq_refl eq_refl eq_refl) as Hloop.
    cbn [isP2SH addresses amounts changeAmounts allSpendRules allSpendLimits app] in Hloop.
    rewrite Hl in Hloop. replace (1 + length cs * 2)%nat with (S (2 * length cs)) by lia.
    cbn [fmap list_fmap seq zip zip_with foldM]. exact Hloop.
Qed.

(** *** Votes and revocations *)

Record payout := MkPayout { p_addr : Address; p_p2sh : bool; p_hash : bytes; p_amount : Z }.

Definition payout_ok (p : payout) : Prop := stake_address (p_addr p) (p_p2sh p) (p_hash p).

Definition payoutOut (tag : Z) (p : payout) : res buildError TxOut :=
  script ← payToStake tag (Some (p_addr p)); Ok (MkTxOut (p_amount p) 0 script).

Definition voteOuts (blockHash : bytes) (height keyHeight votebits : Z) (ps : list payout) :
    res buildError (list TxOut) :=
  outs ← mapR (payoutOut OP_SSGEN) ps;
  Ok (MkTxOut 0 0 (GenerateSSGenBlockRef blockHash height keyHeight) ::
      MkTxOut 0 0 (GenerateSSGenVotes votebits) :: outs).

Lemma payouts_built class tag ps : (class, tag) ∈ stake_tags -> Forall payout_ok ps ->
  exists outs, mapR (payoutOut tag) ps = Ok outs /\ length outs = length ps /\
    forallb defaultVersion outs = true /\ forallb (fun out => hasClass out class) outs = true /\
    mapR (outputInfo class) outs = Ok ((fun p => (p_p2sh p, p_hash p, p_amount p)) <$> ps).
Proof.
  intros Hin. induction 1 as [|p ps Hp _ (outs & Hm & Hl & Hv & Hc & Hi)]; [by exists []|].
  destruct (stake_script class tag _ _ _ Hin Hp) as (script & Hs & He & Hsub & Hcl).
  destruct (stake_address_spec _ _ _ Hp) as (_ & _ & Haddr & _).
  exists (MkTxOut (p_amount p) 0 script :: outs). cbn [mapR].
  assert (payoutOut tag p = Ok (MkTxOut (p_amount p) 0 script)) as -> by (unfold payoutOut; by rewrite Hs).
  cbn [mbind res_bind]. rewrite Hm. split; [done|]. cbn [length forallb fmap list_fmap mapR].
  assert (outputInfo class (MkTxOut (p_amount p) 0 script) = Ok (p_p2sh p, p_hash p, p_amount p)) as ->.
  { unfold outputInfo. cbn [out_Version PkScript Value]. rewrite He. cbn [map_err mbind res_bind].
    rewrite bool_decide_eq_true_2 by done. cbn [negb]. rewrite Hsub. cbn [map_err mbind res_bind].
    destruct (p_p2sh p); cbn; by rewrite Haddr. }
  cbn [mbind res_bind]. rewrite Hi, Hv, Hc. unfold defaultVersion, hasClass. cbn [out_Version PkScript].
  rewrite Hcl, bool_decide_eq_true_2 by done. split_and!; [lia|done..].
Qed.

(** C38: voters and validators agree.  The outputs of a vote made with
    GenerateSSGenBlockRef, GenerateSSGenVotes and PayToSSGen make every transaction with a
    stakebase and the ticket as its inputs a vote, from which the block voted on, the vote
    bits and the payouts are read as they were put in; and those made with PayToSSRtx make
    a revocation with the payouts it was made from. *)
Theorem vote_agreement (blockHash : bytes) (height keyHeight votebits : Z) (ps : list payout) :
  is_bytes blockHash -> length blockHash = 32%nat -> is_u32 height -> is_u32 keyHeight -> is_u16 votebits ->
  Forall payout_ok ps -> (1 <= length ps <= 64)%nat ->
  (exists outs, voteOuts blockHash height keyHeight votebits ps = Ok outs /\
     forall tx i0 i1, tx_TxOut tx = outs -> tx_TxIn tx = [i0; i1] -> IsStakeBase tx = Ok true ->
       o_Index (PreviousOutPoint i1) = 0 -> o_Tree (PreviousOutPoint i1) = TxTreeStake ->
       IsSSGen tx = Ok true /\ SSGenBlockVotedOn tx = Ok (blockHash, height, keyHeight) /\
       SSGenVoteBits tx = Ok votebits /\ SSGenVersion tx = Ok VoteConsensusVersionAbsent /\
       TxSSGenStakeOutputInfo tx = Ok (p_p2sh <$> ps, p_hash <$> ps, p_amount <$> ps)) /\
  (exists outs, mapR (payoutOut OP_SSRTX) ps = Ok outs /\
     forall tx i0, tx_TxOut tx = outs -> tx_TxIn tx = [i0] -> o_Tree (PreviousOutPoint i0) = TxTreeStake ->
       IsSSRtx tx = Ok true /\
       TxSSRtxStakeOutputInfo tx = Ok (p_p2sh <$> ps, p_hash <$> ps, p_amount <$> ps)).
Proof.
  intros Hbb Hbl Hh Hk Hvb Hps Hn. unfold is_u32, is_u16 in *. split.
  - destruct (payouts_built StakeGenTy OP_SSGEN ps) as (outs & Hm & Hl & Hv & Hc & Hi); [set_solver|done|].
    set (ref := GenerateSSGenBlockRef blockHash height keyHeight). set (vote := GenerateSSGenVotes votebits).
    assert (Hrl : length ref = 42%nat) by (unfold ref, GenerateSSGenBlockRef; rewrite !length_app, !length_put_le; cbn; lia).
    assert (Hrc : GetScriptClass 0 ref = NullDataTy).
    { apply (null_push_class 40); [set_solver|]. rewrite !length_app, !length_put_le. lia. }
    assert (Hvc : GetScriptClass 0 vote = NullDataTy) by (apply (null_push_class 2); [set_solver|apply length_put_le]).
    exists (MkTxOut 0 0 ref :: MkTxOut 0 0 vote :: outs). split; [unfold voteOuts; by rewrite Hm|].
    intros tx i0 i1 Ho Hin Hsb Hix Htr.
    assert (Href : voteReference tx).
    { exists i0, i1, (MkTxOut 0 0 ref), (MkTxOut 0 0 vote :: outs). cbn [forallb PkScript length]. rewrite Hv.
      unfold hasClass. cbn [out_Version PkScript]. rewrite Hrc. split_and!; try done. lia. }
    split_and!.
    + rewrite (IsSSGen_reference tx Href). unfold voteTail. rewrite Ho. cbn [lookup list_lookup or_panic mbind res_bind].
      assert (hasClass (MkTxOut 0 0 vote) NullDataTy = true) as -> by (by apply bool_decide_eq_true_2).
      change (drop 2 _) with outs. rewrite Hc. reflexivity.
    + unfold SSGenBlockVotedOn. rewrite Ho. cbn [lookup list_lookup or_panic mbind res_bind PkScript].
      unfold ref, GenerateSSGenBlockRef. rewrite (slice_middle _ _ _ 2 32) by done. cbn [mbind res_bind].
      rewrite (app_assoc [0x6a; 0x28]), (slice_middle _ _ _ 34 4)
        by (rewrite ?length_app, ?length_put_le; cbn; lia). cbn [mbind res_bind].
      rewrite (app_assoc _ (put_le 4 height)), <- (app_nil_r (put_le 4 keyHeight)), (slice_middle _ _ _ 38 4)
        by (rewrite ?length_app, ?length_put_le; cbn; lia). cbn [mbind res_bind].
      by rewrite !get_put_le, !Z.mod_small by (cbn; lia).
    + unfold SSGenVoteBits. rewrite Ho. cbn [lookup list_lookup or_panic mbind res_bind PkScript].
      unfold vote, GenerateSSGenVotes. rewrite <- (app_nil_r (put_le 2 votebits)), (slice_middle _ _ _ 2 2)
        by (rewrite ?length_put_le; done). cbn [mbind res_bind]. by rewrite get_put_le, Z.mod_small by (cbn; lia).
    + unfold SSGenVersion. rewrite Ho. reflexivity.
    + unfold TxSSGenStakeOutputInfo, outputsInfo. rewrite Ho. change (drop 2 _) with outs. cbn [length Nat.ltb Nat.leb].
      rewrite Hi. cbn [mbind res_bind]. by rewrite <- !list_fmap_compose.
  - destruct (payouts_built StakeRevocationTy OP_SSRTX ps) as (outs & Hm & Hl & Hv & Hc & Hi); [set_solver|done|].
    exists outs. split; [done|]. intros tx i0 Ho Hin Htr. split.
    + unfold IsSSRtx. rewrite Ho, Hin, Hv, Hc. cbn [length Nat.eqb NumInputsPerSSRtx negb forallb]. rewrite Hl, Htr.
      destruct (Nat.ltb_spec MaxOutputsPerSSRtx (length ps)) as [E|_];
        [unfold MaxOutputsPerSSRtx, MaxInputsPerSStx in E; lia|]. by destruct (Nat.eqb_spec (length ps) 0); [lia|].
    + unfold TxSSRtxStakeOutputInfo, outputsInfo. rewrite Ho, Hi. cbn [mbind res_bind]. by rewrite <- !list_fmap_compose.
Qed.
End agree.

(** ** Examples *)

Module Sample.
Import ScriptBuild.Sample.

Definition bob_commitment : commitment :=
  MkCommitment bob_address false bob 100 0x5f58 bob_address 20.
Definition bob_payout : payout := MkPayout bob_address false bob 105.

Lemma bob_stake : stake_address bob_address false bob.
Proof. by apply stake_address_pkh. Qed.

Lemma bob_commitment_ok : commitment_ok bob_commitment.
Proof. split_and!; [exact bob_stake|by vm_compute..|exists false, bob; exact bob_stake]. Qed.

Lemma ticket_agreement_witness : exists outs, ticketOuts bob_address 100 [bob_commitment] = Ok outs /\
  forall tx, tx_TxOut tx = outs -> length (tx_TxIn tx) = 1%nat ->
    IsSStx tx = Ok true /\ TxSStxStakeOutputInfo tx = Ok (ticketInfo [bob_commitment]).
Proof.
  apply (ticket_agreement bob_address false bob 100 [bob_commitment]); [exact bob_stake| |cbn; lia].
  apply Forall_cons_2; [exact bob_commitment_ok|apply Forall_nil_2].
Defined.

Lemma vote_agreement_witness : exists outs, voteOuts zeroHash 7 3 1 [bob_payout] = Ok outs.
Proof.
  destruct (vote_agreement zeroHash 7 3 1 [bob_payout]) as [(outs & H & _) _].
  - apply Forall_replicate. unfold is_u8. lia.
  - reflexivity.
  - unfold is_u32. lia.
  - unfold is_u32. lia.
  - unfold is_u16. lia.
  - apply Forall_cons_2; [exact bob_stake|apply Forall_nil_2].
  - cbn. lia.
  - exists outs. exact H.
Defined.

End Sample.
