(* ===== verification/Subsidy.v ===== *)
(** * The block subsidy

    [blockchain/subsidy.go]: the exponentially decreasing subsidy and its cache, and its
    division among work, votes and the organization.  The cache is a finite map that every
    query threads; [int64] and [uint16] arithmetic wraps.  Division by a chain parameter
    that is zero panics in Go; the parameters are positive constants ([params_ok]). *)

From S2P Require Import Prelude WireCommon MsgTx Script StakeTx.
From stdpp Require Import gmap.
#[local] Open Scope Z_scope.

(** The fields of [chaincfg.Params] that the rules of this package read. *)
Record Params := MkParams {
  BaseSubsidy : Z;
  MulSubsidy : Z;
  DivSubsidy : Z;
  SubsidyReductionInterval : Z;
  WorkRewardProportion : Z;
  StakeRewardProportion : Z;
  BlockTaxProportion : Z;
  TicketsPerBlock : Z;
  StakeValidationHeight : Z;
  BlockOneLedger : list (bytes * Z);
  OrganizationPkScript : bytes;
  OrganizationPkScriptVersion : Z
}.

Definition subsidyCacheInitWidth : Z := 4.

(** [params.go]: the sum of the ledger, 0 without one. *)
Definition BlockOneSubsidy (p : Params) : Z :=
  match BlockOneLedger p with
  | [] => 0
  | ledger => foldl (fun sum output => i64 (sum + output.2)) 0 ledger
  end.

Definition TotalSubsidyProportions (p : Params) : Z :=
  u16 (u16 (WorkRewardProportion p + StakeRewardProportion p) + BlockTaxProportion p).

(** ** The cache *)

Notation cache := (gmap Z Z) (only parsing).

(** [subsidy *= MulSubsidy; subsidy /= DivSubsidy] *)
Definition reduce (p : Params) (subsidy : Z) : Z :=
  go_quot (i64 (subsidy * MulSubsidy p)) (DivSubsidy p).

(** The subsidy and the cache afterwards. *)
Definition CalcBlockSubsidy (p : Params) (c : cache) (keyheight : Z) : Z * cache :=
  if keyheight =? 0 then (BlockOneSubsidy p, c)
  else
    let iteration := u64 (go_quot keyheight (SubsidyReductionInterval p)) in
    if iteration =? 0 then (BaseSubsidy p, c)
    else
      match c !! iteration with
      | Some cachedValue => (cachedValue, c)
      | None =>
        match c !! u64 (iteration - 1) with
        | Some cachedValue =>
          let cachedValue := reduce p cachedValue in
          (cachedValue, <[iteration := cachedValue]> c)
        | None =>
          let subsidy := Z.iter iteration (reduce p) (BaseSubsidy p) in
          (subsidy, <[iteration := subsidy]> c)
        end
      end.

(** The loop queries the same height five times. *)
Definition NewSubsidyCache (keyHeight : Z) (p : Params) : cache :=
  let iteration := u64 (go_quot keyHeight (SubsidyReductionInterval p)) in
  if iteration <? subsidyCacheInitWidth then ∅
  else
    foldl (fun c _ => (CalcBlockSubsidy p c (i64 (i64 iteration * SubsidyReductionInterval p))).2)
      ∅ (seq 0 5).

(** ** Its division *)

Definition CalcBlockWorkSubsidy (c : cache) (keyheight voters : Z) (p : Params) : Z * cache :=
  let '(subsidy, c) := CalcBlockSubsidy p c keyheight in
  let proportionWork := WorkRewardProportion p in
  let proportions := TotalSubsidyProportions p in
  let subsidy := i64 (subsidy * proportionWork) in
  let subsidy := go_quot subsidy proportions in
  let keyheight := i64 (keyheight + 1) in
  if keyheight <? StakeValidationHeight p then (subsidy, c)
  else if voters =? 0 then (0, c)
  else (go_quot (i64 (voters * subsidy)) (TicketsPerBlock p), c).

Definition CalcStakeVoteSubsidy (c : cache) (height : Z) (p : Params) : Z * cache :=
  let '(subsidy, c) := CalcBlockSubsidy p c height in
  let proportionStake := StakeRewardProportion p in
  let proportions := TotalSubsidyProportions p in
  let subsidy := i64 (subsidy * proportionStake) in
  (go_quot subsidy (i64 (proportions * TicketsPerBlock p)), c).

Definition CalcBlockTaxSubsidy (c : cache) (keyheight voters : Z) (p : Params) : Z * cache :=
  if BlockTaxProportion p =? 0 then (0, c)
  else
    let '(subsidy, c) := CalcBlockSubsidy p c keyheight in
    let proportionTax := BlockTaxProportion p in
    let proportions := TotalSubsidyProportions p in
    let subsidy := i64 (subsidy * proportionTax) in
    let subsidy := go_quot subsidy proportions in
    let keyheight := i64 (keyheight + 1) in
    let voters := if keyheight <? StakeValidationHeight p then 5 else voters in
    if (voters =? 0) && (keyheight >=? StakeValidationHeight p) then (0, c)
    else (go_quot (i64 (voters * subsidy)) (TicketsPerBlock p), c).

Inductive taxError := ErrNoTxOutputs | ErrNoTax.

Definition CoinbasePaysTax (c : cache) (tx : MsgTx) (keyheight voters : Z) (p : Params) :
    res taxError unit * cache :=
  if keyheight <=? 1 then (Ok tt, c)
  else if BlockTaxProportion p =? 0 then (Ok tt, c)
  else
    match tx_TxOut tx with
    | [] => (Err ErrNoTxOutputs, c)
    | taxOutput :: _ =>
      if negb (out_Version taxOutput =? OrganizationPkScriptVersion p) then (Err ErrNoTax, c)
      else if negb (bool_decide (PkScript taxOutput = OrganizationPkScript p)) then (Err ErrNoTax, c)
      else
        let '(orgSubsidy, c) := CalcBlockTaxSubsidy c keyheight voters p in
        if negb (orgSubsidy =? Value taxOutput) then (Err ErrNoTax, c) else (Ok tt, c)
    end.

(** ** The subsidy without a cache *)

Definition subsidyAt (p : Params) (i : Z) : Z := Z.iter i (reduce p) (BaseSubsidy p).

Definition blockSubsidy (p : Params) (keyheight : Z) : Z :=
  if keyheight =? 0 then BlockOneSubsidy p
  else subsidyAt p (u64 (go_quot keyheight (SubsidyReductionInterval p))).

(** Every cached value is the subsidy of its iteration. *)
Definition cache_ok (p : Params) (c : cache) : Prop :=
  forall i v, c !! i = Some v -> 0 < i /\ v = subsidyAt p i.

Lemma subsidyAt_0 p : subsidyAt p 0 = BaseSubsidy p.
Proof. reflexivity. Qed.

Lemma subsidyAt_succ p i : 0 <= i -> subsidyAt p (i + 1) = reduce p (subsidyAt p i).
Proof.
  intros Hi. unfold subsidyAt. rewrite !iter_nat_of_Z by lia.
  replace (Z.abs_nat (i + 1)) with (S (Z.abs_nat i)) by lia. reflexivity.
Qed.

Lemma cache_ok_insert p c i v : cache_ok p c -> 0 < i -> v = subsidyAt p i -> cache_ok p (<[i:=v]> c).
Proof.
  intros Hc Hi -> j w. destruct (decide (i = j)) as [<-|Hne].
  - rewrite lookup_insert_eq. intros [= <-]. done.
  - rewrite lookup_insert_ne by done. apply Hc.
Qed.

Lemma CalcBlockSubsidy_spec p c keyheight : cache_ok p c ->
  (CalcBlockSubsidy p c keyheight).1 = blockSubsidy p keyheight /\
  cache_ok p (CalcBlockSubsidy p c keyheight).2.
Proof.
  intros Hc. unfold CalcBlockSubsidy, blockSubsidy. destruct (keyheight =? 0); [done|].
  set (it := u64 (go_quot _ _)). assert (Hit : is_u64 it) by apply u64_range.
  destruct (Z.eqb_spec it 0) as [->|Hne]; [done|].
  destruct (c !! it) as [v|] eqn:E1; [by apply Hc in E1 as [_ ->]|].
  rewrite u64_small by (unfold is_u64 in *; lia).
  destruct (c !! (it - 1)) as [v|] eqn:E2; cbn [fst snd].
  - apply Hc in E2 as [Hpos ->]. rewrite <- subsidyAt_succ, Z.sub_add by lia.
    split; [done|]. apply cache_ok_insert; [done|lia|done].
  - split; [done|]. apply cache_ok_insert; [done|unfold is_u64 in *; lia|done].
Qed.

(** ** Bounds *)

(** What the parameter sets of [chaincfg/params.go] satisfy. *)
Definition params_ok (p : Params) : Prop :=
  0 <= BaseSubsidy p /\ BaseSubsidy p * 2 ^ 16 < 2 ^ 63 /\
  0 <= MulSubsidy p <= DivSubsidy p /\ 0 < DivSubsidy p /\ MulSubsidy p < 2 ^ 16 /\
  0 < SubsidyReductionInterval p < 2 ^ 63 /\
  0 <= WorkRewardProportion p /\ 0 <= StakeRewardProportion p /\ 0 <= BlockTaxProportion p /\
  0 < WorkRewardProportion p + StakeRewardProportion p + BlockTaxProportion p < 2 ^ 16 /\
  5 <= TicketsPerBlock p < 2 ^ 16.

(** The subsidy numbers of the main network, without its ledger and organization. *)
Definition mainNetNumbers : Params :=
  MkParams 5000000000 1000 1005 1543 45 45 10 5 512 [] [] 0.

Lemma mainNetNumbers_ok : params_ok mainNetNumbers.
Proof. unfold params_ok. cbn. lia. Qed.

Section bounds.
Context (p : Params) (Hp : params_ok p).

Lemma reduce_div s : 0 <= s <= BaseSubsidy p -> reduce p s = s * MulSubsidy p / DivSubsidy p /\
  0 <= reduce p s <= s /\ DivSubsidy p * reduce p s <= MulSubsidy p * s.
Proof.
  intros Hs. destruct Hp as (H1 & H2 & H3 & H4 & H5 & _). unfold reduce, go_quot.
  rewrite i64_small by (unfold is_i64; nia). rewrite Z.quot_div_nonneg by nia.
  pose proof (Z.mul_div_le (s * MulSubsidy p) (DivSubsidy p) H4).
  split; [done|]. split; [split; [apply Z.div_pos; nia|apply Z.div_le_upper_bound; nia]|nia].
Qed.

Lemma subsidyAt_bound i : 0 <= i -> 0 <= subsidyAt p i <= BaseSubsidy p.
Proof.
  intros Hi. revert i Hi. apply natlike_ind; [rewrite subsidyAt_0; destruct Hp; lia|].
  intros i Hi IH. rewrite <- Z.add_1_r, subsidyAt_succ by done. destruct (reduce_div _ IH) as (_ & ? & _). lia.
Qed.

Lemma subsidyAt_decay i : 0 <= i ->
  subsidyAt p (i + 1) <= subsidyAt p i /\ DivSubsidy p * subsidyAt p (i + 1) <= MulSubsidy p * subsidyAt p i.
Proof.
  intros Hi. rewrite subsidyAt_succ by done.
  destruct (reduce_div (subsidyAt p i) (subsidyAt_bound i Hi)) as (_ & ? & ?). lia.
Qed.

Lemma blockSubsidy_bound h : h <> 0 -> 0 <= blockSubsidy p h <= BaseSubsidy p.
Proof.
  intros Hh. unfold blockSubsidy. destruct (Z.eqb_spec h 0); [done|]. apply subsidyAt_bound.
  apply u64_range.
Qed.

Lemma proportions_exact : TotalSubsidyProportions p =
  WorkRewardProportion p + StakeRewardProportion p + BlockTaxProportion p.
Proof.
  destruct Hp as (_ & _ & _ & _ & _ & _ & H1 & H2 & H3 & H4 & _). unfold TotalSubsidyProportions.
  rewrite !u16_small; unfold is_u16; rewrite ?u16_small; unfold is_u16; lia.
Qed.

(** The share [n/d] of [s], scaled by [v] of [t] voters. *)
Lemma share s n d : 0 <= s -> 0 <= s * 2 ^ 16 < 2 ^ 63 -> 0 <= n <= d -> 0 < d < 2 ^ 16 ->
  go_quot (i64 (s * n)) d = s * n / d /\ 0 <= s * n / d <= s /\ d * (s * n / d) <= s * n.
Proof.
  intros Hs Hb Hn Hd. unfold go_quot. rewrite i64_small by (unfold is_i64; nia).
  rewrite Z.quot_div_nonneg by nia. split; [done|].
  pose proof (Z.mul_div_le (s * n) d ltac:(lia)).
  split; [split; [apply Z.div_pos; nia|apply Z.div_le_upper_bound; nia]|lia].
Qed.

Lemma scaled s v t : 0 <= s -> s * 2 ^ 16 < 2 ^ 63 -> 0 <= v <= t -> 0 < t < 2 ^ 16 ->
  go_quot (i64 (v * s)) t = v * s / t /\ 0 <= v * s / t <= s.
Proof.
  intros Hs Hb Hv Ht. unfold go_quot. rewrite i64_small by (unfold is_i64; nia).
  rewrite Z.quot_div_nonneg by nia. split; [done|]. split; [apply Z.div_pos; nia|apply Z.div_le_upper_bound; nia].
Qed.

(** The part of a subsidy that a proportion stands for, in unbounded arithmetic. *)
Definition portion (s n : Z) : Z :=
  s * n / (WorkRewardProportion p + StakeRewardProportion p + BlockTaxProportion p).

(** Heights at which no block has votes yet. *)
Definition early (h : Z) : bool := i64 (h + 1) <? StakeValidationHeight p.

Section height.
Context (c : cache) (h : Z) (Hc : cache_ok p c) (Hh : h <> 0).
#[local] Notation s := (CalcBlockSubsidy p c h).1.

Lemma queried_bound : 0 <= s <= BaseSubsidy p.
Proof. destruct (CalcBlockSubsidy_spec p c h Hc) as [-> _]. by apply blockSubsidy_bound. Qed.

Lemma work_exact voters : 0 <= voters <= TicketsPerBlock p ->
  (CalcBlockWorkSubsidy c h voters p).1 =
    (if early h then portion s (WorkRewardProportion p)
     else voters * portion s (WorkRewardProportion p) / TicketsPerBlock p) /\
  0 <= (CalcBlockWorkSubsidy c h voters p).1 <= portion s (WorkRewardProportion p).
Proof.
  intros Hv. pose proof queried_bound as Hs. pose proof proportions_exact as HP.
  unfold CalcBlockWorkSubsidy, early, portion. destruct (CalcBlockSubsidy p c h) as [s c']. cbn [fst] in *.
  destruct Hp as (H1 & H2 & H3 & H4 & H5 & H6 & H7 & H8 & H9 & H10 & H11). rewrite <- HP.
  destruct (share s (WorkRewardProportion p) (TotalSubsidyProportions p)) as (E & Hb & Hm); [lia..|]. rewrite E.
  destruct (_ <? _); cbn [fst]; [lia|]. destruct (Z.eqb_spec voters 0) as [->|]; cbn [fst].
  { rewrite Z.mul_0_l, Z.div_0_l; lia. }
  destruct (scaled (s * WorkRewardProportion p / TotalSubsidyProportions p) voters (TicketsPerBlock p)); lia.
Qed.

Lemma tax_exact voters : 0 <= voters <= TicketsPerBlock p ->
  (CalcBlockTaxSubsidy c h voters p).1 =
    (if early h then 5 else voters) * portion s (BlockTaxProportion p) / TicketsPerBlock p /\
  0 <= (CalcBlockTaxSubsidy c h voters p).1 <= portion s (BlockTaxProportion p).
Proof.
  intros Hv. pose proof queried_bound as Hs. pose proof proportions_exact as HP.
  unfold CalcBlockTaxSubsidy, early, portion. destruct (CalcBlockSubsidy p c h) as [s c']. cbn [fst] in *.
  destruct Hp as (H1 & H2 & H3 & H4 & H5 & H6 & H7 & H8 & H9 & H10 & H11). rewrite <- HP.
  destruct (Z.eqb_spec (BlockTaxProportion p) 0) as [->|_].
  { rewrite Z.mul_0_r, Z.div_0_l, Z.mul_0_r, Z.div_0_l by lia. cbn. lia. }
  destruct (share s (BlockTaxProportion p) (TotalSubsidyProportions p)) as (E & Hb & Hm); [lia..|]. rewrite E.
  set (v := if _ <? _ then 5 else voters).
  assert (Hv' : 0 <= v <= TicketsPerBlock p) by (unfold v; destruct (_ <? _); lia).
  destruct (Z.eqb_spec v 0) as [->|]; cbn [andb].
  - destruct (_ >=? _); cbn [fst]; [rewrite Z.mul_0_l, Z.div_0_l; lia|]. rewrite Z.mul_0_l. change (i64 0) with 0.
    unfold go_quot. rewrite Z.quot_0_l, Z.div_0_l by lia. lia.
  - cbn [fst]. destruct (scaled (s * BlockTaxProportion p / TotalSubsidyProportions p) v (TicketsPerBlock p)); lia.
Qed.

Lemma vote_exact :
  (CalcStakeVoteSubsidy c h p).1 =
    s * StakeRewardProportion p /
      ((WorkRewardProportion p + StakeRewardProportion p + BlockTaxProportion p) * TicketsPerBlock p) /\
  0 <= (CalcStakeVoteSubsidy c h p).1 /\
  TotalSubsidyProportions p * (TicketsPerBlock p * (CalcStakeVoteSubsidy c h p).1) <= s * StakeRewardProportion p.
Proof.
  pose proof queried_bound as Hs. pose proof proportions_exact as HP.
  unfold CalcStakeVoteSubsidy. destruct (CalcBlockSubsidy p c h) as [s c']. cbn [fst] in *.
  destruct Hp as (H1 & H2 & H3 & H4 & H5 & H6 & H7 & H8 & H9 & H10 & H11). rewrite <- HP.
  unfold go_quot. rewrite !i64_small by (unfold is_i64; nia). rewrite Z.quot_div_nonneg by nia.
  pose proof (Z.mul_div_le (s * StakeRewardProportion p) (TotalSubsidyProportions p * TicketsPerBlock p)).
  split; [done|]. split; [apply Z.div_pos; nia|nia].
Qed.

Lemma portion_le n : 0 <= n -> TotalSubsidyProportions p * portion s n <= s * n.
Proof.
  intros Hn. rewrite proportions_exact. apply Z.mul_div_le. destruct Hp as (_ & _ & _ & _ & _ & _ & _ & _ & _ & H & _). lia.
Qed.

End height.

Lemma work_bound c h voters : cache_ok p c -> h <> 0 -> 0 <= voters <= TicketsPerBlock p ->
  exists share, 0 <= (CalcBlockWorkSubsidy c h voters p).1 <= share /\
    TotalSubsidyProportions p * share <= blockSubsidy p h * WorkRewardProportion p.
Proof.
  intros Hc Hh Hv. eexists. split; [by apply work_exact|]. rewrite <- (proj1 (CalcBlockSubsidy_spec p c h Hc)).
  apply portion_le. by destruct Hp as (_ & _ & _ & _ & _ & _ & ? & _).
Qed.

Lemma tax_bound c h voters : cache_ok p c -> h <> 0 -> 0 <= voters <= TicketsPerBlock p ->
  exists share, 0 <= (CalcBlockTaxSubsidy c h voters p).1 <= share /\
    TotalSubsidyProportions p * share <= blockSubsidy p h * BlockTaxProportion p.
Proof.
  intros Hc Hh Hv. eexists. split; [by apply tax_exact|]. rewrite <- (proj1 (CalcBlockSubsidy_spec p c h Hc)).
  apply portion_le. by destruct Hp as (_ & _ & _ & _ & _ & _ & _ & _ & ? & _).
Qed.

Lemma vote_bound c h : cache_ok p c -> h <> 0 ->
  0 <= (CalcStakeVoteSubsidy c h p).1 /\
  TotalSubsidyProportions p * (TicketsPerBlock p * (CalcStakeVoteSubsidy c h p).1) <=
    blockSubsidy p h * StakeRewardProportion p.
Proof.
  intros Hc Hh. rewrite <- (proj1 (CalcBlockSubsidy_spec p c h Hc)). by destruct (vote_exact c h Hc Hh) as (_ & ? & ?).
Qed.

(** *** The total *)

(** The subsidies of the key heights 1 to [n]. *)
Fixpoint supply (n : nat) : Z :=
  match n with
  | O => 0
  | S n => supply n + blockSubsidy p (Z.of_nat (S n))
  end.

Lemma blockSubsidy_iter h : 0 < h < 2 ^ 63 ->
  blockSubsidy p h = subsidyAt p (h / SubsidyReductionInterval p).
Proof.
  intros Hh. destruct Hp as (_ & _ & _ & _ & _ & H6 & _). unfold blockSubsidy, go_quot.
  destruct (Z.eqb_spec h 0); [lia|]. rewrite Z.quot_div_nonneg by lia. f_equal. apply u64_small.
  assert (h / SubsidyReductionInterval p <= h) by (apply Z.div_le_upper_bound; nia).
  assert (0 <= h / SubsidyReductionInterval p) by (apply Z.div_pos; lia). unfold is_u64. lia.
Qed.

(** The geometric series, interval by interval. *)
Lemma supply_invariant n : Z.of_nat n < 2 ^ 63 ->
  let q := Z.of_nat n / SubsidyReductionInterval p in
  let r := Z.of_nat n mod SubsidyReductionInterval p in
  (DivSubsidy p - MulSubsidy p) * supply n <=
    DivSubsidy p * SubsidyReductionInterval p * (BaseSubsidy p - subsidyAt p q) +
    (DivSubsidy p - MulSubsidy p) * (r + 1) * subsidyAt p q.
Proof.
  destruct Hp as (H1 & H2 & H3 & H4 & H5 & H6 & _). set (I := SubsidyReductionInterval p) in *.
  induction n as [|n IH]; intros Hn; cbn zeta.
  { change (Z.of_nat 0) with 0. rewrite Z.div_0_l, Z.mod_0_l, subsidyAt_0 by lia. cbn. nia. }
  specialize (IH ltac:(lia)). cbn zeta in IH. cbn [supply]. rewrite blockSubsidy_iter by lia. fold I.
  set (N := Z.of_nat n) in *. replace (Z.of_nat (S n)) with (N + 1) by lia.
  assert (HN : 0 <= N) by lia. pose proof (Z.div_mod N I ltac:(lia)) as Hdm. pose proof (Z.mod_pos_bound N I ltac:(lia)).
  assert (Hq : 0 <= N / I) by (apply Z.div_pos; lia).
  pose proof (subsidyAt_bound (N / I) Hq). destruct (subsidyAt_decay (N / I) Hq) as [_ Hd].
  destruct (decide (N mod I + 1 = I)) as [Hr|Hr].
  - assert (Hq' : (N + 1) / I = N / I + 1) by (symmetry; apply Z.div_unique with 0; lia).
    assert (Hr' : (N + 1) mod I = 0) by (symmetry; apply Z.mod_unique with (N / I + 1); lia).
    rewrite Hq', Hr'. rewrite Hr in IH. nia.
  - assert (Hq' : (N + 1) / I = N / I) by (symmetry; apply Z.div_unique with (N mod I + 1); lia).
    assert (Hr' : (N + 1) mod I = N mod I + 1) by (symmetry; apply Z.mod_unique with (N / I); lia).
    rewrite Hq', Hr'. nia.
Qed.

End bounds.

(** ** The theorems *)

(** The subsidies that a sequence of queries returns, in order. *)
Fixpoint queries (p : Params) (c : cache) (heights : list Z) : list Z :=
  match heights with
  | [] => []
  | h :: heights => let '(s, c) := CalcBlockSubsidy p c h in s :: queries p c heights
  end.

Lemma queries_spec p c heights : cache_ok p c -> queries p c heights = blockSubsidy p <$> heights.
Proof.
  revert c. induction heights as [|h heights IH]; intros c Hc; [done|]. cbn.
  destruct (CalcBlockSubsidy_spec p c h Hc) as [Hv Hc']. destruct (CalcBlockSubsidy p c h). cbn in *.
  rewrite Hv. f_equal. by apply IH.
Qed.

Lemma NewSubsidyCache_ok p keyHeight : cache_ok p (NewSubsidyCache keyHeight p).
Proof.
  unfold NewSubsidyCache. destruct (_ <? _); [done|].
  assert (H : forall (n : list nat) c, cache_ok p c -> cache_ok p (foldl (fun c _ => (CalcBlockSubsidy p c
    (i64 (i64 (u64 (go_quot keyHeight (SubsidyReductionInterval p))) * SubsidyReductionInterval p))).2) c n)).
  { induction n as [|? n IH]; intros c Hc; [done|]. apply IH. by apply CalcBlockSubsidy_spec. }
  apply H. done.
Qed.

(** The sum of the subsidies of a list of heights. *)
Definition total (subsidies : list Z) : Z := foldr Z.add 0 subsidies.

Lemma heights_below (heights : list Z) : Forall (fun h => 0 < h < 2 ^ 63) heights ->
  exists n, Z.of_nat n < 2 ^ 63 /\ Forall (fun h => 0 < h <= Z.of_nat n) heights.
Proof.
  induction 1 as [|h heights Hh _ (n & Hn & IH)]; [exists 0%nat; split; [cbn; lia|constructor]|].
  exists (Nat.max n (Z.to_nat h)). split; [lia|]. constructor; [lia|]. eapply Forall_impl; [exact IH|]. cbn. lia.
Qed.

Lemma total_app l1 l2 : total (l1 ++ l2) = total l1 + total l2.
Proof. unfold total. induction l1 as [|x l1 IH]; cbn in *; lia. Qed.

(** Different heights up to [n] have at most the supply of all of them. *)
Lemma total_supply p (Hp : params_ok p) n : forall heights, NoDup heights ->
  Forall (fun h => 0 < h <= Z.of_nat n) heights -> total (blockSubsidy p <$> heights) <= supply p n.
Proof.
  induction n as [|n IH]; intros heights Hnd Hf.
  { destruct heights as [|h heights]; [done|]. apply Forall_cons_1 in Hf as [Hh _]. lia. }
  cbn [supply]. set (N := Z.of_nat (S n)) in *. pose proof (blockSubsidy_bound p Hp N ltac:(lia)) as Hb.
  destruct (decide (N ∈ heights)) as [(l1 & l2 & ->)%list_elem_of_split|Hout].
  - apply NoDup_app in Hnd as (N1 & Nx & [Nn N2]%NoDup_cons). rewrite fmap_app, fmap_cons, total_app.
    specialize (IH (l1 ++ l2)). rewrite fmap_app, total_app in IH.
    assert (total (blockSubsidy p <$> l1) + total (blockSubsidy p <$> l2) <= supply p n).
    { apply IH.
      - apply NoDup_app. split_and!; [done| |done]. intros x Hx Hx'. apply (Nx x Hx). by right.
      - rewrite Forall_app, Forall_cons in Hf. destruct Hf as (F1 & _ & F2). rewrite Forall_forall in F1, F2.
        apply Forall_forall. intros x [Hx|Hx]%elem_of_app.
        + specialize (F1 x Hx). assert (x <> N) by (intros ->; apply (Nx N Hx); by left). lia.
        + specialize (F2 x Hx). assert (x <> N) by (by intros ->). lia. }
    change (total (blockSubsidy p N :: _)) with (blockSubsidy p N + total (blockSubsidy p <$> l2)). lia.
  - assert (total (blockSubsidy p <$> heights) <= supply p n); [|lia]. apply IH; [done|].
    rewrite Forall_forall in Hf |- *. intros x Hx. specialize (Hf x Hx). assert (x <> N) by (by intros ->). lia.
Qed.

Lemma supply_limit p n : params_ok p -> Z.of_nat n < 2 ^ 63 ->
  (DivSubsidy p - MulSubsidy p) * supply p n <= DivSubsidy p * SubsidyReductionInterval p * BaseSubsidy p.
Proof.
  intros Hp Hn. pose proof (supply_invariant p Hp n Hn) as H. cbn zeta in H.
  assert (HI : 0 < SubsidyReductionInterval p) by (by destruct Hp as (_ & _ & _ & _ & _ & [? _] & _)).
  assert (Hq : 0 <= Z.of_nat n / SubsidyReductionInterval p) by (apply Z.div_pos; lia).
  pose proof (subsidyAt_bound p Hp _ Hq). pose proof (Z.mod_pos_bound (Z.of_nat n) _ HI).
  destruct Hp as (_ & _ & H3 & _). etransitivity; [exact H|].
  set (s := subsidyAt p _) in *. set (r := Z.of_nat n mod SubsidyReductionInterval p) in *.
  assert ((DivSubsidy p - MulSubsidy p) * (r + 1) <= DivSubsidy p * SubsidyReductionInterval p)
    by (apply Z.mul_le_mono_nonneg; lia). nia.
Qed.

(** The subsidy cache is invisible.  Whatever height a cache is created for and
    whatever sequence of heights is then queried, every query returns the subsidy computed
    from scratch: the ledger total at key height 0, and otherwise the base subsidy reduced
    once per completed reduction interval. *)
Theorem subsidy_cache_transparent (p : Params) (keyHeight : Z) (heights : list Z) :
  queries p (NewSubsidyCache keyHeight p) heights = blockSubsidy p <$> heights.
Proof. apply queries_spec, NewSubsidyCache_ok. Qed.

(** C31: the subsidy never pays out more than it has.  With sane parameters, a cache whose
    entries are subsidies (as those of a new cache are, and every query keeps them), a key
    height other than 0, where the subsidy is the total of the ledger, and no more voters
    than tickets per block, the work subsidy, the organization's subsidy and the subsidy of a
    vote are the quotients that the proportions give in unbounded arithmetic, so that no
    intermediate product overflows; and together with the subsidies of the votes they are
    not negative and add up to at most the block subsidy of that height, which is at most
    the base subsidy. *)
Theorem subsidy_split (p : Params) (c : cache) (keyheight voters : Z) :
  params_ok p -> cache_ok p c -> keyheight <> 0 -> 0 <= voters <= TicketsPerBlock p ->
  let subsidy := (CalcBlockSubsidy p c keyheight).1 in
  let work := (CalcBlockWorkSubsidy c keyheight voters p).1 in
  let tax := (CalcBlockTaxSubsidy c keyheight voters p).1 in
  let vote := (CalcStakeVoteSubsidy c keyheight p).1 in
  let W := WorkRewardProportion p in let S := StakeRewardProportion p in let T := BlockTaxProportion p in
  let tickets := TicketsPerBlock p in
  work = (if early p keyheight then subsidy * W / (W + S + T) else voters * (subsidy * W / (W + S + T)) / tickets) /\
  tax = (if early p keyheight then 5 else voters) * (subsidy * T / (W + S + T)) / tickets /\
  vote = subsidy * S / ((W + S + T) * tickets) /\
  0 <= work /\ 0 <= tax /\ 0 <= vote /\
  work + tax + voters * vote <= subsidy <= BaseSubsidy p.
Proof.
  intros Hp Hc Hh Hv. destruct (work_exact p Hp c keyheight Hc Hh voters Hv) as [Ew Hw].
  destruct (tax_exact p Hp c keyheight Hc Hh voters Hv) as [Et Ht].
  destruct (vote_exact p Hp c keyheight Hc Hh) as (Ev & Hvo & Mv).
  pose proof (queried_bound p Hp c keyheight Hc Hh). pose proof (proportions_exact p Hp) as HP.
  destruct (Hp) as (_ & _ & _ & _ & _ & _ & HW & HS & HT & H10 & _). cbn zeta.
  pose proof (portion_le p Hp c keyheight (WorkRewardProportion p) HW) as Mw.
  pose proof (portion_le p Hp c keyheight (BlockTaxProportion p) HT) as Mt.
  split_and!; [exact Ew|exact Et|exact Ev|lia..| |lia].
  set (work := (CalcBlockWorkSubsidy _ _ _ _).1) in *. set (tax := (CalcBlockTaxSubsidy _ _ _ _).1) in *.
  set (vote := (CalcStakeVoteSubsidy _ _ _).1) in *. set (P := TotalSubsidyProportions p) in *.
  set (sw := portion p _ (WorkRewardProportion p)) in *. set (st := portion p _ (BlockTaxProportion p)) in *.
  set (s := (CalcBlockSubsidy p c keyheight).1) in *. clear Ew Et Ev.
  assert (P * work <= P * sw) by nia. assert (P * tax <= P * st) by nia.
  assert (P * (voters * vote) <= P * (TicketsPerBlock p * vote)) by (apply Z.mul_le_mono_nonneg_l; nia).
  enough (P * (work + tax + voters * vote) <= P * s) by nia.
  rewrite !Z.mul_add_distr_l. rewrite HP at 4. lia.
Qed.

Lemma subsidy_split_witness : (CalcBlockWorkSubsidy ∅ 2000 5 mainNetNumbers).1 +
  (CalcBlockTaxSubsidy ∅ 2000 5 mainNetNumbers).1 + 5 * (CalcStakeVoteSubsidy ∅ 2000 mainNetNumbers).1 <= 5000000000.
Proof.
  destruct (subsidy_split mainNetNumbers ∅ 2000 5) as (_ & _ & _ & _ & _ & _ & H1 & H2);
    [apply mainNetNumbers_ok|done|done|cbn; lia|].
  etransitivity; [exact H1|exact H2].
Defined.

(** C32: the total of all subsidies is bounded.  Whatever height a cache is created for, and
    in whatever order the subsidies of different key heights after 0 are then asked of it,
    the values that CalcBlockSubsidy returns add up to at most the base subsidy times the
    reduction interval times [Div / (Div - Mul)], the limit of the geometric series. *)
Theorem supply_bounded (p : Params) (keyHeight : Z) (heights : list Z) : params_ok p ->
  NoDup heights -> Forall (fun h => 0 < h < 2 ^ 63) heights ->
  (DivSubsidy p - MulSubsidy p) * total (queries p (NewSubsidyCache keyHeight p) heights) <=
    DivSubsidy p * SubsidyReductionInterval p * BaseSubsidy p.
Proof.
  intros Hp Hnd Hf. rewrite queries_spec by apply NewSubsidyCache_ok.
  destruct (heights_below heights Hf) as (n & Hn & Hle).
  etransitivity; [apply Z.mul_le_mono_nonneg_l; [destruct Hp as (_ & _ & ? & _); lia|by apply (total_supply p Hp n)]|].
  by apply supply_limit.
Qed.

Lemma supply_bounded_witness :
  5 * total (queries mainNetNumbers (NewSubsidyCache 9000 mainNetNumbers) [9000; 10001; 1543; 1; 1544]) <=
    1005 * 1543 * 5000000000.
Proof.
  apply (supply_bounded mainNetNumbers 9000 [9000; 10001; 1543; 1; 1544]);
    [apply mainNetNumbers_ok|by apply (bool_decide_unpack _); vm_compute|repeat (constructor; [lia|]); constructor].
Defined.
