(* ===== verification/ChainIO.v ===== *)
(** * The stored form of the unspent outputs

    [blockchain/chainio.go]: the minimal outputs of a ticket, the spend journal and the
    entries of the unspent output set, with the data types of [utxoviewpoint.go] that they
    store.  The functions write into a slice of exactly the computed size, in the style of
    [Compress]; the sparse outputs of an entry are a finite map.  Parsing and serializing
    public keys are parameters, as in [Compress]. *)

From S2P Require Import Prelude WireCommon MsgTx StakeTx Compact Compress.
From stdpp Require Import gmap list sorting.
#[local] Open Scope Z_scope.
Import Vlq Amount ScriptForm Compress.TxOut Flags.

Inductive chainError :=
| errDeserialize | AssertError | CompressError | ErrCorruption | InvalidViewpoint.

(** A slice expression [s[off:]]. *)
Definition slice_from {E A} (s : list A) (off : nat) : res E (list A) :=
  if (off <=? length s)%nat then Ok (drop off s) else Panic.

(** Writes one after another, each where the last one ended. *)
Definition put_seq (target : bytes) (puts : list (bytes -> res compressError (bytes * nat))) :
    res compressError (bytes * nat) :=
  foldM (fun st put => put_from st.2 put st.1) (target, 0%nat) puts.

(** [make([]byte, n)] *)
Definition make (n : Z) : bytes := replicate (Z.to_nat n) 0.

(** ** Minimal outputs *)

Definition serializeSizeForMinimalOutputs (outs : list TxOut) : Z :=
  foldl (fun sz out =>
    sz + serializeSizeVLQ (compressTxOutAmount (u64 (Value out))) + serializeSizeVLQ (out_Version out)
       + serializeSizeVLQ (Z.of_nat (length (PkScript out))) + Z.of_nat (length (PkScript out)))
    (serializeSizeVLQ (Z.of_nat (length outs))) outs.

Definition putTxToMinimalOutputs (target : bytes) (outs : list TxOut) : res compressError (bytes * nat) :=
  put_seq target ((fun t => putVLQ t (Z.of_nat (length outs))) ::
    (out ← outs;
     [fun t => putVLQ t (compressTxOutAmount (u64 (Value out)));
      fun t => putVLQ t (out_Version out);
      fun t => putVLQ t (Z.of_nat (length (PkScript out)));
      put_copy (PkScript out)])).

(** The next number and the offset after it. *)
Definition nextVLQ (serialized : bytes) (offset : nat) : res chainError (Z * nat) :=
  s ← slice_from serialized offset;
  let '(n, bytesRead) := deserializeVLQ s in
  Ok (n, (offset + bytesRead)%nat).

(** [make] of a negative length panics. *)
Definition to_int (n : Z) : res chainError nat :=
  if i64 n <? 0 then Panic else Ok (Z.to_nat (i64 n)).

Definition readMinimalOutput (serialized : bytes) (offset : nat) : res chainError (MinimalOutput * nat) :=
  '(amountComp, offset) ← nextVLQ serialized offset;
  let amount := decompressTxOutAmount amountComp in
  '(version, offset) ← nextVLQ serialized offset;
  '(scriptSize, offset) ← nextVLQ serialized offset;
  size ← to_int scriptSize;
  pkScript ← sub_slice serialized offset (offset + size);
  Ok (MkMinimalOutput pkScript (i64 amount) (u16 version), (offset + size)%nat).

Fixpoint readMinimalOutputs (n : nat) (serialized : bytes) (offset : nat) :
    res chainError (list MinimalOutput * nat) :=
  match n with
  | O => Ok ([], offset)
  | S n =>
    '(out, offset) ← readMinimalOutput serialized offset;
    '(outs, offset) ← readMinimalOutputs n serialized offset;
    Ok (out :: outs, offset)
  end.

Definition deserializeToMinimalOutputs (serialized : bytes) : res chainError (list MinimalOutput * nat) :=
  let '(numOutputs, offset) := deserializeVLQ serialized in
  n ← to_int numOutputs;
  readMinimalOutputs n serialized offset.

(** The same without building the outputs: a script that runs past the end is only noticed
    by the next slice expression, and negative sizes move backwards. *)
Fixpoint skipMinimalOutputs (n : nat) (serialized : bytes) (offset : Z) : res chainError Z :=
  match n with
  | O => Ok offset
  | S n =>
    if offset <? 0 then Panic
    else
      '(_, off) ← nextVLQ serialized (Z.to_nat offset);
      '(_, off) ← nextVLQ serialized off;
      '(scriptSize, off) ← nextVLQ serialized off;
      skipMinimalOutputs n serialized (i64 (Z.of_nat off + i64 scriptSize))
  end.

Definition readDeserializeSizeOfMinimalOutputs (serialized : bytes) : res chainError Z :=
  let '(numOutputs, offset) := deserializeVLQ serialized in
  skipMinimalOutputs (Z.to_nat (i64 numOutputs)) serialized (Z.of_nat offset).

(** ** The types *)

Record utxoOutput := MkOutput {
  uo_pkScript : bytes;
  uo_amount : Z;
  uo_scriptVersion : Z;
  uo_compressed : bool;
  uo_spent : bool
}.

Record UtxoEntry := MkEntry {
  sparseOutputs : gmap Z utxoOutput;
  stakeExtra : bytes;
  e_txVersion : Z;
  e_height : Z;
  e_index : Z;
  e_txType : TxType;
  e_isCoinBase : bool;
  e_hasExpiry : bool;
  modified : bool
}.

Definition newUtxoEntry (txVersion height index : Z) (isCoinBase hasExpiry : bool) (tt : TxType) : UtxoEntry :=
  MkEntry ∅ [] txVersion height index tt isCoinBase hasExpiry false.

Definition IsOutputSpent (entry : UtxoEntry) (outputIndex : Z) : bool :=
  match sparseOutputs entry !! outputIndex with
  | None => true
  | Some output => uo_spent output
  end.

Definition IsFullySpent (entry : UtxoEntry) : bool :=
  forallb (fun output => uo_spent output) (map_to_list (sparseOutputs entry)).*2.

Record spentTxOut := MkStxo {
  st_pkScript : bytes;
  st_stakeExtra : bytes;
  st_amount : Z;
  st_txVersion : Z;
  st_height : Z;
  st_index : Z;
  st_scriptVersion : Z;
  st_txType : TxType;
  st_txFullySpent : bool;
  st_isCoinBase : bool;
  st_hasExpiry : bool;
  st_compressed : bool
}.

Definition zeroStxo : spentTxOut := MkStxo [] [] 0 0 0 0 0 TxTypeRegular false false false false.

(** [TxType] as the small number that the flags hold. *)
Definition txTypeNum (t : TxType) : Z :=
  match t with TxTypeRegular => 0 | TxTypeSStx => 1 | TxTypeSSGen => 2 | TxTypeSSRtx => 3 end.
Definition txTypeOf (n : Z) : TxType :=
  if n =? 1 then TxTypeSStx else if n =? 2 then TxTypeSSGen else if n =? 3 then TxTypeSSRtx
  else TxTypeRegular.

(** ** The spend journal *)

Section keys.
Context {PubKey : Type} (ParsePubKey : bytes -> option PubKey).

#[local] Notation compressedTxOutSize := (compressedTxOutSize ParsePubKey).
#[local] Notation putCompressedTxOut := (putCompressedTxOut ParsePubKey).

Definition stxoFlags (stxo : spentTxOut) : Z :=
  encodeFlags (st_isCoinBase stxo) (st_hasExpiry stxo) (txTypeNum (st_txType stxo)) (st_txFullySpent stxo).

Definition spentTxOutSerializeSize (stxo : spentTxOut) : Z :=
  let size := serializeSizeVLQ (stxoFlags stxo) in
  let size := size + compressedTxOutSize (u64 (st_amount stxo)) (st_scriptVersion stxo)
                       (st_pkScript stxo) (st_compressed stxo) false in
  if st_txFullySpent stxo then
    let size := size + serializeSizeVLQ (st_txVersion stxo) in
    if bool_decide (st_txType stxo = TxTypeSStx) then size + Z.of_nat (length (st_stakeExtra stxo)) else size
  else size.

Definition putSpentTxOut (target : bytes) (stxo : spentTxOut) : res compressError (bytes * nat) :=
  put_seq target
    ([fun t => putVLQ t (stxoFlags stxo);
      fun t => putCompressedTxOut t 0 (st_scriptVersion stxo) (st_pkScript stxo) (st_compressed stxo) false] ++
     (if st_txFullySpent stxo then
        [fun t => putVLQ t (st_txVersion stxo)] ++
        (if bool_decide (st_txType stxo = TxTypeSStx) then [put_copy (st_stakeExtra stxo)] else [])
      else [])).

(** The fields that the flags of a fully spent transaction set. *)
Definition applyFlags (stxo : spentTxOut) (flags : Z) : spentTxOut :=
  if decodeFlagsFullySpent flags then
    let '(isCoinBase, hasExpiry, txType, _) := decodeFlags flags in
    MkStxo (st_pkScript stxo) (st_stakeExtra stxo) (st_amount stxo) (st_txVersion stxo) (st_height stxo)
      (st_index stxo) (st_scriptVersion stxo) (txTypeOf txType) true isCoinBase hasExpiry (st_compressed stxo)
  else stxo.

(** The version and stake data of the containing transaction, and the offset after them. *)
Definition decodeFullySpent (serialized : bytes) (stxo : spentTxOut) (offset : nat) :
    res chainError (spentTxOut * nat) :=
  '(txVersion, offset) ← nextVLQ serialized offset;
  _ ← guard_err ((offset =? 0)%nat || (length serialized <? offset)%nat) errDeserialize;
  let stxo := MkStxo (st_pkScript stxo) (st_stakeExtra stxo) (st_amount stxo) (u16 txVersion) (st_height stxo)
      (st_index stxo) (st_scriptVersion stxo) (st_txType stxo) (st_txFullySpent stxo) (st_isCoinBase stxo)
      (st_hasExpiry stxo) (st_compressed stxo) in
  if bool_decide (st_txType stxo = TxTypeSStx) then
    rest ← slice_from serialized offset;
    sz ← readDeserializeSizeOfMinimalOutputs rest;
    _ ← guard_err ((sz =? 0) || (Z.of_nat (length rest) <? sz)) errDeserialize;
    if sz <? 0 then Panic
    else
      Ok (MkStxo (st_pkScript stxo) (take (Z.to_nat sz) rest) (st_amount stxo) (st_txVersion stxo)
            (st_height stxo) (st_index stxo) (st_scriptVersion stxo) (st_txType stxo) (st_txFullySpent stxo)
            (st_isCoinBase stxo) (st_hasExpiry stxo) (st_compressed stxo), (offset + Z.to_nat sz)%nat)
  else Ok (stxo, offset).

(** The decoded output and the number of bytes read. *)
Definition decodeSpentTxOut (serialized : bytes) (stxo : spentTxOut) (amount height index : Z) :
    res chainError (spentTxOut * nat) :=
  _ ← guard_err (length serialized =? 0)%nat errDeserialize;
  let '(flags, offset) := deserializeVLQ serialized in
  _ ← guard_err (length serialized <=? offset)%nat errDeserialize;
  let stxo := applyFlags stxo (u8 flags) in
  '(_, scriptVersion, compScript, bytesRead) ←
    map_err (fun _ => errDeserialize) (decodeCompressedTxOut (drop offset serialized) false);
  let offset := (offset + bytesRead)%nat in
  let stxo := MkStxo compScript (st_stakeExtra stxo) amount (st_txVersion stxo) height index scriptVersion
      (st_txType stxo) (st_txFullySpent stxo) (st_isCoinBase stxo) (st_hasExpiry stxo) true in
  if decodeFlagsFullySpent (u8 flags) then decodeFullySpent serialized stxo offset
  else Ok (stxo, offset).

(** The inputs of a transaction that have an entry in the journal. *)
Definition journalInputs (tx : MsgTx) : res stakeRuleError (list TxIn) :=
  txType ← DetermineTxType tx;
  Ok (if bool_decide (txType = TxTypeSSGen) then drop 1 (tx_TxIn tx) else tx_TxIn tx).

Definition numStxosOf (tx : MsgTx) : res stakeRuleError nat :=
  txType ← DetermineTxType tx;
  Ok (if bool_decide (txType = TxTypeSSGen) then 1%nat else length (tx_TxIn tx)).

Definition stake_panic {A} (m : res stakeRuleError A) : res chainError A := map_err (fun _ => AssertError) m.

(** The loop over the inputs in reverse order: [stxos] is filled from the back. *)
Fixpoint decodeInputs (serialized : bytes) (ins : list TxIn) (st : list spentTxOut * nat * nat) :
    res chainError (list spentTxOut * nat * nat) :=
  match ins with
  | [] => Ok st
  | txIn :: ins =>
    let '(stxos, stxoIdx, offset) := st in
    (* [stxoIdx] counts the slots left, the slot in use is the one below it *)
    if (stxoIdx =? 0)%nat then Panic
    else
      s ← slice_from serialized offset;
      '(stxo, n) ← decodeSpentTxOut s zeroStxo (ValueIn txIn) (BlockHeight txIn) (BlockIndex txIn);
      stxos' ← assign stxos (stxoIdx - 1) stxo;
      decodeInputs serialized ins (stxos', (stxoIdx - 1)%nat, (offset + n)%nat)
  end.

Definition deserializeSpendJournalEntry (serialized : bytes) (txns : list MsgTx) :
    res chainError (list spentTxOut) :=
  numStxos ← foldM (fun n tx => k ← stake_panic (numStxosOf tx); Ok (n + k)%nat) 0%nat txns;
  if (length serialized =? 0)%nat then
    if negb (numStxos =? 0)%nat then Err AssertError else Ok []
  else
    '(stxos, _, _) ←
      foldM (fun st tx => ins ← stake_panic (journalInputs tx); decodeInputs serialized (rev ins) st)
        (replicate numStxos zeroStxo, numStxos, 0%nat) (rev txns);
    Ok stxos.

Definition serializeSpendJournalEntry (stxos : list spentTxOut) : res chainError bytes :=
  match stxos with
  | [] => Ok []
  | _ =>
    let sizes := spentTxOutSerializeSize <$> stxos in
    let size := foldl Z.add 0 sizes in
    '(serialized, _) ←
      foldM (fun st stxoSize =>
        let '(serialized, oldOffset) := st in
        '(serialized, offset) ← map_err (fun _ => CompressError)
          (put_from oldOffset (fun t => putSpentTxOut t stxoSize.1) serialized);
        _ ← guard_err (negb (Z.of_nat offset - Z.of_nat oldOffset =? stxoSize.2)) AssertError;
        Ok (serialized, offset))
        (make size, 0%nat) (rev (zip stxos sizes));
    Ok serialized
  end.

(** ** Entries of the unspent output set *)

Definition utxoEntryHeaderCode (entry : UtxoEntry) (highestOutputIndex : Z) : res chainError (Z * nat) :=
  let numBitmapBytes := u32 (highestOutputIndex + 6) / 8 in
  let output0Unspent := negb (IsOutputSpent entry 0) in
  let output1Unspent := negb (IsOutputSpent entry 1) in
  if negb output0Unspent && negb output1Unspent && (numBitmapBytes =? 0) then Err AssertError
  else
    let numBitmapBytesAdjustment := if negb output0Unspent && negb output1Unspent then 1 else 0 in
    let headerCode := u64 (Z.shiftl (numBitmapBytes - numBitmapBytesAdjustment) 2) in
    let headerCode := if output0Unspent then Z.lor headerCode 0x01 else headerCode in
    let headerCode := if output1Unspent then Z.lor headerCode 0x02 else headerCode in
    Ok (headerCode, Z.to_nat numBitmapBytes).

(** [sort.Ints] of the keys. *)
Definition outputOrder (entry : UtxoEntry) : list Z := merge_sort Z.le (map_to_list (sparseOutputs entry)).*1.

Definition unspentOutputs (entry : UtxoEntry) : list utxoOutput :=
  filter (fun out => uo_spent out = false) (omap (fun i => sparseOutputs entry !! i) (outputOrder entry)).

(** The byte at position [i] of the bitmap. *)
Definition bitmapByte (entry : UtxoEntry) (i : nat) : Z :=
  foldl (fun unspentBits j =>
    if negb (IsOutputSpent entry (u32 (2 + Z.of_nat i * 8 + Z.of_nat j)))
    then Z.lor unspentBits (Z.shiftl 1 (Z.of_nat j)) else unspentBits) 0 (seq 0 8).

(** [serialized[offset] = b; offset++] *)
Definition put_byte (b : Z) (target : bytes) : res compressError (bytes * nat) :=
  match target with
  | [] => Panic
  | _ :: target => Ok (b :: target, 1%nat)
  end.

Definition entryFlags (entry : UtxoEntry) : Z :=
  encodeFlags (e_isCoinBase entry) (e_hasExpiry entry) (txTypeNum (e_txType entry)) false.

(** The empty result stands for the nil slice of a fully spent entry. *)
Definition serializeUtxoEntry (entry : UtxoEntry) : res chainError bytes :=
  if IsFullySpent entry then Ok []
  else
    highIndex ← or_panic (last (outputOrder entry));
    '(headerCode, numBitmapBytes) ← utxoEntryHeaderCode entry (u32 highIndex);
    let flags := entryFlags entry in
    let size := serializeSizeVLQ (e_txVersion entry) + serializeSizeVLQ (e_height entry) +
                serializeSizeVLQ (e_index entry) + serializeSizeVLQ flags + serializeSizeVLQ headerCode +
                Z.of_nat numBitmapBytes in
    let size := foldl (fun size out =>
                  size + compressedTxOutSize (u64 (uo_amount out)) (uo_scriptVersion out) (uo_pkScript out)
                           (uo_compressed out) true) size (unspentOutputs entry) in
    let size := if bool_decide (e_txType entry = TxTypeSStx)
                then size + Z.of_nat (length (stakeExtra entry)) else size in
    '(serialized, _) ← map_err (fun _ => CompressError) (put_seq (make size)
      ([fun t => putVLQ t (e_txVersion entry); fun t => putVLQ t (e_height entry);
        fun t => putVLQ t (e_index entry); fun t => putVLQ t flags; fun t => putVLQ t headerCode] ++
       ((fun i => put_byte (bitmapByte entry i)) <$> seq 0 numBitmapBytes) ++
       ((fun out t => putCompressedTxOut t (u64 (uo_amount out)) (uo_scriptVersion out) (uo_pkScript out)
                        (uo_compressed out) true) <$> unspentOutputs entry) ++
       (if bool_decide (e_txType entry = TxTypeSStx) then [put_copy (stakeExtra entry)] else [])));
    Ok serialized.

End keys.

(** The next field, which must not be the last thing in the data. *)
Definition nextField (serialized : bytes) (offset : nat) : res chainError (Z * nat) :=
  '(n, offset) ← nextVLQ serialized offset;
  _ ← guard_err (length serialized <=? offset)%nat errDeserialize;
  Ok (n, offset).

(** The indexes of the outputs whose bits are set in byte [i] of the bitmap. *)
Definition bitmapIndexes (i : nat) (unspentBits : Z) : list Z :=
  omap (fun j =>
    if negb (Z.land (Z.shiftr unspentBits (Z.of_nat j)) 0x01 =? 0)
    then Some (u32 (2 + Z.of_nat i * 8 + Z.of_nat j)) else None) (seq 0 8).

(** The loop that decodes the outputs. *)
Fixpoint decodeOutputs (serialized : bytes) (outputIndexes : list Z) (offset : nat)
    (outs : gmap Z utxoOutput) : res chainError (gmap Z utxoOutput * nat) :=
  match outputIndexes with
  | [] => Ok (outs, offset)
  | outputIndex :: outputIndexes =>
    s ← slice_from serialized offset;
    '(amount, scriptVersion, compScript, bytesRead) ←
      map_err (fun _ => errDeserialize) (decodeCompressedTxOut s true);
    decodeOutputs serialized outputIndexes (offset + bytesRead)
      (<[outputIndex := MkOutput compScript amount scriptVersion true false]> outs)
  end.

Definition deserializeUtxoEntry (serialized : bytes) : res chainError UtxoEntry :=
  '(version, offset) ← nextField serialized 0;
  '(blockHeight, offset) ← nextField serialized offset;
  '(blockIndex, offset) ← nextField serialized offset;
  '(flags, offset) ← nextField serialized offset;
  let '(isCoinBase, hasExpiry, txType, _) := decodeFlags (u8 flags) in
  '(code, offset) ← nextField serialized offset;
  let output0Unspent := negb (Z.land code 0x01 =? 0) in
  let output1Unspent := negb (Z.land code 0x02 =? 0) in
  let numBitmapBytes := Z.shiftr code 2 in
  let numBitmapBytes := if negb output0Unspent && negb output1Unspent then u64 (numBitmapBytes + 1)
                        else numBitmapBytes in
  _ ← guard_err (Z.of_nat (length (drop offset serialized)) <? numBitmapBytes) errDeserialize;
  let n := Z.to_nat (u32 numBitmapBytes) in
  bitmap ← sub_slice serialized offset (offset + n);
  let outputIndexes := (if output0Unspent then [0] else []) ++ (if output1Unspent then [1] else []) ++
                       concat (imap bitmapIndexes bitmap) in
  '(outs, offset) ← decodeOutputs serialized outputIndexes (offset + n) ∅;
  extra ← (if bool_decide (txTypeOf txType = TxTypeSStx) then slice_from serialized offset else Ok []);
  Ok (MkEntry outs extra (u16 version) (u32 blockHeight) (u32 blockIndex) (txTypeOf txType)
        isCoinBase hasExpiry false).

(** ** The buckets

    The two buckets of the database, from 32-byte hashes to values. *)

Section keys2.
Context {PubKey : Type} (ParsePubKey : bytes -> option PubKey).

Definition dbFetchUtxoEntry (utxoBucket : gmap bytes bytes) (hash : bytes) : res chainError (option UtxoEntry) :=
  match utxoBucket !! hash with
  | None => Ok None
  | Some [] => Err AssertError
  | Some serializedUtxo =>
    entry ← map_err (fun e => match e with errDeserialize => ErrCorruption | e => e end)
              (deserializeUtxoEntry serializedUtxo);
    Ok (Some entry)
  end.

(** One step of the loop over the entries of a view. *)
Definition putUtxoEntry (utxoBucket : gmap bytes bytes) (hashEntry : bytes * option UtxoEntry) :
    res chainError (gmap bytes bytes) :=
  match hashEntry.2 with
  | None => Ok utxoBucket
  | Some entry =>
    if negb (modified entry) then Ok utxoBucket
    else
      serialized ← serializeUtxoEntry ParsePubKey entry;
      if (length serialized =? 0)%nat then Ok (delete hashEntry.1 utxoBucket)
      else Ok (<[hashEntry.1 := serialized]> utxoBucket)
  end.

Definition dbPutUtxoView (utxoBucket : gmap bytes bytes) (entries : gmap bytes (option UtxoEntry)) :
    res chainError (gmap bytes bytes) :=
  foldM putUtxoEntry utxoBucket (map_to_list entries).

Definition dbPutSpendJournalEntry (spendBucket : gmap bytes bytes) (blockHash : bytes) (stxos : list spentTxOut) :
    res chainError (gmap bytes bytes) :=
  serialized ← serializeSpendJournalEntry ParsePubKey stxos;
  Ok (<[blockHash := serialized]> spendBucket).

Definition dbRemoveSpendJournalEntry (spendBucket : gmap bytes bytes) (blockHash : bytes) : gmap bytes bytes :=
  delete blockHash spendBucket.

(** Whether a block hash meets the target of its header, which makes it a key block. *)
Definition meetsTarget (hash : bytes) (bits : Z) : bool := HashToBig hash <=? CompactToBig bits.

(** The transactions that the journal of a block covers. *)
Definition journalTxns (parentHash : bytes) (parentBits : Z) (regularTxTreeValid : bool)
    (parentTxs stxs : list MsgTx) : res chainError (list MsgTx) :=
  let startTx := if meetsTarget parentHash parentBits then 2%nat else 1%nat in
  blockTxns ← (if regularTxTreeValid then slice_from parentTxs startTx else Ok []);
  Ok (blockTxns ++ stxs).

Definition dbFetchSpendJournalEntry (spendBucket : gmap bytes bytes) (blockHash : bytes)
    (parentHash : bytes) (parentBits : Z) (regularTxTreeValid : bool) (parentTxs stxs : list MsgTx) :
    res chainError (list spentTxOut) :=
  let serialized := default [] (spendBucket !! blockHash) in
  blockTxns ← journalTxns parentHash parentBits regularTxTreeValid parentTxs stxs;
  if (0 <? length blockTxns)%nat && (length serialized =? 0)%nat then Err AssertError
  else
    map_err (fun e => match e with errDeserialize => ErrCorruption | e => e end)
      (deserializeSpendJournalEntry serialized blockTxns).

End keys2.

(** ** Writing in sequence *)

Lemma put_seq_from ps es pre rest : Forall2 puts ps es -> (length (concat es) <= length rest)%nat ->
  foldM (fun st put => put_from st.2 put st.1) (pre ++ rest, length pre) ps =
    Ok ((pre ++ concat es) ++ drop (length (concat es)) rest, length (pre ++ concat es)).
Proof.
  intros H. revert pre rest. induction H as [|put e ps es Hp _ IH]; intros pre rest Hl; cbn [foldM concat].
  { by rewrite app_nil_r. }
  cbn in Hl. rewrite length_app in Hl. cbn [fst snd]. rewrite (puts_then _ _ _ _ Hp) by lia. cbn [mbind res_bind].
  rewrite IH by (rewrite length_drop; lia). rewrite drop_drop, (length_app e), <- !app_assoc. done.
Qed.

Lemma put_seq_puts ps es : Forall2 puts ps es -> puts (fun t => put_seq t ps) (concat es).
Proof. intros H t Hl. apply (put_seq_from ps es [] t H Hl). Qed.

Lemma put_seq_concat ps es e : Forall2 puts ps es -> concat es = e -> puts (fun t => put_seq t ps) e.
Proof. intros H <-. by apply put_seq_puts. Qed.

Lemma put_seq_exact ps es n : Forall2 puts ps es -> n = Z.of_nat (length (concat es)) ->
  put_seq (make n) ps = Ok (concat es, length (concat es)).
Proof.
  intros H ->. unfold make. rewrite Nat2Z.id, put_seq_puts with (es := es);
    [|done|by rewrite length_replicate]. by rewrite drop_replicate, Nat.sub_diag, app_nil_r.
Qed.

Lemma puts_byte b : puts (put_byte b) [b].
Proof. intros [|x t] H; cbn in *; [lia|]. done. Qed.

Lemma slice_from_app {E A} (a b : list A) : slice_from (E := E) (a ++ b) (length a) = Ok b.
Proof.
  unfold slice_from. rewrite length_app. destruct (Nat.leb_spec (length a) (length a + length b)); [|lia].
  by rewrite drop_app_length.
Qed.

(** A number that was written at [length pre]. *)
Lemma nextVLQ_encode pre n rest : is_u64 n ->
  nextVLQ (pre ++ encodeVLQ n ++ rest) (length pre) = Ok (n, length (pre ++ encodeVLQ n)).
Proof.
  intros Hn. unfold nextVLQ. rewrite slice_from_app. cbn. rewrite deserialize_encode by done.
  by rewrite length_app.
Qed.

(** ** Minimal outputs are read back *)

Definition out_ok (out : TxOut) : Prop :=
  0 <= Value out < 2 ^ 60 /\ is_u16 (out_Version out) /\ Z.of_nat (length (PkScript out)) < 2 ^ 62.

Definition minimalOf (out : TxOut) : MinimalOutput :=
  MkMinimalOutput (PkScript out) (Value out) (out_Version out).

Definition encodeMinimal (out : TxOut) : bytes :=
  encodeVLQ (compressTxOutAmount (u64 (Value out))) ++ encodeVLQ (out_Version out) ++
  encodeVLQ (Z.of_nat (length (PkScript out))) ++ PkScript out.

Definition encodeMinimals (outs : list TxOut) : bytes :=
  encodeVLQ (Z.of_nat (length outs)) ++ concat (encodeMinimal <$> outs).

Lemma minimal_size outs n : Forall out_ok outs ->
  foldl (fun sz out =>
    sz + serializeSizeVLQ (compressTxOutAmount (u64 (Value out))) + serializeSizeVLQ (out_Version out)
       + serializeSizeVLQ (Z.of_nat (length (PkScript out))) + Z.of_nat (length (PkScript out))) n outs =
  n + Z.of_nat (length (concat (encodeMinimal <$> outs))).
Proof.
  intros H. revert n. induction H as [|out outs (Hv & Hver & Hs) _ IH]; intros n; cbn [foldl fmap list_fmap concat].
  { cbn. lia. }
  rewrite IH, !serializeSizeVLQ_spec by (apply compress_u64 || (unfold is_u64, is_u16 in *; lia)).
  rewrite length_app. unfold encodeMinimal. rewrite !length_app. lia.
Qed.

Lemma putTxToMinimalOutputs_puts outs : Forall out_ok outs -> Z.of_nat (length outs) < 2 ^ 64 ->
  puts (fun t => putTxToMinimalOutputs t outs) (encodeMinimals outs).
Proof.
  intros H Hn. unfold putTxToMinimalOutputs, encodeMinimals.
  assert (Hps : exists es, concat es = concat (encodeMinimal <$> outs) /\ Forall2 puts
    (out ← outs;
     [fun t => putVLQ t (compressTxOutAmount (u64 (Value out))); fun t => putVLQ t (out_Version out);
      fun t => putVLQ t (Z.of_nat (length (PkScript out))); put_copy (PkScript out)]) es).
  { clear Hn. induction H as [|out outs (Hv & Hver & Hs) _ (es & He & IH)]; [exists []; done|].
    exists ([encodeVLQ (compressTxOutAmount (u64 (Value out))); encodeVLQ (out_Version out);
      encodeVLQ (Z.of_nat (length (PkScript out))); PkScript out] ++ es).
    split; [rewrite concat_app, He; cbn; unfold encodeMinimal; by rewrite app_nil_r, <- !app_assoc|].
    rewrite bind_cons. apply Forall2_app; [|done].
    repeat constructor; try apply puts_vlq; try apply puts_copy;
      (apply compress_u64 || (unfold is_u64, is_u16 in *; lia)). }
  destruct Hps as (es & <- & Hps). apply (put_seq_puts _ (encodeVLQ (Z.of_nat (length outs)) :: es)).
  constructor; [|done]. apply puts_vlq. unfold is_u64. lia.
Qed.

Lemma to_int_small n : 0 <= n < 2 ^ 63 -> to_int n = Ok (Z.to_nat n).
Proof.
  intros H. unfold to_int. rewrite i64_small by (unfold is_i64; lia). by destruct (Z.ltb_spec n 0); [lia|].
Qed.

Lemma sub_slice_mid {E A} (a b c : list A) :
  sub_slice (E := E) (a ++ b ++ c) (length a) (length a + length b) = Ok b.
Proof.
  rewrite sub_slice_Ok by (rewrite !length_app; lia).
  replace (length a + length b - length a)%nat with (length b) by lia.
  by rewrite drop_app_length, take_app_length.
Qed.

(** The three numbers in front of a script, and where the script starts. *)
Lemma minimal_fields pre out rest : out_ok out ->
  let s := pre ++ encodeMinimal out ++ rest in
  exists o1 o2 o3, nextVLQ s (length pre) = Ok (compressTxOutAmount (u64 (Value out)), o1) /\
    nextVLQ s o1 = Ok (out_Version out, o2) /\ nextVLQ s o2 = Ok (Z.of_nat (length (PkScript out)), o3) /\
    (o3 + length (PkScript out))%nat = length (pre ++ encodeMinimal out) /\
    sub_slice (E := chainError) s o3 (o3 + length (PkScript out)) = Ok (PkScript out).
Proof.
  intros (Hv & Hver & Hs). cbn zeta. unfold encodeMinimal. rewrite <- !app_assoc.
  eexists _, _, _. split; [apply nextVLQ_encode, compress_u64|].
  split; [rewrite app_assoc; apply nextVLQ_encode; unfold is_u16, is_u64 in *; lia|].
  split; [rewrite app_assoc, (app_assoc (pre ++ _)); apply nextVLQ_encode; unfold is_u64; lia|].
  split; [rewrite !length_app; lia|].
  rewrite app_assoc, (app_assoc (pre ++ _)), (app_assoc ((pre ++ _) ++ _)). apply sub_slice_mid.
Qed.

Lemma readMinimalOutput_encode pre out rest : out_ok out ->
  readMinimalOutput (pre ++ encodeMinimal out ++ rest) (length pre) =
    Ok (minimalOf out, length (pre ++ encodeMinimal out)).
Proof.
  intros Hok. destruct (minimal_fields pre out rest Hok) as (o1 & o2 & o3 & E1 & E2 & E3 & El & Es).
  destruct Hok as (Hv & Hver & Hs). unfold readMinimalOutput.
  rewrite E1. cbn [mbind res_bind]. rewrite E2. cbn [mbind res_bind]. rewrite E3. cbn [mbind res_bind].
  rewrite to_int_small by lia. cbn [mbind res_bind]. rewrite Nat2Z.id, Es. cbn [mbind res_bind].
  rewrite u64_small, decompress_compress, i64_small, u16_small by (unfold is_u64, is_i64; (done || lia)).
  by rewrite El.
Qed.

Lemma readMinimalOutputs_encode outs pre rest : Forall out_ok outs ->
  readMinimalOutputs (length outs) (pre ++ concat (encodeMinimal <$> outs) ++ rest) (length pre) =
    Ok (minimalOf <$> outs, length (pre ++ concat (encodeMinimal <$> outs))).
Proof.
  intros H. revert pre. induction H as [|out outs Ho _ IH]; intros pre; cbn [length readMinimalOutputs fmap list_fmap concat].
  { by rewrite app_nil_r. }
  rewrite <- app_assoc, readMinimalOutput_encode by done. cbn [mbind res_bind].
  rewrite (app_assoc pre), IH. cbn [mbind res_bind]. by rewrite <- app_assoc.
Qed.

Lemma deserializeToMinimalOutputs_encode outs rest : Forall out_ok outs -> Z.of_nat (length outs) < 2 ^ 63 ->
  deserializeToMinimalOutputs (encodeMinimals outs ++ rest) = Ok (minimalOf <$> outs, length (encodeMinimals outs)).
Proof.
  intros H Hn. unfold deserializeToMinimalOutputs, encodeMinimals. rewrite <- app_assoc.
  rewrite deserialize_encode by (unfold is_u64; lia). rewrite to_int_small by lia. cbn [mbind res_bind].
  rewrite Nat2Z.id. by apply readMinimalOutputs_encode.
Qed.

Lemma skipMinimalOutputs_encode outs pre rest : Forall out_ok outs ->
  Z.of_nat (length (pre ++ concat (encodeMinimal <$> outs))) < 2 ^ 63 ->
  skipMinimalOutputs (length outs) (pre ++ concat (encodeMinimal <$> outs) ++ rest) (Z.of_nat (length pre)) =
    Ok (Z.of_nat (length (pre ++ concat (encodeMinimal <$> outs)))).
Proof.
  intros H. revert pre. induction H as [|out outs Hok _ IH]; intros pre Hl;
    cbn [length skipMinimalOutputs fmap list_fmap concat].
  { by rewrite app_nil_r. }
  cbn [fmap list_fmap concat] in Hl. rewrite app_assoc, length_app in Hl.
  destruct (minimal_fields pre out (concat (encodeMinimal <$> outs) ++ rest) Hok) as (o1 & o2 & o3 & E1 & E2 & E3 & El & _).
  destruct (Z.ltb_spec (Z.of_nat (length pre)) 0); [lia|]. rewrite Nat2Z.id.
  rewrite <- (app_assoc (encodeMinimal out)), E1. cbn [mbind res_bind].
  rewrite E2. cbn [mbind res_bind]. rewrite E3. cbn [mbind res_bind].
  apply (f_equal Z.of_nat) in El. rewrite Nat2Z.inj_add in El.
  rewrite !i64_small by (unfold is_i64; rewrite ?i64_small; unfold is_i64; destruct Hok as (_ & _ & ?); lia).
  rewrite El, (app_assoc pre (encodeMinimal out) (_ ++ rest)), IH by (rewrite length_app; lia).
  by rewrite <- app_assoc.
Qed.

Lemma readSize_encode outs rest : Forall out_ok outs -> Z.of_nat (length (encodeMinimals outs)) < 2 ^ 63 ->
  Z.of_nat (length outs) < 2 ^ 63 ->
  readDeserializeSizeOfMinimalOutputs (encodeMinimals outs ++ rest) = Ok (Z.of_nat (length (encodeMinimals outs))).
Proof.
  intros H Hl Hn. unfold readDeserializeSizeOfMinimalOutputs, encodeMinimals in *. rewrite <- app_assoc.
  rewrite deserialize_encode by (unfold is_u64; lia). rewrite i64_small by (unfold is_i64; lia). rewrite Nat2Z.id.
  by apply skipMinimalOutputs_encode.
Qed.

(** ** The spend journal is read back *)

(** The outputs of a ticket as they are kept. *)
Definition extra_ok (extra : bytes) : Prop :=
  exists outs, extra = encodeMinimals outs /\ Forall out_ok outs /\
    Z.of_nat (length (encodeMinimals outs)) < 2 ^ 63 /\ Z.of_nat (length outs) < 2 ^ 63.

(** What [connectTransaction] appends: the details of the containing transaction are there
    exactly when it was fully spent, and the script is not compressed. *)
Definition stxo_ok (stxo : spentTxOut) : Prop :=
  is_u16 (st_scriptVersion stxo) /\ storable (st_pkScript stxo) /\ st_compressed stxo = false /\
  (if st_txFullySpent stxo then
     is_u16 (st_txVersion stxo) /\
     (if decide (st_txType stxo = TxTypeSStx) then extra_ok (st_stakeExtra stxo) else st_stakeExtra stxo = [])
   else st_txVersion stxo = 0 /\ st_txType stxo = TxTypeRegular /\ st_isCoinBase stxo = false /\
        st_hasExpiry stxo = false /\ st_stakeExtra stxo = []).

Section journal.
Context {PubKey : Type} (ParsePubKey : bytes -> option PubKey).
#[local] Notation compressed := (compressed ParsePubKey).

(** The entry that comes back: compressed, with the amount and position of the input. *)
Definition stored (txIn : TxIn) (stxo : spentTxOut) : spentTxOut :=
  MkStxo (compressed (st_pkScript stxo)) (st_stakeExtra stxo) (ValueIn txIn) (st_txVersion stxo)
    (BlockHeight txIn) (BlockIndex txIn) (st_scriptVersion stxo) (st_txType stxo) (st_txFullySpent stxo)
    (st_isCoinBase stxo) (st_hasExpiry stxo) true.

Definition spentTail (stxo : spentTxOut) : bytes :=
  if st_txFullySpent stxo then
    encodeVLQ (st_txVersion stxo) ++
    (if bool_decide (st_txType stxo = TxTypeSStx) then st_stakeExtra stxo else [])
  else [].

Definition stxoBytes (stxo : spentTxOut) : bytes :=
  encodeVLQ (stxoFlags stxo) ++
  encodeTxOut 0 (st_scriptVersion stxo) (compressed (st_pkScript stxo)) false ++ spentTail stxo.

Lemma txType_num t : 0 <= txTypeNum t < 4 /\ txTypeOf (txTypeNum t) = t.
Proof. by destruct t. Qed.

Lemma flags_byte a b t c : 0 <= encodeFlags a b (txTypeNum t) c < 32.
Proof. destruct a, b, t, c; vm_compute; split; congruence. Qed.

Lemma putSpentTxOut_puts stxo : stxo_ok stxo ->
  puts (fun t => putSpentTxOut ParsePubKey t stxo) (stxoBytes stxo).
Proof.
  intros (Hv & Hs & Hc & Hf). unfold putSpentTxOut, stxoBytes, spentTail. rewrite Hc.
  pose proof (flags_byte (st_isCoinBase stxo) (st_hasExpiry stxo) (st_txType stxo) (st_txFullySpent stxo)) as Hfl.
  fold (stxoFlags stxo) in Hfl.
  assert (P1 : puts (fun t => putVLQ t (stxoFlags stxo)) (encodeVLQ (stxoFlags stxo)))
    by (apply puts_vlq; unfold is_u64; lia).
  pose proof (putCompressedTxOut_puts ParsePubKey 0 (st_scriptVersion stxo) (st_pkScript stxo) false false Hv (fun _ => Hs)) as P2.
  set (e2 := encodeTxOut 0 (st_scriptVersion stxo) (compressed (st_pkScript stxo)) false).
  destruct (st_txFullySpent stxo).
  - destruct Hf as [Htv _].
    assert (P3 : puts (fun t => putVLQ t (st_txVersion stxo)) (encodeVLQ (st_txVersion stxo)))
      by (apply puts_vlq; unfold is_u16, is_u64 in *; lia).
    case_bool_decide.
    + apply (put_seq_concat _ [encodeVLQ (stxoFlags stxo); e2; encodeVLQ (st_txVersion stxo); st_stakeExtra stxo]);
        [repeat constructor; [exact P1|exact P2|exact P3|apply puts_copy]|cbn [concat app]; by rewrite app_nil_r].
    + apply (put_seq_concat _ [encodeVLQ (stxoFlags stxo); e2; encodeVLQ (st_txVersion stxo)]);
        [repeat constructor; [exact P1|exact P2|exact P3]|done].
  - apply (put_seq_concat _ [encodeVLQ (stxoFlags stxo); e2]); [repeat constructor; [exact P1|exact P2]|done].
Qed.

Lemma stxo_size stxo : stxo_ok stxo -> spentTxOutSerializeSize ParsePubKey stxo = Z.of_nat (length (stxoBytes stxo)).
Proof.
  intros (Hv & Hs & Hc & Hf). unfold spentTxOutSerializeSize, stxoBytes, spentTail. rewrite Hc.
  pose proof (flags_byte (st_isCoinBase stxo) (st_hasExpiry stxo) (st_txType stxo) (st_txFullySpent stxo)) as Hfl.
  fold (stxoFlags stxo) in Hfl.
  rewrite size_encodeTxOut, serializeSizeVLQ_spec by (done || unfold is_u64; lia).
  assert (Ee : forall a, encodeTxOut a (st_scriptVersion stxo) (compressed (st_pkScript stxo)) false =
    encodeTxOut 0 (st_scriptVersion stxo) (compressed (st_pkScript stxo)) false) by reflexivity.
  rewrite Ee, !length_app. destruct (st_txFullySpent stxo); [|cbn; lia].
  destruct Hf as [Htv _]. rewrite serializeSizeVLQ_spec by (unfold is_u16, is_u64 in *; lia).
  case_bool_decide; rewrite !length_app; cbn [length]; lia.
Qed.

Lemma decodeFullySpent_encode pre stxo rest txIn : stxo_ok stxo -> st_txFullySpent stxo = true ->
  (0 < length pre)%nat ->
  decodeFullySpent (pre ++ spentTail stxo ++ rest)
    (MkStxo (compressed (st_pkScript stxo)) [] (ValueIn txIn) 0 (BlockHeight txIn) (BlockIndex txIn)
       (st_scriptVersion stxo) (st_txType stxo) true (st_isCoinBase stxo) (st_hasExpiry stxo) true) (length pre) =
  Ok (stored txIn stxo, length (pre ++ spentTail stxo)).
Proof.
  intros (_ & _ & _ & Hf) Hfs Hpre. unfold spentTail. rewrite Hfs in *. destruct Hf as [Htv Hx].
  unfold decodeFullySpent. rewrite <- app_assoc, nextVLQ_encode by (unfold is_u16, is_u64 in *; lia).
  cbn [mbind res_bind]. rewrite !length_app.
  destruct (Nat.eqb_spec (length pre + length (encodeVLQ (st_txVersion stxo))) 0); [lia|]. cbn [orb].
  match goal with |- context [(?a <? ?b)%nat] => destruct (Nat.ltb_spec a b); [lia|] end.
  cbn [guard_err mbind res_bind st_txType st_pkScript st_stakeExtra st_amount st_height st_index st_scriptVersion
    st_txFullySpent st_isCoinBase st_hasExpiry st_compressed st_txVersion].
  rewrite u16_small by done. unfold stored. rewrite Hfs. case_bool_decide as Ht.
  - rewrite decide_True in Hx by done. destruct Hx as (outs & Hx & Hok & Hl1 & Hl2).
    rewrite <- (length_app pre), (app_assoc pre), slice_from_app. cbn [mbind res_bind].
    rewrite Hx, readSize_encode by done. cbn [mbind res_bind].
    assert (Hpos : (1 <= length (encodeMinimals outs))%nat).
    { unfold encodeMinimals. rewrite length_app. pose proof (length_encodeVLQ (Z.of_nat (length outs))) as Hv.
      specialize (Hv ltac:(unfold is_u64; lia)). lia. }
    destruct (Z.eqb_spec (Z.of_nat (length (encodeMinimals outs))) 0); [lia|]. cbn [orb]. rewrite (length_app (encodeMinimals outs)).
    destruct (Z.ltb_spec (Z.of_nat (length (encodeMinimals outs))) 0); [lia|].
    destruct (Z.ltb_spec (Z.of_nat (length (encodeMinimals outs) + length rest))
      (Z.of_nat (length (encodeMinimals outs)))); [lia|]. cbn [guard_err mbind res_bind].
    rewrite Nat2Z.id, take_app_length. do 2 f_equal. rewrite !length_app. lia.
  - rewrite decide_False in Hx by done. rewrite Hx. do 2 f_equal. cbn. lia.
Qed.

Lemma decodeSpentTxOut_encode stxo rest txIn : stxo_ok stxo ->
  decodeSpentTxOut (stxoBytes stxo ++ rest) zeroStxo (ValueIn txIn) (BlockHeight txIn) (BlockIndex txIn) =
    Ok (stored txIn stxo, length (stxoBytes stxo)).
Proof.
  intros Hok. pose proof Hok as (Hv & Hs & Hc & Hf). unfold decodeSpentTxOut, stxoBytes.
  pose proof (flags_byte (st_isCoinBase stxo) (st_hasExpiry stxo) (st_txType stxo) (st_txFullySpent stxo)) as Hfl.
  fold (stxoFlags stxo) in Hfl. assert (Hfu : is_u64 (stxoFlags stxo)) by (unfold is_u64; lia).
  set (fl := encodeVLQ (stxoFlags stxo)). set (e := encodeTxOut 0 (st_scriptVersion stxo) (compressed (st_pkScript stxo)) false).
  assert (Lfl : (1 <= length fl)%nat) by (by apply length_encodeVLQ).
  assert (Le : (1 <= length e)%nat).
  { unfold e, encodeTxOut, amountBytes. cbn [app]. rewrite length_app.
    pose proof (length_encodeVLQ (st_scriptVersion stxo) ltac:(unfold is_u16, is_u64 in *; lia)). lia. }
  rewrite <- !app_assoc. rewrite (length_app fl). destruct (Nat.eqb_spec (length fl + length (e ++ spentTail stxo ++ rest)) 0); [lia|].
  cbn [guard_err mbind res_bind]. unfold fl at 1. rewrite deserialize_encode by done. fold fl.
  rewrite length_app. destruct (Nat.leb_spec (length fl + (length e + length (spentTail stxo ++ rest))) (length fl)); [lia|].
  cbn [guard_err mbind res_bind]. rewrite u8_small by (unfold is_u8; lia). rewrite drop_app_length.
  pose proof (decode_encodeTxOut ParsePubKey 0 (st_scriptVersion stxo) (st_pkScript stxo) false (spentTail stxo ++ rest)
    ltac:(lia) Hv Hs) as Hdec. fold e in Hdec. rewrite Hdec. cbn [map_err mbind res_bind].
  destruct (flags_roundtrip (st_isCoinBase stxo) (st_hasExpiry stxo) (txTypeNum (st_txType stxo)) (st_txFullySpent stxo))
    as [Hd1 Hd2]; [apply txType_num|]. fold (stxoFlags stxo) in Hd1, Hd2. unfold applyFlags.
  rewrite Hd2, Hd1, (proj2 (txType_num _)). rewrite <- (length_app fl e).
  destruct (st_txFullySpent stxo) eqn:Hfs; cbn [st_stakeExtra st_txVersion st_txType st_txFullySpent st_isCoinBase st_hasExpiry zeroStxo].
  - rewrite (app_assoc fl), decodeFullySpent_encode by (done || rewrite length_app; lia).
    by rewrite <- app_assoc.
  - destruct Hf as (E1 & E2 & E3 & E4 & E5). unfold stored, spentTail. rewrite Hfs, E1, E2, E3, E4, E5, app_nil_r. done.
Qed.

Lemma decodeInputs_app serialized l1 l2 st :
  decodeInputs serialized (l1 ++ l2) st = st' ← decodeInputs serialized l1 st; decodeInputs serialized l2 st'.
Proof.
  revert st. induction l1 as [|ti l1 IH]; intros [[stxos k] off]; [done|]. cbn.
  destruct (k =? 0)%nat; [done|]. destruct (slice_from serialized off); cbn; [|done..].
  destruct (decodeSpentTxOut _ _ _ _ _) as [[]| |]; cbn; [|done..]. destruct (assign _ _ _); cbn; [apply IH|done..].
Qed.

(** The loop fills the slots below [m] from the back. *)
Lemma decodeInputs_encode rstx rins pre rest m tail :
  Forall2 (fun (stxo : spentTxOut) (_ : TxIn) => stxo_ok stxo) rstx rins -> (length rins <= m)%nat ->
  decodeInputs (pre ++ concat (stxoBytes <$> rstx) ++ rest) rins (replicate m zeroStxo ++ tail, m, length pre) =
    Ok (replicate (m - length rins) zeroStxo ++ rev (zip_with stored rins rstx) ++ tail,
        (m - length rins)%nat, length (pre ++ concat (stxoBytes <$> rstx))).
Proof.
  intros H. revert pre m tail. induction H as [|stxo ti rstx rins Hok _ IH]; intros pre m tail Hm; cbn [decodeInputs].
  { cbn. by rewrite Nat.sub_0_r, app_nil_r. }
  destruct m as [|m]; [cbn in Hm; lia|]. cbn [Nat.eqb length]. rewrite slice_from_app. cbn [mbind res_bind].
  rewrite fmap_cons. cbn [concat]. rewrite <- app_assoc, decodeSpentTxOut_encode by done. cbn [mbind res_bind].
  replace (S m - 1)%nat with m by lia. rewrite replicate_S_end, <- app_assoc. cbn [app].
  rewrite <- (length_replicate m zeroStxo) at 2. rewrite assign_middle. cbn [mbind res_bind].
  rewrite (app_assoc pre), <- (length_app pre), IH by (cbn in Hm; lia). cbn [Nat.sub zip_with rev].
  by rewrite <- !app_assoc.
Qed.

Lemma stxoBytes_pos stxo : stxo_ok stxo -> (1 <= length (stxoBytes stxo))%nat.
Proof.
  intros _. unfold stxoBytes. rewrite length_app.
  pose proof (flags_byte (st_isCoinBase stxo) (st_hasExpiry stxo) (st_txType stxo) (st_txFullySpent stxo)) as Hfl.
  fold (stxoFlags stxo) in Hfl. pose proof (length_encodeVLQ (stxoFlags stxo) ltac:(unfold is_u64; lia)). lia.
Qed.

Lemma writeJournal l pre rest : Forall stxo_ok l -> (length (concat (stxoBytes <$> l)) <= length rest)%nat ->
  foldM (fun st stxoSize =>
        let '(serialized, oldOffset) := st in
        '(serialized, offset) ← map_err (fun _ => CompressError)
          (put_from oldOffset (fun t => putSpentTxOut ParsePubKey t stxoSize.1) serialized);
        _ ← guard_err (negb (Z.of_nat offset - Z.of_nat oldOffset =? stxoSize.2)) AssertError;
        Ok (serialized, offset))
    (pre ++ rest, length pre) ((fun s => (s, spentTxOutSerializeSize ParsePubKey s)) <$> l) =
  Ok ((pre ++ concat (stxoBytes <$> l)) ++ drop (length (concat (stxoBytes <$> l))) rest,
      length (pre ++ concat (stxoBytes <$> l))).
Proof.
  intros H. revert pre rest. induction H as [|stxo l Hok _ IH]; intros pre rest Hl; rewrite ?fmap_cons; cbn [foldM concat fmap list_fmap].
  { by rewrite app_nil_r. }
  rewrite fmap_cons in Hl. cbn [concat] in Hl. rewrite length_app in Hl. cbn [fst snd].
  rewrite (puts_then _ _ _ _ (putSpentTxOut_puts stxo Hok)) by lia. cbn [map_err mbind res_bind].
  rewrite stxo_size by done. rewrite (length_app pre).
  destruct (Z.eqb_spec (Z.of_nat (length pre + length (stxoBytes stxo)) - Z.of_nat (length pre))
    (Z.of_nat (length (stxoBytes stxo)))); [|lia]. cbn [negb guard_err mbind res_bind].
  rewrite <- (length_app pre), IH by (rewrite length_drop; lia).
  rewrite drop_drop, (length_app (stxoBytes stxo)), <- !app_assoc. done.
Qed.

Lemma journal_sizes l n : Forall stxo_ok l ->
  foldl Z.add n (spentTxOutSerializeSize ParsePubKey <$> l) = n + Z.of_nat (length (concat (stxoBytes <$> rev l))).
Proof.
  assert (Hrev : length (concat (stxoBytes <$> rev l)) = length (concat (stxoBytes <$> l))).
  { induction l as [|x l IH]; [done|]. cbn [rev]. rewrite fmap_app, concat_app, length_app, IH.
    rewrite fmap_cons. cbn [concat fmap list_fmap]. rewrite !length_app. cbn. lia. }
  rewrite Hrev. clear Hrev. intros H. revert n. induction H as [|x l Hok _ IH]; intros n; [cbn; lia|].
  rewrite !fmap_cons. cbn [foldl concat]. rewrite IH, stxo_size, length_app by done. lia.
Qed.

Lemma serializeSpendJournalEntry_Ok stxos : Forall stxo_ok stxos ->
  serializeSpendJournalEntry ParsePubKey stxos = Ok (concat (stxoBytes <$> rev stxos)).
Proof.
  intros H. unfold serializeSpendJournalEntry. destruct stxos as [|x l] eqn:E; [done|]. rewrite <- E in *. clear x l E.
  assert (Hz : rev (zip stxos (spentTxOutSerializeSize ParsePubKey <$> stxos)) =
    (fun s => (s, spentTxOutSerializeSize ParsePubKey s)) <$> rev stxos).
  { clear H. induction stxos as [|x l IH]; [done|]. cbn [rev fmap list_fmap zip zip_with].
    rewrite fmap_app. cbn. f_equal. exact IH. }
  rewrite Hz, journal_sizes, Z.add_0_l by done.
  assert (Hr : Forall stxo_ok (rev stxos)) by (by apply Forall_rev).
  pose proof (writeJournal (rev stxos) [] (make (Z.of_nat (length (concat (stxoBytes <$> rev stxos))))) Hr) as Hw.
  unfold make in *. rewrite Nat2Z.id, length_replicate in *. cbn [app length] in Hw. rewrite Hw by done.
  cbn [mbind res_bind]. by rewrite drop_replicate, Nat.sub_diag, app_nil_r.
Qed.

Lemma rev_zip_with {A B C} (f : A -> B -> C) l k : length l = length k ->
  rev (zip_with f l k) = zip_with f (rev l) (rev k).
Proof.
  revert k. induction l as [|x l IH]; intros [|y k] Hl; try done. cbn in *.
  rewrite IH, zip_with_app by (rewrite ?length_rev; lia). done.
Qed.

Lemma numStxos_inputs tx ins : journalInputs tx = Ok ins -> numStxosOf tx = Ok (length ins).
Proof.
  unfold journalInputs, numStxosOf. intros H. apply bind_Ok in H as (t & Ht & H). rewrite Ht. cbn [mbind res_bind].
  case_bool_decide as Hg; injection H as <-; [|done]. subst t.
  pose proof (proj2 (proj1 (proj2 (DetermineTxType_class tx _ Ht))) eq_refl) as Hs.
  apply IsSSGen_true in Hs as [(i0 & i1 & ? & ? & -> & _) _]. done.
Qed.

Lemma count_journal txns inss n : Forall2 (fun tx ins => journalInputs tx = Ok ins) txns inss ->
  foldM (fun n tx => k ← stake_panic (numStxosOf tx); Ok (n + k)%nat) n txns = Ok (n + length (concat inss))%nat.
Proof.
  intros H. revert n. induction H as [|tx ins txns inss Hi _ IH]; intros n; cbn; [by rewrite Nat.add_0_r|].
  rewrite (numStxos_inputs tx ins Hi). cbn. rewrite IH, length_app. f_equal. lia.
Qed.

Lemma journal_loop serialized txns inss st : Forall2 (fun tx ins => journalInputs tx = Ok ins) txns inss ->
  foldM (fun st tx => ins ← stake_panic (journalInputs tx); decodeInputs serialized (rev ins) st) st (rev txns) =
  decodeInputs serialized (rev (concat inss)) st.
Proof.
  intros H. revert st. induction H as [|tx ins txns inss Hi _ IH]; intros st; [done|]. cbn [rev concat].
  rewrite foldM_app, IH, rev_app_distr, decodeInputs_app.
  destruct (decodeInputs serialized (rev (concat inss)) st); cbn [mbind res_bind]; [|done..].
  cbn [foldM]. rewrite Hi. cbn. by destruct (decodeInputs serialized (rev ins) a).
Qed.

(** The spend journal is read back.  For the outputs that connecting the transactions
    of a block spent, in order, writing the journal entry succeeds, and reading it with
    those transactions gives one entry per spending input, in order: the script compressed,
    the amount and position taken from the input, and the version, type, flags and ticket
    data of the containing transaction exactly when the output was its last unspent one. *)
Theorem spend_journal_roundtrip (txns : list MsgTx) (inss : list (list TxIn)) (stxos : list spentTxOut) :
  Forall2 (fun tx ins => journalInputs tx = Ok ins) txns inss ->
  Forall stxo_ok stxos -> length stxos = length (concat inss) ->
  exists b, serializeSpendJournalEntry ParsePubKey stxos = Ok b /\
    deserializeSpendJournalEntry b txns = Ok (zip_with stored (concat inss) stxos).
Proof.
  intros Hi Hok Hlen. eexists. split; [by apply serializeSpendJournalEntry_Ok|].
  unfold deserializeSpendJournalEntry. rewrite (count_journal _ _ 0 Hi), Nat.add_0_l. cbn [mbind res_bind].
  destruct stxos as [|x l] eqn:E; [destruct (concat inss); done|]. rewrite <- E in *.
  assert (Hpos : (1 <= length (concat (stxoBytes <$> rev stxos)))%nat).
  { rewrite E. cbn [rev]. rewrite fmap_app, concat_app, length_app. cbn. rewrite app_nil_r.
    assert (Hx : stxo_ok x) by (rewrite E in Hok; by apply Forall_cons_1 in Hok as []).
    pose proof (stxoBytes_pos x Hx). lia. }
  clear E. destruct (Nat.eqb_spec (length (concat (stxoBytes <$> rev stxos))) 0); [lia|].
  rewrite (journal_loop _ _ _ _ Hi).
  assert (Hall : Forall2 (fun (stxo : spentTxOut) (_ : TxIn) => stxo_ok stxo) (rev stxos) (rev (concat inss))).
  { apply Forall2_same_length_lookup_2; [by rewrite !length_rev|]. intros i s ti Hs _.
    by eapply Forall_lookup_1; [apply Forall_rev, Hok|exact Hs]. }
  pose proof (decodeInputs_encode _ _ [] [] (length (concat inss)) [] Hall ltac:(by rewrite length_rev)) as Hd.
  cbn [app length] in Hd. rewrite !app_nil_r in Hd. rewrite Hd. cbn [mbind res_bind].
  rewrite length_rev, Nat.sub_diag. cbn [replicate app]. f_equal.
  by rewrite rev_zip_with, !rev_involutive by (by rewrite !length_rev).
Qed.

End journal.

Definition sample_spent : spentTxOut :=
  MkStxo sample_p2pkh (encodeMinimals (tx_TxOut sample_ticket)) 100 1 7 3 0 TxTypeSStx true false true false.

Lemma sample_spent_ok : stxo_ok sample_spent.
Proof.
  repeat split; try (cbn; unfold is_u16; lia).
  cbn [st_txType sample_spent]. rewrite decide_True by done. exists (tx_TxOut sample_ticket).
  split; [done|]. split; [|vm_compute; split; congruence].
  repeat (apply Forall_cons_2; [unfold out_ok, is_u16; cbn [Value out_Version]; split; [lia|split; [lia|vm_compute; congruence]]|]).
  apply Forall_nil_2.
Qed.

Lemma spend_journal_roundtrip_witness : exists b,
  serializeSpendJournalEntry SampleKeys.ParsePubKey [sample_spent] = Ok b /\
  deserializeSpendJournalEntry b [sample_vote] =
    Ok (zip_with (stored SampleKeys.ParsePubKey) (concat [drop 1 (tx_TxIn sample_vote)]) [sample_spent]).
Proof.
  apply (spend_journal_roundtrip SampleKeys.ParsePubKey [sample_vote] [drop 1 (tx_TxIn sample_vote)] [sample_spent]).
  - apply Forall2_cons_2; [vm_compute; reflexivity|apply Forall2_nil_2].
  - apply Forall_cons_2; [exact sample_spent_ok|apply Forall_nil_2].
  - reflexivity.
Defined.

(** ** Unspent entries are read back *)

Definition isUnspent (entry : UtxoEntry) (i : Z) : Prop := IsOutputSpent entry i = false.
#[export] Instance isUnspent_dec entry i : Decision (isUnspent entry i).
Proof. unfold isUnspent. solve_decision. Defined.

(** The unspent outputs in the order of their indexes. *)
Definition unspentIndexes (entry : UtxoEntry) (n : nat) : list Z := filter (isUnspent entry) (seqZ 0 (2 + 8 * Z.of_nat n)).

Definition indexes_ok (entry : UtxoEntry) : Prop :=
  map_Forall (fun (i : Z) (_ : utxoOutput) => 0 <= i < 2 ^ 31) (sparseOutputs entry).

Lemma set_bits (g : nat -> bool) (l : list nat) acc k :
  Z.testbit (foldl (fun bits j => if g j then Z.lor bits (Z.shiftl 1 (Z.of_nat j)) else bits) acc l) (Z.of_nat k) =
    Z.testbit acc (Z.of_nat k) || existsb (fun j => (j =? k)%nat && g j) l.
Proof.
  revert acc. induction l as [|j l IH]; intros acc; cbn [foldl existsb]; [by rewrite orb_false_r|].
  rewrite IH, orb_assoc. f_equal. destruct (g j); [|by rewrite andb_false_r, orb_false_r].
  rewrite Z.lor_spec, Z.shiftl_spec, andb_true_r by lia. f_equal.
  destruct (Nat.eqb_spec j k) as [->|Hne]; [by rewrite Z.sub_diag|].
  destruct (Z.testbit 1 (Z.of_nat k - Z.of_nat j)) eqn:E; [|done].
  exfalso. destruct (Z.of_nat k - Z.of_nat j) as [|p|p] eqn:Ed; [lia|by destruct p|done].
Qed.

Lemma bit_set x k : 0 <= k -> negb (Z.land (Z.shiftr x k) 0x01 =? 0) = Z.testbit x k.
Proof.
  intros Hk. change 0x01 with (Z.ones 1). rewrite Z.land_ones, Z.shiftr_div_pow2, <- Z.testbit_spec' by lia.
  by destruct (Z.testbit x k).
Qed.

Lemma bits8 (g : nat -> bool) (h : nat -> Z) :
  omap (fun j =>
    if negb (Z.land (Z.shiftr (foldl (fun bits j => if g j then Z.lor bits (Z.shiftl 1 (Z.of_nat j)) else bits) 0
      (seq 0 8)) (Z.of_nat j)) 0x01 =? 0)
    then Some (h j) else None) (seq 0 8) =
  omap (fun j => if g j then Some (h j) else None) (seq 0 8).
Proof.
  set (x := foldl _ _ _). cut (forall k, k ∈ seq 0 8 -> negb (Z.land (Z.shiftr x (Z.of_nat k)) 0x01 =? 0) = g k).
  { generalize (seq 0 8) as l. induction l as [|j l IH]; intros H; [done|]. cbn [omap list_omap].
    rewrite (H j), IH by set_solver. done. }
  intros k Hk. rewrite bit_set by lia. unfold x. rewrite set_bits, Z.bits_0, orb_false_l.
  apply eq_iff_eq_true. rewrite existsb_exists. split.
  - intros (j & _ & E). apply andb_true_iff in E as [->%Nat.eqb_eq E]. done.
  - intros E. exists k. split; [by apply list_elem_of_In|]. by rewrite Nat.eqb_refl, E.
Qed.

Lemma filter_omap entry (h : nat -> Z) (l : list nat) :
  omap (fun j => if negb (IsOutputSpent entry (h j)) then Some (h j) else None) l = filter (isUnspent entry) (h <$> l).
Proof.
  induction l as [|j l IH]; [done|]. cbn [omap list_omap fmap list_fmap]. unfold filter in *. cbn [list_filter].
  destruct (IsOutputSpent entry (h j)) eqn:E; cbn [negb]; [rewrite decide_False|rewrite decide_True];
    unfold isUnspent; rewrite ?E; first [done | by f_equal].
Qed.

Lemma bitmapIndexes_byte entry i : 2 + Z.of_nat i * 8 + 8 <= 2 ^ 32 ->
  bitmapIndexes i (bitmapByte entry i) = filter (isUnspent entry) (seqZ (2 + 8 * Z.of_nat i) 8).
Proof.
  intros Hi. unfold bitmapIndexes, bitmapByte.
  rewrite (bits8 (fun j => negb (IsOutputSpent entry (u32 (2 + Z.of_nat i * 8 + Z.of_nat j))))).
  rewrite (filter_omap entry (fun j => u32 (2 + Z.of_nat i * 8 + Z.of_nat j))). f_equal.
  cbn [seq fmap list_fmap]. rewrite !u32_small by (unfold is_u32; lia).
  rewrite !seqZ_cons, (seqZ_nil _ _) by lia. repeat (f_equal; try lia).
Qed.

Lemma bitmap_indexes entry n k : 2 + Z.of_nat (n + k) * 8 <= 2 ^ 32 ->
  concat (imap (fun i => bitmapIndexes (i + k)) ((fun i => bitmapByte entry i) <$> seq k n)) =
  filter (isUnspent entry) (seqZ (2 + 8 * Z.of_nat k) (8 * Z.of_nat n)).
Proof.
  revert k. induction n as [|n IH]; intros k Hb; [done|]. cbn [seq fmap list_fmap]. rewrite imap_cons. cbn [concat].
  replace (8 * Z.of_nat (S n)) with (8 + 8 * Z.of_nat n) by lia. rewrite seqZ_app by lia.
  rewrite filter_app, Nat.add_0_l, bitmapIndexes_byte by lia. f_equal.
  replace (2 + 8 * Z.of_nat k + 8) with (2 + 8 * Z.of_nat (S k)) by lia. rewrite <- IH by lia.
  f_equal. apply imap_ext. intros i x _. unfold compose. by rewrite Nat.add_succ_r.
Qed.

Lemma all_indexes entry n : 2 + Z.of_nat n * 8 <= 2 ^ 32 ->
  (if negb (IsOutputSpent entry 0) then [0] else []) ++ (if negb (IsOutputSpent entry 1) then [1] else []) ++
    concat (imap bitmapIndexes ((fun i => bitmapByte entry i) <$> seq 0 n)) = unspentIndexes entry n.
Proof.
  intros Hn. pose proof (bitmap_indexes entry n 0 ltac:(rewrite Nat.add_0_r; lia)) as H.
  rewrite (imap_ext _ bitmapIndexes) in H by (intros; by rewrite Nat.add_0_r). rewrite H. clear H.
  unfold unspentIndexes. rewrite seqZ_app, filter_app by lia. cbn [Z.of_nat]. rewrite Z.add_0_l, Z.mul_0_r, Z.add_0_r, app_assoc.
  f_equal. rewrite !seqZ_cons, (seqZ_nil _ _) by lia. change (Z.succ 0) with 1. rewrite !filter_cons, filter_nil.
  destruct (decide (isUnspent entry 0)) as [H0|H0], (decide (isUnspent entry 1)) as [H1|H1];
    unfold isUnspent in *; apply not_false_is_true in H0 || rewrite H0; apply not_false_is_true in H1 || rewrite H1;
    try rewrite H0; try rewrite H1; done.
Qed.

Lemma outputOrder_spec entry :
  StronglySorted Z.le (outputOrder entry) /\ outputOrder entry ≡ₚ (map_to_list (sparseOutputs entry)).*1.
Proof. unfold outputOrder. split; [apply (StronglySorted_merge_sort _)|apply merge_sort_Permutation]. Qed.

Lemma elem_outputOrder entry i : i ∈ outputOrder entry <-> is_Some (sparseOutputs entry !! i).
Proof.
  rewrite (proj2 (outputOrder_spec entry)), list_elem_of_fmap. split.
  - intros ([k v] & -> & H). apply elem_of_map_to_list in H. by exists v.
  - intros [v H]. exists (i, v). by rewrite elem_of_map_to_list.
Qed.

Lemma last_outputOrder entry high i : last (outputOrder entry) = Some high -> i ∈ outputOrder entry -> i <= high.
Proof.
  intros Hl Hi. destruct (outputOrder_spec entry) as [Hs _]. apply last_Some in Hl as (l & E). rewrite E in *.
  apply elem_of_app in Hi as [Hi|Hi%list_elem_of_singleton]; [|lia].
  clear E. induction l as [|x l IH]; [set_solver|]. cbn in Hs. inversion Hs as [|?? Hs' Hf]; subst.
  apply elem_of_cons in Hi as [->|Hi]; [|auto]. rewrite Forall_app, Forall_singleton in Hf. tauto.
Qed.

Lemma sorted_filter {A} (R : A -> A -> Prop) (P : A -> Prop) `{!forall x, Decision (P x)} (l : list A) :
  StronglySorted R l -> StronglySorted R (filter P l).
Proof.
  induction 1 as [|x l _ IH Hf]; [constructor|]. rewrite filter_cons. destruct (decide (P x)); [|done].
  constructor; [done|]. apply Forall_forall. intros y Hy. rewrite list_elem_of_filter in Hy.
  rewrite Forall_forall in Hf. apply Hf, Hy.
Qed.

Lemma sorted_seqZ m n : StronglySorted Z.le (seqZ m n).
Proof.
  destruct (decide (0 <= n)) as [Hn|]; [|rewrite seqZ_nil by lia; constructor].
  revert m. pattern n. apply natlike_ind; [..|done]; clear; [constructor|].
  intros n Hn IH m. rewrite seqZ_cons by lia. rewrite Z.pred_succ. constructor; [done|].
  apply Forall_seqZ. lia.
Qed.

(** The indexes that the bitmap can hold are all the unspent ones, in order. *)
Lemma unspent_order entry n high : indexes_ok entry -> last (outputOrder entry) = Some high ->
  high < 2 + 8 * Z.of_nat n -> filter (isUnspent entry) (outputOrder entry) = unspentIndexes entry n.
Proof.
  intros Hok Hl Hn. destruct (outputOrder_spec entry) as [Hs Hp]. unfold unspentIndexes.
  apply (StronglySorted_unique Z.le).
  - by apply sorted_filter.
  - apply sorted_filter, sorted_seqZ.
  - apply NoDup_Permutation.
    + apply NoDup_filter. rewrite Hp. apply NoDup_fst_map_to_list.
    + apply NoDup_filter, NoDup_seqZ.
    + intros i. rewrite !list_elem_of_filter, elem_of_seqZ. split; intros [Hu Hi]; split; try done.
      * pose proof (last_outputOrder entry high i Hl Hi). apply elem_outputOrder in Hi as [v Hi]. specialize (Hok i v Hi). cbn in Hok. lia.
      * apply elem_outputOrder. unfold isUnspent, IsOutputSpent in Hu. destruct (sparseOutputs entry !! i); [eauto|done].
Qed.

Lemma unspentOutputs_indexes entry n high : indexes_ok entry -> last (outputOrder entry) = Some high ->
  high < 2 + 8 * Z.of_nat n ->
  unspentOutputs entry = omap (fun i => sparseOutputs entry !! i) (unspentIndexes entry n).
Proof.
  intros Hok Hl Hn. rewrite <- (unspent_order entry n high) by done. unfold unspentOutputs.
  clear Hl Hn. induction (outputOrder entry) as [|i l IH]; [done|]. rewrite filter_cons. cbn [omap list_omap].
  destruct (sparseOutputs entry !! i) as [out|] eqn:E.
  - rewrite filter_cons.
    destruct (decide (isUnspent entry i)) as [Hu|Hu]; unfold isUnspent, IsOutputSpent in Hu; rewrite E in Hu.
    + rewrite decide_True by done. cbn [omap list_omap]. rewrite E. by f_equal.
    + rewrite decide_False by done. done.
  - rewrite decide_False by (unfold isUnspent, IsOutputSpent; by rewrite E). done.
Qed.

Lemma headerCode_spec (b0 b1 : bool) m : 0 <= m < 2 ^ 32 ->
  let c := u64 (Z.shiftl m 2) in
  let c := if b0 then Z.lor c 0x01 else c in
  let c := if b1 then Z.lor c 0x02 else c in
  is_u64 c /\ negb (Z.land c 0x01 =? 0) = b0 /\ negb (Z.land c 0x02 =? 0) = b1 /\ Z.shiftr c 2 = m.
Proof.
  intros Hm. cbn zeta. rewrite u64_small by (rewrite Z.shiftl_mul_pow2; unfold is_u64; lia).
  assert (Hr : forall r, 0 <= r < 4 -> is_u64 (Z.lor (Z.shiftl m 2) r)).
  { intros r Hr. rewrite Z.shiftl_mul_pow2, lor_disjoint by lia. unfold is_u64. lia. }
  split.
  - destruct b0, b1; rewrite <- ?Z.lor_assoc; try (apply Hr; change (Z.lor 1 2) with 3; lia); try (apply Hr; lia).
    pose proof (Hr 0 ltac:(lia)) as H. rewrite Z.lor_0_r in H. exact H.
  - destruct m as [|p|p]; [| |lia]; destruct b0, b1; repeat split; reflexivity.
Qed.

(** What the header says about the entry: how long the bitmap is and which of the first
    two outputs are unspent. *)
Lemma utxoEntryHeaderCode_spec entry high : indexes_ok entry -> IsFullySpent entry = false ->
  last (outputOrder entry) = Some high ->
  exists code n, utxoEntryHeaderCode entry (u32 high) = Ok (code, n) /\
    is_u64 code /\ Z.of_nat n < 2 ^ 29 /\ high < 2 + 8 * Z.of_nat n /\
    negb (Z.land code 0x01 =? 0) = negb (IsOutputSpent entry 0) /\
    negb (Z.land code 0x02 =? 0) = negb (IsOutputSpent entry 1) /\
    (if negb (negb (IsOutputSpent entry 0)) && negb (negb (IsOutputSpent entry 1))
     then u64 (Z.shiftr code 2 + 1) else Z.shiftr code 2) = Z.of_nat n.
Proof.
  intros Hok Hfs Hl. assert (Hh : 0 <= high < 2 ^ 31).
  { assert (Hin : high ∈ outputOrder entry) by (apply last_Some in Hl as [l ->]; set_solver).
    apply elem_outputOrder in Hin as [out Hin]. exact (Hok high out Hin). }
  unfold utxoEntryHeaderCode. rewrite (u32_small high), (u32_small (high + 6)) by (unfold is_u32; lia).
  pose proof (Z.div_mod (high + 6) 8 ltac:(lia)). pose proof (Z.mod_pos_bound (high + 6) 8 ltac:(lia)).
  assert (Hq : 0 <= (high + 6) / 8 < 2 ^ 29) by lia.
  assert (Hn : high < 2 + 8 * ((high + 6) / 8)) by lia.
  set (q := (high + 6) / 8) in *.
  assert (Hz : negb (negb (IsOutputSpent entry 0)) && negb (negb (IsOutputSpent entry 1)) && (q =? 0) = false).
  { destruct (IsOutputSpent entry 0) eqn:E0, (IsOutputSpent entry 1) eqn:E1; try done. cbn.
    destruct (Z.eqb_spec q 0) as [Hq0|]; [|done]. exfalso. cut (IsFullySpent entry = true); [congruence|].
    unfold IsFullySpent. apply forallb_forall. intros out Hin%list_elem_of_In.
    apply list_elem_of_fmap in Hin as ([i o] & -> & Hin). apply elem_of_map_to_list in Hin. cbn.
    pose proof (Hok i o Hin) as Hi. cbn in Hi.
    assert (Hle : i <= high) by (apply (last_outputOrder entry); [done|apply elem_outputOrder; eauto]).
    assert (i = 0 \/ i = 1) as [-> | ->] by lia; unfold IsOutputSpent in *; [rewrite Hin in E0|rewrite Hin in E1]; done. }
  rewrite Hz. set (adj := if negb _ && negb _ then 1 else 0) in *.
  assert (Ha : 0 <= q - adj < 2 ^ 32).
  { unfold adj. destruct (negb (negb (IsOutputSpent entry 0)) && negb (negb (IsOutputSpent entry 1))); [|lia].
    cbn in Hz. destruct (Z.eqb_spec q 0); [done|lia]. }
  destruct (headerCode_spec (negb (IsOutputSpent entry 0)) (negb (IsOutputSpent entry 1)) (q - adj) Ha) as (H1 & H2 & H3 & H4).
  eexists _, _. split; [reflexivity|]. rewrite Z2Nat.id by lia. do 5 (split; [solve [exact H1 | lia | exact H2 | exact H3]|]). rewrite H4. unfold adj.
  destruct (negb (negb (IsOutputSpent entry 0)) && negb (negb (IsOutputSpent entry 1))); [|lia].
  rewrite u64_small; [lia|unfold is_u64; lia].
Qed.

Lemma nextField_encode pre n rest : is_u64 n -> (0 < length rest)%nat ->
  nextField (pre ++ encodeVLQ n ++ rest) (length pre) = Ok (n, length (pre ++ encodeVLQ n)).
Proof.
  intros Hn Hr. unfold nextField. rewrite nextVLQ_encode by done. cbn [mbind res_bind]. rewrite !length_app.
  match goal with |- context [(?a <=? ?b)%nat] => destruct (Nat.leb_spec a b); [lia|] end. done.
Qed.

Lemma nextField_first n rest : is_u64 n -> (0 < length rest)%nat ->
  nextField (encodeVLQ n ++ rest) 0 = Ok (n, length (encodeVLQ n)).
Proof. apply (nextField_encode []). Qed.

Section entries.
Context {PubKey : Type} (ParsePubKey : bytes -> option PubKey).
#[local] Notation compressed := (compressed ParsePubKey).

Definition packScript (out : utxoOutput) : bytes :=
  if uo_compressed out then uo_pkScript out else compressed (uo_pkScript out).

(** An output as it is stored. *)
Definition packOutput (out : utxoOutput) : utxoOutput :=
  MkOutput (packScript out) (uo_amount out) (uo_scriptVersion out) true false.

Definition packedOutputs (entry : UtxoEntry) : gmap Z utxoOutput :=
  omap (fun out => if uo_spent out then None else Some (packOutput out)) (sparseOutputs entry).

(** The entry that comes back: the unspent outputs only, their scripts compressed. *)
Definition packed (entry : UtxoEntry) : UtxoEntry :=
  MkEntry (packedOutputs entry) (stakeExtra entry) (e_txVersion entry) (e_height entry) (e_index entry)
    (e_txType entry) (e_isCoinBase entry) (e_hasExpiry entry) false.

(** A compressed script is one that compression produced. *)
Definition utxo_ok (out : utxoOutput) : Prop :=
  0 <= uo_amount out < 2 ^ 60 /\ is_u16 (uo_scriptVersion out) /\ storable (uo_pkScript out) /\
  (uo_compressed out = true -> exists s, storable s /\ uo_pkScript out = compressed s).

Definition entry_ok (entry : UtxoEntry) : Prop :=
  indexes_ok entry /\ map_Forall (fun _ out => uo_spent out = false -> utxo_ok out) (sparseOutputs entry) /\
  is_u16 (e_txVersion entry) /\ is_u32 (e_height entry) /\ is_u32 (e_index entry) /\
  (e_txType entry <> TxTypeSStx -> stakeExtra entry = []).

Definition outBytes (out : utxoOutput) : bytes :=
  encodeTxOut (uo_amount out) (uo_scriptVersion out) (packScript out) true.

Lemma outBytes_pos out : utxo_ok out -> (1 <= length (outBytes out))%nat.
Proof.
  intros _. unfold outBytes, encodeTxOut, amountBytes. rewrite length_app.
  pose proof (length_encodeVLQ _ (compress_u64 (uo_amount out))). lia.
Qed.

Lemma put_output out : utxo_ok out ->
  puts (fun t => putCompressedTxOut ParsePubKey t (u64 (uo_amount out)) (uo_scriptVersion out) (uo_pkScript out)
                   (uo_compressed out) true) (outBytes out) /\
  compressedTxOutSize ParsePubKey (u64 (uo_amount out)) (uo_scriptVersion out) (uo_pkScript out)
    (uo_compressed out) true = Z.of_nat (length (outBytes out)).
Proof.
  intros (Ha & Hv & Hs & _). rewrite u64_small by (unfold is_u64; lia). unfold outBytes, packScript. split.
  - by apply putCompressedTxOut_puts.
  - by apply size_encodeTxOut.
Qed.

Lemma decode_output out rest : utxo_ok out ->
  decodeCompressedTxOut (outBytes out ++ rest) true =
    Ok (uo_amount out, uo_scriptVersion out, packScript out, length (outBytes out)).
Proof.
  intros (Ha & Hv & Hs & Hc). unfold outBytes, packScript. destruct (uo_compressed out).
  - destruct (Hc eq_refl) as (s & Hss & ->). apply (decode_encodeTxOut ParsePubKey _ _ s true); done.
  - apply (decode_encodeTxOut ParsePubKey _ _ _ true); done.
Qed.

Lemma size_outputs outs n : Forall utxo_ok outs ->
  foldl (fun size out =>
    size + compressedTxOutSize ParsePubKey (u64 (uo_amount out)) (uo_scriptVersion out) (uo_pkScript out)
             (uo_compressed out) true) n outs = n + Z.of_nat (length (concat (outBytes <$> outs))).
Proof.
  intros H. revert n. induction H as [|out outs Ho _ IH]; intros n; [cbn; lia|].
  rewrite fmap_cons. cbn [foldl concat]. rewrite IH, (proj2 (put_output out Ho)), length_app. lia.
Qed.

(** Reading the outputs inserts them one by one. *)
Lemma decodeOutputs_encode (m : gmap Z utxoOutput) idxs pre rest outs :
  Forall (fun i => exists out, m !! i = Some out /\ utxo_ok out) idxs ->
  decodeOutputs (pre ++ concat (outBytes <$> omap (fun i => m !! i) idxs) ++ rest) idxs (length pre) outs =
    Ok (foldl (fun outs i => partial_alter (fun _ => packOutput <$> m !! i) i outs) outs idxs,
        length (pre ++ concat (outBytes <$> omap (fun i => m !! i) idxs))).
Proof.
  intros H. revert pre outs. induction H as [|i idxs (out & Hi & Ho) _ IH]; intros pre outs.
  { cbn. by rewrite app_nil_r. }
  cbn [decodeOutputs omap list_omap foldl]. rewrite Hi, fmap_cons. cbn [concat]. rewrite <- app_assoc, slice_from_app.
  cbn [mbind res_bind]. rewrite decode_output by done. cbn [map_err mbind res_bind].
  rewrite <- (length_app pre), app_assoc, IH, <- app_assoc. done.
Qed.

Lemma foldl_inserts (g : Z -> option utxoOutput) idxs outs j :
  foldl (fun outs i => partial_alter (fun _ => g i) i outs) outs idxs !! j =
    if decide (j ∈ idxs) then g j else (outs : gmap Z utxoOutput) !! j.
Proof.
  revert outs. induction idxs as [|i idxs IH]; intros outs; cbn [foldl].
  { by rewrite decide_False by set_solver. }
  rewrite IH. destruct (decide (j ∈ idxs)); [by rewrite decide_True by set_solver|].
  destruct (decide (i = j)) as [->|Hne].
  - by rewrite lookup_partial_alter_eq, decide_True by set_solver.
  - by rewrite lookup_partial_alter_ne, decide_False by set_solver.
Qed.

Lemma packed_inserts entry n high : indexes_ok entry -> last (outputOrder entry) = Some high ->
  high < 2 + 8 * Z.of_nat n ->
  foldl (fun outs i => partial_alter (fun _ => packOutput <$> sparseOutputs entry !! i) i outs) ∅
    (unspentIndexes entry n) = packedOutputs entry.
Proof.
  intros Hok Hl Hn. apply map_eq. intros j. rewrite foldl_inserts, <- (unspent_order entry n high) by done.
  unfold packedOutputs. rewrite lookup_omap, lookup_empty.
  destruct (decide (j ∈ filter (isUnspent entry) (outputOrder entry))) as [Hj|Hj];
    rewrite list_elem_of_filter, elem_outputOrder in Hj; unfold isUnspent, IsOutputSpent in Hj.
  - destruct Hj as [Hu [out E]]. rewrite E in *. cbn. by rewrite Hu.
  - destruct (sparseOutputs entry !! j) as [out|] eqn:E; [|done]. cbn. destruct (uo_spent out); [done|].
    exfalso. apply Hj. split; [done|eauto].
Qed.

Definition bitmap (entry : UtxoEntry) (n : nat) : bytes := (fun i => bitmapByte entry i) <$> seq 0 n.

Definition entryExtra (entry : UtxoEntry) : bytes :=
  if bool_decide (e_txType entry = TxTypeSStx) then stakeExtra entry else [].

(** What is written after the header. *)
Definition entryBody (entry : UtxoEntry) (n : nat) : bytes :=
  bitmap entry n ++ concat (outBytes <$> unspentOutputs entry) ++ entryExtra entry.

Definition entryBytes (entry : UtxoEntry) (code : Z) (n : nat) : bytes :=
  encodeVLQ (e_txVersion entry) ++ encodeVLQ (e_height entry) ++ encodeVLQ (e_index entry) ++
  encodeVLQ (entryFlags entry) ++ encodeVLQ code ++ entryBody entry n.

Lemma length_bitmap entry n : length (bitmap entry n) = n.
Proof. unfold bitmap. by rewrite length_fmap, length_seq. Qed.

Lemma concat_singles (l : bytes) : concat ((fun b => [b]) <$> l) = l.
Proof. induction l as [|b l IH]; [done|]. cbn. f_equal. exact IH. Qed.

Lemma unspentOutputs_ok entry : entry_ok entry -> Forall utxo_ok (unspentOutputs entry).
Proof.
  intros (_ & Ho & _). apply Forall_forall. intros out. unfold unspentOutputs.
  rewrite list_elem_of_filter, list_elem_of_omap. intros (Hs & i & _ & Hi). exact (Ho i out Hi Hs).
Qed.

Lemma entryFlags_byte entry : 0 <= entryFlags entry < 32.
Proof. apply flags_byte. Qed.

Lemma serializeUtxoEntry_Ok entry high code n : entry_ok entry -> IsFullySpent entry = false ->
  last (outputOrder entry) = Some high -> utxoEntryHeaderCode entry (u32 high) = Ok (code, n) -> is_u64 code ->
  serializeUtxoEntry ParsePubKey entry = Ok (entryBytes entry code n).
Proof.
  intros Hok Hfs Hl Hc Hcu. unfold serializeUtxoEntry. rewrite Hfs, Hl. cbn [or_panic mbind res_bind]. rewrite Hc.
  cbn [mbind res_bind]. pose proof (unspentOutputs_ok entry Hok) as Houts. rewrite size_outputs by done.
  destruct Hok as (_ & _ & Hv & Hh & Hx & _). pose proof (entryFlags_byte entry) as Hf.
  rewrite !serializeSizeVLQ_spec by (unfold is_u16, is_u32, is_u64 in *; lia).
  erewrite (put_seq_exact _ ([encodeVLQ (e_txVersion entry); encodeVLQ (e_height entry); encodeVLQ (e_index entry);
      encodeVLQ (entryFlags entry); encodeVLQ code] ++ ((fun b => [b]) <$> bitmap entry n) ++
      (outBytes <$> unspentOutputs entry) ++ (if bool_decide (e_txType entry = TxTypeSStx) then [stakeExtra entry] else []))).
  - cbn [map_err mbind res_bind]. f_equal. unfold entryBytes, entryBody, entryExtra.
    rewrite !concat_app. cbn [concat]. rewrite app_nil_r, <- !app_assoc. do 5 f_equal.
    rewrite concat_singles. do 2 f_equal. case_bool_decide; cbn; by rewrite ?app_nil_r.
  - apply Forall2_app; [repeat apply Forall2_cons_2; try apply Forall2_nil_2; apply puts_vlq;
      unfold is_u16, is_u32, is_u64 in *; lia|].
    apply Forall2_app; [|apply Forall2_app].
    + unfold bitmap. rewrite <- list_fmap_compose. apply Forall2_fmap, Forall_Forall2_diag, Forall_true.
      intros i. apply puts_byte.
    + apply Forall2_fmap_2, Forall_Forall2_diag. eapply Forall_impl; [exact Houts|]. intros out Ho. apply (put_output out Ho).
    + case_bool_decide; [apply Forall2_cons_2; [apply puts_copy|]|]; apply Forall2_nil_2.
  - rewrite !concat_app, !length_app. cbn [concat]. rewrite !length_app. cbn [length].
    rewrite concat_singles, length_bitmap.  case_bool_decide; cbn [concat]; rewrite ?length_app; cbn [length]; lia.
Qed.

Lemma deserializeUtxoEntry_Ok entry high code n : entry_ok entry -> IsFullySpent entry = false ->
  last (outputOrder entry) = Some high -> is_u64 code -> Z.of_nat n < 2 ^ 29 -> high < 2 + 8 * Z.of_nat n ->
  negb (Z.land code 0x01 =? 0) = negb (IsOutputSpent entry 0) ->
  negb (Z.land code 0x02 =? 0) = negb (IsOutputSpent entry 1) ->
  (if negb (negb (IsOutputSpent entry 0)) && negb (negb (IsOutputSpent entry 1))
   then u64 (Z.shiftr code 2 + 1) else Z.shiftr code 2) = Z.of_nat n ->
  (0 < length (entryBody entry n))%nat ->
  deserializeUtxoEntry (entryBytes entry code n) = Ok (packed entry).
Proof.
  intros Hok Hfs Hl Hcu Hn Hh H0 H1 Hq Hpos. pose proof Hok as (Hix & Hos & Hv & Hht & Hx & Hex).
  pose proof (entryFlags_byte entry) as Hf. unfold deserializeUtxoEntry, entryBytes.
  rewrite nextField_first by (rewrite ?length_app; (unfold is_u16, is_u64 in *; lia)). cbn [mbind res_bind].
  rewrite nextField_encode by (rewrite ?length_app; (unfold is_u32, is_u64 in *; lia)). cbn [mbind res_bind].
  rewrite app_assoc, nextField_encode by (rewrite ?length_app; (unfold is_u32, is_u64 in *; lia)). cbn [mbind res_bind].
  rewrite app_assoc, nextField_encode by (rewrite ?length_app; (unfold is_u64 in *; lia)). cbn [mbind res_bind].
  rewrite u8_small by (unfold is_u8; lia). unfold entryFlags at 1.
  rewrite (proj1 (flags_roundtrip _ _ _ _ (proj1 (txType_num (e_txType entry))))).
  rewrite app_assoc, nextField_encode by (done || lia). cbn [mbind res_bind].
  rewrite H0, H1, Hq, app_assoc, drop_app_length.
  pose proof (length_bitmap entry n) as Lb.
  destruct (Z.ltb_spec (Z.of_nat (length (entryBody entry n))) (Z.of_nat n)) as [Hlt|_].
  { unfold entryBody in Hlt. rewrite length_app, Lb in Hlt. lia. }
  cbn [guard_err mbind res_bind]. rewrite (u32_small (Z.of_nat n)), Nat2Z.id by (unfold is_u32; lia).
  set (pre := (((encodeVLQ (e_txVersion entry) ++ encodeVLQ (e_height entry)) ++ encodeVLQ (e_index entry)) ++
    encodeVLQ (entryFlags entry)) ++ encodeVLQ code). unfold entryBody.
  assert (Hsl : sub_slice (E := chainError) (pre ++ bitmap entry n ++ concat (outBytes <$> unspentOutputs entry) ++ entryExtra entry)
    (length pre) (length pre + n) = Ok (bitmap entry n)).
  { pose proof (sub_slice_mid (E := chainError) pre (bitmap entry n)
      (concat (outBytes <$> unspentOutputs entry) ++ entryExtra entry)) as H. rewrite Lb in H. exact H. }
  rewrite Hsl. cbn [mbind res_bind]. pose proof (all_indexes entry n ltac:(lia)) as Hall.
  fold (bitmap entry n) in Hall. rewrite Hall.
  rewrite (unspentOutputs_indexes entry n high) by done.
  replace (length pre + n)%nat with (length (pre ++ bitmap entry n)) by (rewrite length_app; lia).
  rewrite (app_assoc pre), decodeOutputs_encode.
  2: { apply Forall_forall. intros i. unfold unspentIndexes. rewrite list_elem_of_filter. intros [Hu _].
    unfold isUnspent, IsOutputSpent in Hu. destruct (sparseOutputs entry !! i) as [out|] eqn:E; [|done].
    exists out. split; [done|]. exact (Hos i out E Hu). }
  cbn [mbind res_bind]. rewrite (packed_inserts entry n high) by done. rewrite (proj2 (txType_num (e_txType entry))).
  rewrite app_assoc, slice_from_app. unfold packed, entryExtra.
  rewrite u16_small, !u32_small by done. case_bool_decide as Ht; cbn [mbind res_bind]; [done|]. by rewrite (Hex Ht).
Qed.

(** An entry of the unspent output set is read back.  Unless every output is spent,
    in which case nothing is written, serializing an entry succeeds, and what
    [deserializeUtxoEntry] makes of the bytes is the entry with its spent outputs left out
    and its scripts compressed: the bitmap names exactly the unspent outputs, whatever
    their number, and the version, the position, the flags and the ticket data survive. *)
Theorem utxo_entry_roundtrip (entry : UtxoEntry) : entry_ok entry -> IsFullySpent entry = false ->
  exists b, serializeUtxoEntry ParsePubKey entry = Ok b /\ b <> [] /\ deserializeUtxoEntry b = Ok (packed entry).
Proof.
  intros Hok Hfs. assert (Hu : exists i out, sparseOutputs entry !! i = Some out /\ uo_spent out = false).
  { apply not_true_iff_false in Hfs. apply dec_stable. intros Hn. apply Hfs. unfold IsFullySpent.
    apply forallb_forall. intros out Hin%list_elem_of_In. apply list_elem_of_fmap in Hin as ([i o] & -> & Hin).
    apply elem_of_map_to_list in Hin. cbn. destruct (uo_spent o) eqn:E; [done|]. exfalso. eauto. }
  destruct Hu as (i & out & Hi & Hout).
  destruct (last (outputOrder entry)) as [high|] eqn:Hl.
  2: { apply last_None in Hl. assert (Hin : i ∈ outputOrder entry) by (apply elem_outputOrder; eauto).
    rewrite Hl in Hin. set_solver. }
  destruct (utxoEntryHeaderCode_spec entry high (proj1 Hok) Hfs Hl) as (code & n & Hc & Hcu & Hn & Hh & H0 & H1 & Hq).
  assert (Hpos : (0 < length (entryBody entry n))%nat).
  { unfold entryBody. rewrite !length_app. assert (Hin : out ∈ unspentOutputs entry).
    { unfold unspentOutputs. rewrite list_elem_of_filter, list_elem_of_omap. split; [done|]. exists i.
      split; [apply elem_outputOrder; eauto|done]. }
    apply list_elem_of_split in Hin as (l1 & l2 & ->). rewrite fmap_app, fmap_cons, concat_app. cbn [concat].
    rewrite !length_app. pose proof (outBytes_pos out (proj1 (proj2 Hok) i out Hi Hout)). lia. }
  exists (entryBytes entry code n). split; [by apply (serializeUtxoEntry_Ok entry high)|].
  split; [|by apply (deserializeUtxoEntry_Ok entry high)].
  intros E%(f_equal length). unfold entryBytes in E. rewrite !length_app in E. cbn [length] in E. lia.
Qed.

End entries.

(** Two unspent outputs, the second one past the first byte of the bitmap, one spent. *)
Definition sample_outputs : gmap Z utxoOutput :=
  <[0 := MkOutput [] 5 0 false true]> (<[3 := MkOutput sample_p2pkh 70 0 false false]>
    (<[12 := MkOutput [] 9 0 false false]> ∅)).

Definition sample_entry : UtxoEntry := MkEntry sample_outputs [] 1 7 2 TxTypeRegular false true true.

Lemma sample_entry_ok : entry_ok SampleKeys.ParsePubKey sample_entry.
Proof.
  split; [|split]; [repeat apply map_Forall_insert_2; try apply map_Forall_empty; lia| |].
  - repeat apply map_Forall_insert_2; try apply map_Forall_empty; intros Hs; try discriminate Hs;
      (split; [cbn; lia|split; [unfold is_u16; cbn; lia|split; [vm_compute; reflexivity|discriminate]]]).
  - repeat split; try (cbn; lia).
Qed.

Lemma utxo_entry_roundtrip_witness : exists b,
  serializeUtxoEntry SampleKeys.ParsePubKey sample_entry = Ok b /\ b <> [] /\
  deserializeUtxoEntry b = Ok (packed SampleKeys.ParsePubKey sample_entry).
Proof.
  apply (utxo_entry_roundtrip SampleKeys.ParsePubKey sample_entry); [exact sample_entry_ok|vm_compute; reflexivity].
Defined.
