(* ===== verification/UtxoView.v ===== *)
(** * Views of the unspent outputs

    [blockchain/utxoviewpoint.go], with [IsCoinBaseTx] of [validate.go] and the counting
    functions of [chain.go].  A view is a finite map from transaction hashes to entries,
    where [Some None] is a nil entry; the entries are reached through the map only, so an
    update through a pointer is an update of the map.  An error leaves the view in Go half
    changed and its callers drop it, so the definitions return no view with an error.

    Parsing and serializing public keys, the hash that [hcashutil.Tx] returns and the test
    of the flag [hcashutil.BlockValid] are parameters. *)

From S2P Require Import Prelude WireCommon MsgTx Script StakeTx Compact Compress MsgBlock ChainIO.
From stdpp Require Import gmap list.
#[local] Open Scope Z_scope.
Import ScriptForm.

Definition ViewpointPrevRegular : Z := 0.
Definition ViewpointCurrentStake : Z := 1.
Definition ViewpointCurrentRegular : Z := 2.

Record UtxoViewpoint := MkView {
  entries : gmap bytes (option UtxoEntry);
  bestHash : bytes;
  stakeView : Z
}.

(** What the functions use of [hcashutil.Block]. *)
Record Block := MkUtilBlock {
  b_MsgBlock : MsgBlock;
  b_Height : Z;
  b_Hash : bytes
}.

Definition b_Transactions (block : Block) : list MsgTx := Transactions (b_MsgBlock block).
Definition b_STransactions (block : Block) : list MsgTx := STransactions (b_MsgBlock block).
Definition b_Header (block : Block) : BlockHeader := Header (b_MsgBlock block).

(** Whether the hash of the block meets its target. *)
Definition isKeyBlock (block : Block) : bool := meetsTarget (b_Hash block) (h_Bits (b_Header block)).

Definition with_entries (view : UtxoViewpoint) (es : gmap bytes (option UtxoEntry)) : UtxoViewpoint :=
  MkView es (bestHash view) (stakeView view).
Definition SetBestHash (view : UtxoViewpoint) (hash : bytes) : UtxoViewpoint :=
  MkView (entries view) hash (stakeView view).
Definition SetStakeViewpoint (view : UtxoViewpoint) (sv : Z) : UtxoViewpoint :=
  MkView (entries view) (bestHash view) sv.
Definition NewUtxoViewpoint : UtxoViewpoint := MkView ∅ zeroHash 0.

(** Both a missing and a nil entry are nil. *)
Definition LookupEntry (view : UtxoViewpoint) (txHash : bytes) : option UtxoEntry := mjoin (entries view !! txHash).

Definition set_entry (view : UtxoViewpoint) (txHash : bytes) (entry : UtxoEntry) : UtxoViewpoint :=
  with_entries view (<[txHash := Some entry]> (entries view)).

Definition with_outputs (entry : UtxoEntry) (outs : gmap Z utxoOutput) (m : bool) : UtxoEntry :=
  MkEntry outs (stakeExtra entry) (e_txVersion entry) (e_height entry) (e_index entry) (e_txType entry)
    (e_isCoinBase entry) (e_hasExpiry entry) m.

Definition with_extra (entry : UtxoEntry) (extra : bytes) : UtxoEntry :=
  MkEntry (sparseOutputs entry) extra (e_txVersion entry) (e_height entry) (e_index entry) (e_txType entry)
    (e_isCoinBase entry) (e_hasExpiry entry) (modified entry).

Definition with_position (entry : UtxoEntry) (height index : Z) : UtxoEntry :=
  MkEntry (sparseOutputs entry) (stakeExtra entry) (e_txVersion entry) height index (e_txType entry)
    (e_isCoinBase entry) (e_hasExpiry entry) (modified entry).

Definition set_spent (output : utxoOutput) (s : bool) : utxoOutput :=
  MkOutput (uo_pkScript output) (uo_amount output) (uo_scriptVersion output) (uo_compressed output) s.

(** ** Entries *)

Definition SpendOutput (entry : UtxoEntry) (outputIndex : Z) : UtxoEntry :=
  match sparseOutputs entry !! outputIndex with
  | None => entry
  | Some output =>
    if uo_spent output then entry
    else with_outputs entry (<[outputIndex := set_spent output true]> (sparseOutputs entry)) true
  end.

Definition AmountByIndex (entry : UtxoEntry) (outputIndex : Z) : Z :=
  match sparseOutputs entry !! outputIndex with
  | None => 0
  | Some output => uo_amount output
  end.

Definition ScriptVersionByIndex (entry : UtxoEntry) (outputIndex : Z) : Z :=
  match sparseOutputs entry !! outputIndex with
  | None => 0
  | Some output => uo_scriptVersion output
  end.

Definition Clone (entry : option UtxoEntry) : option UtxoEntry :=
  match entry with
  | None => None
  | Some entry => Some (with_outputs entry (sparseOutputs entry) false)
  end.

(** Fully spent entries that changed are dropped, the others become unmodified. *)
Definition commit (view : UtxoViewpoint) : UtxoViewpoint :=
  with_entries view
    (omap (fun entry =>
       match entry with
       | None => None
       | Some entry =>
         if modified entry && IsFullySpent entry then None
         else Some (Some (with_outputs entry (sparseOutputs entry) false))
       end) (entries view)).

(** [IsCoinBaseTx] of [validate.go]. *)
Definition IsCoinBaseTx (msgTx : MsgTx) : bool :=
  match tx_TxIn msgTx with
  | [txIn] =>
    let prevOut := PreviousOutPoint txIn in
    negb (negb (o_Index prevOut =? MaxUint32) || negb (bool_decide (o_Hash prevOut = zeroHash)))
  | _ => false
  end.

(** ** Loading entries *)

Definition fetchUtxosMain (db : gmap bytes bytes) (view : UtxoViewpoint) (txSet : gset bytes) :
    res chainError UtxoViewpoint :=
  foldM (fun view hash =>
    match entries view !! hash with
    | Some _ => Ok view
    | None =>
      entry ← dbFetchUtxoEntry db hash;
      Ok (with_entries view (<[hash := entry]> (entries view)))
    end) view (elements txSet).

Definition fetchUtxos (db : gmap bytes bytes) (view : UtxoViewpoint) (txSet : gset bytes) :
    res chainError UtxoViewpoint :=
  fetchUtxosMain db view (filter (fun hash => entries view !! hash = None) txSet).

Section view.
Context {PubKey : Type} (ParsePubKey : bytes -> option PubKey) (SerializeUncompressed : PubKey -> bytes).
Context (txHash : MsgTx -> bytes) (isBlockValid : Z -> bool).

(** ** Adding outputs *)

Definition maybeDecompress (o : utxoOutput) : res chainError utxoOutput :=
  if negb (uo_compressed o) then Ok o
  else
    pkScript ← map_err (fun _ => CompressError) (decompressScript ParsePubKey SerializeUncompressed (uo_pkScript o));
    Ok (MkOutput (default [] pkScript) (uo_amount o) (uo_scriptVersion o) false (uo_spent o)).

(** The script, and the entry in which the output is now decompressed. *)
Definition PkScriptByIndex (entry : UtxoEntry) (outputIndex : Z) : res chainError (bytes * UtxoEntry) :=
  match sparseOutputs entry !! outputIndex with
  | None => Ok ([], entry)
  | Some output =>
    output ← maybeDecompress output;
    Ok (uo_pkScript output,
        with_outputs entry (<[outputIndex := output]> (sparseOutputs entry)) (modified entry))
  end.

(** The outputs of a ticket in the form that is kept with its entry. *)
Definition minimalOutputsOf (tx : MsgTx) : res chainError bytes :=
  '(stakeExtra, _) ← map_err (fun _ => CompressError)
    (putTxToMinimalOutputs (make (serializeSizeForMinimalOutputs (tx_TxOut tx))) (tx_TxOut tx));
  Ok stakeExtra.

(** The entry of a transaction that is not in the view. *)
Definition freshEntry (tx : MsgTx) (blockHeight blockIndex : Z) : res chainError UtxoEntry :=
  txType ← stake_panic (DetermineTxType tx);
  let entry := newUtxoEntry (tx_Version tx) (u32 blockHeight) blockIndex (IsCoinBaseTx tx)
                 (negb (Expiry tx =? 0)) txType in
  if bool_decide (txType = TxTypeSStx) then extra ← minimalOutputsOf tx; Ok (with_extra entry extra)
  else Ok entry.

(** The loop over the outputs.  Every field of an output that is already there is
    overwritten, so both branches of the loop store the same output. *)
Definition addOutputs (outs : gmap Z utxoOutput) (txOuts : list TxOut) : gmap Z utxoOutput :=
  foldl (fun outs (iOut : nat * TxOut) =>
    let '(txOutIdx, txOut) := iOut in
    if IsUnspendable (Value txOut) (PkScript txOut) then outs
    else <[u32 (Z.of_nat txOutIdx) := MkOutput (PkScript txOut) (Value txOut) (out_Version txOut) false false]> outs)
    outs (zip (seq 0 (length txOuts)) txOuts).

Definition AddTxOuts (view : UtxoViewpoint) (tx : MsgTx) (blockHeight blockIndex : Z) :
    res chainError UtxoViewpoint :=
  entry ← match LookupEntry view (txHash tx) with
          | None => freshEntry tx blockHeight blockIndex
          | Some entry => Ok (with_position entry (u32 blockHeight) blockIndex)
          end;
  Ok (set_entry view (txHash tx) (with_outputs entry (addOutputs (sparseOutputs entry) (tx_TxOut tx)) true)).

(** ** Connecting *)

(** What is recorded about an output that was spent. *)
Definition spentDetails (entry : UtxoEntry) (txIn : TxIn) (scriptVersion : Z) (pkScript : bytes) : spentTxOut :=
  if IsFullySpent entry then
    MkStxo pkScript (if bool_decide (e_txType entry = TxTypeSStx) then stakeExtra entry else []) (ValueIn txIn)
      (e_txVersion entry) (e_height entry) (e_index entry) scriptVersion (e_txType entry) true
      (e_isCoinBase entry) (e_hasExpiry entry) false
  else MkStxo pkScript [] (ValueIn txIn) 0 0 0 scriptVersion TxTypeRegular false false false false.

Definition spendInput (st : UtxoViewpoint * option (list spentTxOut)) (txIn : TxIn) :
    res chainError (UtxoViewpoint * option (list spentTxOut)) :=
  let '(view, stxos) := st in
  let originHash := o_Hash (PreviousOutPoint txIn) in
  let originIndex := o_Index (PreviousOutPoint txIn) in
  match LookupEntry view originHash with
  | None => Err AssertError
  | Some entry =>
    let entry := SpendOutput entry originIndex in
    match stxos with
    | None => Ok (set_entry view originHash entry, None)
    | Some stxos =>
      let scriptVersion := ScriptVersionByIndex entry originIndex in
      '(pkScript, entry) ← PkScriptByIndex entry originIndex;
      Ok (set_entry view originHash entry, Some (stxos ++ [spentDetails entry txIn scriptVersion pkScript]))
    end
  end.

Definition connectTransaction (view : UtxoViewpoint) (tx : MsgTx) (blockHeight blockIndex : Z)
    (stxos : option (list spentTxOut)) : res chainError (UtxoViewpoint * option (list spentTxOut)) :=
  if IsCoinBaseTx tx then
    view ← AddTxOuts view tx blockHeight blockIndex;
    Ok (view, stxos)
  else
    ins ← stake_panic (journalInputs tx);
    '(view, stxos) ← foldM spendInput (view, stxos) ins;
    view ← AddTxOuts view tx blockHeight blockIndex;
    Ok (view, stxos).

(** [for i, tx := range txns { view.connectTransaction(tx, height, uint32(i), stxos) }] *)
Definition connectAll (height : Z) (st : UtxoViewpoint * option (list spentTxOut)) (txns : list MsgTx) :
    res chainError (UtxoViewpoint * option (list spentTxOut)) :=
  foldM (fun (st : UtxoViewpoint * option (list spentTxOut)) (iTx : nat * MsgTx) =>
    connectTransaction st.1 iTx.2 height (u32 (Z.of_nat iTx.1)) st.2) st (zip (seq 0 (length txns)) txns).

(** The loop that collects what the inputs of a regular tree need, for [fetchInputUtxos]:
    outputs of earlier transactions of the tree are added to the view. *)
Definition collectInputs (transactions : list MsgTx) (height : Z) (offset : nat) (view : UtxoViewpoint) :
    res chainError (UtxoViewpoint * gset bytes) :=
  let txInFlight : gmap bytes nat :=
    foldl (fun m (iTx : nat * MsgTx) => <[txHash iTx.2 := iTx.1]> m) ∅ (zip (seq 0 (length transactions)) transactions) in
  rest ← slice_from transactions offset;
  foldM (fun st (iTx : nat * MsgTx) =>
    foldM (fun (st : UtxoViewpoint * gset bytes) txIn =>
      let '(view, txNeededSet) := st in
      let originHash := o_Hash (PreviousOutPoint txIn) in
      let needed := match entries view !! originHash with
                    | Some _ => Ok st
                    | None => Ok (view, {[originHash]} ∪ txNeededSet)
                    end in
      match txInFlight !! originHash with
      | Some inFlightIndex =>
        if (inFlightIndex <? iTx.1 + offset)%nat then
          originTx ← or_panic (transactions !! inFlightIndex);
          view ← AddTxOuts view originTx height (u32 (Z.of_nat inFlightIndex));
          Ok (view, txNeededSet)
        else needed
      | None => needed
      end) st (tx_TxIn iTx.2)) (view, ∅) (zip (seq 0 (length rest)) rest).

(** The first input of a vote is skipped. *)
Definition neededInputs (tx : MsgTx) : res chainError (list TxIn) :=
  match IsSSGen tx with
  | Ok true => Ok (drop 1 (tx_TxIn tx))
  | Ok false | Err _ => Ok (tx_TxIn tx)
  | Panic => Panic
  end.

Definition fetchInputUtxos (db : gmap bytes bytes) (view : UtxoViewpoint) (block : Block) (parent : option Block) :
    res chainError UtxoViewpoint :=
  if stakeView view =? ViewpointPrevRegular then
    parent ← or_panic parent;
    '(view, txNeededSet) ← collectInputs (b_Transactions parent) (b_Height parent)
                             (if isKeyBlock parent then 2 else 1) view;
    fetchUtxosMain db view txNeededSet
  else if stakeView view =? ViewpointCurrentStake then
    txNeededSet ← foldM (fun (txNeededSet : gset bytes) tx =>
      ins ← neededInputs tx;
      Ok (foldl (fun (txNeededSet : gset bytes) txIn =>
            match entries view !! o_Hash (PreviousOutPoint txIn) with
            | Some _ => txNeededSet
            | None => {[o_Hash (PreviousOutPoint txIn)]} ∪ txNeededSet
            end) txNeededSet ins)) ∅ (b_STransactions block);
    fetchUtxosMain db view txNeededSet
  else if stakeView view =? ViewpointCurrentRegular then
    '(view, txNeededSet) ← collectInputs (b_Transactions block) (b_Height block)
                             (if isKeyBlock block then 2 else 1) view;
    fetchUtxosMain db view txNeededSet
  else Err InvalidViewpoint.

(** Whether the votes or the parent's hash make the parent's regular tree valid. *)
Definition parentTreeValid (block parent : Block) : bool :=
  isBlockValid (h_VoteBits (b_Header block)) || negb (isKeyBlock parent).

Definition connectTransactions (db : gmap bytes bytes) (view : UtxoViewpoint) (block : Block)
    (parent : option Block) (stxos : option (list spentTxOut)) :
    res chainError (UtxoViewpoint * option (list spentTxOut)) :=
  '(view, stxos) ←
    match parent with
    | Some parent =>
      if negb (b_Height block =? 0) then
        view ← fetchInputUtxos db (SetStakeViewpoint view ViewpointPrevRegular) block (Some parent);
        if parentTreeValid block parent then connectAll (b_Height parent) (view, stxos) (b_Transactions parent)
        else Ok (view, stxos)
      else Ok (view, stxos)
    | None => Ok (view, stxos)
    end;
  '(view, stxos) ← foldM (fun (st : UtxoViewpoint * option (list spentTxOut)) (iTx : nat * MsgTx) =>
      view ← fetchInputUtxos db (SetStakeViewpoint st.1 ViewpointCurrentStake) block parent;
      connectTransaction view iTx.2 (b_Height block) (u32 (Z.of_nat iTx.1)) st.2)
    (view, stxos) (zip (seq 0 (length (b_STransactions block))) (b_STransactions block));
  Ok (SetBestHash view (b_Hash block), stxos).

(** ** Disconnecting *)

(** [stxos[stxoIdx]] *)
Definition stxoAt (stxos : list spentTxOut) (stxoIdx : Z) : res chainError spentTxOut :=
  if stxoIdx <? 0 then Panic else or_panic (stxos !! Z.to_nat stxoIdx).

(** The entry of the transaction without any outputs, [fresh] when it is not in the view. *)
Definition clearTx (view : UtxoViewpoint) (tx : MsgTx) (fresh : res chainError UtxoEntry) :
    res chainError UtxoViewpoint :=
  entry ← match LookupEntry view (txHash tx) with None => fresh | Some entry => Ok entry end;
  Ok (set_entry view (txHash tx) (with_outputs entry ∅ true)).

(** The outputs of an entry with the output that an input spent unspent again. *)
Definition restoreOutput (entry : UtxoEntry) (txIn : TxIn) (stxo : spentTxOut) : UtxoEntry :=
  let originIndex := o_Index (PreviousOutPoint txIn) in
  let output :=
    match sparseOutputs entry !! originIndex with
    | None => MkOutput (st_pkScript stxo) (ValueIn txIn) (st_scriptVersion stxo) (st_compressed stxo) false
    | Some output => set_spent output false
    end in
  with_outputs entry (<[originIndex := output]> (sparseOutputs entry)) true.

(** The loop over the inputs, last one first; [revive] makes the entry of a transaction
    that is no longer in the view. *)
Fixpoint unspendInputs (revive : spentTxOut -> res chainError UtxoEntry) (stxos : list spentTxOut)
    (ins : list TxIn) (st : UtxoViewpoint * Z) : res chainError (UtxoViewpoint * Z) :=
  match ins with
  | [] => Ok st
  | txIn :: ins =>
    let '(view, stxoIdx) := st in
    stxo ← stxoAt stxos stxoIdx;
    let originHash := o_Hash (PreviousOutPoint txIn) in
    entry ← match LookupEntry view originHash with None => revive stxo | Some entry => Ok entry end;
    unspendInputs revive stxos ins (set_entry view originHash (restoreOutput entry txIn stxo), stxoIdx - 1)
  end.

(** The entry that [disconnectTransactions] revives, with the version of the transaction
    that spent it. *)
Definition reviveSpent (tx : MsgTx) (stxo : spentTxOut) : res chainError UtxoEntry :=
  if negb (st_txFullySpent stxo) then Err AssertError
  else
    let entry := newUtxoEntry (tx_Version tx) (st_height stxo) (st_index stxo) (st_isCoinBase stxo)
                   (st_hasExpiry stxo) (st_txType stxo) in
    Ok (if bool_decide (st_txType stxo = TxTypeSStx) then with_extra entry (st_stakeExtra stxo) else entry).

(** [countSpentOutputs] and [countNumberOfTransactions] of [chain.go]. *)
Definition countSpentOutputs (block parent : Block) : res chainError Z :=
  let regularTxTreeValid := isBlockValid (h_VoteBits (b_Header block)) in
  let startTx := if isKeyBlock parent then 2%nat else 1%nat in
  let numSpent :=
    if regularTxTreeValid then
      foldl (fun n tx => n + Z.of_nat (length (tx_TxIn tx))) 0 (drop startTx (b_Transactions parent))
    else 0 in
  if negb (isKeyBlock block) then Ok numSpent
  else
    foldM (fun numSpent stx =>
      txType ← stake_panic (DetermineTxType stx);
      if bool_decide (txType = TxTypeSSGen) || bool_decide (txType = TxTypeSSRtx) then Ok (numSpent + 1)
      else Ok (numSpent + Z.of_nat (length (tx_TxIn stx)))) numSpent (b_STransactions block).

Definition countNumberOfTransactions (block parent : Block) : Z :=
  let numTxns := if isBlockValid (h_VoteBits (b_Header block)) then Z.of_nat (length (b_Transactions parent)) else 0 in
  u64 (numTxns + Z.of_nat (length (b_STransactions block))).

(** One transaction of the stake tree. *)
Definition disconnectStakeTx (height : Z) (stxos : list spentTxOut) (st : UtxoViewpoint * Z) (iTx : nat * MsgTx) :
    res chainError (UtxoViewpoint * Z) :=
  let '(view, stxoIdx) := st in
  let '(txIdx, tx) := iTx in
  ins ← stake_panic (journalInputs tx);
  view ← clearTx view tx (freshEntry tx height (u32 (Z.of_nat txIdx)));
  unspendInputs (reviveSpent tx) stxos (rev ins) (view, stxoIdx).

(** One transaction of the regular tree. *)
Definition disconnectRegularTx (height : Z) (isPrevKeyBlock : bool) (stxos : list spentTxOut)
    (st : UtxoViewpoint * Z) (iTx : nat * MsgTx) : res chainError (UtxoViewpoint * Z) :=
  let '(view, stxoIdx) := st in
  let '(txIdx, tx) := iTx in
  let isCoinbase := (txIdx =? 0)%nat || ((txIdx =? 1)%nat && isPrevKeyBlock) in
  view ← clearTx view tx (Ok (newUtxoEntry (tx_Version tx) (u32 height) (u32 (Z.of_nat txIdx)) isCoinbase
                                (negb (Expiry tx =? 0)) TxTypeRegular));
  if isCoinbase then Ok (view, stxoIdx)
  else unspendInputs (reviveSpent tx) stxos (rev (tx_TxIn tx)) (view, stxoIdx).

Definition disconnectTransactions (db : gmap bytes bytes) (view : UtxoViewpoint) (block : Block)
    (parent : option Block) (stxos : list spentTxOut) : res chainError UtxoViewpoint :=
  parent ← or_panic parent;
  count ← countSpentOutputs block parent;
  _ ← guard_err (negb (Z.of_nat (length stxos) =? count)) AssertError;
  view ← fetchInputUtxos db (SetStakeViewpoint view ViewpointCurrentStake) block (Some parent);
  '(view, stxoIdx) ← foldM (disconnectStakeTx (b_Height block) stxos) (view, Z.of_nat (length stxos) - 1)
    (rev (zip (seq 0 (length (b_STransactions block))) (b_STransactions block)));
  view ← (if negb (b_Height block =? 0) && parentTreeValid block parent then
      view ← fetchInputUtxos db (SetStakeViewpoint view ViewpointPrevRegular) block (Some parent);
      '(view, _) ← foldM (disconnectRegularTx (b_Height parent) (isKeyBlock parent) stxos) (view, stxoIdx)
        (rev (zip (seq 0 (length (b_Transactions parent))) (b_Transactions parent)));
      Ok view
    else Ok view);
  Ok (SetBestHash view (b_Hash parent)).

(** The entry that [disconnectTransactionSlice] revives; the ticket data is restored when
    the spending transaction is a ticket purchase. *)
Definition reviveSlice (txType : TxType) (stxo : spentTxOut) : res chainError UtxoEntry :=
  let entry := newUtxoEntry (st_txVersion stxo) (st_height stxo) (st_index stxo) (st_isCoinBase stxo)
                 (st_hasExpiry stxo) (st_txType stxo) in
  Ok (if bool_decide (txType = TxTypeSStx) then with_extra entry (st_stakeExtra stxo) else entry).

Definition disconnectSliceTx (height : Z) (secondCoinbase : bool) (stxos : list spentTxOut)
    (st : UtxoViewpoint * Z) (iTx : nat * MsgTx) : res chainError (UtxoViewpoint * Z) :=
  let '(view, stxoIdx) := st in
  let '(txIdx, tx) := iTx in
  txType ← stake_panic (DetermineTxType tx);
  view ← clearTx view tx (freshEntry tx height (u32 (Z.of_nat txIdx)));
  if (txIdx =? 0)%nat || ((txIdx =? 1)%nat && secondCoinbase) then Ok (view, stxoIdx)
  else unspendInputs (reviveSlice txType) stxos (rev (tx_TxIn tx)) (view, stxoIdx).

(** The view and the number of entries that are left. *)
Definition disconnectTransactionSlice (view : UtxoViewpoint) (transactions : list MsgTx) (height : Z)
    (stxosPtr : option (list spentTxOut)) (secondCoinbase : bool) : res chainError (UtxoViewpoint * Z) :=
  match stxosPtr with
  | None => Err AssertError
  | Some stxos =>
    let stxoIdx := Z.of_nat (length stxos) - 1 in
    if stxoIdx =? -1 then Ok (view, 0)
    else
      '(view, stxoIdx) ← foldM (disconnectSliceTx height secondCoinbase stxos) (view, stxoIdx)
        (rev (zip (seq 0 (length transactions)) transactions));
      Ok (view, stxoIdx + 1)
  end.

(** ** Views for a transaction

    What the methods of [BlockChain] use of the chain is the best node and the two blocks
    that [fetchBlockFromHash] finds. *)

(** The hashes that [FetchUtxoView] and [AddTxToUtxoView] ask for. *)
Definition neededSet (tx : MsgTx) : res chainError (gset bytes) :=
  ins ← neededInputs tx;
  Ok ({[txHash tx]} ∪ (if IsCoinBaseTx tx then ∅ else list_to_set ((fun txIn => o_Hash (PreviousOutPoint txIn)) <$> ins))).

Definition FetchCurrentUtxoView (db : gmap bytes bytes) (bestNode_hash : bytes) (bestNode_height : Z)
    (block parent : res chainError Block) (treeValid : bool) : res chainError UtxoViewpoint :=
  view ← (if treeValid then
      block ← block;
      parent ← parent;
      view ← fetchInputUtxos db (SetStakeViewpoint NewUtxoViewpoint ViewpointCurrentRegular) block (Some parent);
      '(view, _) ← connectAll bestNode_height (view, None) (b_Transactions block);
      Ok view
    else Ok NewUtxoViewpoint);
  Ok (SetBestHash view bestNode_hash).

Definition FetchUtxoView (db : gmap bytes bytes) (bestNode_hash : bytes) (bestNode_height : Z)
    (block parent : res chainError Block) (tx : MsgTx) (treeValid : bool) : res chainError UtxoViewpoint :=
  view ← FetchCurrentUtxoView db bestNode_hash bestNode_height block parent treeValid;
  txNeededSet ← neededSet tx;
  fetchUtxosMain db view txNeededSet.

Definition AddTxToUtxoView (db : gmap bytes bytes) (bestNode_hash : bytes) (view : UtxoViewpoint) (tx : MsgTx) :
    res chainError (UtxoViewpoint * bool) :=
  if negb (bool_decide (bestNode_hash = bestHash view)) then Ok (view, true)
  else
    txNeededSet ← neededSet tx;
    view ← fetchUtxosMain db view txNeededSet;
    Ok (view, false).

End view.

(** ** The unspent outputs of a view *)

Definition unspentIn (entry : UtxoEntry) (i : Z) : option utxoOutput :=
  out ← sparseOutputs entry !! i; if uo_spent out then None else Some out.

Definition unspent (view : UtxoViewpoint) (hash : bytes) (i : Z) : option utxoOutput :=
  entry ← LookupEntry view hash; unspentIn entry i.

Definition outpoint (txIn : TxIn) : bytes * Z :=
  (o_Hash (PreviousOutPoint txIn), o_Index (PreviousOutPoint txIn)).

(** The unspent output that a transaction creates at an index. *)
Definition createdOutput (txOuts : list TxOut) (i : Z) : option utxoOutput :=
  if i <? 0 then None
  else
    txOut ← txOuts !! Z.to_nat i;
    if IsUnspendable (Value txOut) (PkScript txOut) then None
    else Some (MkOutput (PkScript txOut) (Value txOut) (out_Version txOut) false false).

Lemma LookupEntry_set view h entry h' :
  LookupEntry (set_entry view h entry) h' = if decide (h' = h) then Some entry else LookupEntry view h'.
Proof.
  unfold LookupEntry, set_entry, with_entries. cbn [entries]. destruct (decide (h' = h)) as [->|Hne].
  - by rewrite lookup_insert_eq.
  - by rewrite lookup_insert_ne by done.
Qed.

Lemma unspent_set view h entry h' i :
  unspent (set_entry view h entry) h' i = if decide (h' = h) then unspentIn entry i else unspent view h' i.
Proof. unfold unspent. rewrite LookupEntry_set. by destruct (decide (h' = h)). Qed.

Lemma unspent_entry view h entry i : LookupEntry view h = Some entry -> unspent view h i = unspentIn entry i.
Proof. intros H. unfold unspent. by rewrite H. Qed.

Lemma IsOutputSpent_unspentIn entry i : IsOutputSpent entry i = negb (bool_decide (is_Some (unspentIn entry i))).
Proof.
  unfold IsOutputSpent, unspentIn. destruct (sparseOutputs entry !! i) as [out|]; [|done]. by destruct (uo_spent out) eqn:E; cbn; rewrite E.
Qed.

Lemma IsFullySpent_unspentIn entry : IsFullySpent entry = true <-> forall i, unspentIn entry i = None.
Proof.
  unfold IsFullySpent. rewrite forallb_forall. split.
  - intros H i. unfold unspentIn. destruct (sparseOutputs entry !! i) as [out|] eqn:E; [|done]. cbn.
    rewrite (H out); [done|]. apply list_elem_of_In, list_elem_of_fmap. exists (i, out).
    split; [done|]. by apply elem_of_map_to_list.
  - intros H out Hin%list_elem_of_In. apply list_elem_of_fmap in Hin as ([i o] & -> & Hin).
    apply elem_of_map_to_list in Hin. specialize (H i). unfold unspentIn in H. rewrite Hin in H. cbn in *.
    by destruct (uo_spent o).
Qed.

Lemma SpendOutput_unspentIn entry i j :
  unspentIn (SpendOutput entry i) j = if decide (j = i) then None else unspentIn entry j.
Proof.
  unfold SpendOutput, unspentIn. destruct (sparseOutputs entry !! i) as [out|] eqn:E.
  - destruct (uo_spent out) eqn:Es; cbn [with_outputs sparseOutputs].
    + destruct (decide (j = i)) as [->|]; [|done]. rewrite E. cbn. by rewrite Es.
    + destruct (decide (j = i)) as [->|Hne]; [by rewrite lookup_insert_eq|by rewrite lookup_insert_ne by done].
  - destruct (decide (j = i)) as [->|]; [|done]. by rewrite E.
Qed.

Lemma addOutputs_from (txOuts : list TxOut) k (outs : gmap Z utxoOutput) i : Z.of_nat (k + length txOuts) < 2 ^ 32 ->
  foldl (fun outs (iOut : nat * TxOut) =>
    let '(txOutIdx, txOut) := iOut in
    if IsUnspendable (Value txOut) (PkScript txOut) then outs
    else <[u32 (Z.of_nat txOutIdx) := MkOutput (PkScript txOut) (Value txOut) (out_Version txOut) false false]> outs)
    outs (zip (seq k (length txOuts)) txOuts) !! i =
  match createdOutput txOuts (i - Z.of_nat k) with Some out => Some out | None => outs !! i end.
Proof.
  revert k outs. induction txOuts as [|txOut txOuts IH]; intros k outs Hk; cbn [length seq zip zip_with foldl].
  { unfold createdOutput. destruct (_ <? 0); [done|]. by rewrite lookup_nil. }
  cbn [length] in Hk. rewrite IH by lia. unfold createdOutput.
  destruct (Z.ltb_spec (i - Z.of_nat k) 0).
  - destruct (Z.ltb_spec (i - Z.of_nat (S k)) 0); [|lia]. destruct (IsUnspendable _ _); [done|].
    rewrite lookup_insert_ne; [done|]. rewrite u32_small by (unfold is_u32; lia). lia.
  - destruct (decide (i = Z.of_nat k)) as [->|Hne].
    + rewrite Z.sub_diag. destruct (Z.ltb_spec (Z.of_nat k - Z.of_nat (S k)) 0); [|lia].
      change ((txOut :: txOuts) !! Z.to_nat 0) with (Some txOut). cbn [mbind option_bind].
      destruct (IsUnspendable _ _); [done|]. rewrite u32_small by (unfold is_u32; lia). by rewrite lookup_insert_eq.
    + destruct (Z.ltb_spec (i - Z.of_nat (S k)) 0); [lia|].
      replace (Z.to_nat (i - Z.of_nat k)) with (S (Z.to_nat (i - Z.of_nat (S k)))) by lia.
      rewrite (lookup_cons_ne_0 _ _ (S _)) by done. cbn [pred].
      destruct (txOuts !! _ ≫= _); [done|]. destruct (IsUnspendable _ _); [done|].
      rewrite lookup_insert_ne; [done|]. rewrite u32_small by (unfold is_u32; lia). lia.
Qed.

Lemma addOutputs_lookup txOuts outs i : Z.of_nat (length txOuts) < 2 ^ 32 ->
  addOutputs outs txOuts !! i = match createdOutput txOuts i with Some out => Some out | None => outs !! i end.
Proof. intros H. unfold addOutputs. rewrite (addOutputs_from txOuts 0) by done. by rewrite Z.sub_0_r. Qed.

(** ** Sums over finite maps *)

Definition msum {K A} `{Countable K} (f : A -> Z) (m : gmap K A) : Z := map_fold (fun _ a acc => f a + acc) 0 m.

Lemma msum_insert_new {K A} `{Countable K} (f : A -> Z) (m : gmap K A) k a :
  m !! k = None -> msum f (<[k := a]> m) = f a + msum f m.
Proof. intros H'. unfold msum. by rewrite (map_fold_insert_L (fun _ a acc => f a + acc)) by (intros; lia || done). Qed.

Lemma msum_insert {K A} `{Countable K} (f : A -> Z) (m : gmap K A) k a :
  msum f (<[k := a]> m) = msum f m - from_option f 0 (m !! k) + f a.
Proof.
  rewrite <- insert_delete_eq, msum_insert_new by apply lookup_delete_eq.
  destruct (m !! k) as [b|] eqn:E; cbn.
  - rewrite <- (insert_delete_id m k b E) at 2. rewrite msum_insert_new by apply lookup_delete_eq. lia.
  - rewrite delete_id by done. lia.
Qed.

Lemma msum_nonneg {K A} `{Countable K} (f : A -> Z) (m : gmap K A) :
  (forall k a, m !! k = Some a -> 0 <= f a) -> 0 <= msum f m.
Proof.
  induction m as [|k a m Hk IH] using map_ind; intros Hf; [done|]. rewrite msum_insert_new by done.
  assert (0 <= f a) by (apply (Hf k); by rewrite lookup_insert_eq).
  assert (0 <= msum f m); [|lia]. apply IH. intros k' a' Hk'. apply (Hf k').
  rewrite lookup_insert_ne; [done|congruence].
Qed.

(** The value of the unspent outputs of an entry and of a view. *)
Definition outputValue (out : utxoOutput) : Z := if uo_spent out then 0 else uo_amount out.
Definition entryValue (entry : UtxoEntry) : Z := msum outputValue (sparseOutputs entry).
Definition viewValue (view : UtxoViewpoint) : Z := msum (from_option entryValue 0) (entries view).

Lemma viewValue_set view h entry :
  viewValue (set_entry view h entry) = viewValue view - from_option entryValue 0 (LookupEntry view h) + entryValue entry.
Proof.
  unfold viewValue, set_entry, with_entries, LookupEntry. cbn [entries]. rewrite msum_insert.
  by destruct (entries view !! h) as [[e|]|].
Qed.

Lemma SpendOutput_value entry i :
  entryValue (SpendOutput entry i) = entryValue entry - from_option uo_amount 0 (unspentIn entry i).
Proof.
  unfold SpendOutput, unspentIn. destruct (sparseOutputs entry !! i) as [out|] eqn:E; [|cbn; lia].
  destruct (uo_spent out) eqn:Es; cbn; rewrite Es; cbn; [lia|].
  unfold entryValue. cbn [with_outputs sparseOutputs]. rewrite msum_insert, E. cbn [from_option].
  assert (outputValue out = uo_amount out) as -> by (unfold outputValue; by rewrite Es).
  change (outputValue (set_spent out true)) with 0. lia.
Qed.

(** The value of the outputs that a transaction creates. *)
Definition spendableValue (txOuts : list TxOut) : Z :=
  foldr (fun txOut n => (if IsUnspendable (Value txOut) (PkScript txOut) then 0 else Value txOut) + n) 0 txOuts.

Lemma addOutputs_value_from (txOuts : list TxOut) k (outs : gmap Z utxoOutput) : Z.of_nat (k + length txOuts) < 2 ^ 32 ->
  (forall i out, outs !! i = Some out -> Z.of_nat k <= i -> outputValue out = 0) ->
  msum outputValue (foldl (fun outs (iOut : nat * TxOut) =>
    let '(txOutIdx, txOut) := iOut in
    if IsUnspendable (Value txOut) (PkScript txOut) then outs
    else <[u32 (Z.of_nat txOutIdx) := MkOutput (PkScript txOut) (Value txOut) (out_Version txOut) false false]> outs)
    outs (zip (seq k (length txOuts)) txOuts)) = msum outputValue outs + spendableValue txOuts.
Proof.
  revert k outs. induction txOuts as [|txOut txOuts IH]; intros k outs Hk Hz;
    cbn [length seq zip zip_with foldl spendableValue foldr]; [cbn; lia|].
  fold (spendableValue txOuts). cbn [length] in Hk. rewrite IH; [|lia|].
  - destruct (IsUnspendable _ _); [lia|]. rewrite msum_insert, u32_small by (unfold is_u32; lia).
    destruct (outs !! Z.of_nat k) as [out|] eqn:E; cbn; [rewrite (Hz _ _ E) by lia|]; unfold outputValue; cbn; lia.
  - intros i out Hi Hki. destruct (IsUnspendable _ _); [apply (Hz _ _ Hi); lia|].
    rewrite u32_small in Hi by (unfold is_u32; lia). rewrite lookup_insert_ne in Hi by lia. apply (Hz _ _ Hi). lia.
Qed.

Section effects.
Context {PubKey : Type} (ParsePubKey : bytes -> option PubKey) (SerializeUncompressed : PubKey -> bytes).
Context (txHash : MsgTx -> bytes).

#[local] Notation maybeDecompress := (maybeDecompress ParsePubKey SerializeUncompressed).
#[local] Notation PkScriptByIndex := (PkScriptByIndex ParsePubKey SerializeUncompressed).
#[local] Notation spendInput := (spendInput ParsePubKey SerializeUncompressed).
#[local] Notation AddTxOuts := (AddTxOuts txHash).
#[local] Notation connectTransaction := (connectTransaction ParsePubKey SerializeUncompressed txHash).

Lemma PkScriptByIndex_unspentIn entry i s entry' j :
  unspentIn entry i = None -> PkScriptByIndex entry i = Ok (s, entry') -> unspentIn entry' j = unspentIn entry j.
Proof.
  unfold UtxoView.PkScriptByIndex, unspentIn. destruct (sparseOutputs entry !! i) as [out|] eqn:E; [|by intros _ [= _ <-]].
  cbn. intros Hs H. apply bind_Ok in H as (out' & Hd & H). injection H as _ <-. cbn [with_outputs sparseOutputs].
  destruct (decide (i = j)) as [->|Hne]; [|by rewrite lookup_insert_ne by done].
  rewrite lookup_insert_eq, E. cbn. unfold UtxoView.maybeDecompress in Hd.
  destruct (negb (uo_compressed out)); [by injection Hd as <-|]. apply bind_Ok in Hd as (? & _ & [= <-]). cbn.
  by destruct (uo_spent out).
Qed.

(** Spending an input takes its output away and no other. *)
Lemma spendInput_unspent view stxos txIn view' stxos' h i :
  spendInput (view, stxos) txIn = Ok (view', stxos') ->
  unspent view' h i = if decide ((h, i) = outpoint txIn) then None else unspent view h i.
Proof.
  unfold UtxoView.spendInput, outpoint. set (oh := o_Hash _). set (oi := o_Index _).
  destruct (LookupEntry view oh) as [entry|] eqn:El; [|done]. intros H.
  assert (exists entry', view' = set_entry view oh entry' /\
    forall j, unspentIn entry' j = unspentIn (SpendOutput entry oi) j) as (entry' & -> & Hu).
  { destruct stxos as [stxos|]; [|injection H as <- <-; by eexists].
    apply bind_Ok in H as ([s entry'] & Hp & H). injection H as <- <-. eexists. split; [reflexivity|]. intros j.
    eapply PkScriptByIndex_unspentIn; [|exact Hp]. rewrite SpendOutput_unspentIn. by rewrite decide_True. }
  rewrite unspent_set. destruct (decide (h = oh)) as [->|Hne].
  - rewrite Hu, SpendOutput_unspentIn, (unspent_entry view oh entry) by done.
    destruct (decide (i = oi)) as [->|Hi]; [by rewrite decide_True|]. by rewrite decide_False by congruence.
  - by rewrite decide_False by congruence.
Qed.

Lemma spendInputs_unspent ins view stxos view' stxos' h i :
  foldM spendInput (view, stxos) ins = Ok (view', stxos') ->
  unspent view' h i = if decide ((h, i) ∈ outpoint <$> ins) then None else unspent view h i.
Proof.
  revert view stxos. induction ins as [|txIn ins IH]; intros view stxos H; cbn [foldM] in H.
  { injection H as <- <-. by rewrite decide_False by set_solver. }
  apply bind_Ok in H as ([v1 s1] & H1 & H2). rewrite (IH _ _ H2), (spendInput_unspent _ _ _ _ _ _ _ H1).
  rewrite fmap_cons. destruct (decide ((h, i) ∈ outpoint <$> ins)); [by rewrite decide_True by set_solver|].
  destruct (decide ((h, i) = outpoint txIn)); [by rewrite decide_True by set_solver|].
  by rewrite decide_False by set_solver.
Qed.

(** Adding a transaction adds its outputs that can be spent. *)
Lemma AddTxOuts_unspent view tx height index view' h i :
  Z.of_nat (length (tx_TxOut tx)) < 2 ^ 32 -> AddTxOuts view tx height index = Ok view' ->
  unspent view' h i =
    if decide (h = txHash tx) then
      match createdOutput (tx_TxOut tx) i with Some out => Some out | None => unspent view h i end
    else unspent view h i.
Proof.
  intros Hl H. unfold UtxoView.AddTxOuts in H. apply bind_Ok in H as (entry & He & H). injection H as <-.
  rewrite unspent_set. destruct (decide (h = txHash tx)) as [->|]; [|done].
  unfold unspentIn at 1. cbn [with_outputs sparseOutputs]. rewrite addOutputs_lookup by done.
  destruct (createdOutput (tx_TxOut tx) i) as [out|] eqn:Ec.
  - cbn. unfold createdOutput in Ec. destruct (i <? 0); [done|]. apply bind_Some in Ec as (o & _ & Ec).
    destruct (IsUnspendable _ _); [done|]. by injection Ec as <-.
  - fold (unspentIn entry i). unfold unspent. destruct (LookupEntry view (txHash tx)) as [e|].
    + injection He as <-. done.
    + unfold freshEntry in He. apply bind_Ok in He as (t & _ & He).
      destruct (bool_decide _); [apply bind_Ok in He as (x & _ & He)|]; injection He as <-; done.
Qed.

Lemma connectTransaction_unspent view tx height index stxos view' stxos' h i :
  Z.of_nat (length (tx_TxOut tx)) < 2 ^ 32 ->
  connectTransaction view tx height index stxos = Ok (view', stxos') ->
  exists ins, (if IsCoinBaseTx tx then ins = [] else journalInputs tx = Ok ins) /\
    unspent view' h i =
      match (if decide (h = txHash tx) then createdOutput (tx_TxOut tx) i else None) with
      | Some out => Some out
      | None => if decide ((h, i) ∈ outpoint <$> ins) then None else unspent view h i
      end.
Proof.
  intros Hl. unfold UtxoView.connectTransaction. destruct (IsCoinBaseTx tx).
  - intros H. apply bind_Ok in H as (v & Ha & H). injection H as <- <-. exists []. split; [done|].
    rewrite (AddTxOuts_unspent _ _ _ _ _ _ _ Hl Ha), (decide_False (P := _ ∈ _)) by set_solver.
    by destruct (decide (h = txHash tx)).
  - intros H. apply bind_Ok in H as (ins & Hi & H). apply map_err_Ok in Hi. exists ins. split; [done|].
    apply bind_Ok in H as ([v1 s1] & Hs & H). apply bind_Ok in H as (v & Ha & H). injection H as <- <-.
    rewrite (AddTxOuts_unspent _ _ _ _ _ _ _ Hl Ha), (spendInputs_unspent _ _ _ _ _ _ _ Hs).
    by destruct (decide (h = txHash tx)).
Qed.

Lemma PkScriptByIndex_value entry i s entry' : PkScriptByIndex entry i = Ok (s, entry') -> entryValue entry' = entryValue entry.
Proof.
  unfold UtxoView.PkScriptByIndex. destruct (sparseOutputs entry !! i) as [out|] eqn:E; [|by intros [= _ <-]].
  intros H. apply bind_Ok in H as (out' & Hd & H). injection H as _ <-. unfold entryValue. cbn [with_outputs sparseOutputs].
  rewrite msum_insert, E. cbn. cut (outputValue out' = outputValue out); [lia|].
  unfold UtxoView.maybeDecompress in Hd. destruct (negb _); [congruence|]. apply bind_Ok in Hd as (? & _ & [= <-]). done.
Qed.

Lemma spendInput_value view stxos txIn view' stxos' :
  spendInput (view, stxos) txIn = Ok (view', stxos') ->
  viewValue view' = viewValue view -
    from_option uo_amount 0 (unspent view (o_Hash (PreviousOutPoint txIn)) (o_Index (PreviousOutPoint txIn))).
Proof.
  unfold UtxoView.spendInput. set (oh := o_Hash _). set (oi := o_Index _).
  destruct (LookupEntry view oh) as [entry|] eqn:El; [|done]. intros H. rewrite (unspent_entry view oh entry) by done.
  assert (exists entry', view' = set_entry view oh entry' /\ entryValue entry' = entryValue (SpendOutput entry oi)) as (entry' & -> & Hv).
  { destruct stxos as [stxos|]; [|injection H as <- <-; by eexists].
    apply bind_Ok in H as ([s entry'] & Hp & H). injection H as <- <-. eexists. split; [reflexivity|].
    by apply PkScriptByIndex_value in Hp. }
  rewrite viewValue_set, El, Hv, SpendOutput_value. cbn. lia.
Qed.

(** The value of the outputs that the inputs spend. *)
Definition inputsValue (view : UtxoViewpoint) (ins : list TxIn) : Z :=
  foldr (fun txIn n => from_option uo_amount 0
    (unspent view (o_Hash (PreviousOutPoint txIn)) (o_Index (PreviousOutPoint txIn))) + n) 0 ins.

Lemma spendInputs_value ins view stxos view' stxos' : NoDup (outpoint <$> ins) ->
  foldM spendInput (view, stxos) ins = Ok (view', stxos') -> viewValue view' = viewValue view - inputsValue view ins.
Proof.
  revert view stxos. induction ins as [|txIn ins IH]; intros view stxos Hnd H; cbn [foldM] in H.
  { injection H as <- <-. cbn. lia. }
  rewrite fmap_cons in Hnd. apply NoDup_cons in Hnd as [Hni Hnd]. apply bind_Ok in H as ([v1 s1] & H1 & H2).
  rewrite (IH _ _ Hnd H2), (spendInput_value _ _ _ _ _ H1). cbn [inputsValue foldr]. fold (inputsValue view ins).
  cut (inputsValue v1 ins = inputsValue view ins); [lia|]. clear IH H2 Hnd. induction ins as [|ti ins IHi]; [done|].
  rewrite fmap_cons, not_elem_of_cons in Hni. destruct Hni as [Hne Hni].
  cbn [inputsValue foldr]. fold (inputsValue v1 ins) (inputsValue view ins). rewrite IHi by done. rewrite (spendInput_unspent _ _ _ _ _ _ _ H1), decide_False; [done|].
  intros E. by apply Hne.
Qed.

Lemma AddTxOuts_value view tx height index view' : Z.of_nat (length (tx_TxOut tx)) < 2 ^ 32 ->
  (forall i, unspent view (txHash tx) i = None) -> AddTxOuts view tx height index = Ok view' ->
  viewValue view' = viewValue view + spendableValue (tx_TxOut tx).
Proof.
  intros Hl Hn H. unfold UtxoView.AddTxOuts in H. apply bind_Ok in H as (entry & He & H). injection H as <-.
  rewrite viewValue_set. unfold entryValue at 2. cbn [with_outputs sparseOutputs]. unfold addOutputs.
  rewrite addOutputs_value_from; [|done|].
  - cut (msum outputValue (sparseOutputs entry) = from_option entryValue 0 (LookupEntry view (txHash tx))); [lia|].
    destruct (LookupEntry view (txHash tx)) as [e|]; [by injection He as <-|].
    unfold freshEntry in He. apply bind_Ok in He as (t & _ & He).
    destruct (bool_decide _); [apply bind_Ok in He as (x & _ & He)|]; injection He as <-; done.
  - intros i out Hi _. destruct (LookupEntry view (txHash tx)) as [e|] eqn:E.
    + injection He as <-. cbn in Hi. specialize (Hn i). rewrite (unspent_entry _ _ _ _ E) in Hn. unfold unspentIn in Hn.
      rewrite Hi in Hn. cbn in Hn. unfold outputValue. by destruct (uo_spent out).
    + unfold freshEntry in He. apply bind_Ok in He as (t & _ & He).
      destruct (bool_decide _); [apply bind_Ok in He as (x & _ & He)|]; injection He as <-; done.
Qed.

(** Value is neither lost nor made: connecting a transaction takes the value of the
    outputs it spends from the view and adds that of the outputs it creates. *)
Lemma connectTransaction_value view tx height index stxos view' stxos' :
  Z.of_nat (length (tx_TxOut tx)) < 2 ^ 32 ->
  (IsCoinBaseTx tx = false -> forall ins, journalInputs tx = Ok ins -> NoDup (outpoint <$> ins)) ->
  (forall i, unspent view (txHash tx) i = None) ->
  connectTransaction view tx height index stxos = Ok (view', stxos') ->
  exists ins, (if IsCoinBaseTx tx then ins = [] else journalInputs tx = Ok ins) /\
    viewValue view' = viewValue view - inputsValue view ins + spendableValue (tx_TxOut tx).
Proof.
  intros Hl Hnd Hn. unfold UtxoView.connectTransaction. destruct (IsCoinBaseTx tx).
  - intros H. apply bind_Ok in H as (v & Ha & H). injection H as <- <-. exists []. split; [done|].
    rewrite (AddTxOuts_value _ _ _ _ _ Hl Hn Ha). cbn. lia.
  - intros H. apply bind_Ok in H as (ins & Hi & H). apply map_err_Ok in Hi. exists ins. split; [done|].
    apply bind_Ok in H as ([v1 s1] & Hs & H). apply bind_Ok in H as (v & Ha & H). injection H as <- <-.
    pose proof (Hnd eq_refl ins Hi) as Hndi. rewrite (AddTxOuts_value _ _ _ _ _ Hl) with (2 := Ha).
    + rewrite (spendInputs_value _ _ _ _ _ Hndi Hs). lia.
    + intros i. rewrite (spendInputs_unspent _ _ _ _ _ _ _ Hs), Hn. by destruct (decide _).
Qed.

Lemma spendInputs_absent ins V s V' r h : foldM spendInput (V, s) ins = Ok (V', r) ->
  LookupEntry V h = None -> LookupEntry V' h = None.
Proof.
  revert V s. induction ins as [|txIn ins IH]; intros V s H HN; cbn [foldM] in H; [by injection H as <- <-|].
  apply bind_Ok in H as ([V1 r1] & H1 & H2). eapply IH; [exact H2|]. unfold UtxoView.spendInput in H1.
  destruct (LookupEntry V (o_Hash (PreviousOutPoint txIn))) as [e|] eqn:E; [|done].
  assert (exists e', V1 = set_entry V (o_Hash (PreviousOutPoint txIn)) e') as [e' ->].
  { destruct s; [|injection H1 as <- <-; by eexists]. apply bind_Ok in H1 as ([? ?] & _ & [= <- _]). by eexists. }
  rewrite LookupEntry_set, decide_False by congruence. done.
Qed.

(** ** Connecting a transaction *)

(** An input that spends an unspent output and states its amount. *)
Definition input_ok (V : UtxoViewpoint) (txIn : TxIn) : Prop :=
  exists o, unspent V (o_Hash (PreviousOutPoint txIn)) (o_Index (PreviousOutPoint txIn)) = Some o /\
    uo_amount o = ValueIn txIn.

(** A transaction that may be connected to the view: it is not there yet, and every input
    spends another unspent output and states its amount. *)
Definition connectable (V : UtxoViewpoint) (tx : MsgTx) (ins : list TxIn) : Prop :=
  LookupEntry V (txHash tx) = None /\ (if IsCoinBaseTx tx then ins = [] else journalInputs tx = Ok ins) /\
  NoDup (outpoint <$> ins) /\ Forall (input_ok V) ins.

(** The script of the output that the input spends can be decompressed. *)
Definition readable (V : UtxoViewpoint) (txIn : TxIn) : Prop := forall o,
  unspent V (o_Hash (PreviousOutPoint txIn)) (o_Index (PreviousOutPoint txIn)) = Some o ->
  exists o', maybeDecompress o = Ok o'.

Lemma spendInput_total V stxos txIn : input_ok V txIn -> readable V txIn ->
  exists V' stxos', spendInput (V, stxos) txIn = Ok (V', stxos').
Proof.
  intros (o & Ho & _) Hd. destruct (Hd o Ho) as (o' & Hd'). unfold UtxoView.spendInput. unfold unspent in Ho.
  apply bind_Some in Ho as (e & -> & Ho). unfold unspentIn in Ho. apply bind_Some in Ho as (o1 & Ho1 & Ho).
  destruct (uo_spent o1) eqn:Es; [done|]. injection Ho as ->.
  destruct stxos as [s|]; [|eauto]. unfold UtxoView.PkScriptByIndex, SpendOutput. rewrite Ho1, Es.
  cbn [with_outputs sparseOutputs]. rewrite lookup_insert_eq. unfold UtxoView.maybeDecompress in *.
  cbn [set_spent uo_compressed uo_pkScript]. destruct (negb (uo_compressed o)); cbn [mbind res_bind]; [eauto|].
  apply bind_Ok in Hd' as (pk & -> & _). cbn [mbind res_bind]. eauto.
Qed.

Lemma spendInputs_total ins V stxos : NoDup (outpoint <$> ins) -> Forall (input_ok V) ins -> Forall (readable V) ins ->
  exists V' stxos', foldM spendInput (V, stxos) ins = Ok (V', stxos').
Proof.
  revert V stxos. induction ins as [|txIn ins IH]; intros V stxos Hnd Hok Hrd; cbn [foldM]; [eauto|].
  rewrite fmap_cons, NoDup_cons in Hnd. destruct Hnd as [Hni Hnd].
  apply Forall_cons_1 in Hok as [Hok1 Hok]. apply Forall_cons_1 in Hrd as [Hrd1 Hrd].
  destruct (spendInput_total V stxos txIn Hok1 Hrd1) as (V1 & s1 & H1). rewrite H1. cbn [mbind res_bind].
  assert (Hsame : forall ti, ti ∈ ins -> unspent V1 (o_Hash (PreviousOutPoint ti)) (o_Index (PreviousOutPoint ti)) =
    unspent V (o_Hash (PreviousOutPoint ti)) (o_Index (PreviousOutPoint ti))).
  { intros ti Hti. rewrite (spendInput_unspent _ _ _ _ _ _ _ H1), decide_False; [done|].
    intros E. apply Hni. rewrite <- E. by apply (list_elem_of_fmap_2 outpoint). }
  apply IH; [done|..]; apply Forall_forall; intros ti Hti.
  - rewrite Forall_forall in Hok. destruct (Hok ti Hti) as (o & Ho & Ha). exists o. by rewrite Hsame.
  - rewrite Forall_forall in Hrd. intros o. rewrite Hsame by done. by apply Hrd.
Qed.

Lemma inputsValue_claimed V ins : Forall (input_ok V) ins -> inputsValue V ins = foldr (fun txIn n => ValueIn txIn + n) 0 ins.
Proof.
  induction 1 as [|txIn ins (o & Ho & Ha) _ IH]; [done|]. cbn [inputsValue foldr]. fold (inputsValue V ins).
  rewrite IH, Ho. cbn. lia.
Qed.

(** Connecting a connectable transaction succeeds and moves value. *)
Lemma connectTransaction_moves (V : UtxoViewpoint) (tx : MsgTx) (ins : list TxIn) (height index : Z)
    (stxos : option (list spentTxOut)) :
  connectable V tx ins -> Forall (readable V) ins -> Z.of_nat (length (tx_TxOut tx)) < 2 ^ 32 ->
  (exists e, freshEntry tx height index = Ok e) ->
  exists V' stxos', connectTransaction V tx height index stxos = Ok (V', stxos') /\
    (forall h i, unspent V' h i =
      if decide (h = txHash tx) then createdOutput (tx_TxOut tx) i
      else if decide ((h, i) ∈ outpoint <$> ins) then None else unspent V h i) /\
    viewValue V' = viewValue V - foldr (fun txIn n => ValueIn txIn + n) 0 ins + spendableValue (tx_TxOut tx).
Proof.
  intros (HN & Hins & Hnd & Hok) Hrd Hl [ef Hfr].
  assert (HNu : forall i, unspent V (txHash tx) i = None) by (intros i; unfold unspent; by rewrite HN).
  destruct (spendInputs_total ins V stxos Hnd Hok Hrd) as (V1 & s1 & Hsp).
  pose proof (spendInputs_absent _ _ _ _ _ _ Hsp HN) as HN1.
  assert (exists V', AddTxOuts V1 tx height index = Ok V') as (V' & HA).
  { unfold UtxoView.AddTxOuts. rewrite HN1, Hfr. cbn [mbind res_bind]. eauto. }
  assert (Hc : exists s', connectTransaction V tx height index stxos = Ok (V', s')).
  { unfold UtxoView.connectTransaction. destruct (IsCoinBaseTx tx).
    - subst ins. cbn in Hsp. injection Hsp as -> ->. rewrite HA. eexists. reflexivity.
    - rewrite Hins. cbn [stake_panic map_err mbind res_bind]. rewrite Hsp. cbn [mbind res_bind]. rewrite HA. eexists. reflexivity. }
  destruct Hc as (s' & Hc). exists V', s'. split; [done|]. split.
  - intros h i. rewrite (AddTxOuts_unspent _ _ _ _ _ _ _ Hl HA), (spendInputs_unspent _ _ _ _ _ _ _ Hsp).
    destruct (decide (h = txHash tx)) as [->|]; [|done]. rewrite HNu.
    destruct (createdOutput (tx_TxOut tx) i); [done|]. by destruct (decide ((txHash tx, i) ∈ outpoint <$> ins)).
  - rewrite (AddTxOuts_value _ _ _ _ _ Hl) with (2 := HA).
    + rewrite (spendInputs_value _ _ _ _ _ Hnd Hsp), inputsValue_claimed by done. lia.
    + intros i. rewrite (spendInputs_unspent _ _ _ _ _ _ _ Hsp), HNu. by destruct (decide ((txHash tx, i) ∈ outpoint <$> ins)).
Qed.

(** C7: connecting a transaction moves value and does nothing else.  When the transaction
    is new to the view and its inputs spend different unspent outputs whose amounts they
    state, [connectTransaction] succeeds; afterwards exactly those outputs are gone, the
    outputs of the transaction that are not provably unspendable are there, every other
    output is as it was, and the value of all unspent outputs has changed by the value
    created minus the value spent. *)
Theorem connect_moves_value (V : UtxoViewpoint) (tx : MsgTx) (ins : list TxIn) (height index : Z)
    (stxos : option (list spentTxOut)) :
  connectable V tx ins -> Forall (readable V) ins -> Z.of_nat (length (tx_TxOut tx)) < 2 ^ 32 ->
  (exists e, freshEntry tx height index = Ok e) ->
  exists V' stxos', connectTransaction V tx height index stxos = Ok (V', stxos') /\
    (forall h i, unspent V' h i =
      if decide (h = txHash tx) then createdOutput (tx_TxOut tx) i
      else if decide ((h, i) ∈ outpoint <$> ins) then None else unspent V h i) /\
    viewValue V' = viewValue V - foldr (fun txIn n => ValueIn txIn + n) 0 ins + spendableValue (tx_TxOut tx).
Proof. apply connectTransaction_moves. Qed.

(** ** Disconnecting undoes connecting

    A view is compared with another one by the outputs it holds, whether or not their
    scripts are compressed, and by what the entries say about their transactions apart
    from the version.  The second view may lack what is spent. *)

Definition plainScript (pkScript : bytes) (compressed : bool) : option bytes :=
  if compressed then
    match decompressScript ParsePubKey SerializeUncompressed pkScript with
    | Ok s => Some (default [] s)
    | _ => None
    end
  else Some pkScript.

Definition same_output (o1 o2 : utxoOutput) : Prop :=
  uo_amount o1 = uo_amount o2 /\ uo_scriptVersion o1 = uo_scriptVersion o2 /\ uo_spent o1 = uo_spent o2 /\
  plainScript (uo_pkScript o1) (uo_compressed o1) = plainScript (uo_pkScript o2) (uo_compressed o2).

(** What an entry and a journal entry say about the containing transaction. *)
Definition entryMeta (e : UtxoEntry) :=
  (e_height e, e_index e, e_txType e, e_isCoinBase e, e_hasExpiry e,
   if bool_decide (e_txType e = TxTypeSStx) then stakeExtra e else []).
Definition stxoMeta (s : spentTxOut) :=
  (st_height s, st_index s, st_txType s, st_isCoinBase s, st_hasExpiry s,
   if bool_decide (st_txType s = TxTypeSStx) then st_stakeExtra s else []).

(** [R] says that entries can be revived; without it the second view has every entry. *)
Record sim (R : Prop) (V W : UtxoViewpoint) : Prop := {
  sim_unspent : forall h i o, unspent V h i = Some o -> exists o', unspent W h i = Some o' /\ same_output o o';
  sim_present : forall h eW i oW, LookupEntry W h = Some eW -> sparseOutputs eW !! i = Some oW ->
    exists eV oV, LookupEntry V h = Some eV /\ sparseOutputs eV !! i = Some oV /\ same_output oV oW;
  sim_meta : forall h eV eW, LookupEntry V h = Some eV -> LookupEntry W h = Some eW -> entryMeta eV = entryMeta eW;
  sim_complete : R \/ forall h, LookupEntry W h = None -> LookupEntry V h = None
}.

(** Two journal entries for the same output. *)
Definition same_stxo (s1 s2 : spentTxOut) : Prop :=
  st_scriptVersion s1 = st_scriptVersion s2 /\ st_txFullySpent s1 = st_txFullySpent s2 /\
  plainScript (st_pkScript s1) (st_compressed s1) = plainScript (st_pkScript s2) (st_compressed s2) /\
  (st_txFullySpent s1 = true -> stxoMeta s1 = stxoMeta s2).

Definition revives (revive : spentTxOut -> res chainError UtxoEntry) : Prop := forall s,
  st_txFullySpent s = true -> exists e, revive s = Ok e /\ sparseOutputs e = ∅ /\ entryMeta e = stxoMeta s.

Lemma reviveSpent_revives tx : revives (reviveSpent tx).
Proof.
  intros s Hs. unfold reviveSpent. rewrite Hs. eexists. split; [reflexivity|].
  unfold entryMeta, stxoMeta. by case_bool_decide; cbn; [rewrite bool_decide_eq_true_2|rewrite bool_decide_eq_false_2].
Qed.

Lemma maybeDecompress_Ok o o' : maybeDecompress o = Ok o' ->
  o' = MkOutput (uo_pkScript o') (uo_amount o) (uo_scriptVersion o) false (uo_spent o) /\
  plainScript (uo_pkScript o) (uo_compressed o) = Some (uo_pkScript o').
Proof.
  unfold UtxoView.maybeDecompress, plainScript. destruct o as [pk a v c sp]. destruct c; cbn.
  - intros H. apply bind_Ok in H as (s & Hs & [= <-]). apply map_err_Ok in Hs. by rewrite Hs.
  - by intros [= <-].
Qed.

(** What spending does to the entry, and what is recorded. *)
Lemma spendInput_entry V s txIn V' r e o :
  let oh := o_Hash (PreviousOutPoint txIn) in let oi := o_Index (PreviousOutPoint txIn) in
  LookupEntry V oh = Some e -> sparseOutputs e !! oi = Some o -> uo_spent o = false ->
  spendInput (V, Some s) txIn = Ok (V', r) ->
  exists e' o', V' = set_entry V oh e' /\ entryMeta e' = entryMeta e /\
    sparseOutputs e' = <[oi := o']> (sparseOutputs e) /\
    uo_spent o' = true /\ uo_compressed o' = false /\ uo_amount o' = uo_amount o /\
    uo_scriptVersion o' = uo_scriptVersion o /\ plainScript (uo_pkScript o) (uo_compressed o) = Some (uo_pkScript o') /\
    r = Some (s ++ [spentDetails e' txIn (uo_scriptVersion o) (uo_pkScript o')]).
Proof.
  cbn zeta. set (oh := o_Hash _). set (oi := o_Index _). intros He Ho Hs. unfold UtxoView.spendInput.
  fold oh oi. rewrite He. unfold SpendOutput. rewrite Ho, Hs. unfold UtxoView.PkScriptByIndex, ScriptVersionByIndex.
  cbn [with_outputs sparseOutputs]. rewrite !lookup_insert_eq. intros H.
  apply bind_Ok in H as ([pk e'] & Hp & H). injection H as <- <-.
  apply bind_Ok in Hp as (o' & Hd & Hp). injection Hp as <- <-. cbn [with_outputs sparseOutputs].
  rewrite insert_insert_eq. apply maybeDecompress_Ok in Hd as [Ho' Hpl]. cbn in Ho', Hpl.
  eexists _, o'. split; [reflexivity|]. split; [done|]. split; [done|].
  rewrite Ho'. cbn [uo_spent uo_compressed uo_amount uo_scriptVersion uo_pkScript set_spent]. done.
Qed.

(** The entry in the second view that a spent output goes back to. *)
Lemma origin_entry (R : Prop) revive V e e' W oh st' : (R -> revives revive) ->
  LookupEntry V oh = Some e' -> entryMeta e' = entryMeta e ->
  (IsFullySpent e' = true -> st_txFullySpent st' = true /\ entryMeta e' = stxoMeta st') -> sim R V W ->
  exists eW, match LookupEntry W oh with None => revive st' | Some e => Ok e end = Ok eW /\
    entryMeta eW = entryMeta e /\
    (forall i oW, sparseOutputs eW !! i = Some oW -> exists oV, sparseOutputs e' !! i = Some oV /\ same_output oV oW) /\
    (forall i oV, unspentIn e' i = Some oV -> exists oW, unspentIn eW i = Some oW /\ same_output oV oW).
Proof.
  intros Hrev He' Hm Hfull HS. destruct (LookupEntry W oh) as [eW|] eqn:EW.
  - exists eW. split; [done|]. split; [rewrite <- Hm; symmetry; exact (sim_meta _ _ _ HS oh e' eW He' EW)|]. split.
    + intros i oW Hi. destruct (sim_present _ _ _ HS oh eW i oW EW Hi) as (eV & oV & HV & Ho & Hs).
      rewrite He' in HV. injection HV as <-. eauto.
    + intros i oV Hi. rewrite <- (unspent_entry V oh e' i He') in Hi. destruct (sim_unspent _ _ _ HS oh i oV Hi) as (oW & HoW & Hs).
      rewrite (unspent_entry W oh eW i EW) in HoW. eauto.
  - assert (Hnone : forall i, unspentIn e' i = None).
    { intros i. destruct (unspentIn e' i) as [o|] eqn:E; [|done].
      rewrite <- (unspent_entry V oh e' i He') in E. destruct (sim_unspent _ _ _ HS oh i o E) as (oW & HoW & _).
      unfold unspent in HoW. by rewrite EW in HoW. }
    destruct (Hfull (proj2 (IsFullySpent_unspentIn e') Hnone)) as [Hf Hmeta].
    destruct (sim_complete _ _ _ HS) as [HR|Hc]; [|rewrite (Hc oh EW) in He'; done].
    destruct (Hrev HR st' Hf) as (eW & -> & Hemp & Hme). exists eW. split; [done|]. split; [congruence|]. split.
    + intros i oW Hi. by rewrite Hemp, lookup_empty in Hi.
    + intros i oV Hi. by rewrite Hnone in Hi.
Qed.

Lemma restored_same o o' eW txIn st st' (oi := o_Index (PreviousOutPoint txIn)) :
  uo_spent o = false -> uo_amount o = ValueIn txIn -> uo_scriptVersion o = st_scriptVersion st ->
  uo_compressed o' = false -> uo_amount o' = uo_amount o -> uo_scriptVersion o' = uo_scriptVersion o ->
  plainScript (uo_pkScript o) (uo_compressed o) = Some (uo_pkScript o') ->
  plainScript (st_pkScript st) (st_compressed st) = Some (uo_pkScript o') -> same_stxo st st' ->
  (forall oW, sparseOutputs eW !! oi = Some oW -> same_output o' oW) ->
  exists R, sparseOutputs (restoreOutput eW txIn st') = <[oi := R]> (sparseOutputs eW) /\ same_output o R /\ uo_spent R = false.
Proof.
  intros Hs Ha Hv Hc Ha' Hv' Hpl Hst (Hsv & _ & Hsp & _) HeW. unfold restoreOutput. fold oi.
  destruct (sparseOutputs eW !! oi) as [oW|]; eexists; (split; [reflexivity|]).
  - destruct (HeW oW eq_refl) as (H1 & H2 & H3 & H4). unfold same_output.
    cbn [set_spent uo_amount uo_scriptVersion uo_spent uo_pkScript uo_compressed].
    rewrite Hc in H4. cbn [plainScript] in H4. repeat split; congruence.
  - unfold same_output. cbn [uo_amount uo_scriptVersion uo_spent uo_pkScript uo_compressed].
    repeat split; congruence.
Qed.

Lemma unspend_sim (R : Prop) revive V s txIn V' st st' W e o :
  let oh := o_Hash (PreviousOutPoint txIn) in let oi := o_Index (PreviousOutPoint txIn) in
  (R -> revives revive) -> LookupEntry V oh = Some e -> sparseOutputs e !! oi = Some o -> uo_spent o = false ->
  uo_amount o = ValueIn txIn -> spendInput (V, Some s) txIn = Ok (V', Some (s ++ [st])) ->
  same_stxo st st' -> sim R V' W ->
  exists eW, match LookupEntry W oh with None => revive st' | Some e => Ok e end = Ok eW /\
    sim R V (set_entry W oh (restoreOutput eW txIn st')).
Proof.
  cbn zeta. set (oh := o_Hash _). set (oi := o_Index _). intros Hrev He Ho Hs Ha Hsp Hst HS.
  destruct (spendInput_entry V s txIn V' _ e o He Ho Hs Hsp) as (e' & o' & -> & Hm & Hout & Hs' & Hc' & Ha' & Hv' & Hpl & Hr).
  fold oh in HS, Hsp. fold oi in Hout. injection Hr as Hr. apply app_inj_tail in Hr as [_ Hr].
  assert (Hst1 : st_scriptVersion st = uo_scriptVersion o /\ plainScript (st_pkScript st) (st_compressed st) = Some (uo_pkScript o') /\
    (IsFullySpent e' = true -> st_txFullySpent st = true /\ entryMeta e' = stxoMeta st)).
  { rewrite Hr. unfold spentDetails. destruct (IsFullySpent e'); cbn; (split; [done|]); (split; [done|]); [|done].
    intros _. split; [done|]. unfold entryMeta, stxoMeta. cbn. by case_bool_decide. }
  destruct Hst1 as (Hsv & Hspl & Hfull).
  assert (Hfull' : IsFullySpent e' = true -> st_txFullySpent st' = true /\ entryMeta e' = stxoMeta st').
  { intros Hf. destruct (Hfull Hf) as [Hf1 Hf2]. destruct Hst as (_ & Hf3 & _ & Hf4).
    split; [congruence|]. rewrite Hf2. auto. }
  assert (HeV : LookupEntry (set_entry V oh e') oh = Some e') by (rewrite LookupEntry_set; by rewrite decide_True).
  destruct (origin_entry R revive _ e e' W oh st' Hrev HeV Hm Hfull' HS) as (eW & HeW & HmW & Hpres & Huns).
  exists eW. split; [done|].
  destruct (restored_same o o' eW txIn st st' Hs Ha (eq_sym Hsv) Hc' Ha' Hv' Hpl Hspl Hst) as (Rd & HR & HsR & HspR).
  { intros oW HoW. fold oi in HoW. destruct (Hpres _ _ HoW) as (oV & HoV & Hsame). rewrite Hout, lookup_insert_eq in HoV. by injection HoV as <-. }
  fold oi in HR. split.
  - intros h i x. rewrite unspent_set. destruct (decide (h = oh)) as [->|Hne].
    + rewrite (unspent_entry V oh e) by done. unfold unspentIn. rewrite HR. intros Hx.
      destruct (decide (i = oi)) as [->|Hi].
      * rewrite Ho in Hx. cbn in Hx. rewrite Hs in Hx. injection Hx as <-. rewrite lookup_insert_eq. cbn. rewrite HspR. eauto.
      * rewrite lookup_insert_ne by done. apply Huns. unfold unspentIn. by rewrite Hout, lookup_insert_ne.
    + intros Hx. apply (sim_unspent _ _ _ HS). rewrite unspent_set. by rewrite decide_False.
  - intros h w i oW. rewrite LookupEntry_set. destruct (decide (h = oh)) as [->|Hne].
    + intros [= <-]. rewrite HR. intros HoW. destruct (decide (i = oi)) as [->|Hi].
      * rewrite lookup_insert_eq in HoW. injection HoW as <-. eauto.
      * rewrite lookup_insert_ne in HoW by done. destruct (Hpres _ _ HoW) as (oV & HoV & Hsame).
        rewrite Hout, lookup_insert_ne in HoV by done. eauto.
    + intros Hw HoW. destruct (sim_present _ _ _ HS h w i oW Hw HoW) as (eV & oV & HV & HoV & Hsame).
      rewrite LookupEntry_set, decide_False in HV by done. eauto.
  - intros h eV w HV. rewrite LookupEntry_set. destruct (decide (h = oh)) as [->|Hne].
    + intros [= <-]. rewrite He in HV. injection HV as <-. rewrite <- HmW. done.
    + intros Hw. apply (sim_meta _ _ _ HS h); [|done]. by rewrite LookupEntry_set, decide_False.
  - destruct (sim_complete _ _ _ HS) as [HR1|Hc]; [by left|right]. intros h. rewrite LookupEntry_set.
    destruct (decide (h = oh)) as [->|Hne]; [done|]. intros Hw. specialize (Hc h Hw).
    by rewrite LookupEntry_set, decide_False in Hc.
Qed.

Lemma spendInput_stxos V s txIn V' r : spendInput (V, Some s) txIn = Ok (V', r) -> exists st, r = Some (s ++ [st]).
Proof.
  unfold UtxoView.spendInput. destruct (LookupEntry _ _); [|done]. intros H. apply bind_Ok in H as ([pk e] & _ & H).
  injection H as _ <-. eauto.
Qed.

Lemma spendInputs_stxos ins V s V' r : foldM spendInput (V, Some s) ins = Ok (V', r) ->
  exists new, r = Some (s ++ new) /\ length new = length ins.
Proof.
  revert V s. induction ins as [|txIn ins IH]; intros V s H; cbn [foldM] in H.
  { injection H as _ <-. exists []. by rewrite app_nil_r. }
  apply bind_Ok in H as ([V1 r1] & H1 & H2). destruct (spendInput_stxos _ _ _ _ _ H1) as [st ->].
  destruct (IH _ _ H2) as (new & -> & Hl). exists (st :: new). rewrite <- app_assoc. cbn. auto.
Qed.

Lemma input_ok_other V s txIn V' r ti : spendInput (V, s) txIn = Ok (V', r) -> outpoint ti <> outpoint txIn ->
  input_ok V ti -> input_ok V' ti.
Proof.
  intros H Hne (o & Ho & Ha). exists o. split; [|done]. rewrite (spendInput_unspent _ _ _ _ _ _ _ H).
  by rewrite decide_False.
Qed.

Lemma unspendInputs_app revive stxos l1 l2 st : unspendInputs revive stxos (l1 ++ l2) st =
  st' ← unspendInputs revive stxos l1 st; unspendInputs revive stxos l2 st'.
Proof.
  revert st. induction l1 as [|txIn l1 IH]; intros st; [done|]. cbn [app unspendInputs]. destruct st as [V idx].
  destruct (stxoAt stxos idx); [|done..]. cbn [mbind res_bind].
  destruct (match LookupEntry _ _ with None => _ | Some _ => _ end); [|done..]. cbn [mbind res_bind]. apply IH.
Qed.

Lemma stxoAt_app pre s post : stxoAt (pre ++ s :: post) (Z.of_nat (length pre)) = Ok s.
Proof.
  unfold stxoAt. destruct (Z.ltb_spec (Z.of_nat (length pre)) 0); [lia|]. rewrite Nat2Z.id.
  by rewrite lookup_app_r, Nat.sub_diag by lia.
Qed.

Lemma unspendInputs_sim (R : Prop) revive (Hrev : R -> revives revive) ins V s V' new pre new' post W :
  NoDup (outpoint <$> ins) -> Forall (input_ok V) ins -> foldM spendInput (V, Some s) ins = Ok (V', Some (s ++ new)) ->
  Forall2 same_stxo new new' -> sim R V' W ->
  exists W', unspendInputs revive (pre ++ new' ++ post) (rev ins) (W, Z.of_nat (length pre + length new') - 1) =
    Ok (W', Z.of_nat (length pre) - 1) /\ sim R V W'.
Proof.
  revert V s new pre new'. induction ins as [|txIn ins IH]; intros V s new pre new' Hnd Hok H Hst HS; cbn [foldM rev] in *.
  { injection H as <- E. rewrite <- (app_nil_r s) in E at 1. apply app_inv_head in E. subst new.
    apply Forall2_nil_inv_l in Hst as ->. exists W. cbn [unspendInputs length]. by rewrite Nat.add_0_r. }
  rewrite fmap_cons, NoDup_cons in Hnd. destruct Hnd as [Hni Hnd]. apply Forall_cons_1 in Hok as [(o & Ho & Ha) Hok].
  apply bind_Ok in H as ([V1 r1] & H1 & H2). destruct (spendInput_stxos _ _ _ _ _ H1) as [st ->].
  destruct (spendInputs_stxos _ _ _ _ _ H2) as (new1 & E & _). injection E as E.
  rewrite <- app_assoc in E. apply app_inv_head in E. subst new. change ([st] ++ new1) with (st :: new1) in *.
  apply Forall2_cons_inv_l in Hst as (st' & new1' & Hst1 & Hst & ->).
  assert (Hok1 : Forall (input_ok V1) ins).
  { apply Forall_forall. intros ti Hti. rewrite Forall_forall in Hok. eapply input_ok_other; [exact H1| |by apply Hok].
    intros E. apply Hni. rewrite <- E. by apply list_elem_of_fmap_2. }
  replace (s ++ st :: new1) with ((s ++ [st]) ++ new1) in H2 by (by rewrite <- app_assoc).
  destruct (IH V1 (s ++ [st]) new1 (pre ++ [st']) new1' Hnd Hok1 H2 Hst HS) as (W1 & HW1 & HS1).
  rewrite <- app_assoc in HW1. cbn [app] in HW1. rewrite unspendInputs_app. cbn [app length].
  replace (length pre + S (length new1'))%nat with (length (pre ++ [st']) + length new1')%nat by (rewrite length_app; cbn; lia).
  rewrite HW1. cbn [mbind res_bind unspendInputs].
  replace (Z.of_nat (length (pre ++ [st'])) - 1) with (Z.of_nat (length pre)) by (rewrite length_app; cbn; lia).
  rewrite stxoAt_app. cbn [mbind res_bind].
  assert (exists e, LookupEntry V (o_Hash (PreviousOutPoint txIn)) = Some e /\
    sparseOutputs e !! o_Index (PreviousOutPoint txIn) = Some o /\ uo_spent o = false) as (e & He & Heo & Hsp).
  { unfold unspent in Ho. apply bind_Some in Ho as (e & He & Ho). exists e. unfold unspentIn in Ho.
    apply bind_Some in Ho as (o1 & Ho1 & Ho). destruct (uo_spent o1) eqn:E; [done|]. injection Ho as <-. auto. }
  destruct (unspend_sim R revive V s txIn V1 st st' W1 e o Hrev He Heo Hsp Ha H1 Hst1 HS1) as (eW & HeW & HSW).
  rewrite HeW. cbn [mbind res_bind]. eauto.
Qed.

Lemma clearTx_sim (R : Prop) V tx height index V1 W fresh : LookupEntry V (txHash tx) = None ->
  AddTxOuts V tx height index = Ok V1 -> sim R V1 W -> (exists e, fresh = Ok e) ->
  exists W1, clearTx txHash W tx fresh = Ok W1 /\ sim R V W1.
Proof.
  intros HN HA HS [ef ->]. unfold UtxoView.AddTxOuts in HA. apply bind_Ok in HA as (e1 & _ & HA). injection HA as <-.
  set (h0 := txHash tx) in *. unfold clearTx. fold h0.
  assert (exists eW, match LookupEntry W h0 with None => Ok ef | Some entry => Ok entry end = Ok (E := chainError) eW) as [eW ->]
    by (destruct (LookupEntry W h0); eauto).
  eexists. split; [reflexivity|]. split.
  - intros h i o Ho. rewrite unspent_set. destruct (decide (h = h0)) as [->|Hne].
    + unfold unspent in Ho. by rewrite HN in Ho.
    + apply (sim_unspent _ _ _ HS). rewrite unspent_set. by rewrite decide_False.
  - intros h w i oW. rewrite LookupEntry_set. destruct (decide (h = h0)) as [->|Hne].
    + intros [= <-] Hi. cbn in Hi. by rewrite lookup_empty in Hi.
    + intros Hw Hi. destruct (sim_present _ _ _ HS h w i oW Hw Hi) as (eV & oV & HV & HoV & Hs).
      rewrite LookupEntry_set, decide_False in HV by done. eauto.
  - intros h eV w HV. rewrite LookupEntry_set. destruct (decide (h = h0)) as [->|Hne]; [congruence|].
    intros Hw. apply (sim_meta _ _ _ HS h); [|done]. by rewrite LookupEntry_set, decide_False.
  - destruct (sim_complete _ _ _ HS) as [HR|Hc]; [by left|right]. intros h. rewrite LookupEntry_set.
    destruct (decide (h = h0)) as [->|Hne]; [done|]. intros Hw. specialize (Hc h Hw).
    by rewrite LookupEntry_set, decide_False in Hc.
Qed.

Lemma disconnect_sim (R : Prop) revive fresh tx ins V height index s V1 new pre new' post W :
  (R -> revives revive) -> connectable V tx ins ->
  connectTransaction V tx height index (Some s) = Ok (V1, Some (s ++ new)) ->
  Forall2 same_stxo new new' -> sim R V1 W -> (exists e, fresh = Ok e) ->
  exists W1 W', clearTx txHash W tx fresh = Ok W1 /\
    unspendInputs revive (pre ++ new' ++ post) (rev ins) (W1, Z.of_nat (length pre + length new') - 1) =
      Ok (W', Z.of_nat (length pre) - 1) /\ sim R V W'.
Proof.
  intros Hrev (HN & Hins & Hnd & Hok) H Hst HS Hfr. unfold UtxoView.connectTransaction in H.
  destruct (IsCoinBaseTx tx).
  - subst ins. apply bind_Ok in H as (V2 & HA & H). injection H as <- E.
    rewrite <- (app_nil_r s) in E at 1. apply app_inv_head in E. subst new. apply Forall2_nil_inv_l in Hst as ->.
    destruct (clearTx_sim _ _ _ _ _ _ _ _ HN HA HS Hfr) as (W1 & HW1 & HS1). exists W1, W1. split; [done|].
    split; [|done]. cbn [rev unspendInputs length]. by rewrite Nat.add_0_r.
  - rewrite Hins in H. cbn [stake_panic map_err mbind res_bind] in H.
    apply bind_Ok in H as ([V2 r] & Hsp & H). apply bind_Ok in H as (V3 & HA & H). injection H as <- ->.
    destruct (clearTx_sim _ _ _ _ _ _ _ _ (spendInputs_absent _ _ _ _ _ _ Hsp HN) HA HS Hfr) as (W1 & HW1 & HS1).
    destruct (unspendInputs_sim R revive Hrev ins V s V2 new pre new' post W1 Hnd Hok Hsp Hst HS1) as (W' & HW' & HS').
    eauto.
Qed.

(** The transactions of a tree, each one connectable when its turn comes. *)
Fixpoint tree_ok (V : UtxoViewpoint) (s : list spentTxOut) (height : Z) (i : nat) (txns : list MsgTx) : Prop :=
  match txns with
  | [] => True
  | tx :: txns =>
    exists ins, connectable V tx ins /\
      match connectTransaction V tx height (u32 (Z.of_nat i)) (Some s) with
      | Ok (V', Some s') => tree_ok V' s' height (S i) txns
      | _ => False
      end
  end.

Lemma connectTransaction_stxos V tx height index s V' r : connectTransaction V tx height index (Some s) = Ok (V', r) ->
  exists new, r = Some (s ++ new).
Proof.
  unfold UtxoView.connectTransaction. destruct (IsCoinBaseTx tx); intros H.
  - apply bind_Ok in H as (V2 & _ & H). injection H as _ <-. exists []. by rewrite app_nil_r.
  - apply bind_Ok in H as (ins & _ & H). apply bind_Ok in H as ([V2 r2] & Hs & H). apply bind_Ok in H as (V3 & _ & H).
    injection H as _ <-. destruct (spendInputs_stxos _ _ _ _ _ Hs) as (new & -> & _). eauto.
Qed.

(** A loop that disconnects transactions one by one from the end. *)
Definition undoes (R : Prop) (body : list spentTxOut -> UtxoViewpoint * Z -> nat * MsgTx -> res chainError (UtxoViewpoint * Z))
    (height : Z) (i : nat) (tx : MsgTx) : Prop :=
  forall V ins s V1 new pre new' post W, connectable V tx ins ->
    connectTransaction V tx height (u32 (Z.of_nat i)) (Some s) = Ok (V1, Some (s ++ new)) ->
    Forall2 same_stxo new new' -> sim R V1 W ->
    exists W', body (pre ++ new' ++ post) (W, Z.of_nat (length pre + length new') - 1) (i, tx) =
      Ok (W', Z.of_nat (length pre) - 1) /\ sim R V W'.

Lemma tree_undo (R : Prop) body height txns : forall i V s,
  tree_ok V s height i txns -> (forall k tx, txns !! k = Some tx -> undoes R body height (i + k) tx) ->
  exists V1 new, foldM (fun (st : UtxoViewpoint * option (list spentTxOut)) (iTx : nat * MsgTx) =>
      connectTransaction st.1 iTx.2 height (u32 (Z.of_nat iTx.1)) st.2) (V, Some s) (zip (seq i (length txns)) txns) =
      Ok (V1, Some (s ++ new)) /\
    forall W pre new' post, Forall2 same_stxo new new' -> sim R V1 W ->
      exists W', foldM (body (pre ++ new' ++ post)) (W, Z.of_nat (length pre + length new') - 1)
        (rev (zip (seq i (length txns)) txns)) = Ok (W', Z.of_nat (length pre) - 1) /\ sim R V W'.
Proof.
  induction txns as [|tx txns IH]; intros i V s Hok Hu; cbn [length seq zip zip_with foldM rev].
  { exists V, []. rewrite app_nil_r. split; [done|]. intros W pre new' post Hst HS.
    apply Forall2_nil_inv_l in Hst as ->. exists W. cbn [foldM length]. by rewrite Nat.add_0_r. }
  cbn [tree_ok] in Hok. destruct Hok as (ins & Hc & Hok). cbn [fst snd].
  destruct (connectTransaction V tx height (u32 (Z.of_nat i)) (Some s)) as [[V1 [s1|]]| |] eqn:E; try done.
  destruct (connectTransaction_stxos _ _ _ _ _ _ _ E) as (new1 & E1). injection E1 as ->.
  destruct (IH (S i) V1 (s ++ new1) Hok) as (V2 & new2 & Hf & Hback).
  { intros k t Hk. replace (S i + k)%nat with (i + S k)%nat by lia. by apply Hu. }
  exists V2, (new1 ++ new2). cbn [mbind res_bind]. rewrite app_assoc. split; [exact Hf|].
  intros W pre new' post Hst HS. apply Forall2_app_inv_l in Hst as (n1' & n2' & Hst1 & Hst2 & ->).
  destruct (Hback W (pre ++ n1') n2' post Hst2 HS) as (W1 & HW1 & HS1).
  destruct (Hu 0%nat tx eq_refl V ins s V1 new1 pre n1' (n2' ++ post) W1 Hc) as (W' & HW' & HS'); [|done|done|].
  { by rewrite Nat.add_0_r. }
  exists W'. split; [|done]. rewrite foldM_app. rewrite Nat.add_0_r in HW'.
  rewrite <- !app_assoc in HW1. rewrite <- app_assoc. rewrite length_app in HW1 at 1. rewrite length_app.
  rewrite Nat.add_assoc, HW1. cbn [mbind res_bind foldM]. rewrite length_app, HW'. done.
Qed.

(** Where the coinbases of a regular tree are. *)
Definition coinbasePosition (second : bool) (i : nat) : bool := (i =? 0)%nat || ((i =? 1)%nat && second).

(** The transactions of a regular tree: coinbases in front, no votes. *)
Definition regularTree (second : bool) (txns : list MsgTx) : Prop := forall i tx, txns !! i = Some tx ->
  coinbasePosition second i = IsCoinBaseTx tx /\ journalInputs tx = Ok (tx_TxIn tx) /\
  forall height index, exists e, freshEntry tx height index = Ok e.

(** The transactions of a stake tree. *)
Definition stakeTree (txns : list MsgTx) : Prop := forall i tx, txns !! i = Some tx ->
  IsCoinBaseTx tx = false /\ forall height index, exists e, freshEntry tx height index = Ok e.

Lemma regular_undoes second height height' i tx : coinbasePosition second i = IsCoinBaseTx tx ->
  journalInputs tx = Ok (tx_TxIn tx) -> undoes True (disconnectRegularTx txHash height' second) height i tx.
Proof.
  intros Hp Hj V ins s V1 new pre new' post W Hc H Hst HS. pose proof Hc as (_ & Hins & _).
  destruct (disconnect_sim True (reviveSpent tx) (Ok (newUtxoEntry (tx_Version tx) (u32 height') (u32 (Z.of_nat i))
    (coinbasePosition second i) (negb (Expiry tx =? 0)) TxTypeRegular)) tx ins V _ _ s V1 new pre new' post W
    (fun _ => reviveSpent_revives tx) Hc H Hst HS ltac:(eauto)) as (W1 & W' & H1 & H2 & HS').
  exists W'. split; [|done]. unfold disconnectRegularTx. fold (coinbasePosition second i). rewrite H1. cbn [mbind res_bind].
  rewrite Hp. destruct (IsCoinBaseTx tx).
  - subst ins. cbn in H2. injection H2 as <- <-. done.
  - rewrite Hj in Hins. injection Hins as <-. exact H2.
Qed.

Lemma stake_undoes height height' i tx : IsCoinBaseTx tx = false ->
  (forall h k, exists e, freshEntry tx h k = Ok e) -> undoes True (disconnectStakeTx txHash height') height i tx.
Proof.
  intros Hcb Hfr V ins s V1 new pre new' post W Hc H Hst HS. pose proof Hc as (_ & Hins & _). rewrite Hcb in Hins.
  destruct (disconnect_sim True (reviveSpent tx) (freshEntry tx height' (u32 (Z.of_nat i))) tx ins V _ _ s V1 new pre new' post W
    (fun _ => reviveSpent_revives tx) Hc H Hst HS (Hfr _ _)) as (W1 & W' & H1 & H2 & HS').
  exists W'. split; [|done]. unfold disconnectStakeTx. rewrite Hins. cbn [stake_panic map_err mbind res_bind].
  rewrite H1. cbn [mbind res_bind]. exact H2.
Qed.

Lemma slice_undoes second height height' i tx : coinbasePosition second i = IsCoinBaseTx tx ->
  journalInputs tx = Ok (tx_TxIn tx) -> (forall h k, exists e, freshEntry tx h k = Ok e) ->
  undoes False (disconnectSliceTx txHash height' second) height i tx.
Proof.
  intros Hp Hj Hfr V ins s V1 new pre new' post W Hc H Hst HS. pose proof Hc as (_ & Hins & _).
  unfold disconnectSliceTx. fold (coinbasePosition second i). unfold journalInputs in Hj.
  apply bind_Ok in Hj as (t & Ht & Hj). rewrite Ht. cbn [stake_panic map_err mbind res_bind].
  destruct (disconnect_sim False (reviveSlice t) (freshEntry tx height' (u32 (Z.of_nat i))) tx ins V _ _ s V1 new pre new' post W
    ltac:(done) Hc H Hst HS (Hfr _ _)) as (W1 & W' & H1 & H2 & HS').
  exists W'. split; [|done]. rewrite H1. cbn [mbind res_bind]. rewrite Hp. destruct (IsCoinBaseTx tx).
  - subst ins. cbn in H2. injection H2 as <- <-. done.
  - unfold journalInputs in Hins. rewrite Ht in Hins. cbn [mbind res_bind] in Hins. rewrite Hj in Hins. injection Hins as <-. exact H2.
Qed.

Lemma sim_same_unspent R V W : sim R V W -> forall h i, option_Forall2 same_output (unspent V h i) (unspent W h i).
Proof.
  intros HS h i. destruct (unspent V h i) as [o|] eqn:E.
  - destruct (sim_unspent _ _ _ HS h i o E) as (o' & -> & Hs). by constructor.
  - destruct (unspent W h i) as [o|] eqn:EW; [|constructor]. exfalso.
    unfold unspent in EW. apply bind_Some in EW as (eW & HeW & EW). unfold unspentIn in EW.
    apply bind_Some in EW as (oW & HoW & EW). destruct (uo_spent oW) eqn:Es; [done|].
    destruct (sim_present _ _ _ HS h eW i oW HeW HoW) as (eV & oV & HV & HoV & _ & _ & Hsp & _).
    rewrite (unspent_entry V h eV i HV) in E. unfold unspentIn in E. rewrite HoV in E. cbn in E.
    rewrite Hsp, Es in E. done.
Qed.

Lemma same_output_refl o : same_output o o.
Proof. by repeat split. Qed.

Lemma sim_refl R V : sim R V V.
Proof.
  split.
  - intros h i o Ho. eauto using same_output_refl.
  - intros h e i o He Ho. eauto using same_output_refl.
  - intros h e1 e2 H1 H2. congruence.
  - by right.
Qed.

Lemma same_stxos_refl s : Forall2 same_stxo s s.
Proof. induction s; constructor; [by repeat split|done]. Qed.

(** A view from which the fully spent entries were pruned. *)
Lemma sim_commit V : sim True V (commit V).
Proof.
  assert (HL : forall h, LookupEntry (commit V) h =
    match LookupEntry V h with
    | Some e => if modified e && IsFullySpent e then None else Some (with_outputs e (sparseOutputs e) false)
    | None => None
    end).
  { intros h. unfold LookupEntry, commit, with_entries. cbn [entries]. rewrite lookup_omap.
    destruct (entries V !! h) as [[e|]|]; cbn; [|done..]. by destruct (modified e && IsFullySpent e). }
  split; [| | |by left].
  - intros h i o Ho. exists o. split; [|apply same_output_refl]. unfold unspent in *. rewrite HL.
    destruct (LookupEntry V h) as [e|]; [|done]. cbn in Ho. destruct (modified e && IsFullySpent e) eqn:E; [|done].
    apply andb_true_iff in E as [_ E]. rewrite IsFullySpent_unspentIn in E. rewrite E in Ho. done.
  - intros h e i o. rewrite HL. destruct (LookupEntry V h) as [e1|]; [|done].
    destruct (modified e1 && IsFullySpent e1); [done|]. intros [= <-] Ho. exists e1, o. eauto using same_output_refl.
  - intros h e1 e2 H1. rewrite HL, H1. destruct (modified e1 && IsFullySpent e1); [done|]. by intros [= <-].
Qed.

(** A journal entry as it comes back from the database, for an input whose position was
    checked and a script that decompression restores. *)
Lemma stored_same txIn st : st_compressed st = false ->
  decompressScript ParsePubKey SerializeUncompressed (compressed ParsePubKey (st_pkScript st)) = Ok (Some (st_pkScript st)) ->
  (st_txFullySpent st = true -> BlockHeight txIn = st_height st /\ BlockIndex txIn = st_index st) ->
  same_stxo st (stored ParsePubKey txIn st).
Proof.
  intros Hc Hd Hp. unfold same_stxo, stored, stxoMeta. cbn. rewrite Hc, Hd. cbn. repeat split.
  intros Hf. destruct (Hp Hf) as [-> ->]. done.
Qed.

(** C5: disconnecting a block undoes connecting it.  When the regular tree of the parent
    and then the stake tree of the block have been connected to a view, each transaction
    new and each input spending an unspent output whose amount it states, disconnecting
    the stake tree and then the regular tree succeeds and gives back exactly the outputs
    that were unspent before, with their amounts and scripts.  This holds for every view
    that agrees on what is unspent, among them the one from which the fully spent entries
    were pruned, and for journal entries that were compressed in between. *)
Theorem disconnect_undoes_connect (second : bool) (parentHeight height : Z) (parentTxns stxns : list MsgTx)
    (V0 V1 : UtxoViewpoint) (s1 : list spentTxOut) :
  regularTree second parentTxns -> tree_ok V0 [] parentHeight 0 parentTxns ->
  connectAll ParsePubKey SerializeUncompressed txHash parentHeight (V0, Some []) parentTxns = Ok (V1, Some s1) ->
  stakeTree stxns -> tree_ok V1 s1 height 0 stxns ->
  exists V2 stxos,
    connectAll ParsePubKey SerializeUncompressed txHash height (V1, Some s1) stxns = Ok (V2, Some stxos) /\
    forall W stxos', sim True V2 W -> Forall2 same_stxo stxos stxos' -> exists W1 idx W2,
      foldM (disconnectStakeTx txHash height stxos') (W, Z.of_nat (length stxos') - 1)
        (rev (zip (seq 0 (length stxns)) stxns)) = Ok (W1, idx) /\
      foldM (disconnectRegularTx txHash parentHeight second stxos') (W1, idx)
        (rev (zip (seq 0 (length parentTxns)) parentTxns)) = Ok (W2, -1) /\
      forall h i, option_Forall2 same_output (unspent V0 h i) (unspent W2 h i).
Proof.
  intros Hr Ht1 Hc1 Hs Ht2.
  destruct (tree_undo True (disconnectRegularTx txHash parentHeight second) parentHeight parentTxns 0 V0 [] Ht1)
    as (V1' & n1 & E1 & B1).
  { intros k tx Hk. destruct (Hr k tx Hk) as (Hp & Hj & _). by apply regular_undoes. }
  unfold connectAll in Hc1. rewrite Hc1 in E1. injection E1 as <- ->. cbn [app] in *.
  destruct (tree_undo True (disconnectStakeTx txHash height) height stxns 0 V1 n1 Ht2) as (V2 & n2 & E2 & B2).
  { intros k tx Hk. destruct (Hs k tx Hk) as (Hp & Hfr). by apply stake_undoes. }
  exists V2, (n1 ++ n2). split; [exact E2|]. intros W stxos' HS Hst.
  apply Forall2_app_inv_l in Hst as (n1' & n2' & Hst1 & Hst2 & ->).
  destruct (B2 W n1' n2' [] Hst2 HS) as (W1 & HW1 & HS1).
  destruct (B1 W1 [] n1' n2' Hst1 HS1) as (W2 & HW2 & HS2).
  rewrite app_nil_r in HW1. exists W1, (Z.of_nat (length n1') - 1), W2. rewrite length_app.
  split; [exact HW1|]. split; [exact HW2|]. by apply (sim_same_unspent True).
Qed.

(** C30: checking a block leaves no trace of its own regular tree.  After the regular
    tree was connected to the view for its checks, [disconnectTransactionSlice] restores
    exactly the outputs that were unspent before and returns the number of journal entries
    that were there before; except when the journal is empty, where it returns the view
    with the outputs of the tree still in it. *)
Theorem rollback_restores (second : bool) (height : Z) (txns : list MsgTx) (V0 : UtxoViewpoint) (s0 : list spentTxOut) :
  regularTree second txns -> tree_ok V0 s0 height 0 txns ->
  exists V1 stxos,
    connectAll ParsePubKey SerializeUncompressed txHash height (V0, Some s0) txns = Ok (V1, Some stxos) /\
    if decide (stxos = []) then
      disconnectTransactionSlice txHash V1 txns height (Some stxos) second = Ok (V1, 0)
    else exists W, disconnectTransactionSlice txHash V1 txns height (Some stxos) second = Ok (W, Z.of_nat (length s0)) /\
      forall h i, option_Forall2 same_output (unspent V0 h i) (unspent W h i).
Proof.
  intros Hr Ht.
  destruct (tree_undo False (disconnectSliceTx txHash height second) height txns 0 V0 s0 Ht) as (V1 & new & E & B).
  { intros k tx Hk. destruct (Hr k tx Hk) as (Hp & Hj & Hfr). by apply slice_undoes. }
  exists V1, (s0 ++ new). split; [exact E|]. unfold disconnectTransactionSlice.
  destruct (decide (s0 ++ new = [])) as [->|Hne]; [done|].
  assert (Hl : (0 < length (s0 ++ new))%nat) by (destruct (s0 ++ new); cbn; [done|lia]).
  destruct (Z.eqb_spec (Z.of_nat (length (s0 ++ new)) - 1) (-1)); [lia|].
  destruct (B V1 s0 new [] (same_stxos_refl new) (sim_refl False V1)) as (W & HW & HS).
  rewrite app_nil_r in HW. rewrite length_app, HW. cbn [mbind res_bind]. exists W.
  split; [do 2 f_equal; lia|]. by apply (sim_same_unspent False).
Qed.

End effects.

(** ** Blocks that cannot be disconnected *)

Section reorg.
Context {PubKey : Type} (ParsePubKey : bytes -> option PubKey) (SerializeUncompressed : PubKey -> bytes).
Context (txHash : MsgTx -> bytes) (isBlockValid : Z -> bool).

Lemma unspendInputs_index revive stxos ins st W idx : unspendInputs revive stxos ins st = Ok (W, idx) ->
  idx = st.2 - Z.of_nat (length ins) /\ (ins <> [] -> 0 <= st.2).
Proof.
  revert st. induction ins as [|txIn ins IH]; intros st H; cbn [unspendInputs] in H.
  { injection H as ->. cbn. split; [lia|done]. }
  destruct st as [V i]. apply bind_Ok in H as (s & Hs & H). apply bind_Ok in H as (e & _ & H).
  apply IH in H as [-> _]. unfold stxoAt in Hs. destruct (Z.ltb_spec i 0); [done|]. cbn. split; lia.
Qed.

Lemma disconnectStake_index height stxos l W0 i0 W idx :
  foldM (disconnectStakeTx txHash height stxos) (W0, i0) l = Ok (W, idx) ->
  exists inss, Forall2 (fun iTx ins => journalInputs iTx.2 = Ok ins) l inss /\
    idx = i0 - Z.of_nat (length (concat inss)).
Proof.
  revert W0 i0. induction l as [|[k tx] l IH]; intros W0 i0 H; cbn [foldM] in H.
  { injection H as <- <-. exists []. split; [constructor|cbn; lia]. }
  apply bind_Ok in H as ([W1 i1] & H1 & H2). destruct (IH _ _ H2) as (inss & Hi & ->).
  unfold disconnectStakeTx in H1. apply bind_Ok in H1 as (ins & Hj & H1). apply map_err_Ok in Hj.
  apply bind_Ok in H1 as (W2 & _ & H1). apply unspendInputs_index in H1 as [-> _]. exists (ins :: inss).
  split; [by constructor|]. cbn [concat]. rewrite length_app, length_rev. cbn. lia.
Qed.

Lemma disconnectRegular_index height second stxos l W0 i0 W idx : i0 < 0 ->
  foldM (disconnectRegularTx txHash height second stxos) (W0, i0) l = Ok (W, idx) ->
  Forall (fun iTx => coinbasePosition second iTx.1 = true \/ tx_TxIn iTx.2 = []) l.
Proof.
  intros Hi0. revert W0. induction l as [|[k tx] l IH]; intros W0 H; cbn [foldM] in H; [apply Forall_nil_2|].
  apply bind_Ok in H as ([W1 i1] & H1 & H2). unfold disconnectRegularTx in H1.
  fold (coinbasePosition second k) in H1. apply bind_Ok in H1 as (W2 & _ & H1). cbn [fst snd].
  destruct (coinbasePosition second k) eqn:E.
  - injection H1 as <- <-. apply Forall_cons_2; [by left|]. by apply (IH W2).
  - apply unspendInputs_index in H1 as [-> Hne]. cbn [fst snd] in *. rewrite length_rev in H2.
    destruct (tx_TxIn tx) as [|ti ins] eqn:Et.
    + apply Forall_cons_2; [by right|]. apply (IH W1). cbn in H2. by rewrite Z.sub_0_r in H2.
    + assert (rev (ti :: ins) <> []) by (cbn; destruct (rev ins); done). specialize (Hne H). lia.
Qed.

(** The journal entries of the stake tree are as many as [countSpentOutputs] counts. *)
Lemma count_stake stxns inss n : Forall2 (fun tx ins => journalInputs tx = Ok ins) stxns inss ->
  foldM (fun numSpent stx =>
      txType ← stake_panic (DetermineTxType stx);
      if bool_decide (txType = TxTypeSSGen) || bool_decide (txType = TxTypeSSRtx) then Ok (numSpent + 1)
      else Ok (numSpent + Z.of_nat (length (tx_TxIn stx)))) n stxns = Ok (n + Z.of_nat (length (concat inss))).
Proof.
  intros H. revert n. induction H as [|tx ins stxns inss Hi _ IH]; intros n; cbn [foldM concat]; [cbn; by rewrite Z.add_0_r|].
  pose proof (numStxos_inputs tx ins Hi) as Hn. unfold numStxosOf in Hn. apply bind_Ok in Hn as (t & Ht & Hn).
  rewrite Ht. cbn [stake_panic map_err mbind res_bind].
  assert (Hstep : (if bool_decide (t = TxTypeSSGen) || bool_decide (t = TxTypeSSRtx) then Ok (E := chainError) (n + 1)
    else Ok (n + Z.of_nat (length (tx_TxIn tx)))) = Ok (n + Z.of_nat (length ins))).
  { destruct (bool_decide_reflect (t = TxTypeSSGen)); cbn [orb]; [injection Hn as <-; done|]. injection Hn as <-.
    case_bool_decide; [|done]. subst t.
    pose proof (proj2 (proj2 (proj2 (DetermineTxType_class tx _ Ht))) eq_refl) as Hr.
    apply IsSSRtx_true in Hr as [-> _]. done. }
  rewrite Hstep. cbn [mbind res_bind]. rewrite IH, length_app. f_equal. lia.
Qed.

Lemma Forall2_rev {A B} (P : A -> B -> Prop) l k : Forall2 P l k -> Forall2 P (rev l) (rev k).
Proof. induction 1; cbn [rev]; [constructor|]. apply Forall2_app; [done|]. by repeat constructor. Qed.

Lemma length_concat_rev {A} (l : list (list A)) : length (concat (rev l)) = length (concat l).
Proof. induction l as [|x l IH]; [done|]. cbn [rev concat]. rewrite concat_app, !length_app, IH. cbn. rewrite app_nil_r. lia. Qed.

Lemma rev_journal (stxns : list MsgTx) inss :
  Forall2 (fun (iTx : nat * MsgTx) ins => journalInputs iTx.2 = Ok ins) (rev (zip (seq 0 (length stxns)) stxns)) inss ->
  Forall2 (fun tx ins => journalInputs tx = Ok ins) stxns (rev inss).
Proof.
  intros H. apply Forall2_rev in H. rewrite rev_involutive in H.
  apply Forall2_same_length_lookup in H as [Hl H]. rewrite length_zip, length_seq, Nat.min_id in Hl.
  apply Forall2_same_length_lookup_2; [done|]. intros i tx ins Htx Hins.
  apply (H i (i, tx) ins); [|done]. apply lookup_zip_with_Some. exists i, tx. split; [done|]. split; [|done].
  apply lookup_seq. split; [done|]. by apply lookup_lt_Some in Htx.
Qed.

(** C35: some blocks cannot be disconnected.  The connecting code applies the regular tree
    of a parent that is no key block whatever the votes say, but [countSpentOutputs] and
    the spend journal leave it out when the votes disapprove.  So when the header of a
    block disapproves such a parent, and the parent has a transaction with inputs after
    its coinbase, no list of journal entries makes [disconnectTransactions] succeed: it
    returns an error or indexes the journal with -1 and panics. *)
Theorem disapproved_parent_blocks_reorg (db : gmap bytes bytes) (view : UtxoViewpoint) (block parent : Block)
    (stxos : list spentTxOut) (W : UtxoViewpoint) (i : nat) (tx : MsgTx) :
  b_Height block <> 0 -> isBlockValid (h_VoteBits (b_Header block)) = false -> isKeyBlock parent = false ->
  b_Transactions parent !! i = Some tx -> i <> 0%nat -> tx_TxIn tx <> [] ->
  disconnectTransactions txHash isBlockValid db view block (Some parent) stxos <> Ok W.
Proof.
  intros Hh Hv Hk Htx Hi Hin H. unfold disconnectTransactions in H. cbn [or_panic mbind res_bind] in H.
  apply bind_Ok in H as (count & Hcnt & H). apply bind_Ok in H as (? & Hg & H). apply guard_err_Ok in Hg.
  apply negb_false_iff, Z.eqb_eq in Hg. apply bind_Ok in H as (V1 & _ & H).
  apply bind_Ok in H as ([V2 idx] & Hs & H). destruct (disconnectStake_index _ _ _ _ _ _ _ Hs) as (inss & Hj & ->).
  apply rev_journal in Hj. assert (Hc : count = Z.of_nat (length (concat inss)) \/ count = 0).
  { unfold countSpentOutputs in Hcnt. rewrite Hv in Hcnt. destruct (isKeyBlock block); cbn [negb] in Hcnt.
    - rewrite (count_stake _ _ _ Hj), length_concat_rev in Hcnt. injection Hcnt as <-. left. lia.
    - injection Hcnt as <-. by right. }
  unfold parentTreeValid in H. rewrite Hv, Hk in H. cbn [negb orb] in H.
  destruct (Z.eqb_spec (b_Height block) 0) as [|_]; [done|]. cbn [negb andb] in H.
  apply bind_Ok in H as (V3 & H3 & _). apply bind_Ok in H3 as (V4 & _ & H3). apply bind_Ok in H3 as ([V5 idx5] & H3 & _).
  apply disconnectRegular_index in H3; [|lia].
  assert (Hel : (i, tx) ∈ rev (zip (seq 0 (length (b_Transactions parent))) (b_Transactions parent))).
  { apply list_elem_of_In. rewrite <- in_rev. apply list_elem_of_In, list_elem_of_lookup. exists i.
    apply lookup_zip_with_Some. exists i, tx. split; [done|]. split; [|done]. apply lookup_seq.
    split; [done|]. by apply lookup_lt_Some in Htx. }
  rewrite Forall_forall in H3. destruct (H3 (i, tx) Hel) as [Hp|Hp]; cbn [fst snd] in Hp; [|done].
  unfold coinbasePosition in Hp. rewrite andb_false_r, orb_false_r in Hp. by apply Nat.eqb_eq in Hp.
Qed.

End reorg.

(** ** Examples *)

Module Sample.

Definition key (k : bytes) : bytes := k.
Definition txHash (tx : MsgTx) : bytes := [LockTime tx].
Definition isBlockValid (voteBits : Z) : bool := Z.odd voteBits.

Definition spends (h : bytes) (i v : Z) : TxIn := MkTxIn (MkOutPoint h i TxTreeRegular) MaxUint32 v 4 2 [].
Definition coinbase : MsgTx :=
  MkMsgTx None TxSerializeFull 1 [MkTxIn (MkOutPoint zeroHash MaxUint32 TxTreeRegular) MaxUint32 8 0 NullBlockIndex []]
    [MkTxOut 8 0 sample_p2pkh] 100 0.
(** Two transactions, the second of which spends the first output of the first. *)
Definition first : MsgTx :=
  MkMsgTx None TxSerializeFull 1 [spends [1] 0 50] [MkTxOut 30 0 sample_p2pkh; MkTxOut 15 0 sample_p2pkh] 101 0.
Definition second : MsgTx :=
  MkMsgTx None TxSerializeFull 1 [spends [101] 0 30; spends [1] 1 7] [MkTxOut 36 0 sample_p2pkh] 102 0.

Definition plain (v : Z) : utxoOutput := MkOutput sample_p2pkh v 0 false false.
Definition packed (v : Z) : utxoOutput := MkOutput (0 :: replicate 20 7) v 0 true false.

Definition view : UtxoViewpoint :=
  MkView (<[[1] := Some (MkEntry (<[0 := packed 50]> (<[1 := plain 7]> ∅)) [] 1 4 2 TxTypeRegular false false false)]>
         (<[replicate 32 9 := Some (MkEntry (<[0 := plain 100]> ∅) [0] 1 5 1 TxTypeSStx false false false)]> ∅)) [] 0.

#[local] Notation P := SampleKeys.ParsePubKey.

Lemma first_connectable : connectable txHash view first [spends [1] 0 50].
Proof.
  split; [vm_compute; reflexivity|]. split; [vm_compute; reflexivity|].
  split; [apply (bool_decide_unpack _); vm_compute; exact I|].
  apply Forall_cons_2; [|apply Forall_nil_2]. exists (packed 50). split; vm_compute; reflexivity.
Qed.

Lemma connect_moves_value_witness : exists V' stxos',
  connectTransaction P key txHash view first 9 1 (Some []) = Ok (V', stxos') /\ viewValue V' = 157 - 50 + 45.
Proof.
  destruct (connect_moves_value P key txHash view first [spends [1] 0 50] 9 1 (Some [])) as (V' & s' & H1 & _ & H3).
  - exact first_connectable.
  - apply Forall_cons_2; [|apply Forall_nil_2]. intros o Ho. vm_compute in Ho. injection Ho as <-.
    eexists. vm_compute. reflexivity.
  - vm_compute. reflexivity.
  - eexists. vm_compute. reflexivity.
  - exists V', s'. split; [exact H1|]. rewrite H3. vm_compute. reflexivity.
Defined.

Lemma tree_ok_cons V s height i tx txns ins V' s' : connectable txHash V tx ins ->
  connectTransaction P key txHash V tx height (u32 (Z.of_nat i)) (Some s) = Ok (V', Some s') ->
  tree_ok P key txHash V' s' height (S i) txns -> tree_ok P key txHash V s height i (tx :: txns).
Proof. intros Hc H Ht. cbn [tree_ok]. exists ins. split; [done|]. by rewrite H. Qed.

Ltac connect_next ins :=
  eapply (tree_ok_cons _ _ _ _ _ _ ins);
  [split; [vm_compute; reflexivity|split; [vm_compute; reflexivity|split; [apply (bool_decide_unpack _); vm_compute; exact I|
     repeat (apply Forall_cons_2; [eexists; split; vm_compute; reflexivity|]); apply Forall_nil_2]]]
  |vm_compute; reflexivity|].

Lemma sample_tree (s : list spentTxOut) : s = [] \/ s = [zeroStxo] ->
  tree_ok P key txHash view s 9 0 [coinbase; first; second].
Proof.
  intros [-> | ->]; connect_next (@nil TxIn); connect_next (tx_TxIn first); connect_next (tx_TxIn second); exact I.
Qed.

Lemma fresh_plain (tx : MsgTx) : DetermineTxType tx = Ok TxTypeRegular \/ DetermineTxType tx = Ok TxTypeSSGen ->
  forall height index, exists e, freshEntry tx height index = Ok e.
Proof. intros [H|H] height index; unfold freshEntry; rewrite H; eexists; reflexivity. Qed.

Lemma sample_regular : regularTree false [coinbase; first; second].
Proof.
  intros i tx Hi. destruct i as [|[|[|i]]]; [..|done]; injection Hi as <-;
    (split; [vm_compute; reflexivity|split; [vm_compute; reflexivity|apply fresh_plain; left; vm_compute; reflexivity]]).
Qed.

(** The view is pruned before the disconnection. *)
Lemma disconnect_undoes_connect_witness : exists V1 s1 V2 stxos W1 idx W2,
  connectAll P key txHash 9 (view, Some []) [coinbase; first; second] = Ok (V1, Some s1) /\
  connectAll P key txHash 10 (V1, Some s1) [sample_vote] = Ok (V2, Some stxos) /\ length stxos = 4%nat /\
  foldM (disconnectStakeTx txHash 10 stxos) (commit V2, 3) (rev (zip (seq 0 1) [sample_vote])) = Ok (W1, idx) /\
  foldM (disconnectRegularTx txHash 9 false stxos) (W1, idx)
    (rev (zip (seq 0 3) [coinbase; first; second])) = Ok (W2, -1) /\
  forall h i, option_Forall2 (same_output P key) (unspent view h i) (unspent W2 h i).
Proof.
  destruct (connectAll P key txHash 9 (view, Some []) [coinbase; first; second]) as [[V1 [s1|]]| |] eqn:E1;
    [|exfalso; vm_compute in E1; discriminate E1..].
  destruct (disconnect_undoes_connect P key txHash false 9 10 [coinbase; first; second] [sample_vote] view V1 s1)
    as (V2 & stxos & H2 & Hback).
  - exact sample_regular.
  - apply sample_tree. by left.
  - exact E1.
  - intros i tx Hi. destruct i as [|i]; [|done]. injection Hi as <-. split; [vm_compute; reflexivity|].
    apply fresh_plain. right. vm_compute. reflexivity.
  - vm_compute in E1. injection E1 as <- <-. connect_next (drop 1 (tx_TxIn sample_vote)). exact I.
  - assert (Hl : length stxos = 4%nat).
    { vm_compute in E1. injection E1 as <- <-. vm_compute in H2. injection H2 as _ <-. reflexivity. }
    destruct (Hback (commit V2) stxos (sim_commit P key V2) (same_stxos_refl P key stxos)) as (W1 & idx & W2 & HW1 & HW2 & HU).
    rewrite Hl in HW1. exists V1, s1, V2, stxos, W1, idx, W2. split; [reflexivity|]. auto.
Defined.

Lemma rollback_restores_witness : exists V1 stxos W,
  connectAll P key txHash 9 (view, Some [zeroStxo]) [coinbase; first; second] = Ok (V1, Some stxos) /\
  disconnectTransactionSlice txHash V1 [coinbase; first; second] 9 (Some stxos) false = Ok (W, 1) /\
  forall h i, option_Forall2 (same_output P key) (unspent view h i) (unspent W h i).
Proof.
  destruct (rollback_restores P key txHash false 9 [coinbase; first; second] view [zeroStxo]) as (V1 & stxos & H1 & H2).
  - exact sample_regular.
  - apply sample_tree. by right.
  - exists V1, stxos. destruct (decide (stxos = [])) as [->|_].
    + exfalso. vm_compute in H1. discriminate H1.
    + destruct H2 as (W & HW & HU). exists W. auto.
Defined.

(** A key block on a parent that is none and that it disapproves. *)
Definition header (voteBits bits : Z) : BlockHeader :=
  MkHeader 1 [] [] [] [] voteBits [] 0 0 0 0 bits 0 0 0 0 0 0 [] 0.
Definition parent : Block := MkUtilBlock (MkBlock (header 1 0) [coinbase; first] []) 9 (replicate 32 1).
Definition child : Block := MkUtilBlock (MkBlock (header 0 0x1d00ffff) [coinbase] []) 10 (replicate 32 0).

Lemma disapproved_parent_blocks_reorg_witness :
  (exists st, connectTransactions P key txHash isBlockValid ∅ view child (Some parent) (Some []) = Ok st) /\
  forall stxos W, disconnectTransactions txHash isBlockValid ∅ view child (Some parent) stxos <> Ok W.
Proof.
  split; [eexists; vm_compute; reflexivity|]. intros stxos W.
  apply (disapproved_parent_blocks_reorg txHash isBlockValid ∅ view child parent stxos W 1 first);
    first [reflexivity | discriminate | vm_compute; reflexivity].
Defined.
End Sample.
