(* ===== verification/ChainState.v ===== *)
(** * The chain's own records

    The second half of [blockchain/chainio.go]: the index between heights and hashes of the
    main chain, the database information, the best chain state, the headers and key heights
    that are looked up through the index, and the stored threshold states.  A bucket is a
    finite map from keys to values; [Get] of a missing key is [None].  The raw blocks are
    read through the function [FetchBlockHeader] of the block database, a parameter. *)

From S2P Require Import Prelude WireCommon StakeTx TicketDb.
From Stdlib Require Import String.
From stdpp Require Import gmap list strings pretty.
#[local] Open Scope Z_scope.

Inductive indexError := errNotInMainChain | errDeserialize | ErrCorruption | FetchFailed | BadHeader (e : wireError)
| BadRange.

Definition MempoolHeight : Z := 0x7fffffff.
Definition upgradeStartedBit : Z := 0x80000000.

(** What the functions use of the metadata bucket. *)
Record metadata := MkMeta {
  hashIndex : gmap bytes bytes;
  heightIndex : gmap bytes bytes;
  chainState : option bytes;
  dbInfo : option (option bytes)
}.

Definition with_index (meta : metadata) (hashes heights : gmap bytes bytes) : metadata :=
  MkMeta hashes heights (chainState meta) (dbInfo meta).

(** [ByteOrder.Uint32] and its kin panic on fewer bytes than they read. *)
Definition uint_at {E} (n : nat) (b : bytes) : res E Z := v ← sub_slice b 0 n; Ok (get_le v).

(** ** The block index *)

Definition dbPutBlockIndex (meta : metadata) (hash : bytes) (height : Z) : metadata :=
  let serializedHeight := put_le 4 (u32 height) in
  with_index meta (<[hash := serializedHeight]> (hashIndex meta)) (<[serializedHeight := hash]> (heightIndex meta)).

Definition dbRemoveBlockIndex (meta : metadata) (hash : bytes) (height : Z) : metadata :=
  let serializedHeight := put_le 4 (u32 height) in
  with_index meta (delete hash (hashIndex meta)) (delete serializedHeight (heightIndex meta)).

Definition dbFetchHeightByHash (meta : metadata) (hash : bytes) : res indexError Z :=
  match hashIndex meta !! hash with
  | None => Err errNotInMainChain
  | Some serializedHeight => uint_at 4 serializedHeight
  end.

Definition dbFetchHashByHeight (meta : metadata) (height : Z) : res indexError bytes :=
  match heightIndex meta !! put_le 4 (u32 height) with
  | None => Err errNotInMainChain
  | Some hashBytes => Ok (take 32 (hashBytes ++ replicate 32 0))
  end.

Definition dbMainChainHasBlock (meta : metadata) (hash : bytes) : bool :=
  match hashIndex meta !! hash with Some _ => true | None => false end.

(** The hashes of the heights from [startHeight] to before [endHeight], where [latestHeight]
    is the height of the best node. *)
Definition HeightRange (meta : metadata) (latestHeight startHeight endHeight : Z) : res indexError (list bytes) :=
  if startHeight <? 0 then Err BadRange
  else if endHeight <? startHeight then Err BadRange
  else if startHeight =? endHeight then Ok []
  else if startHeight >? latestHeight then Ok []
  else
    let endHeight := if endHeight >? latestHeight + 1 then latestHeight + 1 else endHeight in
    mapR (dbFetchHashByHeight meta) (seqZ startHeight (endHeight - startHeight)).

Section headers.
Context (FetchBlockHeader : bytes -> option bytes).

Definition dbFetchHeaderByHash (hash : bytes) : res indexError BlockHeader :=
  match FetchBlockHeader hash with
  | None => Err FetchFailed
  | Some headerBytes => '(header, _) ← map_err BadHeader (readBlockHeader headerBytes); Ok header
  end.

Definition dbFetchHeaderByHeight (meta : metadata) (height : Z) : res indexError BlockHeader :=
  hash ← dbFetchHashByHeight meta height;
  dbFetchHeaderByHash hash.

Definition KeyHeightByHeight (meta : metadata) (keyHeightCache : gmap Z Z) (height : Z) : res indexError Z :=
  if height =? MempoolHeight then Ok height
  else if height =? 0 then Ok 0
  else
    match keyHeightCache !! height with
    | Some keyHeight => Ok keyHeight
    | None => header ← dbFetchHeaderByHeight meta height; Ok (h_KeyHeight header)
    end.

End headers.

(** ** The database information *)

Record databaseInfo := MkDbInfo {
  di_version : Z;
  di_compVer : Z;
  di_date : Z;
  di_upgradeStarted : bool
}.

Definition serializeDatabaseInfo (dbi : databaseInfo) : bytes :=
  let version := if di_upgradeStarted dbi then Z.lor (di_version dbi) upgradeStartedBit else di_version dbi in
  put_le 4 version ++ put_le 4 (di_compVer dbi) ++ put_le 4 (u32 (di_date dbi)).

Definition deserializeDatabaseInfo (dbInfoBytes : bytes) : res indexError databaseInfo :=
  rawVersion ← sub_slice dbInfoBytes 0 4;
  compVer ← sub_slice dbInfoBytes 4 8;
  ts ← sub_slice dbInfoBytes 8 12;
  let rawVersion := get_le rawVersion in
  Ok (MkDbInfo (Z.ldiff rawVersion upgradeStartedBit) (get_le compVer) (get_le ts)
        (Z.land upgradeStartedBit rawVersion >? 0)).

(** [Put] on a missing bucket panics. *)
Definition dbPutDatabaseInfo (meta : metadata) (dbi : databaseInfo) : res indexError metadata :=
  _ ← or_panic (dbInfo meta);
  Ok (MkMeta (hashIndex meta) (heightIndex meta) (chainState meta) (Some (Some (serializeDatabaseInfo dbi)))).

Definition dbFetchDatabaseInfo (meta : metadata) : res indexError (option databaseInfo) :=
  match dbInfo meta with
  | None => Ok None
  | Some None => Err errDeserialize
  | Some (Some dbInfoBytes) =>
    if (length dbInfoBytes <? 12)%nat then Err ErrCorruption
    else dbi ← deserializeDatabaseInfo dbInfoBytes; Ok (Some dbi)
  end.

(** ** The best chain state *)

Record bestChainState := MkBest {
  bs_hash : bytes;
  bs_height : Z;
  bs_totalTxns : Z;
  bs_totalSubsidy : Z;
  bs_workSum : Z
}.

(** [big.Int.Bytes], the absolute value without leading zeros, and [SetBytes]. *)
Definition big_Bytes (x : Z) : bytes :=
  if x =? 0 then [] else put_be (Z.to_nat (Z.log2 (Z.abs x) / 8 + 1)) (Z.abs x).
Definition big_SetBytes (b : bytes) : Z := get_be b.

Definition serializeBestState (state : bestChainState) : bytes :=
  let workSumBytes := big_Bytes (bs_workSum state) in
  let workSumBytesLen := u32 (Z.of_nat (length workSumBytes)) in
  bs_hash state ++ put_le 4 (bs_height state) ++ put_le 8 (bs_totalTxns state) ++
  put_le 8 (u64 (bs_totalSubsidy state)) ++ put_le 4 workSumBytesLen ++ workSumBytes.

Definition deserializeBestState (serializedData : bytes) : res indexError bestChainState :=
  if (length serializedData <? 56)%nat then Err ErrCorruption
  else
    hash ← sub_slice serializedData 0 32;
    height ← sub_slice serializedData 32 36;
    totalTxns ← sub_slice serializedData 36 44;
    totalSubsidy ← sub_slice serializedData 44 52;
    workSumBytesLen ← sub_slice serializedData 52 56;
    let workSumBytesLen := get_le workSumBytesLen in
    if u32 (Z.of_nat (length (drop 56 serializedData))) <? workSumBytesLen then Err ErrCorruption
    else
      workSumBytes ← sub_slice serializedData 56 (Z.to_nat (u32 (56 + workSumBytesLen)));
      Ok (MkBest hash (get_le height) (get_le totalTxns) (i64 (get_le totalSubsidy)) (big_SetBytes workSumBytes)).

(** The snapshot is given by its fields. *)
Definition putBestState (meta : metadata) (hash : bytes) (height totalTxns totalSubsidy workSum : Z) : metadata :=
  MkMeta (hashIndex meta) (heightIndex meta)
    (Some (serializeBestState (MkBest hash (u32 height) totalTxns totalSubsidy workSum))) (dbInfo meta).

(** ** Stored threshold states *)

(** [chaincfg.Choice], [chaincfg.Vote] and [chaincfg.ConsensusDeployment]. *)
Record Choice := MkChoice {
  ch_Id : string;
  ch_Description : string;
  ch_Bits : Z;
  ch_IsAbstain : bool;
  ch_IsNo : bool
}.

Record Vote := MkVote {
  v_Id : string;
  v_Description : string;
  v_Mask : Z;
  v_Choices : list Choice
}.

Record ConsensusDeployment := MkDeployment {
  d_Vote : Vote;
  d_StartTime : Z;
  d_ExpireTime : Z
}.

#[export] Instance Choice_eq_dec : EqDecision Choice.
Proof. solve_decision. Defined.
#[export] Instance Vote_eq_dec : EqDecision Vote.
Proof. solve_decision. Defined.
#[export] Instance ConsensusDeployment_eq_dec : EqDecision ConsensusDeployment.
Proof. solve_decision. Defined.

Definition bool_byte (b : bool) : Z := if b then 1 else 0.

Definition choiceBytes (c : Choice) : bytes := put_le 2 (ch_Bits c) ++ [bool_byte (ch_IsAbstain c); bool_byte (ch_IsNo c)].

Definition serializeDeploymentCacheParams (deployment : ConsensusDeployment) : bytes :=
  let choices := v_Choices (d_Vote deployment) in
  put_le 2 (v_Mask (d_Vote deployment)) ++ put_le 8 (d_StartTime deployment) ++ put_le 8 (d_ExpireTime deployment) ++
  put_le 2 (u16 (Z.of_nat (length choices))) ++ concat (choiceBytes <$> choices).

(** [Choices[i]]; the identifier and the description are not stored. *)
Definition choiceAt (serialized : bytes) (i : nat) : res indexError Choice :=
  bits ← sub_slice serialized (20 + i * 4) (20 + i * 4 + 2);
  isAbstain ← or_panic (serialized !! (20 + i * 4 + 2)%nat);
  isNo ← or_panic (serialized !! (20 + i * 4 + 3)%nat);
  Ok (MkChoice EmptyString EmptyString (get_le bits) (negb (isAbstain =? 0)) (negb (isNo =? 0))).

Definition deserializeDeploymentCacheParams (serialized : bytes) : res indexError ConsensusDeployment :=
  if (length serialized <? 20)%nat then Err ErrCorruption
  else
    mask ← sub_slice serialized 0 2;
    startTime ← sub_slice serialized 2 10;
    expireTime ← sub_slice serialized 10 18;
    choicesLen ← sub_slice serialized 18 20;
    let choicesLen := Z.to_nat (get_le choicesLen) in
    if negb (length serialized =? 20 + choicesLen * 4)%nat then Err ErrCorruption
    else
      choices ← mapR (choiceAt serialized) (seq 0 choicesLen);
      Ok (MkDeployment (MkVote EmptyString EmptyString (get_le mask) choices) (get_le startTime) (get_le expireTime)).

Definition bytes_of_string (s : string) : bytes :=
  (fun a => Z.of_N (Ascii.N_of_ascii a)) <$> String.list_ascii_of_string s.

Definition deploymentBucketName : bytes := bytes_of_string "deploymentcache".
Definition deploymentStateKeyName : bytes := bytes_of_string "deploymentstate".
Definition numDeploymentsKeyName : bytes := bytes_of_string "numdeployments".

(** The bucket of the threshold caches: its values and the buckets in it. *)
Record thresholdBucket := MkThreshold {
  tb_values : gmap bytes bytes;
  tb_buckets : gmap bytes (gmap bytes bytes)
}.

Definition dbPutDeploymentCacheParams (bucket : gmap bytes bytes) (deployment : ConsensusDeployment) : gmap bytes bytes :=
  <[deploymentStateKeyName := serializeDeploymentCacheParams deployment]> bucket.

(** A missing value is read as no bytes. *)
Definition dbFetchDeploymentCacheParams (bucket : gmap bytes bytes) : res indexError ConsensusDeployment :=
  deserializeDeploymentCacheParams (default [] (bucket !! deploymentStateKeyName)).

Definition serializeNumDeployments (numDeployments : Z) : bytes := put_le 4 numDeployments.

Definition deserializeNumDeployments (serialized : bytes) : res indexError Z :=
  if negb (length serialized =? 4)%nat then Err ErrCorruption else Ok (get_le serialized).

(** The decimal digits of the version follow the name. *)
Definition appendVersion (blob : bytes) (version : Z) : bytes := blob ++ bytes_of_string (pretty version).

Definition dbPutNumDeployments (bucket : thresholdBucket) (version numDeployments : Z) : thresholdBucket :=
  MkThreshold (<[appendVersion numDeploymentsKeyName version := serializeNumDeployments numDeployments]> (tb_values bucket))
    (tb_buckets bucket).

Definition dbFetchNumDeployments (bucket : thresholdBucket) (version : Z) : res indexError Z :=
  deserializeNumDeployments (default [] (tb_values bucket !! appendVersion numDeploymentsKeyName version)).

Definition thresholdCacheBucket (prefix : bytes) (id : Z) : bytes := prefix ++ put_le 4 id.

Definition deploymentBucket (i : nat) : bytes := thresholdCacheBucket deploymentBucketName (u32 (Z.of_nat i)).

Definition DeleteBucket (bucket : thresholdBucket) (key : bytes) : thresholdBucket :=
  MkThreshold (tb_values bucket) (delete key (tb_buckets bucket)).

(** The stored caches of one version that are no longer valid.  Deleting a bucket that is
    not there changes nothing, as skipping it does. *)
Definition invalidateVersion (cachesBucket : thresholdBucket) (version : Z) (deployments : list ConsensusDeployment) :
    res indexError thresholdBucket :=
  numStoredDeployments ← dbFetchNumDeployments cachesBucket version;
  let definedDeployments := length deployments in
  let cachesBucket :=
    foldl (fun bucket i => DeleteBucket bucket (deploymentBucket i)) cachesBucket
      (seq definedDeployments (Z.to_nat numStoredDeployments - definedDeployments)) in
  foldM (fun cachesBucket (iDep : nat * ConsensusDeployment) =>
    match tb_buckets cachesBucket !! deploymentBucket iDep.1 with
    | None => Ok cachesBucket
    | Some deployBucket =>
      stored ← dbFetchDeploymentCacheParams deployBucket;
      Ok (if decide (stored = iDep.2) then cachesBucket else DeleteBucket cachesBucket (deploymentBucket iDep.1))
    end) cachesBucket (indexed deployments).

(** [versions] lists the map of deployments in the order of its iteration. *)
Definition invalidateThresholdCaches (versions : list (Z * list ConsensusDeployment)) (cachesBucket : thresholdBucket) :
    res indexError thresholdBucket :=
  foldM (fun cachesBucket v => invalidateVersion cachesBucket v.1 v.2) cachesBucket versions.

(** The buckets of the deployments of one version that are missing. *)
Definition createBuckets (cachesBucket : thresholdBucket) (deployments : list ConsensusDeployment) : thresholdBucket :=
  foldl (fun cachesBucket (iDep : nat * ConsensusDeployment) =>
    match tb_buckets cachesBucket !! deploymentBucket iDep.1 with
    | Some _ => cachesBucket
    | None => MkThreshold (tb_values cachesBucket)
                (<[deploymentBucket iDep.1 := dbPutDeploymentCacheParams ∅ iDep.2]> (tb_buckets cachesBucket))
    end) cachesBucket (indexed deployments).

(** The deployments and their caches have the same versions and lengths. *)
Definition initThresholdCacheBuckets (versions : list (Z * list ConsensusDeployment)) (cachesBucket : option thresholdBucket) :
    res indexError thresholdBucket :=
  let cachesBucket := default (MkThreshold ∅ ∅) cachesBucket in
  cachesBucket ← foldM (fun cachesBucket (v : Z * list ConsensusDeployment) =>
    let definedDeployments := u32 (Z.of_nat (length v.2)) in
    match dbFetchNumDeployments cachesBucket v.1 with
    | Panic => Panic
    | Ok storedDeployments =>
      Ok (if storedDeployments =? definedDeployments then cachesBucket
          else dbPutNumDeployments cachesBucket v.1 definedDeployments)
    | Err _ => Ok (dbPutNumDeployments cachesBucket v.1 definedDeployments)
    end) cachesBucket versions;
  Ok (foldl (fun cachesBucket (v : Z * list ConsensusDeployment) => createBuckets cachesBucket v.2) cachesBucket versions).

(** *** The caches in memory *)

(** The number of a state and the activated choice. *)
Record ThresholdStateTuple := MkTuple { t_State : Z; t_Choice : Z }.

#[export] Instance ThresholdStateTuple_eq_dec : EqDecision ThresholdStateTuple.
Proof. solve_decision. Defined.

Record thresholdStateCache := MkCache {
  dbUpdates : gmap bytes ThresholdStateTuple;
  c_entries : gmap bytes ThresholdStateTuple
}.

Definition Lookup (c : thresholdStateCache) (hash : bytes) : option ThresholdStateTuple := c_entries c !! hash.

Definition Update (c : thresholdStateCache) (hash : bytes) (state : ThresholdStateTuple) : thresholdStateCache :=
  if decide (c_entries c !! hash = Some state) then c
  else MkCache (<[hash := state]> (dbUpdates c)) (<[hash := state]> (c_entries c)).

Definition MarkFlushed (c : thresholdStateCache) : thresholdStateCache := MkCache ∅ (c_entries c).

Notation thresholdCaches := (gmap Z (list thresholdStateCache)) (only parsing).

Definition newThresholdCaches (versions : list (Z * list ConsensusDeployment)) : thresholdCaches :=
  foldl (fun caches (v : Z * list ConsensusDeployment) => <[v.1 := (fun _ => MkCache ∅ ∅) <$> v.2]> caches) ∅ versions.

Definition thresholdStateBytes (state : ThresholdStateTuple) : bytes := u8 (t_State state) :: put_le 4 (t_Choice state).

Definition dbPutThresholdState (bucket : gmap bytes bytes) (hash : bytes) (state : ThresholdStateTuple) : gmap bytes bytes :=
  <[hash := thresholdStateBytes state]> bucket.

(** The states of the cache [caches[version][i]]; both a missing cache and a missing bucket
    panic.  The keys of the updates differ, so their order does not matter. *)
Definition putThresholdCache (caches : thresholdCaches) (version : Z) (cachesBucket : thresholdBucket) (i : nat) :
    res indexError thresholdBucket :=
  cache ← or_panic (caches !! version ≫= (.!! i));
  if decide (dbUpdates cache = ∅) then Ok cachesBucket
  else
    bucket ← or_panic (tb_buckets cachesBucket !! deploymentBucket i);
    Ok (MkThreshold (tb_values cachesBucket)
          (<[deploymentBucket i := map_fold (fun hash state bucket => dbPutThresholdState bucket hash state) bucket (dbUpdates cache)]>
             (tb_buckets cachesBucket))).

(** The index [i] of the caches of a version runs over the number of versions. *)
Definition dbPutThresholdCaches (order : list Z) (caches : thresholdCaches) (cachesBucket : thresholdBucket) :
    res indexError thresholdBucket :=
  foldM (fun cachesBucket version =>
    foldM (putThresholdCache caches version) cachesBucket (seq 0 (size caches))) cachesBucket order.

Definition markThresholdCachesFlushed (caches : thresholdCaches) : thresholdCaches :=
  (fun vcaches : list thresholdStateCache => MarkFlushed <$> vcaches) <$> caches.

(** Reading the states of a bucket into a cache; keys that are no hashes are skipped. *)
Definition loadEntries (bucket : gmap bytes bytes) (cache : thresholdStateCache) : res indexError thresholdStateCache :=
  foldM (fun cache (kv : bytes * bytes) =>
    if negb (length kv.1 =? 32)%nat then Ok cache
    else
      state ← or_panic (kv.2 !! 0%nat);
      choice ← uint_at 4 (drop 1 kv.2);
      Ok (MkCache (dbUpdates cache) (<[kv.1 := MkTuple state choice]> (c_entries cache)))) cache (map_to_list bucket).

Definition dbFetchThresholdCaches (order : list Z) (caches : thresholdCaches) (cachesBucket : option thresholdBucket) :
    res indexError thresholdCaches :=
  match cachesBucket with
  | None => Ok caches
  | Some cachesBucket =>
    foldM (fun (caches : thresholdCaches) version =>
      foldM (fun (caches : thresholdCaches) i =>
        match tb_buckets cachesBucket !! deploymentBucket i with
        | None => Ok caches
        | Some bucket =>
          if decide (filter (fun kv : bytes * bytes => length kv.1 = 32%nat) bucket = ∅) then Ok caches
          else
            vcaches ← or_panic (caches !! version);
            cache ← or_panic (vcaches !! i);
            cache ← loadEntries bucket cache;
            Ok (<[version := <[i := cache]> vcaches]> caches)
        end) caches (seq 0 (size caches))) caches order
  end.

(** The part of [initThresholdCaches] that changes the stored caches and loads them. *)
Definition initThresholdCaches (versions : list (Z * list ConsensusDeployment)) (cachesBucket : option thresholdBucket)
    (caches : thresholdCaches) : res indexError (thresholdBucket * thresholdCaches) :=
  cachesBucket ← match cachesBucket with
                 | None => Ok None
                 | Some bucket => bucket ← invalidateThresholdCaches versions bucket; Ok (Some bucket)
                 end;
  bucket ← initThresholdCacheBuckets versions cachesBucket;
  caches ← dbFetchThresholdCaches versions.*1 caches (Some bucket);
  Ok (bucket, caches).

Lemma slice_field {E} (pre x post : bytes) (m n : nat) : length pre = m -> length x = n ->
  sub_slice (E := E) (pre ++ x ++ post) m (m + n) = Ok x.
Proof.
  intros Hp Hx. rewrite sub_slice_Ok by (rewrite !length_app; lia). rewrite Nat.add_comm, Nat.add_sub.
  by rewrite field_at.
Qed.

Lemma slice_first {E} (x post : bytes) (n : nat) : length x = n -> sub_slice (E := E) (x ++ post) 0 n = Ok x.
Proof. apply (slice_field [] x post 0 n eq_refl). Qed.

Lemma slice_last {E} (pre x : bytes) (m n : nat) : length pre = m -> length x = n ->
  sub_slice (E := E) (pre ++ x) m (m + n) = Ok x.
Proof. intros Hp Hx. rewrite <- (app_nil_r x) at 1. by apply slice_field. Qed.

Lemma uint_at_put {E} n x post : uint_at (E := E) n (put_le n x ++ post) = Ok (x mod 256 ^ Z.of_nat n).
Proof.
  unfold uint_at. rewrite slice_first by apply length_put_le.
  cbn [mbind res_bind]. by rewrite get_put_le.
Qed.

(** ** The index follows the chain *)

(** Every way in which blocks are connected to and disconnected from the end of the main
    chain; [chain] lists the hashes by height. *)
Inductive indexed_chain : metadata -> list bytes -> Prop :=
| indexed_empty meta : hashIndex meta = ∅ -> heightIndex meta = ∅ -> indexed_chain meta []
| indexed_connect meta chain hash : indexed_chain meta chain -> hash ∉ chain -> length hash = 32%nat ->
    Z.of_nat (length chain) < 2 ^ 32 ->
    indexed_chain (dbPutBlockIndex meta hash (Z.of_nat (length chain))) (chain ++ [hash])
| indexed_disconnect meta chain hash : indexed_chain meta (chain ++ [hash]) ->
    indexed_chain (dbRemoveBlockIndex meta hash (Z.of_nat (length chain))) chain.

Definition heightKey (i : nat) : bytes := put_le 4 (u32 (Z.of_nat i)).

(** The two buckets of the index are the chain and its inverse. *)
Record index_ok (meta : metadata) (chain : list bytes) : Prop := {
  io_hash hash v : hashIndex meta !! hash = Some v <-> exists i, chain !! i = Some hash /\ v = heightKey i;
  io_height i : Z.of_nat i < 2 ^ 32 -> heightIndex meta !! heightKey i = chain !! i;
  io_nodup : NoDup chain;
  io_length : Forall (fun hash => length hash = 32%nat) chain;
  io_bound : Z.of_nat (length chain) <= 2 ^ 32
}.

Lemma heightKey_inj i j : Z.of_nat i < 2 ^ 32 -> Z.of_nat j < 2 ^ 32 -> heightKey i = heightKey j -> i = j.
Proof.
  intros Hi Hj E. unfold heightKey in E. rewrite !u32_small in E by (unfold is_u32; lia).
  apply put_le_inj in E; [lia|cbn; lia..].
Qed.

Lemma index_connect meta chain hash : index_ok meta chain -> hash ∉ chain -> length hash = 32%nat ->
  Z.of_nat (length chain) < 2 ^ 32 -> index_ok (dbPutBlockIndex meta hash (Z.of_nat (length chain))) (chain ++ [hash]).
Proof.
  intros [Hh Hg Hnd Hl Hb] Hni H32 Hlt. split.
  - intros h v. cbn. fold (heightKey (length chain)). destruct (decide (h = hash)) as [->|Hne].
    + rewrite lookup_insert_eq. split.
      * intros [= <-]. exists (length chain). by rewrite list_lookup_middle.
      * intros (i & Hi & ->). apply lookup_snoc_Some in Hi as [[_ Hi]|[-> _]]; [|done].
        destruct Hni. by apply list_elem_of_lookup_2 in Hi.
    + rewrite lookup_insert_ne, Hh by congruence. split; intros (i & Hi & ->); exists i; split; auto.
      * apply lookup_app_Some. by left.
      * apply lookup_snoc_Some in Hi as [[_ Hi]|[_ ->]]; done.
  - intros i Hi. cbn. fold (heightKey (length chain)). destruct (decide (i = length chain)) as [->|Hne].
    + by rewrite lookup_insert_eq, list_lookup_middle.
    + rewrite lookup_insert_ne by (intros E; apply Hne; symmetry; by apply heightKey_inj). rewrite Hg by done.
      destruct (decide (i < length chain)%nat).
      * by rewrite lookup_app_l.
      * rewrite lookup_ge_None_2 by lia. symmetry. apply lookup_ge_None_2. rewrite length_app. cbn. lia.
  - apply NoDup_app. split_and!; [done|set_solver|apply NoDup_singleton].
  - apply Forall_app. auto.
  - rewrite length_app. cbn. lia.
Qed.

Lemma index_disconnect meta chain hash : index_ok meta (chain ++ [hash]) ->
  index_ok (dbRemoveBlockIndex meta hash (Z.of_nat (length chain))) chain.
Proof.
  intros [Hh Hg Hnd Hl Hb]. rewrite length_app in Hb. cbn in Hb. apply NoDup_app in Hnd as (Hnd & Hdis & _).
  apply Forall_app in Hl as [Hl _]. split; [| |done|done|lia].
  - intros h v. cbn. destruct (decide (h = hash)) as [->|Hne].
    + rewrite lookup_delete_eq. split; [done|]. intros (i & Hi & _). apply list_elem_of_lookup_2 in Hi. set_solver.
    + rewrite lookup_delete_ne, Hh by congruence. split; intros (i & Hi & ->); exists i; split; auto.
      * apply lookup_snoc_Some in Hi as [[_ Hi]|[_ ->]]; done.
      * apply lookup_app_Some. by left.
  - intros i Hi. cbn. fold (heightKey (length chain)). destruct (decide (i = length chain)) as [->|Hne].
    + rewrite lookup_delete_eq. symmetry. by apply lookup_ge_None_2.
    + rewrite lookup_delete_ne by (intros E; apply Hne; symmetry; apply heightKey_inj; [lia..|done]).
      rewrite Hg by done. destruct (decide (i < length chain)%nat).
      * by rewrite lookup_app_l.
      * rewrite (lookup_ge_None_2 chain) by lia. apply lookup_ge_None_2. rewrite length_app. cbn. lia.
Qed.

Lemma indexed_chain_ok meta chain : indexed_chain meta chain -> index_ok meta chain.
Proof.
  induction 1 as [meta H1 H2|meta chain hash _ IH Hni H32 Hlt|meta chain hash _ IH].
  - split; [|intros i _|by apply NoDup_nil|done|cbn; lia].
    + intros h v. rewrite H1, lookup_empty. split; [done|]. intros (i & Hi & _). done.
    + by rewrite H2, lookup_empty.
  - by apply index_connect.
  - by apply index_disconnect.
Qed.

Lemma fetch_hash meta chain i hash : index_ok meta chain -> chain !! i = Some hash ->
  dbFetchHashByHeight meta (Z.of_nat i) = Ok hash.
Proof.
  intros [_ Hg _ Hl Hb] Hi. unfold dbFetchHashByHeight. fold (heightKey i). pose proof (lookup_lt_Some _ _ _ Hi).
  rewrite Hg, Hi by lia. rewrite take_app_length'; [done|]. symmetry. apply (Forall_lookup_1 _ _ _ _ Hl Hi).
Qed.

Lemma fetch_height meta chain i hash : index_ok meta chain -> chain !! i = Some hash ->
  dbFetchHeightByHash meta hash = Ok (Z.of_nat i).
Proof.
  intros [Hh _ _ _ Hb] Hi. unfold dbFetchHeightByHash. pose proof (lookup_lt_Some _ _ _ Hi).
  rewrite (proj2 (Hh hash (heightKey i))) by eauto. unfold heightKey.
  rewrite u32_small, <- (app_nil_r (put_le 4 _)), uint_at_put, Z.mod_small by (unfold is_u32; cbn; lia). done.
Qed.

Lemma fetch_range meta chain start n : index_ok meta chain -> (start + n <= length chain)%nat ->
  mapR (dbFetchHashByHeight meta) (seqZ (Z.of_nat start) (Z.of_nat n)) = Ok (take n (drop start chain)).
Proof.
  intros Hok. revert start. induction n as [|n IH]; intros start Hn; [done|].
  rewrite Nat2Z.inj_succ, seqZ_cons by lia. cbn [mapR].
  destruct (lookup_lt_is_Some_2 chain start) as [hash Hh]; [lia|].
  rewrite (fetch_hash _ _ _ _ Hok Hh). cbn [mbind res_bind]. rewrite Z.pred_succ, <- Nat2Z.inj_succ, IH by lia.
  cbn [mbind res_bind]. by rewrite (drop_S _ _ _ Hh).
Qed.

(** C39: the block index is the main chain.  However blocks were connected to and
    disconnected from its end, every height gives the hash at that height and every hash of
    the chain its height, other hashes are not found, HeightRange returns the part of the
    chain between the two heights cut off at its end, and KeyHeightByHeight finds the key
    height in the header that is stored for the block at the height. *)
Theorem block_index_follows_chain (FetchBlockHeader : bytes -> option bytes) (meta : metadata) (chain : list bytes) :
  indexed_chain meta chain ->
  (forall i hash, chain !! i = Some hash ->
     dbFetchHashByHeight meta (Z.of_nat i) = Ok hash /\ dbFetchHeightByHash meta hash = Ok (Z.of_nat i) /\
     dbMainChainHasBlock meta hash = true) /\
  (forall hash, hash ∉ chain ->
     dbFetchHeightByHash meta hash = Err errNotInMainChain /\ dbMainChainHasBlock meta hash = false) /\
  (forall i, (length chain <= i)%nat -> Z.of_nat i < 2 ^ 32 ->
     dbFetchHashByHeight meta (Z.of_nat i) = Err errNotInMainChain) /\
  (forall start n, HeightRange meta (Z.of_nat (length chain) - 1) (Z.of_nat start) (Z.of_nat (start + n)) =
     Ok (take n (drop start chain))) /\
  (forall i hash header, chain !! S i = Some hash -> header_ok header ->
     FetchBlockHeader hash = Some (writeBlockHeader header) -> Z.of_nat (S i) <> MempoolHeight ->
     KeyHeightByHeight FetchBlockHeader meta ∅ (Z.of_nat (S i)) = Ok (h_KeyHeight header)).
Proof.
  intros Hc%indexed_chain_ok. split_and!.
  - intros i hash Hi. split_and!; [by apply (fetch_hash _ chain)|by apply (fetch_height _ chain)|].
    unfold dbMainChainHasBlock. rewrite (proj2 (io_hash _ _ Hc hash (heightKey i))) by eauto. done.
  - intros hash Hni. assert (hashIndex meta !! hash = None) as HN.
    { apply eq_None_not_Some. intros [v Hv]. apply (io_hash _ _ Hc) in Hv as (i & Hi & _).
      by apply list_elem_of_lookup_2 in Hi. }
    unfold dbFetchHeightByHash, dbMainChainHasBlock. by rewrite HN.
  - intros i Hi Hlt. unfold dbFetchHashByHeight. fold (heightKey i). rewrite (io_height _ _ Hc) by done.
    by rewrite lookup_ge_None_2.
  - intros start n. unfold HeightRange.
    destruct (Z.ltb_spec (Z.of_nat start) 0); [lia|]. destruct (Z.ltb_spec (Z.of_nat (start + n)) (Z.of_nat start)); [lia|].
    destruct (Z.eqb_spec (Z.of_nat start) (Z.of_nat (start + n))); [by replace n with 0%nat by lia|].
    rewrite Z.gtb_ltb. destruct (Z.ltb_spec (Z.of_nat (length chain) - 1) (Z.of_nat start)).
    { by rewrite drop_ge, take_nil by lia. }
    rewrite Z.gtb_ltb. destruct (Z.ltb_spec (Z.of_nat (length chain) - 1 + 1) (Z.of_nat (start + n))).
    + replace (Z.of_nat (length chain) - 1 + 1 - Z.of_nat start) with (Z.of_nat (length chain - start)) by lia.
      rewrite (fetch_range _ chain) by (done || lia). f_equal. rewrite !take_ge; rewrite ?length_drop; done || lia.
    + replace (Z.of_nat (start + n) - Z.of_nat start) with (Z.of_nat n) by lia. by apply fetch_range; [|lia].
  - intros i hash header Hi Hok Hf Hm. unfold KeyHeightByHeight. rewrite (proj2 (Z.eqb_neq _ _) Hm).
    destruct (Z.eqb_spec (Z.of_nat (S i)) 0); [lia|]. rewrite lookup_empty.
    unfold dbFetchHeaderByHeight. rewrite (fetch_hash _ _ _ _ Hc Hi). cbn [mbind res_bind].
    unfold dbFetchHeaderByHash. rewrite Hf, <- (app_nil_r (writeBlockHeader header)), (decodes_header header Hok).
    done.
Qed.

(** ** What is stored is read back *)

Lemma bit31_above v n : 0 <= v < 2 ^ 31 -> Z.testbit v n = true -> Z.testbit upgradeStartedBit n = false.
Proof.
  intros Hv Hn. change upgradeStartedBit with (2 ^ 31). destruct (decide (n = 31)) as [->|Hne].
  - rewrite Z.bits_above_log2 in Hn; [done|lia|]. destruct (decide (v = 0)) as [->|]; [done|]. apply Z.log2_lt_pow2; lia.
  - by rewrite Z.pow2_bits_false by done.
Qed.

Lemma version_flag v started : 0 <= v < 2 ^ 31 ->
  let raw := if started : bool then Z.lor v upgradeStartedBit else v in
  Z.ldiff raw upgradeStartedBit = v /\ (Z.land upgradeStartedBit raw >? 0) = started /\ is_u32 raw.
Proof.
  intros Hv raw. split_and!.
  - apply Z.bits_inj'. intros n _. subst raw. rewrite Z.ldiff_spec.
    destruct (Z.testbit v n) eqn:E; destruct started; rewrite ?Z.lor_spec, ?E, ?(bit31_above v n Hv E); try done.
    by destruct (Z.testbit upgradeStartedBit n).
  - assert (Z.land upgradeStartedBit v = 0) as E0.
    { apply Z.bits_inj'. intros n _. rewrite Z.land_spec, Z.bits_0. destruct (Z.testbit v n) eqn:E; [|apply andb_false_r].
      by rewrite (bit31_above v n Hv E). }
    subst raw. destruct started; [|by rewrite E0]. rewrite Z.land_lor_distr_r, E0. reflexivity.
  - subst raw. unfold is_u32. destruct started; [|lia]. split; [apply Z.lor_nonneg; split; [lia|done]|].
    destruct (decide (v = 0)) as [->|]; [done|]. apply Z.log2_lt_pow2; [|rewrite Z.log2_lor by (done || lia)].
    + apply Z.le_neq. split; [apply Z.lor_nonneg; split; [lia|done]|]. intros [E _]%eq_sym%Z.lor_eq_0_iff. lia.
    + apply Z.max_lub_lt; [|done]. apply Z.log2_lt_pow2; lia.
Qed.

Definition dbInfo_ok (dbi : databaseInfo) : Prop :=
  0 <= di_version dbi < 2 ^ 31 /\ is_u32 (di_compVer dbi) /\ is_u32 (di_date dbi).

Lemma database_info_roundtrip (meta : metadata) (dbi : databaseInfo) : dbInfo meta <> None -> dbInfo_ok dbi ->
  exists meta', dbPutDatabaseInfo meta dbi = Ok meta' /\ dbFetchDatabaseInfo meta' = Ok (Some dbi).
Proof.
  intros Hb (Hv & Hc & Hd). unfold dbPutDatabaseInfo. destruct (dbInfo meta) as [b|]; [|done]. cbn [or_panic mbind res_bind].
  eexists. split; [reflexivity|]. unfold dbFetchDatabaseInfo. cbn [dbInfo].
  destruct dbi as [v c d st]. cbn [di_version di_compVer di_date di_upgradeStarted] in *.
  destruct (version_flag v st Hv) as (E1 & E2 & Hr). unfold serializeDatabaseInfo. cbn [di_version di_compVer di_date di_upgradeStarted].
  set (raw := if st then _ else _) in *. rewrite u32_small by done. rewrite !length_app, !length_put_le.
  cbn [Nat.add Nat.ltb Nat.leb]. unfold deserializeDatabaseInfo.
  rewrite (slice_first (put_le 4 raw)) by apply length_put_le. cbn [mbind res_bind].
  rewrite (slice_field (put_le 4 raw) (put_le 4 c) _ 4 4) by apply length_put_le. cbn [mbind res_bind].
  rewrite app_assoc, (slice_last _ (put_le 4 d) 8 4)
    by (rewrite ?length_app, ?length_put_le; done). cbn [mbind res_bind].
  by rewrite !get_le_u32, E1, E2 by done.
Qed.

Lemma big_bytes_roundtrip x : 0 <= x -> big_SetBytes (big_Bytes x) = x.
Proof.
  intros Hx. unfold big_SetBytes, big_Bytes. destruct (Z.eqb_spec x 0) as [->|Hne]; [done|].
  rewrite get_put_be, Z.abs_eq by lia. apply Z.mod_small. split; [done|].
  pose proof (Z.log2_nonneg x). rewrite Z2Nat.id by (pose proof (Z.div_pos (Z.log2 x) 8); lia).
  change 256 with (2 ^ 8). rewrite <- Z.pow_mul_r by (pose proof (Z.div_pos (Z.log2 x) 8); lia).
  apply Z.log2_lt_pow2; [lia|]. pose proof (Z.mod_pos_bound (Z.log2 x) 8). pose proof (Z.div_mod (Z.log2 x) 8). lia.
Qed.

Definition best_ok (s : bestChainState) : Prop :=
  length (bs_hash s) = 32%nat /\ is_u32 (bs_height s) /\ is_u64 (bs_totalTxns s) /\ is_i64 (bs_totalSubsidy s) /\
  0 <= bs_workSum s /\ 56 + Z.of_nat (length (big_Bytes (bs_workSum s))) < 2 ^ 32.

Lemma best_chain_state_roundtrip (s : bestChainState) : best_ok s ->
  deserializeBestState (serializeBestState s) = Ok s.
Proof.
  destruct s as [h n t sub w]. unfold best_ok. cbn. intros (Hh & Hn & Ht & Hs & Hw & Hl).
  unfold serializeBestState, deserializeBestState. cbn [bs_hash bs_height bs_totalTxns bs_totalSubsidy bs_workSum].
  set (ws := big_Bytes w) in *. rewrite !length_app, Hh, !length_put_le.
  destruct (Nat.ltb_spec (32 + (4 + (8 + (8 + (4 + length ws))))) 56); [lia|].
  rewrite (slice_first h) by done. cbn [mbind res_bind].
  rewrite (slice_field h (put_le 4 n) _ 32 4) by (done || apply length_put_le). cbn [mbind res_bind]. rewrite app_assoc.
  rewrite (slice_field _ (put_le 8 t) _ 36 8) by (rewrite ?length_app, ?length_put_le; lia). cbn [mbind res_bind]. rewrite app_assoc.
  rewrite (slice_field _ (put_le 8 (u64 sub)) _ 44 8) by (rewrite ?length_app, ?length_put_le; lia). cbn [mbind res_bind]. rewrite app_assoc.
  rewrite (slice_field _ (put_le 4 _) ws 52 4) by (rewrite ?length_app, ?length_put_le; lia). cbn [mbind res_bind]. rewrite app_assoc.
  rewrite !(u32_small (Z.of_nat (length ws))) by (unfold is_u32; lia). rewrite !(get_le_u32 (Z.of_nat (length ws))) by (unfold is_u32; lia).
  rewrite drop_app_length' by (rewrite ?length_app, ?length_put_le; lia).
  rewrite (u32_small (Z.of_nat (length ws))) by (unfold is_u32; lia). rewrite Z.ltb_irrefl.
  rewrite (u32_small (56 + Z.of_nat (length ws))) by (unfold is_u32; lia).
  replace (Z.to_nat (56 + Z.of_nat (length ws))) with (56 + length ws)%nat by lia.
  rewrite (slice_last _ ws 56 (length ws)) by (rewrite ?length_app, ?length_put_le; lia). cbn [mbind res_bind].
  rewrite get_le_u32, !get_le_u64 by (done || apply u64_range). unfold ws. rewrite big_bytes_roundtrip by done.
  do 2 f_equal. unfold i64, u64, is_i64 in *. Z.div_mod_to_equations. lia.
Qed.

(** What is kept of a deployment: not the names. *)
Definition strippedChoice (c : Choice) : Choice :=
  MkChoice EmptyString EmptyString (ch_Bits c) (ch_IsAbstain c) (ch_IsNo c).
Definition stripped (d : ConsensusDeployment) : ConsensusDeployment :=
  MkDeployment (MkVote EmptyString EmptyString (v_Mask (d_Vote d)) (strippedChoice <$> v_Choices (d_Vote d)))
    (d_StartTime d) (d_ExpireTime d).

Definition deployment_ok (d : ConsensusDeployment) : Prop :=
  is_u16 (v_Mask (d_Vote d)) /\ is_u64 (d_StartTime d) /\ is_u64 (d_ExpireTime d) /\
  Forall (fun c => is_u16 (ch_Bits c)) (v_Choices (d_Vote d)) /\ Z.of_nat (length (v_Choices (d_Vote d))) < 2 ^ 16.

Lemma length_choices cs : length (concat (choiceBytes <$> cs)) = (4 * length cs)%nat.
Proof. induction cs as [|c cs IH]; [done|]. cbn [fmap list_fmap concat]. rewrite length_app, IH. change (length (choiceBytes c)) with 4%nat. cbn [length]. lia. Qed.

Lemma choiceAt_built pre c cs i post : is_u16 (ch_Bits c) -> length pre = 20%nat -> length cs = i ->
  choiceAt (pre ++ concat (choiceBytes <$> cs) ++ choiceBytes c ++ post) i = Ok (strippedChoice c).
Proof.
  intros Hc Hp Hi. rewrite app_assoc. set (front := pre ++ _).
  assert (Hf : length front = (20 + i * 4)%nat) by (unfold front; rewrite length_app, length_choices; lia).
  unfold choiceAt, choiceBytes. rewrite <- !app_assoc. rewrite (slice_field front (put_le 2 (ch_Bits c)) _ _ 2)
    by (done || apply length_put_le). cbn [mbind res_bind]. rewrite app_assoc. set (w := _ ++ post).
  assert (Hk : forall m k, m = (20 + i * 4 + 2 + k)%nat -> ((front ++ put_le 2 (ch_Bits c)) ++ w) !! m = w !! k).
  { intros m k ->. rewrite lookup_app_r by (rewrite length_app, length_put_le; lia). rewrite length_app, length_put_le.
    f_equal. lia. }
  rewrite (Hk (20 + i * 4 + 2)%nat 0%nat) by lia. rewrite (Hk (20 + i * 4 + 3)%nat 1%nat) by lia.
  rewrite get_le_u16 by done. unfold strippedChoice. by destruct (ch_IsAbstain c), (ch_IsNo c).
Qed.

Lemma choices_built pre cs1 cs2 : Forall (fun c => is_u16 (ch_Bits c)) cs2 -> length pre = 20%nat ->
  mapR (choiceAt (pre ++ concat (choiceBytes <$> (cs1 ++ cs2)))) (seq (length cs1) (length cs2)) =
    Ok (strippedChoice <$> cs2).
Proof.
  revert cs1. induction cs2 as [|c cs2 IH]; intros cs1 Hc Hp; [done|]. apply Forall_cons_1 in Hc as [Hc Hcs].
  cbn [length seq mapR]. rewrite fmap_app, concat_app. cbn [fmap list_fmap concat].
  rewrite (choiceAt_built pre c cs1) by done. cbn [mbind res_bind].
  specialize (IH (cs1 ++ [c]) Hcs Hp). rewrite <- app_assoc in IH. cbn [app] in IH.
  rewrite fmap_app, concat_app, length_app, Nat.add_1_r in IH. cbn [fmap list_fmap concat] in IH. rewrite IH. done.
Qed.

Lemma deployment_params_roundtrip (d : ConsensusDeployment) : deployment_ok d ->
  deserializeDeploymentCacheParams (serializeDeploymentCacheParams d) = Ok (stripped d).
Proof.
  destruct d as [[id desc mask cs] st ex]. unfold deployment_ok, stripped. cbn. intros (Hm & Hs & He & Hc & Hl).
  unfold serializeDeploymentCacheParams, deserializeDeploymentCacheParams. cbn [d_Vote d_StartTime d_ExpireTime v_Mask v_Choices].
  set (body := concat (choiceBytes <$> cs)). assert (Hb : length body = (4 * length cs)%nat) by apply length_choices.
  rewrite !length_app, !length_put_le, Hb. destruct (Nat.ltb_spec (2 + (8 + (8 + (2 + 4 * length cs)))) 20); [lia|].
  rewrite (slice_first (put_le 2 mask)) by apply length_put_le. cbn [mbind res_bind].
  rewrite (slice_field (put_le 2 mask) (put_le 8 st) _ 2 8) by apply length_put_le. cbn [mbind res_bind]. rewrite app_assoc.
  rewrite (slice_field _ (put_le 8 ex) _ 10 8) by (rewrite ?length_app, ?length_put_le; done). cbn [mbind res_bind]. rewrite app_assoc.
  rewrite (slice_field _ (put_le 2 _) body 18 2) by (rewrite ?length_app, ?length_put_le; done). cbn [mbind res_bind]. rewrite app_assoc.
  rewrite u16_small, (get_le_u16 (Z.of_nat _)), Nat2Z.id by (unfold is_u16; lia).
  destruct (Nat.eqb_spec (2 + (8 + (8 + (2 + 4 * length cs)))) (20 + length cs * 4)); [|lia]. cbn [negb].
  pose proof (choices_built (((put_le 2 mask ++ put_le 8 st) ++ put_le 8 ex) ++ put_le 2 (Z.of_nat (length cs))) [] cs Hc) as Hch.
  cbn [app length] in Hch. unfold body. rewrite Hch by (rewrite !length_app, !length_put_le; done).
  cbn [mbind res_bind]. by rewrite get_le_u16, !get_le_u64 by done.
Qed.

(** ** The stored threshold states are of no use *)

Lemma stored_has_no_name b stored : dbFetchDeploymentCacheParams b = Ok stored -> v_Id (d_Vote stored) = EmptyString.
Proof.
  unfold dbFetchDeploymentCacheParams, deserializeDeploymentCacheParams. destruct (_ <? 20)%nat; [done|]. intros H.
  do 4 (apply bind_Ok in H as (? & _ & H)). destruct (negb _); [done|]. apply bind_Ok in H as (? & _ & H).
  by injection H as <-.
Qed.

Definition named (d : ConsensusDeployment) : Prop := v_Id (d_Vote d) <> EmptyString.

Definition fewer (b b' : thresholdBucket) : Prop := forall k x, tb_buckets b' !! k = Some x -> tb_buckets b !! k = Some x.

Lemma fewer_delete b k : fewer b (DeleteBucket b k).
Proof. intros j x. cbn. intros [_ H]%lookup_delete_Some. done. Qed.

Lemma fewer_absent b b' k : fewer b b' -> tb_buckets b !! k = None -> tb_buckets b' !! k = None.
Proof. intros H Hk. apply eq_None_not_Some. intros [x Hx]. rewrite (H _ _ Hx) in Hk. done. Qed.

Lemma fewer_trans b1 b2 b3 : fewer b1 b2 -> fewer b2 b3 -> fewer b1 b3.
Proof. unfold fewer. naive_solver. Qed.

Lemma invalidate_loop deps k b b' : Forall named deps ->
  foldM (fun cachesBucket (iDep : nat * ConsensusDeployment) =>
    match tb_buckets cachesBucket !! deploymentBucket iDep.1 with
    | None => Ok cachesBucket
    | Some deployBucket =>
      stored ← dbFetchDeploymentCacheParams deployBucket;
      Ok (if decide (stored = iDep.2) then cachesBucket else DeleteBucket cachesBucket (deploymentBucket iDep.1))
    end) b (zip (seq k (length deps)) deps) = Ok b' ->
  fewer b b' /\ forall i, (k <= i < k + length deps)%nat -> tb_buckets b' !! deploymentBucket i = None.
Proof.
  revert k b. induction deps as [|d deps IH]; intros k b Hn H; cbn [length seq zip zip_with foldM] in H.
  { injection H as <-. split; [by intros ? ?|]. intros i. cbn. lia. }
  apply Forall_cons_1 in Hn as [Hd Hn]. apply bind_Ok in H as (b1 & H1 & H2).
  assert (fewer b b1 /\ tb_buckets b1 !! deploymentBucket k = None) as [Hf Hk].
  { cbn [fst snd] in H1. destruct (tb_buckets b !! deploymentBucket k) as [x|] eqn:E; [|injection H1 as <-; by split; [intros ? ?|]].
    apply bind_Ok in H1 as (st & Hst & [= <-]). apply stored_has_no_name in Hst.
    destruct (decide (st = d)) as [->|_]; [done|]. split; [apply fewer_delete|cbn; apply lookup_delete_eq]. }
  destruct (IH _ _ Hn H2) as [Hf2 HN]. split; [by eapply fewer_trans|]. intros i Hi. cbn [length] in Hi.
  destruct (decide (i = k)) as [->|]; [by eapply fewer_absent|]. apply HN. lia.
Qed.

Lemma delete_loop b l : fewer b (foldl (fun bucket i => DeleteBucket bucket (deploymentBucket i)) b l).
Proof.
  revert b. induction l as [|i l IH]; intros b; [by intros ? ?|]. cbn. eapply fewer_trans; [apply fewer_delete|apply IH].
Qed.

Lemma invalidate_drops versions b b' : Forall (fun v => Forall named v.2) versions ->
  invalidateThresholdCaches versions b = Ok b' ->
  fewer b b' /\ forall v i, v ∈ versions -> (i < length v.2)%nat -> tb_buckets b' !! deploymentBucket i = None.
Proof.
  unfold invalidateThresholdCaches. revert b. induction versions as [|v versions IH]; intros b Hn H; cbn [foldM] in H.
  { injection H as <-. split; [by intros ? ?|]. intros v i Hv. by apply elem_of_nil in Hv. }
  apply Forall_cons_1 in Hn as [Hv Hn]. apply bind_Ok in H as (b1 & H1 & H2).
  unfold invalidateVersion in H1. apply bind_Ok in H1 as (n & _ & H1).
  apply invalidate_loop in H1 as [Hf1 HN1]; [|done]. destruct (IH _ Hn H2) as [Hf2 HN2]. split.
  - eapply fewer_trans; [apply delete_loop|]. by eapply fewer_trans.
  - intros w i Hw Hi. apply elem_of_cons in Hw as [->|Hw]; [|by eapply HN2]. eapply fewer_absent; [done|]. apply HN1. lia.
Qed.

(** Buckets in which no threshold state is stored. *)
Definition bare (b : thresholdBucket) : Prop := forall i x, tb_buckets b !! deploymentBucket i = Some x ->
  filter (fun kv : bytes * bytes => length kv.1 = 32%nat) x = ∅.

Lemma bare_params d : filter (fun kv : bytes * bytes => length kv.1 = 32%nat) (dbPutDeploymentCacheParams ∅ d) = ∅.
Proof.
  apply map_eq. intros k. rewrite lookup_empty. apply map_lookup_filter_None. right. intros x Hx Hk.
  unfold dbPutDeploymentCacheParams in Hx. apply lookup_insert_Some in Hx as [[<- _]|[_ Hx]]; done.
Qed.

Lemma createBuckets_bare b deps : bare b -> bare (createBuckets b deps).
Proof.
  unfold createBuckets, indexed. generalize 0%nat. revert b. induction deps as [|d deps IH]; intros b k Hb; [done|].
  cbn [length seq zip zip_with foldl]. apply IH. cbn [fst snd]. destruct (tb_buckets b !! deploymentBucket k) eqn:E; [done|].
  intros i x Hx. cbn [tb_buckets] in Hx. apply lookup_insert_Some in Hx as [[_ <-]|[_ Hx]]; [apply bare_params|].
  by apply (Hb i).
Qed.

Lemma init_bare versions b b' : (forall i, tb_buckets b !! deploymentBucket i = None) ->
  initThresholdCacheBuckets versions (Some b) = Ok b' -> bare b'.
Proof.
  intros HN. unfold initThresholdCacheBuckets. cbn [default]. intros H. apply bind_Ok in H as (b1 & H1 & [= <-]).
  assert (Hb1 : bare b1).
  { assert (tb_buckets b1 = tb_buckets b) as E.
    { revert H1. apply (foldM_inv (fun b1 => tb_buckets b1 = tb_buckets b)); [|done]. intros s v s' _ Hs.
      destruct (dbFetchNumDeployments s v.1); [|by intros [= <-]|done]. intros [= <-]. by destruct (_ =? _). }
    intros i x. rewrite E, HN. done. }
  clear H1 HN. revert b1 Hb1. induction versions as [|v versions IH]; intros b1 Hb1; [done|]. cbn [foldl].
  apply IH. by apply createBuckets_bare.
Qed.

Lemma fetch_bare order caches b caches' : bare b -> dbFetchThresholdCaches order caches (Some b) = Ok caches' -> caches' = caches.
Proof.
  intros Hb. unfold dbFetchThresholdCaches. apply (foldM_inv (fun c => c = caches)); [|done].
  intros c version c1 _ ->. apply (foldM_inv (fun c => c = caches)); [|done]. intros c i c2 _ ->.
  destruct (tb_buckets b !! deploymentBucket i) as [x|] eqn:E; [|by intros [= <-]].
  destruct (decide _) as [_|Hne]; [by intros [= <-]|]. by destruct (Hne (Hb _ _ E)).
Qed.

Lemma putThresholdCache_no_error caches version b i e : putThresholdCache caches version b i <> Err e.
Proof.
  unfold putThresholdCache. destruct (caches !! version ≫= _); [|done]. cbn [or_panic mbind res_bind].
  destruct (decide _); [done|]. by destruct (tb_buckets b !! deploymentBucket i).
Qed.

Lemma deploymentBucket_small i : exists j, Z.of_nat j < 2 ^ 32 /\ deploymentBucket i = deploymentBucket j.
Proof.
  pose proof (Z.mod_pos_bound (Z.of_nat i) (2 ^ 32) eq_refl). exists (Z.to_nat (Z.of_nat i mod 2 ^ 32)). split; [lia|].
  unfold deploymentBucket, u32. rewrite Z2Nat.id by lia. by rewrite Z.mod_mod.
Qed.

Lemma foldM_panic {E S A} (f : S -> A -> res E S) x l s : (forall s y e, f s y <> Err e) -> (forall s, f s x = Panic) ->
  x ∈ l -> foldM f s l = Panic.
Proof.
  intros Hne Hx. revert s. induction l as [|y l IH]; intros s Hin; [by apply elem_of_nil in Hin|]. cbn [foldM].
  apply elem_of_cons in Hin as [<-|Hin]; [by rewrite Hx|]. destruct (f s y) as [s'|e|] eqn:E2; [by apply IH|by destruct (Hne s y e)|done].
Qed.

Lemma foldM_no_error {E S A} (f : S -> A -> res E S) l s e : (forall s y e, f s y <> Err e) -> foldM f s l <> Err e.
Proof.
  intros Hne. revert s. induction l as [|y l IH]; intros s; [done|]. cbn [foldM].
  destruct (f s y) as [s'|e'|] eqn:E2; [apply IH|by destruct (Hne s y e')|done].
Qed.

(** C40: the stored threshold states are of no use.  Since the names of a deployment are
    not stored with it, the comparison at start-up fails for every deployment with a name
    and drops what is stored, so that a start with named deployments only, and with no
    bucket stored for an index that no version defines, loads no state.  And since the index of a
    deployment runs over the number of versions, writing the states panics when a version
    has fewer deployments than there are versions, and else leaves the buckets of further
    deployments as they are. *)
Theorem threshold_store_useless (versions : list (Z * list ConsensusDeployment)) (order : list Z)
    (b b' : thresholdBucket) (caches caches' : gmap Z (list thresholdStateCache)) :
  Forall (fun v => Forall named v.2) versions ->
  (forall i, Z.of_nat i < 2 ^ 32 -> tb_buckets b !! deploymentBucket i <> None -> exists v, v ∈ versions /\ (i < length v.2)%nat) ->
  (initThresholdCaches versions (Some b) caches = Ok (b', caches') -> caches' = caches) /\
  (forall version vcaches, version ∈ order -> caches !! version = Some vcaches -> (length vcaches < size caches)%nat ->
     dbPutThresholdCaches order caches b = Panic) /\
  (forall i, Z.of_nat i < 2 ^ 32 -> (size caches <= i)%nat -> dbPutThresholdCaches order caches b = Ok b' ->
     tb_buckets b' !! deploymentBucket i = tb_buckets b !! deploymentBucket i).
Proof.
  intros Hn Hdef. split_and!.
  - unfold initThresholdCaches. intros H. apply bind_Ok in H as (ob & H1 & H). apply bind_Ok in H1 as (b1 & Hi & [= <-]).
    apply bind_Ok in H as (b2 & H2 & H). apply bind_Ok in H as (c & Hc & [= -> ->]).
    destruct (invalidate_drops _ _ _ Hn Hi) as [Hf HN]. eapply fetch_bare; [|exact Hc]. eapply init_bare; [|exact H2].
    intros i. destruct (deploymentBucket_small i) as (j & Hj & ->).
    destruct (tb_buckets b !! deploymentBucket j) eqn:E; [|by eapply fewer_absent].
    destruct (Hdef j) as (v & Hv & Hl); [done|congruence|]. by apply (HN v).
  - intros version vcaches Hin Hv Hl. unfold dbPutThresholdCaches.
    apply (foldM_panic _ version); [|intros s|done].
    { intros s v e. apply foldM_no_error. intros. apply putThresholdCache_no_error. }
    apply (foldM_panic _ (length vcaches)); [intros; apply putThresholdCache_no_error| |apply elem_of_seq; lia].
    intros s'. unfold putThresholdCache. rewrite Hv. cbn [mbind option_bind]. by rewrite lookup_ge_None_2.
  - intros i Hi Hl. unfold dbPutThresholdCaches.
    apply (foldM_inv (fun b1 => tb_buckets b1 !! deploymentBucket i = tb_buckets b !! deploymentBucket i)); [|done].
    intros s version s' _ Hs. apply (foldM_inv (fun b1 => tb_buckets b1 !! deploymentBucket i = tb_buckets b !! deploymentBucket i)); [|done].
    intros s1 j s2 Hj%list_elem_of_In Hs1. apply elem_of_seq in Hj. unfold putThresholdCache. intros H.
    apply bind_Ok in H as (cache & _ & H). destruct (decide _); [by injection H as <-|].
    apply bind_Ok in H as (bk & _ & [= <-]). cbn [tb_buckets]. rewrite lookup_insert_ne; [done|].
    unfold deploymentBucket, thresholdCacheBucket. intros E%app_inv_head. apply (heightKey_inj j i) in E; lia.
Qed.

Module Sample.

Definition hash (n : Z) : bytes := replicate 32 n.
Definition empty_meta : metadata := MkMeta ∅ ∅ None None.
Definition meta : metadata := dbPutBlockIndex (dbPutBlockIndex empty_meta (hash 1) 0) (hash 2) 1.
Definition headers (h : bytes) : option bytes := if decide (h = hash 2) then Some (writeBlockHeader sample_header) else None.

Lemma block_index_follows_chain_witness :
  HeightRange meta 1 0 7 = Ok [hash 1; hash 2] /\ KeyHeightByHeight headers meta ∅ 1 = Ok (h_KeyHeight sample_header).
Proof.
  assert (Hc : indexed_chain meta [hash 1; hash 2]).
  { apply (indexed_connect _ [hash 1] (hash 2)); [|vm_compute; set_solver|done|done].
    apply (indexed_connect empty_meta [] (hash 1)); [by apply indexed_empty|set_solver|done|done]. }
  destruct (block_index_follows_chain headers meta [hash 1; hash 2] Hc) as (_ & _ & _ & Hr & Hk).
  split; [exact (Hr 0%nat 7%nat)|]. apply (Hk 0%nat (hash 2) sample_header); [done|apply sample_header_ok|done|done].
Defined.

Definition vote (id : string) : ConsensusDeployment :=
  MkDeployment (MkVote id EmptyString 6 [MkChoice "yes" EmptyString 4 false false]) 0 9.
Definition versions : list (Z * list ConsensusDeployment) := [(4, [vote "blocksize"]); (5, [vote "difficulty"])].
Definition caches : gmap Z (list thresholdStateCache) := newThresholdCaches versions.
Definition stored : thresholdBucket := createBuckets (MkThreshold ∅ ∅) [vote "blocksize"].

Lemma threshold_store_useless_witness : dbPutThresholdCaches [4; 5] caches stored = Panic.
Proof.
  assert (Hn : Forall (fun v => Forall named v.2) versions).
  { repeat (apply Forall_cons_2; [apply Forall_cons_2; [discriminate|apply Forall_nil_2]|]). apply Forall_nil_2. }
  destruct (threshold_store_useless versions [4; 5] stored stored caches caches Hn) as (_ & Hp & _).
  - intros i Hlt Hi. exists (4, [vote "blocksize"]). split; [apply elem_of_cons; by left|]. cbn.
    destruct i as [|i]; [lia|]. destruct Hi. unfold stored, createBuckets.
    cbn [indexed length seq zip zip_with foldl fst snd tb_buckets]. rewrite lookup_empty. cbn [tb_buckets].
    rewrite lookup_insert_ne; [done|]. unfold deploymentBucket, thresholdCacheBucket.
    intros E%app_inv_head. by apply (heightKey_inj 0 (S i)) in E.
  - apply (Hp 4 [MkCache ∅ ∅]); [apply elem_of_cons; by left|done|]. by vm_compute.
Defined.

End Sample.
