(* ===== verification/TxRules.v ===== *)
(** * The rules for transactions

    [CheckTransactionSanity], [CheckTransactionInputs] and the counting of signature
    operations of [blockchain/validate.go].  The checks that look up outputs run in a state
    of the view of unspent outputs, whose scripts are decompressed where they are read, and
    the subsidy cache.  An error returns no state: the callers drop the view with it, and
    what the cache holds can be recomputed.  Parsing of keys, the address types and the
    largest amount [hcashutil.MaxAmount] are parameters. *)

From S2P Require Import Prelude WireCommon MsgTx ScriptNum Script ScriptBuild StakeTx StakeOut Compact Compress MsgBlock ChainState Subsidy ChainIO UtxoView.
From stdpp Require Import gmap list.
#[local] Open Scope Z_scope.

(** The codes of [blockchain/error.go] that the rules return. *)
Inductive ErrorCode :=
| ErrNoTxInputs | ErrNoTxOutputs | ErrTxTooBig | ErrBadTxOutValue | ErrDuplicateTxInputs | ErrBadTxInput
| ErrMissingTx | ErrImmatureSpend | ErrDoubleSpend | ErrSpendTooHigh | ErrBadFees | ErrTooManySigOps
| ErrBadCoinbaseScriptLen | ErrBadCoinbaseOutpoint | ErrBadCoinbaseFraudProof | ErrBadStakebaseAmountIn
| ErrBadStakebaseScriptLen | ErrBadStakebaseScrVal | ErrScriptMalformed | ErrInvalidEarlyStakeTx
| ErrSStxCommitment | ErrUnparseableSSGen | ErrInvalidSSGenInput | ErrSSGenPayeeNum | ErrSSGenPayeeOuts
| ErrSStxInImmature | ErrSStxInScrType | ErrInvalidSSRtxInput | ErrSSRtxPayeesMismatch | ErrSSRtxPayees
| ErrTxSStxOutSpend | ErrRegTxSpendStakeOut | ErrDiscordantTxTree | ErrExpiredTx | ErrExpiryTxSpentEarly
| ErrFraudAmountIn | ErrFraudBlockHeight | ErrFraudBlockIndex | ErrZeroValueOutputSpend
| ErrTicketUnavailable | ErrSSGenSubsidy | ErrStakeFees | ErrNoSuchBlockHash | ErrBadCoinbaseAmountIn
| ErrBadCoinbaseValue | ErrNoStakeTx | ErrBadStakebaseValue | ErrOverwriteTx
| ErrNotEnoughStake | ErrStakeBelowMinimum | ErrUnexpectedDifficulty | ErrHighHash | ErrInvalidTime | ErrTimeTooNew
| ErrNoTransactions | ErrBlockTooBig | ErrWrongBlockSize | ErrFirstTxNotCoinbase | ErrMultipleCoinbases
| ErrStakeTxInRegularTree | ErrRegTxInStakeTree | ErrFreshStakeMismatch | ErrNotEnoughVotes | ErrTooManyVotes
| ErrVotesMismatch | ErrRevocationsMismatch | ErrBadMerkleRoot | ErrDuplicateTx | ErrInvalidEarlyVoteBits.

Inductive checkError :=
| RuleError (c : ErrorCode)
| StakeError (e : stakeRuleError)
| IndexError (e : indexError)
| ViewError (e : chainError)
| StillRunning.

(** The fields of [chaincfg.Params] that the rules read beside those of the subsidy. *)
Record ChainParams := MkChainParams {
  cp_subsidy :> Subsidy.Params;
  MaxTxSize : Z;
  StakeBaseSigScript : bytes;
  TicketMaturity : Z;
  StakeEnabledHeight : Z;
  CoinbaseMaturity : Z;
  SStxChangeMaturity : Z;
  PowLimit : Z;
  MinimumStakeDiff : Z;
  DifficultyRate : Z;
  MicroBlockValidationHeight : Z
}.

Definition MaxSigOpsPerBlock : Z := 3000000.
Definition MinCoinbaseScriptLen : nat := 2.
Definition MaxCoinbaseScriptLen : nat := 100.
Definition FraudProofNoCheck : Z := 0.
Definition FraudProofKeyBlockCheck : Z := 1.
Definition FraudProofMicroBlockCheck : Z := 2.
Definition NoExpiryValue : Z := 0.

(** [is, _ := stake.IsSSGen(tx)] and its kin: an error is false. *)
Definition isTrue (m : res stakeRuleError bool) : res checkError bool :=
  match m with Ok b => Ok b | Err _ => Ok false | Panic => Panic end.

Definition ruleOk (bad : bool) (c : ErrorCode) : res checkError unit := guard_err bad (RuleError c).

Definition nullOutpoint (outpoint : OutPoint) : bool :=
  (o_Index outpoint =? MaxUint32) && bool_decide (o_Hash outpoint = zeroHash) && (o_Tree outpoint =? TxTreeRegular).

Definition nullFraudProof (txIn : TxIn) : bool :=
  if negb (BlockHeight txIn =? NullBlockHeight) then false
  else if negb (BlockIndex txIn =? NullBlockIndex) then false
  else true.

#[export] Instance OutPoint_eq_dec : EqDecision OutPoint.
Proof. solve_decision. Defined.

(** ** Sanity *)

Section sanity.
Context (MaxAmount : Z).

(** The total after the next output. *)
Definition addOutputValue (totalAtom : Z) (txOut : TxOut) : res checkError Z :=
  let atom := Value txOut in
  _ ← ruleOk (atom <? 0) ErrBadTxOutValue;
  _ ← ruleOk (atom >? MaxAmount) ErrBadTxOutValue;
  let totalAtom := i64 (totalAtom + atom) in
  _ ← ruleOk (totalAtom <? 0) ErrBadTxOutValue;
  _ ← ruleOk (totalAtom >? MaxAmount) ErrBadTxOutValue;
  Ok totalAtom.

(** The outpoints before this one. *)
Definition addOutpoint (existingTxOut : list OutPoint) (txIn : TxIn) : res checkError (list OutPoint) :=
  _ ← ruleOk (bool_decide (PreviousOutPoint txIn ∈ existingTxOut)) ErrDuplicateTxInputs;
  Ok (PreviousOutPoint txIn :: existingTxOut).

Definition scriptLenOk (script : bytes) (c : ErrorCode) : res checkError unit :=
  let slen := length script in
  ruleOk ((slen <? MinCoinbaseScriptLen)%nat || (MaxCoinbaseScriptLen <? slen)%nat) c.

(** The rules for the inputs of a coinbase, a vote and any other transaction. *)
Definition checkInputScripts (tx : MsgTx) (params : ChainParams) (isSSGen : bool) : res checkError unit :=
  if IsCoinBaseTx tx then
    txIn ← or_panic (tx_TxIn tx !! 0%nat);
    _ ← ruleOk (negb (nullOutpoint (PreviousOutPoint txIn))) ErrBadCoinbaseOutpoint;
    _ ← ruleOk (negb (nullFraudProof txIn)) ErrBadCoinbaseFraudProof;
    scriptLenOk (SignatureScript txIn) ErrBadCoinbaseScriptLen
  else if isSSGen then
    txIn ← or_panic (tx_TxIn tx !! 0%nat);
    _ ← scriptLenOk (SignatureScript txIn) ErrBadStakebaseScriptLen;
    _ ← ruleOk (negb (bool_decide (SignatureScript txIn = StakeBaseSigScript params))) ErrBadStakebaseScrVal;
    ticketIn ← or_panic (tx_TxIn tx !! 1%nat);
    ruleOk (nullOutpoint (PreviousOutPoint ticketIn)) ErrBadTxInput
  else
    checkFrom (fun _ txIn => ruleOk (nullOutpoint (PreviousOutPoint txIn)) ErrBadTxInput) 0 (tx_TxIn tx).

Definition CheckTransactionSanity (tx : MsgTx) (params : ChainParams) : res checkError unit :=
  _ ← ruleOk (length (tx_TxIn tx) =? 0)%nat ErrNoTxInputs;
  _ ← ruleOk (length (tx_TxOut tx) =? 0)%nat ErrNoTxOutputs;
  _ ← ruleOk (SerializeSize tx >? MaxTxSize params) ErrTxTooBig;
  _ ← foldM addOutputValue 0 (tx_TxOut tx);
  isSSGen ← isTrue (IsSSGen tx);
  _ ← checkInputScripts tx params isSSGen;
  _ ← foldM addOutpoint [] (tx_TxIn tx);
  Ok tt.

End sanity.

(** ** Inputs *)

Section inputs.
Context `{Addresses} {Key : Type} (parseKey : bytes -> option Key) (serializeKey : Key -> bytes).
Context (MaxAmount : Z) (FetchBlockHeader : bytes -> option bytes) (meta : metadata) (params : ChainParams).

(** A check in a state of the view and the subsidy cache. *)
#[local] Notation M := (stM (UtxoViewpoint * gmap Z Z) checkError).

Definition rule (bad : bool) (c : ErrorCode) : M unit := lift (ruleOk bad c).

(** [utxoView.entries[hash]], an error when it is missing or nil. *)
Definition getEntry (hash : bytes) (c : ErrorCode) : M UtxoEntry := fun s =>
  match LookupEntry s.1 hash with None => Err (RuleError c) | Some entry => Ok (entry, s) end.

(** The script of an output, which stays decompressed in the view. *)
Definition pkScriptAt (hash : bytes) (i : Z) : M bytes := fun s =>
  match LookupEntry s.1 hash with
  | None => Panic
  | Some entry =>
    '(script, entry) ← map_err ViewError (PkScriptByIndex parseKey serializeKey entry i);
    Ok (script, (set_entry s.1 hash entry, s.2))
  end.

Definition voteSubsidy (keyHeight : Z) : M Z := fun s =>
  let '(subsidy, c) := CalcStakeVoteSubsidy s.2 keyHeight params in Ok (subsidy, (s.1, c)).

Definition stakeM {A} (m : res stakeRuleError A) : M A := lift (map_err StakeError m).
Definition ruleM {E A} (c : ErrorCode) (m : res E A) : M A := lift (map_err (fun _ => RuleError c) m).

Fixpoint mapS {A B} (f : A -> M B) (l : list A) : M (list B) :=
  match l with
  | [] => mret []
  | x :: l => y ← f x; ys ← mapS f l; mret (y :: ys)
  end.

(** An input of a ticket: its amount, when it spends a pay-to-pubkey-hash or
    pay-to-script-hash output. *)
Definition sstxInput (txIn : TxIn) : M Z :=
  let txInHash := o_Hash (PreviousOutPoint txIn) in
  let originTxIndex := o_Index (PreviousOutPoint txIn) in
  utxoEntry ← getEntry txInHash ErrMissingTx;
  _ ← rule (IsOutputSpent utxoEntry originTxIndex) ErrDoubleSpend;
  let pkVer := ScriptVersionByIndex utxoEntry originTxIndex in
  pkScrpt ← pkScriptAt txInHash originTxIndex;
  let class := GetScriptClass pkVer pkScrpt in
  class ← (if IsStakeOutput pkScrpt
           then match GetStakeOutSubclass pkScrpt with
                | Ok c => mret c
                | Err _ => mret NonStandardTy
                | Panic => lift Panic
                end
           else mret class);
  _ ← rule (negb (bool_decide (class = PubKeyHashTy) || bool_decide (class = ScriptHashTy))) ErrSStxInScrType;
  mret (AmountByIndex utxoEntry originTxIndex).

Definition checkSStx (tx : MsgTx) : M unit :=
  sstxInAmts ← mapS sstxInput (tx_TxIn tx);
  info ← stakeM (TxSStxStakeOutputInfo tx);
  out0 ← lift (or_panic (tx_TxOut tx !! 0%nat));
  outAmtCalc ← stakeM (SStxNullOutputAmounts sstxInAmts (changeAmounts info) (Value out0));
  ruleM ErrSStxCommitment (VerifySStxAmounts (amounts info) outAmtCalc.2).

(** The age in key blocks of what was in the block at [height]. *)
Definition ageOf (keyHeightCache : gmap Z Z) (txKeyHeight height : Z) : M Z :=
  originKeyHeight ← lift (map_err IndexError (KeyHeightByHeight FetchBlockHeader meta keyHeightCache height));
  mret (i64 (txKeyHeight - originKeyHeight)).

(** [ConvertUtxosToMinimalOutputs] of [chainio.go]. *)
Definition ConvertUtxosToMinimalOutputs (entry : UtxoEntry) : res chainError (list MinimalOutput) :=
  '(minOuts, _) ← deserializeToMinimalOutputs (stakeExtra entry);
  Ok minOuts.

(** The output 0 of the ticket is tagged as such. *)
Definition ticketTagged (sstxHash : bytes) (entry : UtxoEntry) (c : ErrorCode) : M unit :=
  script ← pkScriptAt sstxHash 0;
  rule (negb (bool_decide (GetScriptClass (ScriptVersionByIndex entry 0) script = StakeSubmissionTy))) c.

Definition checkSSGen (keyHeightCache : gmap Z Z) (txKeyHeight : Z) (tx : MsgTx) : M unit :=
  _ ← rule (txKeyHeight <? i64 (StakeEnabledHeight params + 1)) ErrInvalidEarlyStakeTx;
  nullIn ← lift (or_panic (tx_TxIn tx !! 0%nat));
  sstxIn ← lift (or_panic (tx_TxIn tx !! 1%nat));
  let sstxHash := o_Hash (PreviousOutPoint sstxIn) in
  votedOn ← ruleM ErrUnparseableSSGen (SSGenBlockVotedOn tx);
  stakeVoteSubsidy ← voteSubsidy votedOn.2;
  _ ← rule (negb (ValueIn nullIn =? stakeVoteSubsidy)) ErrBadStakebaseAmountIn;
  utxoEntrySstx ← getEntry sstxHash ErrMissingTx;
  _ ← rule (negb (bool_decide (e_txType utxoEntrySstx = TxTypeSStx))) ErrInvalidSSGenInput;
  _ ← rule (negb (o_Index (PreviousOutPoint sstxIn) =? 0)) ErrInvalidSSGenInput;
  minOutsSStx ← lift (map_err ViewError (ConvertUtxosToMinimalOutputs utxoEntrySstx));
  _ ← lift (guard_err (length minOutsSStx =? 0)%nat (ViewError AssertError));
  sstx ← stakeM (SStxStakeOutputInfo minOutsSStx);
  ssgen ← ruleM ErrSSGenPayeeOuts (TxSSGenStakeOutputInfo tx);
  let '(ssgenPayTypes, ssgenPkhs, ssgenAmts) := ssgen in
  _ ← rule (negb (length (isP2SH sstx) =? length ssgenPayTypes)%nat ||
            negb (length (addresses sstx) =? length ssgenPkhs)%nat ||
            negb (length (amounts sstx) =? length ssgenAmts)%nat) ErrSSGenPayeeNum;
  ssgenCalcAmts ← stakeM (CalculateRewards (amounts sstx) (AmountByIndex utxoEntrySstx 0) stakeVoteSubsidy);
  _ ← ruleM ErrSSGenPayeeOuts
        (VerifyStakingPkhsAndAmounts (isP2SH sstx) (addresses sstx) ssgenAmts ssgenPayTypes ssgenPkhs ssgenCalcAmts
           true (allSpendRules sstx) (allSpendLimits sstx));
  _ ← ticketTagged sstxHash utxoEntrySstx ErrInvalidSSGenInput;
  blocksSincePrev ← ageOf keyHeightCache txKeyHeight (e_height utxoEntrySstx);
  rule (blocksSincePrev <=? TicketMaturity params) ErrSStxInImmature.

Definition checkSSRtx (keyHeightCache : gmap Z Z) (txKeyHeight : Z) (tx : MsgTx) : M unit :=
  _ ← rule (txKeyHeight <? i64 (StakeEnabledHeight params + 2)) ErrInvalidEarlyStakeTx;
  sstxIn ← lift (or_panic (tx_TxIn tx !! 0%nat));
  let sstxHash := o_Hash (PreviousOutPoint sstxIn) in
  utxoEntrySstx ← getEntry sstxHash ErrMissingTx;
  _ ← rule (negb (bool_decide (e_txType utxoEntrySstx = TxTypeSStx))) ErrInvalidSSRtxInput;
  minOutsSStx ← lift (map_err ViewError (ConvertUtxosToMinimalOutputs utxoEntrySstx));
  sstx ← stakeM (SStxStakeOutputInfo minOutsSStx);
  ssrtx ← ruleM ErrSSRtxPayees (TxSSRtxStakeOutputInfo tx);
  let '(ssrtxPayTypes, ssrtxPkhs, ssrtxAmts) := ssrtx in
  _ ← rule (negb (length (addresses sstx) =? length ssrtxPkhs)%nat ||
            negb (length (amounts sstx) =? length ssrtxAmts)%nat) ErrSSRtxPayeesMismatch;
  ssrtxCalcAmts ← stakeM (CalculateRewards (amounts sstx) (AmountByIndex utxoEntrySstx 0) 0);
  _ ← ruleM ErrSSRtxPayees
        (VerifyStakingPkhsAndAmounts (isP2SH sstx) (addresses sstx) ssrtxAmts ssrtxPayTypes ssrtxPkhs ssrtxCalcAmts
           false (allSpendRules sstx) (allSpendLimits sstx));
  _ ← ticketTagged sstxHash utxoEntrySstx ErrInvalidSSRtxInput;
  blocksSincePrev ← ageOf keyHeightCache txKeyHeight (e_height utxoEntrySstx);
  rule (blocksSincePrev <=? i64 (TicketMaturity params + 1)) ErrSStxInImmature.

(** What kind of stake transaction is checked. *)
Record kinds := MkKinds { isSStx : bool; isSSGen : bool; isSSRtx : bool }.

Definition isStake (k : kinds) : bool := isSStx k || isSSGen k || isSSRtx k.

Record amountsIn := MkIn { totalAtomIn : Z; txAtomIn : Z; stakeAtomIn : Z }.

(** The fraud proof of an input: the amount, height and index that it states. *)
Definition checkFraudProof (checkFraudProofFlag txHeight : Z) (txIn : TxIn) (utxoEntry : UtxoEntry) : res checkError unit :=
  if negb (checkFraudProofFlag =? FraudProofNoCheck) then
    _ ← ruleOk (negb (ValueIn txIn =? AmountByIndex utxoEntry (o_Index (PreviousOutPoint txIn)))) ErrFraudAmountIn;
    _ ← ruleOk (negb (BlockHeight txIn =? e_height utxoEntry)) ErrFraudBlockHeight;
    if (checkFraudProofFlag =? FraudProofKeyBlockCheck) || negb (BlockHeight txIn =? u32 txHeight)
    then ruleOk (negb (BlockIndex txIn =? e_index utxoEntry)) ErrFraudBlockIndex
    else ruleOk (negb (BlockIndex txIn =? u32 (e_index utxoEntry + 1))) ErrFraudBlockIndex
  else Ok tt.

(** The amount of an input is added to the totals. *)
Definition addInputValue (k : kinds) (sums : amountsIn) (originTxAtom : Z) : res checkError amountsIn :=
  _ ← ruleOk (originTxAtom <? 0) ErrBadTxOutValue;
  _ ← ruleOk (originTxAtom >? MaxAmount) ErrBadTxOutValue;
  let total := i64 (totalAtomIn sums + originTxAtom) in
  _ ← ruleOk ((total <? totalAtomIn sums) || (total >? MaxAmount)) ErrBadTxOutValue;
  Ok (if negb (isStake k) then MkIn total (i64 (txAtomIn sums + originTxAtom)) (stakeAtomIn sums)
      else MkIn total (txAtomIn sums) (i64 (stakeAtomIn sums + originTxAtom))).

(** The maturity that an output of the class asks for. *)
Definition checkMaturity (keyHeightCache : gmap Z Z) (txKeyHeight : Z) (height : Z) (scriptClass : ScriptClass) : M unit :=
  _ ← (if bool_decide (scriptClass = StakeGenTy) || bool_decide (scriptClass = StakeRevocationTy) then
         blocksSincePrev ← ageOf keyHeightCache txKeyHeight height;
         rule (blocksSincePrev <? CoinbaseMaturity params) ErrImmatureSpend
       else mret tt);
  if bool_decide (scriptClass = StakeSubChangeTy) then
    blocksSincePrev ← ageOf keyHeightCache txKeyHeight height;
    rule (blocksSincePrev <? SStxChangeMaturity params) ErrImmatureSpend
  else mret tt.

Definition checkInput (keyHeightCache : gmap Z Z) (checkFraudProofFlag txHeight txKeyHeight : Z) (tx : MsgTx) (k : kinds)
    (sums : amountsIn) (idxIn : nat * TxIn) : M amountsIn :=
  let '(idx, txIn) := idxIn in
  if isSSGen k && (idx =? 0)%nat then
    votedOn ← ruleM ErrUnparseableSSGen (SSGenBlockVotedOn tx);
    stakeVoteSubsidy ← voteSubsidy votedOn.2;
    mret (MkIn (i64 (totalAtomIn sums + stakeVoteSubsidy)) (txAtomIn sums) (stakeAtomIn sums))
  else
    let txInHash := o_Hash (PreviousOutPoint txIn) in
    let originTxIndex := o_Index (PreviousOutPoint txIn) in
    utxoEntry ← getEntry txInHash ErrMissingTx;
    _ ← rule (AmountByIndex utxoEntry originTxIndex =? 0) ErrZeroValueOutputSpend;
    _ ← lift (checkFraudProof checkFraudProofFlag txHeight txIn utxoEntry);
    blocksSincePrev ← ageOf keyHeightCache txKeyHeight (e_height utxoEntry);
    _ ← rule (e_isCoinBase utxoEntry && (blocksSincePrev <? CoinbaseMaturity params)) ErrImmatureSpend;
    _ ← (if e_hasExpiry utxoEntry then
           blocksSincePrev ← ageOf keyHeightCache txKeyHeight (e_height utxoEntry);
           rule (blocksSincePrev <? CoinbaseMaturity params) ErrExpiryTxSpentEarly
         else mret tt);
    _ ← rule (IsOutputSpent utxoEntry originTxIndex) ErrDoubleSpend;
    let indicatedTree := if bool_decide (e_txType utxoEntry = TxTypeRegular) then TxTreeRegular else TxTreeStake in
    _ ← rule (negb (indicatedTree =? o_Tree (PreviousOutPoint txIn))) ErrDiscordantTxTree;
    _ ← (if negb (isSSGen k || isSSRtx k) then
           script ← pkScriptAt txInHash originTxIndex;
           rule (bool_decide (GetScriptClass (ScriptVersionByIndex utxoEntry originTxIndex) script = StakeSubmissionTy))
             ErrTxSStxOutSpend
         else mret tt);
    script ← pkScriptAt txInHash originTxIndex;
    let scriptClass := GetScriptClass (ScriptVersionByIndex utxoEntry originTxIndex) script in
    _ ← checkMaturity keyHeightCache txKeyHeight (e_height utxoEntry) scriptClass;
    lift (addInputValue k sums (AmountByIndex utxoEntry originTxIndex)).

Record amountsOut := MkOut { totalAtomOut : Z; txAtomOut : Z; stakeAtomOut : Z }.

(** A transaction that is no stake transaction has no stake opcodes in its outputs. *)
Definition checkPlainOutput (txOut : TxOut) : res checkError unit :=
  _ ← ruleOk (is_stake_class (GetScriptClass (out_Version txOut) (PkScript txOut))) ErrRegTxSpendStakeOut;
  op ← map_err (fun _ => RuleError ErrScriptMalformed) (ContainsStakeOpCodes (PkScript txOut));
  ruleOk op ErrScriptMalformed.

Definition checkOutput (k : kinds) (sums : amountsOut) (txOut : TxOut) : res checkError amountsOut :=
  let sums :=
    MkOut (i64 (totalAtomOut sums + Value txOut))
      (if negb (isStake k) then i64 (txAtomOut sums + Value txOut) else txAtomOut sums)
      (if isStake k && negb (isSSGen k) then i64 (stakeAtomOut sums + Value txOut) else stakeAtomOut sums) in
  _ ← (if negb (isStake k) then checkPlainOutput txOut else Ok tt);
  Ok sums.

(** The fee of the transaction, and the parts of it that regular and stake transactions
    contribute. *)
Definition CheckTransactionInputs (keyHeightCache : gmap Z Z) (tx : MsgTx) (txHeight txKeyHeight checkFraudProofFlag : Z) :
    M (Z * Z * Z) :=
  _ ← rule (negb (Expiry tx =? NoExpiryValue) && (txKeyHeight >=? Expiry tx)) ErrExpiredTx;
  if IsCoinBaseTx tx then mret (0, 0, 0)
  else
    sstx ← lift (isTrue (IsSStx tx));
    _ ← (if sstx : bool then checkSStx tx else mret tt);
    ssgen ← lift (isTrue (IsSSGen tx));
    _ ← (if ssgen : bool then checkSSGen keyHeightCache txKeyHeight tx else mret tt);
    ssrtx ← lift (isTrue (IsSSRtx tx));
    _ ← (if ssrtx : bool then checkSSRtx keyHeightCache txKeyHeight tx else mret tt);
    let k := MkKinds sstx ssgen ssrtx in
    ins ← foldS (checkInput keyHeightCache checkFraudProofFlag txHeight txKeyHeight tx k) (MkIn 0 0 0) (indexed (tx_TxIn tx));
    outs ← lift (foldM (checkOutput k) (MkOut 0 0 0) (tx_TxOut tx));
    _ ← rule (totalAtomIn ins <? totalAtomOut outs) ErrSpendTooHigh;
    mret (i64 (totalAtomIn ins - totalAtomOut outs), i64 (txAtomIn ins - txAtomOut outs),
          i64 (stakeAtomIn ins - stakeAtomOut outs)).

(** ** Signature operations *)

Definition CountSigOps (tx : MsgTx) (isCoinBaseTx isSSGen : bool) : Z :=
  let totalSigOps := foldl (fun total (iIn : nat * TxIn) =>
    if isCoinBaseTx then total
    else if isSSGen && (iIn.1 =? 0)%nat then total
    else i64 (total + GetSigOpCount (SignatureScript iIn.2))) 0 (indexed (tx_TxIn tx)) in
  foldl (fun total txOut => i64 (total + GetSigOpCount (PkScript txOut))) totalSigOps (tx_TxOut tx).

Definition countInput (totalSigOps : Z) (txIn : TxIn) : M Z :=
  let originTxHash := o_Hash (PreviousOutPoint txIn) in
  let originTxIndex := o_Index (PreviousOutPoint txIn) in
  utxoEntry ← getEntry originTxHash ErrMissingTx;
  _ ← rule (IsOutputSpent utxoEntry originTxIndex) ErrMissingTx;
  pkScript ← pkScriptAt originTxHash originTxIndex;
  if negb (IsPayToScriptHash pkScript) then mret totalSigOps
  else
    let numSigOps := GetPreciseSigOpCount (SignatureScript txIn) pkScript true in
    let total := i64 (totalSigOps + numSigOps) in
    _ ← rule (total <? totalSigOps) ErrTooManySigOps;
    mret total.

Definition CountP2SHSigOps (tx : MsgTx) (isCoinBaseTx isStakeBaseTx : bool) : M Z :=
  if isCoinBaseTx then mret 0
  else if isStakeBaseTx then mret 0
  else foldS countInput 0 (tx_TxIn tx).

Definition checkNumSigOps (tx : MsgTx) (index : nat) (txTree : bool) (cumulativeSigOps : Z) (isKeyBlock isMining : bool) : M Z :=
  ssgen ← lift (isTrue (IsSSGen tx));
  let isCoinbase :=
    if isMining || isKeyBlock then ((index =? 0)%nat || (index =? 1)%nat) && txTree else (index =? 0)%nat && txTree in
  let numsigOps := CountSigOps tx isCoinbase ssgen in
  numP2SHSigOps ← CountP2SHSigOps tx isCoinbase ssgen;
  let total := i64 (i64 (cumulativeSigOps + numsigOps) + numP2SHSigOps) in
  _ ← rule ((total <? cumulativeSigOps) || (total >? MaxSigOpsPerBlock)) ErrTooManySigOps;
  mret total.

End inputs.

(** ** What the checks do to the view

    They only decompress scripts. *)

(** The output is not compressed. *)
Definition plain (V : UtxoViewpoint) (h : bytes) (i : Z) : Prop := forall o, unspent V h i = Some o -> uo_compressed o = false.

(** The amount of an output, spent or not. *)
Definition rawAmount (V : UtxoViewpoint) (h : bytes) (i : Z) : option Z :=
  e ← LookupEntry V h; uo_amount <$> sparseOutputs e !! i.

Record reads (V V1 : UtxoViewpoint) : Prop := {
  rd_type h : e_txType <$> LookupEntry V1 h = e_txType <$> LookupEntry V h;
  rd_amount h i : uo_amount <$> unspent V1 h i = uo_amount <$> unspent V h i;
  rd_raw h i : rawAmount V1 h i = rawAmount V h i;
  rd_plain h i : plain V h i -> plain V1 h i;
  rd_value : viewValue V1 = viewValue V
}.

Lemma reads_refl V : reads V V.
Proof. by split. Qed.

Lemma reads_trans V1 V2 V3 : reads V1 V2 -> reads V2 V3 -> reads V1 V3.
Proof.
  intros [A1 A2 A3 A4 A5] [B1 B2 B3 B4 B5]. split; intros; [by rewrite B1|by rewrite B2|by rewrite B3|auto|by rewrite B5].
Qed.

Lemma rule_Ok bad c s s' u : rule bad c s = Ok (u, s') <-> bad = false /\ s' = s.
Proof. unfold rule, ruleOk. rewrite lift_Ok, guard_err_Ok. done. Qed.

Lemma getEntry_Ok h c s e s' : getEntry h c s = Ok (e, s') <-> LookupEntry s.1 h = Some e /\ s' = s.
Proof. unfold getEntry. destruct (LookupEntry s.1 h); naive_solver. Qed.

Section facts.
Context `{Addresses} {Key : Type} (parseKey : bytes -> option Key) (serializeKey : Key -> bytes).
Context (MaxAmount : Z) (FetchBlockHeader : bytes -> option bytes) (meta : metadata) (params : ChainParams).
Context (HMax : 0 <= MaxAmount < 2 ^ 63) (Hparams : params_ok params).

#[local] Notation M := (stM (UtxoViewpoint * gmap Z Z) checkError).
#[local] Notation pkScriptAt := (pkScriptAt parseKey serializeKey).
#[local] Notation voteSubsidy := (voteSubsidy params).
#[local] Notation ageOf := (ageOf FetchBlockHeader meta).
#[local] Notation checkInput := (checkInput parseKey serializeKey MaxAmount FetchBlockHeader meta params).

Lemma ageOf_Ok khc kh h s a s' : ageOf khc kh h s = Ok (a, s') -> s' = s.
Proof. unfold TxRules.ageOf. intros (k & s1 & [_ ->]%lift_Ok & [_ ->]%stM_ret_Ok)%stM_bind_Ok. done. Qed.

(** Decompressing an output keeps everything else of it. *)
Lemma PkScriptByIndex_reads e i s e1 : PkScriptByIndex parseKey serializeKey e i = Ok (s, e1) ->
  e_txType e1 = e_txType e /\ entryValue e1 = entryValue e /\
  (forall j, uo_amount <$> sparseOutputs e1 !! j = uo_amount <$> sparseOutputs e !! j) /\
  (forall j, uo_amount <$> unspentIn e1 j = uo_amount <$> unspentIn e j) /\
  (forall j o1, unspentIn e1 j = Some o1 -> uo_compressed o1 = false \/ (j <> i /\ unspentIn e j = Some o1)).
Proof.
  intros H0. pose proof (PkScriptByIndex_value _ _ _ _ _ _ H0) as Hv. unfold PkScriptByIndex in H0.
  destruct (sparseOutputs e !! i) as [o|] eqn:E.
  - apply bind_Ok in H0 as (o1 & Hd & [= _ <-]). cbn.
    split_and!; [done|done|..]; intros j; unfold unspentIn; cbn [with_outputs sparseOutputs];
      destruct (decide (j = i)) as [->|Hne].
    + rewrite lookup_insert_eq, E. unfold maybeDecompress in Hd. destruct (negb _); [by injection Hd as <-|].
      by apply bind_Ok in Hd as (? & _ & [= <-]).
    + by rewrite lookup_insert_ne by done.
    + rewrite lookup_insert_eq, E. cbn. unfold maybeDecompress in Hd. destruct (negb _); [by injection Hd as <-|].
      apply bind_Ok in Hd as (? & _ & [= <-]). cbn. by destruct (uo_spent o).
    + by rewrite lookup_insert_ne by done.
    + rewrite lookup_insert_eq. cbn. intros o2 H2. left. destruct (uo_spent o1); [done|]. injection H2 as <-.
      unfold maybeDecompress in Hd. destruct (uo_compressed o) eqn:Ec; [|by injection Hd as <-].
      by apply bind_Ok in Hd as (? & _ & [= <-]).
    + rewrite lookup_insert_ne by done. intros o2 H2. by right.
  - injection H0 as _ <-. split_and!; try done. intros j o1 H1. destruct (decide (j = i)) as [->|]; [|by right].
    unfold unspentIn in H1. by rewrite E in H1.
Qed.

Lemma pkScriptAt_Ok h i V c s s' : pkScriptAt h i (V, c) = Ok (s, s') ->
  exists V1, s' = (V1, c) /\ reads V V1 /\ plain V1 h i.
Proof.
  unfold TxRules.pkScriptAt. cbn [fst snd]. destruct (LookupEntry V h) as [e|] eqn:E; [|done]. intros H0.
  apply bind_Ok in H0 as ([script e1] & Hp & [= -> <-]). apply map_err_Ok in Hp.
  destruct (PkScriptByIndex_reads _ _ _ _ Hp) as (Ht & Hv & Hraw & Ha & Hc). eexists. split; [done|]. split; [split|].
  - intros h'. rewrite LookupEntry_set. destruct (decide (h' = h)) as [->|]; [|done]. rewrite E. cbn. congruence.
  - intros h' j. rewrite unspent_set. destruct (decide (h' = h)) as [->|]; [|done]. by rewrite (unspent_entry _ _ _ _ E).
  - intros h' j. unfold rawAmount. rewrite LookupEntry_set. destruct (decide (h' = h)) as [->|]; [|done]. rewrite E. apply Hraw.
  - intros h' j Hpl o. rewrite unspent_set. destruct (decide (h' = h)) as [->|]; [|apply Hpl].
    intros [Hn|[_ Ho]]%Hc; [done|]. apply Hpl. by rewrite (unspent_entry _ _ _ _ E).
  - rewrite viewValue_set, E, Hv. cbn. lia.
  - intros o. rewrite unspent_set, decide_True by done. intros [Hn|[Hne _]]%Hc; done.
Qed.

(** A check that only reads the view and keeps the cache correct. *)
Definition readsM {A} (m : M A) : Prop := forall V c a s', cache_ok params c -> m (V, c) = Ok (a, s') ->
  exists V1 c1, s' = (V1, c1) /\ reads V V1 /\ cache_ok params c1.

Lemma readsM_bind {A B} (m : M A) (k : A -> M B) : readsM m -> (forall a, readsM (k a)) -> readsM (m ≫= k).
Proof.
  intros Hm Hk V c b s' Hc (a & s1 & H1 & H2)%stM_bind_Ok. destruct (Hm _ _ _ _ Hc H1) as (V1 & c1 & -> & HR1 & Hc1).
  destruct (Hk a _ _ _ _ Hc1 H2) as (V2 & c2 & -> & HR2 & Hc2). exists V2, c2. split_and!; [done|by eapply reads_trans|done].
Qed.

Lemma readsM_same {A} (m : M A) : (forall s a s', m s = Ok (a, s') -> s' = s) -> readsM m.
Proof. intros Hm V c a s' Hc H1. apply Hm in H1 as ->. exists V, c. split_and!; [done|apply reads_refl|done]. Qed.

Lemma readsM_ret {A} (a : A) : readsM (mret a).
Proof. apply readsM_same. by intros s b s' [_ ->]%stM_ret_Ok. Qed.

Lemma readsM_lift {A} (m : res checkError A) : readsM (lift m).
Proof. apply readsM_same. by intros s b s' [_ ->]%lift_Ok. Qed.

Lemma readsM_getEntry h c : readsM (getEntry h c).
Proof. apply readsM_same. by intros s b s' [_ ->]%getEntry_Ok. Qed.

Lemma readsM_ageOf khc kh h : readsM (ageOf khc kh h).
Proof. apply readsM_same. apply ageOf_Ok. Qed.

Lemma readsM_pkScriptAt h i : readsM (pkScriptAt h i).
Proof. intros V c a s' Hc (V1 & -> & HR & _)%pkScriptAt_Ok. by exists V1, c. Qed.

(** The subsidy of a vote on the block at a key height. *)
Definition voteSubsidyAt (keyHeight : Z) : Z :=
  go_quot (i64 (blockSubsidy params keyHeight * StakeRewardProportion params))
    (i64 (TotalSubsidyProportions params * TicketsPerBlock params)).

Lemma CalcStakeVoteSubsidy_spec c keyHeight : cache_ok params c ->
  (CalcStakeVoteSubsidy c keyHeight params).1 = voteSubsidyAt keyHeight /\
  cache_ok params (CalcStakeVoteSubsidy c keyHeight params).2.
Proof.
  intros Hc. destruct (CalcBlockSubsidy_spec params c keyHeight Hc) as [E1 E2]. unfold CalcStakeVoteSubsidy, voteSubsidyAt.
  destruct (CalcBlockSubsidy params c keyHeight) as [s c1]. cbn in *. by subst.
Qed.

Lemma voteSubsidy_Ok keyHeight V c a s' : cache_ok params c -> voteSubsidy keyHeight (V, c) = Ok (a, s') ->
  exists c1, s' = (V, c1) /\ a = voteSubsidyAt keyHeight /\ cache_ok params c1.
Proof.
  intros Hc. unfold TxRules.voteSubsidy. cbn [fst snd]. destruct (CalcStakeVoteSubsidy_spec c keyHeight Hc) as [E1 E2].
  destruct (CalcStakeVoteSubsidy c keyHeight params) as [s c1]. cbn in *. intros [= <- <-]. by exists c1.
Qed.

Lemma readsM_voteSubsidy keyHeight : readsM (voteSubsidy keyHeight).
Proof.
  intros V c a s' Hc H1. destruct (voteSubsidy_Ok _ _ _ _ _ Hc H1) as (c1 & -> & _ & Hc1). exists V, c1.
  split_and!; [done|apply reads_refl|done].
Qed.

Lemma readsM_mapS {A B} (f : A -> M B) l : (forall x, readsM (f x)) -> readsM (mapS f l).
Proof. intros Hf. induction l; cbn [mapS]; [apply readsM_ret|]. repeat (apply readsM_bind; intros); auto using readsM_ret. Qed.

Lemma readsM_foldS {X A} (f : X -> A -> M X) x l : (forall x a, readsM (f x a)) -> readsM (foldS f x l).
Proof. intros Hf. revert x. induction l as [|a l IH]; intros x; cbn [foldS]; [apply readsM_ret|]. by apply readsM_bind. Qed.

Lemma readsM_if (b : bool) (m : M unit) : readsM m -> readsM (if b then m else mret tt).
Proof. destruct b; [done|]. intros _. apply readsM_ret. Qed.

(** The checks are built from the operations above. *)
Ltac reads_auto :=
  repeat match goal with
  | |- readsM (mbind _ _) => apply readsM_bind; [|intros]
  | |- readsM (if ?b then _ else _) => destruct b
  | |- readsM (let '(_, _) := ?x in _) => destruct x
  | |- readsM (match ?x with Ok _ => _ | Err _ => _ | Panic => _ end) => destruct x
  | |- readsM _ => first
      [ apply readsM_ret | apply readsM_lift | apply readsM_getEntry | apply readsM_ageOf | apply readsM_pkScriptAt
      | apply readsM_voteSubsidy ]
  end.

Lemma readsM_checkSStx tx : readsM (checkSStx parseKey serializeKey tx).
Proof. unfold checkSStx. apply readsM_bind; [apply readsM_mapS; intros txIn; unfold sstxInput|intros]; reads_auto. Qed.

Lemma readsM_checkSSGen khc kh tx : readsM (checkSSGen parseKey serializeKey FetchBlockHeader meta params khc kh tx).
Proof. unfold checkSSGen, ticketTagged. reads_auto. Qed.

Lemma readsM_checkSSRtx khc kh tx : readsM (checkSSRtx parseKey serializeKey FetchBlockHeader meta params khc kh tx).
Proof. unfold checkSSRtx, ticketTagged. reads_auto. Qed.

Lemma readsM_checkMaturity khc kh h cl : readsM (checkMaturity FetchBlockHeader meta params khc kh h cl).
Proof. unfold checkMaturity. reads_auto. Qed.

Lemma readsM_checkNumSigOps tx i tree n kb mining : readsM (checkNumSigOps parseKey serializeKey tx i tree n kb mining).
Proof. unfold checkNumSigOps, CountP2SHSigOps. reads_auto. apply readsM_foldS. intros. unfold countInput. reads_auto. Qed.

(** *** The inputs *)

Lemma unspent_amount V h i e : LookupEntry V h = Some e -> IsOutputSpent e i = false ->
  uo_amount <$> unspent V h i = Some (AmountByIndex e i).
Proof.
  intros E Hs. rewrite (unspent_entry _ _ _ _ E). unfold IsOutputSpent, unspentIn, AmountByIndex in *.
  destruct (sparseOutputs e !! i) as [o|]; [|done]. cbn in *. by rewrite Hs.
Qed.

Definition treeOf (t : TxType) : Z := if bool_decide (t = TxTypeRegular) then TxTreeRegular else TxTreeStake.

(** The input spends an unspent output of positive amount from the tree that it names, and
    states the amount when fraud proofs are checked. *)
Definition spends (flag : Z) (V : UtxoViewpoint) (txIn : TxIn) : Prop :=
  exists a t, uo_amount <$> unspent V (o_Hash (PreviousOutPoint txIn)) (o_Index (PreviousOutPoint txIn)) = Some a /\
    0 < a <= MaxAmount /\ e_txType <$> LookupEntry V (o_Hash (PreviousOutPoint txIn)) = Some t /\
    o_Tree (PreviousOutPoint txIn) = treeOf t /\ (flag <> FraudProofNoCheck -> ValueIn txIn = a).

Lemma spends_reads flag V V1 txIn : reads V V1 -> spends flag V1 txIn -> spends flag V txIn.
Proof. intros [R1 R2 _ _ _] (a & t & Ha & H1 & Ht & H2). exists a, t. by rewrite <- R1, <- R2. Qed.

Definition amountOf (V : UtxoViewpoint) (txIn : TxIn) : Z :=
  from_option uo_amount 0 (unspent V (o_Hash (PreviousOutPoint txIn)) (o_Index (PreviousOutPoint txIn))).

Lemma amountOf_reads V V1 txIn : reads V V1 -> amountOf V1 txIn = amountOf V txIn.
Proof.
  intros [_ R2 _ _ _]. unfold amountOf. specialize (R2 (o_Hash (PreviousOutPoint txIn)) (o_Index (PreviousOutPoint txIn))).
  destruct (unspent V1 _ _), (unspent V _ _); cbn in *; congruence.
Qed.

Lemma inputsValue_amounts V ins : inputsValue V ins = zsum (amountOf V <$> ins).
Proof. induction ins as [|txIn ins IH]; [done|]. cbn [inputsValue foldr fmap list_fmap zsum]. by rewrite <- IH. Qed.

Lemma add_no_wrap t a : is_i64 t -> 0 <= a < 2 ^ 63 -> (i64 (t + a) <? t) = false -> i64 (t + a) = t + a.
Proof.
  intros Ht Ha Hw. apply Z.ltb_ge in Hw. unfold is_i64, i64 in *. destruct (decide (t + a < 2 ^ 63)).
  - rewrite Z.mod_small; lia.
  - assert ((t + a + 2 ^ 63) mod 2 ^ 64 = t + a + 2 ^ 63 - 2 ^ 64); [|lia].
    symmetry. apply Z.mod_unique with 1; lia.
Qed.

(** Regular transactions count their inputs as such, stake transactions do not. *)
Definition sums_ok (k : kinds) (sums : amountsIn) : Prop :=
  is_i64 (totalAtomIn sums) /\ txAtomIn sums = if isStake k then 0 else totalAtomIn sums.

Lemma addInputValue_Ok k sums a sums' : sums_ok k sums -> addInputValue MaxAmount k sums a = Ok sums' ->
  0 <= a <= MaxAmount /\ totalAtomIn sums' = totalAtomIn sums + a /\ totalAtomIn sums' <= MaxAmount /\ sums_ok k sums'.
Proof.
  intros [Ht Hx] H0. unfold addInputValue, ruleOk in H0. cbn zeta in H0. inv_res.
  apply Z.ltb_ge in H0. rewrite Z.gtb_ltb in H1. apply Z.ltb_ge in H1. apply orb_false_iff in H2 as [Hw Hm].
  rewrite Z.gtb_ltb in Hm. apply Z.ltb_ge in Hm.
  pose proof (add_no_wrap _ a Ht ltac:(lia) Hw) as E. unfold sums_ok.
  assert (Hi : is_i64 (i64 (totalAtomIn sums + a))) by apply i64_range.
  destruct (isStake k); cbn; rewrite ?Hx; split_and!; done || lia.
Qed.

Lemma checkMaturity_Ok khc kh h cl s u s' : checkMaturity FetchBlockHeader meta params khc kh h cl s = Ok (u, s') -> s' = s.
Proof.
  unfold checkMaturity. intros (u1 & s1 & H1 & H2)%stM_bind_Ok.
  assert (s1 = s) as -> by (destruct (_ || _);
    [apply stM_bind_Ok in H1 as (? & ? & ->%ageOf_Ok & [_ ->]%rule_Ok)|apply stM_ret_Ok in H1 as [_ ->]]; done).
  destruct (bool_decide _); [apply stM_bind_Ok in H2 as (? & ? & ->%ageOf_Ok & [_ ->]%rule_Ok)|apply stM_ret_Ok in H2 as [_ ->]]; done.
Qed.

Lemma checkInput_Ok khc flag height kh tx k sums idx txIn V c sums' s' : cache_ok params c ->
  isSSGen k && (idx =? 0)%nat = false -> sums_ok k sums ->
  checkInput khc flag height kh tx k sums (idx, txIn) (V, c) = Ok (sums', s') ->
  exists V1, s' = (V1, c) /\ reads V V1 /\ plain V1 (o_Hash (PreviousOutPoint txIn)) (o_Index (PreviousOutPoint txIn)) /\
    spends flag V txIn /\ totalAtomIn sums' = totalAtomIn sums + amountOf V txIn /\ totalAtomIn sums' <= MaxAmount /\
    sums_ok k sums'.
Proof.
  intros Hc Hidx Hs. unfold TxRules.checkInput. rewrite Hidx. cbn zeta. intros Hrun.
  apply stM_bind_Ok in Hrun as (e & s1 & [He ->]%getEntry_Ok & Hrun). cbn [fst] in He.
  apply stM_bind_Ok in Hrun as (u1 & s1 & [Hz ->]%rule_Ok & Hrun).
  apply stM_bind_Ok in Hrun as (u2 & s1 & [Hf ->]%lift_Ok & Hrun).
  apply stM_bind_Ok in Hrun as (age & s1 & ->%ageOf_Ok & Hrun).
  apply stM_bind_Ok in Hrun as (u3 & s1 & [_ ->]%rule_Ok & Hrun).
  apply stM_bind_Ok in Hrun as (u4 & s1 & Hexp & Hrun).
  assert (s1 = (V, c)) as -> by (destruct (e_hasExpiry e);
    [apply stM_bind_Ok in Hexp as (? & ? & ->%ageOf_Ok & [_ ->]%rule_Ok)|apply stM_ret_Ok in Hexp as [_ ->]]; done).
  apply stM_bind_Ok in Hrun as (u5 & s1 & [Hsp ->]%rule_Ok & Hrun).
  apply stM_bind_Ok in Hrun as (u6 & s1 & [Htree ->]%rule_Ok & Hrun).
  apply stM_bind_Ok in Hrun as (u7 & s1 & Htag & Hrun).
  assert (exists V1, s1 = (V1, c) /\ reads V V1) as (V1 & -> & R1).
  { destruct (negb (isSSGen k || isSSRtx k)); [|apply stM_ret_Ok in Htag as [_ <-]; exists V; split; [done|apply reads_refl]].
    apply stM_bind_Ok in Htag as (? & ? & (V1 & -> & R1 & _)%pkScriptAt_Ok & [_ ->]%rule_Ok). by exists V1. }
  apply stM_bind_Ok in Hrun as (script & s1 & (V2 & -> & R2 & Hpl)%pkScriptAt_Ok & Hrun).
  apply stM_bind_Ok in Hrun as (u8 & s1 & Hmat & [Hadd ->]%lift_Ok).
  apply checkMaturity_Ok in Hmat as ->.
  apply (addInputValue_Ok k sums _ sums' Hs) in Hadd as (Ha & Ht & Hm & Hs').
  pose proof (unspent_amount V _ _ e He Hsp) as Hamt. apply Z.eqb_neq in Hz.
  exists V2. split_and!; try done; [by eapply reads_trans| |].
  - exists (AmountByIndex e (o_Index (PreviousOutPoint txIn))), (e_txType e). rewrite He. split_and!; try done; [lia|lia| |].
    + apply negb_false_iff, Z.eqb_eq in Htree. by rewrite <- Htree.
    + intros Hfl. unfold checkFraudProof, ruleOk in Hf. rewrite (proj2 (Z.eqb_neq _ _) Hfl) in Hf. cbn [negb] in Hf.
      apply bind_Ok in Hf as (? & Hv%guard_err_Ok & _). by apply negb_false_iff, Z.eqb_eq in Hv.
  - rewrite Ht. f_equal. unfold amountOf. by destruct (unspent V _ _); cbn in *; [injection Hamt|].
Qed.

Lemma checkInputs_Ok khc flag height kh tx k ins n sums V c sums' s' : cache_ok params c ->
  (isSSGen k = true -> (1 <= n)%nat) -> sums_ok k sums ->
  foldS (checkInput khc flag height kh tx k) sums (zip (seq n (length ins)) ins) (V, c) = Ok (sums', s') ->
  exists V1, s' = (V1, c) /\ reads V V1 /\ Forall (spends flag V) ins /\
    Forall (fun txIn => plain V1 (o_Hash (PreviousOutPoint txIn)) (o_Index (PreviousOutPoint txIn))) ins /\
    totalAtomIn sums' = totalAtomIn sums + zsum (amountOf V <$> ins) /\ sums_ok k sums'.
Proof.
  intros Hc. revert n sums V. induction ins as [|txIn ins IH]; intros n sums V Hn Hs Hrun.
  { apply stM_ret_Ok in Hrun as [<- <-]. exists V. split_and!; try done; cbn; lia. }
  cbn [length seq zip zip_with foldS] in Hrun. apply stM_bind_Ok in Hrun as (sums1 & s1 & H1 & H2).
  apply checkInput_Ok in H1 as (V1 & -> & R1 & Hp1 & Hsp & Ht1 & _ & Hs1); [|done| |done].
  - destruct (IH (S n) sums1 V1) as (V2 & -> & R2 & Hsps & Hpl & Ht2 & Hs2); [lia|done|done|].
    exists V2. split_and!; [done|by eapply reads_trans| | | |done].
    + apply Forall_cons_2; [done|]. eapply Forall_impl; [exact Hsps|]. intros ti. by apply spends_reads.
    + apply Forall_cons_2; [|done]. by apply (rd_plain _ _ R2).
    + rewrite Ht2, Ht1. cbn [fmap list_fmap zsum].
      assert ((amountOf V1 <$> ins) = (amountOf V <$> ins)) as ->; [|unfold list_fmap; lia].
      apply list_fmap_ext. intros ? ti _. by apply amountOf_reads.
  - destruct (isSSGen k); [|done]. destruct n; [|done]. specialize (Hn eq_refl). lia.
Qed.

(** *** The outputs *)

Lemma checkOutputs_Ok k outs sums sums' : Forall (fun o => 0 <= Value o) outs ->
  0 <= totalAtomOut sums -> totalAtomOut sums + zsum (Value <$> outs) < 2 ^ 63 ->
  txAtomOut sums = (if isStake k then 0 else totalAtomOut sums) ->
  foldM (checkOutput k) sums outs = Ok sums' ->
  totalAtomOut sums' = totalAtomOut sums + zsum (Value <$> outs) /\
  txAtomOut sums' = if isStake k then 0 else totalAtomOut sums'.
Proof.
  intros Hv. revert sums. induction Hv as [|o outs Ho Hv IH]; intros sums H0 Hl Hx Hrun.
  { injection Hrun as <-. cbn. split; [lia|done]. }
  cbn [foldM] in Hrun. apply bind_Ok in Hrun as (s1 & H1 & H2). cbn [fmap list_fmap zsum] in *.
  assert (0 <= zsum (Value <$> outs)) by (apply zsum_nonneg; by apply Forall_fmap). unfold list_fmap in *.
  unfold checkOutput in H1. apply bind_Ok in H1 as (u & _ & [= <-]). apply IH in H2; cbn in *.
  - rewrite i64_small in H2 by (unfold is_i64; lia). unfold list_fmap in *. lia.
  - rewrite i64_small by (unfold is_i64; lia). lia.
  - rewrite i64_small by (unfold is_i64; lia). unfold list_fmap in *. lia.
  - rewrite Hx. by destruct (isStake k).
Qed.

(** ** Sanity *)

Lemma addOutputValues_Ok outs t t' : 0 <= t -> foldM (addOutputValue MaxAmount) t outs = Ok t' -> t <= MaxAmount ->
  Forall (fun o => 0 <= Value o <= MaxAmount) outs /\ t' = t + zsum (Value <$> outs) /\ t' <= MaxAmount.
Proof.
  revert t. induction outs as [|o outs IH]; intros t Ht Hrun Hm; cbn [foldM] in Hrun.
  { injection Hrun as <-. cbn. split_and!; [done|lia|done]. }
  apply bind_Ok in Hrun as (t1 & H1 & H2). unfold addOutputValue, ruleOk in H1. cbn zeta in H1. inv_res.
  rewrite Z.gtb_ltb in *. repeat match goal with H1 : (_ <? _) = false |- _ => apply Z.ltb_ge in H1 end.
  assert (E : i64 (t + Value o) = t + Value o).
  { apply add_no_wrap; [unfold is_i64; lia|lia|]. apply Z.ltb_ge. unfold is_i64, i64 in *.
    Z.div_mod_to_equations. lia. }
  rewrite E in *. apply IH in H2 as (HF & -> & Hle); [|lia|lia]. cbn. split_and!; [|unfold list_fmap; lia|done].
  apply Forall_cons_2; [lia|done].
Qed.

Lemma addOutpoints_Ok ins seen seen' : NoDup seen -> foldM addOutpoint seen ins = Ok seen' ->
  NoDup ((PreviousOutPoint <$> ins) ++ seen).
Proof.
  revert seen. induction ins as [|txIn ins IH]; intros seen Hnd Hrun; [done|]. cbn [foldM] in Hrun.
  apply bind_Ok in Hrun as (s1 & H1 & H2). unfold addOutpoint, ruleOk in H1. inv_res. apply bool_decide_eq_false_1 in H0.
  apply IH in H2; [|by apply NoDup_cons]. cbn [fmap list_fmap app]. rewrite <- Permutation_middle in H2. done.
Qed.

(** What a sane transaction is like. *)
Lemma CheckTransactionSanity_Ok tx : CheckTransactionSanity MaxAmount tx params = Ok tt ->
  NoDup (PreviousOutPoint <$> tx_TxIn tx) /\ Forall (fun o => 0 <= Value o <= MaxAmount) (tx_TxOut tx) /\
  0 <= zsum (Value <$> tx_TxOut tx) <= MaxAmount /\ tx_TxIn tx <> [] /\ tx_TxOut tx <> [].
Proof.
  unfold CheckTransactionSanity, ruleOk. intros H0. inv_res.
  match goal with H1 : foldM (addOutputValue _) _ _ = _ |- _ => apply addOutputValues_Ok in H1 as (HF & -> & Hle); [|lia..] end.
  match goal with H1 : foldM addOutpoint _ _ = _ |- _ => apply addOutpoints_Ok in H1; [|by apply NoDup_nil] end.
  rewrite app_nil_r in *. split_and!; try done; [|by destruct (tx_TxIn tx)|by destruct (tx_TxOut tx)].
  apply zsum_nonneg, Forall_fmap. eapply Forall_impl; [exact HF|]. cbn. lia.
Qed.

(** ** The kinds exclude one another *)

Lemma class_unique o c1 c2 : hasClass o c1 = true -> hasClass o c2 = true -> c1 = c2.
Proof. unfold hasClass. intros H1%bool_decide_eq_true_1 H2%bool_decide_eq_true_1. congruence. Qed.

Lemma IsSStx_first tx : IsSStx tx = Ok true -> exists o outs, tx_TxOut tx = o :: outs /\ hasClass o StakeSubmissionTy = true.
Proof.
  unfold IsSStx. do 2 (destruct (_ <? _)%nat; [done|]). destruct (tx_TxOut tx) as [|o outs]; [done|].
  destruct (negb (forallb _ _)); [done|]. destruct (hasClass o StakeSubmissionTy) eqn:E; [|done]. eauto.
Qed.

Lemma IsSSGen_first tx : IsSSGen tx = Ok true ->
  length (tx_TxIn tx) = 2%nat /\ exists o outs, tx_TxOut tx = o :: outs /\ hasClass o NullDataTy = true.
Proof.
  unfold IsSSGen. destruct (Nat.eqb_spec (length (tx_TxIn tx)) NumInputsPerSSGen) as [El|]; [|done]. cbn [negb].
  destruct (_ <? _)%nat; [done|]. destruct (length (tx_TxOut tx) =? 0)%nat; [done|]. intros H0.
  apply bind_Ok in H0 as (b & _ & H0). destruct (negb b); [done|]. apply bind_Ok in H0 as (u & _ & H0).
  destruct (negb (forallb _ _)); [done|]. apply bind_Ok in H0 as (o & Ho & H0). apply or_panic_Ok in Ho.
  destruct (hasClass o NullDataTy) eqn:E; [|done]. split; [done|]. destruct (tx_TxOut tx); [done|]. injection Ho as ->. eauto.
Qed.

Lemma IsSSRtx_first tx : IsSSRtx tx = Ok true -> exists o outs, tx_TxOut tx = o :: outs /\ hasClass o StakeRevocationTy = true.
Proof.
  unfold IsSSRtx. destruct (negb (_ =? _)%nat); [done|]. destruct (_ <? _)%nat; [done|].
  destruct (tx_TxOut tx) as [|o outs]; [done|]. cbn [length Nat.eqb forallb].
  do 2 (destruct (negb _); [done|]). destruct (hasClass o StakeRevocationTy) eqn:E; [|done]. eauto.
Qed.

(** What the three tests say is what [DetermineTxType] says. *)
Lemma kinds_type tx a b r : isTrue (IsSStx tx) = Ok a -> isTrue (IsSSGen tx) = Ok b -> isTrue (IsSSRtx tx) = Ok r ->
  DetermineTxType tx = Ok (if a then TxTypeSStx else if b then TxTypeSSGen else if r then TxTypeSSRtx else TxTypeRegular) /\
  (b = true -> a = false /\ IsSSGen tx = Ok true).
Proof.
  intros Ha Hb Hr. split.
  - unfold DetermineTxType, isTrue, succeeded in *.
    destruct (IsSStx tx) as [a'| |]; try done; injection Ha as <-; cbn; [destruct a'; [done|]|].
    all: destruct (IsSSGen tx) as [b'| |]; try done; injection Hb as <-; cbn; [destruct b'; [done|]|].
    all: destruct (IsSSRtx tx) as [r'| |]; try done; injection Hr as <-; cbn; [by destruct r'|done].
  - intros ->. assert (Hg : IsSSGen tx = Ok true) by (unfold isTrue in Hb; destruct (IsSSGen tx); congruence).
    split; [|done]. destruct a; [|done]. assert (Hs : IsSStx tx = Ok true) by (unfold isTrue in Ha; destruct (IsSStx tx); congruence).
    apply IsSSGen_first in Hg as (_ & o & outs & E & Hc). apply IsSStx_first in Hs as (o' & outs' & E' & Hc').
    rewrite E in E'. injection E' as <- <-. by pose proof (class_unique _ _ _ Hc Hc').
Qed.

(** The value that a vote creates. *)
Definition mintedBy (tx : MsgTx) : Z :=
  match IsSSGen tx, SSGenBlockVotedOn tx with
  | Ok true, Ok votedOn => voteSubsidyAt votedOn.2
  | _, _ => 0
  end.

Lemma voteSubsidyAt_i64 keyHeight : is_i64 (voteSubsidyAt keyHeight).
Proof.
  unfold voteSubsidyAt, go_quot, TotalSubsidyProportions. destruct Hparams as (_ & _ & _ & _ & _ & _ & H1 & H2 & H3 & H4 & H5).
  rewrite (u16_small (WorkRewardProportion params + _)) by (unfold is_u16; lia). rewrite u16_small by (unfold is_u16; lia).
  set (d := (_ + _) * _). assert (0 < d < 2 ^ 32) by (unfold d; nia). rewrite (i64_small d) by (unfold is_i64; lia).
  set (x := i64 _). assert (Hx : is_i64 x) by apply i64_range. unfold is_i64 in *.
  pose proof (Z.quot_abs x d ltac:(lia)) as Hq. rewrite (Z.abs_eq d) in Hq by lia.
  assert (Z.abs x ÷ d <= Z.abs x) by (rewrite Z.quot_div_nonneg by lia; apply Z.div_le_upper_bound; nia).
  assert (x < 0 -> x ÷ d <= 0) by (intros; rewrite <- (Z.opp_involutive x), Z.quot_opp_l by lia;
    pose proof (Z.quot_pos (- x) d); lia).
  assert (0 <= x -> 0 <= x ÷ d) by (intros; apply Z.quot_pos; lia). lia.
Qed.

(** Inputs that differ as outpoints differ in hash or index, because the tree they name is
    that of the transaction. *)
Lemma spends_distinct flag V ins : NoDup (PreviousOutPoint <$> ins) -> Forall (spends flag V) ins -> NoDup (outpoint <$> ins).
Proof.
  intros Hnd Hs. induction ins as [|txIn ins IH]; [by apply NoDup_nil|]. cbn [fmap list_fmap] in *.
  apply NoDup_cons in Hnd as [Hni Hnd]. apply Forall_cons_1 in Hs as [Hs1 Hs]. apply NoDup_cons. split; [|by apply IH].
  intros (ti & E & Hin)%list_elem_of_fmap. apply Hni, list_elem_of_fmap. exists ti. split; [|done].
  rewrite Forall_forall in Hs. destruct Hs1 as (a & t & _ & _ & Ht & Hr & _), (Hs ti Hin) as (a' & t' & _ & _ & Ht' & Hr' & _).
  unfold outpoint in E. injection E as E1 E2. rewrite E1 in Ht. assert (t = t') as <- by congruence.
  destruct (PreviousOutPoint txIn), (PreviousOutPoint ti). cbn in *. congruence.
Qed.

(** ** The value of a checked transaction *)

#[local] Notation CheckTransactionInputs := (CheckTransactionInputs parseKey serializeKey MaxAmount FetchBlockHeader meta params).

(** The inputs of a transaction: those that spend outputs add to what a vote creates. *)
Lemma allInputs_Ok khc flag height kh tx k V c sums s' :
  (isSSGen k = true -> IsSSGen tx = Ok true) -> (isSSGen k = false -> IsSSGen tx <> Ok true) -> cache_ok params c ->
  foldS (checkInput khc flag height kh tx k) (MkIn 0 0 0) (indexed (tx_TxIn tx)) (V, c) = Ok (sums, s') ->
  let ins := if isSSGen k then drop 1 (tx_TxIn tx) else tx_TxIn tx in
  exists V1 c1, s' = (V1, c1) /\ cache_ok params c1 /\ reads V V1 /\ Forall (spends flag V) ins /\
    Forall (fun txIn => plain V1 (o_Hash (PreviousOutPoint txIn)) (o_Index (PreviousOutPoint txIn))) ins /\
    totalAtomIn sums = mintedBy tx + inputsValue V ins /\ is_i64 (totalAtomIn sums) /\
    (isStake k = false -> txAtomIn sums = totalAtomIn sums) /\ (isStake k = true -> txAtomIn sums = 0).
Proof.
  intros Hg Hng Hc Hrun. cbn zeta. unfold indexed in Hrun. destruct (isSSGen k) eqn:Ek.
  - specialize (Hg eq_refl). pose proof (IsSSGen_first _ Hg) as [Hl _].
    destruct (tx_TxIn tx) as [|i0 ins]; [done|]. cbn [length seq zip zip_with foldS] in Hrun.
    apply stM_bind_Ok in Hrun as (sums1 & s1 & H1 & H2). unfold TxRules.checkInput in H1. rewrite Ek in H1. cbn [andb Nat.eqb] in H1.
    apply stM_bind_Ok in H1 as (votedOn & s2 & [Hv%map_err_Ok ->]%lift_Ok & H1).
    apply stM_bind_Ok in H1 as (sub & s2 & Hsub & [<- <-]%stM_ret_Ok).
    apply voteSubsidy_Ok in Hsub as (c1 & -> & -> & Hc1); [|done]. cbn [totalAtomIn txAtomIn stakeAtomIn] in H2.
    assert (Hst : isStake k = true) by (unfold isStake; rewrite Ek; apply orb_true_iff; left; apply orb_true_r).
    apply checkInputs_Ok in H2 as (V1 & -> & HR & Hsp & Hpl & Ht & Hs); [|done|lia|].
    + exists V1, c1. cbn [drop]. rewrite inputsValue_amounts, Ht. cbn [totalAtomIn]. unfold mintedBy. rewrite Hg, Hv.
      rewrite Z.add_0_l, i64_small by apply voteSubsidyAt_i64. destruct Hs as [Hi Hx]. rewrite Ht in Hi. cbn [totalAtomIn] in Hi.
      rewrite Z.add_0_l, i64_small in Hi by apply voteSubsidyAt_i64. rewrite Hst in *. by split_and!.
    + split; cbn; [apply i64_range|by rewrite Hst].
  - apply checkInputs_Ok in Hrun as (V1 & -> & HR & Hsp & Hpl & Ht & [Hi Hx]); [|done|congruence|].
    + exists V1, c. rewrite inputsValue_amounts, Ht. rewrite Ht in Hi. cbn [totalAtomIn] in *.
      assert (mintedBy tx = 0) as ->. { unfold mintedBy. destruct (IsSSGen tx) as [[]| |]; try done. by destruct Hng. }
      split_and!; try done; intros E; rewrite E in Hx; rewrite Hx; lia.
    + split; cbn; [done|]. by destruct (isStake k).
Qed.

Lemma CheckTransactionInputs_Ok khc tx height kh flag V c fee txFee stakeFee s' :
  cache_ok params c -> IsCoinBaseTx tx = false -> CheckTransactionSanity MaxAmount tx params = Ok tt ->
  CheckTransactionInputs khc tx height kh flag (V, c) = Ok ((fee, txFee, stakeFee), s') ->
  exists V1 c1 t ins, s' = (V1, c1) /\ cache_ok params c1 /\ reads V V1 /\
    DetermineTxType tx = Ok t /\ journalInputs tx = Ok ins /\ NoDup (outpoint <$> ins) /\ Forall (spends flag V) ins /\
    Forall (fun txIn => plain V1 (o_Hash (PreviousOutPoint txIn)) (o_Index (PreviousOutPoint txIn))) ins /\
    inputsValue V ins + mintedBy tx = zsum (Value <$> tx_TxOut tx) + fee /\ 0 <= fee < 2 ^ 63 /\
    txFee = if bool_decide (t = TxTypeRegular) then fee else 0.
Proof.
  intros Hc Hcb Hsane Hrun. destruct (CheckTransactionSanity_Ok tx Hsane) as (Hnd & Hv & Hsum & _ & _).
  unfold TxRules.CheckTransactionInputs in Hrun. rewrite Hcb in Hrun.
  apply stM_bind_Ok in Hrun as (u0 & s0 & [_ ->]%rule_Ok & Hrun).
  apply stM_bind_Ok in Hrun as (a & s0 & [Ha ->]%lift_Ok & Hrun). apply stM_bind_Ok in Hrun as (u1 & s1 & H1 & Hrun).
  apply (readsM_if a) in H1 as (V1 & c1 & -> & R1 & Hc1); [|apply readsM_checkSStx|done].
  apply stM_bind_Ok in Hrun as (b & s0 & [Hb ->]%lift_Ok & Hrun). apply stM_bind_Ok in Hrun as (u2 & s2 & H2 & Hrun).
  apply (readsM_if b) in H2 as (V2 & c2 & -> & R2 & Hc2); [|apply readsM_checkSSGen|done].
  apply stM_bind_Ok in Hrun as (r & s0 & [Hr ->]%lift_Ok & Hrun). apply stM_bind_Ok in Hrun as (u3 & s3 & H3 & Hrun).
  apply (readsM_if r) in H3 as (V3 & c3 & -> & R3 & Hc3); [|apply readsM_checkSSRtx|done].
  apply stM_bind_Ok in Hrun as (sumsIn & s4 & Hin & Hrun).
  destruct (kinds_type tx a b r Ha Hb Hr) as [Ht Hex].
  apply allInputs_Ok in Hin as (V4 & c4 & -> & Hc4 & R4 & Hsp & Hpl & Htot & Hi & Hx0 & Hx1); [| | |done]; cbn [isSSGen] in *.
  2:{ intros E. by apply Hex. }
  2:{ intros E Hg. unfold isTrue in Hb. rewrite Hg in Hb. congruence. }
  apply stM_bind_Ok in Hrun as (sumsOut & s5 & [Hout ->]%lift_Ok & Hrun).
  apply stM_bind_Ok in Hrun as (u6 & s6 & [Hlt%Z.ltb_ge ->]%rule_Ok & [Hfees <-]%stM_ret_Ok). injection Hfees as <- <- <-.
  pose proof (reads_trans _ _ _ R1 (reads_trans _ _ _ R2 R3)) as R.
  apply checkOutputs_Ok in Hout as [Hto Hxo]; cbn [totalAtomOut txAtomOut] in *; [|eapply Forall_impl; [exact Hv|cbn; lia]|lia|lia|by destruct (isStake _)].
  set (ins := if b then drop 1 (tx_TxIn tx) else tx_TxIn tx) in *.
  assert (Hsp' : Forall (spends flag V) ins) by (eapply Forall_impl; [exact Hsp|]; intros ti; by apply spends_reads).
  assert (Hval : inputsValue V3 ins = inputsValue V ins).
  { rewrite !inputsValue_amounts. f_equal. apply list_fmap_ext. intros ? ti _. by apply amountOf_reads. }
  unfold is_i64 in Hi. exists V4, c4. eexists. exists ins. split_and!; try done.
  - by eapply reads_trans.
  - unfold journalInputs. rewrite Ht. cbn [mbind res_bind]. f_equal. unfold ins. destruct a, b, r; try done; by destruct Hex.
  - apply (spends_distinct flag V); [|done]. unfold ins. destruct b; [|done].
    rewrite <- (take_drop 1 (tx_TxIn tx)), fmap_app in Hnd. by apply NoDup_app in Hnd as (_ & _ & ?).
  - rewrite i64_small by (unfold is_i64; lia). lia.
  - rewrite i64_small by (unfold is_i64; lia). lia.
  - apply i64_range.
  - rewrite Hxo. unfold isStake in *. cbn [isSStx isSSGen isSSRtx] in *.
    destruct a, b, r; cbn [orb] in *; rewrite ?Hx1, ?Hx0 by done; cbn; done.
Qed.

(** The value of the outputs that are not kept because they cannot be spent. *)
Definition lostValue (txOuts : list TxOut) : Z := zsum (Value <$> txOuts) - spendableValue txOuts.

Lemma lostValue_nonneg txOuts : Forall (fun o => 0 <= Value o) txOuts -> 0 <= lostValue txOuts.
Proof.
  unfold lostValue. induction 1 as [|o outs Ho _ IH]; [cbn; lia|]. cbn [fmap list_fmap zsum spendableValue foldr].
  unfold spendableValue, list_fmap in *. destruct (IsUnspendable _ _); lia.
Qed.

Lemma reads_connectable (txHash : MsgTx -> bytes) flag V V1 tx ins : flag <> FraudProofNoCheck -> IsCoinBaseTx tx = false ->
  reads V V1 -> LookupEntry V (txHash tx) = None -> journalInputs tx = Ok ins -> NoDup (outpoint <$> ins) ->
  Forall (spends flag V) ins ->
  Forall (fun txIn => plain V1 (o_Hash (PreviousOutPoint txIn)) (o_Index (PreviousOutPoint txIn))) ins ->
  connectable txHash V1 tx ins /\ Forall (readable parseKey serializeKey V1) ins.
Proof.
  intros Hfl Hcb HR HN Hj Hnd Hsp Hpl. split; [split_and!; [|by rewrite Hcb|done|]|].
  - pose proof (rd_type _ _ HR (txHash tx)) as E. rewrite HN in E. by destruct (LookupEntry V1 (txHash tx)).
  - eapply Forall_impl; [exact Hsp|]. intros ti (a & t & Ha & _ & _ & _ & Hv). rewrite <- (rd_amount _ _ HR) in Ha.
    apply fmap_Some in Ha as (o & Ho & ->). exists o. split; [done|]. symmetry. by apply Hv.
  - eapply Forall_impl; [exact Hpl|]. intros ti Hp o Ho. exists o. unfold maybeDecompress. by rewrite (Hp o Ho).
Qed.

(** C8: a checked transaction connects and creates no value.  When a transaction that is no
    coinbase passes CheckTransactionSanity and CheckTransactionInputs with fraud proofs, and
    is new to the view, then [connectTransaction] succeeds on the view that the checks leave.
    The fee is not negative, and the value of all unspent outputs has grown by exactly the
    subsidy of the key height that a vote votes on (nothing for other transactions) minus
    the fee and minus the value of outputs that cannot be spent.  The transaction's inputs
    spend different outputs that were unspent; these are gone, its outputs are there, and
    the amounts of all other outputs are as they were. *)
Theorem checked_transaction_conserves (txHash : MsgTx -> bytes) khc tx height kh flag V c fee txFee stakeFee V1 c1 index stxos :
  cache_ok params c -> IsCoinBaseTx tx = false -> flag <> FraudProofNoCheck ->
  CheckTransactionSanity MaxAmount tx params = Ok tt ->
  CheckTransactionInputs khc tx height kh flag (V, c) = Ok ((fee, txFee, stakeFee), (V1, c1)) ->
  LookupEntry V (txHash tx) = None -> Z.of_nat (length (tx_TxOut tx)) < 2 ^ 32 ->
  (exists e, freshEntry tx height index = Ok e) ->
  0 <= fee /\ 0 <= lostValue (tx_TxOut tx) /\
  exists ins V2 stxos', journalInputs tx = Ok ins /\ NoDup (outpoint <$> ins) /\
    connectTransaction parseKey serializeKey txHash V1 tx height index stxos = Ok (V2, stxos') /\
    viewValue V2 = viewValue V + mintedBy tx - fee - lostValue (tx_TxOut tx) /\
    forall h i, uo_amount <$> unspent V2 h i =
      if decide (h = txHash tx) then uo_amount <$> createdOutput (tx_TxOut tx) i
      else if decide ((h, i) ∈ outpoint <$> ins) then None else uo_amount <$> unspent V h i.
Proof.
  intros Hc Hcb Hfl Hsane Hrun HN Hl Hfr.
  destruct (CheckTransactionInputs_Ok _ _ _ _ _ _ _ _ _ _ _ Hc Hcb Hsane Hrun)
    as (V1' & c1' & t & ins & [= <- <-] & _ & HR & _ & Hj & Hnd & Hsp & Hpl & Hval & Hfee & _).
  destruct (CheckTransactionSanity_Ok tx Hsane) as (_ & Hv & _).
  destruct (reads_connectable txHash flag V V1 tx ins Hfl Hcb HR HN Hj Hnd Hsp Hpl) as [Hco Hrd].
  destruct (connectTransaction_moves parseKey serializeKey txHash V1 tx ins height index stxos Hco Hrd Hl Hfr)
    as (V2 & s2 & Hconn & Hu & Hvv).
  split; [lia|]. split; [apply lostValue_nonneg; eapply Forall_impl; [exact Hv|cbn; lia]|].
  exists ins, V2, s2. split_and!; [done..| |].
  - assert (inputsValue V1 ins = inputsValue V ins) as E.
    { rewrite !inputsValue_amounts. f_equal. apply list_fmap_ext. intros ? ti _. by apply amountOf_reads. }
    rewrite inputsValue_claimed in E by apply Hco. rewrite Hvv, (rd_value _ _ HR). unfold lostValue. lia.
  - intros h i. rewrite Hu. destruct (decide (h = txHash tx)); [done|]. destruct (decide _); [done|]. apply (rd_amount _ _ HR).
Qed.

End facts.

Module Sample.

Import ScriptBuild.Sample.

Definition params : ChainParams := MkChainParams mainNetNumbers 1000 [0; 0] 256 16 16 1 0 0 0 0.
Definition keyHeights : gmap Z Z := {[4 := 4]}.
Definition check (tx : MsgTx) (V : UtxoViewpoint) :=
  CheckTransactionInputs SampleKeys.ParsePubKey UtxoView.Sample.key (2 ^ 60) (fun _ => None) ChainState.Sample.empty_meta params
    keyHeights tx 9 9 FraudProofKeyBlockCheck (V, ∅).

Lemma checked_transaction_conserves_witness : exists V1 V2 stxos,
  check UtxoView.Sample.first UtxoView.Sample.view = Ok ((5, 5, 0), (V1, ∅)) /\
  connectTransaction SampleKeys.ParsePubKey UtxoView.Sample.key UtxoView.Sample.txHash V1 UtxoView.Sample.first 9 1 None = Ok (V2, stxos) /\
  viewValue V2 = 157 - 5.
Proof.
  destruct (check UtxoView.Sample.first UtxoView.Sample.view) as [[[[fee txFee] stakeFee] [V1 c1]]| |] eqn:E;
    [|exfalso; vm_compute in E; discriminate E..].
  destruct (checked_transaction_conserves SampleKeys.ParsePubKey UtxoView.Sample.key (2 ^ 60) (fun _ => None)
    ChainState.Sample.empty_meta params ltac:(lia) mainNetNumbers_ok UtxoView.Sample.txHash keyHeights UtxoView.Sample.first 9 9
    FraudProofKeyBlockCheck UtxoView.Sample.view ∅ fee txFee stakeFee V1 c1 1 None) as (_ & _ & ins & V2 & s2 & _ & _ & H2 & H3 & _).
  - intros i v Hi. by rewrite lookup_empty in Hi.
  - vm_compute. reflexivity.
  - discriminate.
  - vm_compute. reflexivity.
  - exact E.
  - vm_compute. reflexivity.
  - vm_compute. reflexivity.
  - eexists. vm_compute. reflexivity.
  - assert (Ef : match check UtxoView.Sample.first UtxoView.Sample.view with Ok (fees, (_, c)) => Some (fees, c) | _ => None end =
      Some ((5, 5, 0), ∅)) by (vm_compute; reflexivity).
    rewrite E in Ef. injection Ef as -> -> -> ->. exists V1, V2, s2. split; [reflexivity|]. split; [exact H2|].
    rewrite H3. vm_compute. reflexivity.
Defined.

End Sample.
