(* ===== verification/BlockTree.v ===== *)
(** * The nodes of the block tree

    [blockNode] of [blockchain/chain.go] with its construction, and the walks over it: to
    the parent, to the previous key block, to an ancestor; the median time and the count of
    block versions; and what [blockchain/accept.go] collects for a node.  The index of the
    tree is a finite map from hashes to nodes, and a pointer to a parent is its hash.  The
    nodes that the code has pruned from memory and loads from the block database again
    are not modelled: reaching one is the error [ErrNotLoaded].  The walks take fuel. *)

From S2P Require Import Prelude WireCommon MsgTx StakeTx Compact MsgBlock ChainIO.
From stdpp Require Import gmap list.
#[local] Open Scope Z_scope.

Record VoteVersionTuple := MkVoteVersion { vv_Version : Z; vv_Bits : Z }.

(** Without the children and the data of the stake node. *)
Record blockNode := MkNode {
  n_parent : option bytes;
  n_hash : bytes;
  n_height : Z;
  n_keyHeight : Z;
  n_totalFees : Z;
  n_workSum : Z;
  n_header : BlockHeader;
  n_ticketsSpent : list bytes;
  n_ticketsRevoked : list bytes;
  n_votes : list VoteVersionTuple;
  n_isKeyBlock : bool
}.

(** What the transaction pays according to the amounts that its inputs state. *)
Definition statedFee (tx : MsgTx) : Z :=
  let totalTxIn := foldl (fun total txin => i64 (total + ValueIn txin)) 0 (tx_TxIn tx) in
  let totalTxOut := foldl (fun total txout => i64 (total + Value txout)) 0 (tx_TxOut tx) in
  i64 (totalTxIn - totalTxOut).

Definition newBlockNode (blockHash : BlockHeader -> bytes) (block : MsgBlock) (ticketsSpent ticketsRevoked : list bytes)
    (votes : list VoteVersionTuple) : blockNode :=
  let header := Header block in
  let isKeyBlock := meetsTarget (blockHash header) (h_Bits header) in
  let workSum := if isKeyBlock then CalcWork (h_Bits header) else 0 in
  let totalFees := foldl (fun totalFees (iTx : nat * MsgTx) =>
    if (iTx.1 <? 1)%nat then totalFees
    else if isKeyBlock && (iTx.1 <? 2)%nat then totalFees
    else i64 (totalFees + statedFee iTx.2)) 0 (indexed (Transactions block)) in
  MkNode None (blockHash header) (h_Height header) (h_KeyHeight header) totalFees workSum header ticketsSpent ticketsRevoked
    votes isKeyBlock.

(** The node put behind its parent, as [maybeAcceptBlock] does. *)
Definition linkNode (node prevNode : blockNode) (blockHeight : Z) : blockNode :=
  MkNode (Some (n_hash prevNode)) (n_hash node) blockHeight (n_keyHeight node) (n_totalFees node)
    (n_workSum prevNode + n_workSum node) (n_header node) (n_ticketsSpent node) (n_ticketsRevoked node) (n_votes node)
    (n_isKeyBlock node).

(** ** What a block says about tickets *)

(** The outpoints that the inputs at [i] of the transactions of a type spend. *)
Definition ticketsOf (typ : TxType) (i : nat) (block : MsgBlock) : res stakeRuleError (list bytes) :=
  foldM (fun tickets stx =>
    txType ← DetermineTxType stx;
    if bool_decide (txType = typ) then
      txIn ← or_panic (tx_TxIn stx !! i);
      Ok (tickets ++ [o_Hash (PreviousOutPoint txIn)])
    else Ok tickets) [] (STransactions block).

Definition ticketsSpentInBlock (block : MsgBlock) : res stakeRuleError (list bytes) := ticketsOf TxTypeSSGen 1 block.

Definition ticketsRevokedInBlock (block : MsgBlock) : res stakeRuleError (list bytes) := ticketsOf TxTypeSSRtx 0 block.

Definition voteBitsInBlock (block : MsgBlock) : res stakeRuleError (list VoteVersionTuple) :=
  foldM (fun voteBits stx =>
    isVote ← succeeded (IsSSGen stx);
    if negb isVote then Ok voteBits
    else
      version ← SSGenVersion stx;
      bits ← SSGenVoteBits stx;
      Ok (voteBits ++ [MkVoteVersion version bits])) [] (STransactions block).

(** ** Walks *)

Inductive treeError :=
| ErrNotLoaded
| StillWalking
| AssertTree
| ErrVoterMajority
| ErrStakeMajority
| DeploymentError.

Section walks.
Context (GenesisHash : bytes) (GenesisTime : Z) (index : gmap bytes blockNode).

Definition getPrevNodeFromNode (node : blockNode) : res treeError (option blockNode) :=
  match n_parent node with
  | Some parent => prev ← or_panic (index !! parent); Ok (Some prev)
  | None => if bool_decide (n_hash node = GenesisHash) then Ok None else Err ErrNotLoaded
  end.

(** The search for a key block among the parents; past the first block it panics. *)
Fixpoint searchKeyNode (fuel : nat) (prevKeyNode : blockNode) : res treeError (option blockNode) :=
  match fuel with
  | O => Err StillWalking
  | S fuel =>
    prev ← getPrevNodeFromNode prevKeyNode;
    prevKeyNode ← or_panic prev;
    if n_isKeyBlock prevKeyNode then Ok (Some prevKeyNode) else searchKeyNode fuel prevKeyNode
  end.

Definition walkFuel (node : blockNode) : nat := S (S (Z.to_nat (n_height node))).

Definition getPrevKeyNodeFromNode (node : blockNode) : res treeError (option blockNode) :=
  if bool_decide (n_hash node = GenesisHash) then Ok None
  else if bool_decide (h_PrevKeyBlock (n_header node) = zeroHash) then Ok None
  else match index !! h_PrevKeyBlock (n_header node) with
       | Some prevKeyNode => Ok (Some prevKeyNode)
       | None => searchKeyNode (walkFuel node) node
       end.

Fixpoint walkToHeight (fuel : nat) (iterNode : option blockNode) (height : Z) : res treeError (option blockNode) :=
  match fuel, iterNode with
  | O, _ => Err StillWalking
  | S fuel, Some node =>
    if n_height node >? height then prev ← getPrevNodeFromNode node; walkToHeight fuel prev height else Ok (Some node)
  | S _, None => Ok None
  end.

Definition ancestorNode (node : blockNode) (height : Z) : res treeError (option blockNode) :=
  if (height >? n_height node) || (height <? 0) then Ok None else walkToHeight (walkFuel node) (Some node) height.

Fixpoint walkToKeyHeight (fuel : nat) (iterNode : blockNode) (keyheight : Z) : res treeError (option blockNode) :=
  match fuel with
  | O => Err StillWalking
  | S fuel =>
    if (i64 (n_keyHeight iterNode + 1) >? keyheight) || negb (n_isKeyBlock iterNode) then
      match index !! h_PrevBlock (n_header iterNode) with
      | Some nextNode => walkToKeyHeight fuel nextNode keyheight
      | None => Err ErrNotLoaded
      end
    else Ok (Some iterNode)
  end.

(** A micro block stands for the key block before it.  A missing node is dereferenced. *)
Definition keyNodeOf (node : blockNode) : res treeError blockNode :=
  if n_isKeyBlock node then Ok node else prev ← getPrevKeyNodeFromNode node; or_panic prev.

Definition ancestorKeyNode (node : blockNode) (keyheight : Z) : res treeError (option blockNode) :=
  node ← keyNodeOf node;
  if (keyheight >? i64 (n_keyHeight node + 1)) || (keyheight <? 0) then Ok None
  else walkToKeyHeight (walkFuel node) node keyheight.

(** ** Versions and times *)

(** An error ends the count. *)
Fixpoint countVersions (n : nat) (minVer numRequired numFound : Z) (iterNode : option blockNode) : res treeError Z :=
  match n, iterNode with
  | S n, Some node =>
    if numFound <? numRequired then
      let numFound := if h_Version (n_header node) >=? minVer then u64 (numFound + 1) else numFound in
      match getPrevKeyNodeFromNode node with
      | Ok prev => countVersions n minVer numRequired numFound prev
      | Err StillWalking => Err StillWalking
      | Err _ => Ok numFound
      | Panic => Panic
      end
    else Ok numFound
  | _, _ => Ok numFound
  end.

Definition isMajorityVersion (BlockUpgradeNumToCheck minVer : Z) (startNode : blockNode) (numRequired : Z) : res treeError bool :=
  numFound ← countVersions (Z.to_nat BlockUpgradeNumToCheck) minVer numRequired 0 (Some startNode);
  Ok (numFound >=? numRequired).

Definition medianTimeBlocks : nat := 11.

(** The timestamps of at most [n] nodes. *)
Fixpoint timestampsFrom (n : nat) (iterNode : option blockNode) : res treeError (list Z) :=
  match n, iterNode with
  | S n, Some node =>
    prev ← getPrevNodeFromNode node;
    rest ← timestampsFrom n prev;
    Ok (h_Timestamp (n_header node) :: rest)
  | _, _ => Ok []
  end.

Fixpoint insertTime (t : Z) (ts : list Z) : list Z :=
  match ts with
  | [] => [t]
  | t' :: ts' => if t <=? t' then t :: ts else t' :: insertTime t ts'
  end.

(** [sort.Sort(timeSorter(timestamps))]: equal times cannot be told apart. *)
Definition sortTimes (ts : list Z) : list Z := foldr insertTime [] ts.

Definition calcPastMedianTime (startNode : option blockNode) : res treeError Z :=
  match startNode with
  | None => Ok GenesisTime
  | Some _ =>
    timestamps ← timestampsFrom medianTimeBlocks startNode;
    or_panic (sortTimes timestamps !! (length timestamps / 2)%nat)
  end.

End walks.
