(* ===== verification/BlockRules.v ===== *)
(** * The rules for blocks

    The checks of [blockchain/validate.go] on whole blocks: proof of work and stake, the
    sanity of a block, and [checkTransactionsAndConnect], which checks the transactions of
    a tree one after the other, connects each and then compares what was created with the
    subsidies and fees; with [GetTotalFeesByHash] and [GetPrevHashByHash] of [chain.go].
    A timestamp is a number
    of seconds, so the check that it has no finer part always passes and is left out.  The
    hash functions, the adjusted time and the parameters of [TxRules] are parameters. *)

From S2P Require Import Prelude WireCommon MsgTx ScriptNum Script ScriptBuild StakeTx StakeOut Compact Compress MsgBlock Merkle ChainState Subsidy ChainIO UtxoView TxRules BlockTree.
From stdpp Require Import gmap list.
#[local] Open Scope Z_scope.

Definition MaxTimeOffsetSeconds : Z := 2 * 60 * 60.
Definition earlyVoteBitsValue : Z := 1.

(** ** The index *)

Definition GetTotalFeesByHash (index : gmap bytes blockNode) (hash : bytes) : res checkError Z :=
  if bool_decide (hash = zeroHash) then Ok 0
  else match index !! hash with None => Err (RuleError ErrNoSuchBlockHash) | Some node => Ok (n_totalFees node) end.

Definition GetPrevHashByHash (index : gmap bytes blockNode) (hash : bytes) : bytes :=
  if bool_decide (hash = zeroHash) then zeroHash
  else match index !! hash with None => zeroHash | Some node => default zeroHash (n_parent node) end.

(** The fees of the blocks from [curHash] back to the previous key block. *)
Fixpoint extraFeesFrom (fuel : nat) (index : gmap bytes blockNode) (prevKeyBlock curHash : bytes) (extraFees : Z) : res checkError Z :=
  match fuel with
  | O => Err StillRunning
  | S fuel =>
    if bool_decide (curHash = zeroHash) then Ok extraFees
    else
      extraFee ← GetTotalFeesByHash index curHash;
      let extraFees := i64 (extraFees + extraFee) in
      if bool_decide (curHash = prevKeyBlock) then Ok extraFees
      else extraFeesFrom fuel index prevKeyBlock (GetPrevHashByHash index curHash) extraFees
  end.

(** One round for each block below the node is enough. *)
Definition extraFeesOf (index : gmap bytes blockNode) (node : blockNode) (parent : bytes) : res checkError Z :=
  extraFeesFrom (S (S (Z.to_nat (n_height node)))) index (h_PrevKeyBlock (n_header node)) parent 0.

Section connect.
Context `{Addresses} {Key : Type} (parseKey : bytes -> option Key) (serializeKey : Key -> bytes) (txHash : MsgTx -> bytes).
Context (MaxAmount : Z) (FetchBlockHeader : bytes -> option bytes) (meta : metadata) (params : ChainParams).
Context (index : gmap bytes blockNode).

#[local] Notation M := (stM (UtxoViewpoint * gmap Z Z) checkError).

(** ** The stake tree *)

(** The sum of the outputs. *)
Definition outputsOf (tx : MsgTx) : Z := foldl (fun total out => i64 (total + Value out)) 0 (tx_TxOut tx).

(** The amount of the ticket that a vote spends. *)
Definition ticketAmount (tx : MsgTx) : M Z :=
  ticketIn ← lift (or_panic (tx_TxIn tx !! 1%nat));
  utxoEntry ← getEntry (o_Hash (PreviousOutPoint ticketIn)) ErrTicketUnavailable;
  mret (AmountByIndex utxoEntry (o_Index (PreviousOutPoint ticketIn))).

Definition checkStakeBaseAmount (keyHeight : Z) (tx : MsgTx) : M unit :=
  isVote ← lift (isTrue (IsSSGen tx));
  if isVote : bool then
    originTxAtom ← ticketAmount tx;
    let difference := i64 (outputsOf tx - originTxAtom) in
    calcSubsidy ← voteSubsidy params (i64 (keyHeight - 1));
    rule (difference >? calcSubsidy) ErrSSGenSubsidy
  else mret tt.

Definition checkStakeBaseAmounts (keyHeight : Z) (txs : list MsgTx) : M unit :=
  foldS (fun _ tx => checkStakeBaseAmount keyHeight tx) tt txs.

(** The sums run over all votes. *)
Definition getStakeBaseAmounts (txs : list MsgTx) : M Z :=
  totals ← foldS (fun (totals : Z * Z) tx =>
    isVote ← lift (isTrue (IsSSGen tx));
    if isVote : bool then
      originTxAtom ← ticketAmount tx;
      mret (i64 (totals.1 + originTxAtom), foldl (fun total out => i64 (total + Value out)) totals.2 (tx_TxOut tx))
    else mret totals) (0, 0) txs;
  mret (i64 (totals.2 - totals.1)).

Definition stakeTreeInput (isSSGen : bool) (totalInputs : Z) (iIn : nat * TxIn) : M Z :=
  if isSSGen && (iIn.1 =? 0)%nat then mret totalInputs
  else
    utxoEntry ← getEntry (o_Hash (PreviousOutPoint iIn.2)) ErrTicketUnavailable;
    mret (i64 (totalInputs + AmountByIndex utxoEntry (o_Index (PreviousOutPoint iIn.2)))).

(** The inputs and outputs of the tree so far, the subsidies of votes not counted. *)
Definition stakeTreeTx (keyHeight : Z) (totals : Z * Z) (tx : MsgTx) : M (Z * Z) :=
  isVote ← lift (isTrue (IsSSGen tx));
  totalInputs ← foldS (stakeTreeInput isVote) totals.1 (indexed (tx_TxIn tx));
  let totalOutputs := foldl (fun total out => i64 (total + Value out)) totals.2 (tx_TxOut tx) in
  if isVote : bool then
    subsidy ← voteSubsidy params (i64 (keyHeight - 1));
    mret (totalInputs, i64 (totalOutputs - subsidy))
  else mret (totalInputs, totalOutputs).

Definition getStakeTreeFees (keyHeight : Z) (txs : list MsgTx) : M Z :=
  totals ← foldS (stakeTreeTx keyHeight) (0, 0) txs;
  _ ← rule (totals.1 <? totals.2) ErrStakeFees;
  mret (i64 (totals.1 - totals.2)).

(** ** Checking and connecting a tree *)

(** The signature operations and the fees so far, and the journal. *)
Record progress := MkProgress {
  pg_sigOps : Z;
  pg_fees : Z;
  pg_stxos : option (list spentTxOut)
}.

Definition connectM (tx : MsgTx) (height i : Z) (stxos : option (list spentTxOut)) : M (option (list spentTxOut)) := fun s =>
  '(view, stxos) ← map_err ViewError (connectTransaction parseKey serializeKey txHash s.1 tx height i stxos);
  Ok (stxos, (view, s.2)).

Definition checkAndConnect (keyHeightCache : gmap Z Z) (node : blockNode) (txTree isMining : bool) (pg : progress)
    (idxTx : nat * MsgTx) : M progress :=
  let '(idx, tx) := idxTx in
  cumulativeSigOps ← checkNumSigOps parseKey serializeKey tx idx txTree (pg_sigOps pg) (n_isKeyBlock node) isMining;
  let flag := if n_isKeyBlock node || isMining then FraudProofKeyBlockCheck else FraudProofMicroBlockCheck in
  fees ← CheckTransactionInputs parseKey serializeKey MaxAmount FetchBlockHeader meta params keyHeightCache tx
           (n_height node) (n_keyHeight node) flag;
  let totalFees := i64 (pg_fees pg + fees.1.2) in
  _ ← rule (totalFees <? pg_fees pg) ErrBadFees;
  stxos ← connectM tx (n_height node) (u32 (Z.of_nat idx)) (pg_stxos pg);
  mret (MkProgress cumulativeSigOps totalFees stxos).

(** [fees *= Voters; fees /= TicketsPerBlock], from stake validation height on. *)
Definition penalize (node : blockNode) (fees : Z) : Z :=
  if i64 (n_keyHeight node + 1) >=? StakeValidationHeight params
  then go_quot (i64 (fees * h_Voters (n_header node))) (TicketsPerBlock params)
  else fees.

Definition subsidyM (f : gmap Z Z -> Z * gmap Z Z) : M Z := fun s => let '(v, c) := f s.2 in Ok (v, (s.1, c)).

(** What the coinbases of a regular tree may pay, the fees among it and what they pay. *)
Definition coinbaseLimit (inputFees : Z) (node : blockNode) (txs : list MsgTx) (isMining : bool) (fees : Z) : M (Z * Z * Z) :=
  parent ← lift (or_panic (n_parent node));
  prevFees ← lift (GetTotalFeesByHash index parent);
  let totalFees := go_quot (i64 (penalize node fees * 6)) 10 in
  let totalFees := i64 (totalFees + go_quot (i64 (penalize node prevFees * 3)) 10) in
  coinbase ← lift (or_panic (txs !! 0%nat));
  let paid := outputsOf coinbase in
  if (n_keyHeight node =? 0) && negb (length (BlockOneLedger params) =? 0)%nat then
    subsidy ← subsidyM (fun c => CalcBlockSubsidy params c (n_keyHeight node));
    mret (subsidy, totalFees, paid)
  else if n_isKeyBlock node || isMining then
    coinbase2 ← lift (or_panic (txs !! 1%nat));
    let paid := foldl (fun total out => i64 (total + Value out)) paid (tx_TxOut coinbase2) in
    subsidyWork ← subsidyM (fun c => CalcBlockWorkSubsidy c (n_keyHeight node) (h_Voters (n_header node)) params);
    subsidyTax ← subsidyM (fun c => CalcBlockTaxSubsidy c (n_keyHeight node) (h_Voters (n_header node)) params);
    extraFees ← lift (extraFeesOf index node parent);
    let totalFees := i64 (totalFees + go_quot (penalize node extraFees) 10) in
    let totalFees := i64 (totalFees + inputFees) in
    mret (i64 (i64 (subsidyWork + subsidyTax) + totalFees), totalFees, paid)
  else mret (totalFees, totalFees, paid).

Definition checkCoinbases (inputFees : Z) (node : blockNode) (txs : list MsgTx) (isMining : bool) (fees : Z) : M unit :=
  limits ← coinbaseLimit inputFees node txs isMining fees;
  let '(expAtomOut, totalFees, totalAtomOutRegular) := limits in
  coinbase ← lift (or_panic (txs !! 0%nat));
  coinbaseIn ← lift (or_panic (tx_TxIn coinbase !! 0%nat));
  let subsidyWithoutFees := i64 (expAtomOut - totalFees) in
  _ ← rule (negb (ValueIn coinbaseIn =? subsidyWithoutFees) && (n_height node >? 0)) ErrBadCoinbaseAmountIn;
  rule (totalAtomOutRegular >? expAtomOut) ErrBadCoinbaseValue.

Definition checkStakebases (node : blockNode) (txs : list MsgTx) (fees : Z) : M unit :=
  if negb (n_isKeyBlock node) then mret tt
  else if (length txs =? 0)%nat && (i64 (n_keyHeight node + 1) <? StakeValidationHeight params) then mret tt
  else if (length txs =? 0)%nat && (i64 (n_keyHeight node + 1) >=? StakeValidationHeight params)
  then lift (Err (RuleError ErrNoStakeTx))
  else
    _ ← checkStakeBaseAmounts (n_keyHeight node) txs;
    totalAtomOutStake ← getStakeBaseAmounts txs;
    expAtomOut ← (if i64 (n_keyHeight node + 1) >=? StakeValidationHeight params then
                    subsidy ← voteSubsidy params (i64 (n_keyHeight node - 1));
                    mret (i64 (subsidy * h_Voters (n_header node)))
                  else mret fees);
    rule (totalAtomOutStake >? expAtomOut) ErrBadStakebaseValue.

(** The journal after the tree is connected. *)
Definition checkTransactionsAndConnect (keyHeightCache : gmap Z Z) (inputFees : Z) (node : blockNode) (txs : list MsgTx)
    (stxos : option (list spentTxOut)) (txTree isMining : bool) : M (option (list spentTxOut)) :=
  pg ← foldS (checkAndConnect keyHeightCache node txTree isMining) (MkProgress 0 0 stxos) (indexed txs);
  _ ← (if txTree then checkCoinbases inputFees node txs isMining (pg_fees pg)
       else checkStakebases node txs (pg_fees pg));
  mret (pg_stxos pg).

End connect.

(** ** Sanity of a block *)

Section sanity.
Context (HashH : bytes -> bytes) (blockHash : BlockHeader -> bytes) (txHash : MsgTx -> bytes) (MaxAmount adjustedTime : Z).
Context (params : ChainParams).

(** A ticket of the stake tree costs at least what the header and the network ask for. *)
Definition ticketPriceOk (header : BlockHeader) (posLimit : Z) (tx : MsgTx) : res checkError unit :=
  isTicket ← isTrue (IsSStx tx);
  if isTicket : bool then
    out0 ← or_panic (tx_TxOut tx !! 0%nat);
    let commitValue := Value out0 in
    _ ← ruleOk (commitValue <? h_SBits header) ErrNotEnoughStake;
    ruleOk (commitValue <? posLimit) ErrStakeBelowMinimum
  else Ok tt.

Definition checkProofOfStake (block : MsgBlock) (posLimit : Z) : res checkError unit :=
  checkFrom (fun _ tx => ticketPriceOk (Header block) posLimit tx) 0 (STransactions block).

Definition checkProofOfWork (header : BlockHeader) (powLimit difficultyRate microBlockValidationHeight : Z) (noPoWCheck : bool) :
    res checkError unit :=
  let target := CompactToBig (h_Bits header) in
  _ ← ruleOk (target <=? 0) ErrUnexpectedDifficulty;
  let microTarget := target * difficultyRate in
  _ ← ruleOk (target >? powLimit) ErrUnexpectedDifficulty;
  if negb noPoWCheck then
    let hashNum := HashToBig (blockHash header) in
    if h_Height header <=? microBlockValidationHeight
    then ruleOk (hashNum >? target) ErrHighHash
    else ruleOk (hashNum >? microTarget) ErrHighHash
  else Ok tt.

Definition checkBlockHeaderSanity (block : MsgBlock) (noPoWCheck : bool) : res checkError unit :=
  let header := Header block in
  _ ← checkProofOfWork header (PowLimit params) (DifficultyRate params) (u32 (MicroBlockValidationHeight params)) noPoWCheck;
  _ ← checkProofOfStake block (MinimumStakeDiff params);
  let maxTimestamp := adjustedTime + MaxTimeOffsetSeconds in
  ruleOk (h_Timestamp header >? maxTimestamp) ErrTimeTooNew.

Definition regularSane (tx : MsgTx) : res checkError unit :=
  txType ← map_err StakeError (DetermineTxType tx);
  _ ← ruleOk (negb (bool_decide (txType = TxTypeRegular))) ErrStakeTxInRegularTree;
  CheckTransactionSanity MaxAmount tx params.

(** The numbers of tickets, votes and revocations. *)
Definition stakeSane (counts : Z * Z * Z) (stx : MsgTx) : res checkError (Z * Z * Z) :=
  let '(totalTickets, totalVotes, totalRevocations) := counts in
  _ ← CheckTransactionSanity MaxAmount stx params;
  txType ← map_err StakeError (DetermineTxType stx);
  match txType with
  | TxTypeRegular => Err (RuleError ErrRegTxInStakeTree)
  | TxTypeSStx => Ok (totalTickets + 1, totalVotes, totalRevocations)
  | TxTypeSSGen => Ok (totalTickets, totalVotes + 1, totalRevocations)
  | TxTypeSSRtx => Ok (totalTickets, totalVotes, totalRevocations + 1)
  end.

Definition stakeTreeSane (block : MsgBlock) : res checkError unit :=
  let header := Header block in
  '(totalTickets, totalVotes, totalRevocations) ← foldM stakeSane (0, 0, 0) (STransactions block);
  _ ← ruleOk (negb (totalTickets =? h_FreshStake header)) ErrFreshStakeMismatch;
  _ ← ruleOk ((u32 (h_KeyHeight header + 1) >=? StakeValidationHeight params) && (totalVotes <=? TicketsPerBlock params / 2))
        ErrNotEnoughVotes;
  _ ← ruleOk (totalVotes >? TicketsPerBlock params) ErrTooManyVotes;
  _ ← ruleOk (negb (totalVotes =? h_Voters header)) ErrVotesMismatch;
  ruleOk (negb (totalRevocations =? h_Revocations header)) ErrRevocationsMismatch.

(** The root of the tree of the transactions is the one in the header; a missing root
    ([nil]) is equal to no hash. *)
Definition merkleRootOk (transactions : list MsgTx) (compressed : bool) (root : bytes) : res checkError unit :=
  match BuildMerkleTreeStore HashH transactions compressed with
  | Ok merkles =>
    calculatedMerkleRoot ← or_panic (last merkles);
    ruleOk (negb (bool_decide (Some root = calculatedMerkleRoot))) ErrBadMerkleRoot
  | Err _ | Panic => Panic
  end.

Definition addTxHash (existingTxHashes : list bytes) (tx : MsgTx) : res checkError (list bytes) :=
  _ ← ruleOk (bool_decide (txHash tx ∈ existingTxHashes)) ErrDuplicateTx;
  Ok (txHash tx :: existingTxHashes).

Definition addSigOps (totalSigOps : Z) (tx : MsgTx) : res checkError Z :=
  isSSGen ← isTrue (IsSSGen tx);
  let total := i64 (totalSigOps + CountSigOps tx (IsCoinBaseTx tx) isSSGen) in
  _ ← ruleOk ((total <? totalSigOps) || (total >? MaxSigOpsPerBlock)) ErrTooManySigOps;
  Ok total.

(** Whether the second transaction must be a coinbase: the block is a key block, or is
    checked without its work.  [hash] is the hash that the block carries. *)
Definition secondCoinbase (block : MsgBlock) (hash : bytes) (noPoWCheck : bool) : bool :=
  noPoWCheck || meetsTarget hash (h_Bits (Header block)).

Definition checkBlockSanity (block : MsgBlock) (hash : bytes) (noPoWCheck : bool) : res checkError unit :=
  let header := Header block in
  let transactions := Transactions block in
  _ ← checkBlockHeaderSanity block noPoWCheck;
  _ ← ruleOk (length transactions =? 0)%nat ErrNoTransactions;
  let serializedSize := block_SerializeSize block in
  _ ← ruleOk (serializedSize >? MaxBlockPayload) ErrBlockTooBig;
  _ ← ruleOk (h_Size header <? u32 serializedSize) ErrWrongBlockSize;
  first ← or_panic (transactions !! 0%nat);
  _ ← ruleOk (negb (IsCoinBaseTx first)) ErrFirstTxNotCoinbase;
  let isKeyBlock := negb noPoWCheck && meetsTarget hash (h_Bits header) in
  let two := secondCoinbase block hash noPoWCheck in
  _ ← (if two then
         second ← or_panic (transactions !! 1%nat);
         ruleOk (negb (IsCoinBaseTx second)) ErrFirstTxNotCoinbase
       else Ok tt);
  rest ← slice_from transactions (if two then 2 else 1);
  _ ← ruleOk (existsb IsCoinBaseTx rest) ErrMultipleCoinbases;
  _ ← checkFrom (fun _ tx => regularSane tx) 0 transactions;
  _ ← (if isKeyBlock then stakeTreeSane block else Ok tt);
  _ ← merkleRootOk transactions (negb (isKeyBlock || noPoWCheck)) (h_MerkleRoot header);
  _ ← (if isKeyBlock then merkleRootOk (STransactions block) false (h_StakeRoot header) else Ok tt);
  let allTransactions := transactions ++ STransactions block in
  _ ← foldM addTxHash [] allTransactions;
  _ ← foldM addSigOps 0 allTransactions;
  ruleOk ((u32 (h_KeyHeight header + 1) <? StakeValidationHeight params) && negb (h_VoteBits header =? earlyVoteBitsValue))
    ErrInvalidEarlyVoteBits.

End sanity.

(** ** What connecting does to the other transactions of the view *)

Section facts.
Context `{Addresses} {Key : Type} (parseKey : bytes -> option Key) (serializeKey : Key -> bytes) (txHash : MsgTx -> bytes).
Context (MaxAmount : Z) (FetchBlockHeader : bytes -> option bytes) (meta : metadata) (params : ChainParams).
Context (index : gmap bytes blockNode).
Context (HMax : 0 <= MaxAmount < 2 ^ 63) (Hparams : params_ok params).

#[local] Notation M := (stM (UtxoViewpoint * gmap Z Z) checkError).
#[local] Notation checkAndConnect := (checkAndConnect parseKey serializeKey txHash MaxAmount FetchBlockHeader meta params).
#[local] Notation mintedBy := (mintedBy params).
#[local] Notation voteSubsidyAt := (voteSubsidyAt params).

(** The amounts under [h] stay, and what is not there or spent stays so. *)
Record keeps (h : bytes) (V V1 : UtxoViewpoint) : Prop := {
  kp_raw i : rawAmount V1 h i = rawAmount V h i;
  kp_absent : LookupEntry V h = None -> LookupEntry V1 h = None;
  kp_spent i : unspent V h i = None -> unspent V1 h i = None
}.

Lemma keeps_refl h V : keeps h V V.
Proof. by split. Qed.

Lemma keeps_trans h V1 V2 V3 : keeps h V1 V2 -> keeps h V2 V3 -> keeps h V1 V3.
Proof. intros [A1 A2 A3] [B1 B2 B3]. split; intros; [by rewrite B1|auto|auto]. Qed.

Lemma reads_keeps h V V1 : reads V V1 -> keeps h V V1.
Proof.
  intros HR. split; [apply (rd_raw _ _ HR)| |].
  - intros E. pose proof (rd_type _ _ HR h) as Ht. rewrite E in Ht. by destruct (LookupEntry V1 h).
  - intros i E. pose proof (rd_amount _ _ HR h i) as Ha. rewrite E in Ha. by destruct (unspent V1 h i).
Qed.

Lemma SpendOutput_raw e i j : uo_amount <$> sparseOutputs (SpendOutput e i) !! j = uo_amount <$> sparseOutputs e !! j.
Proof.
  unfold SpendOutput. destruct (sparseOutputs e !! i) as [o|] eqn:E; [|done]. destruct (uo_spent o); [done|].
  cbn [with_outputs sparseOutputs]. destruct (decide (i = j)) as [->|]; [|by rewrite lookup_insert_ne by done].
  by rewrite lookup_insert_eq, E.
Qed.

Lemma spendInput_keeps V stxos txIn V1 stxos1 h : spendInput parseKey serializeKey (V, stxos) txIn = Ok (V1, stxos1) -> keeps h V V1.
Proof.
  intros H0. split; [intros i| |intros i Hn].
  - unfold spendInput in H0. destruct (LookupEntry V (o_Hash (PreviousOutPoint txIn))) as [e|] eqn:E; [|done].
    unfold rawAmount. destruct stxos as [stxos|]; [apply bind_Ok in H0 as ([s e1] & Hp & [= <- <-])|injection H0 as <- <-].
    all: rewrite LookupEntry_set; destruct (decide (h = _)) as [->|]; [|done]; rewrite E; cbn [mbind option_bind].
    + apply PkScriptByIndex_reads in Hp as (_ & _ & Hr & _). by rewrite Hr, SpendOutput_raw.
    + apply SpendOutput_raw.
  - apply (spendInputs_absent parseKey serializeKey [txIn] V stxos V1 stxos1). cbn [foldM]. by rewrite H0.
  - rewrite (spendInput_unspent _ _ _ _ _ _ _ _ _ H0), Hn. by destruct (decide _).
Qed.

Lemma connectTransaction_keeps V tx height i stxos V1 stxos1 h : h <> txHash tx -> Z.of_nat (length (tx_TxOut tx)) < 2 ^ 32 ->
  connectTransaction parseKey serializeKey txHash V tx height i stxos = Ok (V1, stxos1) -> keeps h V V1.
Proof.
  intros Hh Hl Hrun.
  assert (Hadd : forall V0 V2, AddTxOuts txHash V0 tx height i = Ok V2 -> keeps h V0 V2).
  { intros V0 V2 Ha. split; [intros j| |intros j Hn].
    3:{ by rewrite (AddTxOuts_unspent _ _ _ _ _ _ _ _ Hl Ha), decide_False. }
    all: unfold AddTxOuts in Ha; apply bind_Ok in Ha as (e & _ & [= <-]); unfold rawAmount; by rewrite LookupEntry_set, decide_False. }
  unfold connectTransaction in Hrun. destruct (IsCoinBaseTx tx).
  - apply bind_Ok in Hrun as (V2 & Ha & [= <- <-]). by apply Hadd.
  - apply bind_Ok in Hrun as (ins & _ & Hrun). apply bind_Ok in Hrun as ([V2 s2] & Hs & Hrun).
    apply bind_Ok in Hrun as (V3 & Ha & [= <- <-]). eapply keeps_trans; [|by apply Hadd]. clear Ha.
    revert V stxos Hs. induction ins as [|txIn ins IH]; intros V stxos Hs; cbn [foldM] in Hs; [injection Hs as <- <-; apply keeps_refl|].
    apply bind_Ok in Hs as ([V4 s4] & H4 & Hs). eapply keeps_trans; [by eapply spendInput_keeps|by eapply IH].
Qed.

(** ** One transaction *)

(** The inputs that spend outputs. *)
Definition spentInputs (tx : MsgTx) : list TxIn :=
  if IsCoinBaseTx tx then [] else match journalInputs tx with Ok ins => ins | _ => [] end.

Definition rawOf (V : UtxoViewpoint) (txIn : TxIn) : Z :=
  default 0 (rawAmount V (o_Hash (PreviousOutPoint txIn)) (o_Index (PreviousOutPoint txIn))).

(** The amounts of the outputs that a transaction spends, before or after they are spent. *)
Definition consumed (V : UtxoViewpoint) (tx : MsgTx) : Z := zsum (rawOf V <$> spentInputs tx).

Definition flagFor (node : blockNode) (isMining : bool) : Z :=
  if n_isKeyBlock node || isMining then FraudProofKeyBlockCheck else FraudProofMicroBlockCheck.

Lemma unspent_raw V h i o : unspent V h i = Some o -> rawAmount V h i = Some (uo_amount o).
Proof.
  unfold unspent, rawAmount. intros (e & -> & Ho)%bind_Some. cbn. unfold unspentIn in Ho.
  apply bind_Some in Ho as (o1 & -> & Ho). destruct (uo_spent o1); [done|]. by injection Ho as ->.
Qed.

Lemma spends_raw flag V txIn : spends MaxAmount flag V txIn -> rawOf V txIn = amountOf V txIn.
Proof.
  intros (a & t & Ha & _). unfold rawOf, amountOf. destruct (unspent V _ _) as [o|] eqn:E; [|done].
  by rewrite (unspent_raw _ _ _ _ E).
Qed.

Lemma consumed_value flag V tx : Forall (spends MaxAmount flag V) (spentInputs tx) -> consumed V tx = inputsValue V (spentInputs tx).
Proof.
  intros Hs. unfold consumed. rewrite inputsValue_amounts. f_equal. apply list_fmap_ext. intros i ti Hi.
  rewrite Forall_forall in Hs. eapply spends_raw, Hs, list_elem_of_lookup. by exists i.
Qed.

(** What the checks say of the amounts of a transaction and its fee. *)
Definition balanced (V : UtxoViewpoint) (tx : MsgTx) (txFee : Z) : Prop :=
  if IsCoinBaseTx tx then txFee = 0
  else exists t fee, DetermineTxType tx = Ok t /\ 0 <= fee < 2 ^ 63 /\
    consumed V tx + mintedBy tx = zsum (Value <$> tx_TxOut tx) + fee /\ txFee = if bool_decide (t = TxTypeRegular) then fee else 0.

Lemma balanced_fee V tx txFee : balanced V tx txFee -> 0 <= txFee < 2 ^ 63.
Proof.
  unfold balanced. destruct (IsCoinBaseTx tx); [intros ->; lia|]. intros (t & fee & _ & Hf & _ & ->). by destruct (bool_decide _).
Qed.

Lemma CheckTransactionInputs_balanced khc tx height kh flag V c fees s' :
  cache_ok params c -> CheckTransactionSanity MaxAmount tx params = Ok tt ->
  CheckTransactionInputs parseKey serializeKey MaxAmount FetchBlockHeader meta params khc tx height kh flag (V, c) = Ok (fees, s') ->
  exists V1 c1, s' = (V1, c1) /\ cache_ok params c1 /\ reads V V1 /\ Forall (spends MaxAmount flag V) (spentInputs tx) /\
    NoDup (outpoint <$> spentInputs tx) /\ balanced V tx fees.1.2.
Proof.
  intros Hc Hs Hrun. unfold balanced, spentInputs. destruct (IsCoinBaseTx tx) eqn:Hcb.
  - unfold CheckTransactionInputs in Hrun. rewrite Hcb in Hrun. apply stM_bind_Ok in Hrun as (u & s1 & [_ ->]%rule_Ok & [<- <-]%stM_ret_Ok).
    exists V, c. split_and!; try done. by apply NoDup_nil.
  - destruct fees as [[fee txFee] stakeFee].
    destruct (CheckTransactionInputs_Ok _ _ _ _ _ _ HMax Hparams _ _ _ _ _ _ _ _ _ _ _ Hc Hcb Hs Hrun)
      as (V1 & c1 & t & ins & -> & Hc1 & HR & Ht & Hj & Hnd & Hsp & _ & Hval & Hfee & Htx).
    rewrite Hj. exists V1, c1. split_and!; try done. exists t, fee. split_and!; try done; try lia.
    rewrite <- Hval. f_equal. rewrite (consumed_value flag); unfold spentInputs; by rewrite Hcb, Hj.
Qed.

(** A coinbase outside its place needs the transaction with hash zero. *)
Lemma checkNumSigOps_coinbase tx i n kb mining V c a s' : IsCoinBaseTx tx = true ->
  checkNumSigOps parseKey serializeKey tx i false n kb mining (V, c) = Ok (a, s') -> LookupEntry V zeroHash <> None.
Proof.
  intros Hcb Hrun. assert (Hin : exists txIn, tx_TxIn tx = [txIn] /\ o_Hash (PreviousOutPoint txIn) = zeroHash).
  { revert Hcb. unfold IsCoinBaseTx. destruct (tx_TxIn tx) as [|txIn [|]]; [done| |done]. intros [_ Hz%negb_false_iff%bool_decide_eq_true_1]%negb_true_iff%orb_false_iff. eauto. }
  destruct Hin as (txIn & Hin & Hz). unfold checkNumSigOps in Hrun.
  apply stM_bind_Ok in Hrun as (g & s1 & [Hg ->]%lift_Ok & Hrun).
  assert (g = false) as ->.
  { destruct g; [|done]. assert (Hgen : IsSSGen tx = Ok true) by (unfold isTrue in Hg; destruct (IsSSGen tx); congruence).
    apply IsSSGen_first in Hgen as [Hl _]. by rewrite Hin in Hl. }
  rewrite !andb_false_r in Hrun.
  assert (Hif : (if mining || kb then false else false) = false) by (by destruct (_ || _)). rewrite Hif in Hrun.
  apply stM_bind_Ok in Hrun as (k & s1 & Hk & _). unfold CountP2SHSigOps in Hk. rewrite Hin in Hk. cbn [foldS] in Hk.
  apply stM_bind_Ok in Hk as (x & s2 & Hx & _). unfold countInput in Hx. apply stM_bind_Ok in Hx as (e & s3 & [He _]%getEntry_Ok & _).
  rewrite Hz in He. cbn [fst] in He. by rewrite He.
Qed.

(** Checking and connecting one transaction moves value: what its outputs keep comes from
    what it spends. *)
Lemma checkAndConnect_Ok khc node tree mining pg idx tx V c pg' s' :
  cache_ok params c -> CheckTransactionSanity MaxAmount tx params = Ok tt -> Z.of_nat (length (tx_TxOut tx)) < 2 ^ 32 ->
  is_i64 (pg_fees pg) -> (forall i, unspent V (txHash tx) i = None) ->
  checkAndConnect khc node tree mining pg (idx, tx) (V, c) = Ok (pg', s') ->
  exists V' c' txFee, s' = (V', c') /\ cache_ok params c' /\ (forall h, h <> txHash tx -> keeps h V V') /\
    viewValue V' = viewValue V + spendableValue (tx_TxOut tx) - consumed V tx /\
    Forall (spends MaxAmount (flagFor node mining) V) (spentInputs tx) /\
    balanced V tx txFee /\ pg_fees pg' = pg_fees pg + txFee /\ is_i64 (pg_fees pg') /\
    (tree = false -> IsCoinBaseTx tx = true -> LookupEntry V zeroHash <> None).
Proof.
  intros Hc Hs Hl Hpg Hn Hrun. unfold checkAndConnect in Hrun.
  apply stM_bind_Ok in Hrun as (n & s1 & Hn1 & Hrun).
  destruct (readsM_checkNumSigOps _ _ _ _ _ _ _ _ _ _ _ _ _ Hc Hn1) as (V1 & c1 & -> & R1 & Hc1).
  apply stM_bind_Ok in Hrun as (fees & s2 & Hf & Hrun). fold (flagFor node mining) in Hf.
  apply CheckTransactionInputs_balanced in Hf as (V2 & c2 & -> & Hc2 & R2 & Hsp & Hnd & Hbal); [|done|done].
  apply stM_bind_Ok in Hrun as (u & s3 & [Hlt ->]%rule_Ok & Hrun).
  apply stM_bind_Ok in Hrun as (stxos & s4 & Hcon & [<- <-]%stM_ret_Ok).
  unfold connectM in Hcon. apply bind_Ok in Hcon as ([V3 st] & Hcon%map_err_Ok & [= <- <-]). cbn [fst snd] in Hcon.
  pose proof (reads_trans _ _ _ R1 R2) as R. exists V3, c2, fees.1.2.
  assert (Hsp' : Forall (spends MaxAmount (flagFor node mining) V) (spentInputs tx)).
  { eapply Forall_impl; [exact Hsp|]. intros ti. by apply spends_reads. }
  assert (Hcons : forall W, reads V W -> consumed W tx = consumed V tx).
  { intros W HW. unfold consumed. f_equal. apply list_fmap_ext. intros ? ti _. unfold rawOf. by rewrite (rd_raw _ _ HW). }
  assert (Hval : inputsValue V2 (spentInputs tx) = consumed V tx).
  { rewrite (consumed_value _ _ _ Hsp'), !inputsValue_amounts. f_equal. apply list_fmap_ext. intros ? ti _. by apply amountOf_reads. }
  split_and!; try done.
  - intros h Hh. eapply keeps_trans; [by apply reads_keeps|]. by eapply connectTransaction_keeps.
  - apply connectTransaction_value in Hcon as (ins & Hins & ->); [|done| |].
    + rewrite (rd_value _ _ R), <- Hval. unfold spentInputs. destruct (IsCoinBaseTx tx); [subst ins|rewrite Hins]; lia.
    + intros Hcb ins Hj. unfold spentInputs in Hnd. by rewrite Hcb, Hj in Hnd.
    + intros i. by apply (kp_spent _ _ _ (reads_keeps _ _ _ R)).
  - unfold balanced in *. by rewrite <- (Hcons V1 R1).
  - cbn [pg_fees]. apply add_no_wrap; [done| |done]. by eapply balanced_fee.
  - cbn [pg_fees]. apply i64_range.
  - intros -> Hcb. by eapply checkNumSigOps_coinbase.
Qed.

(** ** A tree of transactions *)

Definition saneTx (tx : MsgTx) : Prop :=
  CheckTransactionSanity MaxAmount tx params = Ok tt /\ Z.of_nat (length (tx_TxOut tx)) < 2 ^ 32.

(** The inputs state the amounts of the outputs that they spend. *)
Definition claims (V : UtxoViewpoint) (tx : MsgTx) : Prop :=
  Forall (fun txIn => rawAmount V (o_Hash (PreviousOutPoint txIn)) (o_Index (PreviousOutPoint txIn)) = Some (ValueIn txIn) /\
    0 < ValueIn txIn <= MaxAmount) (spentInputs tx).

Lemma claims_consumed V tx : claims V tx -> consumed V tx = zsum (ValueIn <$> spentInputs tx).
Proof.
  unfold claims, consumed. intros Hc. f_equal. apply list_fmap_ext. intros i ti Hi. rewrite Forall_forall in Hc.
  destruct (Hc ti) as [E _]; [apply list_elem_of_lookup; by exists i|]. unfold rawOf. by rewrite E.
Qed.

Lemma spends_claims node mining V V' tx : Forall (spends MaxAmount (flagFor node mining) V) (spentInputs tx) ->
  (forall h i o, unspent V h i = Some o -> keeps h V V') -> claims V' tx /\ consumed V' tx = consumed V tx.
Proof.
  intros Hs Hk. assert (Hcl : forall W, (forall h i o, unspent V h i = Some o -> keeps h V W) -> claims W tx).
  { intros W HW. eapply Forall_impl; [exact Hs|]. intros ti (a & t & Ha & Hm & _ & _ & Hv).
    apply fmap_Some in Ha as (o & Ho & ->). rewrite Hv; [|unfold flagFor; by destruct (_ || _)].
    split; [|done]. rewrite (kp_raw _ _ _ (HW _ _ _ Ho)). by apply unspent_raw. }
  split; [by apply Hcl|]. rewrite !claims_consumed; [done| |by apply Hcl]. apply Hcl. intros. apply keeps_refl.
Qed.

Record tree_facts (tree : bool) (V V' : UtxoViewpoint) (txs : list MsgTx) (fees : list Z) : Prop := {
  tf_value : viewValue V' = viewValue V + zsum ((fun tx => spendableValue (tx_TxOut tx) - consumed V' tx) <$> txs);
  tf_balanced : Forall2 (balanced V') txs fees;
  tf_claims : Forall (claims V') txs;
  tf_keeps h : h ∉ txHash <$> txs -> keeps h V V';
  tf_coinbase : tree = false -> LookupEntry V zeroHash = None -> zeroHash ∉ txHash <$> txs ->
    Forall (fun tx => IsCoinBaseTx tx = false) txs
}.

Lemma tree_Ok khc node tree mining txs n pg V c pg' s' : cache_ok params c -> Forall saneTx txs -> NoDup (txHash <$> txs) ->
  (forall tx i, tx ∈ txs -> unspent V (txHash tx) i = None) -> is_i64 (pg_fees pg) ->
  foldS (checkAndConnect khc node tree mining) pg (zip (seq n (length txs)) txs) (V, c) = Ok (pg', s') ->
  exists V' c' fees, s' = (V', c') /\ cache_ok params c' /\ tree_facts tree V V' txs fees /\
    pg_fees pg' = pg_fees pg + zsum fees /\ is_i64 (pg_fees pg').
Proof.
  intros Hc Hsane. revert n pg V c Hc. induction Hsane as [|tx txs [Hs Hl] _ IH]; intros n pg V c Hc Hnd Hn Hpg Hrun.
  { apply stM_ret_Ok in Hrun as [<- <-]. exists V, c, []. split_and!; try done; [split; try done|]; cbn; try lia. }
  cbn [length seq zip zip_with foldS] in Hrun. apply stM_bind_Ok in Hrun as (pg1 & s1 & H1 & H2).
  rewrite fmap_cons in Hnd. apply NoDup_cons in Hnd as [Hni Hnd].
  apply checkAndConnect_Ok in H1 as (V1 & c1 & fee & -> & Hc1 & Hk1 & Hv1 & Hsp & Hbal & Hf1 & Hpg1 & Hcb); try done.
  2:{ intros i. apply Hn. set_solver. }
  destruct (IH (S n) pg1 V1 c1 Hc1 Hnd) as (V' & c' & fees & -> & Hc' & [Tv Tb Tc Tk Tz] & Hf' & Hpg'); [|done|done|].
  { intros tx' i Htx'. apply (kp_spent (txHash tx') V V1); [|apply Hn; set_solver]. apply Hk1.
    intros E. apply Hni. rewrite <- E. by apply list_elem_of_fmap_2. }
  assert (Hkeep : forall h, h ∉ txHash <$> tx :: txs -> keeps h V V').
  { intros h Hh. rewrite fmap_cons, not_elem_of_cons in Hh. destruct Hh. eapply keeps_trans; [by apply Hk1|by apply Tk]. }
  destruct (spends_claims _ _ V V' tx Hsp) as [Hcl Hcons].
  { intros h i o Ho. apply Hkeep. intros (tx' & -> & Htx')%list_elem_of_fmap. by rewrite Hn in Ho. }
  exists V', c', (fee :: fees). split_and!; [done|done| | |done].
  2:{ rewrite Hf', Hf1. cbn [zsum]. lia. }
  split; [| | |done|].
  - rewrite Tv, Hv1, fmap_cons. cbn [zsum]. rewrite Hcons. lia.
  - constructor; [|done]. unfold balanced in *. by rewrite Hcons.
  - by constructor.
  - intros Ht Hz Hzn. rewrite fmap_cons, not_elem_of_cons in Hzn. destruct Hzn as [Hz1 Hz2]. constructor.
    + destruct (IsCoinBaseTx tx); [|done]. by destruct Hcb.
    + apply Tz; [done| |done]. apply (kp_absent _ _ _ (Hk1 zeroHash Hz1) Hz).
Qed.

(** ** The stake tree *)

#[local] Notation checkStakeBaseAmounts := (checkStakeBaseAmounts params).
#[local] Notation getStakeTreeFees := (getStakeTreeFees params).
#[local] Notation checkTransactionsAndConnect :=
  (checkTransactionsAndConnect parseKey serializeKey txHash MaxAmount FetchBlockHeader meta params index).

Lemma sum_values_exact outs t : 0 <= t -> Forall (fun o => 0 <= Value o) outs -> t + zsum (Value <$> outs) < 2 ^ 63 ->
  foldl (fun total out => i64 (total + Value out)) t outs = t + zsum (Value <$> outs).
Proof.
  intros Ht Hv. revert t Ht. induction Hv as [|o outs Ho Hv IH]; intros t Ht Hl; [cbn; lia|].
  rewrite fmap_cons in *. cbn [zsum foldl] in *. assert (0 <= zsum (Value <$> outs)) by (apply zsum_nonneg; by apply Forall_fmap).
  rewrite i64_small by (unfold is_i64; lia). rewrite IH; lia.
Qed.

Lemma saneTx_outputs tx : saneTx tx -> outputsOf tx = zsum (Value <$> tx_TxOut tx) /\ 0 <= zsum (Value <$> tx_TxOut tx) <= MaxAmount /\
  spendableValue (tx_TxOut tx) <= zsum (Value <$> tx_TxOut tx).
Proof.
  intros [Hs _]. apply CheckTransactionSanity_Ok in Hs as (_ & Hv & Hsum & _); [|done].
  assert (Hp : Forall (fun o => 0 <= Value o) (tx_TxOut tx)) by (eapply Forall_impl; [exact Hv|cbn; lia]).
  split_and!; [|lia|lia|]. { unfold outputsOf. rewrite sum_values_exact; done || lia. }
  apply lostValue_nonneg in Hp. unfold lostValue in Hp. lia.
Qed.

Lemma type_vote tx t : DetermineTxType tx = Ok t -> t = TxTypeSSGen <-> IsSSGen tx = Ok true.
Proof.
  unfold DetermineTxType. intros H0. apply bind_Ok in H0 as (a & Ha & H0). destruct a.
  - injection H0 as <-. split; [done|]. intros Hg. unfold succeeded in Ha. destruct (IsSStx tx) as [a| |] eqn:Es; try done.
    injection Ha as ->. apply IsSSGen_first in Hg as (_ & o & outs & E & Hc). apply IsSStx_first in Es as (o' & outs' & E' & Hc').
    rewrite E in E'. injection E' as <- <-. by pose proof (class_unique _ _ _ Hc Hc').
  - apply bind_Ok in H0 as (b & Hb & H0). unfold succeeded in Hb. destruct (IsSSGen tx) as [b'| |] eqn:Eg; try done; injection Hb as <-.
    + destruct b'; [by injection H0 as <-|]. apply bind_Ok in H0 as (r & _ & H0). destruct r; by injection H0 as <-.
    + apply bind_Ok in H0 as (r & _ & H0). destruct r; by injection H0 as <-.
Qed.

(** A vote spends its second input. *)
Lemma vote_inputs tx t : DetermineTxType tx = Ok t -> IsSSGen tx = Ok true -> IsCoinBaseTx tx = false ->
  exists txIn, tx_TxIn tx !! 1%nat = Some txIn /\ spentInputs tx = [txIn].
Proof.
  intros Ht Hg Hcb. pose proof (IsSSGen_first _ Hg) as [Hl _]. destruct (tx_TxIn tx) as [|i0 [|i1 [|]]] eqn:E; try done.
  exists i1. split; [done|]. unfold spentInputs. rewrite Hcb. unfold journalInputs. rewrite Ht. cbn [mbind res_bind].
  apply (type_vote _ _ Ht) in Hg as ->. by rewrite E.
Qed.

Lemma checkStakeBaseAmount_Ok keyHeight tx V c u s' : cache_ok params c ->
  checkStakeBaseAmount params keyHeight tx (V, c) = Ok (u, s') ->
  exists c', s' = (V, c') /\ cache_ok params c' /\
    (IsSSGen tx = Ok true -> exists txIn, tx_TxIn tx !! 1%nat = Some txIn /\
      i64 (outputsOf tx - rawOf V txIn) <= voteSubsidyAt (i64 (keyHeight - 1))).
Proof.
  intros Hc Hrun. unfold checkStakeBaseAmount in Hrun. apply stM_bind_Ok in Hrun as (g & s1 & [Hg ->]%lift_Ok & Hrun).
  destruct g.
  - apply stM_bind_Ok in Hrun as (a & s1 & Ha & Hrun). unfold ticketAmount in Ha.
    apply stM_bind_Ok in Ha as (txIn & s2 & [Hin%or_panic_Ok ->]%lift_Ok & Ha).
    apply stM_bind_Ok in Ha as (e & s2 & [He ->]%getEntry_Ok & [<- <-]%stM_ret_Ok).
    apply stM_bind_Ok in Hrun as (sub & s2 & Hsub & Hrun). apply voteSubsidy_Ok in Hsub as (c1 & -> & -> & Hc1); [|done].
    apply rule_Ok in Hrun as [Hle ->]. rewrite Z.gtb_ltb in Hle. apply Z.ltb_ge in Hle. exists c1. split_and!; try done.
    intros _. exists txIn. split; [done|]. cbn [fst] in He. replace (rawOf V txIn) with (AmountByIndex e (o_Index (PreviousOutPoint txIn))); [done|].
    unfold rawOf, rawAmount, AmountByIndex. rewrite He. cbn [mbind option_bind]. by destruct (sparseOutputs e !! _).
  - apply stM_ret_Ok in Hrun as [_ <-]. exists c. split_and!; try done. intros E. unfold isTrue in Hg. by rewrite E in Hg.
Qed.

Lemma checkStakeBaseAmounts_Ok keyHeight txs V c u s' : cache_ok params c ->
  checkStakeBaseAmounts keyHeight txs (V, c) = Ok (u, s') ->
  exists c', s' = (V, c') /\ cache_ok params c' /\
    Forall (fun tx => IsSSGen tx = Ok true -> exists txIn, tx_TxIn tx !! 1%nat = Some txIn /\
      i64 (outputsOf tx - rawOf V txIn) <= voteSubsidyAt (i64 (keyHeight - 1))) txs.
Proof.
  unfold BlockRules.checkStakeBaseAmounts. generalize tt at 1. revert c. induction txs as [|tx txs IH]; intros c u0 Hc Hrun; cbn [foldS] in Hrun.
  { apply stM_ret_Ok in Hrun as [_ <-]. by exists c. }
  apply stM_bind_Ok in Hrun as (u1 & s1 & H1 & H2). apply checkStakeBaseAmount_Ok in H1 as (c1 & -> & Hc1 & Hv); [|done].
  destruct (IH c1 u1 Hc1 H2) as (c2 & -> & Hc2 & Hvs). exists c2. split_and!; try done. by constructor.
Qed.

Definition isVote (tx : MsgTx) : bool := match IsSSGen tx with Ok true => true | _ => false end.
Definition votesIn (txs : list MsgTx) : Z := zsum ((fun tx => if isVote tx then 1 else 0) <$> txs).

Lemma isTrue_vote tx g : isTrue (IsSSGen tx) = Ok g -> g = isVote tx.
Proof. unfold isTrue, isVote. destruct (IsSSGen tx) as [[]| |]; by intros [= <-]. Qed.

(** What a stake transaction pays out beyond what it spends is at most the subsidy. *)
Lemma stake_tx_surplus V tx txFee keyHeight : saneTx tx -> claims V tx -> balanced V tx txFee -> IsCoinBaseTx tx = false ->
  (IsSSGen tx = Ok true -> exists txIn, tx_TxIn tx !! 1%nat = Some txIn /\
    i64 (outputsOf tx - rawOf V txIn) <= voteSubsidyAt (i64 (keyHeight - 1))) ->
  zsum (Value <$> tx_TxOut tx) - consumed V tx <= if isVote tx then voteSubsidyAt (i64 (keyHeight - 1)) else 0.
Proof.
  intros Hs Hcl Hb Hcb Hv. destruct (saneTx_outputs tx Hs) as (Ho & Hr & _). unfold balanced in Hb. rewrite Hcb in Hb.
  destruct Hb as (t & fee & Ht & Hfee & Hbal & _). unfold isVote. destruct (IsSSGen tx) as [[]| |] eqn:Eg.
  { destruct (Hv eq_refl) as (txIn & Hin & Hle). destruct (vote_inputs tx t Ht Eg Hcb) as (txIn' & Hin' & Hsp).
    rewrite Hin in Hin'. injection Hin' as <-. unfold claims in Hcl. rewrite Hsp in Hcl. apply Forall_cons_1 in Hcl as [[Hraw Hm] _].
    assert (Hc : consumed V tx = rawOf V txIn) by (unfold consumed; rewrite Hsp; cbn; lia).
    rewrite Hc. rewrite Ho, i64_small in Hle; [lia|]. unfold rawOf. rewrite Hraw. unfold is_i64. cbn. lia. }
  all: assert (mintedBy tx = 0) as Hz by (unfold TxRules.mintedBy; by rewrite Eg); lia.
Qed.

Lemma stakeTreeInputs_Ok g ins V c t T t' s' : t = i64 T ->
  foldS (stakeTreeInput g) t (indexed ins) (V, c) = Ok (t', s') ->
  s' = (V, c) /\ t' = i64 (T + zsum (rawOf V <$> if g then drop 1 ins else ins)).
Proof.
  assert (Hrest : forall ins n t T t' s', t = i64 T -> g && (n =? 0)%nat = false ->
    foldS (stakeTreeInput g) t (zip (seq n (length ins)) ins) (V, c) = Ok (t', s') ->
    s' = (V, c) /\ t' = i64 (T + zsum (rawOf V <$> ins))).
  { clear ins t T t' s'. induction ins as [|txIn ins IH]; intros n t T t' s' -> Hn Hrun.
    - apply stM_ret_Ok in Hrun as [<- <-]. split; [done|]. cbn. f_equal. lia.
    - cbn [length seq zip zip_with foldS] in Hrun. apply stM_bind_Ok in Hrun as (t1 & s1 & H1 & H2).
      unfold stakeTreeInput in H1. cbn [fst snd] in H1. rewrite Hn in H1.
      apply stM_bind_Ok in H1 as (e & s2 & [He ->]%getEntry_Ok & [<- <-]%stM_ret_Ok).
      apply (IH _ _ (T + rawOf V txIn)) in H2 as [-> ->].
      + split; [done|]. rewrite fmap_cons. cbn [zsum]. f_equal. lia.
      + rewrite i64_add_i64. do 2 f_equal. unfold rawOf, rawAmount, AmountByIndex. cbn [fst] in He. rewrite He. cbn [mbind option_bind].
        by destruct (sparseOutputs e !! _).
      + by rewrite andb_false_r. }
  intros Ht Hrun. unfold indexed in Hrun. destruct g; [|by apply (Hrest _ _ _ T) in Hrun].
  destruct ins as [|i0 ins]; [by apply (Hrest [] 1%nat _ T) in Hrun|].
  cbn [length seq zip zip_with foldS] in Hrun. apply stM_bind_Ok in Hrun as (t1 & s1 & [<- <-]%stM_ret_Ok & H2).
  by apply (Hrest _ _ _ T) in H2.
Qed.

Lemma sum_values_i64 outs T : foldl (fun total out => i64 (total + Value out)) (i64 T) outs = i64 (T + zsum (Value <$> outs)).
Proof.
  revert T. induction outs as [|o outs IH]; intros T; [cbn; f_equal; lia|]. cbn [foldl]. rewrite i64_add_i64, IH, fmap_cons.
  cbn [zsum]. f_equal. lia.
Qed.

(** What a stake transaction leaves as fee. *)
Definition stakeFee (sub : Z) (V : UtxoViewpoint) (tx : MsgTx) : Z :=
  consumed V tx + (if isVote tx then sub else 0) - zsum (Value <$> tx_TxOut tx).

Lemma balanced_inputs V tx txFee : balanced V tx txFee -> IsCoinBaseTx tx = false ->
  spentInputs tx = if isVote tx then drop 1 (tx_TxIn tx) else tx_TxIn tx.
Proof.
  unfold balanced, spentInputs. intros Hb Hcb. rewrite Hcb in *. destruct Hb as (t & _ & Ht & _). unfold journalInputs. rewrite Ht.
  cbn [mbind res_bind]. pose proof (type_vote _ _ Ht) as Hv. unfold isVote. case_bool_decide.
  - by rewrite (proj1 Hv).
  - destruct (IsSSGen tx) as [[]| |]; try done. naive_solver.
Qed.

Lemma i64_sub_l x y : i64 (i64 x - y) = i64 (x - y).
Proof. apply (i64_add_i64 x (- y)). Qed.

Lemma stakeTreeTx_Ok keyHeight tx txFee V c T1 T2 totals s' : cache_ok params c -> balanced V tx txFee -> IsCoinBaseTx tx = false ->
  stakeTreeTx params keyHeight (i64 T1, i64 T2) tx (V, c) = Ok (totals, s') ->
  exists c' T1' T2', s' = (V, c') /\ cache_ok params c' /\ totals = (i64 T1', i64 T2') /\
    T1' - T2' = T1 - T2 + stakeFee (voteSubsidyAt (i64 (keyHeight - 1))) V tx.
Proof.
  intros Hc Hb Hcb Hrun. unfold stakeTreeTx in Hrun. cbn [fst snd] in Hrun.
  apply stM_bind_Ok in Hrun as (g & s1 & [Hg%isTrue_vote ->]%lift_Ok & Hrun).
  apply stM_bind_Ok in Hrun as (t1 & s1 & Hin & Hrun). apply (stakeTreeInputs_Ok _ _ _ _ _ T1) in Hin as [-> ->]; [|done].
  rewrite sum_values_i64 in Hrun. rewrite Hg, <- (balanced_inputs _ _ _ Hb Hcb) in Hrun. fold (consumed V tx) in Hrun.
  unfold stakeFee. destruct (isVote tx).
  - apply stM_bind_Ok in Hrun as (x & s1 & Hsub & [<- <-]%stM_ret_Ok). apply voteSubsidy_Ok in Hsub as (c1 & -> & -> & Hc1); [|done].
    rewrite i64_sub_l. eexists c1, _, _. split_and!; [done..|]. lia.
  - apply stM_ret_Ok in Hrun as [<- <-]. eexists c, _, _. split_and!; [done..|]. lia.
Qed.

Lemma i64_sub_i64 x y : i64 (i64 x - i64 y) = i64 (x - y).
Proof.
  rewrite i64_sub_l. pose proof (Z_div_mod_eq_full (y + 2 ^ 63) (2 ^ 64)) as Hd. unfold i64 at 1 3. f_equal.
  rewrite <- (Z_mod_plus_full (x - y + 2 ^ 63) ((y + 2 ^ 63) / 2 ^ 64)). f_equal. unfold i64. lia.
Qed.

Lemma getStakeTreeFees_Ok keyHeight txs fees V c f s' : cache_ok params c -> Forall2 (balanced V) txs fees ->
  Forall (fun tx => IsCoinBaseTx tx = false) txs -> getStakeTreeFees keyHeight txs (V, c) = Ok (f, s') ->
  exists c', s' = (V, c') /\ cache_ok params c' /\
    f = i64 (zsum (stakeFee (voteSubsidyAt (i64 (keyHeight - 1))) V <$> txs)).
Proof.
  intros Hc Hb Hcb Hrun. unfold BlockRules.getStakeTreeFees in Hrun.
  apply stM_bind_Ok in Hrun as (totals & s1 & Hrun & H2). apply stM_bind_Ok in H2 as (u & s2 & [_ ->]%rule_Ok & [<- <-]%stM_ret_Ok).
  assert (Hloop : forall T1 T2, foldS (stakeTreeTx params keyHeight) (i64 T1, i64 T2) txs (V, c) = Ok (totals, s1) ->
    exists c' T1' T2', s1 = (V, c') /\ cache_ok params c' /\ totals = (i64 T1', i64 T2') /\
      T1' - T2' = T1 - T2 + zsum (stakeFee (voteSubsidyAt (i64 (keyHeight - 1))) V <$> txs)).
  { clear Hrun. revert c Hc fees Hb. induction Hcb as [|tx txs Htx _ IH]; intros c Hc fees Hb T1 T2 Hrun.
    { apply stM_ret_Ok in Hrun as [<- <-]. exists c, T1, T2. split_and!; try done. cbn. lia. }
    apply Forall2_cons_inv_l in Hb as (fee & fees' & Hb1 & Hb & ->). cbn [foldS] in Hrun.
    apply stM_bind_Ok in Hrun as (t & s2 & H1 & H2). apply (stakeTreeTx_Ok _ _ fee) in H1 as (c1 & U1 & U2 & -> & Hc1 & -> & Hu); try done.
    destruct (IH c1 Hc1 fees' Hb _ _ H2) as (c' & T1' & T2' & -> & Hc' & -> & Hs). exists c', T1', T2'. split_and!; try done.
    rewrite Hs, fmap_cons. cbn [zsum]. lia. }
  destruct (Hloop 0 0 Hrun) as (c' & T1 & T2 & -> & Hc' & -> & Hs). exists c'. split_and!; try done. cbn [fst snd].
  rewrite i64_sub_i64. f_equal. lia.
Qed.

Lemma stakebases_same txs s a s' : getStakeBaseAmounts txs s = Ok (a, s') -> s' = s.
Proof.
  unfold getStakeBaseAmounts. intros (t & s1 & Hrun & [_ <-]%stM_ret_Ok)%stM_bind_Ok. revert Hrun. generalize (0, 0).
  induction txs as [|tx txs IH]; intros t0 Hrun; cbn [foldS] in Hrun; [by apply stM_ret_Ok in Hrun as [_ <-]|].
  apply stM_bind_Ok in Hrun as (t1 & s2 & H1 & H2). assert (s2 = s) as ->; [|by eapply IH].
  apply stM_bind_Ok in H1 as (g & s3 & [_ ->]%lift_Ok & H1). destruct g; [|by apply stM_ret_Ok in H1 as [_ <-]].
  apply stM_bind_Ok in H1 as (x & s4 & Hx & [_ <-]%stM_ret_Ok). unfold ticketAmount in Hx.
  apply stM_bind_Ok in Hx as (y & s5 & [_ ->]%lift_Ok & Hx). apply stM_bind_Ok in Hx as (e & s5 & [_ ->]%getEntry_Ok & [_ <-]%stM_ret_Ok). done.
Qed.

Lemma checkStakebases_Ok node txs fees V c u s' : cache_ok params c -> n_isKeyBlock node = true ->
  checkStakebases params node txs fees (V, c) = Ok (u, s') ->
  exists c', s' = (V, c') /\ cache_ok params c' /\
    Forall (fun tx => IsSSGen tx = Ok true -> exists txIn, tx_TxIn tx !! 1%nat = Some txIn /\
      i64 (outputsOf tx - rawOf V txIn) <= voteSubsidyAt (i64 (n_keyHeight node - 1))) txs.
Proof.
  intros Hc Hk Hrun. unfold checkStakebases in Hrun. rewrite Hk in Hrun. cbn [negb] in Hrun.
  destruct ((length txs =? 0)%nat && _) eqn:E1.
  { apply stM_ret_Ok in Hrun as [_ <-]. exists c. split_and!; [done|done|]. by destruct txs. }
  destruct ((length txs =? 0)%nat && (_ >=? _)) eqn:E2; [by apply lift_Ok in Hrun as [? _]|].
  apply stM_bind_Ok in Hrun as (u1 & s1 & H1 & Hrun). apply checkStakeBaseAmounts_Ok in H1 as (c1 & -> & Hc1 & Hv); [|done].
  apply stM_bind_Ok in Hrun as (a & s1 & ->%stakebases_same & Hrun). apply stM_bind_Ok in Hrun as (e & s1 & He & [_ ->]%rule_Ok).
  destruct (_ >=? _).
  - apply stM_bind_Ok in He as (x & s2 & Hx & [_ <-]%stM_ret_Ok). apply voteSubsidy_Ok in Hx as (c2 & -> & _ & Hc2); [|done]. eauto.
  - apply stM_ret_Ok in He as [_ <-]. eauto.
Qed.

Lemma stake_tree_sum sub V txs : Forall saneTx txs ->
  zsum ((fun tx => spendableValue (tx_TxOut tx) - consumed V tx) <$> txs) + zsum (stakeFee sub V <$> txs) <= votesIn txs * sub.
Proof.
  unfold votesIn. induction 1 as [|tx txs Hs _ IH]; [done|]. rewrite !fmap_cons. cbn [zsum].
  destruct (saneTx_outputs tx Hs) as (_ & _ & Hsp). unfold stakeFee at 1. destruct (isVote tx); lia.
Qed.

Lemma i64_le x : 0 <= x -> i64 x <= x.
Proof. intros. unfold i64. Z.div_mod_to_equations. lia. Qed.

(** Hypotheses on the transactions of a tree: they are sane, different, and would not
    overwrite a transaction with unspent outputs. *)
Definition fresh (V : UtxoViewpoint) (txs : list MsgTx) : Prop :=
  Forall saneTx txs /\ NoDup (txHash <$> txs) /\ (forall tx i, tx ∈ txs -> unspent V (txHash tx) i = None) /\
  LookupEntry V zeroHash = None /\ zeroHash ∉ txHash <$> txs.

(** The stake tree of a key block creates at most the subsidies of its votes, and of that
    the fees are left over. *)
Lemma stake_tree_value khc node txs stxos mining V c stxos' s1 f s' : cache_ok params c -> n_isKeyBlock node = true -> fresh V txs ->
  checkTransactionsAndConnect khc 0 node txs stxos false mining (V, c) = Ok (stxos', s1) ->
  getStakeTreeFees (n_keyHeight node) txs s1 = Ok (f, s') ->
  exists V' c', s1.1 = V' /\ s' = (V', c') /\ cache_ok params c' /\ (forall h, h ∉ txHash <$> txs -> keeps h V V') /\
    is_i64 f /\ viewValue V' + f <= viewValue V + votesIn txs * voteSubsidyAt (i64 (n_keyHeight node - 1)).
Proof.
  intros Hc Hk (Hs & Hnd & Hn & Hz & Hzn) Hrun Hf. unfold BlockRules.checkTransactionsAndConnect in Hrun.
  apply stM_bind_Ok in Hrun as (pg & s2 & H1 & Hrun). unfold indexed in H1.
  apply tree_Ok in H1 as (V' & c1 & fees & -> & Hc1 & [Tv Tb Tc Tk Tz] & _); [|done..].
  apply stM_bind_Ok in Hrun as (u & s3 & H2 & [_ <-]%stM_ret_Ok).
  apply checkStakebases_Ok in H2 as (c2 & -> & Hc2 & Hvotes); [|done|done].
  pose proof (Tz eq_refl Hz Hzn) as Hcb. apply (getStakeTreeFees_Ok _ _ fees) in Hf as (c3 & -> & Hc3 & ->); try done.
  exists V', c3. split_and!; [done..|apply i64_range|]. set (sub := voteSubsidyAt _) in *.
  pose proof (stake_tree_sum sub V' txs Hs) as Hsum.
  assert (0 <= zsum (stakeFee sub V' <$> txs)) as Hpos.
  { apply zsum_nonneg, Forall_fmap, Forall_forall. intros tx Htx. cbn. rewrite Forall_forall in Hs, Tc, Hcb, Hvotes.
    destruct (list_elem_of_lookup_1 _ _ Htx) as [i Hi]. destruct (Forall2_lookup_l _ _ _ _ _ Tb Hi) as (fee & _ & Hb).
    pose proof (stake_tx_surplus V' tx fee (n_keyHeight node) (Hs _ Htx) (Tc _ Htx) Hb (Hcb _ Htx) (Hvotes _ Htx)).
    unfold stakeFee. fold sub in H0. destruct (isVote tx); lia. }
  pose proof (i64_le _ Hpos). lia.
Qed.

(** ** The regular tree *)

Lemma i64_le_wide x : - 2 ^ 63 <= x -> i64 x <= x.
Proof. intros. unfold i64. Z.div_mod_to_equations. lia. Qed.

(** An amount of fees that the arithmetic of the shares does not wrap. *)
Definition small (x : Z) : Prop := 0 <= x /\ x * (6 * TicketsPerBlock params) < 2 ^ 63.

Lemma TicketsPerBlock_pos : 0 < TicketsPerBlock params < 2 ^ 16.
Proof. destruct Hparams as (_ & _ & _ & _ & _ & _ & _ & _ & _ & _ & ?). lia. Qed.

Lemma penalize_bound node x : small x -> 0 <= h_Voters (n_header node) <= TicketsPerBlock params ->
  0 <= penalize params node x <= x.
Proof.
  intros [Hx Hs] Hv. pose proof TicketsPerBlock_pos. unfold penalize. destruct (_ >=? _); [|lia].
  rewrite i64_small by (unfold is_i64; nia). unfold go_quot. rewrite Z.quot_div_nonneg by nia.
  split; [apply Z.div_pos; nia|apply Z.div_le_upper_bound; nia].
Qed.

(** The share [n/10] of the fees. *)
Lemma tenths node x n : small x -> 0 <= h_Voters (n_header node) <= TicketsPerBlock params -> 0 <= n <= 6 ->
  0 <= 10 * go_quot (i64 (penalize params node x * n)) 10 <= n * x.
Proof.
  intros Hs Hv Hn. pose proof (penalize_bound node x Hs Hv) as Hp. destruct Hs as [Hx Hs]. pose proof TicketsPerBlock_pos.
  rewrite i64_small by (unfold is_i64; nia). unfold go_quot. rewrite Z.quot_div_nonneg by nia.
  pose proof (Z.mul_div_le (penalize params node x * n) 10). assert (0 <= penalize params node x * n / 10) by (apply Z.div_pos; nia). nia.
Qed.

(** The fees of the blocks from [h] back to the key block [prevKey]. *)
Inductive extraFees (idx : gmap bytes blockNode) (prevKey : bytes) : bytes -> Z -> Prop :=
| extra_none : extraFees idx prevKey zeroHash 0
| extra_key node : prevKey <> zeroHash -> idx !! prevKey = Some node -> extraFees idx prevKey prevKey (n_totalFees node)
| extra_block h node e : h <> zeroHash -> h <> prevKey -> idx !! h = Some node ->
    extraFees idx prevKey (default zeroHash (n_parent node)) e -> extraFees idx prevKey h (n_totalFees node + e).

Lemma extraFeesFrom_Ok fuel idx prevKey h acc r e : is_i64 acc -> extraFees idx prevKey h e ->
  extraFeesFrom fuel idx prevKey h acc = Ok r -> r = i64 (acc + e).
Proof.
  intros Ha He. revert fuel acc Ha. induction He as [|node Hz Hk|h node e Hz Hh Hi _ IH]; intros [|fuel] acc Ha; try done; cbn [extraFeesFrom].
  - rewrite bool_decide_true by done. intros [= <-]. rewrite Z.add_0_r, i64_small; done.
  - rewrite bool_decide_false by done. unfold GetTotalFeesByHash. rewrite (bool_decide_eq_false_2 (prevKey = zeroHash)) by done. rewrite Hk.
    cbn [mbind res_bind]. rewrite bool_decide_true by done. by intros [= <-].
  - rewrite bool_decide_false by done. unfold GetTotalFeesByHash, GetPrevHashByHash. rewrite !(bool_decide_eq_false_2 (h = zeroHash)) by done. rewrite Hi.
    cbn [mbind res_bind]. rewrite bool_decide_false by done. intros Hr. apply IH in Hr as ->; [|apply i64_range].
    rewrite i64_add_i64. f_equal. lia.
Qed.

(** What is still to be paid out of the fees of the blocks up to [parent], in tenths: three
    of the fees of [parent] in the next block, and one of each block since the key block in
    the next key block. *)
Definition owes (idx : gmap bytes blockNode) (prevKey parent : bytes) (due : Z) : Prop :=
  exists prevFees extra, GetTotalFeesByHash idx parent = Ok prevFees /\ extraFees idx prevKey parent extra /\
    0 <= prevFees /\ 0 <= extra /\ due = 3 * prevFees + extra.

Lemma subsidyM_Ok (f : gmap Z Z -> Z * gmap Z Z) V c a s' : subsidyM f (V, c) = Ok (a, s') -> a = (f c).1 /\ s' = (V, (f c).2).
Proof. unfold subsidyM. cbn [fst snd]. destruct (f c). by intros [= <- <-]. Qed.

Lemma subsidies_Ok kh voters c : cache_ok params c -> kh <> 0 -> 0 <= voters <= TicketsPerBlock params ->
  let work := CalcBlockWorkSubsidy c kh voters params in
  let tax := CalcBlockTaxSubsidy work.2 kh voters params in
  cache_ok params tax.2 /\ 0 <= work.1 /\ 0 <= tax.1 /\ work.1 + tax.1 < 2 ^ 63 /\
  TotalSubsidyProportions params * (work.1 + tax.1) <= blockSubsidy params kh * (WorkRewardProportion params + BlockTaxProportion params).
Proof.
  intros Hc Hk Hv work tax. assert (Hc1 : cache_ok params work.2).
  { unfold work, CalcBlockWorkSubsidy. destruct (CalcBlockSubsidy_spec params c kh Hc) as [_ Hc1].
    destruct (CalcBlockSubsidy params c kh) as [s c1]. by repeat case_match. }
  assert (Hc2 : cache_ok params tax.2).
  { unfold tax, CalcBlockTaxSubsidy. destruct (_ =? _); [done|]. destruct (CalcBlockSubsidy_spec params _ kh Hc1) as [_ Hc2].
    destruct (CalcBlockSubsidy params work.2 kh) as [s c1]. by repeat case_match. }
  destruct (work_bound params Hparams c kh voters Hc Hk Hv) as (sw & Hw & Mw).
  destruct (tax_bound params Hparams work.2 kh voters Hc1 Hk Hv) as (st & Ht & Mt).
  fold work in Hw. fold tax in Ht. pose proof (blockSubsidy_bound params Hparams kh Hk) as Hb.
  pose proof (proportions_exact params Hparams) as HP. destruct Hparams as (P1 & P2 & _ & _ & _ & _ & P7 & P8 & P9 & P10 & _).
  rewrite HP in *. split_and!; try done; try lia; nia.
Qed.

Lemma keyLimit_Ok inputFees node txs parent prevFees extra fees V c limits s' :
  cache_ok params c -> n_keyHeight node <> 0 -> n_isKeyBlock node = true -> n_parent node = Some parent ->
  0 <= h_Voters (n_header node) <= TicketsPerBlock params -> is_i64 inputFees ->
  GetTotalFeesByHash index parent = Ok prevFees -> extraFees index (h_PrevKeyBlock (n_header node)) parent extra ->
  small fees -> small prevFees -> small extra ->
  coinbaseLimit params index inputFees node txs false fees (V, c) = Ok (limits, s') ->
  exists c' c1 c2 minted, s' = (V, c') /\ cache_ok params c' /\ txs !! 0%nat = Some c1 /\ txs !! 1%nat = Some c2 /\
    limits.2 = foldl (fun total out => i64 (total + Value out)) (outputsOf c1) (tx_TxOut c2) /\ 0 <= minted /\
    10 * limits.1.1 <= 10 * minted + 6 * fees + 3 * prevFees + extra + 10 * inputFees /\
    TotalSubsidyProportions params * minted <= blockSubsidy params (n_keyHeight node) * (WorkRewardProportion params + BlockTaxProportion params).
Proof.
  intros Hc Hkh Hkey Hpar Hv Hif HP HE Hf Hp He Hrun. unfold coinbaseLimit in Hrun. rewrite Hpar, Hkey in Hrun.
  apply stM_bind_Ok in Hrun as (p & s1 & [[= <-]%or_panic_Ok ->]%lift_Ok & Hrun).
  apply stM_bind_Ok in Hrun as (pf & s1 & [E ->]%lift_Ok & Hrun). rewrite HP in E. injection E as <-.
  apply stM_bind_Ok in Hrun as (c1 & s1 & [Hc1%or_panic_Ok ->]%lift_Ok & Hrun).
  rewrite (proj2 (Z.eqb_neq _ _) Hkh) in Hrun. cbn [andb orb] in Hrun.
  apply stM_bind_Ok in Hrun as (c2 & s1 & [Hc2%or_panic_Ok ->]%lift_Ok & Hrun).
  apply stM_bind_Ok in Hrun as (w & s1 & [-> ->]%subsidyM_Ok & Hrun). apply stM_bind_Ok in Hrun as (t & s1 & [-> ->]%subsidyM_Ok & Hrun).
  apply stM_bind_Ok in Hrun as (ef & s1 & [Hef ->]%lift_Ok & [<- <-]%stM_ret_Ok). cbn [fst snd].
  destruct (subsidies_Ok (n_keyHeight node) (h_Voters (n_header node)) c Hc Hkh Hv) as (Hct & Hw & Ht & Hwt & Hsub). cbn zeta in *.
  set (w := (CalcBlockWorkSubsidy c _ _ params).1) in *. set (t := (CalcBlockTaxSubsidy _ _ _ params).1) in *.
  apply extraFeesFrom_Ok with (e := extra) in Hef; [|unfold is_i64; lia|done]. pose proof TicketsPerBlock_pos.
  rewrite Z.add_0_l, i64_small in Hef by (destruct He; unfold is_i64; nia). subst ef.
  pose proof (tenths node fees 6 Hf Hv ltac:(lia)) as T6. pose proof (tenths node prevFees 3 Hp Hv ltac:(lia)) as T3.
  pose proof (penalize_bound node extra He Hv) as T1. destruct Hf as [Hf0 Hf1], Hp as [Hp0 Hp1], He as [He0 He1].
  set (a := go_quot (i64 (_ * 6)) 10) in *. set (b := go_quot (i64 (_ * 3)) 10) in *.
  assert (Hq : 0 <= 10 * go_quot (penalize params node extra) 10 <= extra).
  { unfold go_quot. rewrite Z.quot_div_nonneg by lia. pose proof (Z.mul_div_le (penalize params node extra) 10).
    assert (0 <= penalize params node extra / 10) by (apply Z.div_pos; lia). lia. }
  set (d := go_quot (penalize params node extra) 10) in *.
  assert (6 * fees < 2 ^ 63 /\ 6 * prevFees < 2 ^ 63 /\ 6 * extra < 2 ^ 63) as (F6 & P6 & E6) by nia.
  rewrite (i64_small (a + b)) by (unfold is_i64; lia). rewrite (i64_small (a + b + d)) by (unfold is_i64; lia).
  rewrite (i64_small (w + t)) by (unfold is_i64; lia). unfold is_i64 in Hif. pose proof (i64_le_wide (a + b + d + inputFees) ltac:(lia)) as L1.
  pose proof (i64_range (a + b + d + inputFees)) as L2. unfold is_i64 in L2.
  pose proof (i64_le_wide (w + t + i64 (a + b + d + inputFees)) ltac:(lia)) as L3.
  eexists _, c1, c2, (w + t). split_and!; try done; lia.
Qed.

Lemma microLimit_Ok inputFees node txs parent prevFees fees V c limits s' :
  n_keyHeight node <> 0 -> n_isKeyBlock node = false -> n_parent node = Some parent ->
  0 <= h_Voters (n_header node) <= TicketsPerBlock params -> GetTotalFeesByHash index parent = Ok prevFees ->
  small fees -> small prevFees -> coinbaseLimit params index inputFees node txs false fees (V, c) = Ok (limits, s') ->
  exists c1, s' = (V, c) /\ txs !! 0%nat = Some c1 /\ limits.2 = outputsOf c1 /\ 10 * limits.1.1 <= 6 * fees + 3 * prevFees.
Proof.
  intros Hkh Hkey Hpar Hv HP Hf Hp Hrun. unfold coinbaseLimit in Hrun. rewrite Hpar, Hkey in Hrun.
  apply stM_bind_Ok in Hrun as (p & s1 & [[= <-]%or_panic_Ok ->]%lift_Ok & Hrun).
  apply stM_bind_Ok in Hrun as (pf & s1 & [E ->]%lift_Ok & Hrun). rewrite HP in E. injection E as <-.
  apply stM_bind_Ok in Hrun as (c1 & s1 & [Hc1%or_panic_Ok ->]%lift_Ok & Hrun).
  rewrite (proj2 (Z.eqb_neq _ _) Hkh) in Hrun. cbn [andb orb] in Hrun. apply stM_ret_Ok in Hrun as [<- <-]. cbn [fst snd].
  pose proof (tenths node fees 6 Hf Hv ltac:(lia)) as T6. pose proof (tenths node prevFees 3 Hp Hv ltac:(lia)) as T3.
  pose proof TicketsPerBlock_pos. destruct Hf, Hp.
  assert (6 * fees < 2 ^ 63 /\ 6 * prevFees < 2 ^ 63) as [F6 P6] by nia.
  exists c1. split_and!; try done. rewrite i64_small by (unfold is_i64; lia). lia.
Qed.

Lemma checkCoinbases_Ok inputFees node txs mining fees V c u s' :
  checkCoinbases params index inputFees node txs mining fees (V, c) = Ok (u, s') ->
  exists limits, coinbaseLimit params index inputFees node txs mining fees (V, c) = Ok (limits, s') /\ limits.2 <= limits.1.1.
Proof.
  intros Hrun. unfold checkCoinbases in Hrun. apply stM_bind_Ok in Hrun as ([[e t] p] & s1 & H1 & Hrun).
  apply stM_bind_Ok in Hrun as (c1 & s2 & [_ ->]%lift_Ok & Hrun). apply stM_bind_Ok in Hrun as (ci & s2 & [_ ->]%lift_Ok & Hrun).
  apply stM_bind_Ok in Hrun as (u1 & s2 & [_ ->]%rule_Ok & [Hle ->]%rule_Ok). rewrite Z.gtb_ltb in Hle. apply Z.ltb_ge in Hle. eauto.
Qed.

(** *** The fees of a block *)

Definition coinbasePay (tx : MsgTx) : Z := if IsCoinBaseTx tx then zsum (Value <$> tx_TxOut tx) else 0.

Lemma regular_mints_nothing tx : DetermineTxType tx = Ok TxTypeRegular -> mintedBy tx = 0.
Proof. intros Ht. unfold TxRules.mintedBy. destruct (IsSSGen tx) as [[]| |] eqn:Eg; try done. by apply (type_vote _ _ Ht) in Eg. Qed.

Lemma regular_sum V txs fees : Forall saneTx txs -> Forall2 (balanced V) txs fees ->
  Forall (fun tx => DetermineTxType tx = Ok TxTypeRegular) txs ->
  zsum ((fun tx => spendableValue (tx_TxOut tx) - consumed V tx) <$> txs) + zsum fees <= zsum (coinbasePay <$> txs).
Proof.
  intros Hs Hb Ht. revert Hs Ht. induction Hb as [|tx fee txs fees Hb _ IH]; intros Hs Ht; [done|]. rewrite !fmap_cons. cbn [zsum].
  apply Forall_cons_1 in Hs as [Hs1 Hs]. apply Forall_cons_1 in Ht as [Ht1 Ht]. specialize (IH Hs Ht).
  destruct (saneTx_outputs tx Hs1) as (_ & _ & Hsp). unfold coinbasePay at 1. unfold balanced in Hb.
  destruct (IsCoinBaseTx tx) eqn:Ecb.
  - assert (consumed V tx = 0) as -> by (unfold consumed, spentInputs; by rewrite Ecb). lia.
  - destruct Hb as (t & f & Ht' & _ & Hbal & ->). rewrite Ht1 in Ht'. injection Ht' as <-. cbn [bool_decide decide_rel].
    pose proof (regular_mints_nothing tx Ht1). rewrite bool_decide_true by done. lia.
Qed.

Lemma statedFee_exact V tx fee : DetermineTxType tx = Ok TxTypeRegular -> IsCoinBaseTx tx = false -> claims V tx ->
  balanced V tx fee -> statedFee tx = fee.
Proof.
  intros Ht Hcb Hcl Hb. assert (Hin : spentInputs tx = tx_TxIn tx) by (unfold spentInputs, journalInputs; rewrite Hcb, Ht; done).
  apply claims_consumed in Hcl. unfold balanced in Hb. rewrite Hcb in Hb. destruct Hb as (t & f & Ht' & Hf & Hbal & ->).
  rewrite Ht in Ht'. injection Ht' as <-. rewrite bool_decide_true by done.
  pose proof (regular_mints_nothing tx Ht) as Hz.
  assert (Hsum : forall ins T, foldl (fun total txin => i64 (total + ValueIn txin)) (i64 T) ins = i64 (T + zsum (ValueIn <$> ins))).
  { induction ins as [|i ins IH]; intros T; [cbn; f_equal; lia|]. cbn [foldl]. rewrite i64_add_i64, IH, fmap_cons. cbn [zsum]. f_equal. lia. }
  unfold statedFee. change 0 with (i64 0). rewrite Hsum, sum_values_i64, i64_sub_i64.
  rewrite Hin in Hcl. rewrite i64_small by (unfold is_i64; lia). lia.
Qed.

(** The coinbases are the first [n] transactions. *)
Definition placed (n : nat) (txs : list MsgTx) : Prop := forall j tx, txs !! j = Some tx -> IsCoinBaseTx tx = (j <? n)%nat.

Definition regular (tx : MsgTx) : Prop := DetermineTxType tx = Ok TxTypeRegular.

(** The fees that [newBlockNode] keeps for later blocks are those that the checks found. *)
Lemma node_fees blockHash block spent revoked votes V fees :
  let key := meetsTarget (blockHash (Header block)) (h_Bits (Header block)) in
  placed (if key then 2 else 1) (Transactions block) -> Forall regular (Transactions block) ->
  Forall (claims V) (Transactions block) -> Forall2 (balanced V) (Transactions block) fees -> is_i64 (zsum fees) ->
  n_totalFees (newBlockNode blockHash block spent revoked votes) = zsum fees.
Proof.
  intros key Hpl Hr Hcl Hb Hi. unfold newBlockNode. cbn [n_totalFees]. fold key.
  assert (Hloop : forall txs fees k T, (forall j tx, txs !! j = Some tx -> IsCoinBaseTx tx = (k + j <? if key then 2 else 1)%nat) ->
    Forall regular txs -> Forall (claims V) txs -> Forall2 (balanced V) txs fees ->
    foldl (fun totalFees (iTx : nat * MsgTx) => if (iTx.1 <? 1)%nat then totalFees
      else if key && (iTx.1 <? 2)%nat then totalFees else i64 (totalFees + statedFee iTx.2)) (i64 T) (zip (seq k (length txs)) txs) =
    i64 (T + zsum fees)).
  { clear. intros txs fees k T Hp Hr Hcl Hb. revert k T Hp Hr Hcl.
    induction Hb as [|tx fee txs fees Hb _ IH]; intros k T Hp Hr Hcl; [cbn; f_equal; lia|].
    apply Forall_cons_1 in Hr as [Hr1 Hr]. apply Forall_cons_1 in Hcl as [Hcl1 Hcl]. cbn [length seq zip zip_with foldl fst snd zsum].
    assert (Hcb : IsCoinBaseTx tx = (k <? if key then 2 else 1)%nat) by (rewrite (Hp 0%nat tx eq_refl); f_equal; lia).
    assert (Hp' : forall j tx, txs !! j = Some tx -> IsCoinBaseTx tx = (S k + j <? if key then 2 else 1)%nat).
    { intros j tx' Hj. rewrite (Hp (S j) tx' Hj). f_equal. lia. }
    replace (if (k <? 1)%nat then _ else _) with (i64 (T + fee)); [rewrite IH by done; f_equal; lia|].
    destruct (IsCoinBaseTx tx) eqn:Ecb.
    - unfold balanced in Hb. rewrite Ecb in Hb. subst fee. rewrite Z.add_0_r. symmetry in Hcb. apply Nat.ltb_lt in Hcb.
      destruct (Nat.ltb_spec k 1); [done|]. destruct key; [|lia]. by rewrite (proj2 (Nat.ltb_lt k 2)) by lia.
    - rewrite (statedFee_exact V tx fee), i64_add_i64 by done. symmetry in Hcb. apply Nat.ltb_ge in Hcb.
      rewrite (proj2 (Nat.ltb_ge k 1)) by (destruct key; lia). destruct key; [|done]. by rewrite (proj2 (Nat.ltb_ge k 2)) by lia. }
  unfold indexed. change 0 with (i64 0) at 1. rewrite (Hloop _ fees 0%nat 0) by done. by rewrite i64_small.
Qed.

Lemma coinbases_paid (key : bool) txs : placed (if key then 2 else 1) txs -> zsum (coinbasePay <$> txs) =
  from_option (fun tx => zsum (Value <$> tx_TxOut tx)) 0 (txs !! 0%nat) +
  if key : bool then from_option (fun tx => zsum (Value <$> tx_TxOut tx)) 0 (txs !! 1%nat) else 0.
Proof.
  assert (Hzero : forall l, (forall j tx, l !! j = Some tx -> IsCoinBaseTx tx = false) -> zsum (coinbasePay <$> l) = 0).
  { induction l as [|tx l IH]; intros Hl; [done|]. rewrite fmap_cons. cbn [zsum]. rewrite IH by (intros j; apply (Hl (S j))).
    unfold coinbasePay. by rewrite (Hl 0%nat tx eq_refl). }
  intros Hp. destruct txs as [|c1 txs]; [by destruct key|]. rewrite fmap_cons. cbn [zsum]. unfold coinbasePay at 1.
  rewrite (Hp 0%nat c1 eq_refl). destruct key; cbn [Nat.ltb Nat.leb from_option lookup list_lookup].
  - destruct txs as [|c2 txs]; [cbn; lia|]. rewrite fmap_cons. cbn [zsum]. unfold coinbasePay at 1. rewrite (Hp 1%nat c2 eq_refl).
    cbn. rewrite Hzero; [unfold list_fmap; lia|]. intros j tx Hj. by rewrite (Hp (S (S j)) tx Hj).
  - rewrite Hzero; [lia|]. intros j tx Hj. by rewrite (Hp (S j) tx Hj).
Qed.

(** ** A sane block *)

Definition stakeTx (tx : MsgTx) : Prop := exists t, DetermineTxType tx = Ok t /\ t <> TxTypeRegular.

Lemma stakeSane_Ok txs counts counts' : foldM (stakeSane MaxAmount params) counts txs = Ok counts' ->
  Forall (fun tx => CheckTransactionSanity MaxAmount tx params = Ok tt /\ stakeTx tx) txs /\
  counts'.1.2 = counts.1.2 + votesIn txs.
Proof.
  unfold votesIn. revert counts. induction txs as [|tx txs IH]; intros counts Hrun; cbn [foldM] in Hrun.
  { injection Hrun as <-. split; [done|]. cbn. lia. }
  apply bind_Ok in Hrun as (c1 & H1 & H2). destruct (IH c1 H2) as [HF ->]. rewrite fmap_cons. cbn [zsum].
  unfold stakeSane in H1. destruct counts as [[a b] r]. apply bind_Ok in H1 as ([] & Hs & H1).
  apply bind_Ok in H1 as (t & Ht%map_err_Ok & H1). pose proof (type_vote _ _ Ht) as Hv.
  assert (Hst : t <> TxTypeRegular) by (by intros ->). split; [constructor; [split; [done|by exists t]|done]|].
  assert (Hvote : isVote tx = bool_decide (t = TxTypeSSGen)).
  { unfold isVote. case_bool_decide; [by rewrite (proj1 Hv)|]. destruct (IsSSGen tx) as [[]| |]; naive_solver. }
  rewrite Hvote. destruct t; [done| | |]; injection H1 as <-; cbn [fst snd]; case_bool_decide; done || lia.
Qed.

Lemma addTxHashes_Ok txs seen seen' : NoDup seen -> foldM (addTxHash txHash) seen txs = Ok seen' -> NoDup ((txHash <$> txs) ++ seen).
Proof.
  revert seen. induction txs as [|tx txs IH]; intros seen Hnd Hrun; [done|]. cbn [foldM] in Hrun. apply bind_Ok in Hrun as (s1 & H1 & H2).
  unfold addTxHash, ruleOk in H1. inv_res. apply bool_decide_eq_false_1 in H0. apply IH in H2; [|by apply NoDup_cons].
  rewrite fmap_cons. cbn [app]. by rewrite <- Permutation_middle in H2.
Qed.

(** What the sanity check says of the transactions of a block. *)
Record sane_block (key : bool) (block : MsgBlock) : Prop := {
  sb_placed : placed (if key then 2 else 1) (Transactions block);
  sb_regular : Forall (fun tx => CheckTransactionSanity MaxAmount tx params = Ok tt /\ regular tx) (Transactions block);
  sb_distinct : NoDup (txHash <$> Transactions block ++ STransactions block);
  sb_stake : key = true ->
    Forall (fun tx => CheckTransactionSanity MaxAmount tx params = Ok tt /\ stakeTx tx) (STransactions block) /\
    votesIn (STransactions block) = h_Voters (Header block) /\ h_Voters (Header block) <= TicketsPerBlock params
}.

Lemma checkBlockSanity_Ok HashH blockHash adjustedTime block hash :
  checkBlockSanity HashH blockHash txHash MaxAmount adjustedTime params block hash false = Ok tt ->
  sane_block (meetsTarget hash (h_Bits (Header block))) block.
Proof.
  intros Hrun. unfold checkBlockSanity, secondCoinbase in Hrun. cbn [negb orb andb] in Hrun. set (key := meetsTarget _ _) in *.
  apply bind_Ok in Hrun as (? & _ & Hrun). do 3 apply bind_Ok in Hrun as (? & _ & Hrun).
  apply bind_Ok in Hrun as (c1 & Hc1%or_panic_Ok & Hrun). apply bind_Ok in Hrun as (? & Hcb1%guard_err_Ok & Hrun). apply negb_false_iff in Hcb1.
  apply bind_Ok in Hrun as (u2 & Hcb2 & Hrun). apply bind_Ok in Hrun as (rest & Hrest & Hrun).
  apply bind_Ok in Hrun as (? & Hno%guard_err_Ok & Hrun). apply bind_Ok in Hrun as (u3 & Hreg & Hrun).
  apply bind_Ok in Hrun as (u4 & Hst & Hrun). do 2 apply bind_Ok in Hrun as (? & _ & Hrun).
  apply bind_Ok in Hrun as (hs & Hdup & _). split.
  - intros j tx Hj. unfold slice_from in Hrest. destruct (_ <=? _)%nat; [|done]. injection Hrest as <-.
    destruct (Nat.ltb_spec j (if key then 2 else 1)) as [Hlt|Hge].
    + destruct key; [apply bind_Ok in Hcb2 as (c2 & Hc2%or_panic_Ok & Hcb2%guard_err_Ok); apply negb_false_iff in Hcb2|].
      all: destruct j as [|[|]]; [congruence|try congruence; lia|lia].
    + apply not_true_iff_false. intros Hcb. apply not_true_iff_false in Hno. apply Hno, existsb_exists. exists tx. split; [|done].
      apply list_elem_of_In, list_elem_of_lookup. exists (j - if key then 2 else 1)%nat. rewrite lookup_drop. rewrite <- Hj. f_equal. lia.
  - apply Forall_forall. intros tx [k Hk]%list_elem_of_lookup. destruct u3. rewrite checkFrom_Ok in Hreg. specialize (Hreg k tx Hk).
    unfold regularSane in Hreg. apply bind_Ok in Hreg as (t & Ht%map_err_Ok & Hreg).
    apply bind_Ok in Hreg as (? & Hr%guard_err_Ok & Hreg). apply negb_false_iff, bool_decide_eq_true_1 in Hr. by subst t.
  - apply addTxHashes_Ok in Hdup; [|by apply NoDup_nil]. by rewrite app_nil_r in Hdup.
  - intros Hk. rewrite Hk in Hst. unfold stakeTreeSane in Hst. apply bind_Ok in Hst as ([[a b] r] & Hf & Hst).
    apply stakeSane_Ok in Hf as [HF Hb]. cbn [fst snd] in Hb. split; [done|].
    do 2 apply bind_Ok in Hst as (? & _ & Hst). apply bind_Ok in Hst as (? & Hmax%guard_err_Ok & Hst).
    apply bind_Ok in Hst as (? & Heq%guard_err_Ok & _). rewrite Z.gtb_ltb in Hmax. apply Z.ltb_ge in Hmax.
    apply negb_false_iff, Z.eqb_eq in Heq. lia.
Qed.

(** ** The value that a block creates *)

Lemma extraFees_insert idx prevKey h e hash node : idx !! hash = None -> extraFees idx prevKey h e ->
  extraFees (<[hash := node]> idx) prevKey h e.
Proof.
  intros Hn. induction 1 as [|k Hz Hk|h k e Hz Hh Hi _ IH]; [constructor| |].
  - constructor; [done|]. rewrite lookup_insert_ne by congruence. done.
  - econstructor; [done|done| |done]. rewrite lookup_insert_ne by congruence. done.
Qed.

(** What is owed after the block: its own fees are added; a key block has paid the rest. *)
Lemma owes_after node parent prevKey extra : n_hash node <> zeroHash -> index !! n_hash node = None ->
  n_parent node = Some parent -> 0 <= n_totalFees node -> 0 <= extra -> extraFees index prevKey parent extra ->
  (n_isKeyBlock node = false -> n_hash node <> prevKey) ->
  owes (<[n_hash node := node]> index) (if n_isKeyBlock node then n_hash node else prevKey) (n_hash node)
    (4 * n_totalFees node + if n_isKeyBlock node then 0 else extra).
Proof.
  intros Hz Hn Hpar HF He Hex Hk. exists (n_totalFees node), (n_totalFees node + if n_isKeyBlock node then 0 else extra).
  split_and!; [| |done|destruct (n_isKeyBlock node); lia|lia].
  - unfold GetTotalFeesByHash. by rewrite bool_decide_false, lookup_insert_eq by done.
  - destruct (n_isKeyBlock node).
    + rewrite Z.add_0_r. constructor; [done|]. by rewrite lookup_insert_eq.
    + apply extra_block; [done|by apply Hk|by rewrite lookup_insert_eq|]. rewrite Hpar. cbn. by apply extraFees_insert.
Qed.

Lemma coinbases_bound inputFees node txs parent prevFees extra fees V c u s' :
  2 * MaxAmount < 2 ^ 63 -> cache_ok params c -> n_keyHeight node <> 0 -> n_parent node = Some parent ->
  0 <= h_Voters (n_header node) <= TicketsPerBlock params -> is_i64 inputFees ->
  GetTotalFeesByHash index parent = Ok prevFees -> extraFees index (h_PrevKeyBlock (n_header node)) parent extra ->
  small fees -> small prevFees -> small extra -> Forall saneTx txs -> placed (if n_isKeyBlock node then 2 else 1) txs ->
  checkCoinbases params index inputFees node txs false fees (V, c) = Ok (u, s') ->
  exists c' minted, s' = (V, c') /\ cache_ok params c' /\ 0 <= minted /\
    10 * zsum (coinbasePay <$> txs) <=
      6 * fees + 3 * prevFees + (if n_isKeyBlock node then extra + 10 * inputFees else 0) + 10 * minted /\
    TotalSubsidyProportions params * minted <=
      if n_isKeyBlock node then blockSubsidy params (n_keyHeight node) * (WorkRewardProportion params + BlockTaxProportion params) else 0.
Proof.
  intros H2 Hc Hkh Hpar Hv Hif HP HE Hf Hp He Hs Hpl Hrun. apply checkCoinbases_Ok in Hrun as (limits & Hrun & Hle).
  assert (Hout : forall i tx, txs !! i = Some tx -> outputsOf tx = zsum (Value <$> tx_TxOut tx) /\ 0 <= zsum (Value <$> tx_TxOut tx) <= MaxAmount).
  { intros i tx Hi. rewrite Forall_forall in Hs. destruct (saneTx_outputs tx) as (E1 & E2 & _); [|done]. apply Hs, list_elem_of_lookup. by exists i. }
  rewrite (coinbases_paid _ _ Hpl). destruct (n_isKeyBlock node) eqn:Hkey.
  - apply (keyLimit_Ok _ _ _ parent prevFees extra) in Hrun as (c' & c1 & c2 & minted & -> & Hc' & H0' & H1' & Hl2 & Hm & Hlim & Hsub); try done.
    exists c', minted. split_and!; try done. rewrite H0', H1'. cbn [from_option].
    destruct (Hout _ _ H0') as [E1 B1], (Hout _ _ H1') as [E2 B2]. rewrite Hl2, E1, sum_values_exact in Hle; [lia|lia| |lia].
    rewrite Forall_forall in Hs. destruct (Hs c2) as [Hs2 _]; [apply list_elem_of_lookup; by exists 1%nat|].
    apply CheckTransactionSanity_Ok in Hs2 as (_ & Hv2 & _); [|done]. eapply Forall_impl; [exact Hv2|cbn; lia].
  - apply (microLimit_Ok _ _ _ parent prevFees) in Hrun as (c1 & -> & H0' & Hl2 & Hlim); try done.
    exists c, 0. rewrite H0'. cbn [from_option]. destruct (Hout _ _ H0') as [E1 B1]. split_and!; try done; try lia.
Qed.

Lemma regular_tree_value khc inputFees blockHash block spent revoked votes prevNode height stxos V c stxos' s' due :
  let node := linkNode (newBlockNode blockHash block spent revoked votes) prevNode height in
  let header := Header block in
  2 * MaxAmount < 2 ^ 63 -> cache_ok params c -> is_i64 inputFees -> n_keyHeight node <> 0 ->
  0 <= h_Voters header <= TicketsPerBlock params -> sane_block (n_isKeyBlock node) block -> fresh V (Transactions block) ->
  n_hash node <> zeroHash -> index !! n_hash node = None -> (n_isKeyBlock node = false -> n_hash node <> h_PrevKeyBlock header) ->
  owes index (h_PrevKeyBlock header) (n_hash prevNode) due -> small due -> small (n_totalFees node) ->
  checkTransactionsAndConnect khc inputFees node (Transactions block) stxos true false (V, c) = Ok (stxos', s') ->
  exists V' c' minted due', s' = (V', c') /\ cache_ok params c' /\ 0 <= minted /\
    TotalSubsidyProportions params * minted <=
      (if n_isKeyBlock node then blockSubsidy params (n_keyHeight node) * (WorkRewardProportion params + BlockTaxProportion params) else 0) /\
    owes (<[n_hash node := node]> index) (if n_isKeyBlock node then n_hash node else h_PrevKeyBlock header) (n_hash node) due' /\
    10 * viewValue V' + due' <= 10 * viewValue V + due + 10 * (minted + if n_isKeyBlock node then inputFees else 0).
Proof.
  intros node header H2 Hc Hif Hkh Hv [Hpl Hreg _ _] (Hs & Hnd & Hn & _) Hz Hni Hpk (P & E & HP & HE & HP0 & HE0 & Hdue) Hsd HsF Hrun.
  unfold BlockRules.checkTransactionsAndConnect in Hrun. apply stM_bind_Ok in Hrun as (pg & s1 & H1 & Hrun). unfold indexed in H1.
  apply tree_Ok in H1 as (V' & c1 & fees & -> & Hc1 & [Tv Tb Tc _ _] & Hf & Hfi); [|done..]. cbn [pg_fees] in Hf. rewrite Z.add_0_l in Hf.
  apply stM_bind_Ok in Hrun as (u & s2 & H3 & [_ <-]%stM_ret_Ok). rewrite Hf in *.
  assert (Hr : Forall regular (Transactions block)) by (eapply Forall_impl; [exact Hreg|by intros ? [_ ?]]).
  pose proof (node_fees blockHash block spent revoked votes V' fees Hpl Hr Tc Tb Hfi) as HF.
  change (n_totalFees (newBlockNode blockHash block spent revoked votes)) with (n_totalFees node) in HF. rewrite <- HF in *.
  assert (small P /\ small E) as [HsP HsE] by (pose proof TicketsPerBlock_pos; unfold small in *; split; nia).
  apply (coinbases_bound _ _ _ (n_hash prevNode) P E) in H3 as (c' & minted & -> & Hc' & Hm & Hpay & Hsub); try done.
  pose proof (regular_sum V' _ fees Hs Tb Hr) as Hsum. rewrite <- HF in Hsum.
  eexists V', c', minted, _. split_and!; [done|done|done|done|apply (owes_after node (n_hash prevNode) _ E); try done; apply HsF|].
  destruct (n_isKeyBlock node); lia.
Qed.

(** A block whose transactions are new to the view: their hashes have no unspent outputs,
    and none is the zero hash of coinbase inputs. *)
Definition newBlock (V : UtxoViewpoint) (block : MsgBlock) : Prop :=
  LookupEntry V zeroHash = None /\
  Forall (fun tx => Z.of_nat (length (tx_TxOut tx)) < 2 ^ 32 /\ txHash tx <> zeroHash /\ forall i, unspent V (txHash tx) i = None)
    (Transactions block ++ STransactions block).

Lemma newBlock_fresh V block txs : newBlock V block -> NoDup (txHash <$> txs) ->
  (forall tx, tx ∈ txs -> tx ∈ Transactions block ++ STransactions block) ->
  Forall (fun tx => CheckTransactionSanity MaxAmount tx params = Ok tt) txs -> fresh V txs.
Proof.
  intros [Hz Hnew] Hnd Hin Hs. rewrite Forall_forall in Hnew. split_and!; try done.
  - apply Forall_forall. intros tx Htx. split; [by rewrite Forall_forall in Hs; apply Hs|apply (Hnew tx); auto].
  - intros tx i Htx. apply (Hnew tx); auto.
  - intros (tx & E & Htx)%list_elem_of_fmap. destruct (Hnew tx) as (_ & Hne & _); auto.
Qed.

Lemma fresh_keeps V V' txs : fresh V txs -> (forall h, h = zeroHash \/ h ∈ txHash <$> txs -> keeps h V V') -> fresh V' txs.
Proof.
  intros (Hs & Hnd & Hn & Hz & Hzn) Hk. split_and!; try done.
  - intros tx i Htx. apply (kp_spent _ _ _ (Hk (txHash tx) (or_intror (list_elem_of_fmap_2 txHash _ _ Htx)))). by apply Hn.
  - by apply (kp_absent _ _ _ (Hk zeroHash (or_introl eq_refl))).
Qed.

Lemma votes_minted kh votes : 1 < kh < 2 ^ 63 -> 0 <= votes <= TicketsPerBlock params ->
  0 <= votes * voteSubsidyAt (i64 (kh - 1)) /\
  TotalSubsidyProportions params * (votes * voteSubsidyAt (i64 (kh - 1))) <= blockSubsidy params (kh - 1) * StakeRewardProportion params.
Proof.
  intros Hk Hv. rewrite i64_small by (unfold is_i64; lia).
  assert (Hc : cache_ok params ∅) by (intros i v Hi; by rewrite lookup_empty in Hi).
  destruct (vote_bound params Hparams ∅ (kh - 1) Hc ltac:(lia)) as [H0 H1].
  destruct (CalcStakeVoteSubsidy_spec params ∅ (kh - 1) Hc) as [E _]. rewrite E in *.
  pose proof (proportions_exact params Hparams) as HP. destruct Hparams as (_ & _ & _ & _ & _ & _ & P7 & P8 & P9 & P10 & _).
  split; [nia|]. etransitivity; [|exact H1]. apply Z.mul_le_mono_nonneg_l; [lia|]. apply Z.mul_le_mono_nonneg_r; lia.
Qed.

(** C2: a key block creates at most its subsidy.  Let a block that passes checkBlockSanity be
    a key block of a key height above 1 whose transactions are new to the view, and let its
    trees be checked and connected one after the other with the calls of checkConnectBlock
    that check and connect transactions: the stake tree, the fees of the stake tree, and the
    regular tree with these fees; the fees of the block and those that are due are taken to
    stay within the range in which the arithmetic of the code is exact.  Of the fees of a block the coinbases of the same block may
    take six tenths, those of the next block three and those of the next key block one;
    [due] is what earlier blocks have left to pay, in tenths.  The value of all unspent
    outputs, with what is due, grows by at most the work and tax shares of the block's
    subsidy and the vote share of the subsidy at the key height before, whatever the
    transactions are. *)
Theorem key_block_mints HashH blockHash adjustedTime block spent revoked votes prevNode height khc V c stxos st1 s1 f s2 st2 s3 due :
  let node := linkNode (newBlockNode blockHash block spent revoked votes) prevNode height in
  let header := Header block in
  2 * MaxAmount < 2 ^ 63 -> cache_ok params c -> 1 < n_keyHeight node < 2 ^ 63 -> 0 <= h_Voters header ->
  checkBlockSanity HashH blockHash txHash MaxAmount adjustedTime params block (blockHash header) false = Ok tt ->
  n_isKeyBlock node = true -> newBlock V block -> n_hash node <> zeroHash -> index !! n_hash node = None ->
  owes index (h_PrevKeyBlock header) (n_hash prevNode) due -> small due -> small (n_totalFees node) ->
  checkTransactionsAndConnect khc 0 node (STransactions block) stxos false false (V, c) = Ok (st1, s1) ->
  getStakeTreeFees (n_keyHeight node) (STransactions block) s1 = Ok (f, s2) ->
  checkTransactionsAndConnect khc f node (Transactions block) st1 true false s2 = Ok (st2, s3) ->
  exists minted due', 0 <= minted /\
    TotalSubsidyProportions params * minted <=
      blockSubsidy params (n_keyHeight node) * (WorkRewardProportion params + BlockTaxProportion params) +
      blockSubsidy params (n_keyHeight node - 1) * StakeRewardProportion params /\
    owes (<[n_hash node := node]> index) (n_hash node) (n_hash node) due' /\
    10 * viewValue s3.1 + due' <= 10 * viewValue V + due + 10 * minted.
Proof.
  intros node header H2 Hc Hkh Hv0 Hsane Hkey Hnew Hz Hni Hdue Hsd HsF H1 Hf H3.
  apply checkBlockSanity_Ok in Hsane. change (meetsTarget _ _) with (n_isKeyBlock node) in Hsane. pose proof Hsane as Hsb.
  destruct Hsb as [_ Hreg Hdist Hst]. destruct (Hst Hkey) as (Hss & Hvotes & Hmax). rewrite fmap_app in Hdist.
  apply NoDup_app in Hdist as (Hd1 & Hdis & Hd2).
  assert (Hfs : fresh V (STransactions block)).
  { apply (newBlock_fresh V block); [done..|set_solver|]. eapply Forall_impl; [exact Hss|by intros ? [? _] ]. }
  assert (Hft : fresh V (Transactions block)).
  { apply (newBlock_fresh V block); [done..|set_solver|]. eapply Forall_impl; [exact Hreg|by intros ? [? _] ]. }
  destruct (stake_tree_value _ _ _ _ _ _ _ _ _ _ _ Hc Hkey Hfs H1 Hf) as (V1 & c1 & _ & -> & Hc1 & Hk1 & Hif & Hval).
  apply (regular_tree_value _ _ _ _ _ _ _ _ _ _ _ _ _ _ due) in H3
    as (V' & c' & minted & due' & -> & _ & Hm & Hsub & Hdue' & Hfin); try done; fold node header; try lia.
  - fold node in Hsub, Hdue', Hfin. rewrite Hkey in *. fold header in Hvotes, Hmax.
    destruct (votes_minted (n_keyHeight node) (votesIn (STransactions block)) Hkh ltac:(lia)) as [Hvm Hvs].
    exists (minted + votesIn (STransactions block) * voteSubsidyAt (i64 (n_keyHeight node - 1))), due'.
    split_and!; [lia|lia|done|]. cbn [fst]. lia.
  - apply (fresh_keeps V); [done|]. intros h [->|Hh]; apply Hk1; [apply Hfs|]. intros Hh'. by apply (Hdis h).
  - by rewrite Hkey.
Qed.


(** ** The search for the fees of earlier blocks ends *)

(** Parents are lower than their children. *)
Definition ordered (idx : gmap bytes blockNode) : Prop := forall h n, idx !! h = Some n ->
  0 <= n_height n /\ forall p m, n_parent n = Some p -> idx !! p = Some m -> n_height m < n_height n.

Lemma extraFeesFrom_ends idx prevKey : ordered idx -> forall fuel h acc, (0 < fuel)%nat ->
  (h <> zeroHash -> forall n, idx !! h = Some n -> (S (Z.to_nat (n_height n)) < fuel)%nat) -> extraFeesFrom fuel idx prevKey h acc <> Err StillRunning.
Proof.
  intros Ho. induction fuel as [|fuel IH]; intros h acc Hf Hh; [lia|]. cbn [extraFeesFrom]. case_bool_decide; [done|].
  unfold GetTotalFeesByHash, GetPrevHashByHash. rewrite !(bool_decide_eq_false_2 (h = zeroHash)) by done.
  destruct (idx !! h) as [n|] eqn:E; [|done]. cbn [mbind res_bind]. case_bool_decide; [done|]. specialize (Hh ltac:(done) n eq_refl). apply IH; [lia|].
  intros Hz m Hm. destruct (n_parent n) as [p|] eqn:Ep; cbn in Hz, Hm; [|done].
  destruct (Ho h n E) as [Hn Hpar]. pose proof (Hpar p m Ep Hm). destruct (Ho p m Hm). lia.
Qed.

Lemma extraFeesOf_ends idx node parent : ordered idx -> 0 <= n_height node ->
  (forall n, idx !! parent = Some n -> n_height n < n_height node) -> extraFeesOf idx node parent <> Err StillRunning.
Proof.
  intros Ho H0 Hp. apply extraFeesFrom_ends; [done|lia|]. intros _ n Hn. destruct (Ho parent n Hn). specialize (Hp n Hn). lia.
Qed.

End facts.

Module Sample.

Import ScriptBuild.Sample.
Import UtxoView.Sample.

Definition params : ChainParams := MkChainParams mainNetNumbers 1000 [0; 0] 256 16 16 1 (2 ^ 255) 0 1000 0.
Definition keyHeights : gmap Z Z := {[4 := 4]}.
Definition HashH (_ : bytes) : bytes := zeroHash.
Definition hashOf (n : Z) (_ : BlockHeader) : bytes := n :: replicate 31 0.

(** A coinbase with the given outputs. *)
Definition reward (lockTime valueIn : Z) (outs : list TxOut) : MsgTx :=
  MkMsgTx None TxSerializeFull 1
    [MkTxIn (MkOutPoint zeroHash MaxUint32 TxTreeRegular) MaxUint32 valueIn 0 NullBlockIndex [0; 0]] outs lockTime 0.

Definition headerOf (voteBits voters bits keyHeight : Z) : BlockHeader :=
  MkHeader 1 [7] [7] zeroHash zeroHash voteBits [] voters 0 0 0 bits 0 9 keyHeight 1000 0 0 [] 0.

(** The parent is a key block with fees of 10. *)
Definition parent : blockNode := MkNode None [7] 8 8 10 0 (headerOf 1 0 0 8) [] [] [] true.
Definition index : gmap bytes blockNode := {[[7] := parent]}.

(** The coinbases take the subsidies, 3 of the fee of 5 and 4 of the parent's fees. *)
Definition keyBlock : MsgBlock :=
  MkBlock (headerOf 1 0 545259519 9)
    [reward 100 2750000000 [MkTxOut 500000000 0 sample_p2pkh]; reward 99 0 [MkTxOut 2250000007 0 sample_p2pkh]; first] [].

Definition node (hash : Z) (block : MsgBlock) : blockNode := linkNode (newBlockNode (hashOf hash) block [] [] []) parent 9.

Definition sane (hash : Z) (block : MsgBlock) : res checkError unit :=
  checkBlockSanity HashH (hashOf hash) txHash (2 ^ 60) 0 params block (hashOf hash (Header block)) false.

Definition connect (tree : bool) (fees hash : Z) (block : MsgBlock) (stxos : option (list spentTxOut))
    (s : UtxoViewpoint * gmap Z Z) :=
  checkTransactionsAndConnect SampleKeys.ParsePubKey key txHash (2 ^ 60) (fun _ => None) ChainState.Sample.empty_meta params index
    keyHeights fees (node hash block) (if tree then Transactions block else STransactions block) stxos tree false s.

(** A micro block with fees of 5, the voters that its header claims and what its coinbase pays. *)
Definition microBlock (voters pay : Z) : MsgBlock :=
  MkBlock (headerOf 1 voters 0x03000010 511) [reward 100 0 [MkTxOut 0 0 (replicate 40 0); MkTxOut pay 0 sample_p2pkh]; first] [].

Definition valueAfter {A} (r : res checkError (A * (UtxoViewpoint * gmap Z Z))) : option Z :=
  match r with Ok (_, s) => Some (viewValue s.1) | _ => None end.

(** Nothing bounds the voters that a micro block claims, and the fees that its coinbase may
    take grow with them: out of fees of 5 and 10 it takes 78642. *)
Lemma micro_voters_inflate : sane 20 (microBlock 65535 78642) = Ok tt /\
  n_isKeyBlock (node 20 (microBlock 65535 78642)) = false /\ viewValue view = 157 /\
  valueAfter (connect true 0 20 (microBlock 65535 78642) None (view, ∅)) = Some (157 - 5 + 78642).
Proof. split_and!; vm_compute; reflexivity. Qed.

(** A micro block with a transaction in its stake tree that names an output twice. *)
Definition twice : MsgTx :=
  MkMsgTx None TxSerializeFull 1 [spends [1] 0 50; spends [1] 0 50] [MkTxOut 95 0 sample_p2pkh] 103 0.
Definition doubleBlock : MsgBlock :=
  MkBlock (headerOf 1 0 0x03000010 9) [reward 100 0 [MkTxOut 0 0 (replicate 40 0); MkTxOut 0 0 sample_p2pkh]] [twice].

(** The stake tree of a micro block is connected without CheckTransactionSanity, which
    would refuse the transaction: it turns an output of 50 into one of 95. *)
Lemma micro_stake_tree_inflates :
  CheckTransactionSanity (2 ^ 60) twice params = Err (RuleError ErrDuplicateTxInputs) /\
  sane 20 doubleBlock = Ok tt /\ valueAfter (connect false 0 20 doubleBlock None (view, ∅)) = Some (157 - 50 + 95).
Proof. split_and!; vm_compute; reflexivity. Qed.


Lemma cache_empty : cache_ok params ∅.
Proof. intros i v Hi. by rewrite lookup_empty in Hi. Qed.

Lemma sample_owes : owes index [7] [7] 40.
Proof. exists 10, 10. split_and!; try done. apply (extra_key index [7] parent); done. Qed.

Lemma view_new (block : MsgBlock) :
  forallb (fun tx => (Z.of_nat (length (tx_TxOut tx)) <? 2 ^ 32) && bool_decide (txHash tx <> zeroHash) &&
    bool_decide (LookupEntry view (txHash tx) = None)) (Transactions block ++ STransactions block) = true -> newBlock txHash view block.
Proof.
  intros Hb. split; [vm_compute; reflexivity|]. apply Forall_forall. intros tx Htx%list_elem_of_In.
  rewrite forallb_forall in Hb. specialize (Hb tx Htx). apply andb_true_iff in Hb as [[Hl%Z.ltb_lt Hh%bool_decide_eq_true_1]%andb_true_iff Hn%bool_decide_eq_true_1].
  split_and!; [done|done|]. intros i. unfold unspent. by rewrite Hn.
Qed.

(** The block takes all that it may: the bound is reached. *)
Lemma key_block_mints_witness : exists st s, connect true 0 1 keyBlock None (view, ∅) = Ok (st, s) /\
  10 * viewValue s.1 + 4 * 5 = 10 * 157 + 40 + 10 * 2750000000 /\
  exists minted due', 10 * viewValue s.1 + due' <= 10 * viewValue view + 40 + 10 * minted /\
    100 * minted <= blockSubsidy params 9 * 55 + blockSubsidy params 8 * 45.
Proof.
  destruct (connect true 0 1 keyBlock None (view, ∅)) as [[st s]| |] eqn:E; [|exfalso; vm_compute in E; discriminate E..].
  exists st, s. split; [reflexivity|].
  split; [assert (Ev : valueAfter (connect true 0 1 keyBlock None (view, ∅)) = Some 2750000159) by (vm_compute; reflexivity);
    rewrite E in Ev; injection Ev as ->; reflexivity|].
  destruct (key_block_mints SampleKeys.ParsePubKey key txHash (2 ^ 60) (fun _ => None) ChainState.Sample.empty_meta params index
    ltac:(lia) mainNetNumbers_ok HashH (hashOf 1) 0 keyBlock [] [] [] parent 9 keyHeights view ∅ None None (view, ∅) 0 (view, ∅) st s 40)
    as (minted & due' & _ & Hm & _ & Hv).
  - lia.
  - exact cache_empty.
  - vm_compute. split; reflexivity.
  - vm_compute. discriminate.
  - vm_compute. reflexivity.
  - vm_compute. reflexivity.
  - apply view_new. vm_compute. reflexivity.
  - vm_compute. discriminate.
  - vm_compute. reflexivity.
  - exact sample_owes.
  - split; [lia|]. vm_compute. reflexivity.
  - split; [vm_compute; discriminate|]. vm_compute. reflexivity.
  - vm_compute. reflexivity.
  - vm_compute. reflexivity.
  - exact E.
  - exists minted, due'. split; [exact Hv|exact Hm].
Defined.


End Sample.
