(* ===== verification/StakeVersion.v ===== *)
(** * Stake versions

    [blockchain/stakeversion.go]: the version of votes and headers that a majority of the
    previous interval has, with the caches that [BlockChain] keeps of them.  An error
    leaves what was cached before it, so that the computations are functions from the
    caches to an outcome and the caches.  The order in which Go iterates over a map is the
    parameter [order]. *)

From S2P Require Import Prelude WireCommon StakeTx Compact MsgBlock Subsidy BlockTree.
From stdpp Require Import gmap list.
#[local] Open Scope Z_scope.

Record VersionParams := MkVersionParams {
  vp_subsidy :> Subsidy.Params;
  StakeVersionInterval : Z;
  StakeMajorityMultiplier : Z;
  StakeMajorityDivisor : Z;
  BlockRejectNumRequired : Z;
  BlockUpgradeNumToCheck : Z;
  RuleChangeActivationQuorum : Z;
  RuleChangeActivationMultiplier : Z;
  RuleChangeActivationDivisor : Z;
  RuleChangeActivationInterval : Z
}.

Record versionCaches := MkCaches {
  isVoterMajorityVersionCache : gmap bytes bool;
  isStakeMajorityVersionCache : gmap bytes bool;
  calcPriorStakeVersionCache : gmap bytes Z;
  calcVoterVersionIntervalCache : gmap bytes Z;
  calcStakeVersionCache : gmap bytes Z
}.

Definition noCaches : versionCaches := MkCaches ∅ ∅ ∅ ∅ ∅.

(** A computation whose state survives errors. *)
Definition cM (S A : Type) : Type := S -> res treeError A * S.

#[export] Instance cM_ret {S} : MRet (cM S) := fun A a s => (Ok a, s).
#[export] Instance cM_bind {S} : MBind (cM S) := fun A B k m s =>
  match m s with
  | (Ok a, s') => k a s'
  | (Err e, s') => (Err e, s')
  | (Panic, s') => (Panic, s')
  end.

Definition outcome {S A} (r : res treeError A) : cM S A := fun s => (r, s).

(** [if err != nil] with a result in its place. *)
Definition or_else {S A B} (r : res treeError A) (onError : cM S B) (k : A -> cM S B) : cM S B :=
  match r with
  | Ok a => k a
  | Err StillWalking => outcome (Err StillWalking)
  | Err _ => onError
  | Panic => outcome Panic
  end.

(** An error that is ignored leaves no node, which is dereferenced. *)
Definition ignoring {A} (r : res treeError (option A)) : res treeError (option A) :=
  match r with
  | Err StillWalking => Err StillWalking
  | Err _ => Ok None
  | _ => r
  end.

Definition unchecked {A} (r : res treeError (option A)) : res treeError A := found ← ignoring r; or_panic found.

(** The outcome of a computation as a value. *)
Definition attempt {S A} (m : cM S A) : cM S (res treeError A) := fun s =>
  match m s with
  | (Err StillWalking, s') => (Err StillWalking, s')
  | (Panic, s') => (Panic, s')
  | (r, s') => (Ok r, s')
  end.

(** A result looked up in a cache, or computed and put there. *)
Definition cached {S V} (get : S -> gmap bytes V) (put : bytes -> V -> S -> S) (key : bytes) (m : cM S V) : cM S V := fun s =>
  match get s !! key with
  | Some result => (Ok result, s)
  | None => match m s with
            | (Ok result, s') => (Ok result, put key result s')
            | other => other
            end
  end.

Definition putVoterMajority (key : bytes) (result : bool) (s : versionCaches) : versionCaches :=
  MkCaches (<[key := result]> (isVoterMajorityVersionCache s)) (isStakeMajorityVersionCache s)
    (calcPriorStakeVersionCache s) (calcVoterVersionIntervalCache s) (calcStakeVersionCache s).

Definition putStakeMajority (key : bytes) (result : bool) (s : versionCaches) : versionCaches :=
  MkCaches (isVoterMajorityVersionCache s) (<[key := result]> (isStakeMajorityVersionCache s))
    (calcPriorStakeVersionCache s) (calcVoterVersionIntervalCache s) (calcStakeVersionCache s).

Definition putPriorVersion (key : bytes) (version : Z) (s : versionCaches) : versionCaches :=
  MkCaches (isVoterMajorityVersionCache s) (isStakeMajorityVersionCache s)
    (<[key := version]> (calcPriorStakeVersionCache s)) (calcVoterVersionIntervalCache s) (calcStakeVersionCache s).

Definition putVoterVersion (key : bytes) (version : Z) (s : versionCaches) : versionCaches :=
  MkCaches (isVoterMajorityVersionCache s) (isStakeMajorityVersionCache s)
    (calcPriorStakeVersionCache s) (<[key := version]> (calcVoterVersionIntervalCache s)) (calcStakeVersionCache s).

Definition putStakeVersion (key : bytes) (version : Z) (s : versionCaches) : versionCaches :=
  MkCaches (isVoterMajorityVersionCache s) (isStakeMajorityVersionCache s)
    (calcPriorStakeVersionCache s) (calcVoterVersionIntervalCache s) (<[key := version]> (calcStakeVersionCache s)).

Definition stakeMajorityCacheVersionKey (version : Z) (hash : bytes) : bytes := put_le 4 version ++ hash.

(** The last height of the interval before the one of [height]. *)
Definition calcWantHeight (stakeValidationHeight interval height : Z) : Z :=
  let intervalOffset := go_rem stakeValidationHeight interval in
  let adjustedHeight := i64 (i64 (height - intervalOffset) - 1) in
  i64 (i64 (adjustedHeight - go_rem (i64 (adjustedHeight + 1)) interval) + intervalOffset).

Section versions.
Context (GenesisHash : bytes) (index : gmap bytes blockNode) (params : VersionParams) (order : gmap Z Z -> list (Z * Z)).

#[local] Notation M := (cM versionCaches).
#[local] Notation getPrevKeyNodeFromNode := (getPrevKeyNodeFromNode GenesisHash index).
#[local] Notation isMajorityVersion := (isMajorityVersion GenesisHash index (BlockUpgradeNumToCheck params)).

(** Back along the key blocks until the key height is at most [bound]. *)
Fixpoint walkBelow (fuel : nat) (iterNode : blockNode) (bound : Z) : res treeError blockNode :=
  match fuel with
  | O => Err StillWalking
  | S fuel =>
    if n_keyHeight iterNode >? bound then
      prev ← getPrevKeyNodeFromNode iterNode;
      next ← or_panic prev;
      walkBelow fuel next bound
    else Ok iterNode
  end.

Definition uncheckedKeyNode (node : blockNode) : res treeError blockNode :=
  if n_isKeyBlock node then Ok node else unchecked (getPrevKeyNodeFromNode node).

Definition findStakeVersionPriorNode (prevNode : blockNode) : res treeError (option blockNode) :=
  prevNode ← uncheckedKeyNode prevNode;
  let nextHeight := i64 (n_keyHeight prevNode + 2) in
  if nextHeight <? i64 (StakeValidationHeight params + StakeVersionInterval params) then Ok None
  else
    let wantHeight := calcWantHeight (StakeValidationHeight params) (StakeVersionInterval params) nextHeight in
    node ← walkBelow (walkFuel prevNode) prevNode (i64 (wantHeight - 1));
    Ok (Some node).

(** A fold over the nodes of an interval, back along the key blocks. *)
Fixpoint overInterval {A} (n : nat) (f : A -> blockNode -> A) (acc : A) (iterNode : option blockNode) : res treeError A :=
  match n, iterNode with
  | S n, Some node => prev ← getPrevKeyNodeFromNode node; overInterval n f (f acc node) prev
  | _, _ => Ok acc
  end.

Definition interval : nat := Z.to_nat (StakeVersionInterval params).

(** The number of votes and of those with at least the version. *)
Definition voterMajority (minVer : Z) (node : blockNode) : res treeError bool :=
  counts ← overInterval interval (fun (acc : Z * Z) n =>
    (i32 (acc.1 + i32 (Z.of_nat (length (n_votes n)))),
     foldl (fun c v => if vv_Version v >=? minVer then i32 (c + 1) else c) acc.2 (n_votes n))) (0, 0) (Some node);
  let numRequired := go_quot (i32 (counts.1 * StakeMajorityMultiplier params)) (StakeMajorityDivisor params) in
  Ok (counts.2 >=? numRequired).

(** An error is not cached. *)
Definition isVoterMajorityVersion (minVer : Z) (prevNode : blockNode) : M bool :=
  or_else (findStakeVersionPriorNode prevNode) (mret false) (fun found =>
    match found with
    | None => mret (0 >=? minVer)
    | Some node =>
      r ← attempt (cached isVoterMajorityVersionCache putVoterMajority (stakeMajorityCacheVersionKey minVer (n_hash node))
                     (outcome (voterMajority minVer node)));
      mret (match r with Ok result => result | _ => false end)
    end).

Definition stakeMajority (minVer : Z) (node : blockNode) : res treeError bool :=
  versionCount ← overInterval interval (fun c n => if h_StakeVersion (n_header n) >=? minVer then i32 (c + 1) else c) 0 (Some node);
  let numRequired := go_quot (i32 (i32 (StakeVersionInterval params) * StakeMajorityMultiplier params)) (StakeMajorityDivisor params) in
  Ok (versionCount >=? numRequired).

(** An error is cached as false. *)
Definition isStakeMajorityVersion (minVer : Z) (prevNode : blockNode) : M bool :=
  or_else (findStakeVersionPriorNode prevNode) (mret false) (fun found =>
    match found with
    | None => mret (0 >=? minVer)
    | Some node =>
      cached isStakeMajorityVersionCache putStakeMajority (stakeMajorityCacheVersionKey minVer (n_hash node))
        (or_else (stakeMajority minVer node) (mret false) mret)
    end).

Definition count1 (versions : gmap Z Z) (version : Z) : gmap Z Z := <[version := i32 (default 0 (versions !! version) + 1)]> versions.

(** The first version in the order of the map that has the required count. *)
Definition majorityOf (versions : gmap Z Z) (numRequired : Z) : option Z :=
  fst <$> find (fun vc : Z * Z => vc.2 >=? numRequired) (order versions).

Definition priorStakeVersion (node : blockNode) : res treeError Z :=
  versions ← overInterval interval (fun versions n => count1 versions (h_StakeVersion (n_header n))) ∅ (Some node);
  let numRequired := go_quot (i32 (i32 (StakeVersionInterval params) * StakeMajorityMultiplier params)) (StakeMajorityDivisor params) in
  match majorityOf versions numRequired with Some version => Ok version | None => Err ErrStakeMajority end.

Definition calcPriorStakeVersion (prevNode : blockNode) : M Z :=
  found ← outcome (findStakeVersionPriorNode prevNode);
  match found with
  | None => mret 0
  | Some node => cached calcPriorStakeVersionCache putPriorVersion (n_hash node) (outcome (priorStakeVersion node))
  end.

Definition voterVersionInterval (prevNode : blockNode) : res treeError Z :=
  iterNode ← (if n_isKeyBlock prevNode then Ok (Some prevNode) else ignoring (getPrevKeyNodeFromNode prevNode));
  counts ← overInterval interval (fun (acc : gmap Z Z * Z) n =>
    (foldl (fun versions v => count1 versions (vv_Version v)) acc.1 (n_votes n),
     i32 (acc.2 + i32 (Z.of_nat (length (n_votes n)))))) (∅, 0) iterNode;
  let '(versions, totalVotesFound) := counts in
  _ ← guard_err (totalVotesFound <? i64 (StakeVersionInterval params * (TicketsPerBlock params / 2 + 1))) AssertTree;
  let numRequired := go_quot (i32 (totalVotesFound * StakeMajorityMultiplier params)) (StakeMajorityDivisor params) in
  match majorityOf versions numRequired with Some version => Ok version | None => Err ErrVoterMajority end.

Definition calcVoterVersionInterval (prevNode : blockNode) : M Z :=
  cached calcVoterVersionIntervalCache putVoterVersion (n_hash prevNode) (outcome (voterVersionInterval prevNode)).

(** Back over the intervals until one has a majority. *)
Fixpoint searchVoterVersion (fuel : nat) (iterNode : option blockNode) : M (Z * option blockNode) :=
  match fuel, iterNode with
  | O, _ => outcome (Err StillWalking)
  | S _, None => mret (0, None)
  | S fuel, Some node =>
    r ← attempt (calcVoterVersionInterval node);
    match r with
    | Ok version => mret (version, Some node)
    | Err ErrVoterMajority =>
      or_else (getPrevKeyNodeFromNode node) (mret (0, None)) (fun prev =>
        prev ← outcome (or_panic prev);
        or_else (findStakeVersionPriorNode prev) (mret (0, None)) (searchVoterVersion fuel))
    | _ => mret (0, None)
    end
  end.

Definition calcVoterVersion (prevNode : blockNode) : M (Z * option blockNode) :=
  prevNode ← outcome (uncheckedKeyNode prevNode);
  or_else (findStakeVersionPriorNode prevNode) (mret (0, None)) (searchVoterVersion (walkFuel prevNode)).

(** The start of the interval of the node; [None] when it is not found. *)
Fixpoint walkToStart (fuel : nat) (iterNode : blockNode) (bound : Z) : res treeError (option blockNode) :=
  match fuel with
  | O => Err StillWalking
  | S fuel =>
    if n_keyHeight iterNode >? bound then
      prev ← ignoring (getPrevKeyNodeFromNode iterNode);
      match prev with None => Ok None | Some next => walkToStart fuel next bound end
    else Ok (Some iterNode)
  end.

(** The version for the interval node at which the votes have a majority for [version]. *)
Definition enforcedVersion (version : Z) (node : blockNode) : M Z :=
  let startIntervalHeight :=
    i64 (calcWantHeight (StakeValidationHeight params) (StakeVersionInterval params) (i64 (n_keyHeight node + 1)) + 1) in
  start ← outcome (walkToStart (walkFuel node) node (i64 (startIntervalHeight - 1)));
  match start with
  | None => mret 0
  | Some iterNode =>
    enforcing ← outcome (isMajorityVersion 3 iterNode (BlockRejectNumRequired params));
    if negb enforcing then mret 0
    else
      majority ← isStakeMajorityVersion version node;
      if majority : bool then
        prior ← attempt (calcPriorStakeVersion node);
        let priorVersion := match prior with Ok v => v | _ => 0 end in
        mret (if version <=? priorVersion then priorVersion else version)
      else mret version
  end.

Definition calcStakeVersion (prevNode : blockNode) : M Z :=
  if n_height prevNode <=? 1 then mret 0
  else
    prevNode ← outcome (uncheckedKeyNode prevNode);
    found ← calcVoterVersion prevNode;
    match found with
    | (version, Some node) =>
      if version =? 0 then mret 0
      else cached calcStakeVersionCache putStakeVersion (n_hash node) (enforcedVersion version node)
    | (_, None) => mret 0
    end.

End versions.

(** ** Agreement *)

(** The parameters of the networks: three quarters of an interval, whose votes do not overflow. *)
Record versionParamsOk (params : VersionParams) : Prop := {
  vp_interval : 3 <= StakeVersionInterval params;
  vp_multiplier : StakeMajorityMultiplier params = 3;
  vp_divisor : StakeMajorityDivisor params = 4;
  vp_tickets : 0 <= TicketsPerBlock params;
  vp_size : StakeVersionInterval params * (TicketsPerBlock params + 1) * 3 < 2 ^ 31
}.

(** The index of a tree: nodes are found under their hash and with their previous key block, which is lower, and they
    have at most the votes of a block, with 32 bit versions. *)
Record treeIndex (GenesisHash : bytes) (params : VersionParams) (index : gmap bytes blockNode) : Prop := {
  ti_hash : forall hash node, index !! hash = Some node -> n_hash node = hash;
  ti_closed : forall hash node, index !! hash = Some node ->
    n_hash node = GenesisHash \/ h_PrevKeyBlock (n_header node) = zeroHash \/ is_Some (index !! h_PrevKeyBlock (n_header node));
  ti_height : forall hash node, index !! hash = Some node -> 0 <= n_height node /\
    forall prev, n_hash node <> GenesisHash -> h_PrevKeyBlock (n_header node) <> zeroHash ->
      index !! h_PrevKeyBlock (n_header node) = Some prev -> n_height prev < n_height node;
  ti_versions : forall hash node, index !! hash = Some node -> Forall (fun v => 0 <= vv_Version v < 2 ^ 32) (n_votes node);
  ti_votes : forall hash node, index !! hash = Some node -> Z.of_nat (length (n_votes node)) <= TicketsPerBlock params
}.

Definition known (index : gmap bytes blockNode) (node : blockNode) : Prop := index !! n_hash node = Some node.

(** The result without anything cached. *)
Definition uncached {A} (m : cM versionCaches A) : res treeError A := (m noCaches).1.

Lemma majority_key_inj v v' h h' : 0 <= v < 2 ^ 32 -> 0 <= v' < 2 ^ 32 ->
  stakeMajorityCacheVersionKey v h = stakeMajorityCacheVersionKey v' h' -> v = v' /\ h = h'.
Proof.
  intros ?? [E1 E2]%app_inj_1; [|by rewrite !length_put_le]. split; [|done].
  apply (f_equal get_le) in E1. rewrite !get_put_le in E1. change (256 ^ Z.of_nat 4) with (2 ^ 32) in E1.
  by rewrite !Z.mod_small in E1.
Qed.

Lemma cM_bind_Ok {S A B} (m : cM S A) (k : A -> cM S B) s b : ((m ≫= k) s).1 = Ok b ->
  exists a s', m s = (Ok a, s') /\ (k a s').1 = Ok b.
Proof. unfold mbind, cM_bind. destruct (m s) as [[a|e|] s']; simpl; [eauto|done..]. Qed.

Lemma attempt_Ok {S A} (m : cM S A) s r s' : attempt m s = (Ok r, s') -> m s = (r, s').
Proof. unfold attempt. destruct (m s) as [[a|[]|] t]; intros; by simplify_eq. Qed.

(** *** Two computations that agree *)

Section agreement.
Context (ok1 ok2 : versionCaches -> Prop) (ok1_none : ok1 noCaches) (ok2_none : ok2 noCaches).

(** The outcomes are the same whatever is cached, and the caches stay as they should be. *)
Definition agree {A} (m1 m2 : cM versionCaches A) : Prop :=
  forall s1 s2, ok1 s1 -> ok2 s2 -> (m1 s1).1 = (m2 s2).1 /\ ok1 (m1 s1).2 /\ ok2 (m2 s2).2.

Lemma agree_uncached {A} (m1 m2 : cM versionCaches A) : agree m1 m2 -> uncached m1 = uncached m2.
Proof. intros H. by apply H. Qed.

Lemma agree_outcome {A} (r : res treeError A) : agree (outcome r) (outcome r).
Proof. by intros s1 s2 H1 H2. Qed.

Lemma agree_ret {A} (a : A) : agree (mret a) (mret a).
Proof. by intros s1 s2 H1 H2. Qed.

Lemma agree_bind {A B} (m1 m2 : cM versionCaches A) (k1 k2 : A -> cM versionCaches B) :
  agree m1 m2 -> (forall a, uncached m1 = Ok a -> agree (k1 a) (k2 a)) -> agree (m1 ≫= k1) (m2 ≫= k2).
Proof.
  intros Hm Hk s1 s2 H1 H2. destruct (Hm s1 s2 H1 H2) as (E&K1&K2), (Hm s1 noCaches H1 ok2_none) as (E1&_),
    (Hm noCaches noCaches ok1_none ok2_none) as (E2&_).
  unfold uncached in *. unfold mbind, cM_bind.
  destruct (m1 s1) as [r t1], (m2 s2) as [r' t2]; simpl in *; subst r'.
  destruct r as [a|e|]; [|done..]. apply (Hk a); [congruence|done..].
Qed.

Lemma agree_attempt {A} (m1 m2 : cM versionCaches A) : agree m1 m2 -> agree (attempt m1) (attempt m2).
Proof.
  intros Hm s1 s2 H1 H2. destruct (Hm s1 s2 H1 H2) as (E&K1&K2). unfold attempt.
  destruct (m1 s1) as [[?|[]|] ?], (m2 s2) as [[?|[]|] ?]; simpl in *; simplify_eq; done.
Qed.

Lemma agree_or_else {A B} (r : res treeError A) (d1 d2 : cM versionCaches B) k1 k2 :
  agree d1 d2 -> (forall a, r = Ok a -> agree (k1 a) (k2 a)) -> agree (or_else r d1 k1) (or_else r d2 k2).
Proof. intros Hd Hk. destruct r as [a|[]|]; simpl; auto using agree_outcome. Qed.

Lemma agree_cached {V} (get : versionCaches -> gmap bytes V) put key (m1 m2 : cM versionCaches V) :
  agree m1 m2 ->
  (forall s v, ok1 s -> get s !! key = Some v -> uncached m1 = Ok v) ->
  (forall s v, ok2 s -> get s !! key = Some v -> uncached m2 = Ok v) ->
  (forall s v, ok1 s -> uncached m1 = Ok v -> ok1 (put key v s)) ->
  (forall s v, ok2 s -> uncached m2 = Ok v -> ok2 (put key v s)) ->
  agree (cached get put key m1) (cached get put key m2).
Proof.
  intros Hm G1 G2 P1 P2 s1 s2 H1 H2. destruct (Hm s1 s2 H1 H2) as (E&K1&K2), (Hm s1 noCaches H1 ok2_none) as (E1&_),
    (Hm noCaches s2 ok1_none H2) as (E2&_), (Hm noCaches noCaches ok1_none ok2_none) as (E0&_).
  unfold cached. unfold uncached in *.
  destruct (get s1 !! key) as [v1|] eqn:V1; [apply G1 in V1; [|done]|];
    (destruct (get s2 !! key) as [v2|] eqn:V2; [apply G2 in V2; [|done]|]);
    destruct (m1 s1) as [r1 t1], (m2 s2) as [r2 t2]; simpl in *; subst r1.
  - split_and!; [congruence|done..].
  - rewrite V1 in E2. destruct r2; simplify_eq/=. split_and!; [done..|]. apply P2; congruence.
  - rewrite V2 in E1. destruct r2; simplify_eq/=. split_and!; [done| |done]. apply P1; congruence.
  - destruct r2; simpl; [|done..]. split_and!; [done| |]; [apply P1|apply P2]; congruence.
Qed.

End agreement.

(** *** The walks stay in the index *)

Section walks.
Context (GenesisHash : bytes) (params : VersionParams) (index : gmap bytes blockNode) (Hindex : treeIndex GenesisHash params index).

#[local] Notation getPrevKeyNodeFromNode := (getPrevKeyNodeFromNode GenesisHash index).

Lemma known_eq node node' : known index node -> known index node' -> n_hash node = n_hash node' -> node = node'.
Proof. unfold known. congruence. Qed.

Lemma known_of hash node : index !! hash = Some node -> known index node.
Proof. intros H. unfold known. by rewrite (ti_hash _ _ _ Hindex _ _ H). Qed.

Lemma prevKey_index node : known index node -> getPrevKeyNodeFromNode node =
  if bool_decide (n_hash node = GenesisHash) then Ok None
  else if bool_decide (h_PrevKeyBlock (n_header node) = zeroHash) then Ok None
  else Ok (index !! h_PrevKeyBlock (n_header node)).
Proof.
  intros Hn. unfold getPrevKeyNodeFromNode. repeat case_bool_decide; [done..|].
  destruct (ti_closed _ _ _ Hindex _ _ Hn) as [?|[?|[prev E]]]; [done..|]. by rewrite E.
Qed.

Lemma prevKey_known node r : known index node -> getPrevKeyNodeFromNode node = Ok (Some r) -> known index r.
Proof. intros Hn. rewrite prevKey_index by done. repeat case_bool_decide; intros [= E]. eauto using known_of. Qed.

Lemma ignoring_Ok {A} (r : res treeError (option A)) a : ignoring r = Ok (Some a) -> r = Ok (Some a).
Proof. destruct r as [?|[]|]; simpl; congruence. Qed.

Lemma unchecked_known node r : known index node -> uncheckedKeyNode GenesisHash index node = Ok r -> known index r.
Proof.
  intros Hn H. unfold uncheckedKeyNode, unchecked in H. case_match; inv_res; [done|].
  apply ignoring_Ok in H. eauto using prevKey_known.
Qed.

Lemma walkBelow_known fuel node bound r : known index node -> walkBelow GenesisHash index fuel node bound = Ok r -> known index r.
Proof.
  revert node. induction fuel as [|fuel IH]; intros node Hn H; [done|]. cbn [walkBelow] in H. case_match; inv_res; eauto using prevKey_known.
Qed.

Lemma prior_known node r : known index node ->
  findStakeVersionPriorNode GenesisHash index params node = Ok (Some r) -> known index r.
Proof.
  intros Hn H. unfold findStakeVersionPriorNode in H. inv_res. case_match; inv_res; simplify_eq.
  eauto using walkBelow_known, unchecked_known.
Qed.

Lemma walkToStart_known fuel node bound r : known index node ->
  walkToStart GenesisHash index fuel node bound = Ok (Some r) -> known index r.
Proof.
  revert node. induction fuel as [|fuel IH]; intros node Hn H; [done|]. cbn [walkToStart] in H.
  case_match; inv_res; simplify_eq; [|done]. case_match; inv_res; simplify_eq.
  match goal with H : ignoring _ = _ |- _ => apply ignoring_Ok in H end. eauto using prevKey_known.
Qed.

(** A property of the accumulator, in terms of the number of nodes. *)
Lemma overInterval_inv {A} (P : nat -> A -> Prop) (f : A -> blockNode -> A) n k acc node r :
  (forall k acc node, known index node -> P k acc -> P (S k) (f acc node)) -> (forall k acc, P k acc -> P (S k) acc) ->
  (forall node', node = Some node' -> known index node') ->
  P k acc -> overInterval GenesisHash index n f acc node = Ok r -> P (k + n)%nat r.
Proof.
  intros Hf Hmono. assert (forall n k acc, P k acc -> P (k + n)%nat acc) as Hadd.
  { intros n'. induction n' as [|n' IH]; intros k' acc' H; [by rewrite Nat.add_0_r|]. rewrite Nat.add_succ_r. auto. }
  revert k acc node. induction n as [|n IH]; intros k acc node Hn Hacc H; [simplify_eq/=; by rewrite Nat.add_0_r|].
  destruct node as [node|]; cbn [overInterval] in H; inv_res; [|by apply Hadd].
  rewrite Nat.add_succ_r, <- Nat.add_succ_l. eapply IH; [|by apply Hf; [apply Hn|]|done].
  intros node' ->. eauto using prevKey_known.
Qed.

End walks.

(** *** Counting versions *)

Definition countOf (versions : gmap Z Z) (version : Z) : Z := default 0 (versions !! version).

(** Counts of at most [total] things, each counted once. *)
Record tally (total : Z) (versions : gmap Z Z) : Prop := {
  tl_nonneg : forall v, 0 <= countOf versions v;
  tl_pair : forall v w, v <> w -> countOf versions v + countOf versions w <= total
}.

Lemma countOf_count1 versions v w : countOf (count1 versions v) w = if decide (v = w) then i32 (countOf versions w + 1) else countOf versions w.
Proof.
  unfold countOf, count1. destruct (decide (v = w)) as [->|Hne]; [by rewrite lookup_insert_eq|by rewrite lookup_insert_ne].
Qed.

Lemma tally_single total versions v : tally total versions -> countOf versions v <= total.
Proof.
  intros [H0 H2]. pose proof (H0 (v + 1)). assert (v <> v + 1) as Hv by lia. specialize (H2 _ _ Hv). lia.
Qed.

Lemma tally_count1 total versions v : total + 1 < 2 ^ 31 -> tally total versions -> tally (total + 1) (count1 versions v).
Proof.
  intros Ht Hv. assert (forall w, 0 <= countOf versions w <= total) as Hr by (intros w; split; [apply Hv|by apply tally_single]).
  destruct Hv as [H0 H2]. split.
  - intros w. rewrite countOf_count1. case_decide; [|apply H0]. specialize (Hr w). rewrite i32_small; unfold is_i32; lia.
  - intros w w' Hne. rewrite !countOf_count1. specialize (H2 w w' Hne). pose proof (Hr w). pose proof (Hr w').
    repeat case_decide; subst; try done; try rewrite i32_small by (unfold is_i32; lia); lia.
Qed.

Lemma tally_mono total total' versions : total <= total' -> tally total versions -> tally total' versions.
Proof. intros ? [H0 H2]. split; [done|]. intros v w Hne. specialize (H2 v w Hne). lia. Qed.

Lemma tally_votes total versions (votes : list VoteVersionTuple) :
  total + Z.of_nat (length votes) < 2 ^ 31 -> tally total versions ->
  tally (total + Z.of_nat (length votes)) (foldl (fun versions v => count1 versions (vv_Version v)) versions votes).
Proof.
  revert total versions. induction votes as [|v votes IH]; intros total versions Hl Ht; simpl in *; [by rewrite Z.add_0_r|].
  replace (total + Z.of_nat (S (length votes))) with (total + 1 + Z.of_nat (length votes)) in * by lia.
  apply IH; [done|]. apply tally_count1; [lia|done].
Qed.

Lemma tally_empty : tally 0 ∅.
Proof. by split. Qed.

Lemma count1_keys (P : Z -> Prop) versions (votes : list VoteVersionTuple) :
  (forall v, is_Some (versions !! v) -> P v) -> Forall (fun v => P (vv_Version v)) votes ->
  forall v, is_Some (foldl (fun versions v => count1 versions (vv_Version v)) versions votes !! v) -> P v.
Proof.
  intros Hv Hvotes. revert versions Hv. induction Hvotes as [|vote votes Hvote _ IH]; intros versions Hv v H; [by apply Hv|].
  simpl in H. eapply IH; [|done]. intros v' Hv'. unfold count1 in Hv'.
  destruct (decide (v' = vv_Version vote)) as [->|]; [done|]. rewrite lookup_insert_ne in Hv' by done. by apply Hv.
Qed.

(** A majority is found whatever the order of the map. *)
Lemma majorityOf_spec order versions total numRequired :
  (forall m : gmap Z Z, order m ≡ₚ map_to_list m) -> tally total versions -> total < 2 * numRequired ->
  forall v, majorityOf order versions numRequired = Some v <-> exists count, versions !! v = Some count /\ numRequired <= count.
Proof.
  intros Horder Ht Htotal v.
  assert (forall v count, (v, count) ∈ order versions <-> versions !! v = Some count) as Hin.
  { intros. by rewrite (Horder versions), elem_of_map_to_list. }
  unfold majorityOf. split.
  - intros ([v' c]&[Hl Hc]%find_some&->)%fmap_Some. exists c. rewrite <- Hin, list_elem_of_In. simpl in *. split; [done|lia].
  - intros (count&Hv&Hc). rewrite fmap_Some. destruct (find _ _) as [[v' c]|] eqn:Hf.
    + exists (v', c). split; [done|]. apply find_some in Hf as [Hl%list_elem_of_In%Hin Hc']. simpl in *.
      destruct (decide (v' = v)) as [->|Hne]; [done|]. pose proof (tl_pair _ _ Ht v' v Hne) as Hp.
      unfold countOf in Hp. rewrite Hl, Hv in Hp. simpl in Hp. lia.
    + eapply find_none in Hf; [|by apply list_elem_of_In, Hin]. simpl in Hf. lia.
Qed.

Lemma majorityOf_order order1 order2 versions total numRequired :
  (forall m : gmap Z Z, order1 m ≡ₚ map_to_list m) -> (forall m : gmap Z Z, order2 m ≡ₚ map_to_list m) ->
  tally total versions -> total < 2 * numRequired ->
  majorityOf order1 versions numRequired = majorityOf order2 versions numRequired.
Proof. intros. apply option_eq. intros v. by rewrite !majorityOf_spec. Qed.

Section counts.
Context (GenesisHash : bytes) (params : VersionParams) (index : gmap bytes blockNode).
Context (Hparams : versionParamsOk params) (Hindex : treeIndex GenesisHash params index).

Lemma interval_size : 3 <= StakeVersionInterval params /\ StakeVersionInterval params * 3 < 2 ^ 31 /\
  StakeVersionInterval params * TicketsPerBlock params * 3 < 2 ^ 31 /\ Z.of_nat (interval params) = StakeVersionInterval params.
Proof. destruct Hparams as [H1 _ _ H2 H3]. unfold interval. split_and!; nia. Qed.

(** Three quarters of [total] are more than half of it. *)
Lemma three_quarters total : 3 <= total -> total * 3 < 2 ^ 31 ->
  total < 2 * go_quot (i32 (total * StakeMajorityMultiplier params)) (StakeMajorityDivisor params).
Proof.
  intros ??. rewrite (vp_multiplier _ Hparams), (vp_divisor _ Hparams), i32_small by (unfold is_i32; lia).
  unfold go_quot. rewrite Z.quot_div_nonneg by lia. pose proof (Z.div_mod (total * 3) 4). pose proof (Z.mod_pos_bound (total * 3) 4). lia.
Qed.

Lemma header_tally node versions : known index node ->
  overInterval GenesisHash index (interval params) (fun versions n => count1 versions (h_StakeVersion (n_header n))) ∅ (Some node) = Ok versions ->
  tally (StakeVersionInterval params) versions.
Proof.
  intros Hn H. destruct interval_size as (?&?&_&Hi).
  eapply (overInterval_inv _ _ _ Hindex (fun k versions => Z.of_nat k < 2 ^ 31 -> tally (Z.of_nat k) versions)) with (k := O) in H.
  - rewrite <- Hi. by apply H.
  - intros k acc node' _ Hacc Hk. rewrite Nat2Z.inj_succ. apply tally_count1; [lia|]. apply Hacc. lia.
  - intros k acc Hacc Hk. apply (tally_mono (Z.of_nat k)); [lia|]. apply Hacc. lia.
  - by intros node' [= ->].
  - intros _. apply tally_empty.
  - simpl. lia.
Qed.

Lemma vote_tally node versions total : (forall node', node = Some node' -> known index node') ->
  overInterval GenesisHash index (interval params) (fun (acc : gmap Z Z * Z) n =>
    (foldl (fun versions v => count1 versions (vv_Version v)) acc.1 (n_votes n),
     i32 (acc.2 + i32 (Z.of_nat (length (n_votes n)))))) (∅, 0) node = Ok (versions, total) ->
  tally total versions /\ 0 <= total /\ total * 3 < 2 ^ 31 /\ forall v, is_Some (versions !! v) -> 0 <= v < 2 ^ 32.
Proof.
  intros Hn H. destruct interval_size as (?&?&?&Hi). pose proof (vp_tickets _ Hparams).
  eapply (overInterval_inv _ _ _ Hindex (fun k acc => Z.of_nat k * TicketsPerBlock params < 2 ^ 31 ->
    tally acc.2 acc.1 /\ 0 <= acc.2 <= Z.of_nat k * TicketsPerBlock params /\
    forall v, is_Some (acc.1 !! v) -> 0 <= v < 2 ^ 32)) with (k := O) in H; cbn [fst snd] in *.
  - cbn [Nat.add] in H. rewrite Hi in H. destruct H as (?&?&?). split_and!; [done|nia..|done].
  - intros k [m t] node' Hk Hacc Hsize. rewrite Nat2Z.inj_succ, Z.mul_succ_l in *.
    destruct Hacc as (Ht&Hr&Hv); [lia|]. cbn [fst snd] in *.
    pose proof (ti_votes _ _ _ Hindex _ _ Hk). rewrite !i32_small by (rewrite ?i32_small; unfold is_i32; lia).
    split_and!; [apply tally_votes; [lia|done]|lia..|].
    intros v. apply (count1_keys (fun v => 0 <= v < 2 ^ 32)); [done|]. by eapply ti_versions.
  - intros k acc Hacc Hk. rewrite Nat2Z.inj_succ, Z.mul_succ_l in *.
    destruct Hacc as (?&?&?); [lia|]. split_and!; [done|lia..|done].
  - done.
  - intros _. split_and!; [apply tally_empty|lia..|]. intros v [? Hv]. by rewrite lookup_empty in Hv.
  - cbn [Nat.add]. rewrite Hi. nia.
Qed.

End counts.

(** *** What the tree says about a node does not change when the tree grows *)

Section growth.
Context (GenesisHash : bytes) (params : VersionParams) (index index' : gmap bytes blockNode).
Context (Hindex : treeIndex GenesisHash params index) (Hgrow : index ⊆ index').

#[local] Notation kn := (known index).
#[local] Hint Resolve prevKey_known unchecked_known walkBelow_known : growth.

Lemma prevKey_grow node : kn node -> getPrevKeyNodeFromNode GenesisHash index' node = getPrevKeyNodeFromNode GenesisHash index node.
Proof.
  intros Hn. rewrite (prevKey_index GenesisHash params index Hindex node Hn). unfold getPrevKeyNodeFromNode.
  repeat case_bool_decide; [done..|]. destruct (ti_closed _ _ _ Hindex _ _ Hn) as [?|[?|[prev E]]]; [done..|].
  rewrite E. by rewrite (lookup_weaken _ _ _ _ E Hgrow).
Qed.

Lemma unchecked_grow node : kn node -> uncheckedKeyNode GenesisHash index' node = uncheckedKeyNode GenesisHash index node.
Proof. intros Hn. unfold uncheckedKeyNode. by rewrite prevKey_grow. Qed.

Lemma walkBelow_grow fuel node bound : kn node -> walkBelow GenesisHash index' fuel node bound = walkBelow GenesisHash index fuel node bound.
Proof.
  revert node. induction fuel as [|fuel IH]; intros node Hn; [done|]. cbn [walkBelow]. rewrite prevKey_grow by done.
  case_match; [|done]. destruct (getPrevKeyNodeFromNode _ _ _) as [[prev|]|e|] eqn:E; [|done..]. simpl. eauto with growth.
Qed.

Lemma walkToStart_grow fuel node bound : kn node -> walkToStart GenesisHash index' fuel node bound = walkToStart GenesisHash index fuel node bound.
Proof.
  revert node. induction fuel as [|fuel IH]; intros node Hn; [done|]. cbn [walkToStart]. rewrite prevKey_grow by done.
  case_match; [|done]. destruct (getPrevKeyNodeFromNode _ _ _) as [[prev|]|[]|] eqn:E; [|done..]. simpl. eauto with growth.
Qed.

Lemma overInterval_grow {A} n (f : A -> blockNode -> A) acc node : (forall node', node = Some node' -> kn node') ->
  overInterval GenesisHash index' n f acc node = overInterval GenesisHash index n f acc node.
Proof.
  revert acc node. induction n as [|n IH]; intros acc [node|] Hn; [done..| |done]. cbn [overInterval].
  rewrite prevKey_grow by eauto. destruct (getPrevKeyNodeFromNode _ _ _) as [prev|e|] eqn:E; [|done..]. simpl.
  apply IH. intros node' ->. eauto with growth.
Qed.

Lemma countVersions_grow n minVer numRequired numFound node : (forall node', node = Some node' -> kn node') ->
  countVersions GenesisHash index' n minVer numRequired numFound node = countVersions GenesisHash index n minVer numRequired numFound node.
Proof.
  revert numFound node. induction n as [|n IH]; intros numFound [node|] Hn; [done..| |done]. cbn [countVersions].
  rewrite prevKey_grow by eauto. case_match; [|done]. destruct (getPrevKeyNodeFromNode _ _ _) as [prev|e|] eqn:E; [|done..].
  apply IH. intros node' ->. eauto with growth.
Qed.

Lemma isMajorityVersion_grow limit minVer node numRequired : kn node ->
  isMajorityVersion GenesisHash index' limit minVer node numRequired = isMajorityVersion GenesisHash index limit minVer node numRequired.
Proof. intros Hn. unfold isMajorityVersion. rewrite countVersions_grow; [done|]. by intros ? [= <-]. Qed.

Lemma findPrior_grow node : kn node ->
  findStakeVersionPriorNode GenesisHash index' params node = findStakeVersionPriorNode GenesisHash index params node.
Proof.
  intros Hn. unfold findStakeVersionPriorNode. rewrite unchecked_grow by done.
  destruct (uncheckedKeyNode _ _ _) as [prev|e|] eqn:E; [|done..]. cbn [mbind res_bind].
  case_match; [done|]. rewrite walkBelow_grow; eauto with growth.
Qed.

Lemma voterMajority_grow minVer node : kn node ->
  voterMajority GenesisHash index' params minVer node = voterMajority GenesisHash index params minVer node.
Proof. intros Hn. unfold voterMajority. rewrite overInterval_grow; [done|]. by intros ? [= <-]. Qed.

Lemma stakeMajority_grow minVer node : kn node ->
  stakeMajority GenesisHash index' params minVer node = stakeMajority GenesisHash index params minVer node.
Proof. intros Hn. unfold stakeMajority. rewrite overInterval_grow; [done|]. by intros ? [= <-]. Qed.

Context (order order' : gmap Z Z -> list (Z * Z)) (Hparams : versionParamsOk params).
Context (Horder : forall m, order m ≡ₚ map_to_list m) (Horder' : forall m, order' m ≡ₚ map_to_list m).

Lemma priorStakeVersion_grow node : kn node ->
  priorStakeVersion GenesisHash index' params order' node = priorStakeVersion GenesisHash index params order node.
Proof.
  intros Hn. unfold priorStakeVersion. rewrite overInterval_grow by (by intros ? [= <-]).
  destruct (overInterval _ _ _ _ _ _) as [versions|e|] eqn:E; [|done..]. simpl.
  destruct (interval_size params Hparams) as (?&?&_).
  eapply header_tally in E; [|done..]. rewrite (majorityOf_order order' order _ _ _ Horder' Horder E); [done|].
  rewrite (i32_small (StakeVersionInterval params)) by (unfold is_i32; lia). by apply three_quarters.
Qed.

Lemma voterVersionInterval_grow node : kn node ->
  voterVersionInterval GenesisHash index' params order' node = voterVersionInterval GenesisHash index params order node.
Proof.
  intros Hn. unfold voterVersionInterval. rewrite prevKey_grow by done.
  destruct (if n_isKeyBlock node then _ else _) as [iter|e|] eqn:Hi; [|done..]. simpl.
  assert (forall node', iter = Some node' -> kn node') as Hk.
  { intros node' ->. case_match; simplify_eq; [done|]. eauto using ignoring_Ok, prevKey_known. }
  rewrite overInterval_grow by done. destruct (overInterval _ _ _ _ _ _) as [[versions total]|e|] eqn:E; [|done..]. simpl.
  destruct (guard_err _ _) as [[]|e|] eqn:Hg; [|done..]. simpl. apply guard_err_Ok in Hg.
  eapply vote_tally in E as (Ht&Hr&Hs&_); [|done..]. rewrite (majorityOf_order order' order _ _ _ Horder' Horder Ht); [done|].
  apply three_quarters; [done| |done]. destruct Hparams as [? _ _ ? ?].
  pose proof (Z.div_pos (TicketsPerBlock params) 2). assert (TicketsPerBlock params / 2 <= TicketsPerBlock params) by (apply Z.div_le_upper_bound; lia).
  rewrite i64_small in Hg by (unfold is_i64; nia). nia.
Qed.

Lemma voted_range node v : kn node -> voterVersionInterval GenesisHash index params order node = Ok v -> 0 <= v < 2 ^ 32.
Proof.
  intros Hn H. unfold voterVersionInterval in H. inv_res.
  match goal with H : (let '_ := ?c in _) = _ |- _ => destruct c as [versions total] end. inv_res.
  case_match eqn:Hm; inv_res. unfold majorityOf in Hm. apply fmap_Some in Hm as ([v' c]&[Hin _]%find_some&->).
  match goal with H : overInterval _ _ _ _ _ _ = _ |- _ => eapply vote_tally in H as (_&_&_&Hv); [|done..|] end.
  - apply Hv. exists c. rewrite <- (elem_of_map_to_list versions), <- (Horder versions). by apply list_elem_of_In.
  - intros node' ->. case_match; simplify_eq; [done|]. eauto using ignoring_Ok, prevKey_known.
Qed.

End growth.

(** *** The caches hold results for nodes of the tree *)

Section sound.
Context (GenesisHash : bytes) (params : VersionParams) (index : gmap bytes blockNode) (order : gmap Z Z -> list (Z * Z)).

Record cachesSound (s : versionCaches) : Prop := {
  cs_voter : forall key r, isVoterMajorityVersionCache s !! key = Some r -> exists minVer node,
    key = stakeMajorityCacheVersionKey minVer (n_hash node) /\ 0 <= minVer < 2 ^ 32 /\ known index node /\
    voterMajority GenesisHash index params minVer node = Ok r;
  cs_stake : forall key r, isStakeMajorityVersionCache s !! key = Some r -> exists minVer node,
    key = stakeMajorityCacheVersionKey minVer (n_hash node) /\ 0 <= minVer < 2 ^ 32 /\ known index node /\
    uncached (or_else (stakeMajority GenesisHash index params minVer node) (mret false) mret) = Ok r;
  cs_prior : forall hash version, calcPriorStakeVersionCache s !! hash = Some version -> exists node,
    hash = n_hash node /\ known index node /\ priorStakeVersion GenesisHash index params order node = Ok version;
  cs_interval : forall hash version, calcVoterVersionIntervalCache s !! hash = Some version -> exists node,
    hash = n_hash node /\ known index node /\ voterVersionInterval GenesisHash index params order node = Ok version;
  cs_version : forall hash version, calcStakeVersionCache s !! hash = Some version -> exists node voted,
    hash = n_hash node /\ known index node /\ voterVersionInterval GenesisHash index params order node = Ok voted /\
    uncached (enforcedVersion GenesisHash index params order voted node) = Ok version
}.

Lemma sound_none : cachesSound noCaches.
Proof. by split. Qed.

Lemma put_sound s : cachesSound s -> forall node, known index node ->
  (forall minVer r, 0 <= minVer < 2 ^ 32 -> voterMajority GenesisHash index params minVer node = Ok r ->
    cachesSound (putVoterMajority (stakeMajorityCacheVersionKey minVer (n_hash node)) r s)) /\
  (forall minVer r, 0 <= minVer < 2 ^ 32 -> uncached (or_else (stakeMajority GenesisHash index params minVer node) (mret false) mret) = Ok r ->
    cachesSound (putStakeMajority (stakeMajorityCacheVersionKey minVer (n_hash node)) r s)) /\
  (forall v, priorStakeVersion GenesisHash index params order node = Ok v -> cachesSound (putPriorVersion (n_hash node) v s)) /\
  (forall v, voterVersionInterval GenesisHash index params order node = Ok v -> cachesSound (putVoterVersion (n_hash node) v s)) /\
  (forall voted v, voterVersionInterval GenesisHash index params order node = Ok voted ->
    uncached (enforcedVersion GenesisHash index params order voted node) = Ok v -> cachesSound (putStakeVersion (n_hash node) v s)).
Proof.
  intros [H1 H2 H3 H4 H5] node Hn. split_and!; intros; split; try done; cbn; intros ??;
    rewrite lookup_insert_Some; intros [[<- <-]|[_ ?]]; eauto 10.
Qed.

Lemma get_sound s : cachesSound s -> forall node, known index node ->
  (forall minVer r, 0 <= minVer < 2 ^ 32 -> isVoterMajorityVersionCache s !! stakeMajorityCacheVersionKey minVer (n_hash node) = Some r ->
    voterMajority GenesisHash index params minVer node = Ok r) /\
  (forall minVer r, 0 <= minVer < 2 ^ 32 -> isStakeMajorityVersionCache s !! stakeMajorityCacheVersionKey minVer (n_hash node) = Some r ->
    uncached (or_else (stakeMajority GenesisHash index params minVer node) (mret false) mret) = Ok r) /\
  (forall v, calcPriorStakeVersionCache s !! n_hash node = Some v -> priorStakeVersion GenesisHash index params order node = Ok v) /\
  (forall v, calcVoterVersionIntervalCache s !! n_hash node = Some v -> voterVersionInterval GenesisHash index params order node = Ok v) /\
  (forall voted v, voterVersionInterval GenesisHash index params order node = Ok voted -> calcStakeVersionCache s !! n_hash node = Some v ->
    uncached (enforcedVersion GenesisHash index params order voted node) = Ok v).
Proof.
  intros [H1 H2 H3 H4 H5] node Hn. split_and!.
  - intros v r Hv (v'&node'&E&?&?&?)%H1. apply majority_key_inj in E as [-> E]; [|done..]. by rewrite (known_eq index node node').
  - intros v r Hv (v'&node'&E&?&?&?)%H2. apply majority_key_inj in E as [-> E]; [|done..]. by rewrite (known_eq index node node').
  - intros v (node'&E&?&?)%H3. by rewrite (known_eq index node node').
  - intros v (node'&E&?&?)%H4. by rewrite (known_eq index node node').
  - intros voted v Hvoted (node'&voted'&E&?&?&?)%H5. assert (node' = node) as -> by (by eapply known_eq).
    by assert (voted' = voted) as -> by congruence.
Qed.

End sound.

(** *** Two trees, two orders and two sets of caches *)

Section consensus.
Context (GenesisHash : bytes) (params : VersionParams) (index index' : gmap bytes blockNode).
Context (Hparams : versionParamsOk params) (Hindex : treeIndex GenesisHash params index) (Hgrow : index ⊆ index').
Context (order order' : gmap Z Z -> list (Z * Z)).
Context (Horder : forall m, order m ≡ₚ map_to_list m) (Horder' : forall m, order' m ≡ₚ map_to_list m).

#[local] Notation ok := (cachesSound GenesisHash params index order).
#[local] Notation ok' := (cachesSound GenesisHash params index' order').
#[local] Notation agree := (agree ok ok').

Lemma known_grow node : known index node -> known index' node.
Proof. intros H. unfold known. by eapply lookup_weaken. Qed.

#[local] Hint Resolve sound_none agree_outcome agree_ret agree_attempt prior_known prevKey_known unchecked_known known_grow : versions.

#[local] Ltac by_soundness Hk := let s := fresh "s" in let Hs := fresh "Hs" in
  intros s ? Hs; first
  [by apply (get_sound _ _ _ _ s Hs _ Hk)|by apply (get_sound _ _ _ _ s Hs _ (known_grow _ Hk))
  |by apply (put_sound _ _ _ _ s Hs _ Hk)|by apply (put_sound _ _ _ _ s Hs _ (known_grow _ Hk))].

Lemma voter_majority_agree minVer prevNode : 0 <= minVer < 2 ^ 32 -> known index prevNode ->
  agree (isVoterMajorityVersion GenesisHash index params minVer prevNode) (isVoterMajorityVersion GenesisHash index' params minVer prevNode).
Proof.
  intros Hv Hn. unfold isVoterMajorityVersion. rewrite (findPrior_grow _ _ index index') by done.
  apply agree_or_else; [auto with versions|]. intros [node|] Hf; [|auto with versions].
  assert (known index node) as Hk by eauto with versions.
  apply agree_bind; [auto with versions..| |auto with versions].
  apply agree_attempt, agree_cached; [apply sound_none|apply sound_none| |by_soundness Hk..].
  rewrite (voterMajority_grow _ _ index index') by done. auto with versions.
Qed.

Lemma stake_majority_agree minVer prevNode : 0 <= minVer < 2 ^ 32 -> known index prevNode ->
  agree (isStakeMajorityVersion GenesisHash index params minVer prevNode) (isStakeMajorityVersion GenesisHash index' params minVer prevNode).
Proof.
  intros Hv Hn. unfold isStakeMajorityVersion. rewrite (findPrior_grow _ _ index index') by done.
  apply agree_or_else; [auto with versions|]. intros [node|] Hf; [|auto with versions].
  assert (known index node) as Hk by eauto with versions.
  apply agree_cached; [apply sound_none|apply sound_none| |by_soundness Hk..].
  rewrite (stakeMajority_grow _ _ index index') by done. apply agree_or_else; auto with versions.
Qed.

Lemma prior_agree prevNode : known index prevNode ->
  agree (calcPriorStakeVersion GenesisHash index params order prevNode) (calcPriorStakeVersion GenesisHash index' params order' prevNode).
Proof.
  intros Hn. unfold calcPriorStakeVersion. rewrite (findPrior_grow _ _ index index') by done.
  apply agree_bind; [auto with versions..|]. intros [node|] Hf; [|auto with versions].
  assert (known index node) as Hk by eauto with versions.
  apply agree_cached; [apply sound_none|apply sound_none| |by_soundness Hk..].
  rewrite (priorStakeVersion_grow _ _ index index' Hindex Hgrow order order') by done. auto with versions.
Qed.

Lemma interval_agree node : known index node ->
  agree (calcVoterVersionInterval GenesisHash index params order node) (calcVoterVersionInterval GenesisHash index' params order' node).
Proof.
  intros Hk. apply agree_cached; [apply sound_none|apply sound_none| |by_soundness Hk..].
  rewrite (voterVersionInterval_grow _ _ index index' Hindex Hgrow order order') by done. auto with versions.
Qed.

Lemma search_agree fuel node : (forall node', node = Some node' -> known index node') ->
  agree (searchVoterVersion GenesisHash index params order fuel node) (searchVoterVersion GenesisHash index' params order' fuel node).
Proof.
  revert node. induction fuel as [|fuel IH]; intros [node|] Hn; cbn [searchVoterVersion]; auto with versions.
  apply agree_bind; [auto with versions..|apply agree_attempt, interval_agree; auto|].
  intros [v|e|] _; [auto with versions| |auto with versions]. destruct e; auto with versions.
  rewrite (prevKey_grow _ _ index index') by eauto.
  apply agree_or_else; [auto with versions|]. intros [prev|] Hprev; (apply agree_bind; [auto with versions..|]); intros ? [= <-].
  assert (known index prev) as Hk by eauto with versions. rewrite (findPrior_grow _ _ index index') by done.
  apply agree_or_else; [auto with versions|]. intros found Hf. apply IH. intros ? ->. eauto with versions.
Qed.

Lemma enforced_agree voted node : 0 <= voted < 2 ^ 32 -> known index node ->
  agree (enforcedVersion GenesisHash index params order voted node) (enforcedVersion GenesisHash index' params order' voted node).
Proof.
  intros Hv Hn. unfold enforcedVersion. rewrite (walkToStart_grow _ _ index index') by done.
  apply agree_bind; [auto with versions..|]. intros [start|] Hs; [|auto with versions].
  assert (known index start) as Hk by (eapply walkToStart_known; [exact Hindex|exact Hn|exact Hs]).
  rewrite (isMajorityVersion_grow _ _ index index') by done.
  apply agree_bind; [auto with versions..|]. intros [] _; simpl; [|auto with versions].
  apply agree_bind; [auto with versions..|by apply stake_majority_agree|]. intros [] _; [|auto with versions].
  apply agree_bind; [auto with versions..|by apply agree_attempt, prior_agree|]. auto with versions.
Qed.

Lemma search_found fuel node v found s : ok s -> (forall node', node = Some node' -> known index node') ->
  (searchVoterVersion GenesisHash index params order fuel node s).1 = Ok (v, Some found) ->
  known index found /\ voterVersionInterval GenesisHash index params order found = Ok v.
Proof.
  revert node s. induction fuel as [|fuel IH]; intros [node|] s Hs Hn H; cbn [searchVoterVersion] in H; [done..| |done].
  apply cM_bind_Ok in H as (r&s'&E%attempt_Ok&H). assert (known index node) as Hk by auto.
  destruct (interval_agree node Hk s noCaches Hs) as (Er&Hs'&_); [apply sound_none|]. rewrite E in Er, Hs'. simpl in Er, Hs'.
  destruct r as [version|e|]; [|destruct e; try done|done].
  - simplify_eq/=. split; [done|]. unfold calcVoterVersionInterval, cached in Er.
    cbn [noCaches calcVoterVersionIntervalCache] in Er. rewrite lookup_empty in Er. unfold outcome in Er.
    rewrite <- (voterVersionInterval_grow _ _ index index' Hindex Hgrow order order') by done. by case_match; simplify_eq.
  - destruct (getPrevKeyNodeFromNode _ _ _) as [[prev|]|[]|] eqn:Hp; try done.
    apply cM_bind_Ok in H as (prev'&t&[= <- <-]&H).
    destruct (findStakeVersionPriorNode _ _ _ _) as [next|[]|] eqn:Hf; try done. cbn [or_else] in H.
    eapply IH in H; [done..|]. intros ? ->. eauto with versions.
Qed.

Lemma voter_version_agree prevNode : known index prevNode ->
  agree (calcVoterVersion GenesisHash index params order prevNode) (calcVoterVersion GenesisHash index' params order' prevNode).
Proof.
  intros Hn. unfold calcVoterVersion. rewrite (unchecked_grow _ _ index index') by done.
  apply agree_bind; [auto with versions..|]. intros node Hk. change (uncheckedKeyNode GenesisHash index prevNode = Ok node) in Hk.
  assert (known index node) by eauto with versions. rewrite (findPrior_grow _ _ index index') by done.
  apply agree_or_else; [auto with versions|]. intros found Hf. apply search_agree. intros ? ->. eauto with versions.
Qed.

Lemma voter_version_found prevNode v found : known index prevNode ->
  uncached (calcVoterVersion GenesisHash index params order prevNode) = Ok (v, Some found) ->
  known index found /\ voterVersionInterval GenesisHash index params order found = Ok v.
Proof.
  intros Hn H. apply cM_bind_Ok in H as (node&s&E&H). injection E as E <-.
  destruct (findStakeVersionPriorNode _ _ _ _) as [next|[]|] eqn:Hf; try done. cbn [or_else] in H.
  eapply search_found in H; [done|apply sound_none|]. intros ? ->. eauto with versions.
Qed.

Lemma stake_version_agree prevNode : known index prevNode ->
  agree (calcStakeVersion GenesisHash index params order prevNode) (calcStakeVersion GenesisHash index' params order' prevNode).
Proof.
  intros Hn. unfold calcStakeVersion. case_match; [auto with versions|]. rewrite (unchecked_grow _ _ index index') by done.
  apply agree_bind; [auto with versions..|]. intros node Hk. change (uncheckedKeyNode GenesisHash index prevNode = Ok node) in Hk.
  assert (known index node) by eauto with versions.
  apply agree_bind; [auto with versions..|by apply voter_version_agree|]. intros [v [found|]] Hv; [|auto with versions].
  apply voter_version_found in Hv as [Hf Hv]; [|done]. case_match; [auto with versions|].
  pose proof (voterVersionInterval_grow _ _ index index' Hindex Hgrow order order' Hparams Horder Horder' found Hf) as Hv'. rewrite Hv in Hv'.
  apply agree_cached; [apply sound_none|apply sound_none|apply enforced_agree; eauto using voted_range|..]; intros s w Hs.
  - by apply (get_sound _ _ _ _ s Hs _ Hf).
  - by apply (get_sound _ _ _ _ s Hs _ (known_grow _ Hf)).
  - by apply (put_sound _ _ _ _ s Hs _ Hf).
  - by apply (put_sound _ _ _ _ s Hs _ (known_grow _ Hf)).
Qed.

(** Caches that were right stay right when the tree grows. *)
Lemma sound_grow s : ok s -> ok' s.
Proof.
  intros [H1 H2 H3 H4 H5]. split.
  - intros key r (v&node&?&?&?&?)%H1. exists v, node. do 3 (split; [auto using known_grow|]).
    by rewrite (voterMajority_grow _ _ index index').
  - intros key r (v&node&?&?&?&?)%H2. exists v, node. do 3 (split; [auto using known_grow|]).
    by rewrite (stakeMajority_grow _ _ index index').
  - intros hash v (node&?&?&?)%H3. exists node. split_and!; auto using known_grow.
    by rewrite (priorStakeVersion_grow _ _ index index' Hindex Hgrow order order').
  - intros hash v (node&?&?&?)%H4. exists node. split_and!; auto using known_grow.
    by rewrite (voterVersionInterval_grow _ _ index index' Hindex Hgrow order order').
  - intros hash v (node&voted&?&?&Hv&He)%H5. exists node, voted. split_and!; auto using known_grow.
    + by rewrite (voterVersionInterval_grow _ _ index index' Hindex Hgrow order order').
    + rewrite <- He. symmetry. eapply agree_uncached; [apply sound_none|apply sound_none|]. apply enforced_agree; eauto using voted_range.
Qed.

End consensus.

(** ** The fuel of the walks is enough *)

Section ends.
Context (GenesisHash : bytes) (params : VersionParams) (index : gmap bytes blockNode) (Hindex : treeIndex GenesisHash params index).

(** Not out of fuel, whatever is cached. *)
Definition ends {A} (r : res treeError A) : Prop := r <> Err StillWalking.

Definition endsM {S A} (m : cM S A) : Prop := forall s, ends (m s).1.

Lemma res_ends_bind {A B} (r : res treeError A) (k : A -> res treeError B) : ends r -> (forall a, r = Ok a -> ends (k a)) -> ends (r ≫= k).
Proof. destruct r as [a|e|]; cbn; [auto|..]; unfold ends; congruence. Qed.

Lemma ends_or_panic {A} (o : option A) : ends (or_panic o).
Proof. by destruct o. Qed.

Lemma ends_ignoring {A} (r : res treeError (option A)) : ends r -> ends (ignoring r).
Proof. by destruct r as [|[]|]. Qed.

Lemma endsM_bind {S A B} (m : cM S A) (k : A -> cM S B) : endsM m -> (forall a, endsM (k a)) -> endsM (m ≫= k).
Proof. intros Hm Hk s. specialize (Hm s). unfold mbind, cM_bind. destruct (m s) as [[a|e|] s']; cbn in *; [apply Hk|..]; unfold ends in *; congruence. Qed.

Lemma endsM_outcome {S A B} (r : res treeError A) (k : A -> cM S B) : ends r -> (forall a, r = Ok a -> endsM (k a)) -> endsM (outcome r ≫= k).
Proof. intros Hr Hk s. unfold mbind, cM_bind, outcome. destruct r as [a|e|]; cbn; [by apply Hk|..]; unfold ends in *; congruence. Qed.

Lemma endsM_ret {S A} (a : A) : endsM (mret (M := cM S) a).
Proof. by intros s. Qed.

Lemma endsM_attempt {S A} (m : cM S A) : endsM m -> endsM (attempt m).
Proof. intros Hm s. specialize (Hm s). unfold attempt. by destruct (m s) as [[|[]|] ?]. Qed.

Lemma endsM_or_else {S A B} (r : res treeError A) (dflt : cM S B) k : ends r -> endsM dflt -> (forall a, r = Ok a -> endsM (k a)) -> endsM (or_else r dflt k).
Proof. intros Hr Hd Hk. destruct r as [a|[]|]; cbn; try done; by apply Hk. Qed.

Lemma endsM_cached {S V} (get : S -> gmap bytes V) put key (m : cM S V) : endsM m -> endsM (cached get put key m).
Proof. intros Hm s. specialize (Hm s). unfold cached. destruct (get s !! key); [done|]. by destruct (m s) as [[|[]|] ?]. Qed.

Lemma endsM_done {S A} (r : res treeError A) : ends r -> endsM (S := S) (outcome r).
Proof. by intros H s. Qed.

#[local] Hint Resolve endsM_ret endsM_attempt endsM_done ends_or_panic ends_ignoring prior_known prevKey_known unchecked_known : ends.

Lemma prevKey_ends node : known index node -> ends (getPrevKeyNodeFromNode GenesisHash index node).
Proof. intros Hn. rewrite (prevKey_index _ params) by done. by repeat case_bool_decide. Qed.

Lemma prevKey_lower node prev : known index node -> getPrevKeyNodeFromNode GenesisHash index node = Ok (Some prev) ->
  0 <= n_height prev < n_height node.
Proof.
  intros Hn H. pose proof (prevKey_known _ _ _ Hindex _ _ Hn H) as Hp. split; [by apply (ti_height _ _ _ Hindex _ _ Hp)|].
  rewrite (prevKey_index _ params) in H by done. repeat case_bool_decide; simplify_eq. by eapply (ti_height _ _ _ Hindex _ _ Hn).
Qed.

Lemma unchecked_ends node : known index node -> ends (uncheckedKeyNode GenesisHash index node).
Proof.
  intros Hn. unfold uncheckedKeyNode, unchecked. case_match; [done|]. apply res_ends_bind; eauto using prevKey_ends with ends.
Qed.

Lemma unchecked_lower node r : known index node -> uncheckedKeyNode GenesisHash index node = Ok r -> n_height r <= n_height node.
Proof.
  intros Hn H. unfold uncheckedKeyNode, unchecked in H. case_match; inv_res; [done|].
  apply ignoring_Ok, prevKey_lower in H; [lia|done].
Qed.

Lemma walkBelow_ends fuel node bound : known index node -> (Z.to_nat (n_height node) < fuel)%nat ->
  ends (walkBelow GenesisHash index fuel node bound) /\
  forall r, walkBelow GenesisHash index fuel node bound = Ok r -> n_height r <= n_height node.
Proof.
  revert node. induction fuel as [|fuel IH]; intros node Hn Hf; [lia|]. cbn [walkBelow]. case_match; [|split; [done|by intros ? [= ->]]].
  pose proof (prevKey_ends node Hn) as He. destruct (getPrevKeyNodeFromNode _ _ _) as [[prev|]|e|] eqn:E; cbn; [|done| |done].
  - pose proof (prevKey_lower _ _ Hn E). destruct (IH prev) as [H1 H2]; [by eapply prevKey_known|lia|]. split; [done|]. intros r Hr%H2. lia.
  - split; [|done]. intros [= ->]. by apply He.
Qed.

Lemma prior_ends node : known index node -> ends (findStakeVersionPriorNode GenesisHash index params node) /\
  forall r, findStakeVersionPriorNode GenesisHash index params node = Ok (Some r) -> n_height r <= n_height node.
Proof.
  intros Hn. unfold findStakeVersionPriorNode. pose proof (unchecked_ends node Hn) as He.
  destruct (uncheckedKeyNode _ _ _) as [key|e|] eqn:E; cbn [mbind res_bind]; [|split; [|done]; intros [= ->]; by apply He|done].
  pose proof (unchecked_lower _ _ Hn E). case_match; [done|].
  assert (known index key) as Hk by (by eapply unchecked_known).
  destruct (walkBelow_ends (walkFuel key) key (i64 (calcWantHeight (StakeValidationHeight params) (StakeVersionInterval params)
    (i64 (n_keyHeight key + 2)) - 1)) Hk) as [H1 H2]; [unfold walkFuel; lia|].
  destruct (walkBelow _ _ _ _ _) as [r|e|]; cbn [mbind res_bind]; [|split; [|done]; intros [= ->]; by apply H1|done].
  split; [done|]. intros r' [= <-]. specialize (H2 r eq_refl). lia.
Qed.

Lemma overInterval_ends {A} n (f : A -> blockNode -> A) acc node : (forall node', node = Some node' -> known index node') ->
  ends (overInterval GenesisHash index n f acc node).
Proof.
  revert acc node. induction n as [|n IH]; intros acc [node|] Hn; [done..| |done]. cbn [overInterval].
  apply res_ends_bind; [by apply prevKey_ends, Hn|]. intros prev E. apply IH. intros ? ->. eapply prevKey_known; [done|by apply Hn|done].
Qed.

Lemma countVersions_ends n minVer numRequired numFound node : (forall node', node = Some node' -> known index node') ->
  ends (countVersions GenesisHash index n minVer numRequired numFound node).
Proof.
  revert numFound node. induction n as [|n IH]; intros numFound [node|] Hn; [done..| |done]. cbn [countVersions]. case_match; [|done].
  pose proof (prevKey_ends node (Hn _ eq_refl)). destruct (getPrevKeyNodeFromNode _ _ _) as [prev|[]|] eqn:E; try done.
  apply IH. intros ? ->. eapply prevKey_known; [done|by apply Hn|done].
Qed.

Lemma some_known node : known index node -> forall node', Some node = Some node' -> known index node'.
Proof. by intros Hn ? [= <-]. Qed.

#[local] Hint Resolve some_known : ends.

Lemma isMajorityVersion_ends limit minVer node numRequired : known index node ->
  ends (isMajorityVersion GenesisHash index limit minVer node numRequired).
Proof. intros Hn. apply res_ends_bind; [|done]. apply countVersions_ends. eauto with ends. Qed.

Context (order : gmap Z Z -> list (Z * Z)).

Lemma prior_version_ends node : known index node -> ends (priorStakeVersion GenesisHash index params order node).
Proof. intros Hn. apply res_ends_bind; [apply overInterval_ends; eauto with ends|]. intros versions _. unfold ends. cbv zeta. by destruct (majorityOf _ _ _). Qed.

Lemma interval_ends node : known index node -> ends (voterVersionInterval GenesisHash index params order node).
Proof.
  intros Hn. unfold voterVersionInterval. apply res_ends_bind; [case_match; eauto using prevKey_ends with ends; done|].
  intros iter Hi. apply res_ends_bind; [apply overInterval_ends|].
  - intros node' ->. case_match; simplify_eq; [done|]. eauto using ignoring_Ok, prevKey_known.
  - intros [versions total] _. apply res_ends_bind; [unfold guard_err, ends; by destruct (_ <? _)|]. intros _ _. unfold ends. cbv zeta. by destruct (majorityOf _ _ _).
Qed.

Lemma stake_majority_ends minVer node : known index node -> endsM (isStakeMajorityVersion GenesisHash index params minVer node).
Proof.
  intros Hn. apply endsM_or_else; [by apply prior_ends|auto with ends|]. intros [found|] Hf; [|auto with ends].
  assert (known index found) as Hk by (by eapply prior_known).
  apply endsM_cached, endsM_or_else; [|auto with ends|auto with ends]. apply res_ends_bind; [by apply overInterval_ends, some_known|done].
Qed.

Lemma calcPrior_ends node : known index node -> endsM (calcPriorStakeVersion GenesisHash index params order node).
Proof.
  intros Hn. apply endsM_outcome; [by apply prior_ends|]. intros [found|] Hf; [|auto with ends].
  apply endsM_cached, endsM_done, prior_version_ends. by eapply prior_known.
Qed.

Lemma search_ends fuel node : (forall node', node = Some node' -> known index node' /\ (Z.to_nat (n_height node') < fuel)%nat) -> (0 < fuel)%nat ->
  endsM (searchVoterVersion GenesisHash index params order fuel node).
Proof.
  revert node. induction fuel as [|fuel IH]; intros node Hn Hf; [lia|]. destruct node as [node|]; cbn [searchVoterVersion]; [|auto with ends].
  destruct (Hn node eq_refl) as [Hk Hl].
  apply endsM_bind; [apply endsM_attempt, endsM_cached, endsM_done; by apply interval_ends|]. intros [v|[]|]; auto with ends.
  apply endsM_or_else; [by apply prevKey_ends|auto with ends|]. intros prev Hp. apply endsM_outcome; [apply ends_or_panic|].
  intros node' ->%or_panic_Ok. pose proof (prevKey_lower _ _ Hk Hp). assert (known index node') as Hk' by (by eapply prevKey_known).
  destruct (prior_ends node' Hk') as [He Hlow]. apply endsM_or_else; [done|auto with ends|]. intros found Hfound. apply IH; [|lia].
  intros r ->. split; [by eapply prior_known|]. specialize (Hlow r Hfound). pose proof (ti_height _ _ _ Hindex _ _ (prior_known _ _ _ Hindex _ _ Hk' Hfound)). lia.
Qed.

Lemma walkToStart_ends fuel node bound : known index node -> (Z.to_nat (n_height node) < fuel)%nat ->
  ends (walkToStart GenesisHash index fuel node bound).
Proof.
  revert node. induction fuel as [|fuel IH]; intros node Hn Hf; [lia|]. cbn [walkToStart]. case_match; [|done].
  apply res_ends_bind; [by apply ends_ignoring, prevKey_ends|]. intros [prev|] Hp; [|done].
  apply ignoring_Ok in Hp. apply IH; [by eapply prevKey_known|]. pose proof (prevKey_lower _ _ Hn Hp). lia.
Qed.

Lemma enforced_ends voted node : known index node -> endsM (enforcedVersion GenesisHash index params order voted node).
Proof.
  intros Hn. apply endsM_outcome; [apply walkToStart_ends; [done|unfold walkFuel; lia]|]. intros [start|] Hs; [|auto with ends].
  apply endsM_outcome; [apply isMajorityVersion_ends; by eapply walkToStart_known|]. intros [] _; cbn; [|auto with ends].
  apply endsM_bind; [by apply stake_majority_ends|]. intros []; [|auto with ends].
  apply endsM_bind; [by apply endsM_attempt, calcPrior_ends|]. auto with ends.
Qed.

Lemma calcVoterVersion_ends node : known index node -> endsM (calcVoterVersion GenesisHash index params order node).
Proof.
  intros Hn. apply endsM_outcome; [by apply unchecked_ends|]. intros key Hkey. assert (known index key) as Hk by (by eapply unchecked_known).
  destruct (prior_ends key Hk) as [He Hlow]. apply endsM_or_else; [done|auto with ends|]. intros found Hf. apply search_ends; [|unfold walkFuel; lia].
  intros r ->. split; [by eapply prior_known|]. specialize (Hlow r Hf). unfold walkFuel. lia.
Qed.

Lemma stake_version_ends prevNode : versionParamsOk params -> (forall m, order m ≡ₚ map_to_list m) -> known index prevNode ->
  ends (uncached (calcStakeVersion GenesisHash index params order prevNode)).
Proof.
  intros Hp Ho Hn. unfold uncached, calcStakeVersion. case_match; [done|]. unfold mbind at 1, cM_bind at 1, outcome at 1.
  pose proof (unchecked_ends prevNode Hn) as He. destruct (uncheckedKeyNode _ _ _) as [key|e|] eqn:Hkey; [|intros [= ->]; by apply He|done].
  assert (known index key) as Hk by (by eapply unchecked_known). pose proof (calcVoterVersion_ends key Hk noCaches) as Hv.
  unfold mbind, cM_bind. destruct (calcVoterVersion _ _ _ _ _ _) as [r s] eqn:E. cbn [fst] in Hv.
  destruct r as [[v [found|]]|e|]; [|done|intros [= ->]; by apply Hv|done]. case_match; [done|].
  apply endsM_cached, enforced_ends.
  apply (voter_version_found GenesisHash params index index Hp Hindex (reflexivity _) order order Ho Ho key v found Hk).
  unfold uncached. by rewrite E.
Qed.

End ends.

(** ** The life of a node of the network *)

Section history.
Context (GenesisHash : bytes) (params : VersionParams).

(** A question about versions, in any order of the maps, and the caches after it. *)
Inductive versionQuery (index : gmap bytes blockNode) (s : versionCaches) : versionCaches -> Prop :=
| vq_stakeVersion order prevNode : (forall m, order m ≡ₚ map_to_list m) -> known index prevNode ->
    versionQuery index s (calcStakeVersion GenesisHash index params order prevNode s).2
| vq_priorVersion order prevNode : (forall m, order m ≡ₚ map_to_list m) -> known index prevNode ->
    versionQuery index s (calcPriorStakeVersion GenesisHash index params order prevNode s).2
| vq_stakeMajority minVer prevNode : 0 <= minVer < 2 ^ 32 -> known index prevNode ->
    versionQuery index s (isStakeMajorityVersion GenesisHash index params minVer prevNode s).2
| vq_voterMajority minVer prevNode : 0 <= minVer < 2 ^ 32 -> known index prevNode ->
    versionQuery index s (isVoterMajorityVersion GenesisHash index params minVer prevNode s).2.

(** The tree and the caches of a node: the tree grows, and versions are asked for. *)
Inductive versionHistory : gmap bytes blockNode -> versionCaches -> Prop :=
| vh_start index : treeIndex GenesisHash params index -> versionHistory index noCaches
| vh_grow index index' s : versionHistory index s -> index ⊆ index' -> treeIndex GenesisHash params index' -> versionHistory index' s
| vh_query index s s' : versionHistory index s -> versionQuery index s s' -> versionHistory index s'.

Lemma query_sound index order s s' : (forall m, order m ≡ₚ map_to_list m) -> versionParamsOk params -> treeIndex GenesisHash params index ->
  versionQuery index s s' -> cachesSound GenesisHash params index order s -> cachesSound GenesisHash params index order s'.
Proof.
  intros Horder Hparams Hi [order' node Ho Hk|order' node Ho Hk|v node Hv Hk|v node Hv Hk] Hs.
  - apply (sound_grow _ _ index index Hparams Hi (reflexivity _) order' order Ho Horder).
    apply (stake_version_agree _ _ index index Hparams Hi (reflexivity _) order' order' Ho Ho node Hk s noCaches); [|apply sound_none].
    by apply (sound_grow _ _ index index Hparams Hi (reflexivity _) order order' Horder Ho).
  - apply (sound_grow _ _ index index Hparams Hi (reflexivity _) order' order Ho Horder).
    apply (prior_agree _ _ index index Hparams Hi (reflexivity _) order' order' Ho Ho node Hk s noCaches); [|apply sound_none].
    by apply (sound_grow _ _ index index Hparams Hi (reflexivity _) order order' Horder Ho).
  - by apply (stake_majority_agree _ _ index index Hi (reflexivity _) order order v node Hv Hk s noCaches); [|apply sound_none].
  - by apply (voter_majority_agree _ _ index index Hi (reflexivity _) order order v node Hv Hk s noCaches); [|apply sound_none].
Qed.

Lemma history_sound order index s : (forall m, order m ≡ₚ map_to_list m) -> versionParamsOk params -> versionHistory index s ->
  treeIndex GenesisHash params index /\ cachesSound GenesisHash params index order s.
Proof.
  intros Horder Hparams H. induction H as [index Hi|index index' s _ [Hi Hs] Hsub Hi'|index s s' _ [Hi Hs] Hq]; (split; [done|]).
  - apply sound_none.
  - by eapply (sound_grow _ _ index).
  - by eapply query_sound.
Qed.

Lemma union_grow (index1 index2 : gmap bytes blockNode) : map_agree index1 index2 -> index2 ⊆ index1 ∪ index2.
Proof.
  intros Ha. apply map_subseteq_spec. intros hash node E. rewrite lookup_union_Some_raw.
  destruct (index1 !! hash) eqn:E1; [left|by right]. f_equal. by eapply (map_agree_spec index1 index2).
Qed.

(** C12: The stake version that a new block must have is a function of the chain: two nodes of the network that know the
    parent of the block compute the same version, whatever other blocks they know, in whatever order they have received
    them, whatever they have computed and cached before and in whatever order Go iterates over the map of versions; and the
    computation ends. *)
Theorem stake_version_consensus index1 index2 s1 s2 order1 order2 prevNode :
  versionParamsOk params -> versionHistory index1 s1 -> versionHistory index2 s2 ->
  map_agree index1 index2 ->
  (forall m, order1 m ≡ₚ map_to_list m) -> (forall m, order2 m ≡ₚ map_to_list m) ->
  known index1 prevNode -> known index2 prevNode ->
  (calcStakeVersion GenesisHash index1 params order1 prevNode s1).1 = (calcStakeVersion GenesisHash index2 params order2 prevNode s2).1 /\
  (calcStakeVersion GenesisHash index1 params order1 prevNode s1).1 <> Err StillWalking.
Proof.
  intros Hp H1 H2 Ha Ho1 Ho2 Hk1 Hk2.
  destruct (history_sound order1 index1 s1 Ho1 Hp H1) as [Hi1 Hs1], (history_sound order2 index2 s2 Ho2 Hp H2) as [Hi2 Hs2].
  split; [trans (calcStakeVersion GenesisHash (index1 ∪ index2) params order1 prevNode noCaches).1; [|symmetry]|].
  - apply (stake_version_agree _ _ index1 _ Hp Hi1 (map_union_subseteq_l _ _) order1 order1); [done..|apply sound_none].
  - apply (stake_version_agree _ _ index2 _ Hp Hi2 (union_grow _ _ Ha) order2 order1); [done..|apply sound_none].
  - rewrite (proj1 (stake_version_agree _ _ index1 index1 Hp Hi1 (reflexivity _) order1 order1 Ho1 Ho1 prevNode Hk1 s1 noCaches Hs1 (sound_none _ _ _ _))).
    by apply stake_version_ends.
Qed.

End history.

(** ** A chain in which a version is voted in *)

Module Sample.

Definition sampleParams : VersionParams :=
  MkVersionParams (MkParams 5000000000 1000 1005 1543 45 45 10 1 2 [] [] 0) 3 3 4 2 2 2 3 4 4.

Definition genesis : bytes := [0].

(** A chain of key blocks with one vote each. *)
Definition sampleNode (i : Z) : blockNode :=
  MkNode (if i =? 0 then None else Some [i - 1]) [i] i (Z.max 0 (i - 1)) 0 0
    (MkHeader 4 (if i =? 0 then zeroHash else [i - 1]) [i - 1] zeroHash zeroHash 1 [] 1 0 0 0 0 0 i (Z.max 0 (i - 1)) 0 (100 + i) 0 [] 4) [] []
    [MkVoteVersion 4 5] true.

Definition sampleIndex (nodes : list Z) : gmap bytes blockNode := list_to_map ((fun i => ([i], sampleNode i)) <$> nodes).

Definition chain : list Z := [0; 1; 2; 3; 4; 5; 6; 7; 8].

Lemma sampleIndex_lookup nodes hash node : sampleIndex nodes !! hash = Some node -> exists i, i ∈ nodes /\ hash = [i] /\ node = sampleNode i.
Proof.
  unfold sampleIndex. intros (i&[= -> ->]&Hi)%elem_of_list_to_map_2%list_elem_of_fmap. eauto.
Qed.

Lemma sample_known i nodes : i ∈ nodes -> known (sampleIndex nodes) (sampleNode i).
Proof.
  intros Hi. unfold known. cbn [sampleNode n_hash]. destruct (sampleIndex nodes !! [i]) as [node|] eqn:E.
  - apply sampleIndex_lookup in E as (j&_&[= ->]&->). done.
  - apply not_elem_of_list_to_map in E. destruct E. rewrite <- list_fmap_compose. by apply (list_elem_of_fmap_2 (fun j : Z => [j])).
Qed.

(** Nodes with the ones before them. *)
Definition downward (nodes : list Z) : bool := forallb (fun i => (0 <=? i) && ((i =? 0) || bool_decide (i - 1 ∈ nodes))) nodes.

Lemma downward_node nodes i : downward nodes = true -> i ∈ nodes -> 0 <= i /\ (i = 0 \/ i - 1 ∈ nodes).
Proof.
  unfold downward. rewrite forallb_forall. intros Hn Hi%list_elem_of_In%Hn. apply andb_true_iff in Hi as [H0 H1].
  split; [lia|]. apply orb_true_iff in H1 as [?|?%bool_decide_eq_true]; [left; lia|by right].
Qed.

Lemma sample_tree_index nodes : downward nodes = true -> treeIndex genesis sampleParams (sampleIndex nodes).
Proof.
  intros Hn. split; intros hash node (i&Hi&->&->)%sampleIndex_lookup; pose proof (downward_node nodes i Hn Hi) as [H0 H1].
  - done.
  - destruct H1 as [->|H1]; [by left|]. right; right. exists (sampleNode (i - 1)). by apply (sample_known (i - 1)).
  - split; [done|]. intros prev _ _ (j&_&[= <-]&->)%sampleIndex_lookup. cbn. lia.
  - by repeat constructor.
  - by vm_compute.
Qed.

(** One node has asked for the version before and has not heard of the last block; it is version 4. *)
Lemma stake_version_consensus_witness :
  (calcStakeVersion genesis (sampleIndex (take 8 chain)) sampleParams map_to_list (sampleNode 7)
     (calcStakeVersion genesis (sampleIndex (take 8 chain)) sampleParams map_to_list (sampleNode 7) noCaches).2).1 =
  (calcStakeVersion genesis (sampleIndex chain) sampleParams (fun m => rev (map_to_list m)) (sampleNode 7) noCaches).1 /\
  (calcStakeVersion genesis (sampleIndex chain) sampleParams (fun m => rev (map_to_list m)) (sampleNode 7) noCaches).1 = Ok 4.
Proof.
  split; [|by vm_compute].
  apply (stake_version_consensus genesis sampleParams); [|eapply vh_query; [apply vh_start|apply vq_stakeVersion]|apply vh_start| | | | |].
  - split; by vm_compute.
  - by apply sample_tree_index.
  - done.
  - apply sample_known, (bool_decide_eq_true_1 _). by vm_compute.
  - by apply sample_tree_index.
  - apply map_agree_spec. by intros hash node node' (i&_&->&->)%sampleIndex_lookup (j&_&[= ->]&->)%sampleIndex_lookup.
  - done.
  - intros m. symmetry. apply Permutation_rev.
  - apply sample_known, (bool_decide_eq_true_1 _). by vm_compute.
  - apply sample_known, (bool_decide_eq_true_1 _). by vm_compute.
Defined.

End Sample.
