(* ===== verification/Voting.v ===== *)
(** * Voting on rule changes

    [blockchain/thresholdstate.go] and [blockchain/votebits.go]: the state machine that takes a
    deployment from defined over started and locked in to active, window by window of key
    blocks, with its cache, and the votes that it counts.  The interface
    [thresholdConditionChecker] is a record of its methods, which [deploymentChecker]
    implements. *)

From S2P Require Import Prelude WireCommon StakeTx Compact MsgBlock Subsidy ChainState BlockTree StakeVersion.
From stdpp Require Import gmap list strings.
#[local] Open Scope Z_scope.

Definition ThresholdDefined : Z := 0.
Definition ThresholdStarted : Z := 1.
Definition ThresholdLockedIn : Z := 2.
Definition ThresholdActive : Z := 3.
Definition ThresholdFailed : Z := 4.
Definition ThresholdInvalid : Z := 5.

Definition invalidChoice : Z := 0xffffffff.

Definition newThresholdState (state choice : Z) : ThresholdStateTuple := MkTuple state choice.

Record thresholdConditionTally := MkTally { tc_count : Z; tc_isAbstain : bool; tc_isNo : bool }.

Record thresholdConditionChecker := MkChecker {
  BeginTime : Z;
  EndTime : Z;
  ActivationQuorum : Z;
  ActivationThreshold : Z -> Z;
  ActivationInterval : Z;
  ValidationHeight : Z;
  Condition : blockNode -> Z -> res treeError (list thresholdConditionTally)
}.

(** ** Votes of a deployment *)

(** The number of zero bits below the mask, which has 16 bits. *)
Fixpoint shiftOf (fuel : nat) (mask shift : Z) : res treeError Z :=
  match fuel with
  | O => Err StillWalking
  | S fuel => if Z.land mask 1 =? 1 then Ok shift else shiftOf fuel (Z.shiftr mask 1) (u16 (shift + 1))
  end.

Definition emptyTally (choice : Choice) : thresholdConditionTally := MkTally 0 (ch_IsAbstain choice) (ch_IsNo choice).

Definition incTally (t : thresholdConditionTally) : thresholdConditionTally :=
  MkTally (u32 (tc_count t + 1)) (tc_isAbstain t) (tc_isNo t).

(** A vote of another version or for a choice that does not exist is not counted. *)
Definition tallyVote (vote : Vote) (version shift : Z) (tally : list thresholdConditionTally) (v : VoteVersionTuple) :
    list thresholdConditionTally :=
  if negb (version =? vv_Version v) then tally
  else
    let idx := Z.shiftr (Z.land (v_Mask vote) (vv_Bits v)) shift in
    if idx >? Z.of_nat (length (v_Choices vote)) - 1 then tally
    else alter incTally (Z.to_nat idx) tally.

Definition deploymentCondition (deployment : ConsensusDeployment) (node : blockNode) (version : Z) :
    res treeError (list thresholdConditionTally) :=
  let vote := d_Vote deployment in
  if v_Mask vote =? 0 then Err AssertTree
  else
    shift ← shiftOf 16 (v_Mask vote) 0;
    Ok (foldl (tallyVote vote version shift) (emptyTally <$> v_Choices vote) (n_votes node)).

Definition deploymentChecker (params : VersionParams) (deployment : ConsensusDeployment) : thresholdConditionChecker :=
  MkChecker (d_StartTime deployment) (d_ExpireTime deployment) (RuleChangeActivationQuorum params)
    (fun totalVotes => u32 (totalVotes * RuleChangeActivationMultiplier params) / RuleChangeActivationDivisor params)
    (RuleChangeActivationInterval params) (StakeValidationHeight params) (deploymentCondition deployment).

(** [Vote.VoteIndex] of [chaincfg]; [-1] is [None]. *)
Definition VoteIndex (v : Vote) (vote : Z) : option nat :=
  let vote := Z.land vote (v_Mask v) in
  fst <$> list_find (fun c => vote = ch_Bits c) (v_Choices v).

(** ** The state machine *)

(** The votes for a choice added to the votes so far: per choice, and those that do not abstain. *)
Definition addChoice (acc : list thresholdConditionTally * Z) (kc : nat * thresholdConditionTally) :
    res treeError (list thresholdConditionTally * Z) :=
  let '(counts, totalVotes) := acc in
  count ← or_panic (counts !! kc.1);
  Ok (<[kc.1 := MkTally (u32 (tc_count count + tc_count kc.2)) (tc_isAbstain kc.2) (tc_isNo kc.2)]> counts,
      if tc_isAbstain kc.2 then totalVotes else u32 (totalVotes + tc_count kc.2)).

(** The array is created for the first block. *)
Definition addTally (acc : list thresholdConditionTally * Z) (c : list thresholdConditionTally) :
    res treeError (list thresholdConditionTally * Z) :=
  let counts := if (length acc.1 =? 0)%nat then (fun _ => MkTally 0 false false) <$> c else acc.1 in
  foldM addChoice (counts, acc.2) (indexed c).

(** The first choice over the threshold decides, unless it abstains. *)
Fixpoint firstOver (threshold : Z) (k : nat) (counts : list thresholdConditionTally) (stateTuple : ThresholdStateTuple) :
    ThresholdStateTuple :=
  match counts with
  | [] => stateTuple
  | v :: counts =>
    if tc_count v <? threshold then firstOver threshold (S k) counts stateTuple
    else match tc_isAbstain v, tc_isNo v with
         | false, false => MkTuple ThresholdLockedIn (u32 (Z.of_nat k))
         | false, true => MkTuple ThresholdFailed (u32 (Z.of_nat k))
         | true, false => firstOver threshold (S k) counts stateTuple
         | true, true => MkTuple ThresholdFailed (u32 (Z.of_nat k))
         end
  end.

Section thresholds.
Context (GenesisHash : bytes) (GenesisTime : Z) (index : gmap bytes blockNode) (params : VersionParams) (order : gmap Z Z -> list (Z * Z)).

#[local] Notation getPrevKeyNodeFromNode := (getPrevKeyNodeFromNode GenesisHash index).
#[local] Notation ancestorKeyNode := (ancestorKeyNode GenesisHash index).
#[local] Notation isMajorityVersion := (isMajorityVersion GenesisHash index (BlockUpgradeNumToCheck params)).
#[local] Notation calcStakeVersion := (calcStakeVersion GenesisHash index params order).
#[local] Notation calcPastMedianTime := (calcPastMedianTime GenesisHash GenesisTime index).

(** The block, or the key block before it. *)
Definition keyBlockOf (node : blockNode) : res treeError (option blockNode) :=
  if n_isKeyBlock node then Ok (Some node) else getPrevKeyNodeFromNode node.

Section checker.
Context (version : Z) (checker : thresholdConditionChecker).

(** The votes of the window that ends with the node; past the first block the code dereferences nil. *)
Fixpoint countVotes (n : nat) (acc : list thresholdConditionTally * Z) (countNode : option blockNode) :
    res treeError (list thresholdConditionTally * Z) :=
  match n with
  | O => Ok acc
  | S n =>
    node ← or_panic countNode;
    c ← Condition checker node version;
    acc ← addTally acc c;
    prev ← getPrevKeyNodeFromNode node;
    countVotes n acc prev
  end.

Definition nonAbstaining (counts : list thresholdConditionTally) : Z :=
  foldl (fun total v => if tc_isAbstain v && negb (tc_isNo v) then total else u32 (total + tc_count v)) 0 counts.

Definition tallyDecision (counts : list thresholdConditionTally) (totalVotes : Z) (stateTuple : ThresholdStateTuple) : ThresholdStateTuple :=
  if nonAbstaining counts <? ActivationQuorum checker then stateTuple
  else firstOver (ActivationThreshold checker totalVotes) 0 counts stateTuple.

Definition fromDefined (prevNode : blockNode) (stateTuple : ThresholdStateTuple) : cM versionCaches ThresholdStateTuple :=
  if n_height prevNode <? ValidationHeight checker then mret stateTuple
  else
    medianTime ← outcome (calcPastMedianTime (Some prevNode));
    if u64 medianTime >=? EndTime checker then mret (MkTuple ThresholdFailed (t_Choice stateTuple))
    else
      stakeVersion ← calcStakeVersion prevNode;
      if stakeVersion <? version then mret stateTuple
      else
        majority ← outcome (isMajorityVersion (i32 version) prevNode (BlockRejectNumRequired params));
        mret (if negb majority then stateTuple
              else if u64 medianTime >=? BeginTime checker then MkTuple ThresholdStarted (t_Choice stateTuple)
              else stateTuple).

Definition fromStarted (prevNode : blockNode) (stateTuple : ThresholdStateTuple) : cM versionCaches ThresholdStateTuple :=
  medianTime ← outcome (calcPastMedianTime (Some prevNode));
  if u64 medianTime >=? EndTime checker then mret (MkTuple ThresholdFailed (t_Choice stateTuple))
  else
    tally ← outcome (countVotes (Z.to_nat (ActivationInterval checker)) ([], 0) (Some prevNode));
    mret (tallyDecision tally.1 tally.2 stateTuple).

(** The state after the window that ends with the node. *)
Definition nextThreshold (prevNode : blockNode) (stateTuple : ThresholdStateTuple) : cM versionCaches ThresholdStateTuple :=
  if t_State stateTuple =? ThresholdDefined then fromDefined prevNode stateTuple
  else if t_State stateTuple =? ThresholdStarted then fromStarted prevNode stateTuple
  else if t_State stateTuple =? ThresholdLockedIn then mret (MkTuple ThresholdActive (t_Choice stateTuple))
  else mret stateTuple.

#[local] Notation M := (cM (thresholdStateCache * versionCaches)).

Definition onVersions {A} (m : cM versionCaches A) : M A := fun s => let '(r, vs) := m s.2 in (r, (s.1, vs)).

Definition lookupState (hash : bytes) : M (option ThresholdStateTuple) := fun s => (Ok (ChainState.Lookup s.1 hash), s).

Definition updateState (hash : bytes) (state : ThresholdStateTuple) : M unit := fun s => (Ok tt, (Update s.1 hash state, s.2)).

(** Back over the windows to one whose state is known; the windows without are collected, the oldest first. *)
Fixpoint neededStates (fuel : nat) (prevNode : option blockNode) (needed : list blockNode) : M (option blockNode * list blockNode) :=
  match fuel, prevNode with
  | O, _ => outcome (Err StillWalking)
  | S _, None => mret (None, needed)
  | S fuel, Some node =>
    cachedState ← lookupState (n_hash node);
    match cachedState with
    | Some _ => mret (Some node, needed)
    | None =>
      medianTime ← outcome (calcPastMedianTime (Some node));
      if u64 medianTime <? BeginTime checker then
        _ ← updateState (n_hash node) (MkTuple ThresholdDefined invalidChoice);
        mret (Some node, needed)
      else
        prev ← outcome (ancestorKeyNode node (i64 (i64 (n_keyHeight node - ActivationInterval checker) + 1)));
        neededStates fuel prev (node :: needed)
    end
  end.

Fixpoint overWindows (needed : list blockNode) (stateTuple : ThresholdStateTuple) : M ThresholdStateTuple :=
  match needed with
  | [] => mret stateTuple
  | node :: needed =>
    stateTuple ← onVersions (nextThreshold node stateTuple);
    _ ← updateState (n_hash node) stateTuple;
    overWindows needed stateTuple
  end.

(** From the state of the window that was found. *)
Definition resumeFrom (found : option blockNode * list blockNode) : M ThresholdStateTuple :=
  match found with
  | (None, needed) => overWindows needed (newThresholdState ThresholdDefined invalidChoice)
  | (Some node, needed) =>
    cachedState ← lookupState (n_hash node);
    match cachedState with
    | None => outcome (Err AssertTree)
    | Some stateTuple => overWindows needed stateTuple
    end
  end.

(** The key heights of the windows decrease. *)
Definition windowFuel (start : option blockNode) : nat := S (S (from_option (fun node => Z.to_nat (n_keyHeight node)) O start)).

Definition thresholdState (prevNode : blockNode) : M ThresholdStateTuple :=
  prevNode ← outcome (keyBlockOf prevNode);
  match prevNode with
  | None => mret (newThresholdState ThresholdDefined invalidChoice)
  | Some prevNode =>
    if i64 (n_keyHeight prevNode + 2) <? i64 (ValidationHeight checker + ActivationInterval checker) then
      mret (newThresholdState ThresholdDefined invalidChoice)
    else
      let wantHeight := calcWantHeight (ValidationHeight checker) (ActivationInterval checker) (i64 (n_keyHeight prevNode + 2)) in
      start ← outcome (ancestorKeyNode prevNode wantHeight);
      found ← neededStates (windowFuel start) start [];
      resumeFrom found
  end.

End checker.

(** ** Deployments *)

Notation deploymentCaches := (gmap Z (list thresholdStateCache)) (only parsing).

(** The deployments of a version and the first with the identifier. *)
Definition findDeployment (deployments : gmap Z (list ConsensusDeployment)) (version : Z) (deploymentID : string) :
    option (nat * ConsensusDeployment) :=
  list_find (fun d => v_Id (d_Vote d) = deploymentID) (default [] (deployments !! version)).

Definition deploymentState (deployments : gmap Z (list ConsensusDeployment)) (prevNode : blockNode) (version : Z) (deploymentID : string) :
    cM (deploymentCaches * versionCaches) ThresholdStateTuple := fun s =>
  match findDeployment deployments version deploymentID with
  | None => (Err DeploymentError, s)
  | Some (k, deployment) =>
    match s.1 !! version ≫= (.!! k) with
    | None => (Panic, s)
    | Some cache =>
      let '(r, (cache', vs)) := thresholdState version (deploymentChecker params deployment) prevNode (cache, s.2) in
      (r, (alter (<[k := cache']>) version s.1, vs))
    end
  end.

(** A hash that is not in the index is an error. *)
Definition ThresholdState (deployments : gmap Z (list ConsensusDeployment)) (hash : bytes) (version : Z) (deploymentID : string) :
    cM (deploymentCaches * versionCaches) ThresholdStateTuple :=
  match index !! hash with
  | None => outcome (Err ErrNotLoaded)
  | Some node => deploymentState deployments node version deploymentID
  end.

(** ** Vote counts *)

Record VoteCounts := MkVoteCounts { vc_Total : Z; vc_TotalAbstain : Z; vc_VoteChoices : list Z }.

Definition countVote (version : Z) (vote : Vote) (result : VoteCounts) (v : VoteVersionTuple) : res treeError VoteCounts :=
  if negb (vv_Version v =? version) then Ok result
  else
    let total := u32 (vc_Total result + 1) in
    match VoteIndex vote (vv_Bits v) with
    | None => Ok (MkVoteCounts total (u32 (vc_TotalAbstain result + 1)) (vc_VoteChoices result))
    | Some i =>
      choice ← or_panic (v_Choices vote !! i);
      Ok (MkVoteCounts total (if ch_IsAbstain choice then u32 (vc_TotalAbstain result + 1) else vc_TotalAbstain result)
            (alter (fun c => u32 (c + 1)) i (vc_VoteChoices result)))
    end.

(** A fold over the key blocks above a key height; a missing node is dereferenced. *)
Fixpoint aboveKeyHeight {A} (fuel : nat) (keyHeight : Z) (f : A -> blockNode -> res treeError A) (acc : A) (countNode : option blockNode) :
    res treeError A :=
  match fuel with
  | O => Err StillWalking
  | S fuel =>
    node ← or_panic countNode;
    if n_keyHeight node >? keyHeight then
      acc ← f acc node;
      prev ← getPrevKeyNodeFromNode node;
      aboveKeyHeight fuel keyHeight f acc prev
    else Ok acc
  end.

Definition countsFrom (node : blockNode) : Z :=
  calcWantHeight (StakeValidationHeight params) (RuleChangeActivationInterval params) (i64 (n_keyHeight node + 1)).

Definition getVoteCounts (node : blockNode) (version : Z) (d : ConsensusDeployment) : res treeError VoteCounts :=
  node ← uncheckedKeyNode GenesisHash index node;
  aboveKeyHeight (walkFuel node) (countsFrom node) (fun result countNode => foldM (countVote version (d_Vote d)) result (n_votes countNode))
    (MkVoteCounts 0 0 ((fun _ => 0) <$> v_Choices (d_Vote d))) (Some node).

Definition GetVoteCounts (bestNode : blockNode) (deployments : gmap Z (list ConsensusDeployment)) (version : Z) (deploymentID : string) :
    res treeError VoteCounts :=
  match findDeployment deployments version deploymentID with
  | None => Err DeploymentError
  | Some (_, d) => getVoteCounts bestNode version d
  end.

Definition CountVoteVersion (bestNode : blockNode) (version : Z) : res treeError Z :=
  countNode ← uncheckedKeyNode GenesisHash index bestNode;
  aboveKeyHeight (walkFuel countNode) (countsFrom countNode)
    (fun total node => Ok (foldl (fun total v => if vv_Version v =? version then u32 (total + 1) else total) total (n_votes node)))
    0 (Some countNode).

End thresholds.

(** ** What the state is *)

Section windows.
Context (GenesisHash : bytes) (GenesisTime : Z) (index : gmap bytes blockNode) (params : VersionParams) (order : gmap Z Z -> list (Z * Z)).
Context (version : Z) (checker : thresholdConditionChecker).

#[local] Notation ancestorKeyNode := (ancestorKeyNode GenesisHash index).
#[local] Notation calcPastMedianTime := (calcPastMedianTime GenesisHash GenesisTime index).
#[local] Notation nextThreshold := (nextThreshold GenesisHash GenesisTime index params order version checker).

(** The last key block of the window before the one that ends with the node. *)
Definition windowBefore (node : blockNode) : res treeError (option blockNode) :=
  ancestorKeyNode node (i64 (i64 (n_keyHeight node - ActivationInterval checker) + 1)).

(** The state after the window that ends with the node, from the states of the windows before, without any cache. *)
Inductive windowState : blockNode -> ThresholdStateTuple -> Prop :=
| ws_early node medianTime : calcPastMedianTime (Some node) = Ok medianTime -> u64 medianTime < BeginTime checker ->
    windowState node (MkTuple ThresholdDefined invalidChoice)
| ws_first node medianTime state : calcPastMedianTime (Some node) = Ok medianTime -> BeginTime checker <= u64 medianTime ->
    windowBefore node = Ok None ->
    uncached (nextThreshold node (MkTuple ThresholdDefined invalidChoice)) = Ok state -> windowState node state
| ws_next node medianTime prev before state : calcPastMedianTime (Some node) = Ok medianTime -> BeginTime checker <= u64 medianTime ->
    windowBefore node = Ok (Some prev) -> windowState prev before ->
    uncached (nextThreshold node before) = Ok state -> windowState node state.

(** The last key block of the last window before the block after the node; none when there is no such window. *)
Definition windowStart (prevNode : blockNode) : res treeError (option blockNode) :=
  key ← keyBlockOf GenesisHash index prevNode;
  match key with
  | None => Ok None
  | Some node =>
    if i64 (n_keyHeight node + 2) <? i64 (ValidationHeight checker + ActivationInterval checker) then Ok None
    else ancestorKeyNode node (calcWantHeight (ValidationHeight checker) (ActivationInterval checker) (i64 (n_keyHeight node + 2)))
  end.

(** The state for the block after the node. *)
Definition stateAfter (prevNode : blockNode) (state : ThresholdStateTuple) : Prop :=
  exists start, windowStart prevNode = Ok start /\
  match start with
  | None => state = MkTuple ThresholdDefined invalidChoice
  | Some window => windowState window state
  end.

Lemma windowState_inv node t st : calcPastMedianTime (Some node) = Ok t -> BeginTime checker <= u64 t -> windowState node st ->
  (windowBefore node = Ok None /\ uncached (nextThreshold node (MkTuple ThresholdDefined invalidChoice)) = Ok st) \/
  (exists prev before, windowBefore node = Ok (Some prev) /\ windowState prev before /\ uncached (nextThreshold node before) = Ok st).
Proof.
  intros E1 E2 H. inversion H as [? t' F1 F2|? t' ? F1 F2 F3 F4|? t' prev before ? F1 F2 F3 Fw F4]; subst;
    assert (t' = t) as -> by congruence; [lia|by left|right; eauto].
Qed.

Lemma windowState_det node st st' : windowState node st -> windowState node st' -> st = st'.
Proof.
  intros H. revert st'. induction H as [node t E1 E2|node t st E1 E2 E3 E4|node t prev before st E1 E2 E3 _ IH E4]; intros st' H';
    inversion H' as [? t' F1 F2|? t' ? F1 F2 F3 F4|? t' prev' before' ? F1 F2 F3 Fw F4]; subst;
    assert (t' = t) as -> by congruence; try lia; try congruence.
  assert (prev' = prev) as -> by congruence. apply IH in Fw as <-. congruence.
Qed.

(** An entry of the cache is the state of a window. *)
Definition statesSound (c : thresholdStateCache) : Prop := forall hash state, c_entries c !! hash = Some state ->
  exists node, hash = n_hash node /\ known index node /\ windowState node state.

Lemma statesSound_lookup c node state : known index node -> statesSound c -> ChainState.Lookup c (n_hash node) = Some state -> windowState node state.
Proof. intros Hn Hc (node'&E&Hk&Hw)%Hc. by rewrite (known_eq index node node'). Qed.

Lemma statesSound_update c node state : known index node -> windowState node state -> statesSound c -> statesSound (Update c (n_hash node) state).
Proof.
  intros Hn Hw Hc hash st. unfold Update. case_decide; [by apply Hc|]. simpl. rewrite lookup_insert_Some.
  intros [[<- <-]|[_ ?]]; [by exists node|by apply Hc].
Qed.

End windows.

(** ** The tree grows *)

(** A tree with the parents of its nodes, which are lower. *)
Record votingTree (GenesisHash : bytes) (params : VersionParams) (index : gmap bytes blockNode) : Prop := {
  vt_tree : treeIndex GenesisHash params index;
  vt_parent : forall hash node parent, index !! hash = Some node -> n_parent node = Some parent -> is_Some (index !! parent);
  vt_prev : forall hash node, index !! hash = Some node ->
    h_PrevBlock (n_header node) = zeroHash \/ is_Some (index !! h_PrevBlock (n_header node));
  vt_zero : index !! zeroHash = None;
  vt_keyHeight : forall hash node, index !! hash = Some node -> 0 <= n_keyHeight node < 2 ^ 32;
  vt_lower : forall hash node prev, index !! hash = Some node -> index !! h_PrevBlock (n_header node) = Some prev ->
    n_height prev < n_height node
}.

Section growth.
Context (GenesisHash : bytes) (GenesisTime : Z) (params : VersionParams) (index index' : gmap bytes blockNode).
Context (Hindex : votingTree GenesisHash params index) (Hindex' : votingTree GenesisHash params index') (Hgrow : index ⊆ index').

Lemma vt_known hash node : index !! hash = Some node -> known index node.
Proof. apply (known_of GenesisHash params), Hindex. Qed.

Lemma prevNode_grow node : known index node -> getPrevNodeFromNode GenesisHash index' node = getPrevNodeFromNode GenesisHash index node.
Proof.
  intros Hn. unfold getPrevNodeFromNode. destruct (n_parent node) as [parent|] eqn:E; [|done].
  destruct (vt_parent _ _ _ Hindex _ _ _ Hn E) as [prev Hp]. by rewrite Hp, (lookup_weaken _ _ _ _ Hp Hgrow).
Qed.

Lemma prevNode_known node prev : getPrevNodeFromNode GenesisHash index node = Ok (Some prev) -> known index prev.
Proof.
  unfold getPrevNodeFromNode. intros H. destruct (n_parent node); [|by case_bool_decide]. inv_res. simplify_eq. by eapply vt_known.
Qed.

Lemma timestamps_grow n node : (forall node', node = Some node' -> known index node') ->
  timestampsFrom GenesisHash index' n node = timestampsFrom GenesisHash index n node.
Proof.
  revert node. induction n as [|n IH]; intros [node|] Hn; [done..| |done]. cbn [timestampsFrom]. rewrite prevNode_grow by auto.
  destruct (getPrevNodeFromNode _ _ _) as [prev|e|] eqn:E; [|done..]. cbn [mbind res_bind]. rewrite IH; [done|].
  intros ? ->. by eapply prevNode_known.
Qed.

Lemma medianTime_grow node : known index node ->
  calcPastMedianTime GenesisHash GenesisTime index' (Some node) = calcPastMedianTime GenesisHash GenesisTime index (Some node).
Proof. intros Hn. unfold calcPastMedianTime. rewrite timestamps_grow; [done|]. by intros ? [= <-]. Qed.

Lemma walkToKeyHeight_grow fuel node keyheight : known index node ->
  walkToKeyHeight index' fuel node keyheight = walkToKeyHeight index fuel node keyheight.
Proof.
  revert node. induction fuel as [|fuel IH]; intros node Hn; [done|]. cbn [walkToKeyHeight]. case_match; [|done].
  destruct (vt_prev _ _ _ Hindex _ _ Hn) as [E|[prev E]].
  - by rewrite E, (vt_zero _ _ _ Hindex), (vt_zero _ _ _ Hindex').
  - rewrite E, (lookup_weaken _ _ _ _ E Hgrow). apply IH. by eapply vt_known.
Qed.

Lemma walkToKeyHeight_known fuel node keyheight r : known index node -> walkToKeyHeight index fuel node keyheight = Ok (Some r) ->
  known index r /\ n_isKeyBlock r = true /\ i64 (n_keyHeight r + 1) <= keyheight.
Proof.
  revert node. induction fuel as [|fuel IH]; intros node Hn H; [done|]. cbn [walkToKeyHeight] in H.
  destruct (_ || _) eqn:Hc.
  - destruct (index !! _) eqn:E; [|done]. eapply IH; [by eapply vt_known|done].
  - simplify_eq. apply orb_false_iff in Hc as [H1 H2%negb_false_iff]. split_and!; [done..|lia].
Qed.

Lemma keyNode_known node r : known index node -> keyNodeOf GenesisHash index node = Ok r -> known index r.
Proof. intros Hn H. unfold keyNodeOf in H. case_match; inv_res; [done|]. eapply prevKey_known; [apply Hindex|done..]. Qed.

Lemma keyBlock_known node r : known index node -> keyBlockOf GenesisHash index node = Ok (Some r) -> known index r.
Proof. intros Hn H. unfold keyBlockOf in H. case_match; [by simplify_eq|]. eapply prevKey_known; [apply Hindex|done..]. Qed.

Lemma keyBlock_grow node : known index node -> keyBlockOf GenesisHash index' node = keyBlockOf GenesisHash index node.
Proof. intros Hn. unfold keyBlockOf. rewrite (prevKey_grow _ params index index'); [done|apply Hindex|done..]. Qed.

Lemma keyNode_grow node : known index node -> keyNodeOf GenesisHash index' node = keyNodeOf GenesisHash index node.
Proof. intros Hn. unfold keyNodeOf. rewrite (prevKey_grow _ params index index'); [done|apply Hindex|done..]. Qed.

Lemma ancestor_grow node keyheight : known index node -> ancestorKeyNode GenesisHash index' node keyheight = ancestorKeyNode GenesisHash index node keyheight.
Proof.
  intros Hn. unfold ancestorKeyNode. rewrite keyNode_grow by done. destruct (keyNodeOf _ _ _) as [key|e|] eqn:E; [|done..].
  cbn [mbind res_bind]. rewrite walkToKeyHeight_grow; [done|by eapply keyNode_known].
Qed.

Lemma ancestor_known node keyheight r : known index node -> ancestorKeyNode GenesisHash index node keyheight = Ok (Some r) ->
  known index r /\ n_isKeyBlock r = true /\ i64 (n_keyHeight r + 1) <= keyheight.
Proof. intros Hn H. unfold ancestorKeyNode in H. inv_res. case_match; inv_res; [done|]. eauto using walkToKeyHeight_known, keyNode_known. Qed.

Section checker.
Context (version : Z) (checker : thresholdConditionChecker).

Lemma countVotes_grow n acc node : (forall node', node = Some node' -> known index node') ->
  countVotes GenesisHash index' version checker n acc node = countVotes GenesisHash index version checker n acc node.
Proof.
  revert acc node. induction n as [|n IH]; intros acc [node|] Hn; [done..| |done]. cbn [countVotes or_panic mbind res_bind].
  destruct (Condition checker node version) as [c|e|]; [|done..]. cbn [mbind res_bind]. destruct (addTally acc c) as [acc'|e|]; [|done..].
  rewrite (prevKey_grow _ params index index'); [|apply Hindex|done|by apply Hn].
  destruct (getPrevKeyNodeFromNode _ _ _) as [prev|e|] eqn:E; [|done..]. apply IH. intros ? ->. eapply prevKey_known; [apply Hindex|by apply Hn|done].
Qed.

Context (Hparams : versionParamsOk params) (order order' : gmap Z Z -> list (Z * Z)).
Context (Horder : forall m, order m ≡ₚ map_to_list m) (Horder' : forall m, order' m ≡ₚ map_to_list m).

#[local] Notation agree := (agree (cachesSound GenesisHash params index order) (cachesSound GenesisHash params index' order')).
#[local] Hint Resolve agree_outcome agree_ret sound_none : voting.

Lemma nextThreshold_agree node st : known index node ->
  agree (nextThreshold GenesisHash GenesisTime index params order version checker node st)
        (nextThreshold GenesisHash GenesisTime index' params order' version checker node st).
Proof.
  intros Hn. unfold nextThreshold, fromDefined, fromStarted. rewrite medianTime_grow, countVotes_grow by (done || by intros ? [= <-]).
  rewrite (isMajorityVersion_grow _ params index index') by (done || apply Hindex).
  repeat case_match; auto with voting; (apply agree_bind; [auto with voting..|]); intros t _; case_match; auto with voting;
    (apply agree_bind; [auto with voting..|]); try (intros ? _; auto with voting; fail).
  - apply stake_version_agree; [done|apply Hindex|done..].
  - intros v _. case_match; auto with voting. apply agree_bind; auto with voting.
Qed.

Lemma nextThreshold_grow node st : known index node ->
  uncached (nextThreshold GenesisHash GenesisTime index' params order' version checker node st) =
  uncached (nextThreshold GenesisHash GenesisTime index params order version checker node st).
Proof. intros Hn. symmetry. eapply agree_uncached; [apply sound_none|apply sound_none|]. by apply nextThreshold_agree. Qed.

#[local] Notation wst := (windowState GenesisHash GenesisTime index params order version checker).
#[local] Notation wst' := (windowState GenesisHash GenesisTime index' params order' version checker).

Lemma windowBefore_grow node : known index node -> windowBefore GenesisHash index' checker node = windowBefore GenesisHash index checker node.
Proof. apply ancestor_grow. Qed.

Lemma windowState_grow node st : known index node -> wst node st -> wst' node st.
Proof.
  intros Hn H. induction H as [node t E1 E2|node t st E1 E2 E3 E4|node t prev before st E1 E2 E3 _ IH E4].
  - eapply ws_early; [by rewrite medianTime_grow|done].
  - eapply ws_first; [by rewrite medianTime_grow|done|by rewrite windowBefore_grow|by rewrite nextThreshold_grow].
  - eapply ws_next; [by rewrite medianTime_grow|done|by rewrite windowBefore_grow|apply IH|by rewrite nextThreshold_grow].
    by eapply ancestor_known.
Qed.

Lemma windowState_shrink node st : known index node -> wst' node st -> wst node st.
Proof.
  intros Hn H. induction H as [node t E1 E2|node t st E1 E2 E3 E4|node t prev before st E1 E2 E3 _ IH E4];
    rewrite medianTime_grow in E1 by done; [by eapply ws_early|..];
    rewrite windowBefore_grow in E3 by done; rewrite nextThreshold_grow in E4 by done; [by eapply ws_first|].
  eapply ws_next; [done..|apply IH|done]. by eapply ancestor_known.
Qed.

Lemma windowStart_grow node : known index node -> windowStart GenesisHash index' checker node = windowStart GenesisHash index checker node.
Proof.
  intros Hn. unfold windowStart. rewrite keyBlock_grow by done.
  destruct (keyBlockOf _ _ _) as [[key|]|e|] eqn:Hk; cbn [mbind res_bind]; [|done..].
  rewrite ancestor_grow; [done|by eapply keyBlock_known].
Qed.

Lemma windowStart_known node window : known index node -> windowStart GenesisHash index checker node = Ok (Some window) -> known index window.
Proof.
  intros Hn H. unfold windowStart in H. inv_res. case_match; [|done]. case_match; [done|]. subst.
  eapply ancestor_known; [|done]. by eapply keyBlock_known.
Qed.

Lemma stateAfter_grow node st : known index node ->
  stateAfter GenesisHash GenesisTime index params order version checker node st <->
  stateAfter GenesisHash GenesisTime index' params order' version checker node st.
Proof.
  intros Hn. unfold stateAfter. rewrite windowStart_grow by done.
  apply exist_proper. intros [window|]; [|done]. split; intros [E H]; (split; [exact E|]);
    (assert (known index window) as Hk by exact (windowStart_known _ _ Hn E)); [by apply windowState_grow|by apply windowState_shrink].
Qed.

End checker.
End growth.

(** ** The code computes it *)

Section runs.
Context (GenesisHash : bytes) (GenesisTime : Z) (params : VersionParams) (index : gmap bytes blockNode) (order : gmap Z Z -> list (Z * Z)).
Context (Hparams : versionParamsOk params) (Hindex : votingTree GenesisHash params index) (Horder : forall m, order m ≡ₚ map_to_list m).
Context (version : Z) (checker : thresholdConditionChecker).
Context (Hwindow : 0 < ActivationInterval checker < 2 ^ 32).

#[local] Notation next := (nextThreshold GenesisHash GenesisTime index params order version checker).
#[local] Notation wst := (windowState GenesisHash GenesisTime index params order version checker).
#[local] Notation over := (overWindows GenesisHash GenesisTime index params order version checker).
#[local] Notation needs := (neededStates GenesisHash GenesisTime index checker).
#[local] Notation resume := (resumeFrom GenesisHash GenesisTime index params order version checker).

(** Both the states and the versions that are cached are right. *)
Definition votingSound (s : thresholdStateCache * versionCaches) : Prop :=
  statesSound GenesisHash GenesisTime index params order version checker s.1 /\ cachesSound GenesisHash params index order s.2.

Definition failed {A} (r : res treeError A) : Prop := forall a, r <> Ok a.

Lemma failed_Err {A} e : failed (A := A) (Err e).
Proof. by intros a. Qed.

Lemma failed_Panic {A} : failed (A := A) Panic.
Proof. by intros a. Qed.

#[local] Hint Resolve failed_Err failed_Panic : core.

Lemma next_sound node st vs : known index node -> cachesSound GenesisHash params index order vs ->
  (next node st vs).1 = uncached (next node st) /\ cachesSound GenesisHash params index order (next node st vs).2.
Proof.
  intros Hn Hs. destruct (nextThreshold_agree GenesisHash GenesisTime params index index Hindex (reflexivity _) version checker Hparams
    order order Horder Horder node st Hn vs noCaches Hs (sound_none _ _ _ _)) as (E&H&_). done.
Qed.

Lemma over_round node needed st s : over (node :: needed) st s =
  match next node st s.2 with
  | (Ok st', vs) => over needed st' (Update s.1 (n_hash node) st', vs)
  | (Err e, vs) => (Err e, (s.1, vs))
  | (Panic, vs) => (Panic, (s.1, vs))
  end.
Proof. cbn [overWindows]. unfold mbind, cM_bind, onVersions, updateState. by destruct (next node st s.2) as [[st'|e|] vs]. Qed.

(** One window more: either its state is put into the cache, or the code stops. *)
Lemma over_step node needed st s : known index node -> votingSound s ->
  (forall st', uncached (next node st) = Ok st' -> wst node st') ->
  (exists st' s', uncached (next node st) = Ok st' /\ votingSound s' /\ over (node :: needed) st s = over needed st' s') \/
  (exists r s', failed (uncached (next node st)) /\ failed r /\ votingSound s' /\ over (node :: needed) st s = (r, s')).
Proof.
  intros Hn [Hc Hv] Hw. destruct (next_sound node st s.2 Hn Hv) as [E Hv'].
  rewrite over_round. destruct (next node st s.2) as [r vs]. simpl in E, Hv'. subst r.
  destruct (uncached (next node st)) as [st'|e|] eqn:E.
  - left. exists st', (Update s.1 (n_hash node) st', vs). split_and!; [done| |done]. split; [|done]. apply statesSound_update; auto.
  - right. exists (Err e), (s.1, vs). split_and!; auto; by split.
  - right. exists Panic, (s.1, vs). split_and!; auto; by split.
Qed.

Lemma windowBefore_lower node prev : known index node -> windowBefore GenesisHash index checker node = Ok (Some prev) ->
  known index prev /\ 0 <= n_keyHeight prev < n_keyHeight node.
Proof.
  intros Hn H. apply (ancestor_known GenesisHash params) in H as (Hp&_&Hl); [|done..]. split; [done|].
  pose proof (vt_keyHeight _ _ _ Hindex _ _ Hn). pose proof (vt_keyHeight _ _ _ Hindex _ _ Hp).
  rewrite !i64_small in Hl by (rewrite ?i64_small; unfold is_i64; lia). lia.
Qed.

(** The outcomes of one round of the search for a known state. *)
Lemma needs_round fuel node needed s :
  needs (S fuel) (Some node) needed s =
  match ChainState.Lookup s.1 (n_hash node) with
  | Some _ => (Ok (Some node, needed), s)
  | None =>
    match calcPastMedianTime GenesisHash GenesisTime index (Some node) with
    | Ok t => if u64 t <? BeginTime checker then
        (Ok (Some node, needed), (Update s.1 (n_hash node) (MkTuple ThresholdDefined invalidChoice), s.2))
      else match windowBefore GenesisHash index checker node with
           | Ok prev => needs fuel prev (node :: needed) s
           | Err e => (Err e, s)
           | Panic => (Panic, s)
           end
    | Err e => (Err e, s)
    | Panic => (Panic, s)
    end
  end.
Proof.
  cbn [neededStates]. unfold mbind, cM_bind, lookupState, outcome, windowBefore. destruct (ChainState.Lookup _ _); [done|].
  destruct (calcPastMedianTime _ _ _ _) as [t|e|]; [|done..]. destruct (_ <? _); [done|]. by destruct (ancestorKeyNode _ _ _ _).
Qed.

Lemma resume_known node needed st s : ChainState.Lookup s.1 (n_hash node) = Some st -> resume (Some node, needed) s = over needed st s.
Proof. intros E. unfold resumeFrom, mbind, cM_bind, lookupState. by rewrite E. Qed.

Lemma Lookup_Update c hash st : ChainState.Lookup (Update c hash st) hash = Some st.
Proof. unfold ChainState.Lookup, Update. case_decide; [done|]. cbn. by rewrite lookup_insert_eq. Qed.

(** From a window on, the code computes its state, or it stops because the window has none. *)
Lemma windows_run fuel node needed s : known index node -> votingSound s ->
  (exists st s', wst node st /\ votingSound s' /\ (needs fuel (Some node) needed ≫= resume) s = over needed st s') \/
  (exists r s', failed r /\ votingSound s' /\ (needs fuel (Some node) needed ≫= resume) s = (r, s') /\
     ((Z.to_nat (n_keyHeight node) + 1 < fuel)%nat -> forall st, ~ wst node st)).
Proof.
  revert node needed s. induction fuel as [|fuel IH]; intros node needed s Hn Hs.
  { right. exists (Err StillWalking), s. split_and!; [done..|lia]. }
  unfold mbind, cM_bind. rewrite needs_round. destruct (ChainState.Lookup s.1 (n_hash node)) as [st|] eqn:Hl.
  { left. exists st, s. rewrite (resume_known _ _ st) by done. split_and!; [|done..]. by eapply statesSound_lookup; [|apply Hs|]. }
  destruct (calcPastMedianTime _ _ _ _) as [t|e|] eqn:Ht.
  2,3: right; eexists _, s; split_and!; [|done|done|]; [done|]; intros _ st Hw; inversion Hw; congruence.
  destruct (u64 t <? BeginTime checker) eqn:Hb.
  { assert (wst node (MkTuple ThresholdDefined invalidChoice)) as Hw by (eapply ws_early; [done|lia]). left.
    eexists _, _. split_and!; [exact Hw| |by rewrite (resume_known _ _ (MkTuple ThresholdDefined invalidChoice)); [|apply Lookup_Update]].
    destruct Hs as [Hc Hv]. split; [by apply statesSound_update|done]. }
  destruct (windowBefore GenesisHash index checker node) as [[prev|]|e|] eqn:Hp.
  3,4: right; eexists _, s; split_and!; [|done|done|]; [done|]; intros _ st Hw; apply (windowState_inv _ _ _ _ _ _ _ _ t) in Hw; [|done|lia];
    destruct Hw as [[? _]|(?&?&?&_)]; congruence.
  - destruct (windowBefore_lower node prev Hn Hp) as [Hk Hlow].
    destruct (IH prev (node :: needed) s Hk Hs) as [(st&s'&Hw&Hs'&E)|(r&s'&Hr&Hs'&E&Hno)]; unfold mbind, cM_bind in E; rewrite E.
    + destruct (over_step node needed st s' Hn Hs') as [(st'&s''&Hn'&Hs''&E')|(r&s''&Hf&Hr&Hs''&E')].
      { intros st' Hst'. eapply ws_next; [done|lia|done..]. }
      { left. exists st', s''. split_and!; [|done..]. eapply ws_next; [done|lia|done..]. }
      { right. exists r, s''. split_and!; [done..|]. intros _ st' Hw'. apply (windowState_inv _ _ _ _ _ _ _ _ t) in Hw'; [|done|lia].
        destruct Hw' as [[? _]|(prev'&before&Hp'&Hb'&Hnext)]; [congruence|]. assert (prev' = prev) as -> by congruence.
        rewrite (windowState_det _ _ _ _ _ _ _ prev st before) in Hf by done. by eapply Hf. }
    + right. exists r, s'. split_and!; [done..|]. intros Hfuel st Hw. apply (windowState_inv _ _ _ _ _ _ _ _ t) in Hw; [|done|lia].
      destruct Hw as [[? _]|(prev'&before&Hp'&Hb'&_)]; [congruence|]. assert (prev' = prev) as -> by congruence.
      eapply Hno; [lia|done].
  - destruct fuel as [|fuel]; [right; exists (Err StillWalking), s; split_and!; [done..|lia]|]. cbn [neededStates mret cM_ret].
    destruct (over_step node needed (MkTuple ThresholdDefined invalidChoice) s Hn Hs) as [(st'&s''&Hn'&Hs''&E')|(r&s''&Hf&Hr&Hs''&E')].
    + intros st' Hst'. eapply ws_first; [done|lia|done..].
    + left. exists st', s''. split_and!; [|done..]. eapply ws_first; [done|lia|done..].
    + right. exists r, s''. split_and!; [done..|]. intros _ st' Hw'. apply (windowState_inv _ _ _ _ _ _ _ _ t) in Hw'; [|done|lia].
      destruct Hw' as [[_ Hnext]|(prev'&before&Hp'&_)]; [|congruence]. by eapply Hf.
Qed.

Lemma thresholdState_windows prevNode s :
  thresholdState GenesisHash GenesisTime index params order version checker prevNode s =
  match windowStart GenesisHash index checker prevNode with
  | Ok start => (needs (windowFuel start) start [] ≫= resume) s
  | Err e => (Err e, s)
  | Panic => (Panic, s)
  end.
Proof.
  unfold thresholdState, windowStart. unfold mbind at 1, cM_bind at 1, outcome at 1.
  destruct (keyBlockOf _ _ _) as [[key|]|e|]; cbn [mbind res_bind]; [|done..].
  destruct (_ <? _); [done|]. by destruct (ancestorKeyNode _ _ _ _).
Qed.

(** The code gives a state exactly when the windows have one, whatever is cached, and caches nothing else. *)
Lemma thresholdState_run prevNode s : known index prevNode -> votingSound s ->
  votingSound (thresholdState GenesisHash GenesisTime index params order version checker prevNode s).2 /\
  forall st, (thresholdState GenesisHash GenesisTime index params order version checker prevNode s).1 = Ok st <->
             stateAfter GenesisHash GenesisTime index params order version checker prevNode st.
Proof.
  intros Hn Hs. rewrite thresholdState_windows. unfold stateAfter.
  destruct (windowStart _ _ _ _) as [[window|]|e|] eqn:Hw.
  2-4: split; [done|]; intros st; split; [intros [=]; subst; by exists None|by intros (?&[= <-]&->)].
  assert (known index window) as Hk by (by eapply windowStart_known).
  destruct (windows_run (windowFuel (Some window)) window [] s Hk Hs) as [(st&s'&Hst&Hs'&->)|(r&s'&Hr&Hs'&->&Hno)].
  - split; [done|]. intros st'. split; [intros [= <-]; eauto|]. intros (?&[= <-]&Hst'). simpl. f_equal. by eapply windowState_det.
  - split; [done|]. intros st. split; [intros H; by destruct (Hr st)|]. intros (?&[= <-]&Hst). apply Hno in Hst; [done|].
    unfold windowFuel. simpl. lia.
Qed.

End runs.

(** ** The fuel is enough *)

Section ends.
Context (GenesisHash : bytes) (GenesisTime : Z) (params : VersionParams) (index : gmap bytes blockNode) (order : gmap Z Z -> list (Z * Z)).
Context (Hparams : versionParamsOk params) (Hindex : votingTree GenesisHash params index) (Horder : forall m, order m ≡ₚ map_to_list m).
Context (version : Z) (checker : thresholdConditionChecker).
Context (Hwindow : 0 < ActivationInterval checker < 2 ^ 32) (Hcondition : forall node, ends (Condition checker node version)).

Lemma medianTime_ends node : ends (calcPastMedianTime GenesisHash GenesisTime index (Some node)).
Proof.
  unfold calcPastMedianTime. apply res_ends_bind; [|intros; apply ends_or_panic]. generalize medianTimeBlocks (Some node). intros n.
  induction n as [|n IH]; intros [node'|]; try done. cbn [timestampsFrom].
  apply res_ends_bind; [|intros prev _; by apply res_ends_bind]. unfold getPrevNodeFromNode, ends. case_match; [|by case_bool_decide].
  by destruct (index !! _).
Qed.

Lemma walkToKeyHeight_ends fuel node keyheight : known index node -> (Z.to_nat (n_height node) < fuel)%nat ->
  ends (walkToKeyHeight index fuel node keyheight).
Proof.
  revert node. induction fuel as [|fuel IH]; intros node Hn Hf; [lia|]. cbn [walkToKeyHeight]. case_match; [|done].
  destruct (index !! _) as [prev|] eqn:E; [|done]. assert (known index prev) as Hk by (by eapply vt_known).
  apply IH; [done|]. pose proof (vt_lower _ _ _ Hindex _ _ _ Hn E). pose proof (ti_height _ _ _ (vt_tree _ _ _ Hindex) _ _ Hk) as [? _]. lia.
Qed.

Lemma ancestor_ends node keyheight : known index node -> ends (ancestorKeyNode GenesisHash index node keyheight).
Proof.
  intros Hn. unfold ancestorKeyNode. apply res_ends_bind.
  - unfold keyNodeOf. case_match; [done|]. apply res_ends_bind; [eapply prevKey_ends; [apply Hindex|done]|]. intros; apply ends_or_panic.
  - intros key Hkey. case_match; [done|]. apply walkToKeyHeight_ends; [by eapply keyNode_known|unfold walkFuel; lia].
Qed.

Lemma countVotes_ends n acc node : (forall node', node = Some node' -> known index node') ->
  ends (countVotes GenesisHash index version checker n acc node).
Proof.
  revert acc node. induction n as [|n IH]; intros acc node Hn; [done|]. cbn [countVotes]. apply res_ends_bind; [apply ends_or_panic|].
  intros node' E%or_panic_Ok. apply res_ends_bind; [done|]. intros c _. apply res_ends_bind.
  - unfold addTally. generalize ((if (length acc.1 =? 0)%nat then (fun _ => MkTally 0 false false) <$> c else acc.1), acc.2).
    induction (indexed c) as [|kc l IHl]; intros acc'; [done|]. cbn [foldM]. apply res_ends_bind; [|done]. unfold addChoice. destruct acc'.
    apply res_ends_bind; [apply ends_or_panic|done].
  - intros acc' _. apply res_ends_bind; [eapply prevKey_ends; [apply Hindex|by apply Hn]|]. intros prev Hp. apply IH. intros ? ->.
    eapply prevKey_known; [apply Hindex|by apply Hn|done].
Qed.

Lemma next_ends node st vs : known index node -> cachesSound GenesisHash params index order vs ->
  ends (nextThreshold GenesisHash GenesisTime index params order version checker node st vs).1.
Proof.
  intros Hn Hv. unfold nextThreshold. repeat case_match; try done.
  - unfold fromDefined. case_match; [done|]. unfold mbind at 1, cM_bind at 1, outcome at 1. pose proof (medianTime_ends node) as Hm.
    destruct (calcPastMedianTime _ _ _ _) as [t|e|]; [|by intros [= ->]|done]. case_match; [done|].
    pose proof (stake_version_ends GenesisHash params index (vt_tree _ _ _ Hindex) order node Hparams Horder Hn) as Hs. unfold uncached in Hs.
    rewrite <- (proj1 (stake_version_agree _ _ index index Hparams (vt_tree _ _ _ Hindex) (reflexivity _) order order Horder Horder node Hn vs noCaches
      Hv (sound_none _ _ _ _))) in Hs.
    unfold mbind at 1, cM_bind at 1. destruct (calcStakeVersion _ _ _ _ _ _) as [[sv|e|] vs']; [|by intros [= ->]|done].
    case_match; [done|]. apply endsM_outcome; [|intros; apply endsM_ret]. eapply isMajorityVersion_ends; [apply Hindex|done].
  - unfold fromStarted. unfold mbind at 1, cM_bind at 1, outcome at 1. pose proof (medianTime_ends node) as Hm.
    destruct (calcPastMedianTime _ _ _ _) as [t|e|]; [|by intros [= ->]|done]. case_match; [done|].
    apply endsM_outcome; [|intros; apply endsM_ret]. apply countVotes_ends. by intros ? [= <-].
Qed.

Lemma over_ends needed st s : (forall node, node ∈ needed -> known index node) -> cachesSound GenesisHash params index order s.2 ->
  ends (overWindows GenesisHash GenesisTime index params order version checker needed st s).1.
Proof.
  revert st s. induction needed as [|node needed IH]; intros st s Hk Hs; [done|]. rewrite over_round.
  assert (known index node) as Hn by (apply Hk; by left).
  pose proof (next_ends node st s.2 Hn Hs) as He. pose proof (next_sound _ GenesisTime _ _ _ Hparams Hindex Horder version checker node st s.2 Hn Hs) as [_ Hs'].
  destruct (nextThreshold _ _ _ _ _ _ _ _ _ _) as [[st'|e|] vs]; [|by intros [= ->]|done]. apply IH; [|done]. intros node' Hn'. apply Hk. by right.
Qed.

Lemma needs_ends fuel node needed s : (forall node', node = Some node' -> known index node' /\ (Z.to_nat (n_keyHeight node') + 1 < fuel)%nat) ->
  (0 < fuel)%nat -> (forall node', node' ∈ needed -> known index node') ->
  let '(r, s') := neededStates GenesisHash GenesisTime index checker fuel node needed s in
  ends r /\ s'.2 = s.2 /\ forall start needed', r = Ok (start, needed') -> forall node', node' ∈ needed' -> known index node'.
Proof.
  revert node needed s. induction fuel as [|fuel IH]; intros [node|] needed s Hn Hf Hk; [lia..| |].
  2: { cbn. split_and!; [done..|]. by intros start needed' [= <- <-]. }
  destruct (Hn node eq_refl) as [Hk' Hl]. rewrite needs_round.
  destruct (ChainState.Lookup _ _); [split_and!; [done..|]; by intros start needed' [= <- <-]|].
  pose proof (medianTime_ends node) as Hm. destruct (calcPastMedianTime _ _ _ _) as [t|e|]; [|split_and!; [by intros [= ->]|done..]|done].
  destruct (_ <? _); [split_and!; [done..|]; by intros start needed' [= <- <-]|].
  pose proof (ancestor_ends node (i64 (i64 (n_keyHeight node - ActivationInterval checker) + 1)) Hk') as Ha.
  destruct (windowBefore GenesisHash index checker node) as [prev|e|] eqn:Hp;
    [|split_and!; [intros [= ->]; by apply Ha|done..]|done].
  apply IH; [|lia|].
  - intros node' ->. pose proof (windowBefore_lower _ _ _ Hindex checker Hwindow _ _ Hk' Hp) as [? ?]. split; [done|lia].
  - intros node' Hin. inversion Hin; subst; [done|by apply Hk].
Qed.

(** The state is computed without running out of fuel. *)
Lemma thresholdState_ends prevNode s : known index prevNode ->
  votingSound GenesisHash GenesisTime params index order version checker s ->
  ends (thresholdState GenesisHash GenesisTime index params order version checker prevNode s).1.
Proof.
  intros Hn Hs. rewrite thresholdState_windows. assert (ends (windowStart GenesisHash index checker prevNode)) as Hw.
  { unfold windowStart. apply res_ends_bind; [unfold keyBlockOf; case_match; [done|]; eapply prevKey_ends; [apply Hindex|done]|].
    intros [key|] Hk; [|done]. case_match; [done|]. apply ancestor_ends. by eapply keyBlock_known. }
  destruct (windowStart _ _ _ _) as [start|e|] eqn:Hstart; [|by intros [= ->]|done].
  pose proof (needs_ends (windowFuel start) start [] s) as Hneeds. unfold mbind, cM_bind.
  destruct (neededStates _ _ _ _ _ _ _) as [r s']. destruct Hneeds as (He&Hv&Hk).
  - intros node ->. split; [by eapply windowStart_known|]. unfold windowFuel. cbn. lia.
  - unfold windowFuel. lia.
  - intros node Hin. inversion Hin.
  - destruct r as [[found needed]|e|]; [|by intros [= ->]|done]. specialize (Hk _ _ eq_refl).
    destruct found as [node|]; cbn [resumeFrom]; [|apply over_ends; [done|rewrite Hv; apply Hs]].
    unfold mbind, cM_bind, lookupState. destruct (ChainState.Lookup _ _); [|done]. apply over_ends; [done|rewrite Hv; apply Hs].
Qed.

End ends.

(** A mask of 16 bits has a lowest bit. *)
Lemma shiftOf_ends mask : 0 < mask < 2 ^ 16 -> ends (shiftOf 16 mask 0).
Proof.
  assert (forall fuel mask shift, 0 < mask < 2 ^ Z.of_nat fuel -> ends (shiftOf fuel mask shift)) as H.
  { clear mask. intros fuel. induction fuel as [|fuel IH]; intros mask shift Hm; [cbn in Hm; lia|]. cbn [shiftOf]. case_match eqn:Hb; [done|].
    apply IH. rewrite Z.shiftr_div_pow2 by done. change (2 ^ 1) with 2. rewrite Nat2Z.inj_succ, Z.pow_succ_r in Hm by lia.
    assert (mask mod 2 = 0) as Hmod. { change 1 with (Z.ones 1) in Hb at 1. rewrite Z.land_ones in Hb by done. change (2 ^ 1) with 2 in Hb. pose proof (Z.mod_pos_bound mask 2). lia. }
    pose proof (Z.div_mod mask 2). lia. }
  intros Hm. by apply H.
Qed.

Lemma condition_ends d node version : 0 <= v_Mask (d_Vote d) < 2 ^ 16 -> ends (deploymentCondition d node version).
Proof. intros Hm. unfold deploymentCondition. case_match; [done|]. apply res_ends_bind; [apply shiftOf_ends; lia|done]. Qed.

(** ** The deployments of a chain *)

Lemma newThresholdCaches_lookup (versions : list (Z * list ConsensusDeployment)) v : NoDup versions.*1 ->
  newThresholdCaches versions !! v = (fun ds => (fun _ => MkCache ∅ ∅) <$> ds) <$> (list_to_map versions : gmap Z (list ConsensusDeployment)) !! v.
Proof.
  unfold newThresholdCaches. set (f := fun (caches : gmap Z (list thresholdStateCache)) (v : Z * list ConsensusDeployment) => _).
  assert (forall caches, NoDup versions.*1 -> (forall v, v ∈ versions.*1 -> caches !! v = None) -> foldl f caches versions !! v =
    match (list_to_map versions : gmap Z (list ConsensusDeployment)) !! v with
    | Some ds => Some ((fun _ => MkCache ∅ ∅) <$> ds) | None => caches !! v end) as H.
  { induction versions as [|[w ds] versions IH]; intros caches Hd Hnone; [done|]. apply NoDup_cons in Hd as [Hw Hd]. cbn [foldl fmap list_fmap list_to_map foldr].
    unfold uncurry. rewrite IH; [|done|].
    - destruct (decide (w = v)) as [->|Hne].
      + rewrite lookup_insert_eq, (not_elem_of_list_to_map_1 versions v Hw). unfold f. simpl. by rewrite lookup_insert_eq.
      + rewrite lookup_insert_ne by done. case_match; [done|]. unfold f. simpl. by rewrite lookup_insert_ne.
    - intros v' Hv'. unfold f. simpl. rewrite lookup_insert_ne; [|by intros ->]. apply Hnone. set_solver. }
  intros Hd. rewrite (H ∅ Hd); [|done]. by destruct (_ !! v).
Qed.

(** What a tree says about its nodes holds in a larger one. *)
Lemma votingTree_node (GenesisHash : bytes) (params : VersionParams) (index index' : gmap bytes blockNode) hash node :
  votingTree GenesisHash params index -> index ⊆ index' -> index' !! zeroHash = None -> index !! hash = Some node ->
  n_hash node = hash /\
  (n_hash node = GenesisHash \/ h_PrevKeyBlock (n_header node) = zeroHash \/ is_Some (index' !! h_PrevKeyBlock (n_header node))) /\
  (forall prev, n_hash node <> GenesisHash -> h_PrevKeyBlock (n_header node) <> zeroHash ->
     index' !! h_PrevKeyBlock (n_header node) = Some prev -> n_height prev < n_height node) /\
  (forall parent, n_parent node = Some parent -> is_Some (index' !! parent)) /\
  (h_PrevBlock (n_header node) = zeroHash \/ is_Some (index' !! h_PrevBlock (n_header node))) /\
  (forall prev, index' !! h_PrevBlock (n_header node) = Some prev -> n_height prev < n_height node).
Proof.
  intros [[A1 A2 A3 A4 A5] B1 B2 B3 B4 B5] Hsub Hz Hn.
  assert (forall h, is_Some (index !! h) -> index' !! h = index !! h) as Hup by (intros h [x E]; rewrite E; by eapply lookup_weaken).
  split_and!.
  - by apply A1.
  - destruct (A2 _ _ Hn) as [|[|E]]; [by left|by right; left|]. right; right. by rewrite Hup.
  - intros prev Hg Hk Hp. destruct (A2 _ _ Hn) as [|[|E]]; [done..|]. rewrite Hup in Hp by done. by eapply (A3 _ _ Hn).
  - intros parent E. pose proof (B1 _ _ _ Hn E). by rewrite Hup.
  - destruct (B2 _ _ Hn) as [|E]; [by left|]. right. by rewrite Hup.
  - intros prev Hp. destruct (B2 _ _ Hn) as [E|E]; [congruence|]. rewrite Hup in Hp by done. by eapply B5.
Qed.

Lemma votingTree_union (GenesisHash : bytes) (params : VersionParams) (index1 index2 : gmap bytes blockNode) :
  votingTree GenesisHash params index1 -> votingTree GenesisHash params index2 -> map_agree index1 index2 ->
  votingTree GenesisHash params (index1 ∪ index2).
Proof.
  intros H1 H2 Ha. assert ((index1 ∪ index2) !! zeroHash = None) as Hz by (by rewrite lookup_union, (vt_zero _ _ _ H1), (vt_zero _ _ _ H2)).
  assert (forall hash node, (index1 ∪ index2) !! hash = Some node -> exists index, votingTree GenesisHash params index /\
    index ⊆ index1 ∪ index2 /\ index !! hash = Some node) as Hcase.
  { intros hash node [E|[_ E]]%lookup_union_Some_raw; [exists index1|exists index2]; split_and!; try done;
      [apply map_union_subseteq_l|by apply union_grow]. }
  split; [split|..]; try done; intros hash node; [..|intros parent|intros E|intros E|intros prev E];
    try (intros E); destruct (Hcase _ _ E) as (index&Hi&Hsub&Hn); pose proof (votingTree_node _ _ _ _ _ _ Hi Hsub Hz Hn) as (?&?&?&?&?&?); try done; auto.
  - split; [by apply (ti_height _ _ _ (vt_tree _ _ _ Hi) _ _ Hn)|done].
  - by apply (ti_versions _ _ _ (vt_tree _ _ _ Hi) _ _ Hn).
  - by apply (ti_votes _ _ _ (vt_tree _ _ _ Hi) _ _ Hn).
  - by apply (vt_keyHeight _ _ _ Hi _ _ Hn).
Qed.

Section deployments.
Context (GenesisHash : bytes) (GenesisTime : Z) (params : VersionParams) (deployments : gmap Z (list ConsensusDeployment)).

#[local] Notation caches := (gmap Z (list thresholdStateCache) * versionCaches)%type.

Definition cacheOf (s : caches) (version : Z) (k : nat) : option thresholdStateCache := s.1 !! version ≫= (.!! k).

(** Every deployment has a cache, with states of its windows. *)
Definition chainSound (index : gmap bytes blockNode) (order : gmap Z Z -> list (Z * Z)) (s : caches) : Prop :=
  cachesSound GenesisHash params index order s.2 /\
  forall version k d, deployments !! version ≫= (.!! k) = Some d -> exists cache, cacheOf s version k = Some cache /\
    statesSound GenesisHash GenesisTime index params order version (deploymentChecker params d) cache.

(** The life of a node of the network: the tree grows, states and versions are asked for, and the caches are marked flushed. *)
Inductive votingHistory : gmap bytes blockNode -> caches -> Prop :=
| vo_start index : votingTree GenesisHash params index -> votingHistory index (newThresholdCaches (map_to_list deployments), noCaches)
| vo_grow index index' s : votingHistory index s -> index ⊆ index' -> votingTree GenesisHash params index' -> votingHistory index' s
| vo_state index s order prevNode version deploymentID : votingHistory index s -> (forall m, order m ≡ₚ map_to_list m) -> known index prevNode ->
    votingHistory index (deploymentState GenesisHash GenesisTime index params order deployments prevNode version deploymentID s).2
| vo_version index s vs : votingHistory index s -> versionQuery GenesisHash params index s.2 vs -> votingHistory index (s.1, vs)
| vo_flushed index s : votingHistory index s -> votingHistory index (markThresholdCachesFlushed s.1, s.2).

Context (Hparams : versionParamsOk params) (Hinterval : 0 < RuleChangeActivationInterval params < 2 ^ 32).

Lemma deploymentState_run index order prevNode version deploymentID s :
  votingTree GenesisHash params index -> (forall m, order m ≡ₚ map_to_list m) -> known index prevNode -> chainSound index order s ->
  chainSound index order (deploymentState GenesisHash GenesisTime index params order deployments prevNode version deploymentID s).2 /\
  forall st, (deploymentState GenesisHash GenesisTime index params order deployments prevNode version deploymentID s).1 = Ok st <->
    exists k d, findDeployment deployments version deploymentID = Some (k, d) /\
      stateAfter GenesisHash GenesisTime index params order version (deploymentChecker params d) prevNode st.
Proof.
  intros Hi Ho Hn Hs. unfold deploymentState. destruct (findDeployment _ _ _) as [[k d]|] eqn:Hf.
  2: { split; [done|]. intros st. split; [done|]. by intros (?&?&?&_). }
  assert (deployments !! version ≫= (.!! k) = Some d) as Hd.
  { unfold findDeployment in Hf. apply list_find_Some in Hf as (Hl&_). by destruct (deployments !! version). }
  destruct (proj2 Hs _ _ _ Hd) as (cache&Hc&Hst). unfold cacheOf in Hc. rewrite Hc.
  destruct (thresholdState_run GenesisHash GenesisTime params index order Hparams Hi Ho version (deploymentChecker params d) Hinterval
    prevNode (cache, s.2) Hn) as [[Hst' Hv'] Hrun]; [split; [done|apply Hs]|].
  destruct (thresholdState _ _ _ _ _ _ _ _ _) as [r [cache' vs]]. simpl in *. split.
  - split; [done|]. intros version' k' d' Hd'. unfold cacheOf. simpl. destruct (decide (version' = version)) as [->|Hne].
    + rewrite lookup_alter_eq. destruct (s.1 !! version) as [cs|] eqn:Hcs; [|done]. simpl in *.
      destruct (decide (k' = k)) as [->|Hk].
      * rewrite list_lookup_insert_eq by (by eapply lookup_lt_Some). exists cache'. split; [done|]. by simplify_eq.
      * rewrite list_lookup_insert_ne by done. destruct (proj2 Hs _ _ _ Hd') as (c&Hc'&?). unfold cacheOf in Hc'. rewrite Hcs in Hc'. eauto.
    + rewrite lookup_alter_ne by done. by apply (proj2 Hs).
  - intros st. rewrite Hrun. split; [eauto|]. by intros (?&?&[= <- <-]&?).
Qed.

Lemma deploymentState_ends index order prevNode version deploymentID s :
  votingTree GenesisHash params index -> (forall m, order m ≡ₚ map_to_list m) -> known index prevNode -> chainSound index order s ->
  (forall version ds d, deployments !! version = Some ds -> d ∈ ds -> 0 <= v_Mask (d_Vote d) < 2 ^ 16) ->
  (deploymentState GenesisHash GenesisTime index params order deployments prevNode version deploymentID s).1 <> Err StillWalking.
Proof.
  intros Hi Ho Hn Hs Hm. unfold deploymentState. destruct (findDeployment _ _ _) as [[k d]|] eqn:Hf; [|done].
  unfold findDeployment in Hf. apply list_find_Some in Hf as (Hl&_). destruct (deployments !! version) as [ds|] eqn:Hds; [|done]. cbn in Hl.
  assert (deployments !! version ≫= (.!! k) = Some d) as Hd by (by rewrite Hds).
  destruct (proj2 Hs _ _ _ Hd) as (cache&Hc&Hst). unfold cacheOf in Hc. rewrite Hc.
  pose proof (thresholdState_ends GenesisHash GenesisTime params index order Hparams Hi Ho version (deploymentChecker params d) Hinterval
    (fun node => condition_ends d node version (Hm _ _ _ Hds (list_elem_of_lookup_2 _ _ _ Hl))) prevNode (cache, s.2) Hn) as He.
  destruct (thresholdState _ _ _ _ _ _ _ _ _) as [r [cache' vs]]. apply He. split; [done|apply Hs].
Qed.

Lemma chainSound_grow index index' order order' s : votingTree GenesisHash params index -> votingTree GenesisHash params index' -> index ⊆ index' ->
  (forall m, order m ≡ₚ map_to_list m) -> (forall m, order' m ≡ₚ map_to_list m) -> chainSound index order s -> chainSound index' order' s.
Proof.
  intros Hi Hi' Hsub Ho Ho' [Hv Hs]. split.
  - exact (sound_grow _ _ index index' Hparams (vt_tree _ _ _ Hi) Hsub order order' Ho Ho' _ Hv).
  - intros version k d (cache&Hc&Hst)%Hs. exists cache. split; [done|]. intros hash st (node&->&Hn&Hw)%Hst. exists node.
    split_and!; [done|by eapply lookup_weaken|]. by apply (windowState_grow _ _ _ index index' Hi Hi' Hsub version (deploymentChecker params d) Hparams order order' Ho Ho').
Qed.

Lemma votingHistory_sound order index s : (forall m, order m ≡ₚ map_to_list m) -> votingHistory index s ->
  votingTree GenesisHash params index /\ chainSound index order s.
Proof.
  intros Ho H. revert order Ho. induction H as [index Hi|index index' s _ IH Hsub Hi'|index s order' node v id _ IH Ho' Hk
    |index s vs _ IH Hq|index s _ IH]; intros order Ho.
  - split; [done|]. split; [apply sound_none|]. intros version k d Hd. exists (MkCache ∅ ∅). split; [|done].
    unfold cacheOf. simpl. rewrite newThresholdCaches_lookup, list_to_map_to_list by apply NoDup_fst_map_to_list.
    destruct (deployments !! version) as [ds|]; [|done]. simpl in *. by rewrite list_lookup_fmap, Hd.
  - destruct (IH order Ho) as [Hi Hs]. split; [done|]. by apply (chainSound_grow index index' order).
  - destruct (IH order' Ho') as [Hi Hs]. split; [done|]. apply (chainSound_grow index index order'); [done..|]. by apply deploymentState_run.
  - destruct (IH order Ho) as [Hi [Hv Hs]]. split; [done|]. split; [|done]. by eapply query_sound, Hv; [..|apply Hi|].
  - destruct (IH order Ho) as [Hi [Hv Hs]]. split; [done|]. split; [done|]. intros version k d (cache&Hc&Hst)%Hs.
    exists (MarkFlushed cache). split; [|done]. unfold cacheOf, markThresholdCachesFlushed in *. simpl. rewrite lookup_fmap.
    destruct (s.1 !! version) as [cs|]; [|done]. simpl in *. by rewrite list_lookup_fmap, Hc.
Qed.

(** C10: Whether a rule change is in force is a function of the chain: two nodes of the network that know a block
    compute the same state of every deployment for the block after it, whatever other blocks they know, whatever
    they have computed, cached and flushed before, and in whatever order Go iterates over its maps; and
    this state is the one that the states of the windows of the chain define; and the computation ends. *)
Theorem deployment_consensus index1 index2 s1 s2 order1 order2 prevNode version deploymentID st :
  votingHistory index1 s1 -> votingHistory index2 s2 -> map_agree index1 index2 ->
  (forall m, order1 m ≡ₚ map_to_list m) -> (forall m, order2 m ≡ₚ map_to_list m) ->
  known index1 prevNode -> known index2 prevNode ->
  (forall version ds d, deployments !! version = Some ds -> d ∈ ds -> 0 <= v_Mask (d_Vote d) < 2 ^ 16) ->
  ((deploymentState GenesisHash GenesisTime index1 params order1 deployments prevNode version deploymentID s1).1 = Ok st <->
   (deploymentState GenesisHash GenesisTime index2 params order2 deployments prevNode version deploymentID s2).1 = Ok st) /\
  ((deploymentState GenesisHash GenesisTime index1 params order1 deployments prevNode version deploymentID s1).1 = Ok st <->
   exists k d, findDeployment deployments version deploymentID = Some (k, d) /\
     stateAfter GenesisHash GenesisTime index1 params order1 version (deploymentChecker params d) prevNode st) /\
  (deploymentState GenesisHash GenesisTime index1 params order1 deployments prevNode version deploymentID s1).1 <> Err StillWalking.
Proof.
  intros H1 H2 Ha Ho1 Ho2 Hk1 Hk2 Hm.
  destruct (votingHistory_sound order1 index1 s1 Ho1 H1) as [Hi1 Hs1], (votingHistory_sound order2 index2 s2 Ho2 H2) as [Hi2 Hs2].
  assert (votingTree GenesisHash params (index1 ∪ index2)) as Hi by (by apply votingTree_union).
  split_and!; [|by apply deploymentState_run|by apply (deploymentState_ends index1 order1)].
  rewrite (proj2 (deploymentState_run index1 order1 prevNode version deploymentID s1 Hi1 Ho1 Hk1 Hs1)),
    (proj2 (deploymentState_run index2 order2 prevNode version deploymentID s2 Hi2 Ho2 Hk2 Hs2)).
  apply exist_proper. intros k. apply exist_proper. intros d.
  rewrite (stateAfter_grow _ _ params index1 (index1 ∪ index2)) with (order' := order1) by (done || apply map_union_subseteq_l).
  by rewrite (stateAfter_grow _ _ params index2 (index1 ∪ index2)) with (order' := order1) by (done || by apply union_grow).
Qed.

End deployments.

(** ** What the votes are *)

Lemma u32_add_l x y : u32 (u32 x + y) = u32 (x + y).
Proof. unfold u32. by rewrite Z.add_mod_idemp_l. Qed.

Lemma u32_add_r x y : u32 (x + u32 y) = u32 (x + y).
Proof. unfold u32. by rewrite Z.add_mod_idemp_r. Qed.

Lemma foldl_same {A B} (f g : A -> B -> A) a l : (forall a b, f a b = g a b) -> foldl f a l = foldl g a l.
Proof. intros H. revert a. induction l as [|b l IH]; intros a; [done|]. simpl. by rewrite H. Qed.

Section votes.
Context (d : ConsensusDeployment) (version : Z).

(** The choice that the bits of a vote make. *)
Definition choiceOf (bits : Z) : option nat :=
  match shiftOf 16 (v_Mask (d_Vote d)) 0 with
  | Ok shift =>
    let idx := Z.shiftr (Z.land (v_Mask (d_Vote d)) bits) shift in
    if idx >? Z.of_nat (length (v_Choices (d_Vote d))) - 1 then None else Some (Z.to_nat idx)
  | _ => None
  end.

(** The number of votes of the version for a choice. *)
Definition votesIn (votes : list VoteVersionTuple) (k : nat) : Z :=
  Z.of_nat (length (filter (fun v => vv_Version v = version /\ choiceOf (vv_Bits v) = Some k) votes)).

Definition votesFor (nodes : list blockNode) (k : nat) : Z := votesIn (nodes ≫= n_votes) k.

(** The number of votes for choices of a kind, which the flags [IsAbstain] and [IsNo] tell. *)
Definition votesOf (p : bool -> bool -> bool) (nodes : list blockNode) : Z :=
  foldr (fun (kc : nat * Choice) sum => if p (ch_IsAbstain kc.2) (ch_IsNo kc.2) then votesFor nodes kc.1 + sum else sum) 0
    (indexed (v_Choices (d_Vote d))).

(** Those that the threshold is a part of, and those that make a quorum. *)
Definition takesPart (isAbstain isNo : bool) : bool := negb isAbstain.

Definition makesQuorum (isAbstain isNo : bool) : bool := negb (isAbstain && negb isNo).

(** The tally of the nodes. *)
Definition tallyOf (nodes : list blockNode) : list thresholdConditionTally :=
  (fun kc : nat * Choice => MkTally (u32 (votesFor nodes kc.1)) (ch_IsAbstain kc.2) (ch_IsNo kc.2)) <$> indexed (v_Choices (d_Vote d)).

Lemma votesIn_app votes votes' k : votesIn (votes ++ votes') k = votesIn votes k + votesIn votes' k.
Proof. unfold votesIn. rewrite filter_app, length_app. lia. Qed.

Lemma indexed_fmap {A B} (f : nat -> A -> B) (l : list A) k :
  ((fun kx : nat * A => f kx.1 kx.2) <$> indexed l) !! k = f k <$> l !! k.
Proof.
  unfold indexed. rewrite list_lookup_fmap, lookup_zip_with. destruct (l !! k) as [x|] eqn:E.
  - rewrite lookup_seq_lt by (by eapply lookup_lt_Some). done.
  - by destruct (seq 0 (length l) !! k).
Qed.

Lemma tallyOf_lookup nodes k : tallyOf nodes !! k =
  (fun c => MkTally (u32 (votesFor nodes k)) (ch_IsAbstain c) (ch_IsNo c)) <$> v_Choices (d_Vote d) !! k.
Proof. apply (indexed_fmap (fun k c => MkTally (u32 (votesFor nodes k)) (ch_IsAbstain c) (ch_IsNo c))). Qed.

Lemma votesIn_cons v votes k :
  votesIn (v :: votes) k = (if decide (vv_Version v = version /\ choiceOf (vv_Bits v) = Some k) then 1 else 0) + votesIn votes k.
Proof. unfold votesIn. rewrite filter_cons. case_decide; cbn [length]; lia. Qed.

Lemma tallyVote_lookup shift tally v k : shiftOf 16 (v_Mask (d_Vote d)) 0 = Ok shift ->
  tallyVote (d_Vote d) version shift tally v !! k =
  (if decide (vv_Version v = version /\ choiceOf (vv_Bits v) = Some k) then incTally else id) <$> tally !! k.
Proof.
  intros Hs. unfold tallyVote, choiceOf. rewrite Hs. cbn zeta. destruct (Z.eqb_spec version (vv_Version v)) as [E|E]; cbn [negb].
  2: { rewrite decide_False by (intros [? _]; congruence). by rewrite option_fmap_id. }
  destruct (_ >? _) eqn:Hi; [rewrite decide_False by (intros [_ [=]]); by rewrite option_fmap_id|].
  destruct (decide (Z.to_nat (Z.shiftr (Z.land (v_Mask (d_Vote d)) (vv_Bits v)) shift) = k)) as [Hk|Hk].
  - rewrite decide_True by (split; congruence). by rewrite <- Hk, list_lookup_alter_eq.
  - rewrite decide_False by (intros [_ [= ?]]; done). by rewrite list_lookup_alter_ne, option_fmap_id.
Qed.

Lemma tallyVotes_lookup shift votes tally k : shiftOf 16 (v_Mask (d_Vote d)) 0 = Ok shift ->
  (forall t, tally !! k = Some t -> is_u32 (tc_count t)) ->
  foldl (tallyVote (d_Vote d) version shift) tally votes !! k =
  (fun t => MkTally (u32 (tc_count t + votesIn votes k)) (tc_isAbstain t) (tc_isNo t)) <$> tally !! k.
Proof.
  intros Hs. revert tally. induction votes as [|v votes IH]; intros tally Hr; cbn [foldl].
  - destruct (tally !! k) as [[c a n]|] eqn:E; [|done]. specialize (Hr _ eq_refl). cbn in Hr |- *. f_equal. unfold votesIn. cbn [filter length].
    by rewrite Z.add_0_r, u32_small.
  - rewrite IH, votesIn_cons; rewrite (tallyVote_lookup _ _ _ _ Hs).
    + destruct (tally !! k) as [[c a n]|]; [|done]. case_decide; simpl; [|done]. do 2 f_equal. rewrite u32_add_l. f_equal. lia.
    + intros t (t'&E&->)%fmap_Some. specialize (Hr _ E). case_decide; [apply u32_range|done].
Qed.

Lemma condition_tally node tally : deploymentCondition d node version = Ok tally -> tally = tallyOf [node].
Proof.
  unfold deploymentCondition. case_match; [done|]. intros Ht. apply bind_Ok in Ht as (shift&Hs&[= <-]). apply list_eq. intros k.
  rewrite tallyOf_lookup. unfold votesFor. cbn [mbind list_bind]. rewrite app_nil_r.
  rewrite tallyVotes_lookup, list_lookup_fmap; [by destruct (v_Choices (d_Vote d) !! k)|done|].
  intros t. rewrite list_lookup_fmap. by intros (c&_&->)%fmap_Some.
Qed.

(** Adding two tallies of the same choices. *)
Definition addCount (a b : thresholdConditionTally) : thresholdConditionTally :=
  MkTally (u32 (tc_count a + tc_count b)) (tc_isAbstain b) (tc_isNo b).

Definition addTotal (total : Z) (t : thresholdConditionTally) : Z := if tc_isAbstain t then total else u32 (total + tc_count t).

Lemma addChoice_at counts total k x t : counts !! k = Some x ->
  addChoice (counts, total) (k, t) = Ok (<[k := addCount x t]> counts, addTotal total t).
Proof. intros H. unfold addChoice. cbn [fst snd]. by rewrite H. Qed.

Lemma addTally_zip counts total c : length counts = length c ->
  addTally (counts, total) c = Ok (zip_with addCount counts c, foldl addTotal total c).
Proof.
  intros Hl. unfold addTally. cbn [fst snd]. trans (foldM addChoice (counts, total) (indexed c)).
  { destruct counts; [by destruct c|done]. }
  assert (forall pre counts total, length counts = length c ->
    foldM addChoice (pre ++ counts, total) (zip (seq (length pre) (length c)) c) =
    Ok (pre ++ zip_with addCount counts c, foldl addTotal total c)) as H.
  { clear. induction c as [|t c IH]; intros pre [|x counts] total Hl; try done. cbn [length seq zip zip_with foldM].
    rewrite (addChoice_at _ _ _ x) by (by apply list_lookup_middle). cbn [mbind res_bind].
    rewrite insert_app_r_alt, Nat.sub_diag by lia. cbn [insert list_insert].
    specialize (IH (pre ++ [addCount x t]) counts (addTotal total t)). rewrite length_app, Nat.add_1_r, <- !app_assoc in IH. apply IH.
    by injection Hl. }
  exact (H [] counts total Hl).
Qed.

Lemma addTally_first c : addTally ([], 0) c = addTally ((fun _ => MkTally 0 false false) <$> c, 0) c.
Proof. by destruct c. Qed.

Lemma votesFor_app nodes nodes' k : votesFor (nodes ++ nodes') k = votesFor nodes k + votesFor nodes' k.
Proof. unfold votesFor. by rewrite bind_app, votesIn_app. Qed.

Lemma sum_tally p x nodes :
  foldl (fun total t => if p (tc_isAbstain t) (tc_isNo t) : bool then u32 (total + tc_count t) else total) (u32 x) (tallyOf nodes) =
  u32 (x + votesOf p nodes).
Proof.
  unfold tallyOf, votesOf. revert x. induction (indexed _) as [|[k c] l IH]; intros x; simpl; [by rewrite Z.add_0_r|].
  destruct (p _ _); simpl; [|apply IH]. rewrite u32_add_l, u32_add_r, IH. f_equal. lia.
Qed.

Lemma foldl_addTotal x nodes : foldl addTotal (u32 x) (tallyOf nodes) = u32 (x + votesOf takesPart nodes).
Proof. rewrite <- sum_tally. unfold addTotal, takesPart. apply foldl_same. intros total [c [] n]; done. Qed.

Lemma nonAbstaining_tally nodes : nonAbstaining (tallyOf nodes) = u32 (votesOf makesQuorum nodes).
Proof.
  rewrite <- (Z.add_0_l (votesOf _ _)), <- sum_tally. unfold nonAbstaining, makesQuorum. apply foldl_same.
  by intros total [c [] []].
Qed.

Lemma tally_add nodes nodes' : zip_with addCount (tallyOf nodes) (tallyOf nodes') = tallyOf (nodes ++ nodes').
Proof.
  apply list_eq. intros k. rewrite lookup_zip_with, !tallyOf_lookup. destruct (v_Choices (d_Vote d) !! k) as [c|]; [|done].
  simpl. unfold addCount. simpl. by rewrite u32_add_l, u32_add_r, votesFor_app.
Qed.

Lemma votesOf_app p nodes nodes' : votesOf p (nodes ++ nodes') = votesOf p nodes + votesOf p nodes'.
Proof.
  unfold votesOf. induction (indexed _) as [|[k c] l IH]; [done|]. simpl. case_match; [|done]. rewrite votesFor_app. lia.
Qed.

Lemma addTally_node nodes node : addTally (tallyOf nodes, u32 (votesOf takesPart nodes)) (tallyOf [node]) =
  Ok (tallyOf (nodes ++ [node]), u32 (votesOf takesPart (nodes ++ [node]))).
Proof.
  rewrite addTally_zip by (by unfold tallyOf; rewrite !length_fmap). by rewrite foldl_addTotal, tally_add, votesOf_app.
Qed.

Lemma addTally_first_node node : addTally ([], 0) (tallyOf [node]) = Ok (tallyOf [node], u32 (votesOf takesPart [node])).
Proof.
  rewrite addTally_first, addTally_zip by (by rewrite length_fmap). f_equal. f_equal; [|apply (foldl_addTotal 0)].
  apply list_eq. intros k. rewrite lookup_zip_with, list_lookup_fmap, tallyOf_lookup. destruct (v_Choices (d_Vote d) !! k) as [c|]; [|done].
  simpl. unfold addCount. simpl. by rewrite u32_add_r.
Qed.

End votes.

(** ** How a rule change becomes active *)

Section lifecycle.
Context (GenesisHash : bytes) (GenesisTime : Z) (params : VersionParams) (index : gmap bytes blockNode) (order : gmap Z Z -> list (Z * Z)).
Context (version : Z) (checker : thresholdConditionChecker).

#[local] Notation next := (nextThreshold GenesisHash GenesisTime index params order version checker).
#[local] Notation wst := (windowState GenesisHash GenesisTime index params order version checker).
#[local] Notation medianTime node := (calcPastMedianTime GenesisHash GenesisTime index (Some node)).

(** The votes of the window that ends with the node decide for a choice. *)
Definition decidesFor (isNo : bool) (node : blockNode) (choice : Z) : Prop := exists t counts total k v,
  medianTime node = Ok t /\ u64 t < EndTime checker /\
  countVotes GenesisHash index version checker (Z.to_nat (ActivationInterval checker)) ([], 0) (Some node) = Ok (counts, total) /\
  ActivationQuorum checker <= nonAbstaining counts /\ choice = u32 (Z.of_nat k) /\ counts !! k = Some v /\
  ActivationThreshold checker total <= tc_count v /\ tc_isNo v = isNo /\ (isNo = false -> tc_isAbstain v = false).

(** The steps that a deployment takes from window to window. *)
Inductive lifecycle (node : blockNode) : ThresholdStateTuple -> ThresholdStateTuple -> Prop :=
| lc_defined choice : lifecycle node (MkTuple ThresholdDefined choice) (MkTuple ThresholdDefined choice)
| lc_start choice t : medianTime node = Ok t -> BeginTime checker <= u64 t < EndTime checker ->
    lifecycle node (MkTuple ThresholdDefined choice) (MkTuple ThresholdStarted choice)
| lc_expire choice t : medianTime node = Ok t -> EndTime checker <= u64 t ->
    lifecycle node (MkTuple ThresholdDefined choice) (MkTuple ThresholdFailed choice)
| lc_vote choice : lifecycle node (MkTuple ThresholdStarted choice) (MkTuple ThresholdStarted choice)
| lc_timeout choice t : medianTime node = Ok t -> EndTime checker <= u64 t ->
    lifecycle node (MkTuple ThresholdStarted choice) (MkTuple ThresholdFailed choice)
| lc_lockIn choice k : decidesFor false node k -> lifecycle node (MkTuple ThresholdStarted choice) (MkTuple ThresholdLockedIn k)
| lc_reject choice k : decidesFor true node k -> lifecycle node (MkTuple ThresholdStarted choice) (MkTuple ThresholdFailed k)
| lc_activate k : lifecycle node (MkTuple ThresholdLockedIn k) (MkTuple ThresholdActive k)
| lc_active k : lifecycle node (MkTuple ThresholdActive k) (MkTuple ThresholdActive k)
| lc_failed k : lifecycle node (MkTuple ThresholdFailed k) (MkTuple ThresholdFailed k).

Lemma firstOver_cases threshold n counts st : firstOver threshold n counts st = st \/
  (exists k v, counts !! k = Some v /\ threshold <= tc_count v /\
    (tc_isAbstain v = false /\ tc_isNo v = false /\ firstOver threshold n counts st = MkTuple ThresholdLockedIn (u32 (Z.of_nat (n + k))) \/
     tc_isNo v = true /\ firstOver threshold n counts st = MkTuple ThresholdFailed (u32 (Z.of_nat (n + k))))).
Proof.
  revert n. induction counts as [|v counts IH]; intros n; [by left|]. cbn [firstOver].
  assert (firstOver threshold (S n) counts st = st \/ exists k w, (v :: counts) !! k = Some w /\ threshold <= tc_count w /\
    (tc_isAbstain w = false /\ tc_isNo w = false /\ firstOver threshold (S n) counts st = MkTuple ThresholdLockedIn (u32 (Z.of_nat (n + k))) \/
     tc_isNo w = true /\ firstOver threshold (S n) counts st = MkTuple ThresholdFailed (u32 (Z.of_nat (n + k))))) as Hrest.
  { destruct (IH (S n)) as [?|(k&w&Hk&Hw)]; [by left|]. right. exists (S k), w. by rewrite Nat.add_succ_r. }
  destruct (_ <? _) eqn:Hlt; [done|]. destruct (tc_isAbstain v) eqn:Ha, (tc_isNo v) eqn:Hn; [|done|..];
    right; exists O, v; rewrite Nat.add_0_r; (split; [done|split; [lia|]]); auto.
Qed.

(** The state machine follows the steps. *)
Lemma next_lifecycle node st st' : uncached (next node st) = Ok st' -> 
  t_State st = ThresholdDefined \/ t_State st = ThresholdStarted \/ t_State st = ThresholdLockedIn \/
  t_State st = ThresholdActive \/ t_State st = ThresholdFailed -> lifecycle node st st'.
Proof.
  destruct st as [state choice]. cbn [t_State]. intros H [->|[->|[->|[->| ->]]]]; unfold nextThreshold in H; cbn in H.
  3-5: injection H as <-; constructor.
  - unfold fromDefined in H. case_match; [injection H as <-; constructor|].
    apply cM_bind_Ok in H as (t&s&[= Ht <-]&H). case_match; [injection H as <-; eapply lc_expire; [done|lia]|].
    apply cM_bind_Ok in H as (sv&s&_&H). case_match; [injection H as <-; constructor|].
    apply cM_bind_Ok in H as (m&s'&_&H). injection H as <-. repeat case_match; try constructor. eapply lc_start; [done|lia].
  - unfold fromStarted in H. apply cM_bind_Ok in H as (t&s&[= Ht <-]&H). case_match; [injection H as <-; eapply lc_timeout; [done|lia]|].
    apply cM_bind_Ok in H as ([counts total]&s&[= Hc <-]&H). injection H as <-. cbn [fst snd]. unfold tallyDecision.
    case_match; [constructor|].
    destruct (firstOver_cases (ActivationThreshold checker total) 0 counts (MkTuple ThresholdStarted choice))
      as [->|(k&v&Hk&Hv&[(Ha&Hn&->)|[Hn ->]])]; [constructor|apply lc_lockIn|apply lc_reject];
      exists t, counts, total, k, v; split_and!; done || lia.
Qed.

Lemma lifecycle_state node st st' : lifecycle node st st' -> t_State st' = ThresholdDefined \/ t_State st' = ThresholdStarted \/ t_State st' = ThresholdLockedIn \/
  t_State st' = ThresholdActive \/ t_State st' = ThresholdFailed.
Proof. intros []; cbn; auto. Qed.

Lemma windowState_state node st : wst node st -> t_State st = ThresholdDefined \/ t_State st = ThresholdStarted \/ t_State st = ThresholdLockedIn \/
  t_State st = ThresholdActive \/ t_State st = ThresholdFailed.
Proof.
  induction 1 as [|node t st E1 E2 E3 E4|node t prev before st E1 E2 E3 _ IH E4]; [by left|..]; eapply lifecycle_state, next_lifecycle; eauto.
Qed.

(** Windows and the ones before them. *)
Definition precedes (node prev : blockNode) : Prop := windowBefore GenesisHash index checker node = Ok (Some prev).

(** An active choice, or one that is about to be, was locked in by the votes of a window. *)
Lemma active_locked_in node state k : wst node (MkTuple state k) -> state = ThresholdLockedIn \/ state = ThresholdActive ->
  exists p, rtc precedes node p /\ decidesFor false p k /\ wst p (MkTuple ThresholdLockedIn k).
Proof.
  intros H. remember (MkTuple state k) as st eqn:E. revert state E.
  induction H as [node t E1 E2|node t st E1 E2 E3 E4|node t prev before st E1 E2 E3 Hw IH E4]; intros state E Hs; [|subst st..].
  - injection E as <- _. by destruct Hs.
  - pose proof E4 as Hl. apply next_lifecycle in Hl; [|by left]. inversion Hl; subst; by destruct Hs.
  - pose proof E4 as Hl. apply next_lifecycle in Hl; [|by eapply windowState_state]. inversion Hl as [| | | | |c k' Hk| |k'|k'|]; subst; try by destruct Hs.
    + exists node. split_and!; [done..|]. by eapply ws_next.
    + destruct (IH _ eq_refl) as (p&Hp&?); [by left|]. exists p. split; [by eapply rtc_l|done].
    + destruct (IH _ eq_refl) as (p&Hp&?); [by right|]. exists p. split; [by eapply rtc_l|done].
Qed.

End lifecycle.

Section activation.
Context (GenesisHash : bytes) (GenesisTime : Z) (params : VersionParams) (index : gmap bytes blockNode) (order : gmap Z Z -> list (Z * Z)).
Context (version : Z) (d : ConsensusDeployment).

(** The key blocks of the window that ends with the node, the last one first. *)
Fixpoint windowNodes (n : nat) (node : option blockNode) : res treeError (list blockNode) :=
  match n with
  | O => Ok []
  | S n =>
    node ← or_panic node;
    prev ← getPrevKeyNodeFromNode GenesisHash index node;
    rest ← windowNodes n prev;
    Ok (node :: rest)
  end.

#[local] Notation count := (countVotes GenesisHash index version (deploymentChecker params d)).

Lemma countVotes_from n seen node counts total :
  count n (tallyOf d version seen, u32 (votesOf d version takesPart seen)) node = Ok (counts, total) ->
  exists nodes, windowNodes n node = Ok nodes /\ counts = tallyOf d version (seen ++ nodes) /\ total = u32 (votesOf d version takesPart (seen ++ nodes)).
Proof.
  revert seen node. induction n as [|n IH]; intros seen node H; cbn [countVotes] in H.
  - simplify_eq. exists []. by rewrite app_nil_r.
  - apply bind_Ok in H as (node'&Hn&H). apply bind_Ok in H as (c&Hc%condition_tally&H). subst c. rewrite addTally_node in H.
    cbn [mbind res_bind] in H. apply bind_Ok in H as (prev&Hp&H). apply IH in H as (nodes&Hw&->& ->).
    exists (node' :: nodes). cbn [windowNodes]. rewrite Hn. cbn [mbind res_bind]. rewrite Hp. cbn [mbind res_bind]. rewrite Hw.
    by rewrite <- app_assoc.
Qed.

Lemma countVotes_window n node counts total : count (S n) ([], 0) node = Ok (counts, total) ->
  exists nodes, windowNodes (S n) node = Ok nodes /\ counts = tallyOf d version nodes /\ total = u32 (votesOf d version takesPart nodes).
Proof.
  intros H. cbn [countVotes] in H.
  apply bind_Ok in H as (node'&Hn&H). apply bind_Ok in H as (c&Hc%condition_tally&H). subst c. rewrite addTally_first_node in H.
  cbn [mbind res_bind] in H. apply bind_Ok in H as (prev&Hp&H). apply countVotes_from in H as (nodes&Hw&->& ->).
  exists (node' :: nodes). cbn [windowNodes]. rewrite Hn. cbn [mbind res_bind]. rewrite Hp. cbn [mbind res_bind]. by rewrite Hw.
Qed.

Context (Hindex : treeIndex GenesisHash params index).

Lemma windowNodes_votes n node nodes : (forall node', node = Some node' -> known index node') -> windowNodes n node = Ok nodes ->
  Z.of_nat (length (nodes ≫= n_votes)) <= Z.of_nat n * TicketsPerBlock params.
Proof.
  revert node nodes. induction n as [|n IH]; intros node nodes Hn H; cbn [windowNodes] in H; [simplify_eq; simpl; lia|].
  inv_res. match goal with H : windowNodes n _ = _ |- _ => apply IH in H end.
  - rewrite bind_cons, length_app, Nat2Z.inj_add, Nat2Z.inj_succ. pose proof (ti_votes _ _ _ Hindex _ _ (Hn _ eq_refl)). nia.
  - intros ? ->. eapply prevKey_known; [done|by apply Hn|done].
Qed.

Lemma votesFor_bound nodes k : 0 <= votesFor d version nodes k <= Z.of_nat (length (nodes ≫= n_votes)).
Proof. unfold votesFor, votesIn. split; [lia|]. apply inj_le, length_filter. Qed.

Lemma votesOf_bound p nodes : 0 <= votesOf d version p nodes <= Z.of_nat (length (v_Choices (d_Vote d))) * Z.of_nat (length (nodes ≫= n_votes)).
Proof.
  unfold votesOf. replace (length (v_Choices (d_Vote d))) with (length (indexed (v_Choices (d_Vote d))))
    by (unfold indexed; rewrite length_zip_with, length_seq; lia).
  induction (indexed _) as [|[k c] l IH]; [simpl; lia|]. cbn [foldr length fst snd]. pose proof (votesFor_bound nodes k).
  rewrite Nat2Z.inj_succ, Z.mul_succ_l. case_match; lia.
Qed.

(** The votes of a window fit into 32 bits, with the multiplier of the threshold. *)
Context (Hsize : RuleChangeActivationInterval params * TicketsPerBlock params * (Z.of_nat (length (v_Choices (d_Vote d))) + 1) *
  (RuleChangeActivationMultiplier params + 1) < 2 ^ 32).
Context (Hinterval : 0 < RuleChangeActivationInterval params) (Htickets : 0 < TicketsPerBlock params)
  (Hmultiplier : 0 <= RuleChangeActivationMultiplier params).

(** What the votes of a window must be for a choice to be locked in. *)
Definition votedFor (nodes : list blockNode) (k : nat) (c : Choice) : Prop :=
  v_Choices (d_Vote d) !! k = Some c /\ ch_IsAbstain c = false /\ ch_IsNo c = false /\
  RuleChangeActivationQuorum params <= votesOf d version makesQuorum nodes /\
  votesOf d version takesPart nodes * RuleChangeActivationMultiplier params / RuleChangeActivationDivisor params <= votesFor d version nodes k.

Lemma decides_votes node choice : known index node ->
  decidesFor GenesisHash GenesisTime index version (deploymentChecker params d) false node choice ->
  exists nodes k c, windowNodes (Z.to_nat (RuleChangeActivationInterval params)) (Some node) = Ok nodes /\
    choice = Z.of_nat k /\ votedFor nodes k c.
Proof.
  intros Hn (t&counts&total&k&v&_&_&Hc&Hq&->&Hk&Ht&Hno&Ha). specialize (Ha eq_refl). cbn [deploymentChecker ActivationInterval ActivationQuorum ActivationThreshold] in *.
  destruct (Z.to_nat (RuleChangeActivationInterval params)) as [|n] eqn:Hw; [lia|].
  apply countVotes_window in Hc as (nodes&Hnodes&->& ->). assert (Z.of_nat (S n) = RuleChangeActivationInterval params) as Hn' by lia.
  assert (forall node', Some node = Some node' -> known index node') as Hkn by (by intros ? [= <-]).
  pose proof (windowNodes_votes _ _ _ Hkn Hnodes) as Hvotes. rewrite Hn' in Hvotes.
  rewrite tallyOf_lookup in Hk. apply fmap_Some in Hk as (c&Hk&->). cbn [tc_count tc_isAbstain tc_isNo] in *.
  pose proof (lookup_lt_Some _ _ _ Hk). pose proof (votesFor_bound nodes k).
  pose proof (votesOf_bound takesPart nodes). pose proof (votesOf_bound makesQuorum nodes).
  rewrite nonAbstaining_tally in Hq.
  set (A := RuleChangeActivationInterval params * TicketsPerBlock params) in *.
  set (L := Z.of_nat (length (v_Choices (d_Vote d)))) in *. set (m := RuleChangeActivationMultiplier params) in *.
  set (N := Z.of_nat (length (nodes ≫= n_votes))) in *.
  assert (0 < A) as HA by (subst A; nia). assert (0 <= L * N <= A * L) by nia.
  assert (0 <= A * L * m) by nia. assert (A * L + A + A * L * m + A * m < 2 ^ 32) as HB by nia. assert (0 <= A * m /\ L <= A * L) as [? ?] by nia.
  assert (votesOf d version takesPart nodes * m <= A * L * m) by nia.
  rewrite (u32_small (votesOf d version makesQuorum nodes)) in Hq by (unfold is_u32; lia).
  rewrite (u32_small (votesOf d version takesPart nodes)), (u32_small (votesFor d version nodes k)), u32_small in Ht by (unfold is_u32; lia).
  rewrite u32_small by (unfold is_u32; lia).
  exists nodes, k, c. split_and!; done.
Qed.

End activation.

(** The votes of the windows of the deployments fit into 32 bits, with the multiplier of the threshold. *)
Record deploymentsFit (params : VersionParams) (deployments : gmap Z (list ConsensusDeployment)) : Prop := {
  df_interval : 0 < RuleChangeActivationInterval params < 2 ^ 32;
  df_tickets : 0 < TicketsPerBlock params;
  df_multiplier : 0 <= RuleChangeActivationMultiplier params;
  df_size : forall version ds d, deployments !! version = Some ds -> d ∈ ds ->
    RuleChangeActivationInterval params * TicketsPerBlock params * (Z.of_nat (length (v_Choices (d_Vote d))) + 1) *
    (RuleChangeActivationMultiplier params + 1) < 2 ^ 32
}.

Section active.
Context (GenesisHash : bytes) (GenesisTime : Z) (params : VersionParams) (deployments : gmap Z (list ConsensusDeployment)).

Lemma precedes_known index checker node p : votingTree GenesisHash params index -> known index node ->
  rtc (precedes GenesisHash index checker) node p -> known index p.
Proof.
  intros Hi Hn H. induction H as [|node prev p Hp _ IH]; [done|]. apply IH. by eapply (ancestor_known GenesisHash params).
Qed.

(** C11: A rule change that a node enforces has been voted for: when the state of a deployment for the block after a node is
    active, with some choice, then a window of key blocks of the chain of that node, before its expiration, has votes of
    the quorum, of which the required part, counted exactly and without overflow, are for this choice, and the
    choice is neither to abstain nor no. *)
Theorem active_choice_was_voted index s order prevNode version deploymentID choice :
  versionParamsOk params -> deploymentsFit params deployments ->
  votingHistory GenesisHash GenesisTime params deployments index s -> (forall m, order m ≡ₚ map_to_list m) -> known index prevNode ->
  (deploymentState GenesisHash GenesisTime index params order deployments prevNode version deploymentID s).1 =
    Ok (MkTuple ThresholdActive choice) ->
  exists i d window p t nodes k c, findDeployment deployments version deploymentID = Some (i, d) /\
    windowStart GenesisHash index (deploymentChecker params d) prevNode = Ok (Some window) /\
    rtc (precedes GenesisHash index (deploymentChecker params d)) window p /\
    calcPastMedianTime GenesisHash GenesisTime index (Some p) = Ok t /\ u64 t < d_ExpireTime d /\
    windowNodes GenesisHash index (Z.to_nat (RuleChangeActivationInterval params)) (Some p) = Ok nodes /\
    choice = Z.of_nat k /\ votedFor params version d nodes k c.
Proof.
  intros Hp [Hint Htick Hmult Hsize] Hh Ho Hn Hrun.
  destruct (votingHistory_sound GenesisHash GenesisTime params deployments Hp Hint order index s Ho Hh) as [Hi Hs].
  apply (proj2 (deploymentState_run _ _ _ _ Hp Hint index order prevNode version deploymentID s Hi Ho Hn Hs)) in Hrun
    as (i&d&Hf&start&Hw&Hst). destruct start as [window|]; [|done].
  apply active_locked_in in Hst as (p&Hpre&Hdec&_); [|by right].
  assert (known index p) as Hk by (eapply precedes_known; [done| |done]; by eapply windowStart_known).
  pose proof Hdec as (t&_&_&_&_&Ht&He&_). apply (decides_votes _ _ params) in Hdec as (nodes&k&c&Hnodes&->&Hv);
    [|apply Hi|..|lia|done|done|done]; [by exists i, d, window, p, t, nodes, k, c|].
  unfold findDeployment in Hf. apply list_find_Some in Hf as (Hl&_). destruct (deployments !! version) as [ds|] eqn:E; [|done].
  eapply Hsize; [done|]. by eapply list_elem_of_lookup_2.
Qed.

End active.

(** ** A rule change that is voted in *)

Module Sample.
Import StakeVersion.Sample.

Definition agenda : ConsensusDeployment :=
  MkDeployment (MkVote "agenda" EmptyString 6
    [MkChoice "abstain" EmptyString 0 true false; MkChoice "no" EmptyString 2 false true; MkChoice "yes" EmptyString 4 false false]) 50 1000.

Definition agendas : gmap Z (list ConsensusDeployment) := {[ 4 := [agenda] ]}.

Definition blocks : list Z := seqZ 0 14.

Definition newNode : gmap Z (list thresholdStateCache) * versionCaches := (newThresholdCaches (map_to_list agendas), noCaches).

(** The state after a block, with the caches. *)
Definition stateOf (nodes : list Z) (i : Z) (s : gmap Z (list thresholdStateCache) * versionCaches) :=
  deploymentState genesis 0 (sampleIndex nodes) sampleParams map_to_list agendas (sampleNode i) 4 "agenda" s.

Lemma sample_params : versionParamsOk sampleParams.
Proof. split; cbn; lia. Qed.

Lemma sample_voting nodes : downward nodes = true -> Forall (fun i => 0 <= i < 2 ^ 32) nodes ->
  votingTree genesis sampleParams (sampleIndex nodes).
Proof.
  intros Hn Hr. assert (forall i, i ∈ nodes -> i <> 0 -> is_Some (sampleIndex nodes !! [i - 1])) as Hprev.
  { intros i Hi H0. destruct (downward_node nodes i Hn Hi) as [_ [->|H1]]; [done|]. exists (sampleNode (i - 1)). by apply sample_known. }
  split; [by apply sample_tree_index|..].
  - intros hash node parent (i&Hi&->&->)%sampleIndex_lookup. cbn. destruct (Z.eqb_spec i 0); [done|]. intros [= <-]. by apply Hprev.
  - intros hash node (i&Hi&->&->)%sampleIndex_lookup. cbn. destruct (Z.eqb_spec i 0); [by left|]. right. by apply Hprev.
  - destruct (sampleIndex nodes !! zeroHash) eqn:E; [|done]. by apply sampleIndex_lookup in E as (i&_&[=]&_).
  - intros hash node (i&Hi&->&->)%sampleIndex_lookup. cbn. rewrite Forall_forall in Hr. specialize (Hr i Hi). lia.
  - intros hash node prev (i&Hi&->&->)%sampleIndex_lookup. cbn. destruct (Z.eqb_spec i 0).
    + by intros (j&_&[=]&_)%sampleIndex_lookup.
    + intros (j&_&[= <-]&->)%sampleIndex_lookup. cbn. lia.
Qed.

Lemma blocks_voting n : (n <= 14)%nat -> votingTree genesis sampleParams (sampleIndex (take n blocks)).
Proof.
  intros Hn. apply sample_voting.
  - do 15 (destruct n as [|n]; [by vm_compute|]). lia.
  - apply Forall_take. unfold blocks. apply Forall_forall. intros i Hi%elem_of_seqZ. lia.
Qed.

Lemma deployment_consensus_witness :
  let '(r, s) := stateOf (take 11 blocks) 10 newNode in
  ((stateOf (take 11 blocks) 10 s).1 = Ok (MkTuple ThresholdLockedIn 2) <-> (stateOf blocks 10 newNode).1 = Ok (MkTuple ThresholdLockedIn 2)) /\
  (stateOf blocks 10 newNode).1 = Ok (MkTuple ThresholdLockedIn 2).
Proof.
  destruct (stateOf (take 11 blocks) 10 newNode) as [r s] eqn:E. split; [|by vm_compute].
  apply deployment_consensus; [apply sample_params|cbn; lia|..].
  - replace s with (stateOf (take 11 blocks) 10 newNode).2 by (by rewrite E). apply vo_state; [apply vo_start|done|].
    + apply blocks_voting. lia.
    + apply sample_known, (bool_decide_eq_true_1 _). by vm_compute.
  - apply vo_start. apply (blocks_voting 14). lia.
  - apply map_agree_spec. by intros hash node node' (i&_&->&->)%sampleIndex_lookup (j&_&[= ->]&->)%sampleIndex_lookup.
  - done.
  - done.
  - apply sample_known, (bool_decide_eq_true_1 _). by vm_compute.
  - apply sample_known, (bool_decide_eq_true_1 _). by vm_compute.
  - intros version ds d. unfold agendas. intros [<- <-]%lookup_singleton_Some ->%list_elem_of_singleton. cbn. lia.
Defined.

Lemma active_choice_was_voted_witness : (stateOf blocks 13 newNode).1 = Ok (MkTuple ThresholdActive 2) /\
  exists i d window p t nodes k c, findDeployment agendas 4 "agenda" = Some (i, d) /\
    windowStart genesis (sampleIndex blocks) (deploymentChecker sampleParams d) (sampleNode 13) = Ok (Some window) /\
    rtc (precedes genesis (sampleIndex blocks) (deploymentChecker sampleParams d)) window p /\
    calcPastMedianTime genesis 0 (sampleIndex blocks) (Some p) = Ok t /\ u64 t < d_ExpireTime d /\
    windowNodes genesis (sampleIndex blocks) 4 (Some p) = Ok nodes /\ 2 = Z.of_nat k /\ votedFor sampleParams 4 d nodes k c.
Proof.
  assert ((stateOf blocks 13 newNode).1 = Ok (MkTuple ThresholdActive 2)) as E by (by vm_compute). split; [exact E|].
  apply (active_choice_was_voted genesis 0 sampleParams agendas (sampleIndex blocks) newNode map_to_list (sampleNode 13) 4 "agenda" 2).
  - apply sample_params.
  - split; [cbn; lia..|]. intros version ds d. unfold agendas. intros [<- <-]%lookup_singleton_Some ->%list_elem_of_singleton. by vm_compute.
  - apply vo_start, (blocks_voting 14). lia.
  - done.
  - apply sample_known, (bool_decide_eq_true_1 _). by vm_compute.
  - exact E.
Defined.

(** The tally of a window of four key blocks has four votes; the counts that are shown to the user at its last block have three. *)
Lemma vote_counts_miss_block :
  countVotes genesis (sampleIndex blocks) 4 (deploymentChecker sampleParams agenda) 4 ([], 0) (Some (sampleNode 9)) =
    Ok ([MkTally 0 true false; MkTally 0 false true; MkTally 4 false false], 4) /\
  getVoteCounts genesis (sampleIndex blocks) sampleParams (sampleNode 9) 4 agenda = Ok (MkVoteCounts 3 0 [0; 0; 3]).
Proof. split; by vm_compute. Qed.

End Sample.
