(* ===== verification/SigHash.v ===== *)
(** * Signature hashes and the signature cache

    [calcSignatureHash] of [txscript/script.go], over the transactions of [MsgTx] and
    scripts whose data is read by [view], and the cache of verified signatures of
    [txscript/sigcache.go]. *)

From S2P Require Import Prelude Opcodes WireCommon MsgTx ScriptNum Script.
From stdpp Require Import list gmap.
#[local] Open Scope Z_scope.

Definition SigHashOld : Z := 0x0.
Definition SigHashAll : Z := 0x1.
Definition SigHashNone : Z := 0x2.
Definition SigHashSingle : Z := 0x3.
Definition SigHashAllValue : Z := 0x4.
Definition SigHashAnyOneCanPay : Z := 0x80.
Definition sigHashMask : Z := 0x1f.

Section sighash.
(** [HashB] and [HashH] are the same hash function; [SigHashOptimization] is the package
    variable of [chaincfg/params.go]. *)
Context (HashB : bytes -> bytes) (SigHashOptimization : bool).

(** A change of the inputs, or outputs, that depends on the position. *)
Definition map_ins (f : nat -> TxIn -> TxIn) (m : MsgTx) : MsgTx := with_ins m (imap f (tx_TxIn m)).
Definition map_outs (f : nat -> TxOut -> TxOut) (m : MsgTx) : MsgTx := with_outs m (imap f (tx_TxOut m)).

(** The scripts of the copy: that of the signed input is [sigScript], the others are nil. *)
Definition sign_scripts (idx : nat) (sigScript : bytes) (m : MsgTx) : MsgTx :=
  map_ins (fun i ti => with_script ti (if (i =? idx)%nat then sigScript else [])) m.

(** The sequence numbers of the other inputs are zeroed. *)
Definition zero_sequences (idx : nat) (m : MsgTx) : MsgTx :=
  map_ins (fun i ti => if (i =? idx)%nat then ti else with_sequence ti 0) m.

(** The part of the copied transaction that the hash type covers.  The outputs are cut after
    the signed input's index, and the inputs restricted to the signed one, by slices that
    panic beyond the end. *)
Definition sighash_select (hashType : Z) (idx : nat) (m : MsgTx) : res scriptError MsgTx :=
  m ←
    (if Z.land hashType sigHashMask =? SigHashNone then Ok (zero_sequences idx (with_outs m []))
     else if Z.land hashType sigHashMask =? SigHashSingle then
       outs ← sub_slice (tx_TxOut m) 0 (S idx);
       Ok (zero_sequences idx
         (map_outs (fun i to => if (i <? idx)%nat then MkTxOut (-1) (out_Version to) [] else to)
            (with_outs m outs)))
     else Ok m);
  if negb (Z.land hashType SigHashAnyOneCanPay =? 0)
  then ins ← sub_slice (tx_TxIn m) idx (S idx); Ok (with_ins m ins)
  else Ok m.

Definition calcSignatureHash {D} (view : D -> bytes) (script : list (parsedOpcode D))
    (hashType : Z) (tx : MsgTx) (idx : nat) (cachedPrefix : option bytes) : res scriptError bytes :=
  let kind := Z.land hashType sigHashMask in
  if (kind =? SigHashSingle) && (length (tx_TxOut tx) <=? idx)%nat
  then Err ErrSighashSingleIdx
  else
    let script := removeOpcode script OP_CODESEPARATOR in
    let sigScript := match unparseScript view script with Ok b => b | _ => [] end in
    txCopy ← sighash_select hashType idx (sign_scripts idx sigScript (Copy tx));
    prefixHash ←
      (match cachedPrefix with
       | Some h =>
           if (kind =? SigHashAll) && (Z.land hashType SigHashAnyOneCanPay =? 0) && SigHashOptimization
           then Ok h
           else map_err (fun _ => SerializationFailed) (TxHash HashB txCopy)
       | None => map_err (fun _ => SerializationFailed) (TxHash HashB txCopy)
       end);
    witnessHash ← map_err (fun _ => SerializationFailed)
      (if negb (kind =? SigHashAllValue)
       then TxHashWitnessSigning HashB txCopy
       else TxHashWitnessValueSigning HashB txCopy);
    Ok (HashB (put_le 4 hashType ++ prefixHash ++ witnessHash)).

(** *** The cached prefix hash *)

Lemma sighash_all_select hashType idx m :
  Z.land hashType sigHashMask = SigHashAll -> Z.land hashType SigHashAnyOneCanPay = 0 ->
  sighash_select hashType idx m = Ok m.
Proof. intros H1 H2. unfold sighash_select. rewrite H1, H2. reflexivity. Qed.

Lemma imap_prefix (g : nat -> TxIn -> TxIn) l : (forall i ti, prefix_of (g i ti) = prefix_of ti) ->
  prefix_of <$> imap g l = prefix_of <$> l.
Proof.
  revert g. induction l as [|ti l IH]; intros g Hg; [done|]. cbn. rewrite Hg. f_equal.
  apply IH. intros i. apply Hg.
Qed.

Lemma sign_scripts_prefix idx s m : same_prefix (sign_scripts idx s m) m.
Proof.
  unfold same_prefix, sign_scripts, map_ins. cbn. split_and!; try done. by apply imap_prefix.
Qed.

Lemma same_prefix_trans m1 m2 m3 : same_prefix m1 m2 -> same_prefix m2 m3 -> same_prefix m1 m3.
Proof. unfold same_prefix. naive_solver congruence. Qed.

Lemma copy_prefix m : Forall prefix_ok (tx_TxIn m) -> same_prefix (Copy m) m.
Proof. intros H. rewrite Copy_spec by done. done. Qed.

End sighash.

(** C29: using the cached hash of the transaction in place of the hash of the modified copy
    (SigHashOptimization) does not change any signature hash: on every transaction, script,
    hash type and input, calcSignatureHash gives the same result with the cached transaction
    hash and the optimisation on as without them. *)
Theorem sighash_optimization_sound {D} (HashB : bytes -> bytes) (opt : bool) (view : D -> bytes)
    (script : list (parsedOpcode D)) (hashType : Z) (tx : MsgTx) (idx : nat) (h : bytes) :
  Forall prefix_ok (tx_TxIn tx) -> TxHash HashB tx = Ok h ->
  calcSignatureHash HashB opt view script hashType tx idx (Some h) =
  calcSignatureHash HashB false view script hashType tx idx None.
Proof.
  intros Hok Hh. unfold calcSignatureHash.
  destruct ((Z.land hashType sigHashMask =? SigHashSingle) && _); [done|].
  set (sigScript := match unparseScript view _ with Ok b => b | _ => [] end).
  destruct (Z.eqb_spec (Z.land hashType sigHashMask) SigHashAll) as [H1|]; cbn [andb]; [|done].
  destruct (Z.eqb_spec (Z.land hashType SigHashAnyOneCanPay) 0) as [H2|]; cbn [andb]; [|done].
  destruct opt; [|done]. rewrite sighash_all_select by done. cbn [mbind res_bind].
  replace (TxHash HashB (sign_scripts idx sigScript (Copy tx))) with (TxHash HashB tx); [by rewrite Hh|].
  unfold TxHash, hash_of. f_equal. apply same_prefix_bytes.
  assert (same_prefix (sign_scripts idx sigScript (Copy tx)) tx) as (? & ? & ? & ? & ?)
    by (eapply same_prefix_trans; [apply sign_scripts_prefix|by apply copy_prefix]).
  by split_and!.
Qed.

Lemma sighash_optimization_sound_witness :
  calcSignatureHash (fun b => b) true (fun d : bytes => d) [] SigHashAll sample_tx 0
    (Some (match TxHash (fun b => b) sample_tx with Ok h => h | _ => [] end)) =
  calcSignatureHash (fun b => b) false (fun d : bytes => d) [] SigHashAll sample_tx 0 None.
Proof.
  apply (sighash_optimization_sound (fun b => b) true).
  - destruct sample_tx_ok as [_ (_ & (_ & H & _) & _)]. exact H.
  - reflexivity.
Defined.

(** ** The signature cache *)

Section sigcache.
(** The signatures and public keys of [chainec], with their serializations; [pick] is the
    entry that the iteration over a Go map meets first. *)
Context {Signature PubKey : Type}.
Context (Serialize : Signature -> bytes) (SerializeCompressed : PubKey -> bytes).
Context (pick : gmap (list Z) (Signature * PubKey) -> option (list Z)).

Record SigCache := MkSigCache {
  validSigs : gmap (list Z) (Signature * PubKey);
  maxEntries : Z
}.

Definition NewSigCache (maxEntries : Z) : SigCache := MkSigCache ∅ maxEntries.

Definition Exists (s : SigCache) (sigHash : bytes) (sig : Signature) (pubKey : PubKey) : bool :=
  match validSigs s !! sigHash with
  | Some (sig', pubKey') =>
      bool_decide (SerializeCompressed pubKey' = SerializeCompressed pubKey) &&
      bool_decide (Serialize sig' = Serialize sig)
  | None => false
  end.

Definition Add (s : SigCache) (sigHash : bytes) (sig : Signature) (pubKey : PubKey) : SigCache :=
  if maxEntries s <=? 0 then s
  else
    let valid :=
      if u64 (Z.of_nat (size (validSigs s)) + 1) >? maxEntries s
      then match pick (validSigs s) with Some k => delete k (validSigs s) | None => validSigs s end
      else validSigs s in
    MkSigCache (<[sigHash := (sig, pubKey)]> valid) (maxEntries s).

(** The lookup, the verification and the insertion of [opcodeCheckSig]. *)
Definition cached_verify (Verify : PubKey -> bytes -> Signature -> bool)
    (cache : option SigCache) (hash : bytes) (sig : Signature) (pubKey : PubKey)
    : bool * option SigCache :=
  match cache with
  | Some c =>
      (* [copy(sigHash[:], hash)] into a hash of 32 bytes *)
      let sigHash := take 32 hash ++ replicate (32 - length hash) 0 in
      if Exists c sigHash sig pubKey then (true, Some c)
      else if Verify pubKey hash sig then (true, Some (Add c sigHash sig pubKey))
      else (false, Some c)
  | None => (Verify pubKey hash sig, None)
  end.

End sigcache.
Arguments SigCache : clear implicits.

(** Every entry of the cache verifies, and there are not more than the cache allows. *)
Definition cache_ok {Signature PubKey} (Verify : PubKey -> bytes -> Signature -> bool)
    (c : SigCache Signature PubKey) : Prop :=
  map_Forall (fun h e => Verify e.2 h e.1 = true) (validSigs c) /\
  Z.of_nat (size (validSigs c)) <= Z.max 0 (maxEntries c).

Lemma insert_size_le {A} (m : gmap (list Z) A) k x : (size (<[k := x]> m) <= S (size m))%nat.
Proof. rewrite map_size_insert. destruct (m !! k); cbn; lia. Qed.

Section sigcache_proofs.
Context {Signature PubKey : Type}.
Context (Serialize : Signature -> bytes) (SerializeCompressed : PubKey -> bytes).
Context (Verify : PubKey -> bytes -> Signature -> bool).
Context (pick : gmap (list Z) (Signature * PubKey) -> option (list Z)).

(** Keys and signatures with the same serialization verify alike. *)
Context (Hser : forall k k' s s' h, SerializeCompressed k = SerializeCompressed k' ->
  Serialize s = Serialize s' -> Verify k h s = Verify k' h s').
(** The iteration over a nonempty map starts at one of its entries. *)
Context (Hpick : forall m, m <> ∅ -> exists k, pick m = Some k /\ is_Some (m !! k)).

Lemma Exists_sound c h s k : cache_ok Verify c ->
  Exists Serialize SerializeCompressed c h s k = true -> Verify k h s = true.
Proof.
  intros [Hc _] He. unfold Exists in He. destruct (validSigs c !! h) as [[s' k']|] eqn:E; [|done].
  apply andb_true_iff in He as [H1%bool_decide_eq_true H2%bool_decide_eq_true].
  rewrite <- (Hser k' k s' s h H1 H2). exact (Hc h (s', k') E).
Qed.

Lemma Add_ok c h s k : cache_ok Verify c -> maxEntries c < 2 ^ 63 -> Verify k h s = true ->
  cache_ok Verify (Add pick c h s k).
Proof.
  intros [Hc Hn] Hmax Hv. unfold Add. destruct (Z.leb_spec (maxEntries c) 0); [done|].
  unfold cache_ok; cbn [validSigs maxEntries]. rewrite Z.gtb_ltb, u64_small by (unfold is_u64; lia).
  destruct (Z.ltb_spec (maxEntries c) (Z.of_nat (size (validSigs c)) + 1)).
  - destruct (Hpick (validSigs c)) as (d & -> & Hd).
    { intros E. rewrite E, map_size_empty in *. lia. }
    split; [apply map_Forall_insert_2; [done|by apply map_Forall_delete]|].
    pose proof (map_size_delete_Some d (validSigs c) Hd). pose proof (insert_size_le (delete d (validSigs c)) h (s, k)) as Hi.
    assert (size (validSigs c) <> 0%nat).
    { intros E%map_size_empty_inv. rewrite E in Hd. by destruct Hd. }
    lia.
  - split; [by apply map_Forall_insert_2|].
    pose proof (insert_size_le (validSigs c) h (s, k)). lia.
Qed.

Lemma cached_verify_spec c h s k : cache_ok Verify c -> maxEntries c < 2 ^ 63 -> length h = 32%nat ->
  exists c', cached_verify Serialize SerializeCompressed pick Verify (Some c) h s k = (Verify k h s, Some c') /\
    cache_ok Verify c' /\ maxEntries c' = maxEntries c.
Proof.
  intros Hc Hmax Hh. unfold cached_verify. rewrite Hh, Nat.sub_diag, app_nil_r.
  rewrite firstn_all2 by lia. destruct (Exists _ _ c h s k) eqn:E.
  - exists c. by rewrite (Exists_sound c h s k Hc E).
  - destruct (Verify k h s) eqn:V; [|by exists c].
    exists (Add pick c h s k). split; [done|]. split; [by apply Add_ok|].
    unfold Add. by destruct (_ <=? _).
Qed.

End sigcache_proofs.

(** A sequence of verifications through one cache. *)
Fixpoint verify_all {Signature PubKey} (Serialize : Signature -> bytes) (SerializeCompressed : PubKey -> bytes)
    (pick : gmap (list Z) (Signature * PubKey) -> option (list Z))
    (Verify : PubKey -> bytes -> Signature -> bool) (cache : option (SigCache Signature PubKey))
    (qs : list (bytes * Signature * PubKey)) : list bool * option (SigCache Signature PubKey) :=
  match qs with
  | [] => ([], cache)
  | (h, s, k) :: qs =>
      let '(v, cache) := cached_verify Serialize SerializeCompressed pick Verify cache h s k in
      let '(vs, cache) := verify_all Serialize SerializeCompressed pick Verify cache qs in
      (v :: vs, cache)
  end.

(** The signature cache is transparent: whatever signatures are checked, in whatever
    order and with whatever entries evicted on the way, every check through a cache gives
    the verdict of the verification itself; the cache never holds a signature that does not
    verify, nor more entries than its maximum. *)
Theorem sigcache_transparent {Signature PubKey} (Serialize : Signature -> bytes)
    (SerializeCompressed : PubKey -> bytes) (Verify : PubKey -> bytes -> Signature -> bool)
    (pick : gmap (list Z) (Signature * PubKey) -> option (list Z)) (max : Z)
    (qs : list (bytes * Signature * PubKey)) :
  (forall k k' s s' h, SerializeCompressed k = SerializeCompressed k' ->
     Serialize s = Serialize s' -> Verify k h s = Verify k' h s') ->
  (forall m, m <> ∅ -> exists k, pick m = Some k /\ is_Some (m !! k)) ->
  0 <= max < 2 ^ 63 -> Forall (fun q => length q.1.1 = 32%nat) qs ->
  exists c, verify_all Serialize SerializeCompressed pick Verify (Some (NewSigCache max)) qs =
      ((fun q => Verify q.2 q.1.1 q.1.2) <$> qs, Some c) /\ cache_ok Verify c /\ maxEntries c = max.
Proof.
  intros Hser Hpick Hmax Hqs.
  assert (Hstart : cache_ok Verify (@NewSigCache Signature PubKey max) /\
    maxEntries (@NewSigCache Signature PubKey max) = max).
  { split; [|done]. split; [apply map_Forall_empty|]. cbn [validSigs maxEntries NewSigCache].
    rewrite map_size_empty. lia. }
  destruct Hstart as [Hc Hm]. revert Hc Hm. generalize (@NewSigCache Signature PubKey max) as c.
  induction Hqs as [|[[h s] k] qs Hh _ IH]; intros c Hc Hm; [by exists c|]. cbn [fst snd] in *.
  destruct (cached_verify_spec Serialize SerializeCompressed Verify pick Hser Hpick c h s k)
    as (c1 & E1 & Hc1 & Hm1); [done|lia|done|].
  destruct (IH c1 Hc1 ltac:(lia)) as (c2 & E2 & Hc2 & Hm2).
  exists c2. cbn [verify_all fmap list_fmap fst snd]. rewrite E1, E2. done.
Qed.

Lemma sigcache_transparent_witness : exists c,
  verify_all (fun s : bytes => s) (fun k : bytes => k) (fun m => (fun e => e.1) <$> head (map_to_list m))
    (fun k h s => bool_decide (k = s)) (Some (NewSigCache 1))
    [(replicate 32 0, [1], [1]); (replicate 32 1, [2], [1]); (replicate 32 0, [1], [1])] =
    ([true; false; true], Some c).
Proof.
  destruct (sigcache_transparent (fun s : bytes => s) (fun k : bytes => k) (fun k h s => bool_decide (k = s))
    (fun m => (fun e => e.1) <$> head (map_to_list m)) 1
    [(replicate 32 0, [1], [1]); (replicate 32 1, [2], [1]); (replicate 32 0, [1], [1])]) as (c & H & _).
  - by intros k k' s s' h -> ->.
  - intros m Hm. destruct (map_to_list m) as [|[k x] l] eqn:E.
    + by apply map_to_list_empty_iff in E.
    + exists k. split; [done|]. exists x. apply elem_of_map_to_list. rewrite E. by left.
  - lia.
  - repeat constructor.
  - exists c. exact H.
Defined.
