(* ===== verification/Engine.v ===== *)
(** * The script engine

    [txscript/engine.go] and the opcode handlers of [txscript/opcode.go].

    The items of the stacks are Go slices, which share memory with each other and with the
    scripts, and [append] writes into that memory; so an item is a reference into a memory
    of arrays ([heap]), and a handler reads an item through it.  [ScriptEnv] is what the
    engine calls outside of its package: the hash functions, the signature suites, the
    growth of slices by the run-time system and the random eviction of the signature
    cache. *)

From S2P Require Import Prelude Opcodes WireCommon MsgTx ScriptNum ScriptStack Script SigHash.
From stdpp Require Import list gmap.
#[local] Open Scope Z_scope.

(** ** Flags and limits *)

Definition ScriptBip16 : Z := Z.shiftl 1 0.
Definition ScriptStrictMultiSig : Z := Z.shiftl 1 1.
Definition ScriptDiscourageUpgradableNops : Z := Z.shiftl 1 2.
Definition ScriptVerifyCheckLockTimeVerify : Z := Z.shiftl 1 3.
Definition ScriptVerifyCheckSequenceVerify : Z := Z.shiftl 1 4.
Definition ScriptVerifyCleanStack : Z := Z.shiftl 1 5.
Definition ScriptVerifyDERSignatures : Z := Z.shiftl 1 6.
Definition ScriptVerifyLowS : Z := Z.shiftl 1 7.
Definition ScriptVerifyMinimalData : Z := Z.shiftl 1 8.
Definition ScriptVerifySigPushOnly : Z := Z.shiftl 1 9.
Definition ScriptVerifyStrictEncoding : Z := Z.shiftl 1 10.

Definition maxStackSize : Z := 1024.

Definition OpCondFalse : Z := 0.
Definition OpCondTrue : Z := 1.
Definition OpCondSkip : Z := 2.

Definition LockTimeThreshold : Z := 500000000.

(** Half the order of the secp256k1 group. *)
Definition halfOrder : Z :=
  Z.shiftr 0xFFFFFFFFFFFFFFFFFFFFFFFFFFFFFFFEBAAEDCE6AF48A03BBFD25E8CD0364141 1.

(** ** Outside the package *)

Class ScriptEnv := {
  PubKey : Type;
  Signature : Type;
  AltPubKey : Type;
  AltSignature : Type;
  ParsePubKey : bytes -> option PubKey;
  ParseDERSignature : bytes -> option Signature;
  ParseSignature : bytes -> option Signature;
  Verify : PubKey -> bytes -> Signature -> bool;
  SerializeSig : Signature -> bytes;
  SerializeCompressed : PubKey -> bytes;
  (* the suites of OP_CHECKSIGALT, by their number *)
  AltParsePubKey : Z -> bytes -> option AltPubKey;
  AltParseSignature : Z -> bytes -> option AltSignature;
  AltVerify : Z -> AltPubKey -> bytes -> AltSignature -> bool;
  HashB : bytes -> bytes;
  ripemd160 : bytes -> bytes;
  sha1 : bytes -> bytes;
  (* the capacity that [append] allocates, from the old capacity and the new length *)
  growslice : nat -> nat -> nat;
  pick_entry : gmap (list Z) (Signature * PubKey) -> option (list Z);
  SigHashOptimization : bool
}.

(** ** Memory *)

Record slice := MkSlice { s_arr : nat; s_off : nat; s_len : nat; s_cap : nat }.

Definition nil_slice : slice := MkSlice 0 0 0 0.

Definition array (m : list bytes) (a : nat) : bytes := match m !! a with Some b => b | None => [] end.

Definition read (m : list bytes) (s : slice) : bytes := take (s_len s) (drop (s_off s) (array m (s_arr s))).

(** [s[i:j]] for indices in range. *)
Definition subslice (s : slice) (i j : nat) : slice :=
  MkSlice (s_arr s) (s_off s + i) (j - i) (s_cap s - i).

(** [s[i:j]], which panics unless [0 <= i <= j <= cap(s)]. *)
Definition reslice (s : slice) (i j : Z) : res scriptError slice :=
  if (0 <=? i) && (i <=? j) && (j <=? Z.of_nat (s_cap s))
  then Ok (subslice s (Z.to_nat i) (Z.to_nat j)) else Panic.

(** ** The engine *)

Section engine.
Context `{Env : ScriptEnv}.

Notation pops := (list (parsedOpcode slice)).

Record Engine := MkEngine {
  version : Z;
  scripts : list pops;
  scriptIdx : nat;
  scriptOff : nat;
  lastCodeSep : nat;
  dstack : stack slice;
  astack : stack slice;
  tx : MsgTx;
  txIdx : nat;
  condStack : list Z;
  numOps : Z;
  flags : Z;
  sigCache : option (SigCache Signature PubKey);
  bip16 : bool;
  savedFirstStack : list slice;
  heap : list bytes
}.

(** A method of the engine. *)
Notation M := (stM Engine scriptError).

Definition gets {A} (f : Engine -> A) : M A := fun vm => Ok (f vm, vm).
Definition modify (f : Engine -> Engine) : M unit := fun vm => Ok (tt, f vm).
Definition throw {A} (e : scriptError) : M A := fun _ => Err e.

Definition set_scripts x vm := MkEngine (version vm) x (scriptIdx vm) (scriptOff vm) (lastCodeSep vm) (dstack vm) (astack vm) (tx vm) (txIdx vm) (condStack vm) (numOps vm) (flags vm) (sigCache vm) (bip16 vm) (savedFirstStack vm) (heap vm).
Definition set_scriptIdx x vm := MkEngine (version vm) (scripts vm) x (scriptOff vm) (lastCodeSep vm) (dstack vm) (astack vm) (tx vm) (txIdx vm) (condStack vm) (numOps vm) (flags vm) (sigCache vm) (bip16 vm) (savedFirstStack vm) (heap vm).
Definition set_scriptOff x vm := MkEngine (version vm) (scripts vm) (scriptIdx vm) x (lastCodeSep vm) (dstack vm) (astack vm) (tx vm) (txIdx vm) (condStack vm) (numOps vm) (flags vm) (sigCache vm) (bip16 vm) (savedFirstStack vm) (heap vm).
Definition set_lastCodeSep x vm := MkEngine (version vm) (scripts vm) (scriptIdx vm) (scriptOff vm) x (dstack vm) (astack vm) (tx vm) (txIdx vm) (condStack vm) (numOps vm) (flags vm) (sigCache vm) (bip16 vm) (savedFirstStack vm) (heap vm).
Definition set_dstack x vm := MkEngine (version vm) (scripts vm) (scriptIdx vm) (scriptOff vm) (lastCodeSep vm) x (astack vm) (tx vm) (txIdx vm) (condStack vm) (numOps vm) (flags vm) (sigCache vm) (bip16 vm) (savedFirstStack vm) (heap vm).
Definition set_astack x vm := MkEngine (version vm) (scripts vm) (scriptIdx vm) (scriptOff vm) (lastCodeSep vm) (dstack vm) x (tx vm) (txIdx vm) (condStack vm) (numOps vm) (flags vm) (sigCache vm) (bip16 vm) (savedFirstStack vm) (heap vm).
Definition set_tx x vm := MkEngine (version vm) (scripts vm) (scriptIdx vm) (scriptOff vm) (lastCodeSep vm) (dstack vm) (astack vm) x (txIdx vm) (condStack vm) (numOps vm) (flags vm) (sigCache vm) (bip16 vm) (savedFirstStack vm) (heap vm).
Definition set_condStack x vm := MkEngine (version vm) (scripts vm) (scriptIdx vm) (scriptOff vm) (lastCodeSep vm) (dstack vm) (astack vm) (tx vm) (txIdx vm) x (numOps vm) (flags vm) (sigCache vm) (bip16 vm) (savedFirstStack vm) (heap vm).
Definition set_numOps x vm := MkEngine (version vm) (scripts vm) (scriptIdx vm) (scriptOff vm) (lastCodeSep vm) (dstack vm) (astack vm) (tx vm) (txIdx vm) (condStack vm) x (flags vm) (sigCache vm) (bip16 vm) (savedFirstStack vm) (heap vm).
Definition set_sigCache x vm := MkEngine (version vm) (scripts vm) (scriptIdx vm) (scriptOff vm) (lastCodeSep vm) (dstack vm) (astack vm) (tx vm) (txIdx vm) (condStack vm) (numOps vm) (flags vm) x (bip16 vm) (savedFirstStack vm) (heap vm).
Definition set_savedFirstStack x vm := MkEngine (version vm) (scripts vm) (scriptIdx vm) (scriptOff vm) (lastCodeSep vm) (dstack vm) (astack vm) (tx vm) (txIdx vm) (condStack vm) (numOps vm) (flags vm) (sigCache vm) (bip16 vm) x (heap vm).
Definition set_heap x vm := MkEngine (version vm) (scripts vm) (scriptIdx vm) (scriptOff vm) (lastCodeSep vm) (dstack vm) (astack vm) (tx vm) (txIdx vm) (condStack vm) (numOps vm) (flags vm) (sigCache vm) (bip16 vm) (savedFirstStack vm) x.

Definition hasFlag (flag : Z) (vm : Engine) : bool := Z.land (flags vm) flag =? flag.

Definition isBranchExecuting (vm : Engine) : bool :=
  match last (condStack vm) with
  | None => true
  | Some c => c =? OpCondTrue
  end.

(** *** Memory and stacks *)

Definition view (s : slice) : M bytes := gets (fun vm => read (heap vm) s).

(** A fresh array with the given contents and capacity. *)
Definition alloc (b : bytes) (cap : nat) : M slice := fun vm =>
  let cap := Nat.max cap (length b) in
  Ok (MkSlice (length (heap vm)) 0 (length b) cap,
      set_heap (heap vm ++ [b ++ replicate (cap - length b) 0]) vm).

(** [append(b, a...)]: in place when the capacity allows it, in a new array otherwise. *)
Definition append (b : slice) (a : bytes) : M slice :=
  if (s_len b + length a <=? s_cap b)%nat
  then
    _ ← modify (fun vm =>
      let arr := array (heap vm) (s_arr b) in
      let at_ := (s_off b + s_len b)%nat in
      set_heap (<[s_arr b := take at_ arr ++ a ++ drop (at_ + length a) arr]> (heap vm)) vm);
    mret (MkSlice (s_arr b) (s_off b) (s_len b + length a) (s_cap b))
  else
    old ← view b;
    alloc (old ++ a) (growslice (s_cap b) (s_len b + length a)).

Definition on_dstack {A} (m : stM (stack slice) scriptError A) : M A := fun vm =>
  '(a, s) ← m (dstack vm); Ok (a, set_dstack s vm).
Definition on_astack {A} (m : stM (stack slice) scriptError A) : M A := fun vm =>
  '(a, s) ← m (astack vm); Ok (a, set_astack s vm).

Definition push (s : slice) : M unit := on_dstack (PushByteArray s).
Definition pop_slice : M slice := on_dstack PopByteArray.
Definition peek_slice (idx : Z) : M slice := on_dstack (PeekByteArray idx).

Definition popInt (maxLen : Z) : M Z := m ← gets heap; on_dstack (PopInt (read m) maxLen).
Definition popBool : M bool := m ← gets heap; on_dstack (PopBool (read m)).

(** The bytes of a popped item. *)
Definition popBytes : M bytes := s ← pop_slice; view s.

Definition pushInt (val : Z) : M unit :=
  b ← lift (num_Bytes val);
  s ← (if (length b =? 0)%nat then mret nil_slice else alloc b 9);
  push s.

Definition pushBool (val : bool) : M unit :=
  s ← (if val then alloc (fromBool true) 1 else mret nil_slice);
  push s.

(** A hash that was appended to a nil slice by [Sum(nil)], and one in an array. *)
Definition push_sum (h : bytes) : M unit := s ← alloc h (growslice 0 (length h)); push s.
Definition push_array (h : bytes) : M unit := s ← alloc h (length h); push s.

(** Two operands, the top one first. *)
Definition popInt2 : M (Z * Z) :=
  v0 ← popInt mathOpCodeMaxScriptNumLen;
  v1 ← popInt mathOpCodeMaxScriptNumLen;
  mret (v0, v1).

(** [if cond { return err }] *)
Definition when_err (bad : bool) (e : scriptError) : M unit := if bad then throw e else mret tt.

(** [vm.numOps += n] with the check of the limit. *)
Definition add_ops (n : Z) : M unit :=
  _ ← modify (fun vm => set_numOps (numOps vm + n) vm);
  ops ← gets numOps;
  when_err (ops >? MaxOpsPerScript) ErrStackTooManyOperations.

Definition bool_num (b : bool) : Z := if b then 1 else 0.

(** ** Opcode handlers *)

Definition opcodeDisabled : M unit := throw ErrStackOpDisabled.
Definition opcodeReserved : M unit := throw ErrStackReservedOpcode.
Definition opcodeInvalid : M unit := throw ErrStackInvalidOpcode.

Definition opcodeFalse : M unit := push nil_slice.

Definition opcodePushData (op : parsedOpcode slice) : M unit := push (default nil_slice (pop_data op)).

Definition opcode1Negate : M unit := pushInt (-1).

Definition opcodeN (op : parsedOpcode slice) : M unit := pushInt (u8 (pop_value op - (OP_1 - 1))).

Definition opcodeNop (op : parsedOpcode slice) : M unit :=
  let v := pop_value op in
  if (v =? OP_NOP1) || ((v >=? OP_NOP4) && (v <=? OP_NOP10)) ||
     ((v >=? OP_UNKNOWN192) && (v <=? OP_UNKNOWN248))
  then upgrade ← gets (hasFlag ScriptDiscourageUpgradableNops); when_err upgrade ReservedForUpgrades
  else mret tt.

(** *** Conditionals *)

Definition push_cond (c : Z) : M unit := modify (fun vm => set_condStack (condStack vm ++ [c]) vm).

Definition opcodeIf : M unit :=
  executing ← gets isBranchExecuting;
  if executing : bool
  then ok ← popBool; push_cond (if ok : bool then OpCondTrue else OpCondFalse)
  else push_cond OpCondSkip.

Definition opcodeNotIf : M unit :=
  executing ← gets isBranchExecuting;
  if executing : bool
  then ok ← popBool; push_cond (if negb ok then OpCondTrue else OpCondFalse)
  else push_cond OpCondSkip.

Definition flip_cond (c : Z) : Z :=
  if c =? OpCondTrue then OpCondFalse else if c =? OpCondFalse then OpCondTrue else c.

Definition opcodeElse : M unit := fun vm =>
  match last (condStack vm) with
  | None => Err ErrStackNoIf
  | Some c => Ok (tt, set_condStack (removelast (condStack vm) ++ [flip_cond c]) vm)
  end.

Definition opcodeEndif : M unit := fun vm =>
  match last (condStack vm) with
  | None => Err ErrStackNoIf
  | Some _ => Ok (tt, set_condStack (removelast (condStack vm)) vm)
  end.

Definition opcodeVerify : M unit := verified ← popBool; when_err (negb verified) ErrStackVerifyFailed.

Definition opcodeReturn : M unit := throw ErrStackEarlyReturn.

(** *** Lock times *)

Definition verifyLockTime (txLockTime threshold lockTime : Z) : res scriptError unit :=
  if negb ((txLockTime <? threshold) && (lockTime <? threshold) ||
           (txLockTime >=? threshold) && (lockTime >=? threshold))
  then Err MismatchedLockTime
  else guard_err (lockTime >? txLockTime) UnsatisfiedLockTime.

(** [vm.tx.TxIn[vm.txIdx].Sequence] *)
Definition input_sequence : M Z := fun vm =>
  ti ← or_panic (tx_TxIn (tx vm) !! txIdx vm); Ok (Sequence ti, vm).

(** The five-byte number on top of the stack. *)
Definition peekLock : M Z :=
  so ← peek_slice 0;
  b ← view so;
  minimal ← gets (fun vm => verifyMinimalData (dstack vm));
  lift (makeScriptNum b minimal 5).

Definition opcodeCheckLockTimeVerify : M unit :=
  enabled ← gets (hasFlag ScriptVerifyCheckLockTimeVerify);
  if negb enabled
  then upgrade ← gets (hasFlag ScriptDiscourageUpgradableNops); when_err upgrade ReservedForUpgrades
  else
    lockTime ← peekLock;
    _ ← when_err (lockTime <? 0) NegativeLockTime;
    txLockTime ← gets (fun vm => LockTime (tx vm));
    _ ← lift (verifyLockTime txLockTime LockTimeThreshold lockTime);
    sequence ← input_sequence;
    when_err (sequence =? MaxTxInSequenceNum) FinalizedInput.

Definition opcodeCheckSequenceVerify : M unit :=
  enabled ← gets (hasFlag ScriptVerifyCheckSequenceVerify);
  if negb enabled
  then upgrade ← gets (hasFlag ScriptDiscourageUpgradableNops); when_err upgrade ReservedForUpgrades
  else
    txVersion ← gets (fun vm => tx_Version (tx vm));
    _ ← when_err (txVersion <? 2) BadTxVersion;
    sequence ← peekLock;
    _ ← when_err (sequence <? 0) NegativeSequence;
    if negb (Z.land sequence SequenceLockTimeDisabled =? 0) then mret tt
    else
      txSequence ← input_sequence;
      _ ← when_err (negb (Z.land txSequence SequenceLockTimeDisabled =? 0)) SequenceDisabled;
      let lockTimeMask := Z.lor SequenceLockTimeIsSeconds SequenceLockTimeMask in
      lift (verifyLockTime (Z.land txSequence lockTimeMask) SequenceLockTimeIsSeconds
              (Z.land sequence lockTimeMask)).

(** *** Stack manipulation *)

Definition opcodeToAltStack : M unit := so ← pop_slice; on_astack (PushByteArray so).
Definition opcodeFromAltStack : M unit := so ← on_astack PopByteArray; push so.
Definition opcode2Drop : M unit := on_dstack (DropN 2).
Definition opcode2Dup : M unit := on_dstack (DupN 2).
Definition opcode3Dup : M unit := on_dstack (DupN 3).
Definition opcode2Over : M unit := on_dstack (OverN 2).
Definition opcode2Rot : M unit := on_dstack (RotN 2).
Definition opcode2Swap : M unit := on_dstack (SwapN 2).

Definition opcodeIfDup : M unit :=
  so ← peek_slice 0;
  b ← view so;
  if asBool b then push so else mret tt.

Definition opcodeDepth : M unit := d ← gets (fun vm => Depth (dstack vm)); pushInt d.
Definition opcodeDrop : M unit := on_dstack (DropN 1).
Definition opcodeDup : M unit := on_dstack (DupN 1).
Definition opcodeNip : M unit := on_dstack (NipN 1).
Definition opcodeOver : M unit := on_dstack (OverN 1).
Definition opcodePick : M unit := val ← popInt mathOpCodeMaxScriptNumLen; on_dstack (PickN (Int32 val)).
Definition opcodeRoll : M unit := val ← popInt mathOpCodeMaxScriptNumLen; on_dstack (RollN (Int32 val)).
Definition opcodeRot : M unit := on_dstack (RotN 1).
Definition opcodeSwap : M unit := on_dstack (SwapN 1).
Definition opcodeTuck : M unit := on_dstack Tuck.

(** *** Byte strings *)

Definition opcodeCat : M unit :=
  a ← pop_slice;
  b ← pop_slice;
  if (s_len a =? 0)%nat && (0 <? s_len b)%nat then push b
  else if (s_len b =? 0)%nat && (0 <? s_len a)%nat then push a
  else if (s_len b =? 0)%nat && (s_len a =? 0)%nat then push nil_slice
  else
    _ ← when_err (Z.of_nat (s_len a + s_len b) >? MaxScriptElementSize) ErrStackElementTooBig;
    bytes_a ← view a;
    c ← append b bytes_a;
    push c.

Definition opcodeSubstr : M unit :=
  v0 ← popInt mathOpCodeMaxScriptNumLen;
  v1 ← popInt mathOpCodeMaxScriptNumLen;
  a ← pop_slice;
  let aLen := Z.of_nat (s_len a) in
  let v0 := Int32 v0 in
  let v1 := Int32 v1 in
  if aLen =? 0 then push nil_slice
  else if (v0 <? 0) || (v1 <? 0) then throw ErrSubstrIdxNegative
  else if v0 >? aLen then throw ErrSubstrIdxOutOfBounds
  else if v1 >? aLen then throw ErrSubstrIdxOutOfBounds
  else if v0 >? v1 then throw ErrSubstrIdxOutOfBounds
  else if v0 =? v1 then push nil_slice
  else part ← lift (reslice a v0 v1); push part.

Definition opcodeLeft : M unit :=
  v0 ← popInt mathOpCodeMaxScriptNumLen;
  a ← pop_slice;
  let aLen := Z.of_nat (s_len a) in
  let v0 := Int32 v0 in
  if aLen =? 0 then push nil_slice
  else if v0 <? 0 then throw ErrSubstrIdxNegative
  else if v0 >? aLen then throw ErrSubstrIdxOutOfBounds
  else if v0 =? 0 then push nil_slice
  else part ← lift (reslice a 0 v0); push part.

Definition opcodeRight : M unit :=
  v0 ← popInt mathOpCodeMaxScriptNumLen;
  a ← pop_slice;
  let aLen := Z.of_nat (s_len a) in
  let v0 := Int32 v0 in
  if aLen =? 0 then push nil_slice
  else if v0 <? 0 then throw ErrSubstrIdxNegative
  else if v0 >? aLen then throw ErrSubstrIdxOutOfBounds
  else if v0 =? aLen then push nil_slice
  else part ← lift (reslice a v0 aLen); push part.

Definition opcodeSize : M unit := so ← peek_slice 0; pushInt (Z.of_nat (s_len so)).

(** *** Bits *)

Definition opcodeInvert : M unit := v0 ← popInt mathOpCodeMaxScriptNumLen; pushInt (Z.lnot (Int32 v0)).
Definition opcodeAnd : M unit := '(v0, v1) ← popInt2; pushInt (Z.land (Int32 v0) (Int32 v1)).
Definition opcodeOr : M unit := '(v0, v1) ← popInt2; pushInt (Z.lor (Int32 v0) (Int32 v1)).
Definition opcodeXor : M unit := '(v0, v1) ← popInt2; pushInt (Z.lxor (Int32 v0) (Int32 v1)).

Definition opcodeEqual : M unit :=
  a ← popBytes;
  b ← popBytes;
  pushBool (bool_decide (a = b)).

Definition opcodeEqualVerify : M unit := _ ← opcodeEqual; opcodeVerify.

Definition rotateRight (value count : Z) : Z :=
  let v := u32 value in
  let c := u32 count in
  i32 (Z.lor (Z.shiftr v c) (u32 (Z.shiftl v (u32 (32 - c))))).

Definition rotateLeft (value count : Z) : Z :=
  let v := u32 value in
  let c := u32 count in
  i32 (Z.lor (u32 (Z.shiftl v c)) (Z.shiftr v (u32 (32 - c)))).

Definition opcodeRotr : M unit :=
  '(v0, v1) ← popInt2;
  if Int32 v0 <? 0 then throw ErrNegativeRotation
  else if Int32 v0 >? 31 then throw ErrRotationOverflow
  else pushInt (rotateRight (Int32 v1) (Int32 v0)).

Definition opcodeRotl : M unit :=
  '(v0, v1) ← popInt2;
  if Int32 v0 <? 0 then throw ErrNegativeRotation
  else if Int32 v0 >? 31 then throw ErrRotationOverflow
  else pushInt (rotateLeft (Int32 v1) (Int32 v0)).

(** *** Arithmetic *)

Definition opcode1Add : M unit := m ← popInt mathOpCodeMaxScriptNumLen; pushInt (i64 (m + 1)).
Definition opcode1Sub : M unit := m ← popInt mathOpCodeMaxScriptNumLen; pushInt (i64 (m - 1)).
Definition opcodeNegate : M unit := m ← popInt mathOpCodeMaxScriptNumLen; pushInt (i64 (- m)).
Definition opcodeAbs : M unit :=
  m ← popInt mathOpCodeMaxScriptNumLen; pushInt (if m <? 0 then i64 (- m) else m).
Definition opcodeNot : M unit := m ← popInt mathOpCodeMaxScriptNumLen; pushInt (bool_num (m =? 0)).
Definition opcode0NotEqual : M unit :=
  m ← popInt mathOpCodeMaxScriptNumLen; pushInt (if negb (m =? 0) then 1 else m).
Definition opcodeAdd : M unit := '(v0, v1) ← popInt2; pushInt (i64 (v0 + v1)).
Definition opcodeSub : M unit := '(v0, v1) ← popInt2; pushInt (i64 (v1 - v0)).
Definition opcodeMul : M unit := '(v0, v1) ← popInt2; pushInt (i32 (Int32 v0 * Int32 v1)).

(** Division and remainder, which truncate, and panic for a divisor of zero. *)
Definition quot (a b : Z) : res scriptError Z := if b =? 0 then Panic else Ok (Z.quot a b).
Definition rem (a b : Z) : res scriptError Z := if b =? 0 then Panic else Ok (Z.rem a b).

Definition opcodeDiv : M unit :=
  '(v0, v1) ← popInt2;
  _ ← when_err (Int32 v0 =? 0) ErrDivideByZero;
  v2 ← lift (quot (Int32 v1) (Int32 v0));
  pushInt (i32 v2).

Definition opcodeMod : M unit :=
  '(v0, v1) ← popInt2;
  _ ← when_err (Int32 v0 =? 0) ErrDivideByZero;
  v2 ← lift (rem (Int32 v1) (Int32 v0));
  pushInt v2.

Definition opcodeLShift : M unit :=
  '(v0, v1) ← popInt2;
  if Int32 v0 <? 0 then throw ErrNegativeShift
  else if Int32 v0 >? 32 then throw ErrShiftOverflow
  else pushInt (i32 (Z.shiftl (Int32 v1) (Int32 v0))).

Definition opcodeRShift : M unit :=
  '(v0, v1) ← popInt2;
  if Int32 v0 <? 0 then throw ErrNegativeShift
  else if Int32 v0 >? 32 then throw ErrShiftOverflow
  else pushInt (Z.shiftr (Int32 v1) (Int32 v0)).

Definition opcodeBoolAnd : M unit :=
  '(v0, v1) ← popInt2; pushInt (bool_num (negb (v0 =? 0) && negb (v1 =? 0))).
Definition opcodeBoolOr : M unit :=
  '(v0, v1) ← popInt2; pushInt (bool_num (negb (v0 =? 0) || negb (v1 =? 0))).
Definition opcodeNumEqual : M unit := '(v0, v1) ← popInt2; pushInt (bool_num (v0 =? v1)).
Definition opcodeNumEqualVerify : M unit := _ ← opcodeNumEqual; opcodeVerify.
Definition opcodeNumNotEqual : M unit := '(v0, v1) ← popInt2; pushInt (bool_num (negb (v0 =? v1))).
Definition opcodeLessThan : M unit := '(v0, v1) ← popInt2; pushInt (bool_num (v1 <? v0)).
Definition opcodeGreaterThan : M unit := '(v0, v1) ← popInt2; pushInt (bool_num (v1 >? v0)).
Definition opcodeLessThanOrEqual : M unit := '(v0, v1) ← popInt2; pushInt (bool_num (v1 <=? v0)).
Definition opcodeGreaterThanOrEqual : M unit := '(v0, v1) ← popInt2; pushInt (bool_num (v1 >=? v0)).
Definition opcodeMin : M unit := '(v0, v1) ← popInt2; pushInt (if v1 <? v0 then v1 else v0).
Definition opcodeMax : M unit := '(v0, v1) ← popInt2; pushInt (if v1 >? v0 then v1 else v0).

Definition opcodeWithin : M unit :=
  '(maxVal, minVal) ← popInt2;
  x ← popInt mathOpCodeMaxScriptNumLen;
  pushInt (bool_num ((x >=? minVal) && (x <? maxVal))).

(** *** Hashes *)

Definition opcodeRipemd160 : M unit := buf ← popBytes; push_sum (ripemd160 buf).
Definition opcodeSha1 : M unit := buf ← popBytes; push_array (sha1 buf).
Definition opcodeSha256 : M unit := buf ← popBytes; push_sum (HashB buf).
Definition opcodeHash160 : M unit := buf ← popBytes; push_sum (ripemd160 (HashB buf)).
Definition opcodeHash256 : M unit := buf ← popBytes; push_sum (HashB (HashB buf)).

(** *** Signature encodings *)

Definition checkHashTypeEncoding (hashType : Z) : M unit :=
  strict ← gets (hasFlag ScriptVerifyStrictEncoding);
  if negb strict then mret tt
  else
    let sigHashType := Z.land hashType 0x7f in
    when_err ((sigHashType <? SigHashAll) || (sigHashType >? SigHashSingle)) InvalidHashType.

Definition checkPubKeyEncoding (pubKey : bytes) : M unit :=
  strict ← gets (hasFlag ScriptVerifyStrictEncoding);
  if negb strict then mret tt
  else
    compressed ← lift (and_first (length pubKey =? 33)%nat pubKey (fun b0 => (b0 =? 0x02) || (b0 =? 0x03)));
    if compressed : bool then mret tt
    else
      uncompressed ← lift (and_first (length pubKey =? 65)%nat pubKey (fun b0 => b0 =? 0x04));
      if uncompressed : bool then mret tt else throw ErrStackInvalidPubKey.

(** [sig[i]]; the indices are constants, or a byte and a constant. *)
Definition sig_at (sig : bytes) (i : Z) : res scriptError Z := or_panic (sig !! Z.to_nat i).

(** The checks of [checkSignatureEncoding] on the bytes. *)
Definition strict_der (lowS : bool) (sig : bytes) : res scriptError unit :=
  let len := Z.of_nat (length sig) in
  let malformed bad := guard_err bad MalformedSignature in
  _ ← malformed (len <? 8);
  _ ← malformed (len >? 72);
  s0 ← sig_at sig 0;
  _ ← malformed (negb (s0 =? 0x30));
  s1 ← sig_at sig 1;
  _ ← malformed (negb (s1 =? len - 2));
  rLen ← sig_at sig 3;
  _ ← malformed (rLen + 5 >? len);
  sLen ← sig_at sig (rLen + 5);
  _ ← malformed (negb (rLen + sLen + 6 =? len));
  s2 ← sig_at sig 2;
  _ ← malformed (negb (s2 =? 0x02));
  _ ← malformed (rLen =? 0);
  s4 ← sig_at sig 4;
  _ ← malformed (negb (Z.land s4 0x80 =? 0));
  _ ← (if (rLen >? 1) && (s4 =? 0x00)
       then s5 ← sig_at sig 5; malformed (Z.land s5 0x80 =? 0) else Ok tt);
  m ← sig_at sig (rLen + 4);
  _ ← malformed (negb (m =? 0x02));
  _ ← malformed (sLen =? 0);
  t0 ← sig_at sig (rLen + 6);
  _ ← malformed (negb (Z.land t0 0x80 =? 0));
  _ ← (if (sLen >? 1) && (t0 =? 0x00)
       then t1 ← sig_at sig (rLen + 7); malformed (Z.land t1 0x80 =? 0) else Ok tt);
  if lowS
  then
    sValue ← z_slice sig (rLen + 6) (rLen + 6 + sLen);
    guard_err (get_be sValue >? halfOrder) ErrStackInvalidLowSSignature
  else Ok tt.

Definition checkSignatureEncoding (sig : bytes) : M unit :=
  der ← gets (hasFlag ScriptVerifyDERSignatures);
  lowS ← gets (hasFlag ScriptVerifyLowS);
  strict ← gets (hasFlag ScriptVerifyStrictEncoding);
  if negb der && negb lowS && negb strict then mret tt
  else lift (strict_der lowS sig).

(** *** Signatures *)

Definition subScript : M pops := fun vm =>
  script ← or_panic (scripts vm !! scriptIdx vm);
  if (lastCodeSep vm <=? length script)%nat then Ok (drop (lastCodeSep vm) script, vm) else Panic.

Definition remove_data (script : pops) (data : bytes) : M pops :=
  m ← gets heap; mret (removeOpcodeByData (read m) script data).

(** The cached hash of the transaction, when the optimization is on. *)
Definition cached_prefix (hashType : Z) : M (option bytes) :=
  if (Z.land hashType sigHashMask =? SigHashAll) && SigHashOptimization
  then
    t ← gets tx;
    ph ← lift (map_err (fun _ => SerializationFailed) (CachedTxHash HashB t));
    _ ← modify (set_tx (snd ph));
    mret (Some (fst ph))
  else mret None.

(** The signature hash; its error is for the caller. *)
Definition calc_hash (script : pops) (hashType : Z) (prefixHash : option bytes)
    : M (scriptError + bytes) := fun vm =>
  match calcSignatureHash HashB SigHashOptimization (read (heap vm)) script hashType (tx vm)
          (txIdx vm) prefixHash with
  | Ok hash => Ok (inr hash, vm)
  | Err e => Ok (inl e, vm)
  | Panic => Panic
  end.

Definition sig_hash (script : pops) (hashType : Z) : M (scriptError + bytes) :=
  prefixHash ← cached_prefix hashType;
  calc_hash script hashType prefixHash.

Definition parse_signature (sigBytes : bytes) : M (option Signature) :=
  strict ← gets (hasFlag ScriptVerifyStrictEncoding);
  der ← gets (hasFlag ScriptVerifyDERSignatures);
  mret (if strict || der then ParseDERSignature sigBytes else ParseSignature sigBytes).

(** The verification through the cache. *)
Definition verify_cached (hash : bytes) (signature : Signature) (pubKey : PubKey) : M bool :=
  cache ← gets sigCache;
  let r := cached_verify SerializeSig SerializeCompressed pick_entry Verify cache hash signature pubKey in
  _ ← modify (set_sigCache r.2);
  mret r.1.

(** [fullSigBytes[len-1]] and [fullSigBytes[:len-1]] *)
Definition split_sig (full : bytes) : res scriptError (bytes * Z) :=
  match last full with
  | Some hashType => Ok (take (length full - 1) full, hashType)
  | None => Panic
  end.

Definition opcodeCheckSig : M unit :=
  pkBytes ← popBytes;
  fullSigBytes ← popBytes;
  if (length fullSigBytes <? 1)%nat then pushBool false
  else
    '(sigBytes, hashType) ← lift (split_sig fullSigBytes);
    _ ← checkHashTypeEncoding hashType;
    _ ← checkSignatureEncoding sigBytes;
    _ ← checkPubKeyEncoding pkBytes;
    script ← subScript;
    script ← remove_data script fullSigBytes;
    h ← sig_hash script hashType;
    match h with
    | inl _ => pushBool false
    | inr hash =>
        match ParsePubKey pkBytes with
        | None => pushBool false
        | Some pubKey =>
            sig ← parse_signature sigBytes;
            match sig with
            | None => pushBool false
            | Some signature => valid ← verify_cached hash signature pubKey; pushBool valid
            end
        end
    end.

Definition opcodeCheckSigVerify : M unit := _ ← opcodeCheckSig; opcodeVerify.

Record parsedSigInfo := MkSigInfo {
  signature : bytes;
  parsedSignature : option Signature;
  parsed : bool
}.

(** The first part of a round of the loop: the parsed signature, if there is one, and the
    entry that remembers it. *)
Definition multisig_parse (sigInfo : parsedSigInfo) (sigBytes : bytes) (hashType : Z)
    : M (option Signature * parsedSigInfo) :=
  if negb (parsed sigInfo)
  then
    _ ← checkHashTypeEncoding hashType;
    _ ← checkSignatureEncoding sigBytes;
    parsedSig ← parse_signature sigBytes;
    mret (parsedSig, MkSigInfo (signature sigInfo) parsedSig true)
  else mret (parsedSignature sigInfo, sigInfo).

(** A round: whether the signature verifies for the key, and the updated entry. *)
Definition multisig_round (script : pops) (sigInfo : parsedSigInfo) (pubKey : bytes)
    : M (bool * parsedSigInfo) :=
  let rawSig := signature sigInfo in
  if (length rawSig =? 0)%nat then mret (false, sigInfo)
  else
    '(sigBytes, hashType) ← lift (split_sig rawSig);
    '(parsedSig, sigInfo) ← multisig_parse sigInfo sigBytes hashType;
    match parsedSig with
    | None => mret (false, sigInfo)
    | Some parsedSig =>
        _ ← checkPubKeyEncoding pubKey;
        match ParsePubKey pubKey with
        | None => mret (false, sigInfo)
        | Some parsedPubKey =>
            h ← sig_hash script hashType;
            match h with
            | inl e => throw e
            | inr hash => valid ← verify_cached hash parsedSig parsedPubKey; mret (valid, sigInfo)
            end
        end
    end.

(** The loop; a round uses up a key, so [numPubKeys] and one more rounds are enough. *)
Fixpoint multisig_loop (fuel : nat) (script : pops) (pubKeys : list bytes)
    (signatures : list parsedSigInfo) (numPubKeys numSignatures pubKeyIdx signatureIdx : Z) : M bool :=
  if numSignatures >? 0 then
    match fuel with
    | O => throw StillRunning
    | S fuel =>
        let pubKeyIdx := pubKeyIdx + 1 in
        let numPubKeys := numPubKeys - 1 in
        if numSignatures >? numPubKeys then mret false
        else
          sigInfo ← lift (index signatures signatureIdx);
          pubKey ← lift (index pubKeys pubKeyIdx);
          '(valid, sigInfo) ← multisig_round script sigInfo pubKey;
          let signatures := <[Z.to_nat signatureIdx := sigInfo]> signatures in
          if valid : bool
          then multisig_loop fuel script pubKeys signatures numPubKeys (numSignatures - 1)
                 pubKeyIdx (signatureIdx + 1)
          else multisig_loop fuel script pubKeys signatures numPubKeys numSignatures
                 pubKeyIdx signatureIdx
    end
  else mret true.

(** [n] popped items, in the order of their removal. *)
Fixpoint pop_n (n : nat) : M (list bytes) :=
  match n with
  | O => mret []
  | S n => b ← popBytes; l ← pop_n n; mret (b :: l)
  end.

(** [make] with the capacity [n], which panics for a negative one, and [n] popped items. *)
Definition pop_all (n : Z) : M (list bytes) := fun vm => if n <? 0 then Panic else pop_n (Z.to_nat n) vm.

Fixpoint remove_all (script : pops) (sigs : list bytes) : M pops :=
  match sigs with
  | [] => mret script
  | s :: sigs => script ← remove_data script s; remove_all script sigs
  end.

Definition opcodeCheckMultiSig : M unit :=
  numKeys ← popInt mathOpCodeMaxScriptNumLen;
  let numPubKeys := Int32 numKeys in
  _ ← when_err ((numPubKeys <? 0) || (numPubKeys >? MaxPubKeysPerMultiSig)) ErrStackTooManyPubKeys;
  _ ← add_ops numPubKeys;
  pubKeys ← pop_all numPubKeys;
  numSigs ← popInt mathOpCodeMaxScriptNumLen;
  let numSignatures := Int32 numSigs in
  _ ← when_err (numSignatures <? 0) NegativeSignatureCount;
  _ ← when_err (numSignatures >? numPubKeys) MoreSignaturesThanKeys;
  sigs ← pop_all numSignatures;
  script ← subScript;
  script ← remove_all script sigs;
  success ← multisig_loop (Z.to_nat numPubKeys + 1) script pubKeys
    ((fun s => MkSigInfo s None false) <$> sigs) (numPubKeys + 1) numSignatures (-1) 0;
  pushBool success.

Definition opcodeCheckMultiSigVerify : M unit := _ ← opcodeCheckMultiSig; opcodeVerify.

(** The length of a public key of a suite. *)
Definition alt_key_len (t : Z) : nat :=
  if t =? edwards then 32 else if t =? secSchnorr then 33 else if t =? bliss then 897 else 32.

Definition is_alt_suite (t : Z) : bool := (t =? edwards) || (t =? secSchnorr) || (t =? bliss) || (t =? lm).

Definition opcodeCheckSigAlt : M unit :=
  sigType ← popInt altSigSuitesMaxscriptNumLen;
  let t := u8 sigType in
  if t =? 0 then pushBool false
  else if negb (is_alt_suite t) then pushBool true
  else
    pkBytes ← popBytes;
    if negb (length pkBytes =? alt_key_len t)%nat then pushBool false
    else
      fullSigBytes ← popBytes;
      if ((t =? edwards) || (t =? secSchnorr)) && negb (length fullSigBytes =? 65)%nat
      then pushBool false
      else
        '(sigBytes, hashType) ← lift (split_sig fullSigBytes);
        _ ← checkHashTypeEncoding hashType;
        script ← subScript;
        script ← remove_data script fullSigBytes;
        h ← sig_hash script hashType;
        match h with
        | inl _ => pushBool false
        | inr hash =>
            match AltParsePubKey t pkBytes, AltParseSignature t sigBytes with
            | Some pubKey, Some signature => pushBool (AltVerify t pubKey hash signature)
            | _, _ => pushBool false
            end
        end.

Definition opcodeCheckSigAltVerify : M unit := _ ← opcodeCheckSigAlt; opcodeVerify.

(** ** Execution *)

(** [pop.opcode.opfunc(pop, vm)] *)
Definition call_opfunc (op : parsedOpcode slice) : M unit :=
  match op_func (pop_op op) with
  | F_opcodeFalse => opcodeFalse
  | F_opcodePushData => opcodePushData op
  | F_opcode1Negate => opcode1Negate
  | F_opcodeReserved => opcodeReserved
  | F_opcodeN => opcodeN op
  | F_opcodeNop => opcodeNop op
  | F_opcodeIf => opcodeIf
  | F_opcodeNotIf => opcodeNotIf
  | F_opcodeElse => opcodeElse
  | F_opcodeEndif => opcodeEndif
  | F_opcodeVerify => opcodeVerify
  | F_opcodeReturn => opcodeReturn
  | F_opcodeCheckLockTimeVerify => opcodeCheckLockTimeVerify
  | F_opcodeCheckSequenceVerify => opcodeCheckSequenceVerify
  | F_opcodeToAltStack => opcodeToAltStack
  | F_opcodeFromAltStack => opcodeFromAltStack
  | F_opcode2Drop => opcode2Drop
  | F_opcode2Dup => opcode2Dup
  | F_opcode3Dup => opcode3Dup
  | F_opcode2Over => opcode2Over
  | F_opcode2Rot => opcode2Rot
  | F_opcode2Swap => opcode2Swap
  | F_opcodeIfDup => opcodeIfDup
  | F_opcodeDepth => opcodeDepth
  | F_opcodeDrop => opcodeDrop
  | F_opcodeDup => opcodeDup
  | F_opcodeNip => opcodeNip
  | F_opcodeOver => opcodeOver
  | F_opcodePick => opcodePick
  | F_opcodeRoll => opcodeRoll
  | F_opcodeRot => opcodeRot
  | F_opcodeSwap => opcodeSwap
  | F_opcodeTuck => opcodeTuck
  | F_opcodeCat => opcodeCat
  | F_opcodeSubstr => opcodeSubstr
  | F_opcodeLeft => opcodeLeft
  | F_opcodeRight => opcodeRight
  | F_opcodeSize => opcodeSize
  | F_opcodeInvert => opcodeInvert
  | F_opcodeAnd => opcodeAnd
  | F_opcodeOr => opcodeOr
  | F_opcodeXor => opcodeXor
  | F_opcodeEqual => opcodeEqual
  | F_opcodeEqualVerify => opcodeEqualVerify
  | F_opcodeRotr => opcodeRotr
  | F_opcodeRotl => opcodeRotl
  | F_opcode1Add => opcode1Add
  | F_opcode1Sub => opcode1Sub
  | F_opcodeNegate => opcodeNegate
  | F_opcodeAbs => opcodeAbs
  | F_opcodeNot => opcodeNot
  | F_opcode0NotEqual => opcode0NotEqual
  | F_opcodeAdd => opcodeAdd
  | F_opcodeSub => opcodeSub
  | F_opcodeMul => opcodeMul
  | F_opcodeDiv => opcodeDiv
  | F_opcodeMod => opcodeMod
  | F_opcodeLShift => opcodeLShift
  | F_opcodeRShift => opcodeRShift
  | F_opcodeBoolAnd => opcodeBoolAnd
  | F_opcodeBoolOr => opcodeBoolOr
  | F_opcodeNumEqual => opcodeNumEqual
  | F_opcodeNumEqualVerify => opcodeNumEqualVerify
  | F_opcodeNumNotEqual => opcodeNumNotEqual
  | F_opcodeLessThan => opcodeLessThan
  | F_opcodeGreaterThan => opcodeGreaterThan
  | F_opcodeLessThanOrEqual => opcodeLessThanOrEqual
  | F_opcodeGreaterThanOrEqual => opcodeGreaterThanOrEqual
  | F_opcodeMin => opcodeMin
  | F_opcodeMax => opcodeMax
  | F_opcodeWithin => opcodeWithin
  | F_opcodeRipemd160 => opcodeRipemd160
  | F_opcodeSha1 => opcodeSha1
  | F_opcodeSha256 => opcodeSha256
  | F_opcodeHash160 => opcodeHash160
  | F_opcodeHash256 => opcodeHash256
  | F_opcodeDisabled => opcodeDisabled
  | F_opcodeCheckSig => opcodeCheckSig
  | F_opcodeCheckSigVerify => opcodeCheckSigVerify
  | F_opcodeCheckMultiSig => opcodeCheckMultiSig
  | F_opcodeCheckMultiSigVerify => opcodeCheckMultiSigVerify
  | F_opcodeCheckSigAlt => opcodeCheckSigAlt
  | F_opcodeCheckSigAltVerify => opcodeCheckSigAltVerify
  | F_opcodeInvalid => opcodeInvalid
  end.

(** The limit on the operations, and on the pushed element. *)
Definition count_op (op : parsedOpcode slice) : M unit :=
  if pop_value op >? OP_16
  then add_ops 1
  else
    when_err (Z.of_nat (s_len (default nil_slice (pop_data op))) >? MaxScriptElementSize)
      ErrStackElementTooBig.

(** The minimal encoding of an executed push, when the flag asks for it. *)
Definition check_minimal (op : parsedOpcode slice) : M unit := fun vm =>
  if verifyMinimalData (dstack vm) && isBranchExecuting vm && (pop_value op <=? OP_PUSHDATA4)
  then _ ← checkMinimalDataPush (read (heap vm)) op; Ok (tt, vm)
  else Ok (tt, vm).

Definition executeOpcode (op : parsedOpcode slice) : M unit :=
  if isDisabled op then throw ErrStackOpDisabled
  else if alwaysIllegal op then throw ErrStackReservedOpcode
  else
    _ ← count_op op;
    executing ← gets isBranchExecuting;
    if negb executing && negb (isConditional op) then mret tt
    else
      _ ← check_minimal op;
      call_opfunc op.

Definition validPC : M unit := fun vm =>
  match scripts vm !! scriptIdx vm with
  | None => Err PastInputScripts
  | Some script => if (length script <=? scriptOff vm)%nat then Err PastInputScripts else Ok (tt, vm)
  end.

Definition curPC : M (nat * nat) := _ ← validPC; gets (fun vm => (scriptIdx vm, scriptOff vm)).

(** [&vm.scripts[vm.scriptIdx][vm.scriptOff]] *)
Definition fetch : M (parsedOpcode slice) := fun vm =>
  script ← or_panic (scripts vm !! scriptIdx vm);
  op ← or_panic (script !! scriptOff vm);
  Ok (op, vm).

(** [vm.scriptOff >= len(vm.scripts[vm.scriptIdx])] *)
Definition script_ended : M bool := fun vm =>
  script ← or_panic (scripts vm !! scriptIdx vm);
  Ok ((length script <=? scriptOff vm)%nat, vm).

Definition CheckErrorCondition (finalScript : bool) : M unit :=
  unfinished ← gets (fun vm => (scriptIdx vm <? length (scripts vm))%nat);
  _ ← when_err unfinished ErrStackScriptUnfinished;
  clean ← gets (hasFlag ScriptVerifyCleanStack);
  depth ← gets (fun vm => Depth (dstack vm));
  _ ← when_err (finalScript && clean && negb (depth =? 1)) ErrStackCleanStack;
  _ ← when_err (depth <? 1) ErrStackEmptyStack;
  v ← popBool;
  when_err (negb v) ErrStackScriptFailed.

(** The parser on a slice. *)
Definition parse_slice (m : list bytes) (s : slice) : pops * option scriptError :=
  parse_with (fun off n => subslice s off (off + n)) (read m s).

Definition next_idx : M unit := modify (fun vm => set_scriptIdx (S (scriptIdx vm)) vm).

(** [GetStack] and [SetStack] *)
Definition GetStack : M (list slice) := fun vm => l ← getStack (dstack vm); Ok (l, vm).
Definition SetStack (data : list slice) : M unit := on_dstack (setStack data).
Definition GetAltStack : M (list slice) := fun vm => l ← getStack (astack vm); Ok (l, vm).
Definition SetAltStack (data : list slice) : M unit := on_astack (setStack data).

(** The redeem script is the last item of the first script's stack; it is the third
    script, and runs on the other items. *)
Definition load_redeem : M unit := fun vm =>
  match last (savedFirstStack vm) with
  | None => Panic
  | Some script =>
      match parse_slice (heap vm) script with
      | (_, Some OutOfRange) => Panic
      | (_, Some e) => Err e
      | (pops, None) => SetStack (removelast (savedFirstStack vm)) (set_scripts (scripts vm ++ [pops]) vm)
      end
  end.

(** The alternate stack is emptied; the error for an empty one is dropped. *)
Definition clear_astack : M unit := modify (fun vm =>
  match DropN (Depth (astack vm)) (astack vm) with
  | Ok (_, s) => set_astack s vm
  | _ => vm
  end).

(** The next script; after the first script of a pay-to-script-hash spend its stack is
    kept, and after the second the redeem script is loaded. *)
Definition advance : M unit :=
  idx ← gets scriptIdx;
  p2sh ← gets bip16;
  if (idx =? 0)%nat && p2sh then
    _ ← next_idx; saved ← GetStack; modify (set_savedFirstStack saved)
  else if (idx =? 1)%nat && p2sh then
    _ ← next_idx; _ ← CheckErrorCondition false; load_redeem
  else next_idx.

(** An empty script is passed over. *)
Definition skip_empty (vm : Engine) : Engine :=
  match scripts vm !! scriptIdx vm with
  | Some script =>
      if (length script <=? scriptOff vm)%nat then set_scriptIdx (S (scriptIdx vm)) vm else vm
  | None => vm
  end.

(** The part of [Step] for the end of a script. *)
Definition next_script : M unit :=
  _ ← clear_astack;
  _ ← modify (set_numOps 0);
  _ ← modify (set_scriptOff 0);
  _ ← advance;
  _ ← modify skip_empty;
  modify (set_lastCodeSep 0).

Definition Step : M bool :=
  _ ← validPC;
  op ← fetch;
  _ ← executeOpcode op;
  overflow ← gets (fun vm => i32 (Depth (dstack vm) + Depth (astack vm)) >? maxStackSize);
  _ ← when_err overflow ErrStackOverflow;
  _ ← modify (fun vm => set_scriptOff (S (scriptOff vm)) vm);
  ended ← script_ended;
  if negb ended then mret false
  else
    unbalanced ← gets (fun vm => negb (length (condStack vm) =? 0)%nat);
    _ ← when_err unbalanced ErrStackMissingEndif;
    _ ← next_script;
    gets (fun vm => (length (scripts vm) <=? scriptIdx vm)%nat).

(** The loop of [Execute].  Three scripts run at most, each of [maxScriptSize] opcodes at
    most, one opcode a round. *)
Fixpoint execute_loop (fuel : nat) : M unit :=
  match fuel with
  | O => throw StillRunning
  | S fuel => done ← Step; if done : bool then mret tt else execute_loop fuel
  end.

Definition Execute : M unit :=
  v ← gets version;
  if negb (v =? DefaultScriptVersion) then mret tt
  else
    _ ← execute_loop (Z.to_nat (3 * maxScriptSize));
    CheckErrorCondition true.

(** [parseScript(scr)] for the scripts of a new engine, which are arrays of their own. *)
Definition parse_input (m : list bytes) (arr : nat) : res scriptError pops :=
  let scr := array m arr in
  _ ← guard_err (Z.of_nat (length scr) >? maxScriptSize) ErrStackLongScript;
  match parse_slice m (MkSlice arr 0 (length scr) (length scr)) with
  | (_, Some OutOfRange) => Panic
  | (_, Some e) => Err e
  | (pops, None) => Ok pops
  end.

Definition NewEngine (scriptPubKey : bytes) (tx : MsgTx) (txIdx : Z) (flags scriptVersion : Z)
    (sigCache : option (SigCache Signature PubKey)) : res scriptError Engine :=
  if (txIdx <? 0) || (txIdx >=? Z.of_nat (length (tx_TxIn tx))) then Err ErrInvalidIndex
  else
    ti ← or_panic (tx_TxIn tx !! Z.to_nat txIdx);
    let scriptSig := SignatureScript ti in
    let has flag := Z.land flags flag =? flag in
    _ ← guard_err (has ScriptVerifyCleanStack && negb (has ScriptBip16)) ErrInvalidFlags;
    _ ← guard_err (has ScriptVerifySigPushOnly && negb (IsPushOnlyScript scriptSig)) ErrStackNonPushOnly;
    _ ← (if scriptVersion =? DefaultScriptVersion
         then HasP2SHScriptSigStakeOpCodes scriptVersion scriptSig scriptPubKey else Ok tt);
    let m := [scriptSig; scriptPubKey] in
    pops0 ← parse_input m 0;
    pops1 ← parse_input m 1;
    let scriptIdx := if (length scriptSig =? 0)%nat then 1%nat else 0%nat in
    let p2sh := has ScriptBip16 && isAnyKindOfScriptHash pops1 in
    _ ← guard_err (p2sh && negb (isPushOnly pops0)) ErrStackP2SHNonPushOnly;
    let minimal := has ScriptVerifyMinimalData in
    Ok (MkEngine scriptVersion [pops0; pops1] scriptIdx 0 0 (MkStack [] minimal) (MkStack [] minimal)
          tx (Z.to_nat txIdx) [] 0 flags sigCache p2sh [] m).

End engine.
