(* ===== verification/EngineSafe.v ===== *)
(** * Invariants of the script engine

    What every step of [Engine] preserves: the references of the stacks and scripts stay
    inside the memory they were made for, the limits on stacks, elements, operations and
    nested conditionals hold, and the engine never leaves the program.  The proofs go
    through triples [safe]: from a state where the precondition holds, a method returns a
    state and a value for which the postcondition holds or one of its errors, and panics
    only where the triple says so. *)

From S2P Require Import Prelude Opcodes WireCommon MsgTx ScriptNum ScriptStack Script SigHash Engine.
From stdpp Require Import list gmap.
#[local] Open Scope Z_scope.

(** ** Triples *)

Definition safe {S A} (panics : Prop) (P : S -> Prop) (m : stM S scriptError A) (Q : A -> S -> Prop) : Prop :=
  forall s, P s ->
  match m s with
  | Ok (a, s') => Q a s'
  | Err e => e <> StillRunning
  | Panic => panics
  end.

Create HintDb safe discriminated.

Section triples.
Context {S : Type} {panics : Prop}.
Implicit Types P : S -> Prop.

Lemma safe_ret {A} P (Q : A -> S -> Prop) (a : A) :
  (forall s, P s -> Q a s) -> safe panics P (mret (M := stM S scriptError) a) Q.
Proof. intros H s Hs. cbn. auto. Qed.

Lemma safe_bind {A B} P R (Q : B -> S -> Prop) (m : stM S scriptError A) (k : A -> stM S scriptError B) :
  safe panics P m R -> (forall a, safe panics (R a) (k a) Q) -> safe panics P (m ≫= k) Q.
Proof.
  intros Hm Hk s Hs. specialize (Hm s Hs). unfold mbind, stM_bind. destruct (m s) as [[a s']|e|]; cbn.
  - apply Hk, Hm.
  - exact Hm.
  - exact Hm.
Qed.

Lemma safe_conseq {A} (P P' : S -> Prop) (Q Q' : A -> S -> Prop) (m : stM S scriptError A) :
  safe panics P' m Q' -> (forall s, P s -> P' s) -> (forall a s, Q' a s -> Q a s) -> safe panics P m Q.
Proof.
  intros Hm HP HQ s Hs. specialize (Hm s (HP s Hs)). destruct (m s) as [[a s']|e|]; auto.
Qed.

Lemma safe_pure {A} (F : Prop) P (Q : A -> S -> Prop) (m : stM S scriptError A) :
  (F -> safe panics P m Q) -> safe panics (fun s => P s /\ F) m Q.
Proof. intros H s [Hs HF]. by apply H. Qed.

Lemma safe_lift {A} P (Q : A -> S -> Prop) (r : res scriptError A) :
  (match r with Ok a => forall s, P s -> Q a s | Err e => e <> StillRunning | Panic => panics end) ->
  safe panics P (lift r) Q.
Proof. intros H s Hs. unfold lift. destruct r; cbn; auto. Qed.

End triples.

Lemma safe_weaken {S A} (p p' : Prop) (P : S -> Prop) (m : stM S scriptError A) Q :
  (p -> p') -> safe p P m Q -> safe p' P m Q.
Proof. intros Hp Hm s Hs. specialize (Hm s Hs). destruct (m s) as [[a s']|e|]; auto. Qed.

(** ** The stacks *)

(** Items that satisfy [Good], and not more than [k] of them; the limit on [k] keeps the
    depth inside an [int32]. *)
Definition stack_ok {A} (Good : A -> Prop) (k : nat) (s : stack A) : Prop :=
  Forall Good (stk s) /\ (length (stk s) <= k)%nat.

Section stack_ops.
Context {A : Type} (Good : A -> Prop) (mind : bool).

(** The precondition of the operations, with the constant flag of the stack. *)
Definition st (k : nat) (s : stack A) : Prop :=
  stack_ok Good k s /\ verifyMinimalData s = mind /\ (k <= 4000)%nat.

Lemma st_small k s : st k s -> small s.
Proof. intros ([_ H] & _ & Hk). unfold small. lia. Qed.

Lemma st_weaken k k' s : st k s -> (k <= k' <= 4000)%nat -> st k' s.
Proof. intros ([H1 H2] & H3 & H4) H. split_and!; [split; [done|lia]|done|lia]. Qed.

Lemma nipN_safe i k : safe False (st k) (nipN i) (fun a s => st k s /\ Good a).
Proof.
  intros s Hs. pose proof (st_small k s Hs) as Hsm. destruct Hs as ([HF Hl] & Hm & Hk).
  destruct (decide (0 <= i < Z.of_nat (length (stk s)))) as [Hi|Hi].
  2:{ rewrite nip_underflow by (done || lia). done. }
  destruct s as [l m]. cbn [stk verifyMinimalData] in *.
  set (j := (length l - 1 - Z.to_nat i)%nat).
  destruct (lookup_lt_is_Some_2 l j) as [x Hx]; [lia|].
  pose proof (take_drop_middle l j x Hx) as Heq.
  rewrite <- Heq in Hsm, HF, Hl |- *. unfold small in Hsm; cbn [stk] in Hsm.
  rewrite (nip_spec (take j l) x (drop (S j) l) m i Hsm) by (rewrite length_drop; lia).
  apply Forall_app in HF as [HF1 HF2]. apply Forall_cons_1 in HF2 as [Hx' HF2].
  rewrite length_app in Hl. cbn [length] in Hl.
  split; [|done]. split_and!; [split; cbn [stk]|done|done].
  - by apply Forall_app.
  - rewrite length_app. lia.
Qed.

Lemma peek_safe i k : safe False (st k) (PeekByteArray i) (fun a s => st k s /\ Good a).
Proof.
  intros s Hs. pose proof (st_small k s Hs) as Hsm. pose proof Hs as ([HF _] & _).
  destruct (decide (0 <= i < Z.of_nat (length (stk s)))) as [Hi|Hi].
  2:{ rewrite peek_underflow by (done || lia). done. }
  destruct s as [l m]. cbn [stk verifyMinimalData] in *.
  set (j := (length l - 1 - Z.to_nat i)%nat).
  destruct (lookup_lt_is_Some_2 l j) as [x Hx]; [lia|].
  pose proof (take_drop_middle l j x Hx) as Heq.
  pose proof (peek_spec (take j l) x (drop (S j) l) m i) as Hp. rewrite Heq in Hp.
  rewrite Hp by (first [done|rewrite length_drop; lia]).
  split; [done|]. by apply (Forall_lookup_1 _ _ _ _ HF Hx).
Qed.

Lemma push_safe x k : (k < 4000)%nat -> Good x -> safe False (st k) (PushByteArray x) (fun _ => st (S k)).
Proof.
  intros Hk Hx s ([HF Hl] & Hm & _). cbn. split_and!; [split; cbn [stk]|done|lia].
  - apply Forall_app. split; [done|]. by repeat constructor.
  - rewrite length_app. cbn. lia.
Qed.

Lemma drop1_safe k : safe False (st k) (_ ← PopByteArray; mret tt) (fun _ => st k).
Proof. eapply safe_bind; [apply nipN_safe|]. intros a. apply safe_ret. naive_solver. Qed.

(** Loops that add [d] items a round. *)
Lemma times_safe d body n : (forall k, (k + d <= 4000)%nat -> safe False (st k) body (fun _ => st (k + d))) ->
  forall k, (k + n * d <= 4000)%nat -> safe False (st k) (times n body) (fun _ => st (k + n * d)).
Proof.
  intros Hb. induction n as [|n IH]; intros k Hk; cbn [times].
  - apply safe_ret. intros s. by rewrite Nat.add_0_r.
  - eapply safe_bind; [apply Hb; lia|]. intros ?. eapply safe_conseq; [apply (IH (k + d)%nat); lia|done|].
    intros ? s Hs. replace (k + S n * d)%nat with (k + d + n * d)%nat by lia. done.
Qed.

Lemma roll1_safe i k : (k + 1 <= 4000)%nat -> safe False (st k) (so ← nipN i; PushByteArray so) (fun _ => st (k + 1)).
Proof.
  intros Hk. eapply safe_bind; [apply nipN_safe|]. intros a. apply safe_pure. intros Ha.
  rewrite Nat.add_1_r. apply push_safe; [lia|done].
Qed.

Lemma copy1_safe i k : (k + 1 <= 4000)%nat ->
  safe False (st k) (so ← PeekByteArray i; PushByteArray so) (fun _ => st (k + 1)).
Proof.
  intros Hk. eapply safe_bind; [apply peek_safe|]. intros a. apply safe_pure. intros Ha.
  rewrite Nat.add_1_r. apply push_safe; [lia|done].
Qed.

(** An operation that adds at most [d] items and keeps to the items there are. *)
Definition adds (d : nat) (m : stM (stack A) scriptError unit) : Prop :=
  forall k, (k + d <= 4000)%nat -> safe False (st k) m (fun _ => st (k + d)).

Lemma loop_adds n body : 1 <= n -> (forall k, (k + 1 <= 4000)%nat -> safe False (st k) body (fun _ => st (k + 1))) ->
  adds (Z.to_nat n) (need_args n (times (Z.to_nat n) body)).
Proof.
  intros Hn Hb k Hk. rewrite need_args_pos by done.
  pose proof (times_safe 1 body (Z.to_nat n) Hb k) as H. rewrite Nat.mul_1_r in H. by apply H.
Qed.

Lemma DropN_adds n : 1 <= n -> adds 0 (DropN n).
Proof.
  intros Hn k Hk. unfold DropN. rewrite need_args_pos by done.
  pose proof (times_safe 0 (_ ← PopByteArray; mret tt) (Z.to_nat n)) as H. rewrite Nat.mul_0_r in H.
  apply H; [|lia]. intros k' Hk'. rewrite Nat.add_0_r. apply drop1_safe.
Qed.

Lemma DupN_adds n : 1 <= n -> adds (Z.to_nat n) (DupN n).
Proof. intros Hn. apply loop_adds; [done|]. apply copy1_safe. Qed.
Lemma RotN_adds n : 1 <= n -> adds (Z.to_nat n) (RotN n).
Proof. intros Hn. apply loop_adds; [done|]. apply roll1_safe. Qed.
Lemma SwapN_adds n : 1 <= n -> adds (Z.to_nat n) (SwapN n).
Proof. intros Hn. apply loop_adds; [done|]. apply roll1_safe. Qed.
Lemma OverN_adds n : 1 <= n -> adds (Z.to_nat n) (OverN n).
Proof. intros Hn. apply loop_adds; [done|]. apply copy1_safe. Qed.
Lemma PickN_adds n : adds 1 (PickN n).
Proof. intros k Hk. by apply copy1_safe. Qed.
Lemma RollN_adds n : adds 1 (RollN n).
Proof. intros k Hk. by apply roll1_safe. Qed.

Lemma NipN_adds n : adds 0 (NipN n).
Proof.
  intros k Hk. rewrite Nat.add_0_r. eapply safe_bind; [apply nipN_safe|]. intros a. apply safe_ret. naive_solver.
Qed.

Lemma Tuck_adds : adds 3 Tuck.
Proof.
  intros k Hk. unfold Tuck. eapply safe_bind; [apply nipN_safe|]. intros a. apply safe_pure. intros Ha.
  eapply safe_bind; [apply nipN_safe|]. intros b. apply safe_pure. intros Hb.
  replace (k + 3)%nat with (S (S (S k))) by lia.
  do 2 (eapply safe_bind; [apply push_safe; [lia|done]|intros []]). apply push_safe; [lia|done].
Qed.

End stack_ops.

#[export] Hint Resolve DropN_adds DupN_adds RotN_adds SwapN_adds OverN_adds PickN_adds RollN_adds NipN_adds
  Tuck_adds : safe.

(** ** Memory *)

Definition mem_ok (m : list bytes) : Prop := Forall is_bytes m.

(** A reference stays inside its array. *)
Definition slice_ok (m : list bytes) (s : slice) : Prop :=
  (s_len s <= s_cap s)%nat /\ (s_off s + s_cap s <= length (array m (s_arr s)))%nat.

(** An item of a stack. *)
Definition item_ok (m : list bytes) (s : slice) : Prop :=
  slice_ok m s /\ Z.of_nat (s_len s) <= MaxScriptElementSize.

(** Arrays are added, and existing ones keep their length. *)
Definition heap_le (m m' : list bytes) : Prop :=
  forall a, (length (array m a) <= length (array m' a))%nat.

Lemma array_bytes m a : mem_ok m -> is_bytes (array m a).
Proof.
  intros Hm. unfold array. destruct (m !! a) eqn:E; [|apply Forall_nil_2].
  by apply (Forall_lookup_1 _ _ _ _ Hm E).
Qed.

Lemma read_bytes m s : mem_ok m -> is_bytes (read m s).
Proof. intros Hm. apply Forall_take, Forall_drop, array_bytes, Hm. Qed.

Lemma read_length m s : slice_ok m s -> length (read m s) = s_len s.
Proof. intros [H1 H2]. unfold read. rewrite length_take, length_drop. lia. Qed.

Lemma heap_le_refl m : heap_le m m.
Proof. intros a. lia. Qed.

Lemma heap_le_trans m1 m2 m3 : heap_le m1 m2 -> heap_le m2 m3 -> heap_le m1 m3.
Proof. intros H1 H2 a. specialize (H1 a). specialize (H2 a). lia. Qed.

Lemma slice_ok_mono m m' s : heap_le m m' -> slice_ok m s -> slice_ok m' s.
Proof. intros H [H1 H2]. specialize (H (s_arr s)). split; lia. Qed.

Lemma item_ok_mono m m' s : heap_le m m' -> item_ok m s -> item_ok m' s.
Proof. intros H [H1 H2]. split; [by eapply slice_ok_mono|done]. Qed.

Lemma items_mono m m' l : heap_le m m' -> Forall (item_ok m) l -> Forall (item_ok m') l.
Proof. intros H Hl. eapply Forall_impl; [exact Hl|]. intros s. by apply item_ok_mono. Qed.

Lemma nil_ok m : item_ok m nil_slice.
Proof. unfold item_ok, slice_ok, MaxScriptElementSize. cbn. lia. Qed.

Lemma subslice_ok m s i j : slice_ok m s -> (i <= j <= s_len s)%nat -> slice_ok m (subslice s i j).
Proof. intros [H1 H2] H. unfold slice_ok, subslice. cbn. lia. Qed.

Lemma subitem_ok m s i j : item_ok m s -> (i <= j <= s_len s)%nat -> item_ok m (subslice s i j).
Proof. intros [H1 H2] H. split; [by apply subslice_ok|]. cbn. lia. Qed.

Lemma array_snoc m b : array (m ++ [b]) (length m) = b.
Proof. unfold array. by rewrite lookup_app_r, Nat.sub_diag by lia. Qed.

Lemma heap_le_snoc m b : heap_le m (m ++ [b]).
Proof.
  intros a. unfold array. destruct (m !! a) eqn:E; [|cbn; lia].
  by rewrite (lookup_app_l_Some _ _ _ _ E).
Qed.

Lemma array_insert_same m i b : (i < length m)%nat -> array (<[i := b]> m) i = b.
Proof. intros H. unfold array. by rewrite list_lookup_insert_eq. Qed.

Lemma heap_le_insert m i b : length b = length (array m i) -> heap_le m (<[i := b]> m).
Proof.
  intros H a. destruct (decide (a = i)) as [->|Hne].
  - destruct (decide (i < length m)%nat).
    + rewrite array_insert_same by done. lia.
    + by rewrite list_insert_ge by lia.
  - unfold array. by rewrite list_lookup_insert_ne by done.
Qed.

Lemma overwrite_length (arr a : bytes) at_ : (at_ + length a <= length arr)%nat ->
  length (take at_ arr ++ a ++ drop (at_ + length a) arr) = length arr.
Proof. intros H. rewrite !length_app, length_take, length_drop. lia. Qed.

(** ** Hashes *)

(** What the engine relies on of the hash functions: they map bytes to bytes and their
    results have a fixed length. *)
Class ScriptEnvOk (Env : ScriptEnv) : Prop := {
  HashB_ok b : is_bytes b -> is_bytes (HashB b) /\ length (HashB b) = 32%nat;
  ripemd160_ok b : is_bytes b -> is_bytes (ripemd160 b) /\ length (ripemd160 b) = 20%nat;
  sha1_ok b : is_bytes b -> is_bytes (sha1 b) /\ length (sha1 b) = 20%nat
}.

(** ** What a handler leaves alone *)

Section engine_proofs.
Context `{Env : ScriptEnv} {EnvOk : ScriptEnvOk Env}.
Implicit Types vm : Engine.

Definition same_tx (t t' : MsgTx) : Prop :=
  SerType t' = SerType t /\ tx_Version t' = tx_Version t /\ tx_TxIn t' = tx_TxIn t /\
  tx_TxOut t' = tx_TxOut t /\ LockTime t' = LockTime t /\ Expiry t' = Expiry t.

Record frame (vm0 vm : Engine) : Prop := {
  fr_version : version vm = version vm0;
  fr_scripts : scripts vm = scripts vm0;
  fr_scriptIdx : scriptIdx vm = scriptIdx vm0;
  fr_scriptOff : scriptOff vm = scriptOff vm0;
  fr_lastCodeSep : lastCodeSep vm = lastCodeSep vm0;
  fr_minimal : verifyMinimalData (dstack vm) = verifyMinimalData (dstack vm0) /\
               verifyMinimalData (astack vm) = verifyMinimalData (astack vm0);
  fr_tx : same_tx (tx vm0) (tx vm);
  fr_txIdx : txIdx vm = txIdx vm0;
  fr_condStack : condStack vm = condStack vm0;
  fr_numOps : numOps vm0 <= numOps vm;
  fr_flags : flags vm = flags vm0;
  fr_bip16 : bip16 vm = bip16 vm0;
  fr_saved : savedFirstStack vm = savedFirstStack vm0;
  fr_heap : heap_le (heap vm0) (heap vm)
}.

(** The state inside a handler that started in [vm0]; [k] bounds the depth of the stacks. *)
Record inv (vm0 : Engine) (k : nat) vm : Prop := {
  i_frame : frame vm0 vm;
  i_mem : mem_ok (heap vm);
  i_d : Forall (item_ok (heap vm)) (stk (dstack vm));
  i_a : Forall (item_ok (heap vm)) (stk (astack vm));
  i_depth : (length (stk (dstack vm)) + length (stk (astack vm)) <= k <= 4000)%nat;
  i_ops : numOps vm <= MaxOpsPerScript
}.

Lemma inv_mono vm0 k k' vm : (k <= k' <= 4000)%nat -> inv vm0 k vm -> inv vm0 k' vm.
Proof. intros Hk []. split; try done. lia. Qed.

Lemma frame_refl vm : frame vm vm.
Proof. split; first [done|lia|apply heap_le_refl|by unfold same_tx]. Qed.

Lemma inv_d_st vm0 k vm : inv vm0 k vm ->
  st (item_ok (heap vm)) (verifyMinimalData (dstack vm)) (length (stk (dstack vm))) (dstack vm).
Proof. intros []. split_and!; [split; [done|lia]|done|lia]. Qed.

Lemma inv_a_st vm0 k vm : inv vm0 k vm ->
  st (item_ok (heap vm)) (verifyMinimalData (astack vm)) (length (stk (astack vm))) (astack vm).
Proof. intros []. split_and!; [split; [done|lia]|done|lia]. Qed.

(** The state after an operation on one of the stacks, on the memory, and on the cache. *)
Lemma inv_set_dstack vm0 k d vm s : inv vm0 k vm -> (k + d <= 4000)%nat ->
  st (item_ok (heap vm)) (verifyMinimalData (dstack vm)) (length (stk (dstack vm)) + d) s ->
  inv vm0 (k + d) (set_dstack s vm).
Proof.
  intros [[] ? ? ? ? ?] Hk ([H1 H2] & H3 & H4). split; try done; [|cbn; lia].
  split; try done. cbn. rewrite H3. done.
Qed.

Lemma inv_set_astack vm0 k d vm s : inv vm0 k vm -> (k + d <= 4000)%nat ->
  st (item_ok (heap vm)) (verifyMinimalData (astack vm)) (length (stk (astack vm)) + d) s ->
  inv vm0 (k + d) (set_astack s vm).
Proof.
  intros [[] ? ? ? ? ?] Hk ([H1 H2] & H3 & H4). split; try done; [|cbn; lia].
  split; try done. cbn. rewrite H3. done.
Qed.

Lemma inv_set_heap vm0 k vm m : inv vm0 k vm -> mem_ok m -> heap_le (heap vm) m -> inv vm0 k (set_heap m vm).
Proof.
  intros [[] ? ? ? ? ?] Hm Hle. split; cbn; [split; try done| |by eapply items_mono|by eapply items_mono|done|done].
  - by eapply heap_le_trans.
  - done.
Qed.

Lemma inv_set_sigCache vm0 k vm c : inv vm0 k vm -> inv vm0 k (set_sigCache c vm).
Proof. intros [[] ? ? ? ? ?]. by split. Qed.

Lemma inv_set_tx vm0 k vm t : inv vm0 k vm -> same_tx (tx vm) t -> inv vm0 k (set_tx t vm).
Proof.
  intros [[] ? ? ? ? ?] Ht. split; try done. split; try done. unfold same_tx in *. cbn. naive_solver congruence.
Qed.

(** ** Primitives *)

Lemma gets_bind {A B} (f : Engine -> A) (m : A -> stM Engine scriptError B) vm : (gets f ≫= m) vm = m (f vm) vm.
Proof. reflexivity. Qed.

Lemma modify_bind {B} f (m : unit -> stM Engine scriptError B) vm : (modify f ≫= m) vm = m tt (f vm).
Proof. reflexivity. Qed.

Variable vm0 : Engine.

Lemma on_dstack_adds d k (m : stM (stack slice) scriptError unit) : (forall Good mind, adds Good mind d m) ->
  (k + d <= 4000)%nat -> safe False (inv vm0 k) (on_dstack m) (fun _ => inv vm0 (k + d)).
Proof.
  intros Hm Hk vm Hvm. unfold on_dstack.
  assert (Hd : (length (stk (dstack vm)) + d <= 4000)%nat) by (destruct Hvm; lia).
  pose proof (Hm _ _ _ Hd _ (inv_d_st _ _ _ Hvm)) as H. destruct (m (dstack vm)) as [[[] s]|e|]; cbn; [|done|done].
  by apply inv_set_dstack.
Qed.

Lemma push_inv s k : (k < 4000)%nat ->
  safe False (fun vm => inv vm0 k vm /\ item_ok (heap vm) s) (push s) (fun _ => inv vm0 (S k)).
Proof.
  intros Hk vm [Hvm Hs]. unfold push, on_dstack.
  assert (Hd : (length (stk (dstack vm)) < 4000)%nat) by (destruct Hvm; lia).
  pose proof (push_safe _ _ s _ Hd Hs _ (inv_d_st _ _ _ Hvm)) as H. cbn in H |- *.
  rewrite <- (Nat.add_1_r k). apply inv_set_dstack; [done|lia|]. by rewrite Nat.add_1_r.
Qed.

Lemma push_astack_inv s k : (k < 4000)%nat ->
  safe False (fun vm => inv vm0 k vm /\ item_ok (heap vm) s) (on_astack (PushByteArray s)) (fun _ => inv vm0 (S k)).
Proof.
  intros Hk vm [Hvm Hs]. unfold on_astack.
  assert (Hd : (length (stk (astack vm)) < 4000)%nat) by (destruct Hvm; lia).
  pose proof (push_safe _ _ s _ Hd Hs _ (inv_a_st _ _ _ Hvm)) as H. cbn in H |- *.
  rewrite <- (Nat.add_1_r k). apply inv_set_astack; [done|lia|]. by rewrite Nat.add_1_r.
Qed.

(** Reading a stack: the item is in the memory of the state it was read in. *)
Lemma on_dstack_item k (m : stM (stack slice) scriptError slice) :
  (forall Good mind j, safe False (st Good mind j) m (fun a s => st Good mind j s /\ Good a)) ->
  safe False (inv vm0 k) (on_dstack m) (fun s vm => inv vm0 k vm /\ item_ok (heap vm) s).
Proof.
  intros Hm vm Hvm. unfold on_dstack. pose proof (Hm _ _ _ _ (inv_d_st _ _ _ Hvm)) as H.
  destruct (m (dstack vm)) as [[a s]|e|]; cbn; [|done|done]. destruct H as [H Ha]. split; [|done].
  rewrite <- (Nat.add_0_r k). rewrite <- (Nat.add_0_r (length _)) in H.
  apply inv_set_dstack; [done|destruct Hvm; lia|done].
Qed.

Lemma pop_slice_inv k : safe False (inv vm0 k) pop_slice (fun s vm => inv vm0 k vm /\ item_ok (heap vm) s).
Proof. apply on_dstack_item. intros. apply nipN_safe. Qed.

Lemma peek_slice_inv i k : safe False (inv vm0 k) (peek_slice i) (fun s vm => inv vm0 k vm /\ item_ok (heap vm) s).
Proof. apply on_dstack_item. intros. apply peek_safe. Qed.

Lemma pop_astack_inv k :
  safe False (inv vm0 k) (on_astack PopByteArray) (fun s vm => inv vm0 k vm /\ item_ok (heap vm) s).
Proof.
  intros vm Hvm. unfold on_astack. pose proof (nipN_safe _ _ 0 _ _ (inv_a_st _ _ _ Hvm)) as H.
  unfold PopByteArray. destruct (nipN 0 (astack vm)) as [[a s]|e|]; cbn; [|done|done].
  destruct H as [H Ha]. split; [|done]. rewrite <- (Nat.add_0_r k). rewrite <- (Nat.add_0_r (length _)) in H.
  apply inv_set_astack; [done|destruct Hvm; lia|done].
Qed.

Definition data_ok (b : bytes) : Prop := is_bytes b /\ Z.of_nat (length b) <= MaxScriptElementSize.

Lemma view_inv s k :
  safe False (fun vm => inv vm0 k vm /\ item_ok (heap vm) s) (view s)
    (fun b vm => inv vm0 k vm /\ (data_ok b /\ length b = s_len s)).
Proof.
  intros vm [Hvm [Hs Hl]]. cbn. split; [done|].
  unfold data_ok. rewrite (read_length _ _ Hs). split_and!; [apply read_bytes, Hvm|done|done].
Qed.

Lemma popBytes_inv k : safe False (inv vm0 k) popBytes (fun b vm => inv vm0 k vm /\ data_ok b).
Proof.
  eapply safe_bind; [apply pop_slice_inv|]. intros s. eapply safe_conseq; [apply (view_inv s k)|done|naive_solver].
Qed.

Lemma make_range v minimal L n : is_bytes v -> 0 < L <= 7 -> makeScriptNum v minimal L = Ok n ->
  Z.abs n < 2 ^ (8 * L - 1).
Proof.
  intros Hv HL Hn. assert (Hn' : makeScriptNum v false L = Ok n).
  { destruct minimal; [|done]. by apply make_minimal in Hn as [_ Hn]. }
  destruct v as [|b w _] using rev_ind.
  { unfold makeScriptNum in Hn'. destruct (_ >? L); [done|]. cbn in Hn'. simplify_eq. cbn.
    apply Z.pow_pos_nonneg; lia. }
  assert (Hlen : Z.of_nat (length w) < L).
  { unfold makeScriptNum in Hn'. rewrite length_app in Hn'. cbn [length] in Hn'. rewrite Z.gtb_ltb in Hn'.
    destruct (Z.ltb_spec L (Z.of_nat (length w + 1))); [done|lia]. }
  rewrite make_plain in Hn' by (done || lia). simplify_eq. by apply num_of_bound.
Qed.

Lemma make_result v minimal L :
  match makeScriptNum v minimal L with
  | Ok _ => True
  | Err e => e <> StillRunning
  | Panic => False
  end.
Proof.
  unfold makeScriptNum, checkMinimalDataEncoding. destruct (_ >? L); [done|].
  destruct v as [|b w _] using rev_ind; [by destruct minimal|].
  rewrite length_app, Nat.add_1_r. cbn [length Nat.eqb].
  replace (Z.of_nat (S (length w)) - 1) with (Z.of_nat (length w)) by lia.
  rewrite !index_app. cbn [mbind res_bind].
  destruct (negb _), minimal; cbn [mbind res_bind]; try done; (destruct (_ =? 0); [|done]);
    (destruct (Z.eqb_spec (Z.of_nat (S (length w))) 1); [done|]);
    (destruct (index_Ok (E := scriptError) (w ++ [b]) (Z.of_nat (S (length w)) - 2)) as [c ->];
       [rewrite length_app; cbn [length]; lia|]);
    cbn [mbind res_bind]; by destruct (_ =? 0).
Qed.

Lemma make_errors v minimal L e : makeScriptNum v minimal L = Err e -> e <> StillRunning.
Proof. intros H. pose proof (make_result v minimal L) as Hr. by rewrite H in Hr. Qed.

Lemma make_no_panic v minimal L : makeScriptNum v minimal L <> Panic.
Proof. intros H. pose proof (make_result v minimal L) as Hr. by rewrite H in Hr. Qed.

Lemma popInt_inv L k : 0 < L <= 7 ->
  safe False (inv vm0 k) (popInt L) (fun n vm => inv vm0 k vm /\ Z.abs n < 2 ^ (8 * L - 1)).
Proof.
  intros HL vm Hvm. pose proof (pop_slice_inv k vm Hvm) as H.
  unfold popInt, pop_slice, on_dstack, PopInt in *. rewrite gets_bind.
  destruct (PopByteArray (dstack vm)) as [[so s']|e|]; cbn in *; [|done|done].
  destruct H as [H1 H2]. destruct (makeScriptNum _ _ L) as [n|e|] eqn:E; cbn.
  - split; [done|]. eapply make_range; [|done|exact E]. apply read_bytes, Hvm.
  - by eapply make_errors.
  - by apply make_no_panic in E.
Qed.

Lemma popBool_inv k : safe False (inv vm0 k) popBool (fun _ => inv vm0 k).
Proof.
  intros vm Hvm. pose proof (pop_slice_inv k vm Hvm) as H.
  unfold popBool, pop_slice, on_dstack, PopBool in *. rewrite gets_bind. unfold mbind at 2, stM_bind.
  destruct (PopByteArray (dstack vm)) as [[so s']|e|] eqn:E; cbn in *; [|done|done]. apply H.
Qed.

Lemma alloc_inv b cap k : data_ok b ->
  safe False (inv vm0 k) (alloc b cap) (fun s vm => inv vm0 k vm /\ item_ok (heap vm) s).
Proof.
  intros [Hb Hl] vm Hvm. cbn. split.
  - apply inv_set_heap; [done| |apply heap_le_snoc]. apply Forall_app. split; [apply Hvm|].
    constructor; [|apply Forall_nil_2]. apply Forall_app. split; [done|]. apply Forall_replicate. done.
  - split; [|done]. unfold slice_ok. cbn [s_len s_cap s_off s_arr heap set_heap].
    rewrite array_snoc, length_app, length_replicate. lia.
Qed.

Lemma pushInt_inv n k : (k < 4000)%nat -> Z.abs n < 2 ^ 55 ->
  safe False (inv vm0 k) (pushInt n) (fun _ => inv vm0 (S k)).
Proof.
  intros Hk Hn. assert (Hb : exists b, num_Bytes n = Ok b /\ data_ok b).
  { unfold data_ok, MaxScriptElementSize. destruct (decide (n = 0)) as [->|Hne]; [exists []; split_and!; [done|apply Forall_nil_2|done]|].
    destruct (decode_encoded n 7) as (w & b & -> & Hb & Hl & _); [done|done|lia|]. exists (w ++ [b]).
    split_and!; [done|done|]. rewrite length_app. cbn. lia. }
  destruct Hb as (b & Hb & Hd). unfold pushInt. rewrite Hb.
  eapply safe_bind; [apply (safe_lift (inv vm0 k) (fun b' vm => inv vm0 k vm /\ b' = b)); done|].
  intros b'. apply safe_pure. intros ->. eapply safe_bind; [|intros s; by apply push_inv].
  destruct (_ =? 0)%nat; [apply safe_ret; split; [done|apply nil_ok]|by apply alloc_inv].
Qed.

Lemma pushBool_inv v k : (k < 4000)%nat -> safe False (inv vm0 k) (pushBool v) (fun _ => inv vm0 (S k)).
Proof.
  intros Hk. eapply safe_bind; [|intros s; by apply push_inv].
  destruct v; [apply alloc_inv|apply safe_ret; split; [done|apply nil_ok]].
  split; [by repeat constructor|done].
Qed.

Lemma push_sum_inv h k : (k < 4000)%nat -> data_ok h -> safe False (inv vm0 k) (push_sum h) (fun _ => inv vm0 (S k)).
Proof. intros Hk Hh. eapply safe_bind; [by apply alloc_inv|intros s; by apply push_inv]. Qed.

Lemma push_array_inv h k : (k < 4000)%nat -> data_ok h -> safe False (inv vm0 k) (push_array h) (fun _ => inv vm0 (S k)).
Proof. intros Hk Hh. eapply safe_bind; [by apply alloc_inv|intros s; by apply push_inv]. Qed.

(** ** Ranges of the results of the arithmetic *)

Definition num_range (n : Z) : Prop := Z.abs n < 2 ^ (8 * mathOpCodeMaxScriptNumLen - 1).

Lemma Int32_range n : is_i32 (Int32 n).
Proof.
  unfold Int32, maxInt32, minInt32. rewrite Z.gtb_ltb.
  destruct (Z.ltb_spec (2 ^ 31 - 1) n); [unfold is_i32; lia|].
  destruct (Z.ltb_spec n (- 2 ^ 31)); [unfold is_i32; lia|]. apply i32_range.
Qed.

Lemma Int32_id n : num_range n -> Int32 n = n.
Proof.
  unfold num_range, mathOpCodeMaxScriptNumLen, Int32, maxInt32, minInt32. intros Hn. rewrite Z.gtb_ltb.
  destruct (Z.ltb_spec (2 ^ 31 - 1) n); [lia|]. destruct (Z.ltb_spec n (- 2 ^ 31)); [lia|].
  apply i32_small. unfold is_i32. lia.
Qed.

Lemma i32_bits x : is_i32 x <-> Z.shiftr x 31 = 0 \/ Z.shiftr x 31 = -1.
Proof. rewrite Z.shiftr_div_pow2 by lia. unfold is_i32. split; intros; Z.div_mod_to_equations; lia. Qed.

Lemma i32_bitop (f : Z -> Z -> Z) a b :
  (forall x y, Z.shiftr (f x y) 31 = f (Z.shiftr x 31) (Z.shiftr y 31)) ->
  (forall x y, (x = 0 \/ x = -1) -> (y = 0 \/ y = -1) -> f x y = 0 \/ f x y = -1) ->
  is_i32 a -> is_i32 b -> is_i32 (f a b).
Proof. rewrite !i32_bits. intros Hf Hc Ha Hb. rewrite Hf. auto. Qed.

Lemma i32_land a b : is_i32 a -> is_i32 b -> is_i32 (Z.land a b).
Proof. apply (i32_bitop Z.land); [intros; apply Z.shiftr_land|intros x y [->| ->] [->| ->]; cbn; auto]. Qed.
Lemma i32_lor a b : is_i32 a -> is_i32 b -> is_i32 (Z.lor a b).
Proof. apply (i32_bitop Z.lor); [intros; apply Z.shiftr_lor|intros x y [->| ->] [->| ->]; cbn; auto]. Qed.
Lemma i32_lxor a b : is_i32 a -> is_i32 b -> is_i32 (Z.lxor a b).
Proof. apply (i32_bitop Z.lxor); [intros; apply Z.shiftr_lxor|intros x y [->| ->] [->| ->]; cbn; auto]. Qed.

Lemma i32_lnot a : is_i32 a -> is_i32 (Z.lnot a).
Proof. unfold is_i32, Z.lnot. lia. Qed.

Lemma i32_rem a b : is_i32 a -> is_i32 (Z.rem a b).
Proof.
  unfold is_i32. intros Ha. destruct (Z.eq_dec b 0) as [->|Hb]; [by rewrite Z.rem_0_r_ext|].
  pose proof (Z.quot_rem a b Hb). destruct (Z.le_gt_cases 0 a).
  - pose proof (Z.rem_bound_pos_pos a (Z.abs b)). pose proof (Z.rem_le a (Z.abs b)).
    rewrite <- Z.rem_abs_r; lia.
  - pose proof (Z.rem_le (- a) (Z.abs b)). pose proof (Z.rem_bound_pos_pos (- a) (Z.abs b)).
    rewrite <- (Z.opp_involutive a), Z.rem_opp_l by done. rewrite <- Z.rem_abs_r; lia.
Qed.

Lemma i32_shiftr a n : 0 <= n -> is_i32 a -> is_i32 (Z.shiftr a n).
Proof.
  intros Hn Ha. rewrite i32_bits in *. rewrite Z.shiftr_shiftr by lia. rewrite (Z.add_comm n 31), <- Z.shiftr_shiftr by lia.
  destruct Ha as [->| ->]; [left; apply Z.shiftr_0_l|right]. rewrite Z.shiftr_div_pow2 by lia.
  assert (1 <= 2 ^ n) by (apply (Z.pow_le_mono_r 2 0); lia). symmetry. apply (Z.div_unique_pos _ _ _ (2 ^ n - 1)); lia.
Qed.

Lemma i32_pushable n : is_i32 n -> Z.abs n < 2 ^ 55.
Proof. unfold is_i32. lia. Qed.

Lemma num_pushable n : num_range n -> Z.abs n < 2 ^ 55.
Proof. unfold num_range, mathOpCodeMaxScriptNumLen. lia. Qed.

Lemma i64_num n : Z.abs n <= 2 ^ 32 -> i64 n = n.
Proof. intros Hn. apply i64_small. unfold is_i64. lia. Qed.

Lemma bool_pushable b : Z.abs (bool_num b) < 2 ^ 55.
Proof. destruct b; cbn; lia. Qed.

(** ** Handlers *)

Lemma when_err_inv P b e : e <> StillRunning -> safe False P (when_err b e) (fun _ (vm : Engine) => P vm /\ b = false).
Proof. intros He vm Hvm. unfold when_err. destruct b; cbn; [done|]. by split. Qed.

Lemma throw_inv {A} P (Q : A -> Engine -> Prop) e : e <> StillRunning -> safe False P (throw e) Q.
Proof. intros He vm Hvm. done. Qed.

Lemma gets_inv {A} P (f : Engine -> A) : safe False P (gets f) (fun _ (vm : Engine) => P vm).
Proof. intros vm Hvm. done. Qed.

Lemma popNum_inv k : safe False (inv vm0 k) (popInt mathOpCodeMaxScriptNumLen)
  (fun n vm => inv vm0 k vm /\ num_range n).
Proof. apply popInt_inv. unfold mathOpCodeMaxScriptNumLen. lia. Qed.

Lemma popInt2_inv k : safe False (inv vm0 k) popInt2
  (fun v vm => inv vm0 k vm /\ (num_range (fst v) /\ num_range (snd v))).
Proof.
  eapply safe_bind; [apply popNum_inv|]. intros v0. apply safe_pure. intros H0.
  eapply safe_bind; [apply popNum_inv|]. intros v1. apply safe_pure. intros H1. by apply safe_ret.
Qed.

(** The triple of a handler: it adds six items at most. *)
Definition handler_ok (h : stM Engine scriptError unit) : Prop :=
  forall k, (k + 6 <= 4000)%nat -> safe False (inv vm0 k) h (fun _ => inv vm0 (k + 6)).

Lemma leaf (j k : nat) (h : stM Engine scriptError unit) :
  safe False (inv vm0 k) h (fun _ => inv vm0 j) -> (j <= k + 6 <= 4000)%nat ->
  safe False (inv vm0 k) h (fun _ => inv vm0 (k + 6)).
Proof. intros H Hk. eapply safe_conseq; [exact H|done|]. intros ? vm. by apply inv_mono. Qed.

Lemma dstack_handler d m : (forall Good mind, adds Good mind d m) -> (d <= 6)%nat -> handler_ok (on_dstack m).
Proof. intros Hm Hd k Hk. eapply leaf; [apply (on_dstack_adds d); [done|lia]|lia]. Qed.

Lemma pushInt_leaf n k : Z.abs n < 2 ^ 55 -> (k + 6 <= 4000)%nat ->
  safe False (inv vm0 k) (pushInt n) (fun _ => inv vm0 (k + 6)).
Proof. intros Hn Hk. eapply leaf; [apply pushInt_inv; [lia|done]|lia]. Qed.

Lemma pushBool_leaf b k : (k + 6 <= 4000)%nat -> safe False (inv vm0 k) (pushBool b) (fun _ => inv vm0 (k + 6)).
Proof. intros Hk. eapply leaf; [apply pushBool_inv; lia|lia]. Qed.

Lemma push_leaf s k : (k + 6 <= 4000)%nat ->
  safe False (fun vm => inv vm0 k vm /\ item_ok (heap vm) s) (push s) (fun _ => inv vm0 (k + 6)).
Proof. intros Hk. eapply safe_conseq; [apply (push_inv s k); lia|done|]. intros ? vm. apply inv_mono. lia. Qed.

Lemma push_nil_leaf P k : (k + 6 <= 4000)%nat -> (forall vm, P vm -> inv vm0 k vm) ->
  safe False P (push nil_slice) (fun _ => inv vm0 (k + 6)).
Proof.
  intros Hk HP. eapply safe_conseq; [apply (push_leaf nil_slice k Hk)| |done].
  intros vm H. split; [by apply HP|apply nil_ok].
Qed.

Lemma unary_handler (h : Z -> stM Engine scriptError unit) :
  (forall v, num_range v -> handler_ok (h v)) -> handler_ok (v ← popInt mathOpCodeMaxScriptNumLen; h v).
Proof.
  intros Hh k Hk. eapply safe_bind; [apply popNum_inv|]. intros v. apply safe_pure. intros Hv. by apply Hh.
Qed.

Lemma binary_handler (h : Z -> Z -> stM Engine scriptError unit) :
  (forall v0 v1, num_range v0 -> num_range v1 -> handler_ok (h v0 v1)) -> handler_ok ('(v0, v1) ← popInt2; h v0 v1).
Proof.
  intros Hh k Hk. eapply safe_bind; [apply popInt2_inv|]. intros [v0 v1]. apply safe_pure. intros [H0 H1]. by apply Hh.
Qed.

Lemma pushInt_handler n : Z.abs n < 2 ^ 55 -> handler_ok (pushInt n).
Proof. intros Hn k Hk. by apply pushInt_leaf. Qed.

Lemma throw_handler e : e <> StillRunning -> handler_ok (throw e).
Proof. intros He k Hk. by apply throw_inv. Qed.

Lemma ret_handler : handler_ok (mret tt).
Proof. intros k Hk. apply safe_ret. intros vm. apply inv_mono. lia. Qed.

Lemma if_handler (b : bool) h1 h2 : handler_ok h1 -> handler_ok h2 -> handler_ok (if b then h1 else h2).
Proof. by destruct b. Qed.

Lemma guard_handler (b : bool) e h : e <> StillRunning -> (b = false -> handler_ok h) ->
  handler_ok (_ ← when_err b e; h).
Proof.
  intros He Hh k Hk. eapply safe_bind; [by apply (when_err_inv (inv vm0 k))|]. intros ?.
  apply safe_pure. intros Hb. by apply Hh.
Qed.

Lemma gets_handler {A} (f : Engine -> A) h : (forall a, handler_ok (h a)) -> handler_ok (a ← gets f; h a).
Proof. intros Hh k Hk. eapply safe_bind; [apply (gets_inv (inv vm0 k))|]. intros a. by apply Hh. Qed.

Lemma err_handler (b : bool) e : e <> StillRunning -> handler_ok (when_err b e).
Proof. intros He. unfold when_err. apply if_handler; [by apply throw_handler|apply ret_handler]. Qed.

(** Sequencing costs twice as much of the stack as one handler may use, so the second part
    is one that adds nothing. *)
Definition no_push (h : stM Engine scriptError unit) : Prop :=
  forall k, (k <= 4000)%nat -> safe False (inv vm0 k) h (fun _ => inv vm0 k).

Lemma seq_handler h1 h2 : handler_ok h1 -> no_push h2 -> handler_ok (_ ← h1; h2).
Proof. intros H1 H2 k Hk. eapply safe_bind; [by apply H1|]. intros ?. by apply H2. Qed.

Lemma opcodeVerify_inv : no_push opcodeVerify.
Proof.
  intros k Hk. eapply safe_bind; [apply popBool_inv|]. intros v.
  eapply safe_conseq; [by apply (when_err_inv (inv vm0 k))|done|naive_solver].
Qed.

Ltac pushable :=
  repeat match goal with H : num_range _ |- _ => unfold num_range, mathOpCodeMaxScriptNumLen in H end;
  repeat case_match; first [lia | rewrite ?i64_num by lia; lia].

Lemma simple_handlers (op : parsedOpcode slice) :
  handler_ok opcodeDisabled /\ handler_ok opcodeReserved /\ handler_ok opcodeInvalid /\
  handler_ok opcodeReturn /\ handler_ok opcode1Negate /\ handler_ok (opcodeN op) /\ handler_ok (opcodeNop op) /\
  handler_ok opcodeVerify /\ handler_ok opcodeDepth.
Proof.
  split_and!; try (by apply throw_handler).
  - apply pushInt_handler. lia.
  - apply pushInt_handler. pose proof (u8_range (pop_value op - (OP_1 - 1))). unfold is_u8 in *. lia.
  - apply if_handler; [|apply ret_handler]. apply gets_handler. intros b. by apply err_handler.
  - intros k Hk. eapply leaf; [apply opcodeVerify_inv; lia|lia].
  - intros k Hk. eapply safe_bind with (R := fun d vm => inv vm0 k vm /\ is_i32 d).
    + intros vm Hvm. split; [done|apply i32_range].
    + intros d. apply safe_pure. intros Hd. by apply pushInt_leaf, Hk; apply i32_pushable.
Qed.

Lemma stack_handlers :
  handler_ok opcode2Drop /\ handler_ok opcode2Dup /\ handler_ok opcode3Dup /\ handler_ok opcode2Over /\
  handler_ok opcode2Rot /\ handler_ok opcode2Swap /\ handler_ok opcodeDrop /\ handler_ok opcodeDup /\
  handler_ok opcodeNip /\ handler_ok opcodeOver /\ handler_ok opcodePick /\ handler_ok opcodeRoll /\
  handler_ok opcodeRot /\ handler_ok opcodeSwap /\ handler_ok opcodeTuck.
Proof.
  split_and!; first
    [ by (eapply dstack_handler; [intros; eauto with safe lia|cbn; lia])
    | by (apply unary_handler; intros; eapply dstack_handler; [intros; eauto with safe lia|cbn; lia]) ].
Qed.

Lemma arithmetic_handlers :
  handler_ok opcode1Add /\ handler_ok opcode1Sub /\ handler_ok opcodeNegate /\ handler_ok opcodeAbs /\
  handler_ok opcodeNot /\ handler_ok opcode0NotEqual /\ handler_ok opcodeAdd /\ handler_ok opcodeSub /\
  handler_ok opcodeMin /\ handler_ok opcodeMax.
Proof.
  split_and!; first
    [ apply unary_handler; intros v Hv; apply pushInt_handler
    | apply binary_handler; intros v0 v1 H0 H1; apply pushInt_handler ]; try apply bool_pushable; pushable.
Qed.

Lemma i32_handlers :
  handler_ok opcodeInvert /\ handler_ok opcodeAnd /\ handler_ok opcodeOr /\ handler_ok opcodeXor /\
  handler_ok opcodeMul.
Proof.
  pose proof Int32_range as HI.
  split_and!; [apply unary_handler; intros v Hv|apply binary_handler; intros v0 v1 H0 H1..];
    apply pushInt_handler, i32_pushable;
    first [apply i32_lnot, HI|by apply i32_land|by apply i32_lor|by apply i32_lxor|apply i32_range].
Qed.

(** A handler that goes on with the result of a computation that succeeds. *)
Lemma lift_handler {A} (r : res scriptError A) a (h : A -> stM Engine scriptError unit) :
  r = Ok a -> handler_ok (h a) -> handler_ok (x ← lift r; h x).
Proof. intros -> Hh. exact Hh. Qed.

Lemma division_handlers : handler_ok opcodeDiv /\ handler_ok opcodeMod.
Proof.
  pose proof Int32_range as HI.
  split; apply binary_handler; intros v0 v1 H0 H1; (apply guard_handler; [done|intros Hb]); eapply lift_handler;
    [unfold quot; by rewrite Hb| |unfold rem; by rewrite Hb|];
    apply pushInt_handler, i32_pushable; [apply i32_range|by apply i32_rem].
Qed.

Lemma guarded_handlers :
  handler_ok opcodeRotr /\ handler_ok opcodeRotl /\ handler_ok opcodeLShift /\ handler_ok opcodeRShift.
Proof.
  pose proof Int32_range as HI.
  split_and!; apply binary_handler; intros v0 v1 H0 H1; repeat (apply guard_handler; [done|intros Hb]);
    repeat match goal with |- handler_ok (if ?b then _ else _) => destruct b eqn:?; [by apply throw_handler|] end;
    apply pushInt_handler, i32_pushable; first [apply i32_range|apply i32_shiftr; [lia|apply HI]].
Qed.

Lemma comparison_handlers :
  handler_ok opcodeBoolAnd /\ handler_ok opcodeBoolOr /\ handler_ok opcodeNumEqual /\
  handler_ok opcodeNumEqualVerify /\ handler_ok opcodeNumNotEqual /\ handler_ok opcodeLessThan /\
  handler_ok opcodeGreaterThan /\ handler_ok opcodeLessThanOrEqual /\ handler_ok opcodeGreaterThanOrEqual /\
  handler_ok opcodeWithin.
Proof.
  split_and!; try (apply seq_handler; [|apply opcodeVerify_inv]); apply binary_handler; intros v0 v1 H0 H1;
    try (apply unary_handler; intros x Hx); apply pushInt_handler, bool_pushable.
Qed.

(** A handler that goes on with an item of the data stack. *)
Lemma slice_handler (h : slice -> stM Engine scriptError unit) :
  (forall s k, (k + 6 <= 4000)%nat ->
     safe False (fun vm => inv vm0 k vm /\ item_ok (heap vm) s) (h s) (fun _ => inv vm0 (k + 6))) ->
  handler_ok (s ← pop_slice; h s).
Proof. intros Hh k Hk. eapply safe_bind; [apply pop_slice_inv|]. intros s. by apply Hh. Qed.

Lemma bytes_handler (h : bytes -> stM Engine scriptError unit) :
  (forall b, data_ok b -> handler_ok (h b)) -> handler_ok (b ← popBytes; h b).
Proof.
  intros Hh k Hk. eapply safe_bind; [apply popBytes_inv|]. intros b. apply safe_pure. intros Hb. by apply Hh.
Qed.

Lemma pushBool_handler b : handler_ok (pushBool b).
Proof. intros k Hk. by apply pushBool_leaf. Qed.

Lemma hash_data h n : is_bytes h /\ length h = n -> (n <= 32)%nat -> data_ok h.
Proof. intros [H1 H2] Hn. split; [done|]. unfold MaxScriptElementSize. lia. Qed.

Lemma hash_handlers :
  handler_ok opcodeRipemd160 /\ handler_ok opcodeSha1 /\ handler_ok opcodeSha256 /\ handler_ok opcodeHash160 /\
  handler_ok opcodeHash256.
Proof.
  split_and!; apply bytes_handler; intros b [Hb _] k Hk;
    (eapply leaf; [first [apply push_sum_inv|apply push_array_inv]; [lia|]|lia]);
    eapply hash_data; first
      [by apply ripemd160_ok|by apply sha1_ok|by apply HashB_ok|by apply ripemd160_ok, HashB_ok|
       by apply HashB_ok, HashB_ok|lia].
Qed.

Lemma equal_handlers : handler_ok opcodeEqual /\ handler_ok opcodeEqualVerify.
Proof.
  assert (H : handler_ok opcodeEqual).
  { apply bytes_handler. intros a _. apply bytes_handler. intros b _. apply pushBool_handler. }
  split; [done|]. apply seq_handler; [done|apply opcodeVerify_inv].
Qed.

Lemma push_data_handler op :
  (item_ok (heap vm0) (default nil_slice (pop_data op)) -> handler_ok (opcodePushData op)) /\ handler_ok opcodeFalse.
Proof.
  split; [intros Hop|]; intros k Hk.
  - eapply safe_conseq; [by apply (push_leaf (default nil_slice (pop_data op)))| |done].
    intros vm Hvm. split; [exact Hvm|]. eapply item_ok_mono; [|exact Hop]. apply Hvm.
  - by apply push_nil_leaf.
Qed.

(** A part of an item is pushed, or nothing. *)
Lemma part_leaf s k i j : (k + 6 <= 4000)%nat -> 0 <= i <= j -> j <= Z.of_nat (s_len s) ->
  safe False (fun vm => inv vm0 k vm /\ item_ok (heap vm) s) (part ← lift (reslice s i j); push part)
    (fun _ => inv vm0 (k + 6)).
Proof.
  intros Hk Hij Hj vm [Hvm Hs]. assert (Hr : reslice s i j = Ok (subslice s (Z.to_nat i) (Z.to_nat j))).
  { destruct Hs as [[H1 H2] _]. unfold reslice.
    destruct (Z.leb_spec 0 i), (Z.leb_spec i j), (Z.leb_spec j (Z.of_nat (s_cap s))); (done || lia). }
  rewrite Hr. apply (push_leaf (subslice s (Z.to_nat i) (Z.to_nat j)) k Hk vm).
  split; [done|]. apply subitem_ok; [done|lia].
Qed.

Lemma substring_handlers :
  handler_ok opcodeSubstr /\ handler_ok opcodeLeft /\ handler_ok opcodeRight.
Proof.
  split_and!; repeat (apply unary_handler; intros ? ?); apply slice_handler; intros a k Hk; cbv zeta;
    rewrite ?Z.gtb_ltb;
    repeat match goal with
           | |- safe _ _ (if ?b then throw _ else _) _ => destruct b eqn:?; [by apply throw_inv|]
           | |- safe _ _ (if ?b then push nil_slice else _) _ =>
               destruct b eqn:?; [apply push_nil_leaf; [done|by intros ? []]|]
           end; (apply part_leaf; [done|lia|lia]).
Qed.

Lemma move_handlers :
  handler_ok opcodeToAltStack /\ handler_ok opcodeFromAltStack /\ handler_ok opcodeIfDup /\ handler_ok opcodeSize.
Proof.
  split_and!; intros k Hk.
  - eapply safe_bind; [apply pop_slice_inv|]. intros s.
    eapply safe_conseq; [apply (push_astack_inv s k); lia|done|]. intros ? vm. apply inv_mono. lia.
  - eapply safe_bind; [apply pop_astack_inv|]. intros s. by apply push_leaf.
  - eapply safe_bind; [apply peek_slice_inv|]. intros s.
    eapply safe_bind; [apply (gets_inv (fun vm => inv vm0 k vm /\ item_ok (heap vm) s))|]. intros b.
    destruct (asBool b); [by apply push_leaf|]. apply safe_ret. intros vm [Hvm _]. by apply (inv_mono _ k); [lia|].
  - eapply safe_bind; [apply peek_slice_inv|]. intros s vm [Hvm Hs]. apply (pushInt_leaf (Z.of_nat (s_len s)) k); [|done|done].
    destruct Hs as [_ Hs]. unfold MaxScriptElementSize in Hs. lia.
Qed.

(** The capacity check of a concatenation keeps the writes inside the array. *)
Lemma append_inv s b k : data_ok b -> Z.of_nat (s_len s + length b) <= MaxScriptElementSize -> (0 < length b)%nat ->
  safe False (fun vm => inv vm0 k vm /\ item_ok (heap vm) s) (append s b)
    (fun c vm => inv vm0 k vm /\ item_ok (heap vm) c).
Proof.
  intros Hb Hl Hpos vm [Hvm Hs]. unfold append. destruct (Nat.leb_spec (s_len s + length b) (s_cap s)) as [Hc|Hc].
  - cbn. pose proof Hs as [[_ Ho] _]. set (at_ := (s_off s + s_len s)%nat).
    assert (Hlen : length (take at_ (array (heap vm) (s_arr s)) ++ b ++
                     drop (at_ + length b) (array (heap vm) (s_arr s))) = length (array (heap vm) (s_arr s)))
      by (apply overwrite_length; unfold at_; lia).
    pose proof (heap_le_insert (heap vm) (s_arr s) _ Hlen) as Hle. split.
    + apply inv_set_heap; [done| |exact Hle]. apply Forall_insert; [apply Hvm|].
      apply Forall_app. split; [apply Forall_take, array_bytes, Hvm|].
      apply Forall_app. split; [apply Hb|apply Forall_drop, array_bytes, Hvm].
    + split; [|done]. apply (slice_ok_mono (heap vm)); [exact Hle|]. unfold slice_ok in *. cbn. lia.
  - unfold view. rewrite gets_bind. destruct Hs as [Hs _].
    apply alloc_inv; [|done]. split.
    + apply Forall_app. split; [apply read_bytes, Hvm|apply Hb].
    + rewrite length_app, read_length by done. done.
Qed.

Lemma pop_second s k : safe False (fun vm => inv vm0 k vm /\ item_ok (heap vm) s) pop_slice
  (fun s' vm => inv vm0 k vm /\ item_ok (heap vm) s /\ item_ok (heap vm) s').
Proof.
  intros vm [Hvm Hs]. pose proof (pop_slice_inv k vm Hvm) as H. unfold pop_slice, on_dstack in *.
  destruct (PopByteArray (dstack vm)) as [[a s']|e|]; cbn in *; [|done|done]. naive_solver.
Qed.

Lemma opcodeCat_ok : handler_ok opcodeCat.
Proof.
  apply slice_handler. intros a k Hk. eapply safe_bind; [apply pop_second|]. intros b.
  destruct ((s_len a =? 0)%nat && (0 <? s_len b)%nat) eqn:E1.
  { eapply safe_conseq; [by apply (push_leaf b k)| |done]. naive_solver. }
  destruct ((s_len b =? 0)%nat && (0 <? s_len a)%nat) eqn:E2.
  { eapply safe_conseq; [by apply (push_leaf a k)| |done]. naive_solver. }
  destruct ((s_len b =? 0)%nat && (s_len a =? 0)%nat) eqn:E3; [apply push_nil_leaf; [done|naive_solver]|].
  eapply safe_bind; [by apply when_err_inv|]. intros ?. apply safe_pure. intros Hlen.
  rewrite Z.gtb_ltb in Hlen. apply Z.ltb_ge in Hlen.
  assert (Hpos : (0 < s_len a)%nat).
  { destruct (Nat.eqb_spec (s_len a) 0), (Nat.ltb_spec 0 (s_len b)), (Nat.eqb_spec (s_len b) 0); done || lia. }
  eapply safe_bind with (R := fun x vm => (inv vm0 k vm /\ item_ok (heap vm) b) /\ (data_ok x /\ length x = s_len a)).
  { intros vm (Hvm & Ha & Hb). pose proof (view_inv a k vm (conj Hvm Ha)) as H. cbn in *. naive_solver. }
  intros x. apply safe_pure. intros [Hx Hxl]. eapply safe_bind; [apply append_inv; [done|lia|lia]|].
  intros c. by apply push_leaf.
Qed.

(** *** Conditionals *)

Definition is_cond_func (f : opfunc) : bool :=
  match f with F_opcodeIf | F_opcodeNotIf | F_opcodeElse | F_opcodeEndif => true | _ => false end.

(** The conditional stack holds one of three values. *)
Definition cond_ok (c : Z) : Prop := c = OpCondFalse \/ c = OpCondTrue \/ c = OpCondSkip.

(** After an opcode: a state of the handler, with one conditional more at most. *)
Definition after (k : nat) (vm : Engine) : Prop :=
  exists vm1 cs, inv vm0 k vm1 /\ vm = set_condStack cs vm1 /\
    (length cs <= S (length (condStack vm0)))%nat /\ (Forall cond_ok (condStack vm0) -> Forall cond_ok cs).

Lemma inv_after k vm : inv vm0 k vm -> after k vm.
Proof.
  intros H. exists vm, (condStack vm0). split_and!; [done| |lia|done].
  rewrite <- (fr_condStack _ _ (i_frame _ _ _ H)). by destruct vm.
Qed.

Lemma push_cond_after c k : cond_ok c -> safe False (inv vm0 k) (push_cond c) (fun _ => after k).
Proof.
  intros Hc vm Hvm. cbn. exists vm, (condStack vm ++ [c]). rewrite (fr_condStack _ _ (i_frame _ _ _ Hvm)).
  split_and!; [done|done|rewrite length_app; cbn; lia|]. intros H. apply Forall_app. split; [done|constructor; [done|apply Forall_nil_2]].
Qed.

Lemma removelast_length {A} (l : list A) : (length (removelast l) <= length l)%nat.
Proof. induction l as [|x [|y l] IH]; cbn in *; lia. Qed.

Lemma removelast_Forall {A} (P : A -> Prop) l : Forall P l -> Forall P (removelast l).
Proof. induction 1 as [|x l Hx Hl IH]; [done|]. cbn. destruct l; [done|]. by constructor. Qed.

Lemma last_removelast {A} (l : list A) x : last l = Some x -> l = removelast l ++ [x].
Proof.
  induction l as [|y [|z l] IH]; [done| |]; intros H.
  - cbn in *. by simplify_eq.
  - change (removelast (y :: z :: l)) with (y :: removelast (z :: l)). cbn [app]. f_equal. by apply IH.
Qed.

Lemma cond_handlers op k : is_cond_func (op_func (pop_op op)) = true ->
  safe False (inv vm0 k) (call_opfunc op) (fun _ => after k).
Proof.
  assert (Hv : cond_ok OpCondFalse /\ cond_ok OpCondTrue /\ cond_ok OpCondSkip) by (unfold cond_ok; auto).
  destruct Hv as (Hf & Ht & Hs). unfold call_opfunc. destruct (op_func (pop_op op)); try done; intros _.
  - eapply safe_bind; [apply (gets_inv (inv vm0 k))|]. intros []; [|by apply push_cond_after].
    eapply safe_bind; [apply popBool_inv|]. intros []; by apply push_cond_after.
  - eapply safe_bind; [apply (gets_inv (inv vm0 k))|]. intros []; [|by apply push_cond_after].
    eapply safe_bind; [apply popBool_inv|]. intros []; by apply push_cond_after.
  - intros vm Hvm. unfold opcodeElse. destruct (last (condStack vm)) as [c|] eqn:E; [|done].
    exists vm, (removelast (condStack vm) ++ [flip_cond c]). apply last_removelast in E.
    rewrite (fr_condStack _ _ (i_frame _ _ _ Hvm)) in *. split_and!; [done|done| |].
    + rewrite E at 2. rewrite !length_app. cbn. lia.
    + intros H. rewrite E in H. apply Forall_app in H as [H1 H2%Forall_cons_1]. destruct H2 as [Hc _].
      apply Forall_app. split; [done|]. constructor; [|done]. unfold flip_cond. repeat case_match; auto.
  - intros vm Hvm. unfold opcodeEndif. destruct (last (condStack vm)) as [c|] eqn:E; [|done].
    exists vm, (removelast (condStack vm)). rewrite (fr_condStack _ _ (i_frame _ _ _ Hvm)) in *.
    pose proof (removelast_length (condStack vm0)). split_and!; [done|done|lia|apply removelast_Forall].
Qed.

(** *** Handlers that look at the transaction and the script *)

Context (Htx : (txIdx vm0 < length (tx_TxIn (tx vm0)))%nat).
Context (Hscript : is_Some (scripts vm0 !! scriptIdx vm0)) (Hsep : lastCodeSep vm0 = 0%nat).

Lemma input_sequence_inv P : (forall vm, P vm -> frame vm0 vm) -> safe False P input_sequence (fun _ => P).
Proof.
  intros HP vm Hvm. unfold input_sequence. destruct (HP vm Hvm) as [? ? ? ? ? ? (_ & _ & Ht & _) Hi ? ? ? ? ? ?].
  rewrite Ht, Hi. destruct (lookup_lt_is_Some_2 _ _ Htx) as [ti ->]. done.
Qed.

Lemma peekLock_inv k : safe False (inv vm0 k) peekLock (fun _ => inv vm0 k).
Proof.
  eapply safe_bind; [apply peek_slice_inv|]. intros s. eapply safe_bind; [apply (view_inv s k)|].
  intros b. apply safe_pure. intros _. eapply safe_bind; [apply (gets_inv (inv vm0 k))|]. intros m.
  apply safe_lift. destruct (makeScriptNum b m 5) eqn:E; [done|by eapply make_errors|by apply make_no_panic in E].
Qed.

Lemma verifyLockTime_inv P a b c : safe False P (lift (verifyLockTime a b c)) (fun _ (vm : Engine) => P vm).
Proof.
  apply safe_lift. unfold verifyLockTime, guard_err. repeat case_match; simplify_eq; done.
Qed.

Lemma locktime_handlers : no_push opcodeCheckLockTimeVerify /\ no_push opcodeCheckSequenceVerify.
Proof.
  assert (Hdone : forall k b e, e <> StillRunning -> safe False (inv vm0 k) (when_err b e) (fun _ => inv vm0 k)).
  { intros k b e He. eapply safe_conseq; [by apply (when_err_inv (inv vm0 k))|done|naive_solver]. }
  split; intros k Hk; (eapply safe_bind; [apply (gets_inv (inv vm0 k))|]); intros enabled;
    (destruct (negb enabled); [eapply safe_bind; [apply (gets_inv (inv vm0 k))|]; intros up; by apply Hdone|]).
  - eapply safe_bind; [apply peekLock_inv|]. intros t. eapply safe_bind; [by apply Hdone|]. intros ?.
    eapply safe_bind; [apply (gets_inv (inv vm0 k))|]. intros l.
    eapply safe_bind; [apply (verifyLockTime_inv (inv vm0 k))|]. intros ?.
    eapply safe_bind; [apply (input_sequence_inv (inv vm0 k)); by intros ? []|]. intros q. by apply Hdone.
  - eapply safe_bind; [apply (gets_inv (inv vm0 k))|]. intros v. eapply safe_bind; [by apply Hdone|]. intros ?.
    eapply safe_bind; [apply peekLock_inv|]. intros t. eapply safe_bind; [by apply Hdone|]. intros ?.
    destruct (negb _); [by apply safe_ret|].
    eapply safe_bind; [apply (input_sequence_inv (inv vm0 k)); by intros ? []|]. intros q.
    eapply safe_bind; [by apply Hdone|]. intros ?. apply verifyLockTime_inv.
Qed.

(** *** Signatures *)

Lemma subScript_inv k : safe False (inv vm0 k) subScript (fun _ => inv vm0 k).
Proof.
  intros vm Hvm. unfold subScript. destruct (i_frame _ _ _ Hvm). rewrite fr_scripts0, fr_scriptIdx0, fr_lastCodeSep0, Hsep.
  destruct Hscript as [s ->]. done.
Qed.

Lemma select_result hashType idx t : (idx < length (tx_TxIn t))%nat ->
  (Z.land hashType sigHashMask = SigHashSingle -> (idx < length (tx_TxOut t))%nat) ->
  exists t', sighash_select hashType idx t = Ok t'.
Proof.
  clear. intros Hi Ho. unfold sighash_select.
  assert (Hcut : forall t', length (tx_TxIn t') = length (tx_TxIn t) -> exists r,
    (if negb (Z.land hashType SigHashAnyOneCanPay =? 0)
     then ins ← sub_slice (E := scriptError) (tx_TxIn t') idx (S idx); Ok (with_ins t' ins) else Ok t') = Ok r).
  { intros t' Hl. destruct (negb _); [|by eexists]. rewrite sub_slice_Ok by lia. by eexists. }
  destruct (_ =? SigHashNone); [apply Hcut; cbn; by rewrite length_imap|].
  destruct (Z.eqb_spec (Z.land hashType sigHashMask) SigHashSingle) as [Hs|]; [|by apply Hcut].
  specialize (Ho Hs). rewrite sub_slice_Ok by lia. cbn [mbind res_bind]. apply Hcut. cbn. by rewrite length_imap.
Qed.

Lemma calc_result {D} (v : D -> bytes) script hashType t idx ph :
  (idx < length (tx_TxIn t))%nat ->
  match calcSignatureHash HashB SigHashOptimization v script hashType t idx ph with
  | Ok _ => True
  | Err e => e <> StillRunning
  | Panic => False
  end.
Proof.
  clear Htx Hscript Hsep. intros Hi. unfold calcSignatureHash. cbv zeta.
  destruct ((_ =? SigHashSingle) && _) eqn:Hs; [done|].
  edestruct select_result as [t' ->]; [| |].
  - unfold sign_scripts, map_ins. cbn. rewrite length_imap, length_fmap. exact Hi.
  - intros Hk. rewrite Hk in Hs. cbn in *. rewrite length_fmap. by apply Nat.leb_gt.
  - cbn [mbind res_bind]. unfold TxHash, TxHashWitnessSigning, TxHashWitnessValueSigning, hash_of, mustSerialize.
    repeat (case_match; cbn; try done).
Qed.

Lemma calc_no_panic {D} (v : D -> bytes) script hashType t idx ph :
  (idx < length (tx_TxIn t))%nat ->
  calcSignatureHash HashB SigHashOptimization v script hashType t idx ph <> Panic.
Proof. intros Hi H. pose proof (calc_result v script hashType t idx ph Hi) as Hr. by rewrite H in Hr. Qed.

Lemma sig_hash_inv script hashType k : safe False (inv vm0 k) (sig_hash script hashType)
  (fun r vm => inv vm0 k vm /\ match r with inl e => e <> StillRunning | inr _ => True end).
Proof.
  eapply safe_bind with (R := fun _ => inv vm0 k).
  - unfold cached_prefix. destruct (_ && _); [|by apply safe_ret].
    intros vm Hvm. rewrite gets_bind. unfold CachedTxHash, RecacheTxHash, TxHash, hash_of, mustSerialize.
    destruct (CachedHash (tx vm)); cbn; apply inv_set_tx; done || by unfold same_tx.
  - intros ph vm Hvm. unfold calc_hash.
    assert (Hidx : (txIdx vm < length (tx_TxIn (tx vm)))%nat).
    { destruct (i_frame _ _ _ Hvm) as [? ? ? ? ? ? (_ & _ & Ht & _) Hi ? ? ? ? ? ?]. by rewrite Ht, Hi. }
    pose proof (calc_result (read (heap vm)) script hashType (tx vm) (txIdx vm) ph Hidx) as Hr.
    destruct (calcSignatureHash _ _ _ _ _ _ _ _) as [h|e|]; done.
Qed.

Lemma verify_cached_inv h s p k : safe False (inv vm0 k) (verify_cached h s p) (fun _ => inv vm0 k).
Proof. intros vm Hvm. cbn. by apply inv_set_sigCache. Qed.

(** The flags that make the engine look into the encoding of a signature. *)
Definition der_checked (vm : Engine) : bool :=
  hasFlag ScriptVerifyDERSignatures vm || hasFlag ScriptVerifyLowS vm || hasFlag ScriptVerifyStrictEncoding vm.

Lemma hasFlag_frame flag vm : frame vm0 vm -> hasFlag flag vm = hasFlag flag vm0.
Proof. intros []. unfold hasFlag. by rewrite fr_flags0. Qed.

(** The errors of a pure computation. *)
Definition ends {A} (m : res scriptError A) : Prop := match m with Err e => e <> StillRunning | _ => True end.

Lemma ends_bind {A B} (m : res scriptError A) (k : A -> res scriptError B) :
  ends m -> (forall a, ends (k a)) -> ends (m ≫= k).
Proof. intros Hm Hk. destruct m; cbn; [apply Hk|exact Hm|done]. Qed.

Lemma ends_guard b e : e <> StillRunning -> ends (guard_err b e).
Proof. by destruct b. Qed.

Lemma ends_sig_at sig i : ends (sig_at sig i).
Proof. unfold sig_at. by destruct (sig !! _). Qed.

Lemma strict_der_ends lowS sig : ends (strict_der lowS sig).
Proof.
  unfold strict_der. repeat (apply ends_bind; [|intros ?]);
    repeat match goal with
           | |- ends (guard_err _ _) => by apply ends_guard
           | |- ends (sig_at _ _) => apply ends_sig_at
           | |- ends (z_slice _ _ _) => unfold z_slice, sub_slice
           | |- ends (if ?b then _ else _) => destruct b
           | |- ends (_ ≫= _) => apply ends_bind; [|intros ?]
           end; done.
Qed.

(** A triple that allows panics when the encodings of signatures are checked. *)
Notation der_panics := (der_checked vm0 = true).

Definition sig_ok (h : stM Engine scriptError unit) : Prop :=
  forall k, (k + 6 <= 4000)%nat -> safe der_panics (inv vm0 k) h (fun _ => inv vm0 (k + 6)).

Lemma no_panic {A} (p : Prop) P (m : stM Engine scriptError A) Q : safe False P m Q -> safe p P m Q.
Proof. by apply safe_weaken. Qed.

Lemma encoding_inv (sig pk : bytes) hashType k :
  safe False (inv vm0 k) (checkHashTypeEncoding hashType) (fun _ => inv vm0 k) /\
  safe False (inv vm0 k) (checkPubKeyEncoding pk) (fun _ => inv vm0 k) /\
  safe der_panics (inv vm0 k) (checkSignatureEncoding sig) (fun _ => inv vm0 k).
Proof.
  split_and!.
  - eapply safe_bind; [apply (gets_inv (inv vm0 k))|]. intros b. destruct (negb b); [by apply safe_ret|].
    eapply safe_conseq; [by apply (when_err_inv (inv vm0 k))|done|naive_solver].
  - eapply safe_bind; [apply (gets_inv (inv vm0 k))|]. intros b. destruct (negb b); [by apply safe_ret|].
    destruct (and_first_Ok (length pk =? 33)%nat pk (fun b0 => (b0 =? 0x02) || (b0 =? 0x03))) as [[] ->];
      [by intros H ->|by apply safe_ret|].
    destruct (and_first_Ok (length pk =? 65)%nat pk (fun b0 => b0 =? 0x04)) as [[] ->];
      [by intros H ->|by apply safe_ret|by apply throw_inv].
  - intros vm Hvm. unfold checkSignatureEncoding. rewrite !gets_bind.
    rewrite (hasFlag_frame ScriptVerifyDERSignatures vm), (hasFlag_frame ScriptVerifyLowS vm),
      (hasFlag_frame ScriptVerifyStrictEncoding vm) by apply Hvm. pose proof (strict_der_ends (hasFlag ScriptVerifyLowS vm0) sig) as He.
    unfold lift. destruct (negb _ && _ && _) eqn:E; [done|].
    destruct (strict_der _ sig); [exact Hvm|exact He|]. unfold der_checked.
    by destruct (hasFlag ScriptVerifyDERSignatures vm0), (hasFlag ScriptVerifyLowS vm0),
      (hasFlag ScriptVerifyStrictEncoding vm0).
Qed.

Lemma parse_signature_inv b k : safe False (inv vm0 k) (parse_signature b) (fun _ => inv vm0 k).
Proof.
  do 2 (eapply safe_bind; [apply (gets_inv (inv vm0 k))|]; intros ?). by apply safe_ret.
Qed.

Lemma remove_data_inv s d k : safe False (inv vm0 k) (remove_data s d) (fun _ => inv vm0 k).
Proof. eapply safe_bind; [apply (gets_inv (inv vm0 k))|]. intros m. by apply safe_ret. Qed.

Lemma split_sig_inv full k : (0 < length full)%nat -> safe False (inv vm0 k) (lift (split_sig full)) (fun _ => inv vm0 k).
Proof.
  intros Hl. apply safe_lift. unfold split_sig. destruct (last full) eqn:E; [done|].
  apply last_None in E. subst. cbn in Hl. lia.
Qed.

(** One step of a handler for signatures. *)
Ltac sig_step lem := eapply safe_bind; [apply no_panic; apply lem|].

Lemma opcodeCheckSig_ok : sig_ok opcodeCheckSig.
Proof.
  intros k Hk. sig_step popBytes_inv. intros pk. apply safe_pure. intros _.
  sig_step popBytes_inv. intros full. apply safe_pure. intros _.
  destruct (Nat.ltb_spec (length full) 1) as [Hf|Hf]; [by apply no_panic, pushBool_leaf|].
  eapply safe_bind; [by apply no_panic, split_sig_inv|]. intros [sig ht].
  destruct (encoding_inv sig pk ht k) as (H1 & H2 & H3).
  eapply safe_bind; [apply no_panic, H1|intros ?]. eapply safe_bind; [apply H3|intros ?].
  eapply safe_bind; [apply no_panic, H2|intros ?].
  sig_step subScript_inv. intros s. sig_step remove_data_inv. intros s'. sig_step sig_hash_inv.
  intros h. apply safe_pure. intros _. destruct h as [e|h]; [by apply no_panic, pushBool_leaf|].
  destruct (ParsePubKey pk); [|by apply no_panic, pushBool_leaf].
  sig_step parse_signature_inv. intros [sg|]; [|by apply no_panic, pushBool_leaf].
  sig_step verify_cached_inv. intros v. by apply no_panic, pushBool_leaf.
Qed.

Lemma seq_sig h : sig_ok h -> sig_ok (_ ← h; opcodeVerify).
Proof.
  intros H k Hk. eapply safe_bind; [by apply H|]. intros ?. apply no_panic. by apply opcodeVerify_inv.
Qed.

(** *** Multiple signatures *)

Lemma multisig_parse_inv info sig ht k :
  safe der_panics (inv vm0 k) (multisig_parse info sig ht) (fun _ => inv vm0 k).
Proof.
  unfold multisig_parse. destruct (negb _); [|by apply safe_ret].
  destruct (encoding_inv sig sig ht k) as (H1 & _ & H3).
  eapply safe_bind; [apply no_panic, H1|intros ?]. eapply safe_bind; [apply H3|intros ?].
  sig_step parse_signature_inv. intros p. by apply safe_ret.
Qed.

Lemma multisig_round_inv s info pk k : safe der_panics (inv vm0 k) (multisig_round s info pk) (fun _ => inv vm0 k).
Proof.
  unfold multisig_round. destruct (Nat.eqb_spec (length (signature info)) 0) as [Hl|Hl]; [by apply safe_ret|].
  eapply safe_bind; [apply no_panic, split_sig_inv; lia|]. intros [sig ht].
  eapply safe_bind; [apply multisig_parse_inv|]. intros [[p|] info']; [|by apply safe_ret].
  destruct (encoding_inv sig pk ht k) as (_ & H2 & _). eapply safe_bind; [apply no_panic, H2|intros ?].
  destruct (ParsePubKey pk); [|by apply safe_ret].
  sig_step sig_hash_inv. intros h. apply safe_pure. intros He. destruct h; [apply no_panic; by apply throw_inv|].
  sig_step verify_cached_inv. intros v. by apply safe_ret.
Qed.

Lemma multisig_loop_inv s pks k : forall fuel infos nk ns ki si,
  1 <= nk -> (Z.to_nat nk <= fuel)%nat -> ki + nk = Z.of_nat (length pks) -> -1 <= ki ->
  0 <= si -> si + ns = Z.of_nat (length infos) ->
  safe der_panics (inv vm0 k) (multisig_loop fuel s pks infos nk ns ki si) (fun _ => inv vm0 k).
Proof.
  induction fuel as [|fuel IH]; intros infos nk ns ki si Hnk Hf Hki Hki' Hsi Hns; [lia|]. cbn [multisig_loop].
  rewrite !Z.gtb_ltb. destruct (Z.ltb_spec 0 ns) as [Hpos|Hpos]; [|by apply safe_ret].
  destruct (Z.ltb_spec (nk - 1) ns); [by apply safe_ret|].
  destruct (index_Ok (E := scriptError) infos si) as [info ->]; [lia|].
  destruct (index_Ok (E := scriptError) pks (ki + 1)) as [pk ->]; [lia|].
  eapply safe_bind with (R := fun a vm => inv vm0 k vm); [apply safe_lift; cbn; by intros|intros i].
  eapply safe_bind with (R := fun a vm => inv vm0 k vm); [apply safe_lift; cbn; by intros|intros p].
  eapply safe_bind; [apply multisig_round_inv|]. intros [[] info'];
    (apply IH; [lia|lia|lia|lia|lia|rewrite length_insert; lia]).
Qed.

Lemma pop_n_inv n k : safe False (inv vm0 k) (pop_n n) (fun l vm => inv vm0 k vm /\ length l = n).
Proof.
  induction n as [|n IH]; cbn [pop_n]; [by apply safe_ret|].
  eapply safe_bind; [apply popBytes_inv|]. intros b. apply safe_pure. intros _.
  eapply safe_bind; [apply IH|]. intros l. apply safe_pure. intros Hl. apply safe_ret. cbn. by rewrite Hl.
Qed.

Lemma pop_all_inv n k : 0 <= n ->
  safe False (inv vm0 k) (pop_all n) (fun l vm => inv vm0 k vm /\ length l = Z.to_nat n).
Proof.
  intros Hn vm Hvm. unfold pop_all. destruct (Z.ltb_spec n 0); [lia|]. by apply (pop_n_inv (Z.to_nat n) k).
Qed.

Lemma remove_all_inv s l k : safe False (inv vm0 k) (remove_all s l) (fun _ => inv vm0 k).
Proof.
  revert s. induction l as [|x l IH]; intros s; cbn [remove_all]; [by apply safe_ret|].
  eapply safe_bind; [apply remove_data_inv|]. intros s'. apply IH.
Qed.

Lemma add_ops_inv n k : 0 <= n -> safe False (inv vm0 k) (add_ops n) (fun _ => inv vm0 k).
Proof.
  intros Hn vm [[] ? ? ? ? ?]. unfold add_ops. rewrite modify_bind, gets_bind. unfold when_err. cbn [numOps set_numOps].
  rewrite Z.gtb_ltb. destruct (Z.ltb_spec MaxOpsPerScript (numOps vm + n)); [done|].
  cbn. split; try done. split; try done. cbn. lia.
Qed.

Lemma opcodeCheckMultiSig_ok : sig_ok opcodeCheckMultiSig.
Proof.
  intros k Hk. sig_step popNum_inv. intros n. apply safe_pure. intros Hn.
  eapply safe_bind; [apply no_panic; by apply (when_err_inv (inv vm0 k))|]. intros ?. apply safe_pure. intros Hr.
  apply orb_false_iff in Hr as [Hr1%Z.ltb_ge Hr2]. rewrite (Int32_id n Hn) in *.
  sig_step add_ops_inv; [done|]. intros ?. sig_step pop_all_inv; [done|]. intros pks. apply safe_pure. intros Hpks.
  sig_step popNum_inv. intros ns. apply safe_pure. intros Hns.
  eapply safe_bind; [apply no_panic; by apply (when_err_inv (inv vm0 k))|]. intros ?. apply safe_pure. intros Hs1.
  eapply safe_bind; [apply no_panic; by apply (when_err_inv (inv vm0 k))|]. intros ?. apply safe_pure. intros Hs2.
  rewrite (Int32_id ns Hns) in *. apply Z.ltb_ge in Hs1.
  sig_step pop_all_inv; [done|]. intros sigs. apply safe_pure. intros Hsigs.
  sig_step subScript_inv. intros s. sig_step remove_all_inv. intros s'.
  eapply safe_bind; [apply multisig_loop_inv; rewrite ?length_fmap; lia|].
  intros v. by apply no_panic, pushBool_leaf.
Qed.

Lemma opcodeCheckSigAlt_ok k : (k + 6 <= 4000)%nat ->
  safe True (inv vm0 k) opcodeCheckSigAlt (fun _ => inv vm0 (k + 6)).
Proof.
  intros Hk. assert (Hb : forall b, safe True (inv vm0 k) (pushBool b) (fun _ => inv vm0 (k + 6)))
    by (intros b; by apply no_panic, pushBool_leaf).
  eapply safe_bind; [apply no_panic, popInt_inv; unfold altSigSuitesMaxscriptNumLen; lia|].
  intros t. apply safe_pure. intros _. cbv zeta. destruct (u8 t =? 0); [apply Hb|].
  destruct (negb _); [apply Hb|]. sig_step popBytes_inv. intros pk. apply safe_pure. intros _.
  destruct (negb _); [apply Hb|]. sig_step popBytes_inv. intros full. apply safe_pure. intros _.
  destruct (_ && _); [apply Hb|].
  eapply safe_bind with (R := fun _ => inv vm0 k); [apply safe_lift; unfold split_sig; by destruct (last full)|].
  intros [sig ht]. destruct (encoding_inv sig pk ht k) as (H1 & _ & _).
  eapply safe_bind; [apply no_panic, H1|intros ?].
  sig_step subScript_inv. intros s. sig_step remove_data_inv. intros s'. sig_step sig_hash_inv.
  intros h. apply safe_pure. intros _. destruct h as [e|h]; [apply Hb|]. repeat case_match; apply Hb.
Qed.

(** *** All handlers *)

(** Where a panic is possible: signatures whose encoding is checked, and the alternative
    signature suites. *)
Definition op_panics (vm : Engine) (op : parsedOpcode slice) : Prop :=
  match op_func (pop_op op) with
  | F_opcodeCheckSig | F_opcodeCheckSigVerify | F_opcodeCheckMultiSig | F_opcodeCheckMultiSigVerify =>
      der_checked vm = true
  | F_opcodeCheckSigAlt | F_opcodeCheckSigAltVerify => True
  | _ => False
  end.

Lemma no_push_handler h : no_push h -> handler_ok h.
Proof. intros H k Hk. eapply leaf; [apply H; lia|lia]. Qed.

Lemma handlers_safe op : is_cond_func (op_func (pop_op op)) = false ->
  (op_func (pop_op op) = F_opcodePushData -> item_ok (heap vm0) (default nil_slice (pop_data op))) ->
  forall k, (k + 6 <= 4000)%nat -> safe (op_panics vm0 op) (inv vm0 k) (call_opfunc op) (fun _ => inv vm0 (k + 6)).
Proof.
  intros Hc Hop k Hk. pose proof (simple_handlers op) as H1. pose proof stack_handlers as H2.
  pose proof arithmetic_handlers as H3. pose proof i32_handlers as H4. pose proof guarded_handlers as H5. pose proof division_handlers as H5d.
  pose proof comparison_handlers as H6. pose proof hash_handlers as H7. pose proof equal_handlers as H8.
  pose proof (push_data_handler op) as H9. pose proof substring_handlers as H10. pose proof move_handlers as H11.
  pose proof opcodeCat_ok as H12. destruct locktime_handlers as [H13%no_push_handler H14%no_push_handler].
  destruct_and!. unfold op_panics, call_opfunc.
  destruct (op_func (pop_op op)); try discriminate Hc;
    try match goal with H : handler_ok ?h |- safe _ _ ?h _ => apply no_panic, H, Hk end.
  - apply no_panic. match goal with H : _ -> handler_ok _ |- _ => apply H; auto end.
  - by apply opcodeCheckSig_ok.
  - by apply seq_sig, Hk; apply opcodeCheckSig_ok.
  - by apply opcodeCheckMultiSig_ok.
  - by apply seq_sig, Hk; apply opcodeCheckMultiSig_ok.
  - by apply opcodeCheckSigAlt_ok.
  - eapply safe_bind; [by apply opcodeCheckSigAlt_ok|]. intros ?. apply no_panic. by apply opcodeVerify_inv.
Qed.

End engine_proofs.
