(* ===== verification/EngineStep.v ===== *)
(** * Steps and runs of the script engine

    The invariant [engine_ok] of [Engine] between two opcodes, that [NewEngine] establishes
    and [Step] preserves; where a step can panic; and that [Execute] comes to an end. *)

From S2P Require Import Prelude Opcodes WireCommon MsgTx ScriptNum ScriptStack Script SigHash Engine EngineSafe.
From stdpp Require Import list gmap.
#[local] Open Scope Z_scope.

(** ** Entries of the opcode table *)

Definition func_ok (v : Z) : bool :=
  match op_func (opcode_at v) with
  | F_opcodePushData => v <=? OP_16
  | F_opcodeIf | F_opcodeNotIf | F_opcodeElse | F_opcodeEndif => v >? OP_16
  | _ => true
  end.

Lemma func_kinds v : is_u8 v -> func_ok v = true.
Proof.
  intros Hv. assert (H : forallb func_ok (Z.of_nat <$> seq 0 256) = true) by (vm_compute; reflexivity).
  rewrite forallb_forall in H. apply H, list_elem_of_In, list_elem_of_fmap. exists (Z.to_nat v).
  unfold is_u8 in Hv. split; [lia|]. apply elem_of_seq. lia.
Qed.

Section step.
Context `{Env : ScriptEnv} {EnvOk : ScriptEnvOk Env}.
Implicit Types vm : Engine.

(** ** The invariant *)

(** A parsed opcode is an entry of the table, with data that stays in its array. *)
Definition pop_ok (m : list bytes) (p : parsedOpcode slice) : Prop :=
  is_u8 (pop_value p) /\ pop_op p = opcode_at (pop_value p) /\
  match pop_data p with Some d => slice_ok m d | None => op_length (pop_op p) = 1 end.

Definition script_shape (m : list bytes) (s : list (parsedOpcode slice)) : Prop :=
  Forall (pop_ok m) s /\ Z.of_nat (length s) <= maxScriptSize.

(** The scripts of a pay-to-script-hash spend.  While the second script runs, the stack of
    the first is not empty, or the opcode that hashes its top is still to come. *)
Definition p2sh_ok vm : Prop :=
  if bip16 vm
  then exists s0 s1 rest, scripts vm = s0 :: s1 :: rest /\ isAnyKindOfScriptHash s1 = true /\
    (length rest <= 1)%nat /\
    ((scriptIdx vm <= 1)%nat -> rest = []) /\
    (scriptIdx vm = 1%nat ->
       savedFirstStack vm <> [] \/
       ((scriptOff vm + 3 <= length s1)%nat /\ stk (dstack vm) = savedFirstStack vm /\ condStack vm = []))
  else length (scripts vm) = 2%nat.

Record engine_ok vm : Prop := {
  e_mem : mem_ok (heap vm);
  e_d : Forall (item_ok (heap vm)) (stk (dstack vm));
  e_a : Forall (item_ok (heap vm)) (stk (astack vm));
  e_saved : Forall (item_ok (heap vm)) (savedFirstStack vm) /\
            Z.of_nat (length (savedFirstStack vm)) <= maxStackSize;
  e_scripts : Forall (script_shape (heap vm)) (scripts vm);
  e_depth : Z.of_nat (length (stk (dstack vm)) + length (stk (astack vm))) <= maxStackSize;
  e_ops : 0 <= numOps vm <= MaxOpsPerScript;
  e_cond : Z.of_nat (length (condStack vm)) <= numOps vm /\ Forall cond_ok (condStack vm);
  e_sep : lastCodeSep vm = 0%nat;
  e_tx : (txIdx vm < length (tx_TxIn (tx vm)))%nat;
  e_p2sh : p2sh_ok vm
}.

Lemma pop_ok_mono m m' p : heap_le m m' -> pop_ok m p -> pop_ok m' p.
Proof.
  intros Hle (H1 & H2 & H3). split_and!; [done|done|]. destruct (pop_data p); [|done]. by eapply slice_ok_mono.
Qed.

Lemma scripts_mono m m' l : heap_le m m' -> Forall (script_shape m) l -> Forall (script_shape m') l.
Proof.
  intros Hle Hl. eapply Forall_impl; [exact Hl|]. intros s [Hs Hn]. split; [|done].
  eapply Forall_impl; [exact Hs|]. intros p. by apply pop_ok_mono.
Qed.

Lemma ok_inv vm : engine_ok vm -> inv vm 1024 vm.
Proof.
  intros []. split; try done; [apply frame_refl|unfold maxStackSize in *; lia|lia].
Qed.

(** ** One opcode *)

Lemma count_op_safe vm op : inv vm 1024 vm ->
  safe False (eq vm) (count_op op)
    (fun _ vm' => inv vm 1024 vm' /\
       (if pop_value op >? OP_16 then numOps vm + 1 <= numOps vm'
        else Z.of_nat (s_len (default nil_slice (pop_data op))) <= MaxScriptElementSize)).
Proof.
  intros Hvm vm1 <-. unfold count_op. destruct (pop_value op >? OP_16).
  - unfold add_ops. rewrite modify_bind, gets_bind. unfold when_err. cbn [numOps set_numOps]. rewrite Z.gtb_ltb.
    destruct (Z.ltb_spec MaxOpsPerScript (numOps vm + 1)); [done|]. cbn. split; [|lia].
    destruct Hvm as [[] ? ? ? ? ?]. split; try done. split; try done. cbn. lia.
  - unfold when_err. rewrite Z.gtb_ltb. destruct (Z.ltb_spec MaxScriptElementSize (Z.of_nat (s_len (default nil_slice (pop_data op)))));
      cbn; [done|]. split; [done|lia].
Qed.

Lemma minimal_push_result {D} (v : D -> bytes) p :
  checkMinimalDataPush v p = Ok tt \/ checkMinimalDataPush v p = Err ErrStackMinimalData.
Proof.
  unfold checkMinimalDataPush. cbv zeta. set (data := data_of v p).
  assert (Hd : forall f, exists b, and_first (Z.of_nat (length data) =? 1) data f = Ok b).
  { intros f. apply and_first_Ok. by intros H ->. }
  assert (Hg : forall b, guard_err b ErrStackMinimalData = Ok tt \/ guard_err b ErrStackMinimalData = Err ErrStackMinimalData)
    by (intros []; auto).
  destruct (_ && negb _) eqn:H0; [auto|].
  destruct (Hd (fun d0 => (d0 >=? 1) && (d0 <=? 16))) as [[] Hs]; rewrite Hs; cbn [mbind res_bind].
  { unfold and_first in Hs. destruct (_ =? 1); [|done].
    destruct (index data 0) as [d0| |]; [|done..]. cbn [mbind res_bind]. apply Hg. }
  destruct (Hd (fun d0 => d0 =? 0x81)) as [[] ->]; cbn [mbind res_bind]; [apply Hg|].
  repeat (destruct (_ <=? _); [apply Hg|]). auto.
Qed.

Lemma check_minimal_cases op vm : check_minimal op vm = Ok (tt, vm) \/ check_minimal op vm = Err ErrStackMinimalData.
Proof.
  unfold check_minimal. destruct (_ && _); [|auto].
  destruct (minimal_push_result (read (heap vm)) op) as [-> | ->]; auto.
Qed.

Lemma frame_trans vm1 vm2 vm3 : frame vm1 vm2 -> frame vm2 vm3 -> frame vm1 vm3.
Proof.
  intros [] []. split; try congruence.
  - naive_solver congruence.
  - unfold same_tx in *. naive_solver congruence.
  - lia.
  - by eapply heap_le_trans.
Qed.

Lemma after_trans vm vm1 k vm' : frame vm vm1 -> after vm1 k vm' -> after vm k vm'.
Proof.
  intros Hf (vm2 & cs & Hi & -> & Hl & Hc). rewrite (fr_condStack _ _ Hf) in *. exists vm2, cs.
  split_and!; [|done|done|done]. destruct Hi. split; try done. by eapply frame_trans.
Qed.

(** The state after an opcode, with what it says of the operations counted. *)
Definition stepped vm vm' : Prop :=
  after vm 1030 vm' /\
  (Z.of_nat (length (condStack vm)) <= numOps vm -> Z.of_nat (length (condStack vm')) <= numOps vm').

Lemma after_mono vm k k' vm' : (k <= k' <= 4000)%nat -> after vm k vm' -> after vm k' vm'.
Proof. intros Hk (vm1 & cs & H1 & H2). exists vm1, cs. split; [by eapply inv_mono|done]. Qed.

Lemma inv_self vm vm1 k : inv vm k vm1 -> inv vm1 k vm1.
Proof. intros []. split; try done. apply frame_refl. Qed.

Lemma executeOpcode_safe vm op : engine_ok vm -> is_Some (scripts vm !! scriptIdx vm) -> pop_ok (heap vm) op ->
  match executeOpcode op vm with
  | Ok (_, vm') => stepped vm vm'
  | Err e => e <> StillRunning
  | Panic => op_panics vm op
  end.
Proof.
  intros Hok Hs (Hv & Hop & Hd). pose proof (ok_inv vm Hok) as Hvm. pose proof (func_kinds _ Hv) as Hf.
  unfold func_ok in Hf. rewrite <- Hop in Hf. unfold executeOpcode.
  destruct (isDisabled op); [done|]. destruct (alwaysIllegal op); [done|].
  pose proof (count_op_safe vm op Hvm vm eq_refl) as Hcount.
  destruct (count_op op vm) as [[[] vm1]|e|] eqn:E; [|by rewrite (stM_step_err _ _ _ _ E)|done].
  rewrite (stM_step _ _ _ _ _ E), gets_bind. destruct Hcount as [Hvm1 Hcount]. clear E.
  pose proof (i_frame _ _ _ Hvm1) as Hfr. pose proof (inv_self _ _ _ Hvm1) as Hself.
  destruct (negb _ && _).
  { split; [apply (after_mono vm 1024); [lia|by apply inv_after]|]. intros Hc. cbn.
    rewrite (fr_condStack _ _ Hfr). pose proof (fr_numOps _ _ Hfr). lia. }
  destruct (check_minimal_cases op vm1) as [E|E]; [|by rewrite (stM_step_err _ _ _ _ E)].
  rewrite (stM_step _ _ _ _ _ E). clear E.
  destruct (is_cond_func (op_func (pop_op op))) eqn:Hcond.
  - pose proof (cond_handlers vm1 op 1024 Hcond vm1 Hself) as H.
    destruct (call_opfunc op vm1) as [[[] vm']|e|]; [|done|done]. split.
    + apply (after_mono vm 1024); [lia|]. by apply (after_trans vm vm1).
    + intros Hc. destruct H as (vm2 & cs & Hi & -> & Hl & _). cbn. rewrite (fr_condStack _ _ Hfr) in Hl.
      pose proof (fr_numOps _ _ (i_frame _ _ _ Hi)).
      assert (pop_value op >? OP_16 = true) as Hbig by (destruct (op_func (pop_op op)); done).
      rewrite Hbig in Hcount. lia.
  - assert (Hpan : op_panics vm1 op -> op_panics vm op).
    { unfold op_panics, der_checked, hasFlag. by rewrite (fr_flags _ _ Hfr). }
    pose proof (handlers_safe vm1) as H. specialize (H ltac:(rewrite (fr_txIdx _ _ Hfr); destruct (fr_tx _ _ Hfr) as (_ & _ & -> & _); apply Hok)).
    specialize (H ltac:(by rewrite (fr_scripts _ _ Hfr), (fr_scriptIdx _ _ Hfr))).
    specialize (H ltac:(by rewrite (fr_lastCodeSep _ _ Hfr); apply Hok) op Hcond).
    assert (Hpush : op_func (pop_op op) = F_opcodePushData -> item_ok (heap vm1) (default nil_slice (pop_data op))).
    { intros Hp. rewrite Hp in Hf. apply (item_ok_mono (heap vm)); [apply Hfr|].
      destruct (Z.gtb_spec (pop_value op) OP_16); [lia|]. split; [|done].
      destruct (pop_data op); [done|apply nil_ok]. }
    specialize (H Hpush 1024%nat ltac:(lia) vm1 Hself).
    destruct (call_opfunc op vm1) as [[[] vm']|e|]; [|done|by apply Hpan]. split.
    + apply (after_trans vm vm1); [done|]. by apply inv_after.
    + intros Hc. rewrite (fr_condStack _ _ (i_frame _ _ _ H)), (fr_condStack _ _ Hfr).
      pose proof (fr_numOps _ _ (i_frame _ _ _ H)). pose proof (fr_numOps _ _ Hfr). lia.
Qed.

(** ** The start of a pay-to-script-hash script *)

Lemma set_numOps_id vm : set_numOps (numOps vm) vm = vm.
Proof. by destruct vm. Qed.

Lemma count_op_Ok vm op vm1 : count_op op vm = Ok (tt, vm1) -> exists n, vm1 = set_numOps n vm.
Proof.
  unfold count_op. destruct (_ >? OP_16).
  - unfold add_ops. rewrite modify_bind, gets_bind. unfold when_err. destruct (_ >? _); [done|].
    intros [_ <-]%stM_ret_Ok. eauto.
  - unfold when_err. destruct (_ >? _); [done|]. intros [_ <-]%stM_ret_Ok. exists (numOps vm).
    by rewrite set_numOps_id.
Qed.

(** A successful opcode was counted, and was skipped or ran. *)
Lemma executeOpcode_Ok vm op vm' : executeOpcode op vm = Ok (tt, vm') -> exists n,
  (isBranchExecuting vm = false /\ isConditional op = false /\ vm' = set_numOps n vm) \/
  ((isBranchExecuting vm = true \/ isConditional op = true) /\ call_opfunc op (set_numOps n vm) = Ok (tt, vm')).
Proof.
  unfold executeOpcode. destruct (isDisabled op); [done|]. destruct (alwaysIllegal op); [done|]. intros H.
  apply stM_bind_Ok in H as ([] & vm1 & Hc & H). apply count_op_Ok in Hc as [n ->]. rewrite gets_bind in H. exists n.
  change (isBranchExecuting (set_numOps n vm)) with (isBranchExecuting vm) in H.
  destruct (isBranchExecuting vm), (isConditional op); cbn in H;
    try (apply stM_ret_Ok in H as [_ <-]; by left);
    right; (split; [auto|]); apply stM_bind_Ok in H as ([] & vm2 & Hm & H);
    (destruct (check_minimal_cases op (set_numOps n vm)) as [E|E]; rewrite E in Hm; by simplify_eq).
Qed.

Lemma hash160_needs_item vm op vm' : executeOpcode op vm = Ok (tt, vm') ->
  op_func (pop_op op) = F_opcodeHash160 -> condStack vm = [] -> stk (dstack vm) <> [].
Proof.
  intros H Hf Hc He. apply executeOpcode_Ok in H as [n [(Hb & _)|[_ H]]].
  - unfold isBranchExecuting in Hb. by rewrite Hc in Hb.
  - unfold call_opfunc in H. rewrite Hf in H. unfold opcodeHash160, popBytes, pop_slice in H.
    apply stM_bind_Ok in H as (b & vm1 & H & _). apply stM_bind_Ok in H as (s & vm2 & H & _).
    unfold on_dstack in H. cbn [dstack set_numOps] in H. destruct (dstack vm) as [l m]. cbn in He. by subst l.
Qed.

Lemma nop_keeps vm op vm' : executeOpcode op vm = Ok (tt, vm') -> op_func (pop_op op) = F_opcodeNop ->
  dstack vm' = dstack vm /\ condStack vm' = condStack vm.
Proof.
  intros H Hf. apply executeOpcode_Ok in H as [n [(_ & _ & ->)|[_ H]]]; [done|].
  unfold call_opfunc in H. rewrite Hf in H. unfold opcodeNop in H. destruct (_ || _).
  - rewrite gets_bind in H. unfold when_err in H. destruct (hasFlag _ _); [done|]. by apply stM_ret_Ok in H as [_ <-].
  - by apply stM_ret_Ok in H as [_ <-].
Qed.

(** The opcodes of a pay-to-script-hash script up to the one that hashes. *)
Lemma p2sh_opcode m (s : list (parsedOpcode slice)) off op : isAnyKindOfScriptHash s = true -> Forall (pop_ok m) s ->
  s !! off = Some op -> (off + 3 <= length s)%nat ->
  if (off + 3 =? length s)%nat then op_func (pop_op op) = F_opcodeHash160 else op_func (pop_op op) = F_opcodeNop.
Proof.
  intros H Hs Hop Hoff. pose proof (Forall_lookup_1 _ _ _ _ Hs Hop) as (_ & -> & _).
  unfold isAnyKindOfScriptHash, isScriptHash, opcodes_are in H.
  destruct s as [|p0 [|p1 [|p2 [|p3 [|p4 s]]]]]; try done.
  - cbn [length] in *. assert (off = 0)%nat as -> by lia. cbn in Hop. simplify_eq.
    destruct (Z.eqb_spec (pop_value op) OP_HASH160) as [He|He].
    + cbn [Nat.eqb plus]. by rewrite He.
    + cbn in H. apply Z.eqb_neq in He. by rewrite He in H.
  - cbn [length val_at] in *. cbn in H. apply andb_true_iff in H as [H _]. apply andb_true_iff in H as [H _].
    apply andb_true_iff in H as [H0 H1]. apply Z.eqb_eq in H1.
    assert (off = 0 \/ off = 1)%nat as [-> | ->] by lia; cbn in Hop; simplify_eq; cbn [Nat.eqb plus].
    + unfold isStakeOpcode in H0.
      assert (pop_value op = 186 \/ pop_value op = 187 \/ pop_value op = 188 \/ pop_value op = 189) as Hv by lia.
      by destruct Hv as [-> |[-> |[-> | ->]]].
    + by rewrite H1.
Qed.

(** ** Between opcodes *)

(** The opcodes that are still to run; a redeem script that is not loaded yet counts with
    the limit on its size. *)
Definition ops_left vm : nat :=
  length (concat (drop (scriptIdx vm) (scripts vm))) - scriptOff vm +
  (if bip16 vm && (scriptIdx vm <=? 1)%nat then Z.to_nat MaxScriptElementSize else 0).

Lemma p2sh_step vm op vm' s : engine_ok vm -> scripts vm !! scriptIdx vm = Some s -> s !! scriptOff vm = Some op ->
  executeOpcode op vm = Ok (tt, vm') -> stepped vm vm' -> p2sh_ok (set_scriptOff (S (scriptOff vm)) vm').
Proof.
  intros Hok Hs Hop He [(vm1 & cs & Hi & Heq & _) _]. pose proof (i_frame _ _ _ Hi) as [].
  pose proof (e_p2sh _ Hok) as Hp. unfold p2sh_ok in *.
  assert (scripts vm' = scripts vm /\ scriptIdx vm' = scriptIdx vm /\ bip16 vm' = bip16 vm /\
          savedFirstStack vm' = savedFirstStack vm) as (Hs' & Hi' & Hb' & Hsv') by (subst vm'; done).
  cbn [scripts scriptIdx scriptOff bip16 savedFirstStack dstack condStack set_scriptOff].
  rewrite Hs', Hi', Hb', Hsv'. destruct (bip16 vm); [|done].
  destruct Hp as (s0 & s1 & rest & Hsc & Hk & Hr & Hrest & Hsaved). exists s0, s1, rest.
  split_and!; [done..|]. intros H1. specialize (Hsaved H1). destruct Hsaved as [Hsv|(Hoff & Hd & Hc)]; [by left|].
  rewrite H1, Hsc in Hs. cbn in Hs. simplify_eq.
  pose proof (e_scripts _ Hok) as HF. rewrite Hsc in HF. apply Forall_cons_1 in HF as [_ HF].
  apply Forall_cons_1 in HF as [[HF _] _].
  pose proof (p2sh_opcode _ _ _ _ Hk HF Hop Hoff) as Hfunc. destruct (Nat.eqb_spec (scriptOff vm + 3) (length s)) as [Hl|Hl].
  - left. rewrite <- Hd. by apply (hash160_needs_item vm op _ He).
  - right. destruct (nop_keeps _ _ _ He Hfunc) as [-> ->]. split_and!; [lia|done|done].
Qed.

Lemma step_body vm op vm' s : engine_ok vm -> scripts vm !! scriptIdx vm = Some s -> s !! scriptOff vm = Some op ->
  executeOpcode op vm = Ok (tt, vm') -> stepped vm vm' ->
  Z.of_nat (length (stk (dstack vm')) + length (stk (astack vm'))) <= maxStackSize ->
  engine_ok (set_scriptOff (S (scriptOff vm)) vm').
Proof.
  intros Hok Hs Hop He Hst Hdepth. pose proof (p2sh_step _ _ _ _ Hok Hs Hop He Hst) as Hp.
  destruct Hst as [(vm1 & cs & Hi & -> & Hl & Hc) Hcond]. destruct Hok, Hi as [[] ? ? ? ? ?].
  split; try done; cbn in *.
  - rewrite fr_saved. split; [|apply e_saved0]. eapply items_mono; [done|apply e_saved0].
  - rewrite fr_scripts. by eapply scripts_mono.
  - lia.
  - split; [naive_solver|]. apply Hc. naive_solver.
  - by rewrite fr_lastCodeSep.
  - rewrite fr_txIdx. destruct fr_tx as (_ & _ & -> & _). done.
Qed.

Lemma step_body_left vm vm' s : stepped vm vm' -> scripts vm !! scriptIdx vm = Some s -> (scriptOff vm < length s)%nat ->
  (ops_left (set_scriptOff (S (scriptOff vm)) vm') < ops_left vm)%nat.
Proof.
  intros [(vm1 & cs & Hi & -> & _) _] Hs Hoff. pose proof (i_frame _ _ _ Hi) as [].
  unfold ops_left. cbn. rewrite fr_scripts, fr_scriptIdx, fr_bip16, (drop_S _ _ _ Hs). cbn [concat].
  rewrite length_app. lia.
Qed.

(** ** The end of a script *)

Lemma clear_astack_eq vm : engine_ok vm ->
  clear_astack vm = Ok (tt, set_astack (MkStack [] (verifyMinimalData (astack vm))) vm).
Proof.
  intros Hok. unfold clear_astack, modify. destruct (decide (stk (astack vm) = [])) as [He|Hne].
  - assert (DropN (Depth (astack vm)) (astack vm) = Err ErrStackInvalidArgs) as ->
      by (destruct (astack vm); cbn in *; by subst).
    do 2 f_equal. destruct vm as [? ? ? ? ? ? [l m]]. cbn in *. by subst.
  - rewrite DropN_all; [done| |done]. unfold small. pose proof (e_depth _ Hok). unfold maxStackSize in *. lia.
Qed.

Lemma parse_slice_ok m s : mem_ok m -> slice_ok m s ->
  Forall (pop_ok m) (parse_slice m s).1 /\ (length (parse_slice m s).1 <= s_len s)%nat /\
  ((parse_slice m s).2 = None \/ (parse_slice m s).2 = Some ErrStackShortScript).
Proof.
  intros Hm Hs. pose proof (parse_with_shape (fun off n => subslice s off (off + n)) (slice_ok m) (read m s)) as H.
  destruct H as (H1 & H2 & H3).
  - by apply read_bytes.
  - intros off n Hb. rewrite read_length in Hb by done. apply subslice_ok; [done|lia].
  - rewrite read_length in H2 by done. done.
Qed.

(** The state in which the next script is chosen. *)
Definition wound_up vm : Engine :=
  set_scriptOff 0 (set_numOps 0 (set_astack (MkStack [] (verifyMinimalData (astack vm))) vm)).

Lemma wound_up_ok vm s : engine_ok vm -> scripts vm !! scriptIdx vm = Some s -> (length s <= scriptOff vm)%nat ->
  condStack vm = [] ->
  engine_ok (wound_up vm) /\ (bip16 vm = true -> scriptIdx vm = 1%nat -> savedFirstStack vm <> []).
Proof.
  intros Hok Hs Hoff Hc.
  assert (Hsv : bip16 vm = true -> scriptIdx vm = 1%nat -> savedFirstStack vm <> []).
  { intros Hb H1. pose proof (e_p2sh _ Hok) as Hp. unfold p2sh_ok in Hp. rewrite Hb in Hp.
    destruct Hp as (s0 & s1 & rest & Hsc & _ & _ & _ & Hp). rewrite H1, Hsc in Hs. cbn in Hs. simplify_eq.
    destruct (Hp H1) as [?|(? & _)]; [done|lia]. }
  split; [|done]. destruct Hok. unfold maxStackSize, MaxOpsPerScript in *.
  split; try done; cbn in *; unfold maxStackSize, MaxOpsPerScript; rewrite ?Hc; cbn; try lia; try done.
  unfold p2sh_ok in *. cbn. destruct (bip16 vm); [|done].
  destruct e_p2sh0 as (s0 & s1 & rest & Hsc & Hk & Hr & Hrest & _). exists s0, s1, rest.
  split_and!; try done. intros H1. left. by apply Hsv.
Qed.

Lemma p2sh_length (s : list (parsedOpcode slice)) : isAnyKindOfScriptHash s = true -> (3 <= length s)%nat.
Proof.
  unfold isAnyKindOfScriptHash, isScriptHash, opcodes_are. destruct s as [|p0 [|p1 [|p2 s]]]; try done. cbn. lia.
Qed.

Lemma CheckErrorCondition_safe vm0 final k :
  safe False (inv vm0 k) (CheckErrorCondition final) (fun _ => inv vm0 k).
Proof.
  assert (Hw : forall b e, e <> StillRunning -> safe False (inv vm0 k) (when_err b e) (fun _ => inv vm0 k)).
  { intros b e He. eapply safe_conseq; [by apply (when_err_inv (inv vm0 k))|done|naive_solver]. }
  eapply safe_bind; [apply (gets_inv (inv vm0 k))|]. intros u. eapply safe_bind; [by apply Hw|]. intros ?.
  do 2 (eapply safe_bind; [apply (gets_inv (inv vm0 k))|]; intros ?).
  do 2 (eapply safe_bind; [by apply Hw|]; intros ?).
  eapply safe_bind; [apply popBool_inv|]. intros v. by apply Hw.
Qed.

(** The third script of a pay-to-script-hash spend. *)
Lemma load_redeem_ok vm s0 s1 : engine_ok vm -> bip16 vm = true -> scriptIdx vm = 2%nat -> scriptOff vm = 0%nat ->
  stk (astack vm) = [] -> condStack vm = [] ->
  savedFirstStack vm <> [] -> scripts vm = [s0; s1] -> isAnyKindOfScriptHash s1 = true ->
  match load_redeem vm with
  | Ok (_, vm') => engine_ok vm' /\ scriptOff vm' = 0%nat /\ scriptIdx vm' = 2%nat /\ bip16 vm' = true /\
      exists pops, scripts vm' = [s0; s1; pops] /\ (length pops <= Z.to_nat MaxScriptElementSize)%nat
  | Err e => e <> StillRunning
  | Panic => False
  end.
Proof.
  intros Hok Hb Hidx Hoff Ha Hc Hsv Hsc Hk. unfold load_redeem.
  destruct (last (savedFirstStack vm)) as [sc|] eqn:Hl; [|by apply last_None in Hl].
  apply last_removelast in Hl. pose proof (e_saved _ Hok) as [HF _]. rewrite Hl in HF.
  apply Forall_app in HF as [HF1 HF2]. apply Forall_cons_1 in HF2 as [[Hsc1 Hsc2] _].
  destruct (parse_slice_ok (heap vm) sc) as (Hp1 & Hp2 & Hp3); [apply Hok|done|].
  destruct (parse_slice (heap vm) sc) as [pops [e|]]; cbn in Hp1, Hp2, Hp3; [by destruct Hp3 as [|[= ->]]|].
  unfold SetStack, on_dstack. rewrite setStack_spec.
  2:{ unfold small. pose proof (e_depth _ Hok). unfold maxStackSize in *. cbn. lia. }
  cbn. split_and!; try done.
  2:{ exists pops. rewrite Hsc. split; [done|]. unfold MaxScriptElementSize in *. lia. }
  pose proof (removelast_length (savedFirstStack vm)). destruct Hok.
  split; cbn; try done; rewrite ?Hsc, ?Ha in *; cbn in *; try lia.
  - rewrite Forall_cons, Forall_cons in e_scripts0.
    destruct e_scripts0 as (? & ? & _). repeat (apply Forall_cons_2; [done|]). apply Forall_cons_2; [|done].
    split; [done|]. unfold MaxScriptElementSize, maxScriptSize in *. lia.
  - unfold p2sh_ok. cbn. rewrite Hb, Hidx. exists s0, s1, [pops]. cbn. split_and!; try done; lia.
Qed.

Lemma when_err_Ok (b : bool) e vm u vm' : when_err b e vm = Ok (u, vm') -> b = false /\ vm' = vm.
Proof. unfold when_err. destruct b; [done|]. by intros [_ <-]%stM_ret_Ok. Qed.

Lemma popBool_Ok vm v vm' : popBool vm = Ok (v, vm') -> exists d, vm' = set_dstack d vm.
Proof.
  unfold popBool. rewrite gets_bind. unfold on_dstack. intros H. apply bind_Ok in H as ([a d] & _ & H).
  simplify_eq. eauto.
Qed.

Lemma CheckErrorCondition_Ok vm b vm' : CheckErrorCondition b vm = Ok (tt, vm') -> exists d, vm' = set_dstack d vm.
Proof.
  unfold CheckErrorCondition. rewrite gets_bind. intros H. apply stM_bind_Ok in H as (? & ? & [_ ->]%when_err_Ok & H).
  rewrite !gets_bind in H. apply stM_bind_Ok in H as (? & ? & [_ ->]%when_err_Ok & H).
  apply stM_bind_Ok in H as (? & ? & [_ ->]%when_err_Ok & H).
  apply stM_bind_Ok in H as (? & ? & [d ->]%popBool_Ok & [_ ->]%when_err_Ok). eauto.
Qed.

(** The second script of a pay-to-script-hash spend has ended. *)
Lemma redeem_ok vm s0 s1 : engine_ok vm -> scriptOff vm = 0%nat -> stk (astack vm) = [] -> condStack vm = [] ->
  bip16 vm = true -> scriptIdx vm = 1%nat -> savedFirstStack vm <> [] -> scripts vm = [s0; s1] ->
  isAnyKindOfScriptHash s1 = true ->
  match (_ ← CheckErrorCondition false; load_redeem) (set_scriptIdx 2 vm) with
  | Ok (_, vm') => engine_ok vm' /\ scriptOff vm' = 0%nat /\ scriptIdx vm' = 2%nat /\ bip16 vm' = true /\
      exists pops, scripts vm' = [s0; s1; pops] /\ (length pops <= Z.to_nat MaxScriptElementSize)%nat
  | Err e => e <> StillRunning
  | Panic => False
  end.
Proof.
  intros Hok Hoff Ha Hc Hb H1 Hsv Hsc Hk. set (vm1 := set_scriptIdx 2 vm).
  assert (Hp2 : forall vm', scripts vm' = scripts vm -> bip16 vm' = bip16 vm -> scriptIdx vm' = 2%nat -> p2sh_ok vm').
  { intros vm' E1 E2 E3. unfold p2sh_ok. rewrite E1, E2, E3, Hb, Hsc. exists s0, s1, []. cbn. split_and!; done || lia. }
  assert (Hok1 : engine_ok vm1) by (destruct Hok; split; try done; by apply Hp2).
  pose proof (CheckErrorCondition_safe vm1 false 1024 vm1 (ok_inv _ Hok1)) as H.
  destruct (CheckErrorCondition false vm1) as [[[] vm2]|e|] eqn:E; [|by rewrite (stM_step_err _ _ _ _ E)|done].
  rewrite (stM_step _ _ _ _ _ E). apply CheckErrorCondition_Ok in E as [d ->].
  apply load_redeem_ok; try done. destruct H, Hok1. split; try done.
  - unfold maxStackSize. lia.
  - by apply Hp2.
Qed.

Lemma advance_ok vm s : engine_ok vm -> scripts vm !! scriptIdx vm = Some s -> scriptOff vm = 0%nat ->
  stk (astack vm) = [] -> condStack vm = [] ->
  (bip16 vm = true -> scriptIdx vm = 1%nat -> savedFirstStack vm <> []) ->
  match advance vm with
  | Ok (_, vm') => engine_ok vm' /\ scriptOff vm' = 0%nat /\ (1 <= scriptIdx vm')%nat /\
      (ops_left vm' + length s <= ops_left vm)%nat
  | Err e => e <> StillRunning
  | Panic => False
  end.
Proof.
  intros Hok Hs Hoff Ha Hc Hsv. unfold advance. rewrite !gets_bind.
  assert (Hleft : length (concat (drop (scriptIdx vm) (scripts vm))) =
                  (length s + length (concat (drop (S (scriptIdx vm)) (scripts vm))))%nat).
  { rewrite (drop_S _ _ _ Hs). cbn [concat]. apply length_app. }
  pose proof (e_p2sh _ Hok) as Hp. unfold p2sh_ok in Hp. unfold ops_left. rewrite Hoff, Hleft.
  destruct (bip16 vm) eqn:Hb.
  2:{ rewrite !andb_false_r. unfold next_idx, modify.
      cbn [set_scriptIdx scripts scriptIdx scriptOff bip16 andb]. rewrite Hb, Hoff. cbn [andb].
      split_and!; [|done|lia|lia]. destruct Hok. split; try done. unfold p2sh_ok. cbn. by rewrite Hb. }
  destruct Hp as (s0 & s1 & rest & Hsc & Hk & Hr & Hrest & _). rewrite !andb_true_r. cbn [andb].
  destruct (Nat.eqb_spec (scriptIdx vm) 0) as [H0|H0].
  - unfold next_idx. rewrite modify_bind. unfold GetStack.
    assert (Hsm : small (dstack vm)) by (unfold small; pose proof (e_depth _ Hok); unfold maxStackSize in *; lia).
    unfold mbind, stM_bind. cbn [dstack set_scriptIdx]. rewrite (getStack_spec _ Hsm).
    cbn [mbind res_bind modify set_savedFirstStack set_scriptIdx scripts scriptIdx scriptOff bip16].
    rewrite Hb, Hoff, H0 in *. cbn [andb Nat.leb]. split_and!; [|done|lia|lia].
    destruct Hok. split; try done; [cbn; split; [done|lia]|]. unfold p2sh_ok. cbn. rewrite Hb, Hsc.
    exists s0, s1, rest. split_and!; [done..|auto|]. intros _. right. rewrite Hoff.
    split_and!; [by apply p2sh_length|done|done].
  - destruct (Nat.eqb_spec (scriptIdx vm) 1) as [H1|H1].
    + unfold next_idx. rewrite modify_bind, H1. pose proof (Hrest ltac:(lia)) as ->.
      pose proof (redeem_ok vm s0 s1 Hok Hoff Ha Hc Hb H1 (Hsv eq_refl H1) Hsc Hk) as H.
      destruct ((_ ← CheckErrorCondition false; load_redeem) (set_scriptIdx 2 vm)) as [[[] vm']|e|]; [|done|done].
      destruct H as (Hok' & -> & -> & -> & pops & -> & Hpops). rewrite Hsc. cbn.
      split_and!; [done|done|lia|]. rewrite app_nil_r. lia.
    + unfold next_idx, modify. cbn [set_scriptIdx scripts scriptIdx scriptOff bip16].
      destruct (Nat.leb_spec (scriptIdx vm) 1); [lia|]. rewrite Hb, Hoff. cbn [andb].
      destruct (Nat.leb_spec (S (scriptIdx vm)) 1); [lia|].
      split_and!; [|done|lia|lia]. destruct Hok. split; try done. unfold p2sh_ok. cbn. rewrite Hb, Hsc.
      exists s0, s1, rest. split_and!; done || lia.
Qed.

Lemma skip_empty_ok vm : engine_ok vm -> scriptOff vm = 0%nat -> (1 <= scriptIdx vm)%nat ->
  engine_ok (skip_empty vm) /\ (ops_left (skip_empty vm) <= ops_left vm)%nat.
Proof.
  intros Hok Hoff Hi. unfold skip_empty. destruct (scripts vm !! scriptIdx vm) as [s|] eqn:Hs; [|split; [done|lia]].
  rewrite Hoff. destruct (Nat.leb_spec (length s) 0) as [Hl|Hl]; [|split; [done|lia]]. split.
  - pose proof (e_p2sh _ Hok) as Hp. destruct Hok. split; try done. unfold p2sh_ok in *. cbn.
    destruct (bip16 vm); [|done]. destruct Hp as (s0 & s1 & rest & Hsc & Hk & Hr & _).
    exists s0, s1, rest. split_and!; done || lia.
  - unfold ops_left. cbn [set_scriptIdx scripts scriptIdx scriptOff bip16]. rewrite (drop_S _ _ _ Hs). cbn [concat].
    rewrite length_app. destruct (Nat.leb_spec (S (scriptIdx vm)) 1); [lia|]. rewrite andb_false_r. lia.
Qed.

Lemma next_script_ok vm s : engine_ok vm -> scripts vm !! scriptIdx vm = Some s -> scriptOff vm = length s ->
  condStack vm = [] ->
  match next_script vm with
  | Ok (_, vm') => engine_ok vm' /\ (ops_left vm' <= ops_left vm)%nat
  | Err e => e <> StillRunning
  | Panic => False
  end.
Proof.
  intros Hok Hs Hoff Hc. destruct (wound_up_ok vm s Hok Hs ltac:(lia) Hc) as [Hok' Hsv].
  unfold next_script. rewrite (stM_step _ _ _ _ _ (clear_astack_eq vm Hok)), !modify_bind. fold (wound_up vm).
  pose proof (advance_ok (wound_up vm) s Hok' Hs eq_refl eq_refl Hc Hsv) as H.
  destruct (advance (wound_up vm)) as [[[] vm1]|e|] eqn:E; [|by rewrite (stM_step_err _ _ _ _ E)|done].
  rewrite (stM_step _ _ _ _ _ E), modify_bind. destruct H as (Hok1 & Hoff1 & Hi1 & Hl1).
  destruct (skip_empty_ok vm1 Hok1 Hoff1 Hi1) as [Hok2 Hl2]. unfold modify. split.
  - destruct Hok2. by split.
  - change (ops_left (set_lastCodeSep 0 (skip_empty vm1))) with (ops_left (skip_empty vm1)).
    enough (ops_left (wound_up vm) <= ops_left vm + length s)%nat by lia.
    unfold ops_left, wound_up. cbn [set_scriptOff set_numOps set_astack scripts scriptIdx scriptOff bip16]. lia.
Qed.

(** ** One step *)

(** What the engine does not change in a whole run. *)
Definition same_input vm vm' : Prop :=
  version vm' = version vm /\ flags vm' = flags vm /\ same_tx (tx vm) (tx vm') /\ txIdx vm' = txIdx vm.

(** The opcode that is to run next. *)
Definition current vm : option (parsedOpcode slice) := s ← scripts vm !! scriptIdx vm; s !! scriptOff vm.

Lemma depth_check vm k vm0 : after vm0 k vm ->
  i32 (Depth (dstack vm) + Depth (astack vm)) =
  Z.of_nat (length (stk (dstack vm)) + length (stk (astack vm))).
Proof.
  intros (vm1 & cs & [] & -> & _). cbn. unfold Depth. rewrite !i32_small; unfold is_i32; try lia.
  rewrite !i32_small; unfold is_i32; lia.
Qed.

Lemma validPC_None vm : current vm = None -> validPC vm = Err PastInputScripts.
Proof.
  unfold current, validPC. destruct (scripts vm !! scriptIdx vm) as [s|]; cbn; [|done]. intros H%lookup_ge_None.
  destruct (Nat.leb_spec (length s) (scriptOff vm)); [done|lia].
Qed.

Lemma current_Some vm op : current vm = Some op ->
  exists s, scripts vm !! scriptIdx vm = Some s /\ s !! scriptOff vm = Some op /\ (scriptOff vm < length s)%nat /\
    validPC vm = Ok (tt, vm) /\ fetch vm = Ok (op, vm).
Proof.
  unfold current, validPC, fetch. destruct (scripts vm !! scriptIdx vm) as [s|]; cbn; [|done]. intros H.
  pose proof (lookup_lt_Some _ _ _ H) as Hl. exists s. rewrite H.
  destruct (Nat.leb_spec (length s) (scriptOff vm)); [lia|]. done.
Qed.

Lemma when_err_bind {B} (b : bool) e (m : unit -> stM Engine scriptError B) vm :
  (when_err b e ≫= m) vm = if b then Err e else m tt vm.
Proof. by destruct b. Qed.

(** [Step] as one expression. *)
Lemma Step_eq vm op : current vm = Some op ->
  Step vm =
  ('(_, vm1) ← executeOpcode op vm;
   if i32 (Depth (dstack vm1) + Depth (astack vm1)) >? maxStackSize then Err ErrStackOverflow
   else
     let vm2 := set_scriptOff (S (scriptOff vm1)) vm1 in
     '(ended, _) ← script_ended vm2;
     if negb ended then Ok (false, vm2)
     else if negb (length (condStack vm2) =? 0)%nat then Err ErrStackMissingEndif
     else '(_, vm3) ← next_script vm2; Ok ((length (scripts vm3) <=? scriptIdx vm3)%nat, vm3)).
Proof.
  intros (s & Hs & Hop & Hlt & Hv & Hf)%current_Some. unfold Step.
  rewrite (stM_step _ _ _ _ _ Hv), (stM_step _ _ _ _ _ Hf).
  destruct (executeOpcode op vm) as [[[] vm1]|e|] eqn:E.
  2:{ by rewrite (stM_step_err _ _ _ _ E). }
  2:{ unfold mbind, stM_bind. by rewrite E. }
  rewrite (stM_step _ _ _ _ _ E), gets_bind, when_err_bind. cbn [mbind res_bind]. destruct (_ >? _); [done|].
  rewrite modify_bind. cbv zeta.
  set (vm2 := set_scriptOff _ vm1). unfold mbind at 1, stM_bind at 1.
  unfold script_ended. destruct (scripts vm2 !! scriptIdx vm2) as [s'|]; [|done]. cbn [or_panic mbind res_bind].
  destruct (negb _); [done|]. rewrite gets_bind, when_err_bind. destruct (negb _); [done|].
  destruct (next_script vm2) as [[[] vm3]|e|] eqn:E3.
  - by rewrite (stM_step _ _ _ _ _ E3).
  - by rewrite (stM_step_err _ _ _ _ E3).
  - unfold mbind, stM_bind. by rewrite E3.
Qed.

Lemma Step_safe vm : engine_ok vm ->
  match Step vm with
  | Ok (_, vm') => engine_ok vm' /\ (ops_left vm' < ops_left vm)%nat
  | Err e => e <> StillRunning
  | Panic => exists op, current vm = Some op /\ op_panics vm op
  end.
Proof.
  intros Hok. destruct (current vm) as [op|] eqn:Hcur.
  2:{ unfold Step. by rewrite (stM_step_err _ _ _ _ (validPC_None vm Hcur)). }
  rewrite (Step_eq vm op Hcur). apply current_Some in Hcur as (s & Hs & Hop & Hlt & _ & _).
  assert (Hpop : pop_ok (heap vm) op).
  { destruct (Forall_lookup_1 _ _ _ _ (e_scripts _ Hok) Hs) as [HF _]. by apply (Forall_lookup_1 _ _ _ _ HF Hop). }
  pose proof (executeOpcode_safe vm op Hok ltac:(by eexists) Hpop) as Hex.
  destruct (executeOpcode op vm) as [[[] vm1]|e|] eqn:E; cbn [mbind res_bind]; [|done|by exists op].
  rewrite (depth_check _ _ _ (proj1 Hex)), Z.gtb_ltb.
  destruct (Z.ltb_spec maxStackSize (Z.of_nat (length (stk (dstack vm1)) + length (stk (astack vm1))))); [done|]. cbv zeta.
  assert (scripts vm1 = scripts vm /\ scriptIdx vm1 = scriptIdx vm /\ scriptOff vm1 = scriptOff vm) as (E1 & E2 & E3).
  { destruct Hex as [(vm2 & cs & Hi & -> & _) _]. destruct (i_frame _ _ _ Hi). done. }
  rewrite E3. pose proof (step_body vm op vm1 s Hok Hs Hop E Hex ltac:(lia)) as Hok2.
  pose proof (step_body_left vm vm1 s Hex Hs Hlt) as Hleft. set (vm2 := set_scriptOff _ vm1) in *.
  unfold script_ended. assert (scripts vm2 !! scriptIdx vm2 = Some s) as Hs2 by (unfold vm2; cbn; by rewrite E1, E2).
  rewrite Hs2. cbn [or_panic mbind res_bind].
  destruct (Nat.leb_spec (length s) (scriptOff vm2)) as [Hend|Hend]; cbn [negb]; [|done].
  destruct (Nat.eqb_spec (length (condStack vm2)) 0) as [Hc|Hc]; cbn [negb]; [|done].
  pose proof (next_script_ok vm2 s Hok2 Hs2) as Hn. destruct (next_script vm2) as [[[] vm3]|e|]; cbn.
  - destruct Hn as [Hok3 Hl3]; [unfold vm2 in *; cbn in *; lia|by apply nil_length_inv|]. split; [done|lia].
  - apply Hn; [unfold vm2 in *; cbn in *; lia|by apply nil_length_inv].
  - destruct Hn; [unfold vm2 in *; cbn in *; lia|by apply nil_length_inv].
Qed.

(** ** Runs *)

Definition step vm vm' : Prop := exists b, Step vm = Ok (b, vm').

Lemma steps_ok vm vm' : rtc step vm vm' -> engine_ok vm -> engine_ok vm'.
Proof.
  induction 1 as [|vm vm1 vm' [b Hb] _ IH]; [done|]. intros Hok. apply IH.
  pose proof (Step_safe vm Hok) as H. rewrite Hb in H. by apply H.
Qed.

(** With more fuel than opcodes left the loop comes to an end, and more fuel makes no
    difference. *)
Lemma execute_loop_ends n : forall vm, engine_ok vm -> (ops_left vm < n)%nat ->
  execute_loop n vm <> Err StillRunning /\ forall n', (n <= n')%nat -> execute_loop n' vm = execute_loop n vm.
Proof.
  induction n as [|n IH]; intros vm Hok Hl; [lia|]. pose proof (Step_safe vm Hok) as H.
  destruct (Step vm) as [[b vm1]|e|] eqn:E.
  - destruct H as [Hok1 Hl1]. destruct (IH vm1 Hok1 ltac:(lia)) as [H1 H2]. split.
    + cbn [execute_loop]. rewrite (stM_step _ _ _ _ _ E). by destruct b.
    + intros [|n'] Hn'; [lia|]. cbn [execute_loop]. rewrite !(stM_step _ _ _ _ _ E). destruct b; [done|]. apply H2. lia.
  - split; [|intros [|n'] Hn'; [lia|]]; cbn [execute_loop]; rewrite !(stM_step_err _ _ _ _ E); naive_solver.
  - split; [|intros [|n'] Hn'; [lia|]]; cbn [execute_loop]; unfold mbind, stM_bind; rewrite !E; done.
Qed.

Lemma execute_loop_steps n : forall vm, match execute_loop n vm with
  | Ok (_, vm') => rtc step vm vm'
  | Err _ => True
  | Panic => exists vm', rtc step vm vm' /\ Step vm' = Panic
  end.
Proof.
  induction n as [|n IH]; intros vm; [done|]. cbn [execute_loop]. destruct (Step vm) as [[b vm1]|e|] eqn:E.
  - rewrite (stM_step _ _ _ _ _ E). assert (Hs : step vm vm1) by (by exists b).
    destruct b; [by apply rtc_once|]. specialize (IH vm1). destruct (execute_loop n vm1) as [[[] vm2]|e|]; [|done|].
    + by eapply rtc_l.
    + destruct IH as (vm' & H1 & H2). exists vm'. split; [by eapply rtc_l|done].
  - by rewrite (stM_step_err _ _ _ _ E).
  - unfold mbind, stM_bind. rewrite E. by exists vm.
Qed.

(** ** New engines *)

Definition input_bytes (t : MsgTx) : Prop := Forall (fun ti => is_bytes (SignatureScript ti)) (tx_TxIn t).

Lemma parse_input_ok m arr pops : mem_ok m -> parse_input m arr = Ok pops -> script_shape m pops.
Proof.
  intros Hm H. unfold parse_input in H. apply bind_Ok in H as (u & Hlen%guard_err_Ok & H).
  rewrite Z.gtb_ltb in Hlen. apply Z.ltb_ge in Hlen.
  set (s := MkSlice arr 0 (length (array m arr)) (length (array m arr))) in *.
  destruct (parse_slice_ok m s Hm) as (H1 & H2 & _); [unfold slice_ok; cbn; lia|].
  destruct (parse_slice m s) as [p [[]|]]; try done. simplify_eq. split; [done|]. cbn in H2. lia.
Qed.

Lemma NewEngine_ok scriptPubKey t idx fl ver cache vm : is_bytes scriptPubKey -> input_bytes t ->
  NewEngine scriptPubKey t idx fl ver cache = Ok vm ->
  engine_ok vm /\ (ops_left vm < Z.to_nat (3 * maxScriptSize))%nat.
Proof.
  intros Hpk Ht H. unfold NewEngine in H. destruct (_ || _) eqn:Hidx; [done|].
  apply bind_Ok in H as (ti & Hti%or_panic_Ok & H). cbv zeta in H.
  apply bind_Ok in H as ([] & _ & H). apply bind_Ok in H as ([] & _ & H). apply bind_Ok in H as ([] & _ & H).
  set (m := [SignatureScript ti; scriptPubKey]) in *.
  assert (Hm : mem_ok m).
  { apply Forall_cons_2; [by apply (Forall_lookup_1 _ _ _ _ Ht Hti)|]. by apply Forall_cons_2. }
  apply bind_Ok in H as (p0 & Hp0%parse_input_ok & H); [|done]. apply bind_Ok in H as (p1 & Hp1%parse_input_ok & H); [|done].
  apply bind_Ok in H as ([] & _ & H). simplify_eq. pose proof Hp0 as [_ Hl0]. pose proof Hp1 as [_ Hl1].
  apply orb_false_iff in Hidx as [Hi1%Z.ltb_ge Hi2]. apply lookup_lt_Some in Hti. split.
  - split; cbn; try done.
    + by apply Forall_cons_2; [|apply Forall_cons_2].
    + unfold p2sh_ok. cbn. destruct (_ && isAnyKindOfScriptHash p1) eqn:Hb; [|done].
      apply andb_true_iff in Hb as [_ Hk]. exists p0, p1, []. split_and!; try done; [cbn; lia|].
      intros _. right. split_and!; [by apply p2sh_length|done|done].
  - unfold ops_left, maxScriptSize, MaxScriptElementSize in *. cbn.
    destruct (length (SignatureScript ti) =? 0)%nat; cbn [drop concat]; rewrite !length_app; cbn;
      destruct (_ && _); lia.
Qed.

End step.

(** ** A concrete environment *)

(** Hashes that pad or cut, signatures that are the key they are for. *)
Definition pad (n : nat) (b : bytes) : bytes := take n (b ++ replicate n 0).

#[export] Instance toy_env : ScriptEnv := {|
  PubKey := bytes; Signature := bytes; AltPubKey := bytes; AltSignature := bytes;
  ParsePubKey := Some; ParseDERSignature := Some; ParseSignature := Some;
  Verify := fun k h s => bool_decide (k = s);
  SerializeSig := fun s => s; SerializeCompressed := fun k => k;
  AltParsePubKey := fun _ => Some; AltParseSignature := fun _ => Some;
  AltVerify := fun _ k h s => bool_decide (k = s);
  HashB := pad 32; ripemd160 := pad 20; sha1 := pad 20;
  growslice := fun old new => Nat.max (2 * old) new;
  pick_entry := fun m => fst <$> head (map_to_list m);
  SigHashOptimization := false
|}.

Lemma pad_ok n b : is_bytes b -> is_bytes (pad n b) /\ length (pad n b) = n.
Proof.
  intros Hb. split.
  - apply Forall_take, Forall_app. split; [done|]. by apply Forall_replicate.
  - unfold pad. rewrite length_take, length_app, length_replicate. lia.
Qed.

#[export] Instance toy_env_ok : ScriptEnvOk toy_env.
Proof. split; intros b; apply pad_ok. Qed.

Definition toy_tx (sigScript : bytes) : MsgTx :=
  MkMsgTx None 0 1 [MkTxIn (MkOutPoint (replicate 32 0) 0 0) 0 0 0 0 sigScript] [MkTxOut 5 0 []] 0 0.

Definition toy_engine (sigScript pkScript : bytes) (fl : Z) : res scriptError Engine :=
  NewEngine pkScript (toy_tx sigScript) 0 fl 0 None.

(** The result of a run: the items of the data stack. *)
Definition toy_run (sigScript pkScript : bytes) (fl : Z) : res scriptError (list bytes) :=
  vm ← toy_engine sigScript pkScript fl;
  '(_, vm) ← Execute vm;
  Ok (read (heap vm) <$> stk (dstack vm)).

Lemma bytes_b (l : bytes) : forallb (fun x => (0 <=? x) && (x <? 256)) l = true -> is_bytes l.
Proof. intros H. apply Forall_forall. intros x Hx%list_elem_of_In. rewrite forallb_forall in H. specialize (H x Hx). unfold is_u8. lia. Qed.

(** The concatenation appends in place when the first item has spare capacity, and then
    changes the bytes of the items that share its array: after
    ["abcd" DUP 2 LEFT "zz" CAT DROP] the copy of ["abcd"] below reads ["abzz"]. *)
Lemma cat_overwrites :
  toy_run [OP_1] ([4; 97; 98; 99; 100; OP_DUP; OP_2; OP_LEFT; 2; 122; 122; OP_CAT; OP_DROP] ++
                  [4; 97; 98; 122; 122; OP_EQUAL]) 0 = Ok [[1]].
Proof. vm_compute. reflexivity. Qed.

(** ** The theorems *)

(** C14: every state that an engine made by [NewEngine] runs through is well-typed: each
    item of the stacks and each datum of the scripts refers to bytes inside an existing
    array, the elements have at most 8192 bytes, the two stacks at most 1024 items, at most
    255 operations are counted and at most that many conditionals open, each of the three
    known kinds, and every parsed opcode is the table's entry for its value. *)
Theorem engine_invariant `{Env : ScriptEnv, EnvOk : !ScriptEnvOk Env} (scriptPubKey : bytes) (t : MsgTx)
    (idx fl ver : Z) (cache : option (SigCache Signature PubKey)) (vm vm' : Engine) :
  is_bytes scriptPubKey -> input_bytes t -> NewEngine scriptPubKey t idx fl ver cache = Ok vm ->
  rtc step vm vm' -> engine_ok vm'.
Proof. intros Hpk Ht Hnew Hrtc. apply (steps_ok vm vm' Hrtc). by eapply NewEngine_ok. Qed.

Lemma engine_invariant_witness : exists vm vm',
  toy_engine [OP_1] [OP_DUP; OP_IF; OP_2; OP_ENDIF] 0 = Ok vm /\ step vm vm' /\ engine_ok vm'.
Proof.
  destruct (toy_engine [OP_1] [OP_DUP; OP_IF; OP_2; OP_ENDIF] 0) as [vm| |] eqn:E; [|vm_compute in E; discriminate..].
  destruct (Step vm) as [[b vm']| |] eqn:Es.
  - exists vm, vm'. split; [reflexivity|]. assert (Hs : step vm vm') by (exists b; exact Es). split; [exact Hs|].
    apply (engine_invariant [OP_DUP; OP_IF; OP_2; OP_ENDIF] (toy_tx [OP_1]) 0 0 0 None vm vm');
      [by apply bytes_b|by apply Forall_singleton, bytes_b|exact E|by apply rtc_once].
  - vm_compute in E. injection E as <-. vm_compute in Es. discriminate.
  - vm_compute in E. injection E as <-. vm_compute in Es. discriminate.
Defined.



(** C19: [Execute] comes to an end on every engine made by [NewEngine], whatever the
    scripts: the loop stops within the rounds that three scripts of the maximal size need,
    and would give the same result with any larger number of rounds. *)
Theorem engine_terminates `{Env : ScriptEnv, EnvOk : !ScriptEnvOk Env} (scriptPubKey : bytes) (t : MsgTx)
    (idx fl ver : Z) (cache : option (SigCache Signature PubKey)) (vm : Engine) :
  is_bytes scriptPubKey -> input_bytes t -> NewEngine scriptPubKey t idx fl ver cache = Ok vm ->
  Execute vm <> Err StillRunning /\
  forall n, (Z.to_nat (3 * maxScriptSize) <= n)%nat ->
    execute_loop n vm = execute_loop (Z.to_nat (3 * maxScriptSize)) vm.
Proof.
  intros Hpk Ht Hnew. destruct (NewEngine_ok _ _ _ _ _ _ _ Hpk Ht Hnew) as [Hok Hleft].
  destruct (execute_loop_ends _ vm Hok Hleft) as [H1 H2]. split; [|exact H2].
  unfold Execute. rewrite gets_bind. destruct (negb _); [done|].
  pose proof (execute_loop_steps (Z.to_nat (3 * maxScriptSize)) vm) as Hl.
  destruct (execute_loop _ vm) as [[[] vm1]|e|] eqn:E.
  - rewrite (stM_step _ _ _ _ _ E). pose proof (steps_ok _ _ Hl Hok) as Hok1.
    pose proof (CheckErrorCondition_safe vm1 true 1024 vm1 (ok_inv _ Hok1)) as H.
    intros Hx. rewrite Hx in H. done.
  - rewrite (stM_step_err _ _ _ _ E). naive_solver.
  - unfold mbind, stM_bind. by rewrite E.
Qed.

Lemma engine_terminates_witness : exists vm,
  toy_engine [OP_1] [OP_2; OP_ADD; OP_3; OP_EQUAL] 0 = Ok vm /\ Execute vm <> Err StillRunning.
Proof.
  destruct (toy_engine [OP_1] [OP_2; OP_ADD; OP_3; OP_EQUAL] 0) as [vm| |] eqn:E; [|vm_compute in E; discriminate..].
  exists vm. split; [reflexivity|].
  destruct (engine_terminates [OP_2; OP_ADD; OP_3; OP_EQUAL] (toy_tx [OP_1]) 0 0 0 None vm) as [H _];
    [by apply bytes_b|by apply Forall_singleton, bytes_b|exact E|exact H].
Defined.
