(* ===== verification/EngineSpec.v ===== *)
(** * Strict signature encodings

    The encoding check of signatures of [txscript/engine.go] ([checkSignatureEncoding])
    against the grammar of strict DER. *)

From S2P Require Import Prelude Opcodes WireCommon MsgTx ScriptNum ScriptStack Script SigHash Engine EngineSafe EngineStep.
From stdpp Require Import list gmap.
#[local] Open Scope Z_scope.

(** ** Strict DER *)

(** An integer that is not negative, in the minimal number of bytes; zero is one zero byte. *)
Definition der_int (v : bytes) : Prop :=
  match v with
  | [] => False
  | b :: w => b < 128 /\ (b = 0 -> match w with [] => True | c :: _ => 128 <= c end)
  end.

(** The encoding of a signature. *)
Definition der (r s : bytes) : bytes :=
  0x30 :: Z.of_nat (4 + length r + length s) :: 0x02 :: Z.of_nat (length r) :: r ++
  0x02 :: Z.of_nat (length s) :: s.

(** The guards of [strict_der] on a string that is cut at the lengths it gives. *)
Section cut.
Context (s0 s1 s2 m : Z) (r s : bytes).
Let sig : bytes := s0 :: s1 :: s2 :: Z.of_nat (length r) :: r ++ m :: Z.of_nat (length s) :: s.

Lemma cut_length : Z.of_nat (length sig) = Z.of_nat (length r) + Z.of_nat (length s) + 6.
Proof. unfold sig. cbn [length]. rewrite length_app. cbn [length]. lia. Qed.

Lemma cut_lookup j : sig !! (4 + j)%nat = (r ++ m :: Z.of_nat (length s) :: s) !! j.
Proof. reflexivity. Qed.

Lemma cut_r i : (i < length r)%nat -> sig_at sig (Z.of_nat i + 4) = or_panic (r !! i).
Proof.
  intros Hi. unfold sig_at. replace (Z.to_nat (Z.of_nat i + 4)) with (4 + i)%nat by lia.
  by rewrite cut_lookup, lookup_app_l.
Qed.

Lemma cut_after i : sig_at sig (Z.of_nat (length r) + 4 + Z.of_nat i) =
  or_panic ((m :: Z.of_nat (length s) :: s) !! i).
Proof.
  unfold sig_at. replace (Z.to_nat (Z.of_nat (length r) + 4 + Z.of_nat i)) with (4 + (length r + i))%nat by lia.
  rewrite cut_lookup, lookup_app_r by lia. do 2 f_equal. lia.
Qed.

Lemma cut_tail : z_slice (E := scriptError) sig (Z.of_nat (length r) + 6)
  (Z.of_nat (length r) + 6 + Z.of_nat (length s)) = Ok s.
Proof.
  pose proof (z_slice_app (E := scriptError) ([s0; s1; s2; Z.of_nat (length r)] ++ r ++ [m; Z.of_nat (length s)]) s []) as H.
  rewrite app_nil_r, <- !app_assoc in H. apply H; rewrite ?length_app; cbn [length]; lia.
Qed.

(** The first byte and the second of a number. *)
Definition positive (v : bytes) : bool := Z.land (byte_at v 0) 0x80 =? 0.
Definition padded (v : bytes) : bool := (1 <? length v)%nat && (byte_at v 0 =? 0) && (Z.land (byte_at v 1) 0x80 =? 0).

(** The guards, in their order. *)
Definition cut_ok : bool :=
  let len := Z.of_nat (length sig) in
  let rLen := Z.of_nat (length r) in
  let sLen := Z.of_nat (length s) in
  negb (len <? 8) && (negb (len >? 72) && (negb (negb (s0 =? 0x30)) && (negb (negb (s1 =? len - 2)) &&
  (negb (rLen + 5 >? len) && (negb (negb (rLen + sLen + 6 =? len)) && (negb (negb (s2 =? 0x02)) &&
  (negb (rLen =? 0) && (negb (negb (positive r)) && (negb (padded r) && (negb (negb (m =? 0x02)) &&
  (negb (sLen =? 0) && (negb (negb (positive s)) && (negb (padded s) && true))))))))))))).

End cut.

Lemma guard_bind {B} b (e : scriptError) (k : unit -> res scriptError B) : (guard_err b e ≫= k) = if b then Err e else k tt.
Proof. by destruct b. Qed.

(** A guard that a malformed byte string does not pass. *)
Lemma guard_step {B} b (k : unit -> res scriptError B) (ok : bool) R :
  (b = false -> k tt = if ok then R else Err MalformedSignature) ->
  (guard_err b MalformedSignature ≫= k) = if negb b && ok then R else Err MalformedSignature.
Proof. intros H. rewrite guard_bind. destruct b; [done|]. by apply H. Qed.

Lemma byte_lookup (v : bytes) i : (i < length v)%nat -> or_panic (E := scriptError) (v !! i) = Ok (byte_at v i).
Proof.
  intros Hi. destruct (lookup_lt_is_Some_2 v i Hi) as [x Hx]. rewrite Hx. cbn. f_equal.
  unfold byte_at. symmetry. by apply nth_lookup_Some.
Qed.

(** A number that is not too long in its own encoding. *)
Lemma padded_step {B} sig (v : bytes) off (k : unit -> res scriptError B) (ok : bool) R :
  (forall i, (i < length v)%nat -> sig_at sig (off + Z.of_nat i) = Ok (byte_at v i)) ->
  (k tt = if ok then R else Err MalformedSignature) ->
  ((if (Z.of_nat (length v) >? 1) && (byte_at v 0 =? 0x00)
    then s5 ← sig_at sig (off + 1); guard_err (Z.land s5 0x80 =? 0) MalformedSignature else Ok tt) ≫= k) =
  if negb (padded v) && ok then R else Err MalformedSignature.
Proof.
  intros Hv Hk. unfold padded. rewrite Z.gtb_ltb.
  destruct (Z.ltb_spec 1 (Z.of_nat (length v))), (Nat.ltb_spec 1 (length v)); try lia; cbn [andb negb]; [|done].
  destruct (byte_at v 0 =? 0); cbn [andb negb]; [|done]. change 1 with (Z.of_nat 1) at 1. rewrite Hv by lia.
  cbn [mbind res_bind]. apply guard_step. done.
Qed.

Lemma strict_der_cut s0 s1 s2 m r s lowS :
  strict_der lowS (s0 :: s1 :: s2 :: Z.of_nat (length r) :: r ++ m :: Z.of_nat (length s) :: s) =
  if cut_ok s0 s1 s2 m r s then guard_err (lowS && (get_be s >? halfOrder)) ErrStackInvalidLowSSignature
  else Err MalformedSignature.
Proof.
  pose proof (cut_length s0 s1 s2 m r s) as Hlen. pose proof (cut_r s0 s1 s2 m r s) as Hr.
  pose proof (cut_after s0 s1 s2 m r s) as Ha. pose proof (cut_tail s0 s1 s2 m r s) as Ht.
  unfold cut_ok. set (sig := s0 :: s1 :: s2 :: _) in *.
  assert (E0 : sig_at sig 0 = Ok s0) by reflexivity. assert (E1 : sig_at sig 1 = Ok s1) by reflexivity.
  assert (E2 : sig_at sig 2 = Ok s2) by reflexivity. assert (E3 : sig_at sig 3 = Ok (Z.of_nat (length r))) by reflexivity.
  assert (Em : sig_at sig (Z.of_nat (length r) + 4) = Ok m)
    by (rewrite <- (Z.add_0_r (_ + 4)); apply (Ha 0%nat)).
  assert (El : sig_at sig (Z.of_nat (length r) + 5) = Ok (Z.of_nat (length s)))
    by (replace (Z.of_nat (length r) + 5) with (Z.of_nat (length r) + 4 + Z.of_nat 1) by lia; apply Ha).
  clearbody sig. unfold strict_der. cbv zeta. do 2 (apply guard_step; intros _).
  rewrite E0. apply guard_step; intros _. rewrite E1. apply guard_step; intros _.
  rewrite E3. apply guard_step; intros _. cbn [mbind res_bind]. rewrite El. do 1 (apply guard_step; intros _).
  rewrite E2. apply guard_step; intros _. apply guard_step; intros Hr0.
  assert (Hpos : (0 < length r)%nat) by (apply Z.eqb_neq in Hr0; lia).
  assert (Hr' : forall i, (i < length r)%nat -> sig_at sig (4 + Z.of_nat i) = Ok (byte_at r i)).
  { intros i Hi. rewrite Z.add_comm, Hr by done. by apply byte_lookup. }
  change (sig_at sig 4) with (sig_at sig (4 + Z.of_nat 0)). rewrite Hr' by done. cbn [mbind res_bind].
  apply guard_step; intros _. apply (padded_step sig r 4); [done|].
  rewrite Em. apply guard_step; intros _. apply guard_step; intros Hs0.
  assert (Hs' : forall i, (i < length s)%nat -> sig_at sig (Z.of_nat (length r) + 6 + Z.of_nat i) = Ok (byte_at s i)).
  { intros i Hi. replace (Z.of_nat (length r) + 6 + Z.of_nat i) with (Z.of_nat (length r) + 4 + Z.of_nat (S (S i))) by lia.
    rewrite Ha. exact (byte_lookup s i Hi). }
  pose proof (Hs' 0%nat) as Hs1. rewrite Z.add_0_r in Hs1. rewrite Hs1 by (apply Z.eqb_neq in Hs0; lia).
  cbn [mbind res_bind]. apply guard_step; intros _.
  replace (Z.of_nat (length r) + 7) with (Z.of_nat (length r) + 6 + 1) by lia.
  apply (padded_step sig s (Z.of_nat (length r) + 6)); [done|]. rewrite Ht. by destruct lowS.
Qed.

Lemma der_int_checks v : is_bytes v ->
  der_int v <-> (length v =? 0)%nat = false /\ positive v = true /\ padded v = false.
Proof.
  intros Hv. destruct v as [|b w]; [cbn; naive_solver|]. apply Forall_cons_1 in Hv as [Hb Hw].
  unfold positive, padded, byte_at. cbn [nth length der_int]. rewrite sign_bit by done.
  destruct w as [|c w].
  - cbn. rewrite Z.ltb_lt. naive_solver.
  - apply Forall_cons_1 in Hw as [Hc _]. rewrite sign_bit by done. cbn [nth length Nat.eqb Nat.ltb Nat.leb andb].
    rewrite Z.ltb_lt, andb_false_iff, Z.eqb_neq, Z.ltb_ge. destruct (Z.eq_dec b 0); naive_solver.
Qed.

Lemma cut_ok_der s0 s1 s2 m r s : is_bytes r -> is_bytes s ->
  cut_ok s0 s1 s2 m r s = true <->
  s0 = 0x30 /\ s1 = Z.of_nat (4 + length r + length s) /\ s2 = 0x02 /\ m = 0x02 /\ der_int r /\ der_int s /\
  Z.of_nat (length r + length s + 6) <= 72.
Proof.
  intros Hr Hs. rewrite (der_int_checks r Hr), (der_int_checks s Hs). unfold cut_ok. cbv zeta.
  rewrite cut_length, !negb_involutive, !andb_true_iff, !negb_true_iff, !Z.eqb_eq, !Z.eqb_neq, !Z.ltb_ge,
    !Nat.eqb_neq, !Z.gtb_ltb, !Z.ltb_ge.
  split; intros H; destruct_and!; split_and!; done || lia.
Qed.

(** A string of at least eight bytes whose lengths add up is cut at them. *)
Lemma cut_exists sig rLen sLen : is_bytes sig -> (8 <= length sig)%nat ->
  sig !! 3%nat = Some rLen -> sig !! Z.to_nat (rLen + 5) = Some sLen -> rLen + sLen + 6 = Z.of_nat (length sig) ->
  exists s0 s1 s2 m r s, sig = s0 :: s1 :: s2 :: Z.of_nat (length r) :: r ++ m :: Z.of_nat (length s) :: s /\
    is_bytes r /\ is_bytes s.
Proof.
  intros Hb Hl H3 H5 Hlen. pose proof (Forall_lookup_1 _ _ _ _ Hb H3) as Hr. pose proof (Forall_lookup_1 _ _ _ _ Hb H5) as Hs.
  unfold is_u8 in Hr, Hs. destruct sig as [|s0 [|s1 [|s2 [|s3 t]]]]; try (cbn in Hl; lia). cbn in H3. simplify_eq.
  replace (Z.to_nat (rLen + 5)) with (4 + (Z.to_nat rLen + 1))%nat in H5 by lia.
  change ((s0 :: s1 :: s2 :: rLen :: t) !! (4 + (Z.to_nat rLen + 1))%nat) with (t !! (Z.to_nat rLen + 1)%nat) in H5.
  cbn [length] in Hlen. destruct (lookup_lt_is_Some_2 t (Z.to_nat rLen)) as [m Hm]; [lia|].
  exists s0, s1, s2, m, (take (Z.to_nat rLen) t), (drop (S (S (Z.to_nat rLen))) t).
  do 4 (apply Forall_cons_1 in Hb as [_ Hb]). rewrite length_take, length_drop.
  split_and!; [|by apply Forall_take|by apply Forall_drop].
  replace (Z.of_nat (Z.to_nat rLen `min` length t)) with rLen by lia.
  replace (Z.of_nat (length t - S (S (Z.to_nat rLen)))) with sLen by lia. do 4 f_equal.
  rewrite Nat.add_1_r in H5. rewrite <- (drop_S t sLen (S (Z.to_nat rLen)) H5), <- (drop_S t m (Z.to_nat rLen) Hm).
  symmetry. apply take_drop.
Qed.

(** The guards before the lengths are known to add up. *)
Lemma strict_der_start lowS sig : (8 <= length sig <= 72)%nat -> exists s0 s1 rLen,
  sig !! 0%nat = Some s0 /\ sig !! 1%nat = Some s1 /\ sig !! 3%nat = Some rLen /\
  ((s0 <> 0x30 \/ s1 <> Z.of_nat (length sig) - 2 \/ Z.of_nat (length sig) < rLen + 5) /\
     strict_der lowS sig = Err MalformedSignature \/
   s0 = 0x30 /\ s1 = Z.of_nat (length sig) - 2 /\ rLen + 5 <= Z.of_nat (length sig) /\
   match sig !! Z.to_nat (rLen + 5) with
   | None => strict_der lowS sig = Panic
   | Some sLen => rLen + sLen + 6 <> Z.of_nat (length sig) -> strict_der lowS sig = Err MalformedSignature
   end).
Proof.
  intros Hl. destruct sig as [|s0 [|s1 [|s2 [|rLen t]]]]; try (cbn in Hl; lia). set (sig := s0 :: _) in *.
  exists s0, s1, rLen. split_and!; [done..|]. unfold strict_der. cbv zeta.
  assert (E0 : sig_at sig 0 = Ok s0) by reflexivity. assert (E1 : sig_at sig 1 = Ok s1) by reflexivity.
  assert (E3 : sig_at sig 3 = Ok rLen) by reflexivity. clearbody sig.
  rewrite !guard_bind. destruct (Z.ltb_spec (Z.of_nat (length sig)) 8); [lia|].
  rewrite Z.gtb_ltb. destruct (Z.ltb_spec 72 (Z.of_nat (length sig))); [lia|].
  rewrite E0. cbn [mbind res_bind]. rewrite guard_bind. destruct (Z.eqb_spec s0 0x30); cbn [negb]; [|left; split; [auto|done]].
  rewrite E1. cbn [mbind res_bind]. rewrite guard_bind. destruct (Z.eqb_spec s1 (Z.of_nat (length sig) - 2)); cbn [negb]; [|left; split; [auto|done]].
  rewrite E3. cbn [mbind res_bind]. rewrite guard_bind, Z.gtb_ltb.
  destruct (Z.ltb_spec (Z.of_nat (length sig)) (rLen + 5)); [left; split; [auto|done]|]. right. split_and!; [done..|].
  change (sig_at sig (rLen + 5)) with (or_panic (E := scriptError) (sig !! Z.to_nat (rLen + 5))). destruct (sig !! Z.to_nat (rLen + 5)) as [sLen|]; cbn [or_panic mbind res_bind]; [|done].
  intros Hne. rewrite guard_bind. destruct (Z.eqb_spec (rLen + sLen + 6) (Z.of_nat (length sig))); done.
Qed.

Lemma strict_der_long lowS sig : ~ (8 <= length sig <= 72)%nat -> strict_der lowS sig = Err MalformedSignature.
Proof.
  intros Hl. unfold strict_der. cbv zeta. rewrite !guard_bind, Z.gtb_ltb.
  destruct (Z.ltb_spec (Z.of_nat (length sig)) 8); [done|].
  destruct (Z.ltb_spec 72 (Z.of_nat (length sig))); [done|lia].
Qed.

Lemma der_bytes r s : is_bytes (der r s) -> is_bytes r /\ is_bytes s.
Proof.
  intros H. unfold der in H. do 4 (apply Forall_cons_1 in H as [_ H]). apply Forall_app in H as [Hr H].
  do 2 (apply Forall_cons_1 in H as [_ H]). done.
Qed.

Lemma strict_der_accepts lowS r s : is_bytes (der r s) -> der_int r -> der_int s -> (length (der r s) <= 72)%nat ->
  (lowS = true -> get_be s <= halfOrder) -> strict_der lowS (der r s) = Ok tt.
Proof.
  intros Hb Hir His Hl Hlow. destruct (der_bytes r s Hb) as [Hr Hs]. unfold der in *. rewrite strict_der_cut.
  assert (cut_ok 48 (Z.of_nat (4 + length r + length s)) 2 2 r s = true) as ->.
  { apply cut_ok_der; try done. split_and!; try done. cbn [length] in Hl. rewrite length_app in Hl. cbn [length] in Hl. lia. }
  destruct lowS; [|done]. cbn [andb]. rewrite Z.gtb_ltb. destruct (Z.ltb_spec halfOrder (get_be s)); [|done].
  specialize (Hlow eq_refl). lia.
Qed.

(** Where the result is neither success nor a panic. *)
Lemma strict_der_ok_form lowS sig : is_bytes sig -> strict_der lowS sig = Ok tt ->
  exists r s, sig = der r s /\ der_int r /\ der_int s /\ (length sig <= 72)%nat /\ (lowS = true -> get_be s <= halfOrder).
Proof.
  intros Hb H. destruct (decide (8 <= length sig <= 72)%nat) as [Hl|Hl]; [|by rewrite strict_der_long in H].
  destruct (strict_der_start lowS sig Hl) as (s0 & s1 & rLen & _ & _ & H3 & [[_ He]|(-> & -> & Hr & Hs)]); [congruence|].
  destruct (sig !! Z.to_nat (rLen + 5)) as [sLen|] eqn:H5; [|congruence].
  destruct (Z.eq_dec (rLen + sLen + 6) (Z.of_nat (length sig))) as [Hsum|Hsum]; [|specialize (Hs Hsum); congruence].
  destruct (cut_exists sig rLen sLen Hb ltac:(lia) H3 H5 Hsum) as (a0 & a1 & a2 & m & r & s & -> & Hbr & Hbs).
  rewrite strict_der_cut in H. destruct (cut_ok a0 a1 a2 m r s) eqn:Hc; [|done].
  apply cut_ok_der in Hc as (-> & -> & -> & -> & Hir & His & _); [|done|done]. exists r, s.
  split_and!; [done..|lia|]. intros ->. cbn [andb] in H. rewrite Z.gtb_ltb in H.
  destruct (Z.ltb_spec halfOrder (get_be s)); [done|lia].
Qed.

Lemma strict_der_panic lowS sig : is_bytes sig -> (8 <= length sig <= 72)%nat -> strict_der lowS sig = Panic <->
  sig !! 0%nat = Some 0x30 /\ sig !! 1%nat = Some (Z.of_nat (length sig) - 2) /\
  sig !! 3%nat = Some (Z.of_nat (length sig) - 5).
Proof.
  intros Hb Hl. destruct (strict_der_start lowS sig Hl) as (s0 & s1 & rLen & -> & -> & H3 & [[Hne ->]|(-> & -> & Hr & Hs)]).
  { rewrite H3. split; [done|]. intros (? & ? & ?). simplify_eq. lia. }
  destruct (sig !! Z.to_nat (rLen + 5)) as [sLen|] eqn:H5.
  - rewrite H3. pose proof (Forall_lookup_1 _ _ _ _ Hb H3) as Hr'. unfold is_u8 in Hr'. pose proof (lookup_lt_Some _ _ _ H5).
    split; [|intros (_ & _ & [= ?]); lia]. intros Hp.
    destruct (Z.eq_dec (rLen + sLen + 6) (Z.of_nat (length sig))) as [Hsum|Hsum]; [|specialize (Hs Hsum); congruence].
    destruct (cut_exists sig rLen sLen Hb ltac:(lia) H3 H5 Hsum) as (a0 & a1 & a2 & m & r & s & -> & _ & _).
    rewrite strict_der_cut in Hp. destruct (cut_ok a0 a1 a2 m r s); [|done]. by destruct (lowS && _).
  - rewrite H3, Hs. apply lookup_ge_None in H5. pose proof (Forall_lookup_1 _ _ _ _ Hb H3) as Hr'. unfold is_u8 in Hr'.
    split; [|done]. intros _. split_and!; [done..|]. f_equal. lia.
Qed.

(** C27: the check of signature encodings accepts exactly the strict DER encodings of two
    integers that are not negative, of at most 72 bytes in all, with an [S] of at most half
    the group order when that is asked for; zero, as a single zero byte, is accepted for
    either integer.  It panics on exactly the strings of 8 to 72 bytes whose header and
    total length are right and whose length of [R] leaves no byte for the length of [S];
    everything else is an error. *)
Theorem strict_der_spec (lowS : bool) (sig : bytes) :
  is_bytes sig ->
  (strict_der lowS sig = Ok tt <->
     exists r s, sig = der r s /\ der_int r /\ der_int s /\ (length sig <= 72)%nat /\
       (lowS = true -> get_be s <= halfOrder)) /\
  (strict_der lowS sig = Panic <->
     (8 <= length sig <= 72)%nat /\ sig !! 0%nat = Some 0x30 /\
     sig !! 1%nat = Some (Z.of_nat (length sig) - 2) /\ sig !! 3%nat = Some (Z.of_nat (length sig) - 5)).
Proof.
  intros Hb. split; split.
  - by apply strict_der_ok_form.
  - intros (r & s & -> & Hr & Hs & Hl & Hlow). by apply strict_der_accepts.
  - intros Hp. destruct (decide (8 <= length sig <= 72)%nat) as [Hl|Hl]; [|by rewrite strict_der_long in Hp].
    split; [done|]. by apply (strict_der_panic lowS).
  - intros [Hl H]. by apply strict_der_panic.
Qed.

Lemma strict_der_spec_witness :
  strict_der true (der [1] [2]) = Ok tt /\ strict_der true (der [0] [0]) = Ok tt /\ strict_der false [0x30; 6; 2; 3; 1; 1; 1; 1] = Panic.
Proof.
  split; [|split].
  - apply (strict_der_spec true (der [1] [2])); [by apply bytes_b|]. exists [1], [2].
    split; [reflexivity|]. split; [done|]. split; [done|]. split; [cbn; lia|]. intros _. by vm_compute.
  - apply (strict_der_spec true (der [0] [0])); [by apply bytes_b|]. exists [0], [0].
    split; [reflexivity|]. split; [done|]. split; [done|]. split; [cbn; lia|]. intros _. by vm_compute.
  - apply (strict_der_spec false [0x30; 6; 2; 3; 1; 1; 1; 1]); [by apply bytes_b|]. split; [cbn; lia|done].
Defined.
