(* ===== verification/EngineCond.v ===== *)
(** * Conditionals

    The engine runs OP_IF, OP_NOTIF, OP_ELSE and OP_ENDIF with a stack of flags, and skips
    opcodes while the last flag is not set.  A structured program has branches instead; its
    meaning runs one branch and only counts the opcodes of the others.  The engine on the
    flattened program refines that meaning. *)

From S2P Require Import Prelude Opcodes WireCommon MsgTx ScriptNum ScriptStack Script SigHash Engine EngineSafe EngineStep.
From stdpp Require Import list gmap.
#[local] Open Scope Z_scope.

Section cond.
Context `{Env : ScriptEnv}.
Implicit Types vm : Engine.
Notation M := (stM Engine scriptError).

(** ** Methods that do not look at the conditional stack *)

Definition with_cond {A} (cs : list Z) (r : res scriptError (A * Engine)) : res scriptError (A * Engine) :=
  '(a, vm) ← r; Ok (a, set_condStack cs vm).

Definition cond_free {A} (m : M A) : Prop :=
  forall cs vm, m (set_condStack cs vm) = with_cond cs (m vm).

Lemma cf_ret {A} (a : A) : cond_free (mret a).
Proof. done. Qed.

Lemma cf_throw {A} e : cond_free (A := A) (throw e).
Proof. done. Qed.

Lemma cf_lift {A} (r : res scriptError A) : cond_free (lift r).
Proof. intros cs vm. by destruct r. Qed.

Lemma cf_bind {A B} (m : M A) (k : A -> M B) : cond_free m -> (forall a, cond_free (k a)) -> cond_free (m ≫= k).
Proof.
  intros Hm Hk cs vm. unfold mbind, stM_bind. rewrite Hm. destruct (m vm) as [[a vm1]|e|]; cbn; [|done|done].
  apply Hk.
Qed.

Lemma cf_gets {A} (f : Engine -> A) : (forall cs vm, f (set_condStack cs vm) = f vm) -> cond_free (gets f).
Proof. intros Hf cs vm. unfold gets. by rewrite Hf. Qed.

Lemma cf_modify f : (forall cs vm, f (set_condStack cs vm) = set_condStack cs (f vm)) -> cond_free (modify f).
Proof. intros Hf cs vm. unfold modify. by rewrite Hf. Qed.

Lemma cf_on_dstack {A} (m : stM (stack slice) scriptError A) : cond_free (on_dstack m).
Proof. intros cs vm. unfold on_dstack. cbn. by destruct (m (dstack vm)) as [[a s]|e|]. Qed.

Lemma cf_on_astack {A} (m : stM (stack slice) scriptError A) : cond_free (on_astack m).
Proof. intros cs vm. unfold on_astack. cbn. by destruct (m (astack vm)) as [[a s]|e|]. Qed.

Lemma cf_when b e : cond_free (when_err b e).
Proof. by destruct b. Qed.

Lemma cf_alloc b cap : cond_free (alloc b cap).
Proof. done. Qed.

Lemma cf_input_sequence : cond_free input_sequence.
Proof. intros cs vm. unfold input_sequence. cbn. by destruct (tx_TxIn (tx vm) !! txIdx vm). Qed.

Lemma cf_subScript : cond_free subScript.
Proof.
  intros cs vm. unfold subScript. cbn. destruct (scripts vm !! scriptIdx vm); [|done]. cbn. by destruct (_ <=? _)%nat.
Qed.

Lemma cf_calc_hash s h p : cond_free (calc_hash s h p).
Proof. intros cs vm. unfold calc_hash. cbn. by destruct (calcSignatureHash _ _ _ _ _ _ _ _). Qed.

(** One step of the search. *)
Ltac cf_step :=
  match goal with
  | |- cond_free (_ ≫= _) => apply cf_bind; [|intros ?]
  | |- cond_free (mret _) => apply cf_ret
  | |- cond_free (throw _) => apply cf_throw
  | |- cond_free (lift _) => apply cf_lift
  | |- cond_free (gets _) => apply cf_gets; reflexivity
  | |- cond_free (modify _) => apply cf_modify; reflexivity
  | |- cond_free (on_dstack _) => apply cf_on_dstack
  | |- cond_free (on_astack _) => apply cf_on_astack
  | |- cond_free (when_err _ _) => apply cf_when
  | |- cond_free (alloc _ _) => apply cf_alloc
  | |- cond_free input_sequence => apply cf_input_sequence
  | |- cond_free subScript => apply cf_subScript
  | |- cond_free (calc_hash _ _ _) => apply cf_calc_hash
  | |- cond_free (if ?b then _ else _) => destruct b
  | |- cond_free (match ?x with _ => _ end) => destruct x
  | |- cond_free (let _ := _ in _) => cbv zeta
  | |- cond_free ?h => progress (let h' := eval red in h in change (cond_free h'))
  end.

Lemma cf_multisig_loop fuel s pks : forall infos nk ns ki si, cond_free (multisig_loop fuel s pks infos nk ns ki si).
Proof.
  induction fuel as [|fuel IH]; intros; cbn [multisig_loop]; destruct (_ >? 0); try apply cf_ret; try apply cf_throw.
  cbv zeta. destruct (_ >? _); [apply cf_ret|]. do 2 (apply cf_bind; [apply cf_lift|intros ?]).
  apply cf_bind; [|intros [[] ?]; apply IH]. repeat cf_step.
Qed.

Lemma cf_pop_n n : cond_free (pop_n n).
Proof.
  induction n as [|n IH]; cbn [pop_n]; [apply cf_ret|]. apply cf_bind; [repeat cf_step|]. intros b.
  apply cf_bind; [apply IH|]. intros l. apply cf_ret.
Qed.

Lemma cf_pop_all n : cond_free (pop_all n).
Proof. intros cs vm. unfold pop_all. destruct (n <? 0); [done|]. apply cf_pop_n. Qed.

Lemma cf_remove_all s l : cond_free (remove_all s l).
Proof.
  revert s. induction l as [|x l IH]; intros s; cbn [remove_all]; [apply cf_ret|].
  apply cf_bind; [repeat cf_step|]. intros s'. apply IH.
Qed.

Lemma cf_multisig : cond_free opcodeCheckMultiSig.
Proof.
  unfold opcodeCheckMultiSig. apply cf_bind; [repeat cf_step|]. intros n. cbv zeta.
  do 2 (apply cf_bind; [repeat cf_step|]; intros ?). apply cf_bind; [apply cf_pop_all|]. intros pks.
  do 3 (apply cf_bind; [repeat cf_step|]; intros ?). apply cf_bind; [apply cf_pop_all|]. intros sigs.
  apply cf_bind; [apply cf_subScript|]. intros s. apply cf_bind; [apply cf_remove_all|]. intros s'.
  apply cf_bind; [apply cf_multisig_loop|]. intros v. repeat cf_step.
Qed.

Lemma cf_handlers op : is_cond_func (op_func (pop_op op)) = false -> cond_free (call_opfunc op).
Proof.
  intros Hc. unfold call_opfunc. destruct (op_func (pop_op op)); try discriminate Hc;
    try (by repeat cf_step).
  - apply cf_multisig.
  - apply cf_bind; [apply cf_multisig|]. intros ?. repeat cf_step.
Qed.

(** ** Structured programs *)

Notation opcode_of := (parsedOpcode slice).

(** A conditional has a first branch and any number of branches that OP_ELSE starts. *)
Inductive prog :=
| Done
| Plain (op : opcode_of) (k : prog)
| Cond (opIf : opcode_of) (first : prog) (rest : arms) (opEndif : opcode_of) (k : prog)
with arms :=
| NoArm
| Arm (opElse : opcode_of) (body : prog) (more : arms).

Fixpoint flatten (p : prog) : list opcode_of :=
  match p with
  | Done => []
  | Plain op k => op :: flatten k
  | Cond i f r e k => i :: flatten f ++ flatten_arms r ++ e :: flatten k
  end
with flatten_arms (a : arms) : list opcode_of :=
  match a with
  | NoArm => []
  | Arm o b m => o :: flatten b ++ flatten_arms m
  end.

(** Every opcode is checked and counted, also where it is not executed. *)
Definition tick (op : opcode_of) : M unit :=
  if isDisabled op then throw ErrStackOpDisabled
  else if alwaysIllegal op then throw ErrStackReservedOpcode
  else count_op op.

Fixpoint skip (l : list opcode_of) : M unit :=
  match l with
  | [] => mret tt
  | op :: l => _ ← tick op; skip l
  end.

Definition minimal_push (op : opcode_of) : M unit := fun vm =>
  if verifyMinimalData (dstack vm) && (pop_value op <=? OP_PUSHDATA4)
  then _ ← checkMinimalDataPush (read (heap vm)) op; Ok (tt, vm)
  else Ok (tt, vm).

Definition plain (op : opcode_of) : M unit := _ ← tick op; _ ← minimal_push op; call_opfunc op.

(** The test of OP_IF and OP_NOTIF. *)
Definition taken (opIf : opcode_of) (v : bool) : bool := if pop_value opIf =? OP_NOTIF then negb v else v.

(** The meaning; [prev] says whether the branch before was the one taken. *)
Fixpoint run (p : prog) : M unit :=
  match p with
  | Done => mret tt
  | Plain op k => _ ← plain op; run k
  | Cond i f r e k =>
      _ ← tick i;
      v ← popBool;
      _ ← (if taken i v then run f else skip (flatten f));
      _ ← run_arms (taken i v) r;
      _ ← tick e;
      run k
  end
with run_arms (prev : bool) (a : arms) : M unit :=
  match a with
  | NoArm => mret tt
  | Arm o b m =>
      _ ← tick o;
      _ ← (if negb prev then run b else skip (flatten b));
      run_arms (negb prev) m
  end.

(** The engine on a list of opcodes. *)
Fixpoint exec (l : list opcode_of) : M unit :=
  match l with
  | [] => mret tt
  | op :: l => _ ← executeOpcode op; exec l
  end.

(** The opcodes are entries of the table, in the places the constructors give them. *)
Definition entry (op : opcode_of) : Prop := is_u8 (pop_value op) /\ pop_op op = opcode_at (pop_value op).

Fixpoint wf (p : prog) : Prop :=
  match p with
  | Done => True
  | Plain op k => entry op /\ isConditional op = false /\ wf k
  | Cond i f r e k =>
      entry i /\ (pop_value i = OP_IF \/ pop_value i = OP_NOTIF) /\ wf f /\ wf_arms r /\
      entry e /\ pop_value e = OP_ENDIF /\ wf k
  end
with wf_arms (a : arms) : Prop :=
  match a with
  | NoArm => True
  | Arm o b m => entry o /\ pop_value o = OP_ELSE /\ wf b /\ wf_arms m
  end.

(** ** The simulation *)

(** With the flags [cs] the first method does what the second does, and leaves the flags
    [cs']. *)
Definition sim {A} (cs cs' : list Z) (m1 m2 : M A) : Prop :=
  forall vm, m1 (set_condStack cs vm) = with_cond cs' (m2 vm).

Lemma sim_bind {A B} cs cs1 cs2 (m1 m2 : M A) (k1 k2 : A -> M B) :
  sim cs cs1 m1 m2 -> (forall a, sim cs1 cs2 (k1 a) (k2 a)) -> sim cs cs2 (m1 ≫= k1) (m2 ≫= k2).
Proof.
  intros Hm Hk vm. unfold mbind, stM_bind. rewrite (Hm vm). destruct (m2 vm) as [[a vm1]|e|]; cbn; [|done|done].
  apply Hk.
Qed.

Lemma sim_ret {A} cs (a : A) : sim cs cs (mret a) (mret a).
Proof. done. Qed.

Lemma cf_tick op : cond_free (tick op).
Proof. unfold tick, count_op. repeat cf_step. Qed.

Lemma cf_minimal_push op : cond_free (minimal_push op).
Proof.
  intros cs vm. unfold minimal_push. cbn. destruct (_ && _); [|done].
  destruct (minimal_push_result (read (heap vm)) op) as [-> | ->]; done.
Qed.

Definition executing (cs : list Z) : bool := match last cs with None => true | Some c => c =? OpCondTrue end.

Definition cond_table (v : Z) : bool :=
  eqb (is_cond_func (op_func (opcode_at v)))
    ((v =? OP_IF) || (v =? OP_NOTIF) || (v =? OP_ELSE) || (v =? OP_ENDIF)).

Lemma entry_cond op : entry op -> is_cond_func (op_func (pop_op op)) = isConditional op.
Proof.
  intros [Hv ->]. assert (H : forallb cond_table (Z.of_nat <$> seq 0 256) = true) by (vm_compute; reflexivity).
  rewrite forallb_forall in H. apply eqb_prop, H, list_elem_of_In, list_elem_of_fmap. exists (Z.to_nat (pop_value op)).
  unfold is_u8 in Hv. split; [lia|]. apply elem_of_seq. lia.
Qed.

(** [executeOpcode] from the checks, with the flags that are set. *)
Lemma execute_tick op cs vm : executeOpcode op (set_condStack cs vm) =
  ('(_, vm1) ← tick op vm;
   if negb (executing cs) && negb (isConditional op) then Ok (tt, set_condStack cs vm1)
   else (_ ← check_minimal op; call_opfunc op) (set_condStack cs vm1)).
Proof.
  unfold executeOpcode, tick. destruct (isDisabled op); [done|]. destruct (alwaysIllegal op); [done|].
  assert (Hc : cond_free (count_op op)) by (unfold count_op; repeat cf_step).
  unfold mbind at 1, stM_bind at 1. rewrite (Hc cs vm). destruct (count_op op vm) as [[[] vm1]|e|]; cbn [with_cond mbind res_bind]; [|done|done].
  rewrite gets_bind. change (isBranchExecuting (set_condStack cs vm1)) with (executing cs). by destruct (_ && _).
Qed.

Lemma sim_skip op cs : executing cs = false -> isConditional op = false -> sim cs cs (executeOpcode op) (tick op).
Proof.
  intros He Hc vm. rewrite execute_tick, He, Hc. cbn [negb andb]. by destruct (tick op vm) as [[[] vm1]|e|].
Qed.

Lemma sim_plain op cs : executing cs = true -> entry op -> isConditional op = false ->
  sim cs cs (executeOpcode op) (plain op).
Proof.
  intros He Hop Hc vm. rewrite execute_tick, He. cbn [negb andb]. unfold plain.
  destruct (tick op vm) as [[[] vm1]|e|] eqn:E; cbn [mbind res_bind];
    [rewrite (stM_step _ _ _ _ _ E)|by rewrite (stM_step_err _ _ _ _ E)|by rewrite (stM_step_panic _ _ _ E)].
  assert (Hm : check_minimal op (set_condStack cs vm1) = minimal_push op (set_condStack cs vm1)).
  { unfold check_minimal, minimal_push. change (isBranchExecuting (set_condStack cs vm1)) with (executing cs).
    by rewrite He, andb_true_r. }
  transitivity ((_ ← minimal_push op; call_opfunc op) (set_condStack cs vm1)).
  { unfold mbind, stM_bind. by rewrite Hm. }
  apply (cf_bind (minimal_push op) (fun _ => call_opfunc op)).
  - apply cf_minimal_push.
  - intros _. apply cf_handlers. by rewrite entry_cond.
Qed.

(** A conditional opcode has no data, so its encoding is not looked at. *)
Lemma cond_no_minimal op vm : isConditional op = true -> check_minimal op vm = Ok (tt, vm).
Proof.
  intros Hc. unfold check_minimal. assert (pop_value op <=? OP_PUSHDATA4 = false) as ->.
  { unfold isConditional in Hc. rewrite !orb_true_iff, !Z.eqb_eq in Hc. apply Z.leb_gt.
    destruct Hc as [[[-> | ->]| ->]| ->]; done. }
  by rewrite andb_false_r.
Qed.

Lemma sim_cond op cs cs' : isConditional op = true ->
  sim cs cs' (call_opfunc op) (mret tt) -> sim cs cs' (executeOpcode op) (tick op).
Proof.
  intros Hc Hs vm. rewrite execute_tick, Hc, andb_false_r. destruct (tick op vm) as [[[] vm1]|e|]; cbn [mbind res_bind]; [|done|done].
  rewrite (stM_step _ _ _ _ _ (cond_no_minimal op _ Hc)). apply (Hs vm1).
Qed.

Lemma opcode_entry op v : entry op -> pop_value op = v -> op_func (pop_op op) = op_func (opcode_at v).
Proof. by intros [_ ->] ->. Qed.

Lemma sim_if_skip op cs : executing cs = false -> entry op -> pop_value op = OP_IF \/ pop_value op = OP_NOTIF ->
  sim cs (cs ++ [OpCondSkip]) (executeOpcode op) (tick op).
Proof.
  intros He Hop Hv. apply sim_cond; [unfold isConditional; by destruct Hv as [-> | ->]|]. intros vm. unfold call_opfunc.
  assert (Hb : isBranchExecuting (set_condStack cs vm) = false) by done.
  destruct Hv as [Hv|Hv]; rewrite (opcode_entry _ _ Hop Hv); cbn [opcode_at op_func];
    change (op_func (opcode_at OP_IF)) with F_opcodeIf; change (op_func (opcode_at OP_NOTIF)) with F_opcodeNotIf; cbn beta iota.
  - unfold opcodeIf. by rewrite gets_bind, Hb.
  - unfold opcodeNotIf. by rewrite gets_bind, Hb.
Qed.

Lemma sim_else op cs c : entry op -> pop_value op = OP_ELSE ->
  sim (cs ++ [c]) (cs ++ [flip_cond c]) (executeOpcode op) (tick op).
Proof.
  intros Hop Hv. apply sim_cond; [unfold isConditional; by rewrite Hv|]. intros vm. unfold call_opfunc.
  rewrite (opcode_entry _ _ Hop Hv). change (op_func (opcode_at OP_ELSE)) with F_opcodeElse. cbn beta iota.
  unfold opcodeElse. cbn [condStack set_condStack]. rewrite last_snoc, removelast_last. done.
Qed.

Lemma sim_endif op cs c : entry op -> pop_value op = OP_ENDIF -> sim (cs ++ [c]) cs (executeOpcode op) (tick op).
Proof.
  intros Hop Hv. apply sim_cond; [unfold isConditional; by rewrite Hv|]. intros vm. unfold call_opfunc.
  rewrite (opcode_entry _ _ Hop Hv). change (op_func (opcode_at OP_ENDIF)) with F_opcodeEndif. cbn beta iota.
  unfold opcodeEndif. cbn [condStack set_condStack]. rewrite last_snoc, removelast_last. done.
Qed.

Definition flag (b : bool) : Z := if b then OpCondTrue else OpCondFalse.

Lemma cf_popBool : cond_free popBool.
Proof. repeat cf_step. Qed.

Lemma sim_if op cs cs' (k1 : M unit) (k2 : bool -> M unit) :
  executing cs = true -> entry op -> pop_value op = OP_IF \/ pop_value op = OP_NOTIF ->
  (forall b, sim (cs ++ [flag b]) cs' k1 (k2 b)) ->
  sim cs cs' (_ ← executeOpcode op; k1) (_ ← tick op; v ← popBool; k2 (taken op v)).
Proof.
  intros He Hop Hv Hk vm.
  assert (Hc : isConditional op = true) by (unfold isConditional; by destruct Hv as [-> | ->]).
  assert (Hcall : forall vm, call_opfunc op (set_condStack cs vm) =
    '(v, vm1) ← popBool vm; Ok (tt, set_condStack (cs ++ [flag (taken op v)]) vm1)).
  { intros vm1. assert (Hb : isBranchExecuting (set_condStack cs vm1) = true) by done. unfold call_opfunc, taken.
    destruct Hv as [Hv|Hv]; rewrite Hv, (opcode_entry _ _ Hop Hv);
      change (op_func (opcode_at OP_IF)) with F_opcodeIf; change (op_func (opcode_at OP_NOTIF)) with F_opcodeNotIf; cbn beta iota;
      unfold opcodeIf, opcodeNotIf; rewrite gets_bind, Hb; unfold mbind at 1, stM_bind at 1; rewrite (cf_popBool cs vm1);
      (destruct (popBool vm1) as [[[] vm2]|e|]; done). }
  unfold mbind at 1, stM_bind at 1. rewrite execute_tick, Hc, andb_false_r.
  destruct (tick op vm) as [[[] vm1]|e|] eqn:E; cbn [mbind res_bind];
    [rewrite (stM_step _ _ _ _ _ E)|by rewrite (stM_step_err _ _ _ _ E)|by rewrite (stM_step_panic _ _ _ E)].
  rewrite (stM_step _ _ _ _ _ (cond_no_minimal op _ Hc)), Hcall.
  destruct (popBool vm1) as [[v vm2]|e|] eqn:E1; cbn [mbind res_bind];
    [rewrite (stM_step _ _ _ _ _ E1)|by rewrite (stM_step_err _ _ _ _ E1)|by rewrite (stM_step_panic _ _ _ E1)].
  apply Hk.
Qed.

Lemma stM_bind_assoc {A B C} (m : M A) (f : A -> M B) (g : B -> M C) vm :
  ((m ≫= f) ≫= g) vm = (m ≫= (fun a => f a ≫= g)) vm.
Proof. unfold mbind, stM_bind. by destruct (m vm) as [[a vm1]|e|]. Qed.

Lemma bind_ext {A B} (m : M A) (f g : A -> M B) vm : (forall a vm, f a vm = g a vm) -> (m ≫= f) vm = (m ≫= g) vm.
Proof. intros H. unfold mbind, stM_bind. destruct (m vm) as [[a vm1]|e|]; cbn; [apply H|done|done]. Qed.

(** A fold of a method over a list, on a concatenation. *)
Lemma exec_app l1 l2 vm : exec (l1 ++ l2) vm = (_ ← exec l1; exec l2) vm.
Proof.
  revert vm. induction l1 as [|op l1 IH]; intros vm; [done|]. cbn [app exec]. rewrite stM_bind_assoc.
  apply bind_ext. intros _. apply IH.
Qed.

Lemma skip_app l1 l2 vm : skip (l1 ++ l2) vm = (_ ← skip l1; skip l2) vm.
Proof.
  revert vm. induction l1 as [|op l1 IH]; intros vm; [done|]. cbn [app skip]. rewrite stM_bind_assoc.
  apply bind_ext. intros _. apply IH.
Qed.

Lemma sim_app cs cs1 cs2 l1 l2 (m1 m2 : M unit) : sim cs cs1 (exec l1) m1 -> sim cs1 cs2 (exec l2) m2 ->
  sim cs cs2 (exec (l1 ++ l2)) (_ ← m1; m2).
Proof. intros H1 H2 vm. rewrite exec_app. apply (sim_bind cs cs1 cs2); [done|]. by intros _. Qed.

Lemma sim_skip_app cs cs1 cs2 l1 l2 : sim cs cs1 (exec l1) (skip l1) -> sim cs1 cs2 (exec l2) (skip l2) ->
  sim cs cs2 (exec (l1 ++ l2)) (skip (l1 ++ l2)).
Proof. intros H1 H2 vm. rewrite skip_app. by apply (sim_app cs cs1 cs2). Qed.

Lemma executing_snoc cs b : executing (cs ++ [flag b]) = b.
Proof. unfold executing. rewrite last_snoc. by destruct b. Qed.

Lemma executing_skip cs : executing (cs ++ [OpCondSkip]) = false.
Proof. unfold executing. by rewrite last_snoc. Qed.

Scheme prog_mut := Induction for prog Sort Prop with arms_mut := Induction for arms Sort Prop.

(** A skipped program is counted, and does nothing else. *)
Lemma skip_sim p : wf p -> forall cs, executing cs = false -> sim cs cs (exec (flatten p)) (skip (flatten p)).
Proof.
  apply (prog_mut
    (fun p => wf p -> forall cs, executing cs = false -> sim cs cs (exec (flatten p)) (skip (flatten p)))
    (fun a => wf_arms a -> forall cs, sim (cs ++ [OpCondSkip]) (cs ++ [OpCondSkip])
                                        (exec (flatten_arms a)) (skip (flatten_arms a)))); clear p.
  - intros _ cs _. apply sim_ret.
  - intros op k IH (Hop & Hc & Hk) cs He. apply (sim_bind cs cs cs); [by apply sim_skip|]. intros _. by apply IH.
  - intros i f IHf r IHr e k IHk (Hi & Hv & Hf & Hr & He & Hve & Hk) cs Hcs. cbn [flatten].
    apply (sim_bind cs (cs ++ [OpCondSkip]) cs); [by apply sim_if_skip|]. intros _.
    apply (sim_skip_app _ (cs ++ [OpCondSkip])); [apply IHf; [done|apply executing_skip]|].
    apply (sim_skip_app _ (cs ++ [OpCondSkip])); [by apply IHr|].
    apply (sim_bind _ cs); [by apply sim_endif|]. intros _. by apply IHk.
  - intros _ cs. apply sim_ret.
  - intros o b IHb m IHm (Ho & Hv & Hb & Hm) cs. cbn [flatten_arms].
    apply (sim_bind _ (cs ++ [OpCondSkip])); [by apply sim_else|]. intros _.
    apply (sim_skip_app _ (cs ++ [OpCondSkip])); [apply IHb; [done|apply executing_skip]|]. by apply IHm.
Qed.

Lemma branch_sim p cs (b : bool) : wf p ->
  (forall cs, executing cs = true -> sim cs cs (exec (flatten p)) (run p)) ->
  sim (cs ++ [flag b]) (cs ++ [flag b]) (exec (flatten p)) (if b then run p else skip (flatten p)).
Proof.
  intros Hp Hrun. destruct b; [apply Hrun, executing_snoc|]. apply skip_sim; [done|apply executing_snoc].
Qed.

Lemma run_sim p : wf p -> forall cs, executing cs = true -> sim cs cs (exec (flatten p)) (run p).
Proof.
  apply (prog_mut
    (fun p => wf p -> forall cs, executing cs = true -> sim cs cs (exec (flatten p)) (run p))
    (fun a => wf_arms a -> forall cs prev, exists last,
       sim (cs ++ [flag prev]) (cs ++ [flag last]) (exec (flatten_arms a)) (run_arms prev a))); clear p.
  - intros _ cs _. apply sim_ret.
  - intros op k IH (Hop & Hc & Hk) cs He. apply (sim_bind cs cs cs); [by apply sim_plain|]. intros _. by apply IH.
  - intros i f IHf r IHr e k IHk (Hi & Hv & Hf & Hr & He & Hve & Hk) cs Hcs. cbn [flatten run].
    apply (sim_if i cs cs _ (fun b => _ ← (if b then run f else skip (flatten f)); _ ← run_arms b r; _ ← tick e; run k));
      [done..|]. intros b. destruct (IHr Hr cs b) as [c Hc].
    apply (sim_app _ (cs ++ [flag b])); [apply branch_sim; [done|by apply IHf]|].
    apply (sim_app _ (cs ++ [flag c])); [done|].
    apply (sim_bind _ cs); [by apply sim_endif|]. intros _. by apply IHk.
  - intros _ cs prev. exists prev. apply sim_ret.
  - intros o b IHb m IHm (Ho & Hv & Hb & Hm) cs prev. destruct (IHm Hm cs (negb prev)) as [c Hc]. exists c.
    cbn [flatten_arms run_arms]. apply (sim_bind _ (cs ++ [flag (negb prev)])).
    + pose proof (sim_else o cs (flag prev) Ho Hv) as H. by destruct prev.
    + intros _. apply (sim_app _ (cs ++ [flag (negb prev)])); [apply branch_sim; [done|by apply IHb]|done].
Qed.

Lemma cf_skip l : cond_free (skip l).
Proof. induction l as [|op l IH]; [apply cf_ret|]. apply cf_bind; [apply cf_tick|]. by intros _. Qed.

Lemma cf_plain op : entry op -> isConditional op = false -> cond_free (plain op).
Proof.
  intros Hop Hc. apply cf_bind; [apply cf_tick|]. intros _. apply cf_bind; [apply cf_minimal_push|]. intros _.
  apply cf_handlers. by rewrite entry_cond.
Qed.

Lemma cf_run p : wf p -> cond_free (run p).
Proof.
  apply (prog_mut (fun p => wf p -> cond_free (run p)) (fun a => wf_arms a -> forall prev, cond_free (run_arms prev a)));
    clear p.
  - intros _. apply cf_ret.
  - intros op k IH (Hop & Hc & Hk). apply cf_bind; [by apply cf_plain|]. intros _. by apply IH.
  - intros i f IHf r IHr e k IHk (Hi & Hv & Hf & Hr & He & Hve & Hk). cbn [run].
    apply cf_bind; [apply cf_tick|]. intros _. apply cf_bind; [apply cf_popBool|]. intros v.
    apply cf_bind; [destruct (taken i v); [by apply IHf|apply cf_skip]|]. intros _.
    apply cf_bind; [by apply IHr|]. intros _. apply cf_bind; [apply cf_tick|]. intros _. by apply IHk.
  - intros _ prev. apply cf_ret.
  - intros o b IHb m IHm (Ho & Hv & Hb & Hm) prev. cbn [run_arms]. apply cf_bind; [apply cf_tick|]. intros _.
    apply cf_bind; [destruct (negb prev); [by apply IHb|apply cf_skip]|]. intros _. by apply IHm.
Qed.

Lemma set_condStack_id vm : set_condStack (condStack vm) vm = vm.
Proof. by destruct vm. Qed.

End cond.

(** C6: the engine refines the structured meaning of conditionals: on the opcodes of a
    program with nested OP_IF or OP_NOTIF, any number of OP_ELSE and OP_ENDIF, an engine
    that is executing does exactly what the program means, which runs the branches that
    the popped boolean selects, alternating at every OP_ELSE, and of the other branches
    only checks and counts the opcodes; this includes the errors. *)
Theorem cond_refines `{Env : ScriptEnv} (p : prog) (vm : Engine) :
  wf p -> isBranchExecuting vm = true -> exec (flatten p) vm = run p vm.
Proof.
  intros Hp He. pose proof (run_sim p Hp (condStack vm) He vm) as H.
  pose proof (cf_run p Hp (condStack vm) vm) as H'. rewrite set_condStack_id in *. congruence.
Qed.

(** OP_IF OP_2 OP_ELSE OP_3 OP_ENDIF *)
Definition sample_prog : prog :=
  let op v := MkPop (opcode_at v) None in
  Cond (op OP_IF) (Plain (op OP_2) Done) (Arm (op OP_ELSE) (Plain (op OP_3) Done) NoArm) (op OP_ENDIF) Done.

Lemma cond_refines_witness : exists vm vm',
  toy_engine [OP_0] [OP_NOP] 0 = Ok vm /\ executeOpcode (MkPop (opcode_at OP_0) None) vm = Ok (tt, vm') /\
  exec (flatten sample_prog) vm' = run sample_prog vm'.
Proof.
  destruct (toy_engine [OP_0] [OP_NOP] 0) as [vm| |] eqn:E; [|vm_compute in E; discriminate..].
  destruct (executeOpcode (MkPop (opcode_at OP_0) None) vm) as [[[] vm']| |] eqn:E1;
    [|vm_compute in E; injection E as <-; vm_compute in E1; discriminate..].
  exists vm, vm'. split; [reflexivity|]. split; [exact E1|]. apply (cond_refines sample_prog vm').
  - unfold sample_prog, wf, wf_arms, entry, is_u8. split_and!; first [reflexivity|by left|by vm_compute].
  - vm_compute in E. injection E as <-. vm_compute in E1. injection E1 as <-. reflexivity.
Defined.
