(* ===== verification/EngineSpend.v ===== *)
(** * Multiple signatures

    The search of OP_CHECKMULTISIG, for the engine of [Engine], against its specification:
    the signatures match keys in the same order. *)

From S2P Require Import Prelude Opcodes WireCommon MsgTx ScriptNum ScriptStack Script SigHash Engine EngineSafe EngineStep.
From stdpp Require Import list gmap.
#[local] Open Scope Z_scope.

Section spend.
Context `{Env : ScriptEnv}.
Implicit Types vm : Engine.

(** ** Operations on a known stack *)

(** The engine with other items on the data stack. *)
Definition with_items (l : list slice) vm : Engine := set_dstack (MkStack l (verifyMinimalData (dstack vm))) vm.

Definition few (l : list slice) : Prop := Z.of_nat (length l) < 2 ^ 31.

Lemma few_app l1 l2 : few (l1 ++ l2) -> few l1.
Proof. unfold few. rewrite length_app. lia. Qed.

Lemma pop_slice_eq vm l x : stk (dstack vm) = l ++ [x] -> few (l ++ [x]) ->
  pop_slice vm = Ok (x, with_items l vm).
Proof.
  intros Hs Hf. unfold pop_slice, on_dstack, with_items. destruct (dstack vm) as [l' m]. cbn in *. subst l'.
  by rewrite pop_spec.
Qed.

Lemma popBytes_eq vm l x : stk (dstack vm) = l ++ [x] -> few (l ++ [x]) ->
  popBytes vm = Ok (read (heap vm) x, with_items l vm).
Proof. intros Hs Hf. unfold popBytes. by rewrite (stM_step _ _ _ _ _ (pop_slice_eq vm l x Hs Hf)). Qed.

Lemma popInt_eq vm L l x n : stk (dstack vm) = l ++ [x] -> few (l ++ [x]) ->
  makeScriptNum (read (heap vm) x) (verifyMinimalData (dstack vm)) L = Ok n ->
  popInt L vm = Ok (n, with_items l vm).
Proof.
  intros Hs Hf Hn. unfold popInt. rewrite gets_bind. unfold on_dstack, PopInt, with_items.
  destruct (dstack vm) as [l' m]. cbn in *. subst l'. rewrite pop_spec by done. cbn. by rewrite Hn.
Qed.

Lemma popBool_eq vm l x : stk (dstack vm) = l ++ [x] -> few (l ++ [x]) ->
  popBool vm = Ok (asBool (read (heap vm) x), with_items l vm).
Proof.
  intros Hs Hf. unfold popBool. rewrite gets_bind. unfold on_dstack, PopBool, with_items.
  destruct (dstack vm) as [l' m]. cbn in *. subst l'. unfold mbind at 2, stM_bind. by rewrite pop_spec.
Qed.

Lemma push_eq vm s : push s vm = Ok (tt, with_items (stk (dstack vm) ++ [s]) vm).
Proof. reflexivity. Qed.

(** What a boolean leaves: an item that reads as it, in memory that keeps what there was. *)
Definition extends (m m' : list bytes) : Prop := exists new, m' = m ++ new.

Lemma extends_read m m' s : extends m m' -> slice_ok m s -> read m' s = read m s.
Proof.
  intros [new ->] [H1 H2]. unfold read, array in *. destruct (m !! s_arr s) eqn:E.
  - by rewrite (lookup_app_l_Some _ _ _ _ E).
  - cbn in H2. assert (s_len s = 0)%nat as -> by lia. done.
Qed.

Lemma pushBool_eq vm b : exists s m', pushBool b vm = Ok (tt, with_items (stk (dstack vm) ++ [s]) (set_heap m' vm)) /\
  extends (heap vm) m' /\ slice_ok m' s /\ read m' s = fromBool b.
Proof.
  destruct b; cbn.
  - eexists _, _. split; [reflexivity|]. split; [by eexists|]. unfold slice_ok, read. cbn.
    rewrite array_snoc. cbn. split; [lia|done].
  - exists nil_slice, (heap vm). split; [by destruct vm|]. split; [exists []; by rewrite app_nil_r|].
    split; [apply nil_ok|done].
Qed.

Lemma pop_n_eq n : forall vm l xs, length xs = n -> stk (dstack vm) = l ++ xs -> few (l ++ xs) ->
  pop_n n vm = Ok (read (heap vm) <$> rev xs, with_items l vm).
Proof.
  induction n as [|n IH]; intros vm l xs Hn Hs Hf.
  - destruct xs; [|done]. rewrite app_nil_r in Hs. cbn. unfold with_items. rewrite <- Hs.
    destruct vm as [? ? ? ? ? [? ?]]. done.
  - destruct xs as [|x xs _] using rev_ind; [done|]. rewrite length_app in Hn. cbn in Hn.
    rewrite app_assoc in Hs, Hf. cbn [pop_n]. rewrite (stM_step _ _ _ _ _ (popBytes_eq vm (l ++ xs) x Hs Hf)).
    rewrite (stM_step _ _ _ _ _ (IH (with_items (l ++ xs) vm) l xs ltac:(lia) eq_refl (few_app _ _ Hf))).
    rewrite rev_app_distr. done.
Qed.

Lemma pop_all_nat n vm : pop_all (Z.of_nat n) vm = pop_n n vm.
Proof. unfold pop_all. destruct (Z.ltb_spec (Z.of_nat n) 0); [lia|]. by rewrite Nat2Z.id. Qed.

(** ** Multiple signatures *)

(** The signatures belong to keys of the list, in its order, each to another one. *)
Inductive matched {A B} (R : A -> B -> bool) : list A -> list B -> Prop :=
| matched_nil ks : matched R [] ks
| matched_skip ss k ks : matched R ss ks -> matched R ss (k :: ks)
| matched_take s ss k ks : R s k = true -> matched R ss ks -> matched R (s :: ss) (k :: ks).

Lemma matched_tail {A B} (R : A -> B -> bool) s ss ks : matched R (s :: ss) ks -> matched R ss ks.
Proof.
  induction ks as [|k ks IH]; inversion 1; subst.
  - constructor. by apply IH.
  - by constructor.
Qed.

Lemma matched_length {A B} (R : A -> B -> bool) ss ks : matched R ss ks -> (length ss <= length ks)%nat.
Proof. induction 1; cbn; lia. Qed.

(** The greedy search that the loop makes, with a test that may fail; it gives up when there
    are fewer keys left than signatures. *)
Fixpoint search {E A B} (R : A -> B -> res E bool) (ss : list A) (ks : list B) : res E bool :=
  match ss, ks with
  | [], _ => Ok true
  | _, [] => Ok false
  | s :: ss', k :: ks' =>
      if (length ks <? length ss)%nat then Ok false
      else b ← R s k; if b : bool then search R ss' ks' else search R ss ks'
  end.

(** The test succeeds. *)
Definition holds {E A B} (R : A -> B -> res E bool) (a : A) (b : B) : bool :=
  match R a b with Ok v => v | _ => false end.

Lemma search_matched {E A B} (R : A -> B -> res E bool) ks : forall ss b, search R ss ks = Ok b ->
  (b = true <-> matched (holds R) ss ks).
Proof.
  induction ks as [|k ks IH]; intros [|s ss] b H; cbn [search] in H.
  - simplify_eq. split; [intros _; constructor|done].
  - simplify_eq. split; [done|inversion 1].
  - simplify_eq. split; [intros _; constructor|done].
  - destruct (Nat.ltb_spec (length (k :: ks)) (length (s :: ss))) as [Hl|Hl].
    { simplify_eq. split; [done|]. intros Hm%matched_length. cbn in *. lia. }
    destruct (R s k) as [[]| |] eqn:Er; cbn in H; [|..|done|done]; rewrite (IH _ _ H).
    + split; [apply matched_take; unfold holds; by rewrite Er|].
      inversion 1; subst; [by apply (matched_tail _ s)|done].
    + split; [by apply matched_skip|]. inversion 1 as [| |? ? ? ? Hr]; subst; [done|]. unfold holds in Hr. by rewrite Er in Hr.
Qed.

(** A search that fails has made a test that fails. *)
Lemma search_fails {E A B} (R : A -> B -> res E bool) ks : forall ss,
  match search R ss ks with
  | Ok _ => True
  | Err e => exists s k, s ∈ ss /\ k ∈ ks /\ R s k = Err e
  | Panic => exists s k, s ∈ ss /\ k ∈ ks /\ R s k = Panic
  end.
Proof.
  induction ks as [|k ks IH]; intros [|s ss]; cbn [search]; try done.
  destruct (_ <? _)%nat; [done|]. destruct (R s k) as [[]|e|] eqn:Er; cbn [mbind res_bind].
  - specialize (IH ss). destruct (search R ss ks); [done| |]; destruct IH as (s' & k' & ? & ? & ?);
      exists s', k'; split_and!; (by apply list_elem_of_further) || done.
  - specialize (IH (s :: ss)). destruct (search R (s :: ss) ks); [done| |]; destruct IH as (s' & k' & ? & ? & ?);
      exists s', k'; split_and!; (by apply list_elem_of_further) || done.
  - exists s, k. split_and!; by (constructor || done).
  - exists s, k. split_and!; by (constructor || done).
Qed.

(** Whether a signature verifies for a key and a script.  An empty signature, and one that
    does not parse, verifies for no key; the digest is computed for a signature and a key
    that parse, and fails for a hash type that does not apply to the transaction. *)
Definition signed vm (script : list (parsedOpcode slice)) (sig pk : bytes) : res scriptError bool :=
  match split_sig sig with
  | Ok (sigBytes, hashType) =>
      match ParseSignature sigBytes, ParsePubKey pk with
      | Some s, Some k =>
          h ← calcSignatureHash HashB SigHashOptimization (read (heap vm)) script hashType (tx vm) (txIdx vm) None;
          Ok (Verify k h s)
      | _, _ => Ok false
      end
  | _ => Ok false
  end.

(** An engine that does not look into encodings and has no cache. *)
Definition lenient vm : Prop := der_checked vm = false /\ sigCache vm = None.

Lemma lenient_flags vm : lenient vm ->
  hasFlag ScriptVerifyDERSignatures vm = false /\ hasFlag ScriptVerifyLowS vm = false /\
  hasFlag ScriptVerifyStrictEncoding vm = false.
Proof. intros [H _]. unfold der_checked in H. by rewrite !orb_false_iff in H; destruct_and!. Qed.

Lemma lenient_encoding vm ht sig pk : lenient vm ->
  checkHashTypeEncoding ht vm = Ok (tt, vm) /\ checkSignatureEncoding sig vm = Ok (tt, vm) /\
  checkPubKeyEncoding pk vm = Ok (tt, vm) /\ parse_signature sig vm = Ok (ParseSignature sig, vm).
Proof.
  intros (H1 & H2 & H3)%lenient_flags. unfold checkHashTypeEncoding, checkSignatureEncoding, checkPubKeyEncoding, parse_signature.
  rewrite !gets_bind, H1, H2, H3. done.
Qed.

Lemma lenient_verify vm h s k : lenient vm -> verify_cached h s k vm = Ok (Verify k h s, vm).
Proof.
  intros [_ H]. unfold verify_cached. rewrite gets_bind. unfold cached_verify. rewrite H. cbn. do 2 f_equal.
  destruct vm. cbn in *. by subst.
Qed.

Context (Hopt : SigHashOptimization = false).

Lemma sig_hash_eq vm script ht :
  sig_hash script ht vm =
  match calcSignatureHash HashB SigHashOptimization (read (heap vm)) script ht (tx vm) (txIdx vm) None with
  | Ok h => Ok (inr h, vm)
  | Err e => Ok (inl e, vm)
  | Panic => Panic
  end.
Proof. unfold sig_hash, cached_prefix. rewrite Hopt, andb_false_r. reflexivity. Qed.

(** What an entry of the loop remembers is the parsed signature. *)
Definition info_ok (i : parsedSigInfo) : Prop :=
  parsed i = true ->
  match split_sig (signature i) with Ok (sb, _) => parsedSignature i = ParseSignature sb | _ => False end.

(** A result of the engine that follows one of the specification. *)
Definition follows {A B} (P : A -> B -> Engine -> Prop) (r : res scriptError A) (r' : res scriptError (B * Engine)) : Prop :=
  match r, r' with
  | Ok a, Ok (b, vm') => P a b vm'
  | Err e, Err e' => e' = e
  | Panic, Panic => True
  | _, _ => False
  end.

Lemma multisig_round_eq vm script info pk : lenient vm -> info_ok info ->
  follows (fun b r vm' => r.1 = b /\ vm' = vm /\ info_ok r.2 /\ signature r.2 = signature info)
    (signed vm script (signature info) pk) (multisig_round script info pk vm).
Proof.
  intros Hl Hi. unfold multisig_round, signed. destruct (Nat.eqb_spec (length (signature info)) 0) as [H0|H0].
  { apply nil_length_inv in H0. rewrite H0. cbn. by rewrite H0. }
  unfold info_ok in Hi. destruct (split_sig (signature info)) as [[sb ht]| |] eqn:Es.
  2,3: unfold split_sig in Es; destruct (last (signature info)) eqn:El; [done|]; apply last_None in El; by rewrite El in H0.
  destruct (lenient_encoding vm ht sb pk Hl) as (E1 & E2 & E3 & E4).
  rewrite (stM_step (lift (Ok (sb, ht))) _ vm (sb, ht) vm eq_refl).
  assert (Hp : exists info', multisig_parse info sb ht vm = Ok ((ParseSignature sb, info'), vm) /\
    (parsed info' = true -> parsedSignature info' = ParseSignature sb) /\ signature info' = signature info).
  { unfold multisig_parse. destruct (parsed info) eqn:Ep; cbn [negb].
    - exists info. rewrite Hi by done. split; [done|]. split; [auto|done].
    - rewrite (stM_step _ _ _ _ _ E1), (stM_step _ _ _ _ _ E2), (stM_step _ _ _ _ _ E4).
      eexists. split; [reflexivity|]. done. }
  destruct Hp as (info' & Hp & Hi' & Hs'). rewrite (stM_step _ _ _ _ _ Hp).
  assert (Hok : info_ok info') by (unfold info_ok; by rewrite Hs', Es).
  destruct (ParseSignature sb) as [s|]; [|done].
  rewrite (stM_step _ _ _ _ _ E3). destruct (ParsePubKey pk) as [k|]; [|done].
  unfold mbind at 2, stM_bind at 1. rewrite sig_hash_eq.
  destruct (calcSignatureHash _ _ _ _ _ _ _ _) as [h|e|]; cbn [mbind res_bind]; [|done..].
  rewrite (stM_step _ _ _ _ _ (lenient_verify vm h s k Hl)). done.
Qed.

Lemma multisig_loop_eq vm script pks : lenient vm -> forall fuel infos nk ns ki si,
  1 <= nk -> (Z.to_nat nk <= fuel)%nat -> ki + nk = Z.of_nat (length pks) -> -1 <= ki ->
  0 <= si -> si + ns = Z.of_nat (length infos) -> Forall info_ok infos ->
  multisig_loop fuel script pks infos nk ns ki si vm =
  (b ← search (signed vm script) (signature <$> drop (Z.to_nat si) infos) (drop (Z.to_nat (ki + 1)) pks); Ok (b, vm)).
Proof.
  intros Hl. induction fuel as [|fuel IH]; intros infos nk ns ki si Hnk Hf Hki Hki' Hsi Hns Hi; [lia|].
  cbn [multisig_loop]. rewrite !Z.gtb_ltb. destruct (Z.ltb_spec 0 ns) as [Hpos|Hpos].
  2:{ rewrite (drop_ge infos) by lia. by destruct (drop _ pks). }
  destruct (lookup_lt_is_Some_2 infos (Z.to_nat si)) as [info Hinfo]; [lia|].
  rewrite (drop_S _ _ _ Hinfo). cbn [fmap list_fmap].
  destruct (Z.ltb_spec (nk - 1) ns) as [Hshort|Hshort].
  { destruct (drop (Z.to_nat (ki + 1)) pks) as [|k ks] eqn:Ek; [done|]. apply (f_equal length) in Ek.
    rewrite length_drop in Ek. cbn [search]. destruct (Nat.ltb_spec (length (k :: ks)) (length (signature info :: (signature <$> drop (S (Z.to_nat si)) infos)))) as [_|Hge]; [done|].
    cbn [length] in *. rewrite length_fmap, length_drop in Hge. lia. }
  destruct (lookup_lt_is_Some_2 pks (Z.to_nat (ki + 1))) as [pk Hpk]; [lia|].
  unfold index. destruct (Z.ltb_spec si 0), (Z.ltb_spec (ki + 1) 0); try lia.
  rewrite Hinfo, Hpk, (drop_S _ _ _ Hpk). cbn [search].
  destruct (Nat.ltb_spec (length (pk :: drop (S (Z.to_nat (ki + 1))) pks)) (length (signature info :: (signature <$> drop (S (Z.to_nat si)) infos)))) as [Hlt|_].
  { cbn [length] in Hlt. rewrite length_fmap, !length_drop in Hlt. lia. }
  rewrite (stM_step (lift (or_panic (Some info))) _ vm info vm eq_refl).
  rewrite (stM_step (lift (or_panic (Some pk))) _ vm pk vm eq_refl).
  pose proof (multisig_round_eq vm script info pk Hl (Forall_lookup_1 _ _ _ _ Hi Hinfo)) as Hr.
  unfold mbind at 1, stM_bind at 1. unfold follows in Hr.
  destruct (signed vm script (signature info) pk) as [b|e|], (multisig_round script info pk vm) as [[[b' info'] vm']|e'|]; try done;
    [|by subst]. cbn [fst snd] in Hr. destruct Hr as (-> & -> & Hi' & Hs'). cbn [mbind res_bind].
  assert (HF1 : Forall info_ok (<[Z.to_nat si := info']> infos)) by (by apply Forall_insert).
  assert (Hn1 : Z.to_nat (ki + 1 + 1) = S (Z.to_nat (ki + 1))) by lia.
  destruct b.
  - rewrite IH by (done || rewrite ?length_insert; lia). rewrite Hn1.
    replace (Z.to_nat (si + 1)) with (S (Z.to_nat si)) by lia. rewrite drop_insert_lt by lia. done.
  - rewrite IH by (done || rewrite ?length_insert; lia). rewrite Hn1.
    rewrite (drop_S (<[Z.to_nat si:=info']> infos) info') by (apply list_lookup_insert_eq; lia).
    rewrite drop_insert_lt by lia. cbn [fmap list_fmap]. by rewrite Hs'.
Qed.

(** The script without the data that contains a signature. *)
Definition without (m : list bytes) (script : list (parsedOpcode slice)) (sigs : list bytes) : list (parsedOpcode slice) :=
  foldl (removeOpcodeByData (read m)) script sigs.

Lemma remove_all_eq vm sigs : forall script, remove_all script sigs vm = Ok (without (heap vm) script sigs, vm).
Proof. induction sigs as [|s sigs IH]; intros script; [done|]. cbn [remove_all]. apply IH. Qed.

(** The operands of OP_CHECKMULTISIG come off the stack, and the search follows. *)
Lemma multisig_operands vm base sigs pks ns nk script :
  stk (dstack vm) = base ++ sigs ++ [ns] ++ pks ++ [nk] -> few (stk (dstack vm)) ->
  let num x := makeScriptNum (read (heap vm) x) (verifyMinimalData (dstack vm)) mathOpCodeMaxScriptNumLen in
  num nk = Ok (Z.of_nat (length pks)) -> num ns = Ok (Z.of_nat (length sigs)) ->
  (length sigs <= length pks <= 20)%nat -> numOps vm + Z.of_nat (length pks) <= MaxOpsPerScript ->
  scripts vm !! scriptIdx vm = Some script -> (lastCodeSep vm <= length script)%nat ->
  let sigBytes := read (heap vm) <$> rev sigs in
  let n := Z.of_nat (length pks) in
  opcodeCheckMultiSig vm =
  (success ← multisig_loop (length pks + 1) (without (heap vm) (drop (lastCodeSep vm) script) sigBytes)
     (read (heap vm) <$> rev pks) ((fun s => MkSigInfo s None false) <$> sigBytes) (n + 1) (Z.of_nat (length sigs)) (-1) 0;
   pushBool success) (with_items base (set_numOps (numOps vm + n) vm)).
Proof.
  intros Hstk Hfew num Hnk Hns Hlen Hops Hsc Hsep sigBytes n. unfold n. clear n.
  assert (Hid : forall n, 0 <= n <= 20 -> Int32 n = n).
  { intros n Hn. apply Int32_id. unfold num_range, mathOpCodeMaxScriptNumLen. lia. }
  assert (Hf1 : few (base ++ sigs ++ [ns] ++ pks)) by (rewrite Hstk in Hfew; unfold few in *; rewrite !length_app in *; lia).
  assert (Hf2 : few (base ++ sigs ++ [ns])) by (unfold few in *; rewrite !length_app in *; lia).
  assert (Hf3 : few (base ++ sigs)) by (unfold few in *; rewrite !length_app in *; lia).
  unfold opcodeCheckMultiSig.
  assert (E1 : popInt mathOpCodeMaxScriptNumLen vm = Ok (Z.of_nat (length pks), with_items (base ++ sigs ++ [ns] ++ pks) vm)).
  { apply (popInt_eq vm _ _ nk); rewrite <- ?app_assoc, <- ?Hstk; done. }
  rewrite (stM_step _ _ _ _ _ E1), Hid by lia. clear E1.
  destruct (Z.ltb_spec (Z.of_nat (length pks)) 0); [lia|]. rewrite Z.gtb_ltb.
  destruct (Z.ltb_spec MaxPubKeysPerMultiSig (Z.of_nat (length pks))); [unfold MaxPubKeysPerMultiSig in *; lia|].
  rewrite when_err_bind. cbn [orb]. set (vm2 := set_numOps (numOps vm + Z.of_nat (length pks)) vm).
  assert (E2 : forall l, add_ops (Z.of_nat (length pks)) (with_items l vm) = Ok (tt, with_items l vm2)).
  { intros l. unfold add_ops. rewrite modify_bind, gets_bind. unfold when_err. cbn [numOps set_numOps with_items set_dstack].
    rewrite Z.gtb_ltb. destruct (Z.ltb_spec MaxOpsPerScript (numOps vm + Z.of_nat (length pks))); [lia|done]. }
  rewrite (stM_step _ _ _ _ _ (E2 _)). clear E2.
  assert (E3 : pop_all (Z.of_nat (length pks)) (with_items (base ++ sigs ++ [ns] ++ pks) vm2) =
               Ok (read (heap vm) <$> rev pks, with_items (base ++ sigs ++ [ns]) vm2)).
  { rewrite pop_all_nat. apply (pop_n_eq (length pks) (with_items (base ++ sigs ++ [ns] ++ pks) vm2) (base ++ sigs ++ [ns]) pks eq_refl).
    - cbn. by rewrite <- !app_assoc.
    - by rewrite <- !app_assoc. }
  rewrite (stM_step _ _ _ _ _ E3). clear E3.
  assert (E4 : popInt mathOpCodeMaxScriptNumLen (with_items (base ++ sigs ++ [ns]) vm2) =
               Ok (Z.of_nat (length sigs), with_items (base ++ sigs) vm2)).
  { apply (popInt_eq (with_items (base ++ sigs ++ [ns]) vm2) _ (base ++ sigs) ns); [by rewrite <- app_assoc| |exact Hns].
    by rewrite <- app_assoc. }
  rewrite (stM_step _ _ _ _ _ E4), Hid by lia. clear E4.
  destruct (Z.ltb_spec (Z.of_nat (length sigs)) 0); [lia|]. rewrite when_err_bind, Z.gtb_ltb.
  destruct (Z.ltb_spec (Z.of_nat (length pks)) (Z.of_nat (length sigs))); [lia|]. rewrite when_err_bind.
  assert (E5 : pop_all (Z.of_nat (length sigs)) (with_items (base ++ sigs) vm2) = Ok (sigBytes, with_items base vm2))
    by (rewrite pop_all_nat; by apply (pop_n_eq (length sigs) (with_items (base ++ sigs) vm2) base sigs eq_refl eq_refl)).
  rewrite (stM_step _ _ _ _ _ E5). clear E5. set (vm3 := with_items base vm2).
  assert (E6 : subScript vm3 = Ok (drop (lastCodeSep vm) script, vm3)).
  { unfold subScript. cbn. rewrite Hsc. cbn [or_panic mbind res_bind]. by rewrite (proj2 (Nat.leb_le _ _) Hsep). }
  rewrite (stM_step _ _ _ _ _ E6), (stM_step _ _ _ _ _ (remove_all_eq vm3 sigBytes (drop (lastCodeSep vm) script))). clear E6.
  rewrite Nat2Z.id.
  reflexivity.
Qed.

End spend.

(** C15: OP_CHECKMULTISIG with [n] signatures and [m] keys, where [n <= m <= 20] are the
    numbers on the stack and the keys stay within the limit on operations, in an engine that
    does not check encodings, has no signature cache and does not use the cached transaction
    hash, tests the signatures against the keys in a greedy search, over the script from the
    last code separator on without the signatures.  When the search succeeds or comes to
    nothing, the operands are off the stack, the keys are counted as operations, and the
    boolean pushed is whether every signature verifies for a key of its own, the keys being
    in the order of the signatures.  When the search meets a signature and a key that both
    parse and for which there is no digest, as with SigHashSingle and no output for the
    input, the opcode ends in the error of the digest (or in its panic) and pushes nothing. *)
Theorem checkmultisig_spec `{Env : ScriptEnv} (vm : Engine) (base sigs pks : list slice) (ns nk : slice)
    (script : list (parsedOpcode slice)) :
  SigHashOptimization = false -> lenient vm ->
  stk (dstack vm) = base ++ sigs ++ [ns] ++ pks ++ [nk] -> few (stk (dstack vm)) ->
  let num x := makeScriptNum (read (heap vm) x) (verifyMinimalData (dstack vm)) mathOpCodeMaxScriptNumLen in
  num nk = Ok (Z.of_nat (length pks)) -> num ns = Ok (Z.of_nat (length sigs)) ->
  (length sigs <= length pks <= 20)%nat -> numOps vm + Z.of_nat (length pks) <= MaxOpsPerScript ->
  scripts vm !! scriptIdx vm = Some script -> (lastCodeSep vm <= length script)%nat ->
  let sigBytes := read (heap vm) <$> rev sigs in
  let keyBytes := read (heap vm) <$> rev pks in
  let test := signed vm (without (heap vm) (drop (lastCodeSep vm) script) sigBytes) in
  match search test sigBytes keyBytes with
  | Ok b => (b = true <-> matched (holds test) sigBytes keyBytes) /\
      exists vm' x, opcodeCheckMultiSig vm = Ok (tt, vm') /\ stk (dstack vm') = base ++ [x] /\
        read (heap vm') x = fromBool b /\ numOps vm' = numOps vm + Z.of_nat (length pks)
  | Err e => opcodeCheckMultiSig vm = Err e /\
      exists sig key, sig ∈ sigBytes /\ key ∈ keyBytes /\ test sig key = Err e
  | Panic => opcodeCheckMultiSig vm = Panic /\
      exists sig key, sig ∈ sigBytes /\ key ∈ keyBytes /\ test sig key = Panic
  end.
Proof.
  intros Hopt Hl Hstk Hfew num Hnk Hns Hlen Hops Hsc Hsep sigBytes keyBytes test.
  rewrite (multisig_operands vm base sigs pks ns nk script Hstk Hfew Hnk Hns Hlen Hops Hsc Hsep).
  fold sigBytes keyBytes. set (signedScript := without _ _ _) in *. set (vm3 := with_items base _).
  assert (E : multisig_loop (length pks + 1) signedScript keyBytes
      ((fun s => MkSigInfo s None false) <$> sigBytes) (Z.of_nat (length pks) + 1) (Z.of_nat (length sigs)) (-1) 0 vm3 =
      (b ← search test sigBytes keyBytes; Ok (b, vm3))).
  { rewrite (multisig_loop_eq Hopt vm3 signedScript keyBytes Hl); try lia.
    - rewrite !drop_0, <- list_fmap_compose. do 2 f_equal. apply list_fmap_id.
    - unfold keyBytes. rewrite length_fmap, length_rev. lia.
    - unfold sigBytes. rewrite !length_fmap, length_rev. lia.
    - by apply Forall_fmap, Forall_true. }
  pose proof (search_fails test keyBytes sigBytes) as Hfail. pose proof (search_matched test keyBytes sigBytes) as Hmatch.
  destruct (search test sigBytes keyBytes) as [b|e|]; cbn [mbind res_bind] in E.
  - split; [by apply Hmatch|]. rewrite (stM_step _ _ _ _ _ E).
    destruct (pushBool_eq vm3 b) as (x & m' & Hpush & _ & _ & Hread). by eexists _, x.
  - split; [|done]. by apply (stM_step_err _ _ _ _ E).
  - split; [|done]. unfold mbind, stM_bind. by rewrite E.
Qed.

(** Two signatures for the first and the third of three keys. *)
Definition multisig_vm : Engine :=
  let at_ a n := MkSlice a 0 n n in
  MkEngine 0 [[]; [MkPop (opcode_at OP_CHECKMULTISIG) None]] 1 0 0
    (MkStack [at_ 0 2; at_ 1 2; at_ 2 1; at_ 3 1; at_ 4 1; at_ 5 1; at_ 6 1]%nat false) (MkStack [] false)
    (toy_tx []) 0 [] 1 0 None false [] [[10; 1]; [30; 1]; [2]; [10]; [20]; [30]; [3]].

(** The same with the hash type SigHashSingle in the signature for the third key, and a
    transaction without outputs. *)
Definition single_vm : Engine :=
  set_tx (with_outs (toy_tx []) []) (set_heap [[10; 1]; [30; 3]; [2]; [10]; [20]; [30]; [3]] multisig_vm).

Lemma checkmultisig_spec_witness :
  (exists vm' x, opcodeCheckMultiSig multisig_vm = Ok (tt, vm') /\ stk (dstack vm') = [x] /\
     read (heap vm') x = fromBool true) /\
  opcodeCheckMultiSig single_vm = Err ErrSighashSingleIdx.
Proof.
  assert (Hspec := fun vm H2 H3 H4 H5 H6 H8 H9 H10 => checkmultisig_spec vm [] [MkSlice 0 0 2 2; MkSlice 1 0 2 2]
    [MkSlice 3 0 1 1; MkSlice 4 0 1 1; MkSlice 5 0 1 1] (MkSlice 2 0 1 1) (MkSlice 6 0 1 1)
    [MkPop (opcode_at OP_CHECKMULTISIG) None] eq_refl H2 H3 H4 H5 H6 ltac:(cbn; lia) H8 H9 H10). cbv zeta in Hspec.
  split.
  - specialize (Hspec multisig_vm). destruct Hspec as (_ & vm' & x & H1 & H2 & H3 & _);
      [split; reflexivity|reflexivity|unfold few; cbn; lia|reflexivity|reflexivity|unfold MaxOpsPerScript; cbn; lia|reflexivity|cbn; lia|].
    exists vm', x. split; [exact H1|]. split; [exact H2|exact H3].
  - specialize (Hspec single_vm). destruct Hspec as [H _];
      [split; reflexivity|reflexivity|unfold few; cbn; lia|reflexivity|reflexivity|unfold MaxOpsPerScript; cbn; lia|reflexivity|cbn; lia|exact H].
Defined.
