(* ===== verification/EngineP2PKH.v ===== *)
(** * Pay-to-pubkey-hash

    The whole path of the most common spend through the engine of [Engine]: the two scripts
    are parsed, the signature script pushes a signature and a public key, and the public key
    script compares the hash of the key and checks the signature. *)

From S2P Require Import Prelude Opcodes WireCommon MsgTx ScriptNum ScriptStack Script SigHash Engine EngineSafe EngineStep EngineSpend.
From stdpp Require Import list gmap.
#[local] Open Scope Z_scope.

(** ** Parsing *)

Definition direct_push (v : Z) : bool :=
  (op_length (opcode_at v) =? v + 1) && (op_value (opcode_at v) =? v) &&
  match op_func (opcode_at v) with F_opcodePushData => true | _ => false end.

Lemma direct_pushes v : 1 <= v <= 75 ->
  op_length (opcode_at v) = v + 1 /\ op_value (opcode_at v) = v /\ op_func (opcode_at v) = F_opcodePushData.
Proof.
  intros Hv. assert (H : forallb direct_push (Z.of_nat <$> seq 1 75) = true) by (vm_compute; reflexivity).
  rewrite forallb_forall in H. specialize (H v). unfold direct_push in H.
  lapply H; [|apply list_elem_of_In, list_elem_of_fmap; exists (Z.to_nat v); split; [lia|apply elem_of_seq; lia]].
  rewrite !andb_true_iff, !Z.eqb_eq. intros [[H1 H2] H3]. split_and!; [done|done|]. by destruct (op_func _).
Qed.

Section parse.
Context {D : Type} (mk : nat -> nat -> D).

(** The parser at a position where [rest] follows. *)
Lemma parse_push script pre d post fuel : script = pre ++ Z.of_nat (length d) :: d ++ post ->
  (1 <= length d <= 75)%nat ->
  parse_loop mk false script (S fuel) (length pre) =
  let '(pops, err) := parse_loop mk false script fuel (length pre + S (length d)) in
  (MkPop (opcode_at (Z.of_nat (length d))) (Some (mk (S (length pre)) (length d))) :: pops, err).
Proof.
  intros Hs Hd. assert (Hlen : length script = (length pre + S (length d + length post))%nat).
  { rewrite Hs. rewrite length_app. cbn [length]. rewrite length_app. lia. }
  cbn [parse_loop]. destruct (Nat.leb_spec (length script) (length pre)); [lia|].
  assert (instr_at false script (length pre) = Z.of_nat (length d)) as ->.
  { unfold instr_at, byte_at. cbn [andb]. rewrite Hs, app_nth2, Nat.sub_diag by lia. done. }
  destruct (direct_pushes (Z.of_nat (length d)) ltac:(lia)) as (Hl & _ & _).
  unfold parse_data. rewrite Hl. destruct (Z.eqb_spec (Z.of_nat (length d) + 1) 1); [lia|].
  rewrite Z.gtb_ltb. destruct (Z.ltb_spec 1 (Z.of_nat (length d) + 1)); [|lia].
  destruct (Z.ltb_spec (Z.of_nat (length script) - Z.of_nat (length pre)) (Z.of_nat (length d) + 1)); [lia|].
  replace (Z.to_nat (Z.of_nat (length pre) + (Z.of_nat (length d) + 1))) with (length pre + S (length d))%nat by lia.
  replace (Z.to_nat (Z.of_nat (length d) + 1 - 1)) with (length d) by lia.
  by rewrite (proj2 (Nat.leb_le (S (length pre) + length d) (length script))) by lia.
Qed.

Lemma parse_plain script pre v post fuel : script = pre ++ v :: post -> op_length (opcode_at v) = 1 ->
  parse_loop mk false script (S fuel) (length pre) =
  let '(pops, err) := parse_loop mk false script fuel (S (length pre)) in (MkPop (opcode_at v) None :: pops, err).
Proof.
  intros Hs Hv. assert (Hlen : length script = (length pre + S (length post))%nat) by (rewrite Hs, length_app; done).
  cbn [parse_loop]. destruct (Nat.leb_spec (length script) (length pre)); [lia|].
  assert (instr_at false script (length pre) = v) as ->.
  { unfold instr_at, byte_at. cbn [andb]. rewrite Hs, app_nth2, Nat.sub_diag by lia. done. }
  unfold parse_data. rewrite Hv. done.
Qed.

Lemma parse_end script fuel : parse_loop mk false script fuel (length script) = ([], None).
Proof. destruct fuel; cbn [parse_loop]; by rewrite Nat.leb_refl. Qed.

End parse.

(** The two scripts, and what the parser makes of them. *)
Definition sig_script (sig pk : bytes) : bytes :=
  Z.of_nat (length sig) :: sig ++ Z.of_nat (length pk) :: pk.

Definition pk_script (h : bytes) : bytes :=
  [OP_DUP; OP_HASH160; OP_DATA_20] ++ h ++ [OP_EQUALVERIFY; OP_CHECKSIG].

Lemma parse_sig_script {D} (mk : nat -> nat -> D) sig pk : (1 <= length sig <= 75)%nat -> (1 <= length pk <= 75)%nat ->
  (length sig + length pk <> 24)%nat ->
  parse_with mk (sig_script sig pk) =
  ([MkPop (opcode_at (Z.of_nat (length sig))) (Some (mk 1%nat (length sig)));
    MkPop (opcode_at (Z.of_nat (length pk))) (Some (mk (S (S (length sig))) (length pk)))], None).
Proof.
  intros Hs Hp Hne. assert (Hlen : length (sig_script sig pk) = (length sig + length pk + 2)%nat).
  { unfold sig_script. cbn [length]. rewrite length_app. cbn [length]. lia. }
  unfold parse_with. rewrite Hlen. destruct (Nat.eqb_spec (length sig + length pk + 2) 26); [lia|].
  unfold parseScriptTemplate. rewrite Hlen. replace (length sig + length pk + 2)%nat with (S (S (length sig + length pk))) by lia.
  rewrite (parse_push mk (sig_script sig pk) [] sig (Z.of_nat (length pk) :: pk)) by done. cbn [length plus].
  pose proof (parse_push mk (sig_script sig pk) (Z.of_nat (length sig) :: sig) pk [] (length sig + length pk)) as H.
  cbn [length] in H. rewrite H by (unfold sig_script; rewrite ?app_nil_r; done).
  replace (S (length sig) + S (length pk))%nat with (length (sig_script sig pk)) by lia. by rewrite parse_end.
Qed.

Lemma parse_pk_script {D} (mk : nat -> nat -> D) h : length h = 20%nat ->
  parse_with mk (pk_script h) =
  ([MkPop (opcode_at OP_DUP) None; MkPop (opcode_at OP_HASH160) None; MkPop (opcode_at OP_DATA_20) (Some (mk 3%nat 20%nat));
    MkPop (opcode_at OP_EQUALVERIFY) None; MkPop (opcode_at OP_CHECKSIG) None], None).
Proof.
  intros Hh. assert (Hlen : length (pk_script h) = 25%nat) by (unfold pk_script; rewrite !length_app, Hh; done).
  unfold parse_with, parseScriptTemplate. rewrite Hlen. cbn [Nat.eqb].
  rewrite (parse_plain mk (pk_script h) [] OP_DUP ([OP_HASH160; OP_DATA_20] ++ h ++ [OP_EQUALVERIFY; OP_CHECKSIG])) by done.
  pose proof (parse_plain mk (pk_script h) [OP_DUP] OP_HASH160 ([OP_DATA_20] ++ h ++ [OP_EQUALVERIFY; OP_CHECKSIG]) 23 eq_refl eq_refl) as H1.
  pose proof (parse_push mk (pk_script h) [OP_DUP; OP_HASH160] h [OP_EQUALVERIFY; OP_CHECKSIG] 22) as H2. rewrite Hh in H2.
  pose proof (parse_plain mk (pk_script h) ([OP_DUP; OP_HASH160; OP_DATA_20] ++ h) OP_EQUALVERIFY [OP_CHECKSIG] 21) as H3.
  pose proof (parse_plain mk (pk_script h) ([OP_DUP; OP_HASH160; OP_DATA_20] ++ h ++ [OP_EQUALVERIFY]) OP_CHECKSIG [] 20) as H4.
  replace (length ([OP_DUP; OP_HASH160; OP_DATA_20] ++ h)) with 23%nat in H3 by (rewrite length_app, Hh; done).
  replace (length ([OP_DUP; OP_HASH160; OP_DATA_20] ++ h ++ [OP_EQUALVERIFY])) with 24%nat in H4
    by (rewrite !length_app, Hh; done).
  cbn [length plus] in H1, H2, H3, H4 |- *.
  rewrite H1, H2, H3, H4 by (first [lia|unfold pk_script; rewrite <- ?app_assoc; done]).
  replace 25%nat with (length (pk_script h)) by done. rewrite parse_end. done.
Qed.

(** ** Running *)

Section run.
Context `{Env : ScriptEnv, EnvOk : !ScriptEnvOk Env}.
Context (vm : Engine).

(** The engine at a place of its scripts, with given items and memory. *)
Definition at_pc (idx off : nat) (n : Z) (items : list slice) (m : list bytes) : Engine :=
  MkEngine (version vm) (scripts vm) idx off 0 (MkStack items (verifyMinimalData (dstack vm)))
    (MkStack [] (verifyMinimalData (astack vm))) (tx vm) (txIdx vm) [] n (flags vm) None false [] m.

Context (idx off : nat) (n : Z).

(** An opcode above OP_16 that is neither conditional nor illegal. *)
Lemma exec_op op items m : n + 1 <= MaxOpsPerScript -> OP_16 < pop_value op ->
  isDisabled op = false -> alwaysIllegal op = false ->
  executeOpcode op (at_pc idx off n items m) = call_opfunc op (at_pc idx off (n + 1) items m).
Proof.
  intros Hn Hv Hd Ha. unfold executeOpcode. rewrite Hd, Ha.
  assert (Hc : count_op op (at_pc idx off n items m) = Ok (tt, at_pc idx off (n + 1) items m)).
  { unfold count_op. rewrite Z.gtb_ltb. destruct (Z.ltb_spec OP_16 (pop_value op)); [|lia].
    unfold add_ops. rewrite modify_bind, gets_bind. unfold when_err. cbn [numOps set_numOps at_pc]. rewrite Z.gtb_ltb.
    destruct (Z.ltb_spec MaxOpsPerScript (n + 1)); [lia|done]. }
  rewrite (stM_step _ _ _ _ _ Hc), gets_bind. cbn [at_pc isBranchExecuting condStack last negb andb].
  assert (Hm : check_minimal op (at_pc idx off (n + 1) items m) = Ok (tt, at_pc idx off (n + 1) items m)).
  { unfold check_minimal. destruct (Z.leb_spec (pop_value op) OP_PUSHDATA4); [unfold OP_PUSHDATA4, OP_16 in *; lia|].
    by rewrite andb_false_r. }
  by rewrite (stM_step _ _ _ _ _ Hm).
Qed.

Lemma exec_push s items m : (2 <= s_len s <= 75)%nat -> slice_ok m s ->
  executeOpcode (MkPop (opcode_at (Z.of_nat (s_len s))) (Some s)) (at_pc idx off n items m) =
  Ok (tt, at_pc idx off n (items ++ [s]) m).
Proof.
  intros Hl Hs. destruct (direct_pushes (Z.of_nat (s_len s)) ltac:(lia)) as (_ & Hv & Hf).
  set (op := MkPop _ _). assert (Hpv : pop_value op = Z.of_nat (s_len s)) by done. unfold executeOpcode.
  assert (isDisabled op = false) as ->
    by (unfold isDisabled; rewrite Hpv; apply Z.eqb_neq; unfold OP_CODESEPARATOR; lia).
  assert (alwaysIllegal op = false) as ->
    by (unfold alwaysIllegal; rewrite Hpv; apply orb_false_iff; split; apply Z.eqb_neq; unfold OP_VERIF, OP_VERNOTIF; lia).
  assert (Hc : count_op op (at_pc idx off n items m) = Ok (tt, at_pc idx off n items m)).
  { unfold count_op. rewrite Hpv, !Z.gtb_ltb. destruct (Z.ltb_spec OP_16 (Z.of_nat (s_len s))); [unfold OP_16 in *; lia|].
    cbn [op pop_data default from_option id]. destruct (Z.ltb_spec MaxScriptElementSize (Z.of_nat (s_len s))); [unfold MaxScriptElementSize in *; lia|].
    done. }
  rewrite (stM_step _ _ _ _ _ Hc), gets_bind. cbn [at_pc isBranchExecuting condStack last negb andb].
  assert (Hm : check_minimal op (at_pc idx off n items m) = Ok (tt, at_pc idx off n items m)).
  { unfold check_minimal. destruct (_ && _); [|done]. unfold checkMinimalDataPush, data_of.
    cbn [op pop_data heap at_pc]. rewrite read_length, Hpv by done.
    destruct (Z.eqb_spec (Z.of_nat (s_len s)) 0); [lia|]. destruct (Z.eqb_spec (Z.of_nat (s_len s)) 1); [lia|].
    cbn [andb]. destruct (Z.leb_spec (Z.of_nat (s_len s)) 75); [|lia]. by rewrite Z.eqb_refl. }
  rewrite (stM_step _ _ _ _ _ Hm). unfold call_opfunc. cbn [op pop_op]. rewrite Hf. done.
Qed.

Lemma exec_dup items x m : n + 1 <= MaxOpsPerScript -> (length items <= 1000)%nat ->
  executeOpcode (MkPop (opcode_at OP_DUP) None) (at_pc idx off n (items ++ [x]) m) =
  Ok (tt, at_pc idx off (n + 1) (items ++ [x] ++ [x]) m).
Proof.
  intros Hn Hl. rewrite exec_op by done. change (call_opfunc _) with (on_dstack (DupN (A := slice) 1)).
  unfold on_dstack, DupN. cbn [dstack at_pc]. rewrite need_args_pos by lia.
  change (Z.to_nat 1) with (length [x]). rewrite (peek_loop [x] items [] _ (1 - 1)); [done| |done].
  rewrite !length_app. cbn. lia.
Qed.

Lemma exec_hash160 items x m : n + 1 <= MaxOpsPerScript -> few (items ++ [x]) ->
  exists y m', executeOpcode (MkPop (opcode_at OP_HASH160) None) (at_pc idx off n (items ++ [x]) m) =
    Ok (tt, at_pc idx off (n + 1) (items ++ [y]) m') /\ extends m m' /\ slice_ok m' y /\
    read m' y = ripemd160 (HashB (read m x)).
Proof.
  intros Hn Hf. rewrite exec_op by done. change (call_opfunc _) with opcodeHash160. unfold opcodeHash160.
  rewrite (stM_step _ _ _ _ _ (popBytes_eq (at_pc idx off (n + 1) (items ++ [x]) m) items x eq_refl Hf)).
  set (h := ripemd160 (HashB (read m x))). set (cap := Nat.max (growslice 0 (length h)) (length h)).
  exists (MkSlice (length m) 0 (length h) cap), (m ++ [h ++ replicate (cap - length h) 0]).
  split; [reflexivity|]. split; [by eexists|]. unfold slice_ok, read. cbn [s_len s_cap s_off s_arr].
  rewrite array_snoc, length_app, length_replicate. split; [cbn; lia|]. by rewrite drop_0, take_app_length.
Qed.

Lemma asBool_fromBool b : asBool (fromBool b) = b.
Proof. by destruct b. Qed.

Lemma exec_equalverify items b a m : n + 1 <= MaxOpsPerScript -> few (items ++ [b; a]) ->
  exists m', extends m m' /\
    executeOpcode (MkPop (opcode_at OP_EQUALVERIFY) None) (at_pc idx off n (items ++ [b; a]) m) =
    if bool_decide (read m a = read m b) then Ok (tt, at_pc idx off (n + 1) items m') else Err ErrStackVerifyFailed.
Proof.
  intros Hn Hf. rewrite exec_op by done. change (call_opfunc _) with opcodeEqualVerify.
  unfold opcodeEqualVerify, opcodeEqual.
  assert (Hf1 : few (items ++ [b])) by (unfold few in *; rewrite length_app in *; cbn in *; lia).
  set (st := at_pc idx off (n + 1) (items ++ [b; a]) m).
  assert (E1 : popBytes st = Ok (read m a, at_pc idx off (n + 1) (items ++ [b]) m)).
  { apply (popBytes_eq st (items ++ [b]) a); rewrite <- app_assoc; done. }
  assert (E2 : popBytes (at_pc idx off (n + 1) (items ++ [b]) m) = Ok (read m b, at_pc idx off (n + 1) items m))
    by (by apply (popBytes_eq (at_pc idx off (n + 1) (items ++ [b]) m) items b)).
  destruct (pushBool_eq (at_pc idx off (n + 1) items m) (bool_decide (read m a = read m b))) as (x & m' & E3 & Hx & Hok & Hr).
  exists m'. split; [done|]. unfold mbind at 1, stM_bind at 1.
  rewrite (stM_step _ _ _ _ _ E1), (stM_step _ _ _ _ _ E2), E3. cbn [mbind res_bind].
  unfold opcodeVerify. set (st3 := with_items _ _).
  assert (E4 : popBool st3 = Ok (asBool (read m' x), at_pc idx off (n + 1) items m')).
  { apply (popBool_eq st3 items x); [done|]. unfold few in *. rewrite length_app in *. done. }
  rewrite (stM_step _ _ _ _ _ E4), Hr, asBool_fromBool. unfold when_err. by destruct (bool_decide _).
Qed.

Lemma exec_checksig s p m script : n + 1 <= MaxOpsPerScript -> SigHashOptimization = false -> der_checked vm = false ->
  scripts vm !! idx = Some script -> (txIdx vm < length (tx_TxIn (tx vm)))%nat -> (1 <= length (read m s))%nat ->
  let st := at_pc idx off n [s; p] m in
  exists x m', executeOpcode (MkPop (opcode_at OP_CHECKSIG) None) st = Ok (tt, at_pc idx off (n + 1) [x] m') /\
    read m' x = fromBool (holds (signed st (removeOpcodeByData (read m) script (read m s))) (read m s) (read m p)).
Proof.
  intros Hn Hopt Hder Hsc Htx Hl st. unfold st. rewrite exec_op by done. change (call_opfunc _) with opcodeCheckSig.
  set (st0 := at_pc idx off (n + 1) [s; p] m). set (st1 := at_pc idx off (n + 1) [] m).
  assert (E1 : popBytes st0 = Ok (read m p, at_pc idx off (n + 1) [s] m)) by (by apply (popBytes_eq st0 [s] p)).
  assert (E2 : popBytes (at_pc idx off (n + 1) [s] m) = Ok (read m s, st1))
    by (by apply (popBytes_eq (at_pc idx off (n + 1) [s] m) [] s)).
  assert (Hlen : lenient st1) by (split; [exact Hder|done]).
  unfold opcodeCheckSig. rewrite (stM_step _ _ _ _ _ E1), (stM_step _ _ _ _ _ E2). clear E1 E2.
  destruct (Nat.ltb_spec (length (read m s)) 1); [lia|]. unfold holds, signed.
  assert (Hpush : forall b, exists x m', pushBool b st1 = Ok (tt, at_pc idx off (n + 1) [x] m') /\ read m' x = fromBool b).
  { intros b. destruct (pushBool_eq st1 b) as (x & m' & E & _ & _ & Hr). by exists x, m'. }
  destruct (split_sig (read m s)) as [[sb ht]| |] eqn:Es.
  2,3: unfold split_sig in Es; destruct (last (read m s)) eqn:El; [done|]; apply last_None in El; rewrite El in Hl; cbn in Hl; lia.
  destruct (lenient_encoding st1 ht sb (read m p) Hlen) as (E1 & E2 & E3 & E4).
  rewrite (stM_step (lift (Ok (sb, ht))) _ st1 (sb, ht) st1 eq_refl), (stM_step _ _ _ _ _ E1),
    (stM_step _ _ _ _ _ E2), (stM_step _ _ _ _ _ E3).
  assert (E5 : subScript st1 = Ok (script, st1)) by (unfold subScript; cbn; rewrite Hsc; done).
  rewrite (stM_step _ _ _ _ _ E5).
  set (script' := removeOpcodeByData (read m) script (read m s)).
  rewrite (stM_step (remove_data script (read m s)) _ st1 script' st1 eq_refl).
  pose proof (sig_hash_eq Hopt st1 script' ht) as E6.
  cbn [heap tx txIdx st1 at_pc] in E6 |- *.
  destruct (calcSignatureHash HashB SigHashOptimization (read m) script' ht (tx vm) (txIdx vm) None) as [h|e|] eqn:Eh.
  - rewrite (stM_step _ _ _ _ _ E6). destruct (ParsePubKey (read m p)) as [k|]; [|destruct (ParseSignature sb); apply Hpush].
    rewrite (stM_step _ _ _ _ _ E4). destruct (ParseSignature sb) as [sg|]; [|apply Hpush].
    rewrite (stM_step _ _ _ _ _ (lenient_verify st1 h sg k Hlen)). apply Hpush.
  - rewrite (stM_step _ _ _ _ _ E6). destruct (ParseSignature sb), (ParsePubKey (read m p)); apply Hpush.
  - by apply calc_no_panic in Eh.
Qed.

End run.

(** ** Memory that only grows *)

Definition data_in (m : list bytes) (p : parsedOpcode slice) : Prop :=
  match pop_data p with Some d => slice_ok m d | None => True end.

Lemma data_of_ext m m' p : extends m m' -> data_in m p -> data_of (read m') p = data_of (read m) p.
Proof. intros He Hp. unfold data_of, data_in in *. destruct (pop_data p); [|done]. by apply extends_read. Qed.

Lemma unparse_ext m m' l : extends m m' -> Forall (data_in m) l ->
  unparseScript (read m') l = unparseScript (read m) l.
Proof.
  intros He. induction 1 as [|p l Hp _ IH]; [done|]. cbn [unparseScript]. rewrite IH.
  unfold pop_bytes. by rewrite (data_of_ext m m' p).
Qed.

Lemma remove_ext m m' l d : extends m m' -> Forall (data_in m) l ->
  removeOpcodeByData (read m') l d = removeOpcodeByData (read m) l d.
Proof.
  intros He Hl. unfold removeOpcodeByData. induction Hl as [|p l Hp _ IH]; [done|].
  assert (Hb : (negb (canonicalPush (read m') p) || negb (contains (data_of (read m') p) d)) =
               (negb (canonicalPush (read m) p) || negb (contains (data_of (read m) p) d))).
  { unfold canonicalPush. by rewrite (data_of_ext m m' p). }
  rewrite !filter_cons, IH, Hb. done.
Qed.

Lemma filter_data_in m (P : parsedOpcode slice -> Prop) `{!forall x, Decision (P x)} l :
  Forall (data_in m) l -> Forall (data_in m) (filter P l).
Proof. intros Hl. apply Forall_forall. intros p [_ Hp]%list_elem_of_filter. by apply (proj1 (Forall_forall _ _) Hl). Qed.

Lemma calc_ext `{Env : ScriptEnv} m m' l ht t i ph : extends m m' -> Forall (data_in m) l ->
  calcSignatureHash HashB SigHashOptimization (read m') l ht t i ph =
  calcSignatureHash HashB SigHashOptimization (read m) l ht t i ph.
Proof.
  intros He Hl. unfold calcSignatureHash. cbv zeta. rewrite (unparse_ext m m'); [done|done|].
  unfold removeOpcode. by apply filter_data_in.
Qed.

Lemma extends_trans m1 m2 m3 : extends m1 m2 -> extends m2 m3 -> extends m1 m3.
Proof. intros [a ->] [b ->]. exists (a ++ b). by rewrite app_assoc. Qed.

Lemma heap_le_extends m m' : extends m m' -> heap_le m m'.
Proof.
  intros [new ->] a. unfold array. destruct (m !! a) eqn:E; [|cbn; lia]. by rewrite (lookup_app_l_Some _ _ _ _ E).
Qed.

Section steps.
Context `{Env : ScriptEnv}.
Context (vm : Engine) (s0 s1 : list (parsedOpcode slice)) (Hsc : scripts vm = [s0; s1]) (Hs1 : s1 <> []).

Lemma next_script_at idx off n items m : (idx < 2)%nat ->
  next_script (at_pc vm idx off n items m) = Ok (tt, at_pc vm (S idx) 0 0 items m).
Proof.
  intros Hi. unfold next_script.
  assert (E1 : clear_astack (at_pc vm idx off n items m) = Ok (tt, at_pc vm idx off n items m)) by done.
  rewrite (stM_step _ _ _ _ _ E1), !modify_bind.
  assert (E2 : advance (at_pc vm idx 0 0 items m) = Ok (tt, at_pc vm (S idx) 0 0 items m)).
  { unfold advance. rewrite !gets_bind. cbn [bip16 at_pc]. by rewrite !andb_false_r. }
  change (set_scriptOff 0 (set_numOps 0 (at_pc vm idx off n items m))) with (at_pc vm idx 0 0 items m).
  rewrite (stM_step _ _ _ _ _ E2), modify_bind. unfold modify.
  assert (skip_empty (at_pc vm (S idx) 0 0 items m) = at_pc vm (S idx) 0 0 items m) as ->; [|done].
  unfold skip_empty. cbn [scripts scriptIdx at_pc]. rewrite Hsc. destruct idx as [|[|idx]]; [|done|lia]. cbn.
  by destruct s1.
Qed.

Lemma Step_at idx off n items m s op n' items' m' : (idx < 2)%nat ->
  scripts vm !! idx = Some s -> s !! off = Some op -> (length items' <= 1024)%nat ->
  executeOpcode op (at_pc vm idx off n items m) = Ok (tt, at_pc vm idx off n' items' m') ->
  Step (at_pc vm idx off n items m) =
  if (S off <? length s)%nat then Ok (false, at_pc vm idx (S off) n' items' m')
  else Ok ((idx =? 1)%nat, at_pc vm (S idx) 0 0 items' m').
Proof.
  intros Hi Hs Hop Hd Hex. rewrite (Step_eq _ op); [|unfold current; cbn; by rewrite Hs].
  rewrite Hex. cbn [mbind res_bind]. set (st := at_pc vm idx off n' items' m').
  assert (i32 (Depth (dstack st) + Depth (astack st)) = Z.of_nat (length items')) as ->.
  { unfold Depth, st. cbn [dstack astack at_pc stk length]. rewrite !i32_small; unfold is_i32; try lia. rewrite !i32_small; unfold is_i32; lia. }
  rewrite Z.gtb_ltb. destruct (Z.ltb_spec maxStackSize (Z.of_nat (length items'))); [unfold maxStackSize in *; lia|].
  cbv zeta. change (set_scriptOff (S (scriptOff st)) st) with (at_pc vm idx (S off) n' items' m'). clear st.
  set (st := at_pc vm idx (S off) n' items' m').
  assert (script_ended st = Ok ((length s <=? S off)%nat, st)) as -> by (unfold script_ended; cbn; by rewrite Hs).
  cbn [mbind res_bind]. destruct (Nat.ltb_spec (S off) (length s)).
  - destruct (Nat.leb_spec (length s) (S off)); [lia|]. done.
  - destruct (Nat.leb_spec (length s) (S off)); [|lia]. change (length (condStack st)) with 0%nat. cbn [negb Nat.eqb].
    unfold st. rewrite next_script_at by done. cbn [mbind res_bind scripts scriptIdx at_pc]. rewrite Hsc.
    by destruct idx as [|[|idx]]; [..|lia].
Qed.

Lemma Step_at_err idx off n items m s op e : scripts vm !! idx = Some s -> s !! off = Some op ->
  executeOpcode op (at_pc vm idx off n items m) = Err e -> Step (at_pc vm idx off n items m) = Err e.
Proof.
  intros Hs Hop Hex. rewrite (Step_eq _ op); [|unfold current; cbn; by rewrite Hs]. by rewrite Hex.
Qed.

End steps.

(** ** Scripts with the same bytes *)

(** Opcodes that agree, with data that reads the same. *)
Definition same_pop {D D'} (v : D -> bytes) (v' : D' -> bytes) (p : parsedOpcode D) (q : parsedOpcode D') : Prop :=
  pop_op p = pop_op q /\ data_of v p = data_of v' q.

Lemma unparse_same {D D'} (v : D -> bytes) (v' : D' -> bytes) l l' : Forall2 (same_pop v v') l l' ->
  unparseScript v l = unparseScript v' l'.
Proof.
  induction 1 as [|p q l l' [Hop Hd] _ IH]; [done|]. cbn [unparseScript]. rewrite IH.
  unfold pop_bytes, pop_value. by rewrite Hop, Hd.
Qed.

Lemma remove_same {D D'} (v : D -> bytes) (v' : D' -> bytes) l l' c : Forall2 (same_pop v v') l l' ->
  Forall2 (same_pop v v') (removeOpcode l c) (removeOpcode l' c).
Proof.
  unfold removeOpcode. induction 1 as [|p q l l' [Hop Hd] _ IH]; [done|]. rewrite !filter_cons.
  assert (Hv : pop_value p = pop_value q) by (unfold pop_value; by rewrite Hop).
  destruct (decide (pop_value p <> c)) as [H1|H1], (decide (pop_value q <> c)) as [H2|H2]; rewrite Hv in H1; try done.
  by constructor.
Qed.

Lemma calc_same `{Env : ScriptEnv} {D D'} (v : D -> bytes) (v' : D' -> bytes) l l' ht t i ph :
  Forall2 (same_pop v v') l l' ->
  calcSignatureHash HashB SigHashOptimization v l ht t i ph = calcSignatureHash HashB SigHashOptimization v' l' ht t i ph.
Proof.
  intros H. unfold calcSignatureHash. cbv zeta.
  by rewrite (unparse_same v v' _ _ (remove_same v v' l l' OP_CODESEPARATOR H)).
Qed.

Lemma contains_short b : forall sub, (length b < length sub)%nat -> contains b sub = false.
Proof.
  induction b as [|x b IH]; intros sub Hl.
  - cbn. rewrite orb_false_r. apply bool_decide_eq_false. intros H. destruct sub; [cbn in Hl; lia|]. done.
  - cbn [contains]. rewrite IH by (cbn in Hl; lia). rewrite orb_false_r. apply bool_decide_eq_false. intros H.
    apply (f_equal length) in H. rewrite length_take in H. lia.
Qed.

(** ** The spend *)

Section p2pkh.
Context `{Env : ScriptEnv, EnvOk : !ScriptEnvOk Env}.
Context (sig pk h : bytes) (Hsig : (21 <= length sig <= 75)%nat) (Hpk : (2 <= length pk <= 75)%nat)
  (Hh : length h = 20%nat) (H26 : (length sig + length pk <> 24)%nat).

Let m0 : list bytes := [sig_script sig pk; pk_script h].
Let sig_s : slice := MkSlice 0 1 (length sig) (length (sig_script sig pk) - 1).
Let pk_s : slice := MkSlice 0 (S (S (length sig))) (length pk) (length (sig_script sig pk) - S (S (length sig))).
Let h_s : slice := MkSlice 1 3 20 22.

Let pops0 : list (parsedOpcode slice) :=
  [MkPop (opcode_at (Z.of_nat (length sig))) (Some sig_s); MkPop (opcode_at (Z.of_nat (length pk))) (Some pk_s)].
Let pops1 : list (parsedOpcode slice) :=
  [MkPop (opcode_at OP_DUP) None; MkPop (opcode_at OP_HASH160) None; MkPop (opcode_at OP_DATA_20) (Some h_s);
   MkPop (opcode_at OP_EQUALVERIFY) None; MkPop (opcode_at OP_CHECKSIG) None].

Lemma lengths : length (sig_script sig pk) = (length sig + length pk + 2)%nat /\ length (pk_script h) = 25%nat.
Proof.
  unfold sig_script, pk_script. split; [cbn [length]; rewrite length_app; cbn [length]; lia|].
  rewrite !length_app, Hh. done.
Qed.

Lemma slices_ok : slice_ok m0 sig_s /\ slice_ok m0 pk_s /\ slice_ok m0 h_s.
Proof.
  destruct lengths as [L1 L2]. unfold slice_ok, array, m0, sig_s, pk_s, h_s. cbn [lookup list_lookup s_arr s_off s_len s_cap].
  rewrite L1, L2. lia.
Qed.

Lemma slices_read : read m0 sig_s = sig /\ read m0 pk_s = pk /\ read m0 h_s = h.
Proof.
  unfold read, array, m0, sig_s, pk_s, h_s. cbn [lookup list_lookup s_arr s_off s_len]. split_and!.
  - unfold sig_script. cbn [drop]. apply take_app_length.
  - unfold sig_script. change (Z.of_nat (length sig) :: sig ++ Z.of_nat (length pk) :: pk) with
      ((Z.of_nat (length sig) :: sig) ++ Z.of_nat (length pk) :: pk).
    rewrite drop_app_ge by (cbn; lia). cbn [length]. rewrite Nat.sub_succ, Nat.sub_succ_l, Nat.sub_diag by lia.
    cbn [drop]. apply firstn_all.
  - unfold pk_script. cbn [app drop]. rewrite <- Hh. apply take_app_length.
Qed.

Lemma NewEngine_p2pkh t idx fl vm ti :
  tx_TxIn t !! Z.to_nat idx = Some ti -> SignatureScript ti = sig_script sig pk ->
  NewEngine (pk_script h) t idx fl 0 None = Ok vm ->
  vm = at_pc vm 0 0 0 [] m0 /\ scripts vm = [pops0; pops1] /\ version vm = 0 /\ tx vm = t /\ txIdx vm = Z.to_nat idx.
Proof.
  intros Hti Hss H. destruct lengths as [L1 L2]. unfold NewEngine in H. destruct (_ || _); [done|].
  rewrite Hti in H. cbn [or_panic mbind res_bind] in H. cbv zeta in H. rewrite Hss in H. fold m0 in H.
  apply bind_Ok in H as ([] & _ & H). apply bind_Ok in H as ([] & _ & H). apply bind_Ok in H as ([] & _ & H).
  assert (E0 : parse_input m0 0 = Ok pops0).
  { unfold parse_input. change (array m0 0) with (sig_script sig pk). rewrite L1, Z.gtb_ltb.
    destruct (Z.ltb_spec maxScriptSize (Z.of_nat (length sig + length pk + 2))); [unfold maxScriptSize in *; lia|].
    cbn [guard_err mbind res_bind]. unfold parse_slice, read. cbn [s_len s_off s_arr]. change (array m0 0) with (sig_script sig pk).
    rewrite drop_0, <- L1, firstn_all, parse_sig_script by lia. f_equal. unfold pops0, sig_s, pk_s, subslice.
    cbn [s_arr s_off s_cap]. replace (1 + length sig - 1)%nat with (length sig) by lia.
    replace (S (S (length sig)) + length pk - S (S (length sig)))%nat with (length pk) by lia. done. }
  assert (E1 : parse_input m0 1 = Ok pops1).
  { unfold parse_input. change (array m0 1) with (pk_script h). rewrite L2. cbn [Z.gtb Z.compare].
    unfold parse_slice, read. cbn [s_len s_off s_arr]. change (array m0 1) with (pk_script h).
    rewrite drop_0, <- L2, firstn_all, parse_pk_script, L2 by done. done. }
  rewrite E0 in H. cbn [mbind res_bind] in H. rewrite E1 in H. cbn [mbind res_bind] in H.
  assert (isAnyKindOfScriptHash pops1 = false) as Hany by reflexivity. rewrite Hany, andb_false_r in H.
  cbn [andb guard_err mbind res_bind] in H. rewrite L1 in H.
  destruct (Nat.eqb_spec (length sig + length pk + 2) 0); [lia|]. injection H as <-. done.
Qed.

Context (vm : Engine) (Hsc : scripts vm = [pops0; pops1]) (Hopt : SigHashOptimization = false)
  (Hder : der_checked vm = false) (Htx : (txIdx vm < length (tx_TxIn (tx vm)))%nat).

Lemma loop_next f st st' : Step st = Ok (false, st') -> execute_loop (S f) st = execute_loop f st'.
Proof. intros H. cbn [execute_loop]. by rewrite (stM_step _ _ _ _ _ H). Qed.

(** The key and the signature are on the stack, and the key is hashed and compared. *)
Lemma run_to_verify f : exists m', extends m0 m' /\
  execute_loop (6 + f) (at_pc vm 0 0 0 [] m0) =
  if bool_decide (h = ripemd160 (HashB pk)) then execute_loop f (at_pc vm 1 4 3 [sig_s; pk_s] m')
  else Err ErrStackVerifyFailed.
Proof.
  destruct slices_ok as (O1 & O2 & O3), slices_read as (R1 & R2 & R3).
  assert (Hne : pops1 <> []) by done.
  assert (L0 : scripts vm !! 0%nat = Some pops0) by (by rewrite Hsc). assert (L1 : scripts vm !! 1%nat = Some pops1) by (by rewrite Hsc).
  pose proof (Step_at vm pops0 pops1 Hsc Hne) as HS.
  assert (E1 : Step (at_pc vm 0 0 0 [] m0) = Ok (false, at_pc vm 0 1 0 [sig_s] m0)).
  { rewrite (HS 0%nat 0%nat 0 [] m0 pops0 _ 0 [sig_s] m0 ltac:(lia) L0 eq_refl ltac:(cbn; lia)); [done|].
    apply (exec_push vm 0 0 0 sig_s []); [cbn; lia|done]. }
  assert (E2 : Step (at_pc vm 0 1 0 [sig_s] m0) = Ok (false, at_pc vm 1 0 0 [sig_s; pk_s] m0)).
  { rewrite (HS 0%nat 1%nat 0 [sig_s] m0 pops0 _ 0 [sig_s; pk_s] m0 ltac:(lia) L0 eq_refl ltac:(cbn; lia)); [done|].
    apply (exec_push vm 0 1 0 pk_s [sig_s]); [cbn; lia|done]. }
  assert (E3 : Step (at_pc vm 1 0 0 [sig_s; pk_s] m0) = Ok (false, at_pc vm 1 1 1 [sig_s; pk_s; pk_s] m0)).
  { rewrite (HS 1%nat 0%nat 0 [sig_s; pk_s] m0 pops1 _ 1 [sig_s; pk_s; pk_s] m0 ltac:(lia) L1 eq_refl ltac:(cbn; lia)); [done|].
    apply (exec_dup vm 1 0 0 [sig_s] pk_s m0); [done|cbn; lia]. }
  destruct (exec_hash160 vm 1 1 1 [sig_s; pk_s] pk_s m0) as (y & m1 & X4 & Hext & Hy & Hry); [done|done|].
  assert (E4 : Step (at_pc vm 1 1 1 [sig_s; pk_s; pk_s] m0) = Ok (false, at_pc vm 1 2 2 [sig_s; pk_s; y] m1))
    by (by rewrite (HS 1%nat 1%nat 1 [sig_s; pk_s; pk_s] m0 pops1 _ 2 [sig_s; pk_s; y] m1 ltac:(lia) L1 eq_refl ltac:(cbn; lia) X4)).
  pose proof (heap_le_extends _ _ Hext) as Hle. assert (Hr3 : read m1 h_s = h) by (by rewrite (extends_read m0 m1)).
  assert (E5 : Step (at_pc vm 1 2 2 [sig_s; pk_s; y] m1) = Ok (false, at_pc vm 1 3 2 [sig_s; pk_s; y; h_s] m1)).
  { rewrite (HS 1%nat 2%nat 2 [sig_s; pk_s; y] m1 pops1 _ 2 [sig_s; pk_s; y; h_s] m1 ltac:(lia) L1 eq_refl ltac:(cbn; lia)); [done|].
    apply (exec_push vm 1 2 2 h_s [sig_s; pk_s; y]); [cbn; lia|by apply (slice_ok_mono m0)]. }
  destruct (exec_equalverify vm 1 3 2 [sig_s; pk_s] y h_s m1) as (m2 & Hext2 & X6); [done|done|].
  rewrite Hr3, Hry, R2 in X6. exists m2. split; [by eapply extends_trans|].
  change (6 + f)%nat with (S (S (S (S (S (S f)))))).
  rewrite (loop_next _ _ _ E1), (loop_next _ _ _ E2), (loop_next _ _ _ E3), (loop_next _ _ _ E4), (loop_next _ _ _ E5).
  destruct (bool_decide (h = ripemd160 (HashB pk))).
  - apply loop_next. by rewrite (HS 1%nat 3%nat 2 [sig_s; pk_s; y; h_s] m1 pops1 _ 3 [sig_s; pk_s] m2 ltac:(lia) L1 eq_refl ltac:(cbn; lia) X6).
  - cbn [execute_loop]. apply stM_step_err. by apply (Step_at_err vm 1 3 2 [sig_s; pk_s; y; h_s] m1 pops1 _ _ L1 eq_refl X6).
Qed.

(** The signature decides. *)
Lemma run_checksig f m' : extends m0 m' -> exists x m2,
  execute_loop (S f) (at_pc vm 1 4 3 [sig_s; pk_s] m') = Ok (tt, at_pc vm 2 0 0 [x] m2) /\
  read m2 x = fromBool (holds (signed (set_heap m0 vm) pops1) sig pk).
Proof.
  intros Hext. destruct slices_ok as (O1 & O2 & O3), slices_read as (R1 & R2 & R3).
  assert (L1 : scripts vm !! 1%nat = Some pops1) by (by rewrite Hsc).
  assert (Hr1 : read m' sig_s = sig) by (by rewrite (extends_read m0 m')).
  assert (Hr2 : read m' pk_s = pk) by (by rewrite (extends_read m0 m')).
  destruct (exec_checksig vm 1 4 3 sig_s pk_s m' pops1) as (x & m2 & X & Hx); [done|done|done|done|done|rewrite Hr1; lia|].
  exists x, m2. split.
  - assert (E : Step (at_pc vm 1 4 3 [sig_s; pk_s] m') = Ok (true, at_pc vm 2 0 0 [x] m2))
      by (by rewrite (Step_at vm pops0 pops1 Hsc ltac:(done) 1 4 3 [sig_s; pk_s] m' pops1 _ 4 [x] m2 ltac:(lia) L1 eq_refl ltac:(cbn; lia) X)).
    cbn [execute_loop]. by rewrite (stM_step _ _ _ _ _ E).
  - rewrite Hx, Hr1, Hr2. f_equal.
    assert (Hin : Forall (data_in m0) pops1) by (unfold pops1; by rewrite !Forall_cons).
    assert (removeOpcodeByData (read m') pops1 sig = pops1) as ->.
    { rewrite (remove_ext m0 m') by done. unfold removeOpcodeByData, pops1.
      rewrite !filter_cons_True; [done|..];
        unfold data_of; cbn [pop_data]; rewrite ?R3, contains_short by (cbn; lia); by rewrite orb_true_r. }
    unfold holds, signed. cbn [heap tx txIdx at_pc set_heap]. destruct (split_sig sig) as [[sb ht]| |]; [|done|done].
    by rewrite (calc_ext m0 m').
Qed.

(** The whole run. *)
Lemma run_p2pkh : version vm = 0 ->
  (exists vm', Execute (at_pc vm 0 0 0 [] m0) = Ok (tt, vm')) <->
  h = ripemd160 (HashB pk) /\ holds (signed (set_heap m0 vm) pops1) sig pk = true.
Proof.
  intros Hver. unfold Execute. rewrite gets_bind. cbn [version at_pc]. rewrite Hver. cbn [DefaultScriptVersion Z.eqb negb].
  assert (exists f, Z.to_nat (3 * maxScriptSize) = (6 + S f)%nat) as [f ->]
    by (exists (Z.to_nat (3 * maxScriptSize) - 7)%nat; unfold maxScriptSize; lia).
  destruct (run_to_verify (S f)) as (m' & Hext & E). destruct (bool_decide_reflect (h = ripemd160 (HashB pk))) as [Heq|Hne].
  - destruct (run_checksig f m' Hext) as (x & m2 & E2 & Hx). rewrite E2 in E. rewrite (stM_step _ _ _ _ _ E).
    unfold CheckErrorCondition. rewrite !gets_bind. cbn [scriptIdx scripts at_pc]. rewrite Hsc.
    rewrite (stM_step (when_err (2 <? length [pops0; pops1])%nat _) _ _ tt _ eq_refl), !gets_bind.
    change (Depth (dstack (at_pc vm 2 0 0 [x] m2))) with 1. rewrite andb_false_r.
    rewrite (stM_step (when_err false _) _ _ tt _ eq_refl), (stM_step (when_err (1 <? 1) _) _ _ tt _ eq_refl).
    assert (Ep : popBool (at_pc vm 2 0 0 [x] m2) = Ok (asBool (read m2 x), at_pc vm 2 0 0 [] m2))
      by (by apply (popBool_eq (at_pc vm 2 0 0 [x] m2) [] x)).
    rewrite (stM_step _ _ _ _ _ Ep), Hx, asBool_fromBool. unfold when_err.
    destruct (holds _ _ _); cbn [negb]; [split; [done|by eexists]|]. split; [by intros [? ?]|by intros [_ ?]].
  - rewrite (stM_step_err _ _ _ _ E). split; [by intros [? ?]|by intros [? _]].
Qed.

(** The script that is signed is the one a parse of the public key script gives. *)
Lemma signed_bytes : holds (signed (set_heap m0 vm) pops1) sig pk = true <->
  exists sigBytes hashType hash s k, sig = sigBytes ++ [hashType] /\
    ParseSignature sigBytes = Some s /\ ParsePubKey pk = Some k /\
    calcSignatureHash HashB SigHashOptimization (fun d => d) (parseScript (pk_script h)).1 hashType (tx vm) (txIdx vm) None = Ok hash /\
    Verify k hash s = true.
Proof.
  assert (Hsame : forall ht t i, calcSignatureHash HashB SigHashOptimization (read m0) pops1 ht t i None =
    calcSignatureHash HashB SigHashOptimization (fun d => d) (parseScript (pk_script h)).1 ht t i None).
  { intros ht t i. apply calc_same. unfold parseScript. rewrite parse_pk_script by done.
    by repeat constructor. }
  unfold holds, signed, split_sig. cbn [heap tx txIdx set_heap]. destruct (last sig) as [ht|] eqn:El.
  2: { apply last_None in El. rewrite El in Hsig. destruct Hsig as [H0 _]. inversion H0. }
  apply last_Some in El as [sb El]. rewrite El, length_app, Nat.add_sub, take_app_length, Hsame. split.
  - intros H. destruct (ParseSignature sb) as [s|] eqn:E1; [|done]. destruct (ParsePubKey pk) as [k|] eqn:E2; [|done].
    destruct (calcSignatureHash _ _ _ _ _ _ _ _) as [hash| |] eqn:E3; [|done..]. by exists sb, ht, hash, s, k.
  - intros (sb' & ht' & hash & s & k & [<- [= <-]]%app_inj_tail & -> & -> & -> & H). done.
Qed.

End p2pkh.

(** C4: spending a pay-to-pubkey-hash output succeeds exactly when it is authorised.  With
    the signature script [<sig> <pubkey>] and the public key script
    [DUP HASH160 <hash> EQUALVERIFY CHECKSIG], [Execute] returns without an error if and only
    if the key hashes to the hash of the output, the signature without its last byte and the
    key parse, the digest of the transaction for the hash type in that last byte exists, and
    the signature verifies on it.  (No flag asks for a check of the encoding and the digest
    is not taken from a cache.) *)
Theorem p2pkh_spend `{Env : ScriptEnv, EnvOk : !ScriptEnvOk Env} (sig pk h : bytes) (t : MsgTx) (idx fl : Z)
    (ti : TxIn) (vm : Engine) :
  (21 <= length sig <= 75)%nat -> (2 <= length pk <= 75)%nat -> length h = 20%nat ->
  (length sig + length pk <> 24)%nat -> SigHashOptimization = false ->
  tx_TxIn t !! Z.to_nat idx = Some ti -> SignatureScript ti = sig_script sig pk ->
  NewEngine (pk_script h) t idx fl 0 None = Ok vm -> der_checked vm = false ->
  (exists vm', Execute vm = Ok (tt, vm')) <->
  h = ripemd160 (HashB pk) /\
  exists sigBytes hashType hash s k, sig = sigBytes ++ [hashType] /\
    ParseSignature sigBytes = Some s /\ ParsePubKey pk = Some k /\
    calcSignatureHash HashB SigHashOptimization (fun d => d) (parseScript (pk_script h)).1 hashType t (Z.to_nat idx) None
      = Ok hash /\
    Verify k hash s = true.
Proof.
  intros Hsig Hpk Hh H26 Hopt Hti Hss Hnew Hder.
  destruct (NewEngine_p2pkh sig pk h Hsig Hpk Hh H26 t idx fl vm ti Hti Hss Hnew) as (Hvm & Hsc & Hver & Ht & Hi).
  rewrite <- Ht, <- Hi, <- (signed_bytes sig pk h Hsig Hh vm).
  assert (Htx : (txIdx vm < length (tx_TxIn (tx vm)))%nat) by (rewrite Ht, Hi; by eapply lookup_lt_Some).
  pose proof (run_p2pkh sig pk h Hsig Hpk Hh H26 vm Hsc Hopt Hder Htx Hver) as H. by rewrite <- Hvm in H.
Qed.

Lemma p2pkh_spend_witness :
  let k := replicate 33 7 in
  (exists vm vm', toy_engine (sig_script (k ++ [1]) k) (pk_script (pad 20 (pad 32 k))) 0 = Ok vm /\ Execute vm = Ok (tt, vm')) /\
  (exists vm, toy_engine (sig_script (replicate 33 8 ++ [1]) k) (pk_script (pad 20 (pad 32 k))) 0 = Ok vm /\
    ~ exists vm', Execute vm = Ok (tt, vm')).
Proof.
  intros k. split.
  - set (s := sig_script (k ++ [1]) k). set (p := pk_script (pad 20 (pad 32 k))).
    destruct (toy_engine s p 0) as [vm| |] eqn:E; [|vm_compute in E; discriminate..].
    destruct (proj2 (p2pkh_spend (k ++ [1]) k (pad 20 (pad 32 k)) (toy_tx s) 0 0 (default zeroTxIn (tx_TxIn (toy_tx s) !! 0%nat)) vm
      ltac:(vm_compute; lia) ltac:(vm_compute; lia) eq_refl ltac:(vm_compute; lia) eq_refl eq_refl eq_refl E
      ltac:(vm_compute in E; injection E as <-; reflexivity))) as [vm' H]; [|by exists vm, vm'].
    split; [reflexivity|]. eexists k, 1, _, k, k. by repeat split.
  - set (s := sig_script (replicate 33 8 ++ [1]) k). set (p := pk_script (pad 20 (pad 32 k))).
    destruct (toy_engine s p 0) as [vm| |] eqn:E; [|vm_compute in E; discriminate..].
    exists vm. split; [reflexivity|]. intros Hrun.
    destruct (proj1 (p2pkh_spend (replicate 33 8 ++ [1]) k (pad 20 (pad 32 k)) (toy_tx s) 0 0 (default zeroTxIn (tx_TxIn (toy_tx s) !! 0%nat)) vm
      ltac:(vm_compute; lia) ltac:(vm_compute; lia) eq_refl ltac:(vm_compute; lia) eq_refl eq_refl eq_refl E
      ltac:(vm_compute in E; injection E as <-; reflexivity)) Hrun) as [_ (sb & ht & hash & sg & kk & Hs & [= <-] & [= <-] & _ & Hv)].
    apply app_inj_tail in Hs as [<- _]. vm_compute in Hv. discriminate.
Defined.
