(* ===== verification/StakeNode.v ===== *)
(** * The stake node

    [blockchain/stake/tickets.go]: the ticket pools at a block, their change when a
    block is connected or disconnected, and the writes of these changes to the
    ticket database.

    The code is parameterised by what it calls outside this repository or leaves to
    the runtime: the hash function [HashH] (of which [HashB] returns the bytes), the
    random source [rng_Int] of the treap priorities and the capacity [append_cap]
    that [append] gives a buffer.  [fuel] bounds the unbounded rejection loops of
    the lottery; [StillRunning] reports that it was used up. *)

From S2P Require Import Prelude TreapCore TicketTreap Lottery WireCommon TicketDb Compact.
#[local] Open Scope Z_scope.

(** The parameters of the network that this code reads. *)
Record StakeParams := MkParams {
  TicketsPerBlock : Z;         (* uint16 *)
  TicketExpiry : Z;            (* uint32 *)
  StakeEnabledHeight : Z;      (* int64 *)
  StakeValidationHeight : Z;   (* int64 *)
  GenesisHash : bytes
}.

(** The rule errors, and the errors of the packages called. *)
Inductive stakeError :=
| ErrNilNode
| ErrUnknownTicketSpent | ErrMissingTicket | ErrDuplicateTicket
| ErrMissingDatabaseTx | ErrMemoryCorruption | ErrDatabaseCorrupt
| ErrLottery (e : lotteryError) | ErrWire (e : wireError) | ErrTicketDb (e : dbError)
| StillRunning.

Record Node (T : Type) := MkNode {
  height : Z;
  keyHeight : Z;
  liveTickets : T;
  missedTickets : T;
  revokedTickets : T;
  databaseUndoUpdate : list UndoTicketData;
  databaseBlockTickets : list (list Z);
  nextWinners : list (list Z);
  finalState : list Z;
  params : StakeParams
}.
Arguments MkNode {T}.
Arguments height {T} _.
Arguments keyHeight {T} _.
Arguments liveTickets {T} _.
Arguments missedTickets {T} _.
Arguments revokedTickets {T} _.
Arguments databaseUndoUpdate {T} _.
Arguments databaseBlockTickets {T} _.
Arguments nextWinners {T} _.
Arguments finalState {T} _.
Arguments params {T} _.

Fixpoint hashInSlice (h : bytes) (list : list bytes) : bool :=
  match list with
  | [] => false
  | hash :: list => if bool_decide (h = hash) then true else hashInSlice h list
  end.

(** The undo record of a ticket with its new value. *)
Definition undoOf (k : bytes) (v : Value) : UndoTicketData :=
  {| TicketHash := k; TicketHeight := Height v; TicketKeyHeight := KeyHeight v;
     u_Missed := Missed v; u_Revoked := Revoked v; u_Spent := Spent v;
     u_Expired := Expired v |}.

Definition valueOf (u : UndoTicketData) : Value :=
  {| Height := TicketHeight u; KeyHeight := TicketKeyHeight u; Missed := u_Missed u;
     Revoked := u_Revoked u; Spent := u_Spent u; Expired := u_Expired u |}.

Definition setMissed (b : bool) (v : Value) : Value :=
  MkValue (Height v) (KeyHeight v) b (Revoked v) (Spent v) (Expired v).
Definition setRevoked (b : bool) (v : Value) : Value :=
  MkValue (Height v) (KeyHeight v) (Missed v) b (Spent v) (Expired v).
Definition setSpent (b : bool) (v : Value) : Value :=
  MkValue (Height v) (KeyHeight v) (Missed v) (Revoked v) b (Expired v).
Definition setExpired (b : bool) (v : Value) : Value :=
  MkValue (Height v) (KeyHeight v) (Missed v) (Revoked v) (Spent v) b.

Section stake.
Context `{TicketPool T} {R : Type} (rng_Int : R -> Z * R).
Context (HashH : bytes -> bytes) (fuel : nat) (append_cap : nat -> nat).

Definition genesisNode (p : StakeParams) : Node T :=
  MkNode 0 0 pool_new pool_new pool_new [] [] [] (replicate 6 0) p.

(** ** Accessors *)

Definition UndoData (sn : Node T) : list UndoTicketData := databaseUndoUpdate sn.
Definition NewTickets (sn : Node T) : list bytes := databaseBlockTickets sn.

Definition SpentByBlock (sn : Node T) : list bytes :=
  foldl (fun spent undo => if u_Spent undo then spent ++ [TicketHash undo] else spent)
    [] (databaseUndoUpdate sn).

Definition MissedByBlock (sn : Node T) : list bytes :=
  foldl (fun missed undo => if u_Missed undo then missed ++ [TicketHash undo] else missed)
    [] (databaseUndoUpdate sn).

Definition pool_has (t : T) (k : bytes) : bool :=
  match pool_get t k with Some _ => true | None => false end.

Definition ExistsLiveTicket (sn : Node T) (ticket : bytes) : bool := pool_has (liveTickets sn) ticket.
Definition ExistsMissedTicket (sn : Node T) (ticket : bytes) : bool := pool_has (missedTickets sn) ticket.
Definition ExistsRevokedTicket (sn : Node T) (ticket : bytes) : bool := pool_has (revokedTickets sn) ticket.

Definition ExistsExpiredTicket (sn : Node T) (ticket : bytes) : bool :=
  match pool_get (missedTickets sn) ticket with
  | Some v => if Expired v then true
              else match pool_get (revokedTickets sn) ticket with
                   | Some v => Expired v | None => false end
  | None => match pool_get (revokedTickets sn) ticket with
            | Some v => Expired v | None => false end
  end.

(** The list of the hashes of a pool: an array of the pool's length, filled by a
    traversal; [None] is an index out of range. *)
Definition ticketList (t : T) : option (list bytes) :=
  match pool_foreach t
    (fun (s : option (nat * list bytes)) k _ =>
       match s with
       | None => (None, false)
       | Some (i, tickets) =>
           if (i <? length tickets)%nat then (Some (S i, <[i := k]> tickets), true)
           else (None, false)
       end)
    (Some (O, replicate (Z.to_nat (pool_len t)) zeroHash)) with
  | Some (Some (_, tickets)) => Some tickets
  | _ => None
  end.

Definition LiveTickets (sn : Node T) : option (list bytes) := ticketList (liveTickets sn).
Definition MissedTickets (sn : Node T) : option (list bytes) := ticketList (missedTickets sn).
Definition RevokedTickets (sn : Node T) : option (list bytes) := ticketList (revokedTickets sn).
Definition PoolSize (sn : Node T) : Z := pool_len (liveTickets sn).

(** ** Checked pool operations *)

Definition safeGet (t : T) (k : bytes) : res stakeError Value :=
  match pool_get t k with
  | None => Err ErrMissingTicket
  | Some v => Ok v
  end.

Definition safePut (t : T) (k : bytes) (v : Value) : stM R stakeError T := fun rng =>
  if pool_has t k then Err ErrDuplicateTicket
  else
    let '(prio, rng) := rng_Int rng in
    Ok (pool_put t k v prio, rng).

Definition safeDelete (t : T) (k : bytes) : res stakeError T :=
  if negb (pool_has t k) then Err ErrMissingTicket else Ok (pool_delete t k).

(** ** Connecting a block *)

(** The fields of the node under construction that the loops change. *)
Record work := MkWork {
  w_live : T;
  w_missed : T;
  w_revoked : T;
  w_undo : list UndoTicketData
}.

Definition winner_step (ticketsSpentInBlock : list bytes) (w : work) (ticket : bytes)
    : stM R stakeError work :=
  v ← lift (safeGet (w_live w) ticket);
  if hashInSlice ticket ticketsSpentInBlock
  then
    let v := setMissed false (setSpent true v) in
    live ← lift (safeDelete (w_live w) ticket);
    mret (MkWork live (w_missed w) (w_revoked w) (w_undo w ++ [undoOf ticket v]))
  else
    let v := setMissed true (setSpent false v) in
    live ← lift (safeDelete (w_live w) ticket);
    missed ← safePut (w_missed w) ticket v;
    mret (MkWork live missed (w_revoked w) (w_undo w ++ [undoOf ticket v])).

Definition expire_step (w : work) (treapKey : bytes) : stM R stakeError work :=
  v ← lift (safeGet (w_live w) treapKey);
  let v := setExpired true (setMissed true v) in
  live ← lift (safeDelete (w_live w) treapKey);
  missed ← safePut (w_missed w) treapKey v;
  mret (MkWork live missed (w_revoked w) (w_undo w ++ [undoOf treapKey v])).

Definition revoke_step (w : work) (revokedTicket : bytes) : stM R stakeError work :=
  v ← lift (safeGet (w_missed w) revokedTicket);
  let v := setRevoked true v in
  missed ← lift (safeDelete (w_missed w) revokedTicket);
  revoked ← safePut (w_revoked w) revokedTicket v;
  mret (MkWork (w_live w) missed revoked (w_undo w ++ [undoOf revokedTicket v])).

Definition new_step (height keyHeight : Z) (w : work) (newTicket : bytes)
    : stM R stakeError work :=
  let v := MkValue height keyHeight false false false false in
  live ← safePut (w_live w) newTicket v;
  mret (MkWork live (w_missed w) (w_revoked w) (w_undo w ++ [undoOf newTicket v])).

(** The tickets whose key height is at most this one expire. *)
Definition toExpireKeyHeight (keyHeight : Z) (p : StakeParams) : Z :=
  if keyHeight >? TicketExpiry p then u32 (keyHeight - TicketExpiry p) else 0.

(** The draw, with its errors; [None] of the fuelled loop is [StillRunning]. *)
Definition drawTickets (size n : Z) (prng : Hash256PRNG)
    : res stakeError (list Z * Hash256PRNG) :=
  match findTicketIdxs HashH fuel size n prng with
  | None => Err StillRunning
  | Some r => map_err ErrLottery r
  end.

(** The pools after a block. *)
Definition connectPools (header : BlockHeader) (ticketsSpentInBlock revokedTickets newTickets : list bytes)
    (isKeyBlock : bool) (node : Node T) : stM R stakeError work :=
  let p := params node in
  let w := MkWork (liveTickets node) (missedTickets node) (StakeNode.revokedTickets node) [] in
  w ← (if h_KeyHeight header >=? u32 (StakeEnabledHeight p)
       then
         _ ← lift (guard_err
               (negb (forallb (fun t => hashInSlice t (nextWinners node)) ticketsSpentInBlock))
               ErrUnknownTicketSpent);
         w ← (if isKeyBlock then foldS (winner_step ticketsSpentInBlock) w (nextWinners node)
              else mret w);
         w ← (if isKeyBlock
              then
                expired ← lift (or_panic
                  (fetchExpired (toExpireKeyHeight (h_KeyHeight header) p) (w_live w)));
                foldS expire_step w expired
              else mret w);
         foldS revoke_step w revokedTickets
       else mret w);
  foldS (new_step (u32 (height node + 1)) (h_KeyHeight header)) w newTickets.

(** The winners a block without a key takes over from its parent, by index. *)
Definition takeWinners (n : nat) (winners : list bytes) : res stakeError (list bytes) :=
  if (n <=? length winners)%nat then Ok (take n winners) else Panic.

(** The winners and the final state of a block. *)
Definition connectLottery (header : BlockHeader) (isKeyBlock : bool) (node : Node T) (live : T)
    : res stakeError (list bytes * bytes) :=
  let p := params node in
  let realKeyHeight :=
    if isKeyBlock then u32 (h_KeyHeight header + 1) else h_KeyHeight header in
  if realKeyHeight >=? u32 (StakeValidationHeight p - 1)
  then
    hB ← map_err ErrWire (header_Bytes header);
    '(idxs, prng) ← drawTickets (pool_len live) (TicketsPerBlock p) (NewHash256PRNG HashH hB);
    nextWinnersKeys ← map_err ErrLottery (fetchWinners (Some idxs) (Some live));
    winners ← (if isKeyBlock then or_panic (mapM id nextWinnersKeys)
               else takeWinners (length nextWinnersKeys) (nextWinners node));
    Ok (winners, take 6 (HashH (concat winners ++ StateHash HashH prng)))
  else Ok ([], replicate 6 0).

Definition connectNode (node : option (Node T)) (header : BlockHeader)
    (ticketsSpentInBlock revokedTickets newTickets : list bytes) (isKeyBlock : bool)
    : stM R stakeError (Node T) :=
  match node with
  | None => lift (Err ErrNilNode)
  | Some node =>
      w ← connectPools header ticketsSpentInBlock revokedTickets newTickets isKeyBlock node;
      '(winners, fs) ← lift (connectLottery header isKeyBlock node (w_live w));
      mret (MkNode (u32 (height node + 1)) (h_KeyHeight header) (w_live w) (w_missed w)
              (w_revoked w) (w_undo w) newTickets winners fs (params node))
  end.

(** ** Disconnecting a block *)

Record restore := MkRestore {
  r_live : T;
  r_missed : T;
  r_revoked : T;
  r_winners : list (list Z)
}.

Definition undo_step (r : restore) (undo : UndoTicketData) : stM R stakeError restore :=
  let k := TicketHash undo in
  let v := valueOf undo in
  if negb (u_Missed undo) && negb (u_Revoked undo) && negb (u_Spent undo)
  then
    live ← lift (safeDelete (r_live r) k);
    mret (MkRestore live (r_missed r) (r_revoked r) (r_winners r))
  else if u_Missed undo && u_Revoked undo
  then
    let v := setRevoked false v in
    revoked ← lift (safeDelete (r_revoked r) k);
    missed ← safePut (r_missed r) k v;
    mret (MkRestore (r_live r) missed revoked (r_winners r))
  else if u_Missed undo && negb (u_Revoked undo)
  then
    let winners := if negb (u_Expired undo) then r_winners r ++ [k] else r_winners r in
    let v := if negb (u_Expired undo) then v else setExpired false v in
    let v := setMissed false v in
    missed ← lift (safeDelete (r_missed r) k);
    live ← safePut (r_live r) k v;
    mret (MkRestore live missed (r_revoked r) winners)
  else if u_Spent undo
  then
    let v := setSpent false v in
    let winners := r_winners r ++ [k] in
    live ← safePut (r_live r) k v;
    mret (MkRestore live (r_missed r) (r_revoked r) winners)
  else lift (Err ErrMemoryCorruption).

(** The parent's undo data and tickets: those passed, or those of the database
    when one of them is nil. *)
Definition parentData (h : Z) (parentUtds : option (list UndoTicketData))
    (parentTickets : option (list bytes)) (dbTx : option Tx)
    : res stakeError (list UndoTicketData * list bytes) :=
  match parentUtds, parentTickets with
  | Some utds, Some tickets => Ok (utds, tickets)
  | _, _ =>
      match dbTx with
      | None => Err ErrMissingDatabaseTx
      | Some tx =>
          utds ← map_err ErrTicketDb (DbFetchBlockUndoData tx (u32 (h - 1)));
          tickets ← map_err ErrTicketDb (DbFetchNewTickets tx (u32 (h - 1)));
          Ok (utds, tickets)
      end
  end.

(** The final state of the restored node. *)
Definition restoreState (parentHeader : BlockHeader) (node : Node T) (live : T)
    (winners : list bytes) : res stakeError bytes :=
  let p := params node in
  if u32 (keyHeight node + 1) >=? u32 (StakeValidationHeight p)
  then
    phB ← map_err ErrWire (header_Bytes parentHeader);
    '(_, prng) ← drawTickets (pool_len live) (TicketsPerBlock p) (NewHash256PRNG HashH phB);
    Ok (take 6 (HashH (concat winners ++ StateHash HashH prng)))
  else Ok (replicate 6 0).

(** The height is read before the check for a nil node. *)
Definition disconnectNode (node : option (Node T)) (parentHeader : BlockHeader)
    (parentUtds : option (list UndoTicketData)) (parentTickets : option (list bytes))
    (isKeyBlock : bool) (dbTx : option Tx) : stM R stakeError (Node T) :=
  match node with
  | None => lift Panic
  | Some node =>
      if height node =? 1 then mret (genesisNode (params node))
      else
        '(utds, tickets) ← lift (parentData (height node) parentUtds parentTickets dbTx);
        r ← foldS undo_step
              (MkRestore (liveTickets node) (missedTickets node) (revokedTickets node) [])
              (databaseUndoUpdate node);
        let winners := if isKeyBlock then r_winners r else nextWinners node in
        fs ← lift (restoreState parentHeader node (r_live r) winners);
        mret (MkNode (u32 (height node - 1)) (h_KeyHeight parentHeader) (r_live r)
                (r_missed r) (r_revoked r) utds tickets winners fs (params node))
  end.

(** ** Writing to the database *)

Definition connect_write (tx : Tx) (undo : UndoTicketData) : res stakeError Tx :=
  let k := TicketHash undo in
  if negb (u_Missed undo) && negb (u_Revoked undo) && negb (u_Spent undo)
  then
    map_err ErrTicketDb (DbPutTicket tx LiveTicketsBucketName k (TicketHeight undo)
      (TicketKeyHeight undo) (u_Missed undo) (u_Revoked undo) (u_Spent undo) (u_Expired undo))
  else if u_Missed undo && u_Revoked undo
  then
    tx ← map_err ErrTicketDb (DbDeleteTicket tx MissedTicketsBucketName k);
    map_err ErrTicketDb (DbPutTicket tx RevokedTicketsBucketName k (TicketHeight undo)
      (TicketKeyHeight undo) (u_Missed undo) (u_Revoked undo) (u_Spent undo) (u_Expired undo))
  else if u_Missed undo && negb (u_Revoked undo)
  then
    tx ← map_err ErrTicketDb (DbDeleteTicket tx LiveTicketsBucketName k);
    map_err ErrTicketDb (DbPutTicket tx MissedTicketsBucketName k (TicketHeight undo)
      (TicketKeyHeight undo) true (u_Revoked undo) (u_Spent undo) (u_Expired undo))
  else if u_Spent undo
  then map_err ErrTicketDb (DbDeleteTicket tx LiveTicketsBucketName k)
  else Err ErrMemoryCorruption.

(** The winners of a node in an array of [TicketsPerBlock] hashes. *)
Definition winnersArray (node : Node T) : res stakeError (list bytes) :=
  let n := Z.to_nat (TicketsPerBlock (params node)) in
  if (length (nextWinners node) <=? n)%nat
  then Ok (nextWinners node ++ replicate (n - length (nextWinners node)) zeroHash)
  else Panic.

Definition WriteConnectedBestNode (tx : Tx) (node : Node T) (hash : bytes)
    : res stakeError Tx :=
  tx ← foldM connect_write tx (databaseUndoUpdate node);
  tx ← map_err ErrTicketDb (DbPutBlockUndoData tx (height node) (databaseUndoUpdate node));
  tx ← map_err ErrTicketDb (DbPutNewTickets tx (height node) (databaseBlockTickets node));
  winners ← winnersArray node;
  map_err ErrTicketDb (DbPutBestState append_cap tx
    {| bs_Hash := hash; bs_Height := height node; bs_KeyHeight := keyHeight node;
       bs_Live := u32 (pool_len (liveTickets node));
       bs_Missed := u64 (pool_len (missedTickets node));
       bs_Revoked := u64 (pool_len (revokedTickets node));
       bs_PerBlock := TicketsPerBlock (params node); bs_NextWinners := winners |}).

Definition disconnect_write (tx : Tx) (undo : UndoTicketData) : res stakeError Tx :=
  let k := TicketHash undo in
  if negb (u_Missed undo) && negb (u_Revoked undo) && negb (u_Spent undo)
  then map_err ErrTicketDb (DbDeleteTicket tx LiveTicketsBucketName k)
  else if u_Missed undo && u_Revoked undo
  then
    tx ← map_err ErrTicketDb (DbDeleteTicket tx RevokedTicketsBucketName k);
    map_err ErrTicketDb (DbPutTicket tx MissedTicketsBucketName k (TicketHeight undo)
      (TicketKeyHeight undo) (u_Missed undo) false (u_Spent undo) (u_Expired undo))
  else if u_Missed undo && negb (u_Revoked undo)
  then
    tx ← map_err ErrTicketDb (DbDeleteTicket tx MissedTicketsBucketName k);
    map_err ErrTicketDb (DbPutTicket tx LiveTicketsBucketName k (TicketHeight undo)
      (TicketKeyHeight undo) false (u_Revoked undo) (u_Spent undo) false)
  else if u_Spent undo
  then
    map_err ErrTicketDb (DbPutTicket tx LiveTicketsBucketName k (TicketHeight undo)
      (TicketKeyHeight undo) (u_Missed undo) (u_Revoked undo) false (u_Expired undo))
  else Err ErrMemoryCorruption.

(** The loop that drops the data of the heights [i], [i - 1], ... ([n] of them). *)
Fixpoint drop_loop (n : nat) (i : Z) (tx : Tx) : res stakeError Tx :=
  match n with
  | O => Ok tx
  | S n =>
      tx ← map_err ErrTicketDb (DbDropBlockUndoData tx i);
      tx ← map_err ErrTicketDb (DbDropNewTickets tx i);
      drop_loop n (i - 1) tx
  end.

Definition WriteDisconnectedBestNode (tx : Tx) (node : Node T) (hash : bytes)
    (childUndoData : list UndoTicketData) : res stakeError Tx :=
  formerBest ← map_err ErrTicketDb (DbFetchBestState tx);
  tx ← (if bs_Height formerBest >? height node
        then drop_loop (Z.to_nat (bs_Height formerBest - height node)) (bs_Height formerBest) tx
        else Ok tx);
  tx ← foldM disconnect_write tx childUndoData;
  tx ← map_err ErrTicketDb (DbPutBlockUndoData tx (height node) (databaseUndoUpdate node));
  tx ← map_err ErrTicketDb (DbPutNewTickets tx (height node) (databaseBlockTickets node));
  winners ← winnersArray node;
  map_err ErrTicketDb (DbPutBestState append_cap tx
    {| bs_Hash := hash; bs_Height := height node; bs_KeyHeight := 0;
       bs_Live := u32 (pool_len (liveTickets node));
       bs_Missed := u64 (pool_len (missedTickets node));
       bs_Revoked := u64 (pool_len (revokedTickets node));
       bs_PerBlock := TicketsPerBlock (params node); bs_NextWinners := winners |}).

Definition InitDatabaseState (now : Z) (tx : Tx) (p : StakeParams)
    : res stakeError (Node T * Tx) :=
  tx ← map_err ErrTicketDb (DbCreate now tx);
  let genesis := genesisNode p in
  tx ← map_err ErrTicketDb (DbPutBlockUndoData tx (height genesis) (databaseUndoUpdate genesis));
  tx ← map_err ErrTicketDb (DbPutNewTickets tx (height genesis) (databaseBlockTickets genesis));
  tx ← map_err ErrTicketDb (DbPutBestState append_cap tx
    {| bs_Hash := GenesisHash p; bs_Height := height genesis; bs_KeyHeight := 0;
       bs_Live := u32 (pool_len (liveTickets genesis));
       bs_Missed := u64 (pool_len (missedTickets genesis));
       bs_Revoked := u64 (pool_len (revokedTickets genesis));
       bs_PerBlock := TicketsPerBlock p;
       bs_NextWinners := replicate (Z.to_nat (TicketsPerBlock p)) zeroHash |});
  Ok (genesis, tx).

(** ** Loading from the database *)

(** A computation of the ticket database in a computation of this package. *)
Definition liftDb {A} (m : stM R dbError A) : stM R stakeError A := fun rng =>
  map_err ErrTicketDb (m rng).

(** The winners and the final state of the loaded node. *)
Definition loadLottery (blockHash : bytes) (header : BlockHeader) (p : StakeParams)
    (live : T) (stateWinners : list bytes) : res stakeError (list bytes * bytes) :=
  let realKeyHeight :=
    if HashToBig blockHash <=? CompactToBig (h_Bits header)
    then u32 (h_KeyHeight header + 1) else h_KeyHeight header in
  if realKeyHeight >=? u32 (StakeValidationHeight p - 1)
  then
    hB ← map_err ErrWire (header_Bytes header);
    '(_, prng) ← drawTickets (pool_len live) (TicketsPerBlock p) (NewHash256PRNG HashH hB);
    Ok (stateWinners, take 6 (HashH (concat stateWinners ++ StateHash HashH prng)))
  else Ok ([], replicate 6 0).

(** The database version is read for the log only after the node is complete, and
    a missing information bucket gives a nil pointer there. *)
Definition LoadBestNode (tx : Tx) (h kh : Z) (blockHash : bytes) (header : BlockHeader)
    (p : StakeParams) : stM R stakeError (Node T) :=
  info ← lift (map_err ErrTicketDb (DbFetchDatabaseInfo tx));
  state ← lift (map_err ErrTicketDb (DbFetchBestState tx));
  _ ← lift (guard_err (negb (bool_decide (bs_Hash state = blockHash)) ||
                       negb (bs_Height state =? h)) ErrDatabaseCorrupt);
  live ← liftDb (DbLoadAllTickets rng_Int tx LiveTicketsBucketName);
  _ ← lift (guard_err (negb (pool_len live =? bs_Live state)) ErrDatabaseCorrupt);
  missed ← liftDb (DbLoadAllTickets rng_Int tx MissedTicketsBucketName);
  _ ← lift (guard_err (negb (pool_len missed =? i64 (bs_Missed state))) ErrDatabaseCorrupt);
  revoked ← liftDb (DbLoadAllTickets rng_Int tx RevokedTicketsBucketName);
  _ ← lift (guard_err (negb (pool_len revoked =? i64 (bs_Revoked state))) ErrDatabaseCorrupt);
  utds ← lift (map_err ErrTicketDb (DbFetchBlockUndoData tx h));
  tickets ← lift (map_err ErrTicketDb (DbFetchNewTickets tx h));
  '(winners, fs) ← lift (loadLottery blockHash header p live (bs_NextWinners state));
  _ ← lift (or_panic info);
  mret (MkNode h kh live missed revoked utds tickets winners fs p).

End stake.
