(* ===== verification/StakeLog.v ===== *)
(** * The undo log as a specification

    The specification of the ticket pools that the stake node ([StakeNode.v])
    implements in memory and on disk.  A state is three finite maps; an undo entry
    moves one ticket between them, and touches nothing but the slot of its ticket:
    the three values the maps hold for the ticket's hash.  Connecting a block is a
    sequence of such moves, and its undo data is the log of it. *)

From S2P Require Import Prelude TreapCore TicketTreap TicketDb StakeNode.
From stdpp Require Import list gmap.
#[local] Open Scope Z_scope.

Notation tickets := (gmap (list Z) Value) (only parsing).

Record pools := MkPools {
  p_live : gmap (list Z) Value;
  p_missed : gmap (list Z) Value;
  p_revoked : gmap (list Z) Value
}.

Definition slot : Type := option Value * option Value * option Value.

Definition slot_at (p : pools) (k : bytes) : slot :=
  (p_live p !! k, p_missed p !! k, p_revoked p !! k).

Definition set_slot (p : pools) (k : bytes) (s : slot) : pools :=
  {| p_live := partial_alter (fun _ => s.1.1) k (p_live p);
     p_missed := partial_alter (fun _ => s.1.2) k (p_missed p);
     p_revoked := partial_alter (fun _ => s.2) k (p_revoked p) |}.

Lemma pools_eq p q : (forall k, slot_at p k = slot_at q k) -> p = q.
Proof.
  destruct p as [l m r], q as [l' m' r']. unfold slot_at; cbn. intros E.
  f_equal; apply map_eq; intros k; specialize (E k); congruence.
Qed.

Lemma slot_at_set p k s : slot_at (set_slot p k s) k = s.
Proof. destruct s as [[a b] c]. unfold slot_at, set_slot; cbn. by rewrite !lookup_partial_alter_eq. Qed.

Lemma slot_at_set_ne p k j s : k <> j -> slot_at (set_slot p k s) j = slot_at p j.
Proof. intros. unfold slot_at, set_slot; cbn. by rewrite !lookup_partial_alter_ne. Qed.

Lemma set_slot_same p k : set_slot p k (slot_at p k) = p.
Proof.
  apply pools_eq. intros j. destruct (decide (k = j)) as [->|].
  - apply slot_at_set.
  - by apply slot_at_set_ne.
Qed.

Lemma set_slot_set p k s s' : set_slot (set_slot p k s) k s' = set_slot p k s'.
Proof.
  apply pools_eq. intros j. destruct (decide (k = j)) as [->|].
  - by rewrite !slot_at_set.
  - by rewrite !slot_at_set_ne.
Qed.

Lemma set_slot_comm p k j s s' :
  k <> j -> set_slot (set_slot p k s) j s' = set_slot (set_slot p j s') k s.
Proof.
  intros Hne. apply pools_eq. intros i.
  destruct (decide (k = i)) as [->|Hk], (decide (j = i)) as [->|Hj]; try done;
    rewrite ?slot_at_set, ?(slot_at_set_ne _ j i), ?slot_at_set, ?(slot_at_set_ne _ k i),
      ?slot_at_set, ?(slot_at_set_ne _ j i); done.
Qed.

(** ** The moves *)

Definition live_flags (v : Value) : Prop :=
  Missed v = false /\ Revoked v = false /\ Spent v = false /\ Expired v = false.
Definition missed_flags (v : Value) : Prop :=
  Missed v = true /\ Revoked v = false /\ Spent v = false.
Definition revoked_flags (v : Value) : Prop :=
  Missed v = true /\ Revoked v = true /\ Spent v = false.

Inductive trans : UndoTicketData -> slot -> slot -> Prop :=
| trans_new k v m r :
    live_flags v -> trans (undoOf k v) (None, m, r) (Some v, m, r)
| trans_spent k v m r :
    live_flags v -> trans (undoOf k (setMissed false (setSpent true v))) (Some v, m, r) (None, m, r)
| trans_missed k v e r :
    live_flags v ->
    trans (undoOf k (setExpired e (setMissed true v))) (Some v, None, r)
      (None, Some (setExpired e (setMissed true v)), r)
| trans_revoked k v l :
    missed_flags v ->
    trans (undoOf k (setRevoked true v)) (l, Some v, None) (l, None, Some (setRevoked true v)).

Definition entry (p : pools) (u : UndoTicketData) (p' : pools) : Prop :=
  exists s, trans u (slot_at p (TicketHash u)) s /\ p' = set_slot p (TicketHash u) s.

Inductive log : pools -> list UndoTicketData -> pools -> Prop :=
| log_nil p : log p [] p
| log_cons p u p1 us p2 : entry p u p1 -> log p1 us p2 -> log p (u :: us) p2.

Lemma log_app p us p1 vs p2 : log p us p1 -> log p1 vs p2 -> log p (us ++ vs) p2.
Proof. induction 1; intros; cbn; [done|]. econstructor; eauto. Qed.

Lemma log_app_inv p us vs p' : log p (us ++ vs) p' -> exists q, log p us q /\ log q vs p'.
Proof.
  revert p; induction us as [|u us IH]; intros p Hl; cbn in Hl.
  - exists p. split; [constructor|done].
  - inversion Hl as [|? ? p1 ? ? He Hl']; subst. destruct (IH p1 Hl') as (q & H1 & H2).
    exists q. split; [by econstructor|done].
Qed.

(** A move is undone by putting the old slot back. *)
Lemma entry_undo p u p' :
  entry p u p' -> trans u (slot_at p (TicketHash u)) (slot_at p' (TicketHash u)) /\
  set_slot p' (TicketHash u) (slot_at p (TicketHash u)) = p.
Proof.
  intros (s & Hs & ->). by rewrite slot_at_set, set_slot_set, set_slot_same.
Qed.

Notation hashes us := (TicketHash <$> us).

(** A log leaves the other slots alone. *)
Lemma log_frame p us p' k : log p us p' -> k ∉ hashes us -> slot_at p' k = slot_at p k.
Proof.
  induction 1 as [|q u q1 us q2 (s & Hs & ->) Hl IH]; [done|]. cbn. intros Hk.
  rewrite not_elem_of_cons in Hk. destruct Hk as [Hk1 Hk2]. rewrite IH by done.
  by apply slot_at_set_ne.
Qed.

(** Moves of different tickets commute. *)
Lemma entry_swap p u p1 w p2 :
  entry p u p1 -> entry p1 w p2 -> TicketHash u <> TicketHash w ->
  exists q, entry p w q /\ entry q u p2.
Proof.
  intros (s & Hs & ->) (s' & Hs' & ->) Hne. rewrite slot_at_set_ne in Hs' by done.
  exists (set_slot p (TicketHash w) s'). split; [by exists s'|]. exists s. split.
  - by rewrite slot_at_set_ne by done.
  - by apply set_slot_comm.
Qed.

Lemma entry_log_swap p u p1 us p2 :
  entry p u p1 -> log p1 us p2 -> TicketHash u ∉ hashes us ->
  exists q, log p us q /\ entry q u p2.
Proof.
  intros He Hl. revert p He. induction Hl as [p1|p1 w p3 us p2 Hw Hl IH]; intros p He Hu.
  - exists p. split; [constructor|done].
  - cbn in Hu. rewrite not_elem_of_cons in Hu. destruct Hu as [Hu1 Hu2].
    destruct (entry_swap p u p1 w p3 He Hw Hu1) as (q & Hq1 & Hq2).
    destruct (IH q Hq2 Hu2) as (q' & Hq3 & Hq4). exists q'. split; [by econstructor|done].
Qed.

(** The tickets of a sequence of moves that all take from the same place are
    different. *)
Lemma log_consume (P : slot -> Prop) p us p' :
  (forall u s s', u ∈ us -> trans u s s' -> P s /\ ~ P s') -> log p us p' ->
  NoDup (hashes us) /\ forall k, k ∈ hashes us -> P (slot_at p k) /\ ~ P (slot_at p' k).
Proof.
  intros HP Hl. induction Hl as [q|q u q1 us q2 (s & Hs & ->) Hl IH].
  - split; [constructor|]. intros k Hk. by apply not_elem_of_nil in Hk.
  - destruct (HP u _ _ ltac:(left) Hs) as [H1 H2].
    destruct IH as [Hnd Hin]; [intros v t t' Hv; apply HP; by right|].
    assert (Hu : TicketHash u ∉ hashes us).
    { intros [Hu _]%Hin. by rewrite slot_at_set in Hu. }
    cbn [fmap list_fmap]. split; [by constructor|]. intros k. rewrite elem_of_cons. intros [->|Hk].
    { by rewrite (log_frame _ _ _ _ Hl Hu), slot_at_set. }
    assert (TicketHash u <> k) by (intros <-; done).
    rewrite <- (slot_at_set_ne q (TicketHash u) k s) by done. by apply Hin.
Qed.

(** What a log does to the slot of one of its tickets. *)
Lemma log_at p us p' u :
  log p us p' -> NoDup (hashes us) -> u ∈ us ->
  trans u (slot_at p (TicketHash u)) (slot_at p' (TicketHash u)).
Proof.
  induction 1 as [q|q v q1 us q2 (s & Hs & ->) Hl IH]; intros Hnd Hu.
  - by apply not_elem_of_nil in Hu.
  - cbn in Hnd. apply NoDup_cons in Hnd as [Hv Hnd]. apply elem_of_cons in Hu as [->|Hu].
    + by rewrite (log_frame _ _ _ _ Hl Hv), slot_at_set.
    + specialize (IH Hnd Hu). rewrite slot_at_set_ne in IH; [done|].
      intros E. apply Hv. rewrite E. by apply list_elem_of_fmap_2.
Qed.

(** The kinds of entries. *)
Definition is_new (u : UndoTicketData) : bool :=
  negb (u_Missed u) && negb (u_Revoked u) && negb (u_Spent u).
Definition is_revoke (u : UndoTicketData) : bool := u_Missed u && u_Revoked u.
Definition is_winner (u : UndoTicketData) : bool :=
  (u_Missed u && negb (u_Revoked u) && negb (u_Expired u)) || u_Spent u.
Definition is_expire (u : UndoTicketData) : bool :=
  u_Missed u && negb (u_Revoked u) && u_Expired u.

Ltac flags :=
  repeat match goal with
  | H : live_flags _ |- _ => destruct H as (? & ? & ? & ?)
  | H : missed_flags _ |- _ => destruct H as (? & ? & ?)
  | H : revoked_flags _ |- _ => destruct H as (? & ? & ?)
  | v : Value |- _ =>
      let h := fresh "h" in let kh := fresh "kh" in let m := fresh "fm" in
      let r := fresh "fr" in let s := fresh "fs" in let e := fresh "fe" in
      destruct v as [h kh m r s e]; cbn in *; subst
  end.

Lemma trans_takes_live u s s' :
  is_winner u || is_expire u -> trans u s s' -> s.1.1 <> None /\ ~ s'.1.1 <> None.
Proof. intros Hk Ht. destruct Ht; flags; cbn in *; try done; split; naive_solver. Qed.

Lemma trans_takes_missed u s s' :
  is_revoke u -> trans u s s' -> s.1.2 <> None /\ ~ s'.1.2 <> None.
Proof.
  intros Hk Ht. destruct Ht; flags; cbn in *; try done; try (split; naive_solver).
Qed.

Lemma trans_takes_free u s s' :
  is_new u -> trans u s s' -> s.1.1 = None /\ ~ s'.1.1 = None.
Proof. intros Hk Ht. destruct Ht; flags; cbn in *; try done; split; naive_solver. Qed.

(** The moves out of the live pool leave nothing of their tickets in it. *)
Lemma log_takes_live p us p' k :
  Forall (fun u => is_winner u || is_expire u) us -> log p us p' ->
  NoDup (hashes us) /\
  (k ∈ hashes us -> p_live p !! k <> None /\ p_live p' !! k = None).
Proof.
  intros Hk Hl. rewrite Forall_forall in Hk.
  destruct (log_consume (fun s => s.1.1 <> None) p us p') as [Hnd Hin];
    [intros u s s' Hu; by apply trans_takes_live, Hk|done|].
  split; [done|]. intros [H1 H2]%Hin. cbn in H1, H2. split; [done|].
  by destruct (p_live p' !! k); [exfalso; apply H2|].
Qed.

(** ** Well-formed pools *)

(** A ticket is in at most one pool, under a hash, with the flags of that pool. *)
Definition slot_wf (k : bytes) (s : slot) : Prop :=
  match s with
  | (None, None, None) => True
  | (Some v, None, None) => is_hash k /\ value_ok v /\ live_flags v
  | (None, Some v, None) => is_hash k /\ value_ok v /\ missed_flags v
  | (None, None, Some v) => is_hash k /\ value_ok v /\ revoked_flags v
  | _ => False
  end.

Definition pools_wf (p : pools) : Prop := forall k, slot_wf k (slot_at p k).

(** What a new ticket must satisfy. *)
Definition unknown (p : pools) (k : bytes) : Prop := is_hash k /\ slot_at p k = (None, None, None).

Lemma trans_wf k u s s' :
  TicketHash u = k -> slot_wf k s -> trans u s s' ->
  (is_new u -> is_hash k /\ value_ok (valueOf u) /\ s = (None, None, None)) ->
  slot_wf k s' /\ utd_ok u.
Proof.
  intros <- Hs Ht Hnew. destruct Ht as [k v m r Hf|k v m r Hf|k v e r Hf|k v l Hf]; flags; cbn in *.
  - destruct (Hnew I) as (H1 & [H2 H3] & E). simplify_eq/=. repeat split; try done; apply H2 || apply H3.
  - destruct m, r; try done. destruct Hs as (H1 & [H2 H3] & _). repeat split; try done; apply H2 || apply H3.
  - destruct r; try done. destruct Hs as (H1 & [H2 H3] & _). repeat split; try done; apply H2 || apply H3.
  - destruct l; try done. destruct Hs as (H1 & [H2 H3] & _). repeat split; try done; apply H2 || apply H3.
Qed.

(** The moves by kind. *)
Lemma trans_winner_inv k u s s' :
  slot_wf k s -> trans u s s' -> is_winner u = true ->
  exists v, s = (Some v, None, None) /\
    s' = (None, if u_Spent u then None else Some (setMissed true v), None).
Proof.
  intros Hs Ht. destruct Ht as [j v m r Hf|j v m r Hf|j v e r Hf|j v l Hf]; flags; cbn; try done;
    intros; destruct_or?; repeat (match goal with x : option Value |- _ => destruct x end; try done);
    try (destruct e; try done); eexists; done.
Qed.

Lemma trans_expire_inv k u s s' :
  slot_wf k s -> trans u s s' -> is_expire u = true ->
  exists v, s = (Some v, None, None) /\
    s' = (None, Some (setExpired true (setMissed true v)), None).
Proof.
  intros Hs Ht. destruct Ht as [j v m r Hf|j v m r Hf|j v e r Hf|j v l Hf]; flags; cbn; try done;
    intros; repeat (match goal with x : option Value |- _ => destruct x end; try done);
    try (destruct e; try done); eexists; done.
Qed.

Lemma trans_revoke_inv k u s s' :
  slot_wf k s -> trans u s s' -> is_revoke u = true ->
  exists v, s = (None, Some v, None) /\ s' = (None, None, Some (setRevoked true v)).
Proof.
  intros Hs Ht. destruct Ht as [j v m r Hf|j v m r Hf|j v e r Hf|j v l Hf]; flags; cbn; try done;
    intros; repeat (match goal with x : option Value |- _ => destruct x end; try done);
    try (destruct e; try done); eexists; done.
Qed.

Lemma trans_new_inv u s s' :
  trans u s s' -> is_new u = true -> s' = (Some (valueOf u), s.1.2, s.2).
Proof.
  intros Ht. destruct Ht as [j v m r Hf|j v m r Hf|j v e r Hf|j v l Hf]; flags; cbn; done.
Qed.

Lemma trans_empty_new u s' : trans u (None, None, None) s' -> is_new u = true.
Proof. intros Ht. inversion Ht; subst; flags; done. Qed.

Lemma set_slot_wf p k s : pools_wf p -> slot_wf k s -> pools_wf (set_slot p k s).
Proof.
  intros Hp Hs j. destruct (decide (k = j)) as [->|].
  - by rewrite slot_at_set.
  - by rewrite slot_at_set_ne.
Qed.

Definition admissible (p : pools) (u : UndoTicketData) : Prop :=
  is_new u -> unknown p (TicketHash u) /\ value_ok (valueOf u).

Lemma entry_wf p u p' :
  pools_wf p -> entry p u p' -> admissible p u -> pools_wf p' /\ utd_ok u.
Proof.
  intros Hp (s & Hs & ->) Ha.
  destruct (trans_wf (TicketHash u) u _ s eq_refl (Hp _) Hs) as [H1 H2].
  - intros Hn. destruct (Ha Hn) as [[? ?] ?]. done.
  - split; [by apply set_slot_wf|done].
Qed.

Lemma log_wf p us p' :
  pools_wf p -> log p us p' ->
  NoDup (hashes us) -> (forall u, u ∈ us -> admissible p u) ->
  pools_wf p' /\ Forall utd_ok us.
Proof.
  intros Hp Hl. revert Hp. induction Hl as [q|q u q1 us q2 He Hl IH]; intros Hp Hnd Ha.
  - by repeat constructor.
  - cbn in Hnd. apply NoDup_cons in Hnd as [Hu Hnd].
    destruct (entry_wf q u q1 Hp He (Ha u ltac:(left))) as [Hq1 Huok].
    destruct IH as [H1 H2]; [done|done| |].
    + intros w Hw Hn. destruct (Ha w ltac:(by right) Hn) as [[H1 H2] H3]. repeat split; try done; try apply H3.
      destruct He as (s & _ & ->). rewrite slot_at_set_ne; [done|].
      intros E. apply Hu. rewrite E. by apply list_elem_of_fmap_2.
    + split; [done|by constructor].
Qed.

(** Every move changes the sizes of the pools by its kind. *)
Definition count (P : UndoTicketData -> bool) (us : list UndoTicketData) : Z :=
  Z.of_nat (length (filter (fun u => P u) us)).

Lemma count_nil P : count P [] = 0.
Proof. done. Qed.

Lemma count_cons P u us : count P (u :: us) = (if P u then 1 else 0) + count P us.
Proof.
  unfold count. destruct (P u) eqn:E.
  - rewrite filter_cons_True by (by rewrite E). cbn [length]. lia.
  - rewrite filter_cons_False by (rewrite E; auto). lia.
Qed.

Lemma count_app P us vs : count P (us ++ vs) = count P us + count P vs.
Proof. unfold count. rewrite filter_app, length_app. lia. Qed.

Lemma count_all P us : (forall u, u ∈ us -> P u = true) -> count P us = Z.of_nat (length us).
Proof.
  induction us as [|u us IH]; intros HP; [done|]. rewrite count_cons, IH, HP.
  - cbn [length]. lia.
  - left.
  - intros v Hv. apply HP. by right.
Qed.

Lemma count_none P us : (forall u, u ∈ us -> P u = false) -> count P us = 0.
Proof.
  induction us as [|u us IH]; intros HP; [done|]. rewrite count_cons, IH, HP; [done|left|].
  intros v Hv. apply HP. by right.
Qed.

Lemma size_partial_alter_Some (m : tickets) k v :
  m !! k = None -> Z.of_nat (size (partial_alter (fun _ => Some v) k m)) = Z.of_nat (size m) + 1.
Proof. intros H. change (partial_alter _ k m) with (<[k := v]> m). rewrite map_size_insert_None by done. lia. Qed.

Lemma size_partial_alter_None (m : tickets) k v :
  m !! k = Some v -> Z.of_nat (size (partial_alter (fun _ => None) k m)) = Z.of_nat (size m) - 1.
Proof.
  intros H. change (partial_alter _ k m) with (delete k m). rewrite map_size_delete_Some by eauto.
  assert (size m <> 0%nat); [|lia]. intros E%map_size_empty_inv. subst. by rewrite lookup_empty in H.
Qed.

Lemma size_partial_alter_id (m : tickets) k o :
  m !! k = o -> size (partial_alter (fun _ => o) k m) = size m.
Proof. intros <-. by rewrite partial_alter_self. Qed.

Definition sizes (p : pools) : Z * Z * Z :=
  (Z.of_nat (size (p_live p)), Z.of_nat (size (p_missed p)), Z.of_nat (size (p_revoked p))).

Lemma entry_sizes p u p' :
  entry p u p' ->
  let b (x : bool) := if x then 1 else 0 in
  sizes p' =
  (Z.of_nat (size (p_live p)) + b (is_new u) - b (is_winner u) - b (is_expire u),
   Z.of_nat (size (p_missed p)) + b (is_winner u) + b (is_expire u) - b (u_Spent u) - b (is_revoke u),
   Z.of_nat (size (p_revoked p)) + b (is_revoke u)).
Proof.
  intros (s & Hs & ->) b. unfold sizes, set_slot, slot_at in *; cbn [p_live p_missed p_revoked].
  remember (p_live p !! TicketHash u, p_missed p !! TicketHash u, p_revoked p !! TicketHash u) as s0 eqn:E.
  destruct Hs as [k v m r Hf|k v m r Hf|k v e r Hf|k v l Hf]; cbn [TicketHash undoOf fst snd] in *;
    injection E as E1 E2 E3; symmetry in E1, E2, E3.
  all: rewrite ?(size_partial_alter_Some _ _ _ E1), ?(size_partial_alter_Some _ _ _ E2),
    ?(size_partial_alter_Some _ _ _ E3), ?(size_partial_alter_None _ _ _ E1),
    ?(size_partial_alter_None _ _ _ E2), ?(size_partial_alter_None _ _ _ E3),
    ?(size_partial_alter_id _ _ _ E1), ?(size_partial_alter_id _ _ _ E2),
    ?(size_partial_alter_id _ _ _ E3).
  all: flags; unfold b, is_new, is_winner, is_expire, is_revoke; cbn.
  all: try (destruct e; cbn).
  all: apply f_equal2; [apply f_equal2|]; lia.
Qed.

Lemma log_sizes p us p' :
  log p us p' ->
  Z.of_nat (size (p_live p')) =
    Z.of_nat (size (p_live p)) + count is_new us - count is_winner us - count is_expire us /\
  Z.of_nat (size (p_missed p')) =
    Z.of_nat (size (p_missed p)) + count is_winner us + count is_expire us
    - count u_Spent us - count is_revoke us /\
  Z.of_nat (size (p_revoked p')) = Z.of_nat (size (p_revoked p)) + count is_revoke us.
Proof.
  induction 1 as [q|q u q1 us q2 He Hl IH]; [rewrite !count_nil; lia|].
  apply entry_sizes in He. unfold sizes in He. injection He as E1 E2 E3.
  rewrite !count_cons. destruct IH as (IH1 & IH2 & IH3). rewrite IH1, IH2, IH3, E1, E2, E3. lia.
Qed.

(** The winners a log records, in order. *)
Definition winners_of (us : list UndoTicketData) : list bytes :=
  TicketHash <$> filter (fun u => is_winner u) us.

Lemma winners_of_cons u us :
  winners_of (u :: us) = if is_winner u then TicketHash u :: winners_of us else winners_of us.
Proof.
  unfold winners_of. destruct (is_winner u) eqn:E.
  - by rewrite filter_cons_True by (by rewrite E).
  - by rewrite filter_cons_False by (rewrite E; auto).
Qed.

Lemma winners_of_app us vs : winners_of (us ++ vs) = winners_of us ++ winners_of vs.
Proof. unfold winners_of. by rewrite filter_app, fmap_app. Qed.

Lemma winners_of_all us : Forall (fun u => is_winner u) us -> winners_of us = hashes us.
Proof.
  induction 1 as [|u us Hu Hus IH]; [done|]. rewrite winners_of_cons, IH.
  destruct (is_winner u); [done|by exfalso].
Qed.

Lemma winners_of_none us : Forall (fun u => is_winner u = false) us -> winners_of us = [].
Proof. induction 1 as [|u us Hu Hus IH]; [done|]. by rewrite winners_of_cons, IH, Hu. Qed.
