(* ===== verification/StakeProofs.v ===== *)
(** * The stake node implements the undo log

    The operations of [StakeNode.v] on ticket pools, read through the contents of
    the pools, are the moves of [StakeLog.v]: connecting a block appends to a log,
    and disconnecting it replays the log backwards. *)

From S2P Require Import Prelude TreapCore TicketTreap Lottery WireCommon TicketDb Compact StakeNode StakeLog.
From stdpp Require Import list gmap.
#[local] Open Scope Z_scope.

Section refine.
Context `{TicketPool T} {R : Type} (rng_Int : R -> Z * R).

#[local] Notation safePut := (safePut rng_Int).

Definition abs (live missed revoked : T) : pools :=
  MkPools (pool_view live) (pool_view missed) (pool_view revoked).

(** ** The checked operations *)

Lemma pool_has_view t k : pool_ok t -> pool_has t k = bool_decide (is_Some (pool_view t !! k)).
Proof. intros Ht. unfold pool_has. rewrite pool_get_ok by done. by destruct (pool_view t !! k). Qed.

Lemma safeGet_run t k v : pool_ok t -> pool_view t !! k = Some v -> safeGet t k = Ok v.
Proof. intros Ht Hv. unfold safeGet. by rewrite pool_get_ok, Hv. Qed.

Lemma safeGet_pre t k v : pool_ok t -> safeGet t k = Ok v -> pool_view t !! k = Some v.
Proof.
  intros Ht. unfold safeGet. rewrite pool_get_ok by done.
  destruct (pool_view t !! k); naive_solver.
Qed.

Lemma safeDelete_run t k v :
  pool_ok t -> pool_view t !! k = Some v ->
  exists t', safeDelete t k = Ok t' /\ pool_ok t' /\ pool_view t' = delete k (pool_view t).
Proof.
  intros Ht Hv. unfold safeDelete. rewrite pool_has_view, Hv by done. cbn.
  destruct (pool_delete_ok t k Ht). eauto.
Qed.

Lemma safePut_run t k v rng :
  pool_ok t -> pool_view t !! k = None ->
  exists t' rng', safePut t k v rng = Ok (t', rng') /\ pool_ok t' /\
    pool_view t' = <[k := v]> (pool_view t).
Proof.
  intros Ht Hv. unfold StakeNode.safePut. rewrite pool_has_view, Hv by done. cbn.
  destruct (rng_Int rng) as [prio rng']. destruct (pool_put_ok t k v prio Ht). eauto.
Qed.

Lemma safePut_pre t k v rng t' rng' :
  pool_ok t -> safePut t k v rng = Ok (t', rng') -> pool_view t !! k = None.
Proof.
  intros Ht. unfold StakeNode.safePut. rewrite pool_has_view by done.
  destruct (pool_view t !! k); done.
Qed.

(** ** Running a computation *)

Lemma lift_run {S E A} (m : res E A) (s : S) a : m = Ok a -> lift m s = Ok (a, s).
Proof. by intros ->. Qed.

Lemma stM_bind_run {S E A B} (m : stM S E A) (k : A -> stM S E B) s a s1 :
  m s = Ok (a, s1) -> (m ≫= k) s = k a s1.
Proof. intros E1. unfold mbind, stM_bind. by rewrite E1. Qed.

Ltac run_lift H := rewrite (stM_bind_run _ _ _ _ _ (lift_run _ _ _ H)).

(** ** The state of the loops *)

Definition work_ok (w : work (T := T)) : Prop :=
  pool_ok (w_live w) /\ pool_ok (w_missed w) /\ pool_ok (w_revoked w).

Definition wabs (w : work (T := T)) : pools := abs (w_live w) (w_missed w) (w_revoked w).

(** A step of a loop that makes the move [u]. *)
Definition advances (w : work (T := T)) (u : UndoTicketData) (w' : work (T := T)) : Prop :=
  work_ok w' /\ entry (wabs w) u (wabs w') /\ w_undo w' = w_undo w ++ [u].

Lemma abs_set_slot live missed revoked live' missed' revoked' k a b c :
  pool_view live' = partial_alter (fun _ => a) k (pool_view live) ->
  pool_view missed' = partial_alter (fun _ => b) k (pool_view missed) ->
  pool_view revoked' = partial_alter (fun _ => c) k (pool_view revoked) ->
  abs live' missed' revoked' = set_slot (abs live missed revoked) k (a, b, c).
Proof. intros E1 E2 E3. unfold abs, set_slot; cbn. by rewrite E1, E2, E3. Qed.

Lemma view_same (t : T) k o : pool_view t !! k = o -> pool_view t = partial_alter (fun _ => o) k (pool_view t).
Proof. intros <-. by rewrite partial_alter_self. Qed.

(** ** The steps of connecting a block *)

Lemma winner_step_run spent w k v m r rng :
  work_ok w -> slot_at (wabs w) k = (Some v, m, r) -> live_flags v ->
  (hashInSlice k spent = false -> m = None) ->
  exists u w' rng', winner_step rng_Int spent w k rng = Ok (w', rng') /\ advances w u w' /\
    TicketHash u = k /\ is_winner u /\ u_Spent u = hashInSlice k spent.
Proof.
  intros (H1 & H2 & H3) Hs Hf Hm. unfold slot_at, wabs, abs in Hs; cbn in Hs.
  injection Hs as E1 E2 E3. unfold winner_step.
  run_lift (safeGet_run _ _ _ H1 E1).
  destruct (safeDelete_run _ _ _ H1 E1) as (l' & Hd & Hl1 & Hl2).
  destruct (hashInSlice k spent) eqn:Hsp.
  - run_lift Hd. exists (undoOf k (setMissed false (setSpent true v))). do 2 eexists. split; [done|].
    split; [|flags; done]. split_and!; [done| |done].
    eexists. split; [|apply abs_set_slot; [exact Hl2|by apply view_same..]].
    unfold slot_at, wabs, abs; cbn. rewrite E1, E2, E3. by constructor.
  - run_lift Hd. rewrite (Hm eq_refl) in *.
    destruct (safePut_run (w_missed w) k (setMissed true (setSpent false v)) rng H2 E2)
      as (m' & rng' & Hp & Hm1 & Hm2).
    rewrite (stM_bind_run _ _ _ _ _ Hp). exists (undoOf k (setMissed true (setSpent false v))).
    do 2 eexists. split; [done|].
    split; [|flags; done]. split_and!; [done| |done].
    eexists. split; [|apply abs_set_slot; [exact Hl2|exact Hm2|by apply view_same]].
    unfold slot_at, wabs, abs; cbn. rewrite E1, E2, E3.
    assert (E : setMissed true (setSpent false v) = setExpired false (setMissed true v))
      by (flags; done).
    rewrite E. by constructor.
Qed.

Lemma expire_step_run w k v r rng :
  work_ok w -> slot_at (wabs w) k = (Some v, None, r) -> live_flags v ->
  exists u w' rng', expire_step rng_Int w k rng = Ok (w', rng') /\ advances w u w' /\
    TicketHash u = k /\ is_expire u.
Proof.
  intros (H1 & H2 & H3) Hs Hf. unfold slot_at, wabs, abs in Hs; cbn in Hs.
  injection Hs as E1 E2 E3. unfold expire_step.
  run_lift (safeGet_run _ _ _ H1 E1).
  destruct (safeDelete_run _ _ _ H1 E1) as (l' & Hd & Hl1 & Hl2). run_lift Hd.
  destruct (safePut_run (w_missed w) k (setExpired true (setMissed true v)) rng H2 E2)
    as (m' & rng' & Hp & Hm1 & Hm2).
  rewrite (stM_bind_run _ _ _ _ _ Hp). exists (undoOf k (setExpired true (setMissed true v))).
  do 2 eexists. split; [done|]. split; [|flags; done]. split_and!; [done| |done].
  eexists. split; [|apply abs_set_slot; [exact Hl2|exact Hm2|by apply view_same]].
  unfold slot_at, wabs, abs; cbn. rewrite E1, E2, E3. by constructor.
Qed.

Lemma revoke_step_run w k v l rng :
  work_ok w -> slot_at (wabs w) k = (l, Some v, None) -> missed_flags v ->
  exists u w' rng', revoke_step rng_Int w k rng = Ok (w', rng') /\ advances w u w' /\
    TicketHash u = k /\ is_revoke u.
Proof.
  intros (H1 & H2 & H3) Hs Hf. unfold slot_at, wabs, abs in Hs; cbn in Hs.
  injection Hs as E1 E2 E3. unfold revoke_step.
  run_lift (safeGet_run _ _ _ H2 E2).
  destruct (safeDelete_run _ _ _ H2 E2) as (m' & Hd & Hm1 & Hm2). run_lift Hd.
  destruct (safePut_run (w_revoked w) k (setRevoked true v) rng H3 E3)
    as (r' & rng' & Hp & Hr1 & Hr2).
  rewrite (stM_bind_run _ _ _ _ _ Hp). exists (undoOf k (setRevoked true v)).
  do 2 eexists. split; [done|]. split; [|flags; done]. split_and!; [done| |done].
  eexists. split; [|apply abs_set_slot; [by apply view_same|exact Hm2|exact Hr2]].
  unfold slot_at, wabs, abs; cbn. rewrite E1, E2, E3. by constructor.
Qed.

Lemma new_step_run h kh w k m r rng :
  work_ok w -> slot_at (wabs w) k = (None, m, r) ->
  exists u w' rng', new_step rng_Int h kh w k rng = Ok (w', rng') /\ advances w u w' /\
    u = undoOf k (MkValue h kh false false false false).
Proof.
  intros (H1 & H2 & H3) Hs. unfold slot_at, wabs, abs in Hs; cbn in Hs.
  injection Hs as E1 E2 E3. unfold new_step.
  destruct (safePut_run (w_live w) k (MkValue h kh false false false false) rng H1 E1)
    as (l' & rng' & Hp & Hl1 & Hl2).
  rewrite (stM_bind_run _ _ _ _ _ Hp).
  exists (undoOf k (MkValue h kh false false false false)). do 2 eexists. split; [done|].
  split; [|done]. split_and!; [done| |done].
  eexists. split; [|apply abs_set_slot; [exact Hl2|by apply view_same..]].
  unfold slot_at, wabs, abs; cbn. rewrite E1, E2, E3. by repeat constructor.
Qed.

(** What a successful step found. *)

Ltac take_get Hv :=
  match goal with E : safeGet _ _ = Ok _ |- _ => apply safeGet_pre in E as Hv; [|done] end.

Lemma winner_step_pre spent w k rng w' rng' :
  work_ok w -> winner_step rng_Int spent w k rng = Ok (w', rng') ->
  exists v m r, slot_at (wabs w) k = (Some v, m, r) /\ (hashInSlice k spent = false -> m = None).
Proof.
  intros (H1 & H2 & H3) Hw. unfold winner_step in Hw.
  destruct (hashInSlice k spent); inv_stM; take_get Hv; do 3 eexists;
    unfold slot_at, wabs, abs; cbn; rewrite Hv; (split; [done|]); intros; [done|].
  by eapply safePut_pre.
Qed.

Lemma expire_step_pre w k rng w' rng' :
  work_ok w -> expire_step rng_Int w k rng = Ok (w', rng') ->
  exists v r, slot_at (wabs w) k = (Some v, None, r).
Proof.
  intros (H1 & H2 & H3) Hw. unfold expire_step in Hw. inv_stM.
  take_get Hv. do 2 eexists. unfold slot_at, wabs, abs; cbn. rewrite Hv. do 2 f_equal. by eapply safePut_pre.
Qed.

Lemma revoke_step_pre w k rng w' rng' :
  work_ok w -> revoke_step rng_Int w k rng = Ok (w', rng') ->
  exists v l, slot_at (wabs w) k = (l, Some v, None).
Proof.
  intros (H1 & H2 & H3) Hw. unfold revoke_step in Hw. inv_stM.
  take_get Hv. do 2 eexists. unfold slot_at, wabs, abs; cbn. rewrite Hv. f_equal. by eapply safePut_pre.
Qed.

Lemma new_step_pre h kh w k rng w' rng' :
  work_ok w -> new_step rng_Int h kh w k rng = Ok (w', rng') ->
  exists m r, slot_at (wabs w) k = (None, m, r).
Proof.
  intros (H1 & H2 & H3) Hw. unfold new_step in Hw. inv_stM.
  do 2 eexists. unfold slot_at, wabs, abs; cbn. do 2 f_equal. by eapply safePut_pre.
Qed.

(** ** The loops of connecting a block *)

Lemma foldS_log (Q : work (T := T) -> Prop) (K : UndoTicketData -> Prop)
    (step : work (T := T) -> bytes -> stM R stakeError (work (T := T))) l w rng w' rng' :
  (forall w k rng w' rng', Q w -> step w k rng = Ok (w', rng') ->
    exists u, advances w u w' /\ TicketHash u = k /\ K u /\ Q w') ->
  Q w -> foldS step w l rng = Ok (w', rng') ->
  exists us, log (wabs w) us (wabs w') /\ w_undo w' = w_undo w ++ us /\ hashes us = l /\
    Forall K us /\ Q w'.
Proof.
  intros Hstep. revert w rng; induction l as [|k l IH]; intros w rng Hw Hf; cbn in Hf; inv_stM.
  - exists []. rewrite app_nil_r. by repeat constructor.
  - destruct (Hstep w k rng _ _ Hw ltac:(eassumption)) as (u & (Hu1 & Hu2 & Hu3) & Hk & HK & HQ).
    destruct (IH _ _ HQ ltac:(eassumption)) as (us & Hl & Hun & Hh & HKs & HQ').
    exists (u :: us). split_and!; [by econstructor| | |by constructor|done].
    + rewrite Hun, Hu3, <- app_assoc. done.
    + cbn. by rewrite Hk, Hh.
Qed.

Definition work_wf (w : work (T := T)) : Prop := work_ok w /\ pools_wf (wabs w).

Lemma advances_wf w u w' : work_wf w -> advances w u w' -> is_new u = false -> work_wf w'.
Proof.
  intros [H1 H2] (H3 & H4 & _) Hn. split; [done|].
  eapply entry_wf; [exact H2|exact H4|]. intros Hn'. rewrite Hn in Hn'. done.
Qed.

Lemma slot_wf_live k v m r : slot_wf k (Some v, m, r) -> live_flags v /\ m = None /\ r = None.
Proof. destruct m, r; cbn; naive_solver. Qed.

Lemma slot_wf_missed k v l r : slot_wf k (l, Some v, r) -> missed_flags v /\ l = None /\ r = None.
Proof. destruct l, r; cbn; naive_solver. Qed.

Lemma winner_loop_log spent l w rng w' rng' :
  work_wf w -> foldS (winner_step rng_Int spent) w l rng = Ok (w', rng') ->
  exists us, log (wabs w) us (wabs w') /\ w_undo w' = w_undo w ++ us /\ hashes us = l /\
    Forall (fun u => is_winner u /\ u_Spent u = hashInSlice (TicketHash u) spent) us /\ work_wf w'.
Proof.
  apply foldS_log. clear. intros w k rng w' rng' Hw E.
  destruct (winner_step_pre _ _ _ _ _ _ (proj1 Hw) E) as (v & m & r & Hs & Hm).
  pose proof (proj2 Hw k) as Hk. rewrite Hs in Hk. apply slot_wf_live in Hk as (Hf & _).
  destruct (winner_step_run spent w k v m r rng (proj1 Hw) Hs Hf Hm)
    as (u & w2 & rng2 & E2 & Ha & Hu & HK & Hsp). rewrite E2 in E. simplify_eq.
  exists u. split_and!; try done. eapply advances_wf; [done..|].
  unfold is_winner, is_new in *. by destruct (u_Missed u), (u_Spent u), (u_Revoked u).
Qed.

Lemma expire_loop_log l w rng w' rng' :
  work_wf w -> foldS (expire_step rng_Int) w l rng = Ok (w', rng') ->
  exists us, log (wabs w) us (wabs w') /\ w_undo w' = w_undo w ++ us /\ hashes us = l /\
    Forall (fun u => is_expire u) us /\ work_wf w'.
Proof.
  apply foldS_log. clear. intros w k rng w' rng' Hw E.
  destruct (expire_step_pre _ _ _ _ _ (proj1 Hw) E) as (v & r & Hs).
  pose proof (proj2 Hw k) as Hk. rewrite Hs in Hk. apply slot_wf_live in Hk as (Hf & _).
  destruct (expire_step_run w k v r rng (proj1 Hw) Hs Hf)
    as (u & w2 & rng2 & E2 & Ha & Hu & HK). rewrite E2 in E. simplify_eq.
  exists u. split_and!; try done. eapply advances_wf; [done..|].
  unfold is_expire, is_new in *. by destruct (u_Missed u), (u_Spent u), (u_Revoked u).
Qed.

Lemma revoke_loop_log l w rng w' rng' :
  work_wf w -> foldS (revoke_step rng_Int) w l rng = Ok (w', rng') ->
  exists us, log (wabs w) us (wabs w') /\ w_undo w' = w_undo w ++ us /\ hashes us = l /\
    Forall (fun u => is_revoke u) us /\ work_wf w'.
Proof.
  apply foldS_log. clear. intros w k rng w' rng' Hw E.
  destruct (revoke_step_pre _ _ _ _ _ (proj1 Hw) E) as (v & r & Hs).
  pose proof (proj2 Hw k) as Hk. rewrite Hs in Hk. apply slot_wf_missed in Hk as (Hf & _).
  destruct (revoke_step_run w k v r rng (proj1 Hw) Hs Hf)
    as (u & w2 & rng2 & E2 & Ha & Hu & HK). rewrite E2 in E. simplify_eq.
  exists u. split_and!; try done. eapply advances_wf; [done..|].
  unfold is_revoke, is_new in *. by destruct (u_Missed u), (u_Spent u), (u_Revoked u).
Qed.

Definition newEntry (h kh : Z) (k : bytes) : UndoTicketData :=
  undoOf k (MkValue h kh false false false false).

Lemma new_loop_log h kh l w rng w' rng' :
  work_ok w -> foldS (new_step rng_Int h kh) w l rng = Ok (w', rng') ->
  exists us, log (wabs w) us (wabs w') /\ w_undo w' = w_undo w ++ us /\ hashes us = l /\
    Forall (fun u => u = newEntry h kh (TicketHash u)) us /\ work_ok w'.
Proof.
  apply foldS_log. clear. intros w k rng w' rng' Hw E.
  destruct (new_step_pre _ _ _ _ _ _ _ Hw E) as (m & r & Hs).
  destruct (new_step_run h kh w k m r rng Hw Hs)
    as (u & w2 & rng2 & E2 & Ha & Hu). rewrite E2 in E. simplify_eq.
  exists (newEntry h kh k). split_and!; try done. apply Ha.
Qed.

(** ** Connecting a block as a log *)

Definition nabs (node : Node T) : pools :=
  abs (liveTickets node) (missedTickets node) (revokedTickets node).

Definition node_pools_ok (node : Node T) : Prop :=
  pool_ok (liveTickets node) /\ pool_ok (missedTickets node) /\ pool_ok (revokedTickets node).

(** Votes and expiry are processed from this height on. *)
Definition stakeEnabled (node : Node T) (header : BlockHeader) : bool :=
  h_KeyHeight header >=? u32 (StakeEnabledHeight (params node)).

(** A live ticket that is too old for the block. *)
Definition expires (node : Node T) (header : BlockHeader) (k : bytes) : Prop :=
  exists v, pool_view (liveTickets node) !! k = Some v /\
    KeyHeight v <= toExpireKeyHeight (h_KeyHeight header) (params node).

(** The four groups of moves of a block, in their order. *)
Record block_log (node : Node T) (header : BlockHeader) (spent revoked new : list bytes)
    (isKeyBlock : bool) (us1 us2 us3 us4 : list UndoTicketData) (p' : pools) : Prop := {
  bl_log : log (nabs node) (us1 ++ us2 ++ us3 ++ us4) p';
  bl_spent : stakeEnabled node header -> Forall (fun t => t ∈ nextWinners node) spent;
  bl_winners : hashes us1 = if stakeEnabled node header && isKeyBlock then nextWinners node else [];
  bl_winners_kind :
    Forall (fun u => is_winner u /\ u_Spent u = hashInSlice (TicketHash u) spent) us1;
  bl_expired : forall k, k ∈ hashes us2 <->
    stakeEnabled node header /\ isKeyBlock /\ k ∉ nextWinners node /\ expires node header k;
  bl_expired_kind : Forall (fun u => is_expire u) us2;
  bl_revoked : hashes us3 = if stakeEnabled node header then revoked else [];
  bl_revoked_kind : Forall (fun u => is_revoke u) us3;
  bl_new : us4 = newEntry (u32 (height node + 1)) (h_KeyHeight header) <$> new
}.

Lemma hashInSlice_elem h l : hashInSlice h l = bool_decide (h ∈ l).
Proof.
  induction l as [|x l IH]; cbn [hashInSlice].
  - symmetry. apply bool_decide_eq_false. apply not_elem_of_nil.
  - destruct (decide (h = x)) as [->|E].
    + rewrite !bool_decide_true by (done || left). done.
    + rewrite (bool_decide_false (h = x)), IH by done. apply bool_decide_ext. rewrite elem_of_cons. naive_solver.
Qed.

Lemma fetchExpired_elem kh t l k :
  pool_ok t -> fetchExpired kh t = Some l ->
  k ∈ l <-> exists v, pool_view t !! k = Some v /\ KeyHeight v <= kh.
Proof.
  intros Ht. rewrite fetchExpired_spec. intros; simplify_eq.
  rewrite list_elem_of_fmap. split.
  - intros ([j v] & -> & Hin). apply list_elem_of_filter in Hin as [Hv Hin].
    exists v. split; [|done]. by apply pool_entries_elem.
  - intros (v & Hv & Hle). exists (k, v). split; [done|]. apply list_elem_of_filter.
    split; [done|]. by apply pool_entries_elem.
Qed.

(** After the winners have left, the other live tickets are as before. *)
Lemma winners_left node w us1 :
  log (nabs node) us1 (wabs w) -> Forall (fun u => is_winner u) us1 -> forall k,
  pool_view (w_live w) !! k =
    if bool_decide (k ∈ hashes us1) then None else pool_view (liveTickets node) !! k.
Proof.
  intros Hl Hk k. case_bool_decide as Hin.
  - eapply (log_takes_live _ us1 (wabs w) k); [|done|done].
    eapply Forall_impl; [exact Hk|]. intros u Hu. apply orb_True. by left.
  - pose proof (log_frame _ _ _ _ Hl Hin) as E. unfold slot_at, wabs, nabs, abs in E.
    cbn in E. by injection E.
Qed.

Lemma connectPools_log node header spent revoked new isKey rng w rng' :
  node_pools_ok node -> pools_wf (nabs node) ->
  connectPools rng_Int header spent revoked new isKey node rng = Ok (w, rng') ->
  exists us1 us2 us3 us4,
    w_undo w = us1 ++ us2 ++ us3 ++ us4 /\ work_ok w /\
    block_log node header spent revoked new isKey us1 us2 us3 us4 (wabs w).
Proof.
  intros Hok Hwf Hc. unfold connectPools in Hc. apply stM_bind_Ok in Hc as (w3 & rng3 & Hc & Hnew).
  set (w0 := MkWork _ _ _ []) in *.
  assert (Hw0 : work_wf w0) by (split; [apply Hok|apply Hwf]).
  enough (exists us1 us2 us3, w_undo w3 = us1 ++ us2 ++ us3 /\ work_wf w3 /\
    block_log node header spent revoked [] isKey us1 us2 us3 [] (wabs w3))
    as (us1 & us2 & us3 & U & W & [L F1 F2 F3 F4 F5 F6 F7 _]).
  { destruct (new_loop_log _ _ _ _ _ _ _ (proj1 W) Hnew) as (us4 & L4 & U4 & H4 & K4 & W4).
    exists us1, us2, us3, us4. rewrite U4, U, <- !app_assoc. split_and!; [done|done|].
    constructor; try done.
    - rewrite app_nil_r in L. rewrite 2!app_assoc, <- (app_assoc us1). by eapply log_app.
    - rewrite <- H4. clear -K4. induction K4 as [|u us Hu Hus IH]; [done|]. cbn. by rewrite <- Hu, <- IH. }
  change (h_KeyHeight header >=? u32 (StakeEnabledHeight (params node)))
    with (stakeEnabled node header) in Hc.
  destruct (stakeEnabled node header) eqn:Hen; inv_stM.
  2:{ exists [], [], []. split_and!; [done|done|]. constructor; rewrite ?Hen; try done; [constructor|].
      intros k. split; [intros Hk; by apply not_elem_of_nil in Hk|naive_solver]. }
  match goal with E : guard_err _ _ = Ok _ |- _ => apply guard_err_Ok, negb_false_iff in E; rename E into Hsp end.
  match goal with E : foldS (revoke_step _) _ _ _ = _ |- _ => rename E into Hrev end.
  assert (Hspent : Forall (fun t => t ∈ nextWinners node) spent).
  { rewrite forallb_forall in Hsp. apply Forall_forall. intros t Ht%list_elem_of_In%Hsp.
    rewrite hashInSlice_elem in Ht. by apply bool_decide_eq_true in Ht. }
  destruct isKey; inv_stM.
  - match goal with E : foldS (winner_step _ _) _ _ _ = _ |- _ =>
      destruct (winner_loop_log _ _ _ _ _ _ Hw0 E) as (us1 & L1 & U1 & Hh1 & K1 & W1) end.
    match goal with E : foldS (expire_step _) _ _ _ = _ |- _ =>
      destruct (expire_loop_log _ _ _ _ _ W1 E) as (us2 & L2 & U2 & Hh2 & K2 & W2) end.
    destruct (revoke_loop_log _ _ _ _ _ W2 Hrev) as (us3 & L3 & U3 & Hh3 & K3 & W3).
    exists us1, us2, us3. rewrite U3, U2, U1. cbn [w_undo app]. rewrite <- !app_assoc.
    split_and!; [done|done|]. constructor; rewrite ?Hen; try done.
    + rewrite app_nil_r. eapply log_app; [exact L1|]. by eapply log_app.
    + intros k. rewrite Hh2. inv_res.
      rewrite (fetchExpired_elem _ _ _ _ (proj1 (proj1 W1)) ltac:(eassumption)).
      assert (Hk1 : Forall (fun u => is_winner u) us1)
        by (eapply Forall_impl; [exact K1|]; naive_solver).
      unfold expires. rewrite (winners_left _ _ _ L1 Hk1 k), Hh1.
      case_bool_decide; naive_solver.
  - destruct (revoke_loop_log _ _ _ _ _ Hw0 Hrev) as (us3 & L3 & U3 & Hh3 & K3 & W3).
    exists [], [], us3. rewrite U3. split_and!; [done|done|]. constructor; rewrite ?Hen; try done.
    + by rewrite app_nil_r.
    + intros k. split; [intros Hk; by apply not_elem_of_nil in Hk|naive_solver].
Qed.

(** The rules a block satisfies when it reaches the stake code: it revokes tickets
    that its parent knows to be missed, and its new tickets are unknown hashes. *)
Record block_valid (node : Node T) (revoked new : list bytes) : Prop := {
  bv_revoked : Forall (fun k => is_Some (pool_view (missedTickets node) !! k)) revoked;
  bv_new : Forall (unknown (nabs node)) new
}.

Section block.
Context (node : Node T) (header : BlockHeader) (spent revoked new : list bytes) (isKey : bool).
Context (us1 us2 us3 us4 : list UndoTicketData) (p' : pools).
Hypothesis Hwf : pools_wf (nabs node).
Hypothesis Hbl : block_log node header spent revoked new isKey us1 us2 us3 us4 p'.
Hypothesis Hbv : block_valid node revoked new.

Lemma block_takes_live k : k ∈ hashes (us1 ++ us2) -> pool_view (liveTickets node) !! k <> None.
Proof using Hbl.
  pose proof (bl_log _ _ _ _ _ _ _ _ _ _ _ Hbl) as Hl. rewrite app_assoc in Hl.
  apply log_app_inv in Hl as (q & Hl & _). apply (log_takes_live _ _ _ k) in Hl as [_ Hl].
  - intros Hk. by apply Hl.
  - apply Forall_app. split.
    + eapply Forall_impl; [apply Hbl|]. intros u [Hu _]. apply orb_True. by left.
    + eapply Forall_impl; [apply Hbl|]. intros u Hu. apply orb_True. by right.
Qed.

Lemma block_revokes k : k ∈ hashes us3 -> pool_view (missedTickets node) !! k <> None.
Proof using Hbl Hbv.
  rewrite (bl_revoked _ _ _ _ _ _ _ _ _ _ _ Hbl). destruct (stakeEnabled node header).
  - intros Hk. pose proof (bv_revoked _ _ _ Hbv) as Hr. rewrite Forall_forall in Hr.
    destruct (Hr k Hk) as [v ->]. done.
  - intros Hk. by apply not_elem_of_nil in Hk.
Qed.

Lemma block_news : hashes us4 = new.
Proof using Hbl.
  rewrite (bl_new _ _ _ _ _ _ _ _ _ _ _ Hbl), <- list_fmap_compose. apply list_fmap_id.
Qed.

Lemma live_not_missed k v :
  pool_view (liveTickets node) !! k = Some v -> pool_view (missedTickets node) !! k = None.
Proof using Hwf.
  intros Hk. pose proof (Hwf k) as Hs. unfold slot_at, nabs, abs in Hs; cbn in Hs.
  rewrite Hk in Hs. by apply (slot_wf_live k v) in Hs as (_ & ? & _).
Qed.

(** The moves of a valid block concern different tickets. *)
Lemma block_NoDup : NoDup (hashes (us1 ++ us2 ++ us3 ++ us4)).
Proof using Hwf Hbl Hbv.
  pose proof (bl_log _ _ _ _ _ _ _ _ _ _ _ Hbl) as Hl. rewrite app_assoc in Hl.
  apply log_app_inv in Hl as (q & Hl12 & Hl). apply log_app_inv in Hl as (q' & Hl3 & Hl4).
  assert (N12 : NoDup (hashes (us1 ++ us2))).
  { eapply (log_takes_live _ _ _ []) in Hl12 as [Hnd _]; [exact Hnd|]. apply Forall_app. split.
    - eapply Forall_impl; [apply Hbl|]. intros u [Hu _]. apply orb_True. by left.
    - eapply Forall_impl; [apply Hbl|]. intros u Hu. apply orb_True. by right. }
  assert (N3 : NoDup (hashes us3)).
  { eapply (log_consume (fun s => s.1.2 <> None)); [|exact Hl3]. intros u s s' Hu.
    pose proof (bl_revoked_kind _ _ _ _ _ _ _ _ _ _ _ Hbl) as Hk. rewrite Forall_forall in Hk.
    by apply trans_takes_missed, Hk. }
  assert (N4 : NoDup (hashes us4)).
  { eapply (log_consume (fun s => s.1.1 = None)); [|exact Hl4]. intros u s s' Hu.
    apply trans_takes_free. rewrite (bl_new _ _ _ _ _ _ _ _ _ _ _ Hbl) in Hu.
    by apply list_elem_of_fmap in Hu as (k & -> & _). }
  assert (Hfresh : forall k, k ∈ hashes us4 ->
    pool_view (liveTickets node) !! k = None /\ pool_view (missedTickets node) !! k = None).
  { intros k. rewrite block_news. intros Hk. pose proof (bv_new _ _ _ Hbv) as Hn.
    rewrite Forall_forall in Hn. destruct (Hn k Hk) as [_ E].
    unfold slot_at, nabs, abs in E; cbn in E. by injection E. }
  rewrite (app_assoc us1), !fmap_app. apply NoDup_app. split_and!; [by rewrite <- fmap_app| |].
  - intros k Hk. rewrite <- fmap_app in Hk. apply block_takes_live in Hk.
    destruct (pool_view (liveTickets node) !! k) as [v|] eqn:Ev; [|done].
    rewrite elem_of_app. intros [Hk3|Hk4].
    + apply block_revokes in Hk3. by apply live_not_missed in Ev.
    + apply Hfresh in Hk4 as [? _]. congruence.
  - apply NoDup_app. split_and!; [done| |done]. intros k Hk3%block_revokes [_ ?]%Hfresh. done.
Qed.

Lemma block_wf :
  is_u32 (h_KeyHeight header) ->
  pools_wf p' /\ Forall utd_ok (us1 ++ us2 ++ us3 ++ us4).
Proof using Hwf Hbl Hbv.
  intros Hkh. eapply log_wf; [exact Hwf|apply Hbl|apply block_NoDup|].
  intros u Hu Hn. assert (Hu4 : u ∈ us4).
  { rewrite !elem_of_app in Hu. destruct Hu as [Hu|[Hu|[Hu|Hu]]]; [exfalso..|done];
      revert Hn; unfold is_new.
    - pose proof (bl_winners_kind _ _ _ _ _ _ _ _ _ _ _ Hbl) as Hk. rewrite Forall_forall in Hk.
      destruct (Hk u Hu) as [Hk' _]. unfold is_winner in Hk'.
      by destruct (u_Missed u), (u_Spent u), (u_Revoked u).
    - pose proof (bl_expired_kind _ _ _ _ _ _ _ _ _ _ _ Hbl) as Hk. rewrite Forall_forall in Hk.
      specialize (Hk u Hu). unfold is_expire in Hk. by destruct (u_Missed u).
    - pose proof (bl_revoked_kind _ _ _ _ _ _ _ _ _ _ _ Hbl) as Hk. rewrite Forall_forall in Hk.
      specialize (Hk u Hu). unfold is_revoke in Hk. by destruct (u_Missed u). }
  rewrite (bl_new _ _ _ _ _ _ _ _ _ _ _ Hbl) in Hu4.
  apply list_elem_of_fmap in Hu4 as (k & -> & Hk).
  pose proof (bv_new _ _ _ Hbv) as Hf. rewrite Forall_forall in Hf.
  split; [by apply Hf|]. split; cbn; [apply u32_range|done].
Qed.

Lemma block_kinds u :
  (u ∈ us1 -> is_new u = false /\ is_winner u = true /\ is_expire u = false /\ is_revoke u = false) /\
  (u ∈ us2 -> is_new u = false /\ is_winner u = false /\ is_expire u = true /\ is_revoke u = false /\
     u_Spent u = false) /\
  (u ∈ us3 -> is_new u = false /\ is_winner u = false /\ is_expire u = false /\ is_revoke u = true /\
     u_Spent u = false) /\
  (u ∈ us4 -> is_new u = true /\ is_winner u = false /\ is_expire u = false /\ is_revoke u = false /\
     u_Spent u = false).
Proof using Hbl.
  pose proof (bl_log _ _ _ _ _ _ _ _ _ _ _ Hbl) as Hl.
  assert (Ht : forall q us q', log q us q' -> u ∈ us -> exists s s', trans u s s').
  { intros q us q' HL. induction HL as [|q0 v q1 us q2 (s & Hs & _) HL IH]; intros Hu.
    - by apply not_elem_of_nil in Hu.
    - apply elem_of_cons in Hu as [->|Hu]; [eauto|by apply IH]. }
  specialize (Ht _ _ _ Hl). rewrite !elem_of_app in Ht.
  pose proof (bl_winners_kind _ _ _ _ _ _ _ _ _ _ _ Hbl) as K1.
  pose proof (bl_expired_kind _ _ _ _ _ _ _ _ _ _ _ Hbl) as K2.
  pose proof (bl_revoked_kind _ _ _ _ _ _ _ _ _ _ _ Hbl) as K3.
  rewrite Forall_forall in K1, K2, K3.
  split_and!; intros Hu; (destruct Ht as (s & s' & Ht); [auto|]).
  - specialize (K1 u Hu) as [K1 _]. destruct Ht; flags; cbn in *; try done; by destruct e.
  - specialize (K2 u Hu). destruct Ht; flags; cbn in *; try done; by destruct e.
  - specialize (K3 u Hu). destruct Ht; flags; cbn in *; try done; by destruct e.
  - rewrite (bl_new _ _ _ _ _ _ _ _ _ _ _ Hbl) in Hu.
    by apply list_elem_of_fmap in Hu as (k & -> & _).
Qed.

Lemma block_counts :
  let us := us1 ++ us2 ++ us3 ++ us4 in
  count is_winner us = Z.of_nat (length us1) /\ count is_expire us = Z.of_nat (length us2) /\
  count is_revoke us = Z.of_nat (length us3) /\ count is_new us = Z.of_nat (length new) /\
  count u_Spent us = count u_Spent us1.
Proof using Hbl.
  cbn zeta. rewrite !count_app.
  assert (E4 : length us4 = length new) by (rewrite <- block_news; by rewrite length_fmap).
  assert (K1 := fun u => proj1 (block_kinds u)). assert (K2 := fun u => proj1 (proj2 (block_kinds u))).
  assert (K3 := fun u => proj1 (proj2 (proj2 (block_kinds u)))).
  assert (K4 := fun u => proj2 (proj2 (proj2 (block_kinds u)))).
  rewrite (count_all is_winner us1), (count_all is_expire us2), (count_all is_revoke us3),
    (count_all is_new us4) by (intros u Hu;
      first [apply (K1 u Hu)|apply (K2 u Hu)|apply (K3 u Hu)|apply (K4 u Hu)]).
  rewrite (count_none is_winner us2), (count_none is_winner us3), (count_none is_winner us4),
    (count_none is_expire us1), (count_none is_expire us3), (count_none is_expire us4),
    (count_none is_revoke us1), (count_none is_revoke us2), (count_none is_revoke us4),
    (count_none is_new us1), (count_none is_new us2), (count_none is_new us3),
    (count_none u_Spent us2), (count_none u_Spent us3), (count_none u_Spent us4)
    by (intros u Hu; first [apply (K1 u Hu)|apply (K2 u Hu)|apply (K3 u Hu)|apply (K4 u Hu)]).
  lia.
Qed.

Lemma block_size :
  Z.of_nat (size (p_live p')) <=
  Z.of_nat (size (pool_view (liveTickets node))) + Z.of_nat (length new).
Proof using Hbl.
  destruct (log_sizes _ _ _ (bl_log _ _ _ _ _ _ _ _ _ _ _ Hbl)) as (Hs & _ & _).
  destruct block_counts as (C1 & C2 & _ & C4 & _). rewrite C1, C2, C4 in Hs.
  change (p_live (nabs node)) with (pool_view (liveTickets node)) in Hs. lia.
Qed.

(** A block without a key leaves the live tickets of its parent live. *)
Lemma block_keeps_live k :
  isKey = false -> is_Some (pool_view (liveTickets node) !! k) -> is_Some (p_live p' !! k).
Proof using Hwf Hbl Hbv.
  intros Hkey [v Hv]. assert (Hnot : k ∉ hashes (us1 ++ us2 ++ us3 ++ us4)).
  { rewrite !fmap_app, !elem_of_app. intros [Hk|[Hk|[Hk|Hk]]].
    - rewrite (bl_winners _ _ _ _ _ _ _ _ _ _ _ Hbl), Hkey, andb_false_r in Hk.
      by apply not_elem_of_nil in Hk.
    - apply (bl_expired _ _ _ _ _ _ _ _ _ _ _ Hbl) in Hk as (_ & Hk & _). by rewrite Hkey in Hk.
    - apply block_revokes in Hk. by apply live_not_missed in Hv.
    - rewrite block_news in Hk. pose proof (bv_new _ _ _ Hbv) as Hn. rewrite Forall_forall in Hn.
      destruct (Hn k Hk) as [_ E]. unfold slot_at, nabs, abs in E; cbn in E. congruence. }
  pose proof (log_frame _ _ _ _ (bl_log _ _ _ _ _ _ _ _ _ _ _ Hbl) Hnot) as E.
  unfold slot_at, nabs, abs in E; cbn in E. injection E as E _ _. rewrite E. eauto.
Qed.

End block.

(** ** Disconnecting a block replays its log *)

Definition rabs (r : restore (T := T)) : pools := abs (r_live r) (r_missed r) (r_revoked r).

Definition restore_ok (r : restore (T := T)) : Prop :=
  pool_ok (r_live r) /\ pool_ok (r_missed r) /\ pool_ok (r_revoked r).

Lemma undo_step_run r u q rng :
  restore_ok r -> entry q u (rabs r) ->
  exists r' rng', undo_step rng_Int r u rng = Ok (r', rng') /\ restore_ok r' /\ rabs r' = q /\
    r_winners r' = r_winners r ++ (if is_winner u then [TicketHash u] else []).
Proof.
  intros (H1 & H2 & H3) He. apply entry_undo in He as [Ht Hq].
  rewrite <- Hq. clear Hq. revert Ht. generalize (slot_at q (TicketHash u)) as s0. intros s0 Ht.
  remember (slot_at (rabs r) (TicketHash u)) as s1 eqn:Es.
  unfold slot_at, rabs, abs in Es; cbn in Es. unfold undo_step.
  destruct Ht as [k v m r0 Hf|k v m r0 Hf|k v e r0 Hf|k v l Hf]; cbn [TicketHash undoOf] in Es;
    injection Es as E1 E2 E3; symmetry in E1, E2, E3.
  - destruct (safeDelete_run _ _ _ H1 E1) as (l' & Hd & Hl1 & Hl2).
    flags; cbn [undoOf u_Missed u_Revoked u_Spent negb andb TicketHash Missed Revoked Spent].
    run_lift Hd. do 2 eexists. split; [done|]. split_and!; [done..| |by rewrite app_nil_r].
    apply abs_set_slot; [exact Hl2|by apply view_same..].
  - destruct (safePut_run (r_live r) k v rng H1 E1) as (l' & rng' & Hp & Hl1 & Hl2).
    flags; cbn [undoOf u_Missed u_Revoked u_Spent negb andb TicketHash Missed Revoked Spent
      setMissed setSpent Expired Height KeyHeight].
    rewrite (stM_bind_run _ _ _ _ _ Hp).
    do 2 eexists. split; [done|]. split_and!; [done..| |done].
    apply abs_set_slot; [exact Hl2|by apply view_same..].
  - destruct (safeDelete_run _ _ _ H2 E2) as (m' & Hd & Hm1 & Hm2).
    destruct (safePut_run (r_live r) k v rng H1 E1) as (l' & rng' & Hp & Hl1 & Hl2).
    flags; cbn [undoOf u_Missed u_Revoked u_Spent u_Expired negb andb TicketHash Missed Revoked
      Spent setMissed setSpent setExpired Expired Height KeyHeight].
    run_lift Hd. destruct e; cbn [negb]; (rewrite (stM_bind_run _ _ _ _ _ Hp));
    (do 2 eexists; split; [done|]; split_and!; [done..| |by rewrite ?app_nil_r]);
    (apply abs_set_slot; [exact Hl2|exact Hm2|by apply view_same]).
  - destruct (safeDelete_run _ _ _ H3 E3) as (r' & Hd & Hr1 & Hr2).
    destruct (safePut_run (r_missed r) k v rng H2 E2) as (m' & rng' & Hp & Hm1 & Hm2).
    flags; cbn [undoOf u_Missed u_Revoked u_Spent u_Expired negb andb TicketHash Missed Revoked
      Spent setMissed setSpent setExpired setRevoked Expired Height KeyHeight valueOf
      TicketHeight TicketKeyHeight].
    run_lift Hd. rewrite (stM_bind_run _ _ _ _ _ Hp).
    do 2 eexists. split; [done|]. split_and!; [done..| |by rewrite app_nil_r].
    apply abs_set_slot; [by apply view_same|exact Hm2|exact Hr2].
Qed.

Lemma undo_loop_run us : forall r q rng,
  restore_ok r -> log q us (rabs r) -> NoDup (hashes us) ->
  exists r' rng', foldS (undo_step rng_Int) r us rng = Ok (r', rng') /\ restore_ok r' /\
    rabs r' = q /\ r_winners r' = r_winners r ++ winners_of us.
Proof.
  induction us as [|u us IH]; intros r q rng Hr Hl Hnd.
  - inversion Hl; subst. exists r, rng. cbn. rewrite app_nil_r. done.
  - inversion Hl as [|? ? p1 ? ? He Hl']; subst. cbn in Hnd. apply NoDup_cons in Hnd as [Hu Hnd].
    destruct (entry_log_swap _ _ _ _ _ He Hl' Hu) as (q' & Hq1 & Hq2).
    destruct (undo_step_run r u q' rng Hr Hq2) as (r1 & rng1 & E1 & Hr1 & Ha & Hw1).
    destruct (IH r1 q rng1 Hr1 ltac:(by rewrite Ha) Hnd) as (r2 & rng2 & E2 & Hr2 & Ha2 & Hw2).
    exists r2, rng2. cbn [foldS]. rewrite (stM_bind_run _ _ _ _ _ E1). split_and!; try done.
    rewrite Hw2, Hw1, winners_of_cons, <- app_assoc. by destruct (is_winner u).
Qed.
End refine.
