(* ===== verification/StakeChain.v ===== *)
(** * Chains of stake nodes

    The theorems about the stake nodes of a chain of blocks ([blockchain/stake/
    tickets.go], driven by [blockchain/stakenode.go]): the invariant of every node,
    the effect of a block, and that disconnecting a block undoes connecting it. *)

From S2P Require Import Prelude TreapCore TicketTreap Lottery WireCommon TicketDb Compact StakeNode StakeLog StakeProofs.
From stdpp Require Import list gmap.
#[local] Open Scope Z_scope.

(** The network parameters the theorems assume; all networks of
    [chaincfg/params.go] satisfy them. *)
Record params_ok (p : StakeParams) : Prop := {
  pok_tickets : 0 < TicketsPerBlock p < 2 ^ 16;
  pok_expiry : is_u32 (TicketExpiry p);
  pok_enabled : 0 <= StakeEnabledHeight p < StakeValidationHeight p;
  pok_validation : StakeValidationHeight p < 2 ^ 32
}.

(** The key height after a block: the number of key blocks up to it. *)
Definition realKeyHeight (header : BlockHeader) (isKeyBlock : bool) : Z :=
  if isKeyBlock then u32 (h_KeyHeight header + 1) else h_KeyHeight header.

Section chain.
Context `{TicketPool T} {R : Type} (rng_Int : R -> Z * R).
Context (HashH : bytes -> bytes) (fuel : nat).

#[local] Notation connectNode := (connectNode rng_Int HashH fuel).
#[local] Notation disconnectNode := (disconnectNode rng_Int HashH fuel).

(** ** Equivalent nodes

    Two nodes are equivalent when they differ at most in the shape of their treaps. *)

#[export] Instance node_equiv : Equiv (Node T) := fun a b =>
  height a = height b /\ keyHeight a = keyHeight b /\ nabs a = nabs b /\
  databaseUndoUpdate a = databaseUndoUpdate b /\
  databaseBlockTickets a = databaseBlockTickets b /\ nextWinners a = nextWinners b /\
  finalState a = finalState b /\ params a = params b.

#[export] Instance node_equivalence : Equivalence (≡@{Node T}).
Proof.
  split; unfold equiv, node_equiv.
  - intros a. done.
  - intros a b E. decompose [and] E. repeat split; congruence.
  - intros a b c E1 E2. decompose [and] E1. decompose [and] E2. repeat split; congruence.
Qed.

(** ** The blocks of a chain *)

(** What the block validation establishes before the stake code runs, for the block
    [header] on top of [node], whose own header is [parent]. *)
Record block_rules (node : Node T) (parent : BlockHeader) (parentIsKey : bool)
    (header : BlockHeader) (revoked new : list bytes) : Prop := {
  br_keyHeight : h_KeyHeight header = realKeyHeight parent parentIsKey;
  br_bound : 0 <= h_KeyHeight header < 2 ^ 32 - 1;
  br_height : height node + 1 < 2 ^ 32;
  br_memory : Z.of_nat (size (pool_view (liveTickets node))) + Z.of_nat (length new) < 2 ^ 63;
  br_valid : block_valid node revoked new
}.

(** The nodes of a chain, with the header of the last block.  A node that was
    restored by disconnecting a block or loaded from the database is equivalent to
    the node it stands for, and takes its place. *)
Inductive reachable (p : StakeParams) : Node T -> BlockHeader -> bool -> Prop :=
| reach_genesis header isKey :
    realKeyHeight header isKey < StakeValidationHeight p - 1 ->
    reachable p (genesisNode p) header isKey
| reach_connect node parent parentIsKey header spent revoked new isKey rng node' rng' :
    reachable p node parent parentIsKey ->
    block_rules node parent parentIsKey header revoked new ->
    connectNode (Some node) header spent revoked new isKey rng = Ok (node', rng') ->
    reachable p node' header isKey
| reach_equiv node node' header isKey :
    reachable p node header isKey -> node' ≡ node -> node_pools_ok node' ->
    reachable p node' header isKey.

(** The state checksum of a node with these live tickets and winners. *)
Definition lotteryState (header : BlockHeader) (isKey : bool) (p : StakeParams) (live : T)
    (winners : list bytes) : res stakeError bytes :=
  if realKeyHeight header isKey >=? StakeValidationHeight p - 1
  then
    hB ← map_err ErrWire (header_Bytes header);
    '(_, prng) ← drawTickets HashH fuel (pool_len live) (TicketsPerBlock p)
                   (NewHash256PRNG HashH hB);
    Ok (take 6 (HashH (concat winners ++ StateHash HashH prng)))
  else Ok (replicate 6 0).

Record node_ok (node : Node T) (header : BlockHeader) (isKey : bool) : Prop := {
  nok_pools : node_pools_ok node;
  nok_wf : pools_wf (nabs node);
  nok_size : Z.of_nat (size (pool_view (liveTickets node))) < 2 ^ 63;
  nok_winners : NoDup (nextWinners node);
  nok_winners_live :
    Forall (fun k => is_Some (pool_view (liveTickets node) !! k)) (nextWinners node);
  nok_winners_count : Z.of_nat (length (nextWinners node)) =
    if realKeyHeight header isKey >=? StakeValidationHeight (params node) - 1
    then TicketsPerBlock (params node) else 0;
  nok_height : is_u32 (height node);
  nok_keyHeight : is_u32 (keyHeight node);
  nok_undo : Forall utd_ok (databaseUndoUpdate node);
  nok_tickets : Forall is_hash (databaseBlockTickets node);
  nok_state : lotteryState header isKey (params node) (liveTickets node) (nextWinners node) =
    Ok (finalState node)
}.

Lemma pool_len_view (a b : T) :
  pool_ok a -> pool_ok b -> pool_view a = pool_view b -> pool_len a = pool_len b.
Proof. intros Ha Hb E. by rewrite !pool_len_ok, (pool_entries_unique a b) by done. Qed.

Lemma node_ok_equiv (a b : Node T) header isKey :
  node_ok a header isKey -> b ≡ a -> node_pools_ok b -> node_ok b header isKey.
Proof.
  intros Hok (E1 & E2 & E3 & E4 & E5 & E6 & E7 & E8) Hb.
  assert (V : pool_view (liveTickets b) = pool_view (liveTickets a)) by (by injection E3).
  pose proof (nok_pools _ _ _ Hok) as [Ha _].
  destruct Hok. constructor; rewrite ?E1, ?E2, ?E3, ?E4, ?E5, ?E6, ?E7, ?E8, ?V; try done.
  unfold lotteryState in *. rewrite (pool_len_view (liveTickets b) (liveTickets a)); [done|apply Hb|done|done].
Qed.

Lemma u32_validation p : params_ok p -> u32 (StakeValidationHeight p - 1) = StakeValidationHeight p - 1.
Proof. intros [? ? ? ?]. apply u32_small. unfold is_u32. lia. Qed.

(** ** The lottery of a connected block *)

Lemma drawTickets_sound size n prng idxs prng' :
  is_u16 n -> drawTickets HashH fuel size n prng = Ok (idxs, prng') ->
  distinct_below size idxs /\ Z.of_nat (length idxs) = n /\ n <= size <= 0xFFFFFFFF.
Proof.
  intros Hn. unfold drawTickets. destruct (findTicketIdxs _ _ _ _ _) as [[[l hp]|e|]|] eqn:E;
    cbn; intros; simplify_eq.
  eapply findTicketIdxs_sound; [done|unfold is_u16 in Hn; lia|exact E].
Qed.

Lemma mapM_id_Some {A} (l : list A) : mapM id (Some <$> l) = Some l.
Proof. induction l as [|x l IH]; [done|]. cbn in *. by rewrite IH. Qed.

Lemma pool_len_small (t : T) :
  pool_ok t -> Z.of_nat (size (pool_view t)) < 2 ^ 63 -> pool_len t = Z.of_nat (size (pool_view t)).
Proof.
  intros Ht Hs. rewrite pool_len_ok, <- pool_size_view by done. apply i64_small. unfold is_i64. lia.
Qed.

Lemma drawn_winners n t hp idxs hp' :
  pool_ok t -> Z.of_nat (size (pool_view t)) < 2 ^ 63 -> 0 < n < 2 ^ 16 ->
  drawTickets HashH fuel (pool_len t) n hp = Ok (idxs, hp') ->
  exists ks, fetchWinners (Some idxs) (Some t) = Ok (Some <$> ks) /\
    Z.of_nat (length ks) = n /\ NoDup ks /\ Forall (fun k => is_Some (pool_view t !! k)) ks.
Proof.
  intros Ht Hsz Hn Hd. apply drawTickets_sound in Hd as (Hdis & Hlen & Hle); [|unfold is_u16; lia].
  rewrite pool_len_small, pool_size_view in Hdis by done.
  rewrite pool_size_view in Hsz by done.
  destruct (fetchWinners_positions idxs t Ht Hsz) as (ks & Hk & Hl & Hpos);
    [by destruct idxs; [cbn in Hlen; lia|]|done|].
  exists ks. split_and!; [done|lia| |].
  - apply NoDup_alt. intros i j k Hi Hj.
    destruct (lookup_lt_is_Some_2 idxs i) as [x Hx]; [rewrite <- Hl; by eapply lookup_lt_Some|].
    destruct (lookup_lt_is_Some_2 idxs j) as [y Hy]; [rewrite <- Hl; by eapply lookup_lt_Some|].
    rewrite (Hpos _ _ Hx) in Hi. rewrite (Hpos _ _ Hy) in Hj.
    assert (E : Z.to_nat x = Z.to_nat y)
      by (eapply NoDup_lookup; [by apply pool_NoDup|exact Hi|exact Hj]).
    destruct Hdis as [Hnd Hr]. rewrite Forall_forall in Hr.
    pose proof (Hr x ltac:(by eapply list_elem_of_lookup_2)) as Hrx.
    pose proof (Hr y ltac:(by eapply list_elem_of_lookup_2)) as Hry. cbn in Hrx, Hry.
    assert (x = y) as -> by lia. by eapply NoDup_lookup.
  - apply Forall_forall. intros k Hk'. apply list_elem_of_lookup in Hk' as [i Hi].
    destruct (lookup_lt_is_Some_2 idxs i) as [x Hx]; [rewrite <- Hl; by eapply lookup_lt_Some|].
    rewrite (Hpos _ _ Hx) in Hi. apply list_elem_of_lookup_2 in Hi.
    apply list_elem_of_fmap in Hi as ([k' v] & -> & Hkv). exists v. by apply pool_entries_elem.
Qed.

(** The winners of a node: distinct live tickets, in the number the height asks. *)
Definition winners_ok (header : BlockHeader) (isKey : bool) (p : StakeParams) (live : T)
    (winners : list bytes) : Prop :=
  NoDup winners /\ Forall (fun k => is_Some (pool_view live !! k)) winners /\
  Z.of_nat (length winners) =
    if realKeyHeight header isKey >=? StakeValidationHeight p - 1 then TicketsPerBlock p else 0.

Lemma connectLottery_spec header isKey node live winners fs :
  params_ok (params node) -> pool_ok live -> Z.of_nat (size (pool_view live)) < 2 ^ 63 ->
  (isKey = false -> winners_ok header isKey (params node) live (nextWinners node)) ->
  connectLottery HashH fuel header isKey node live = Ok (winners, fs) ->
  winners_ok header isKey (params node) live winners /\
  lotteryState header isKey (params node) live winners = Ok fs /\
  (isKey = false -> winners = nextWinners node).
Proof.
  intros Hp Ht Hsz Hnon. unfold connectLottery, winners_ok, lotteryState in *.
  fold (realKeyHeight header isKey). rewrite u32_validation by done.
  destruct (realKeyHeight header isKey >=? StakeValidationHeight (params node) - 1);
    [|intros; simplify_eq; split_and!; try (by constructor);
      intros Hkey; destruct (Hnon Hkey) as (_ & _ & HL); by destruct (nextWinners node)].
  intros E. apply bind_Ok in E as (hB & -> & E). apply bind_Ok in E as ([idxs prng] & Hd & E).
  apply bind_Ok in E as (keys & Hk & E). apply map_err_Ok in Hk.
  apply bind_Ok in E as (ws & Hws & E). injection E as <- <-.
  cbn [mbind res_bind]. rewrite Hd.
  destruct (drawn_winners _ live _ _ _ Ht Hsz (pok_tickets _ Hp) Hd) as (ks & Hf & Hl & Hnd & Hin).
  rewrite Hf in Hk. injection Hk as <-.
  destruct isKey.
  - rewrite mapM_id_Some in Hws. injection Hws as <-. done.
  - unfold takeWinners in Hws. rewrite length_fmap in Hws.
    destruct (Hnon eq_refl) as (N1 & N2 & N3).
    destruct (Nat.leb_spec (length ks) (length (nextWinners node))); [|done].
    injection Hws as <-. rewrite take_ge by lia. done.
Qed.

(** The winners of the parent are winners for a block without a key, as long as the
    live tickets stay. *)
Lemma parent_winners_ok node parent parentIsKey header revoked new isKey live :
  node_ok node parent parentIsKey -> block_rules node parent parentIsKey header revoked new ->
  isKey = false ->
  (forall k, is_Some (pool_view (liveTickets node) !! k) -> is_Some (pool_view live !! k)) ->
  winners_ok header isKey (params node) live (nextWinners node).
Proof.
  intros Hok Hrules Hkey Hkeep. split_and!; [apply Hok| |].
  - eapply Forall_impl; [apply Hok|]. intros k Hk. by apply Hkeep.
  - rewrite (nok_winners_count _ _ _ Hok). unfold realKeyHeight at 2. rewrite Hkey.
    by rewrite (br_keyHeight _ _ _ _ _ _ Hrules).
Qed.

(** ** A connected block *)

Lemma connectNode_inv node header spent revoked new isKey rng node' rng' :
  connectNode (Some node) header spent revoked new isKey rng = Ok (node', rng') ->
  exists w winners fs,
    connectPools rng_Int header spent revoked new isKey node rng = Ok (w, rng') /\
    connectLottery HashH fuel header isKey node (w_live w) = Ok (winners, fs) /\
    node' = MkNode (u32 (height node + 1)) (h_KeyHeight header) (w_live w) (w_missed w)
              (w_revoked w) (w_undo w) new winners fs (params node).
Proof.
  unfold StakeNode.connectNode. intros E. apply stM_bind_Ok in E as (w & rng1 & Hw & E).
  apply stM_bind_Ok in E as ([winners fs] & rng2 & Hl & E). apply lift_Ok in Hl as [Hl ->].
  apply stM_ret_Ok in E as [<- ->]. by exists w, winners, fs.
Qed.

(** What a block makes of one ticket. *)
Definition after_block (node : Node T) (header : BlockHeader) (spent revoked new : list bytes)
    (isKey : bool) (k : bytes) (s : slot) : slot :=
  if bool_decide (k ∈ new)
  then (Some (MkValue (height node + 1) (h_KeyHeight header) false false false false), None, None)
  else if stakeEnabled node header
  then
    match s with
    | (Some v, None, None) =>
        if isKey && bool_decide (k ∈ nextWinners node)
        then (None, if bool_decide (k ∈ spent) then None else Some (setMissed true v), None)
        else if isKey && (KeyHeight v <=? toExpireKeyHeight (h_KeyHeight header) (params node))
        then (None, Some (setExpired true (setMissed true v)), None)
        else s
    | (None, Some v, None) =>
        if bool_decide (k ∈ revoked) then (None, None, Some (setRevoked true v)) else s
    | _ => s
    end
  else s.
Section step.
Context (p : StakeParams) (node : Node T) (parent : BlockHeader) (parentIsKey : bool).
Context (header : BlockHeader) (spent revoked new : list bytes) (isKey : bool).
Context (rng rng' : R) (node' : Node T).
Hypothesis Hp : params_ok p.
Hypothesis Hparams : params node = p.
Hypothesis Hok : node_ok node parent parentIsKey.
Hypothesis Hrules : block_rules node parent parentIsKey header revoked new.
Hypothesis Hc : connectNode (Some node) header spent revoked new isKey rng = Ok (node', rng').

(** The pools of the new node are reached by the moves its undo data lists. *)
Lemma connect_log :
  exists us1 us2 us3 us4,
    databaseUndoUpdate node' = us1 ++ us2 ++ us3 ++ us4 /\ node_pools_ok node' /\
    block_log node header spent revoked new isKey us1 us2 us3 us4 (nabs node').
Proof using Hok Hc.
  destruct (connectNode_inv _ _ _ _ _ _ _ _ _ Hc) as (w & winners & fs & Hw & _ & ->).
  apply (connectPools_log rng_Int node) in Hw; [exact Hw|apply Hok|apply Hok].
Qed.

Lemma connect_wf : pools_wf (nabs node') /\ Forall utd_ok (databaseUndoUpdate node') /\
  NoDup (hashes (databaseUndoUpdate node')).
Proof using Hok Hc Hrules.
  destruct connect_log as (us1 & us2 & us3 & us4 & -> & _ & Hbl).
  pose proof (br_valid _ _ _ _ _ _ Hrules) as Hbv. pose proof (nok_wf _ _ _ Hok) as Hwf.
  destruct (block_wf node header spent revoked new isKey us1 us2 us3 us4 _ Hwf Hbl Hbv) as [H1 H2].
  - pose proof (br_bound _ _ _ _ _ _ Hrules). unfold is_u32. lia.
  - split_and!; [done|done|].
    exact (block_NoDup node header spent revoked new isKey us1 us2 us3 us4 _ Hwf Hbl Hbv).
Qed.

Lemma connect_size : Z.of_nat (size (pool_view (liveTickets node'))) < 2 ^ 63.
Proof using Hok Hc Hrules.
  destruct connect_log as (us1 & us2 & us3 & us4 & _ & _ & Hbl).
  pose proof (block_size _ _ _ _ _ _ _ _ _ _ _ Hbl) as Hs. cbn in Hs.
  pose proof (br_memory _ _ _ _ _ _ Hrules). lia.
Qed.

Lemma connect_parent_winners :
  isKey = false -> winners_ok header isKey p (liveTickets node') (nextWinners node).
Proof using Hp Hparams Hok Hrules Hc.
  intros Hkey. destruct connect_log as (us1 & us2 & us3 & us4 & _ & _ & Hbl). rewrite <- Hparams.
  eapply parent_winners_ok; [exact Hok|exact Hrules|exact Hkey|]. intros k Hk.
  eapply (block_keeps_live node header spent revoked new isKey us1 us2 us3 us4 (nabs node'));
    [apply Hok|exact Hbl|apply Hrules|done|done].
Qed.

Lemma connect_node_ok : node_ok node' header isKey.
Proof using Hp Hparams Hok Hrules Hc.
  pose proof connect_size as Hsize. destruct connect_wf as (Hwf & Hutd & _).
  destruct connect_log as (_ & _ & _ & _ & _ & Hpools & _).
  destruct (connectNode_inv _ _ _ _ _ _ _ _ _ Hc) as (w & winners & fs & _ & Hl & E).
  assert (Hnew : Forall is_hash new).
  { eapply Forall_impl; [apply Hrules|]. intros k [? _]. done. }
  assert (Hkh : is_u32 (h_KeyHeight header))
    by (pose proof (br_bound _ _ _ _ _ _ Hrules); unfold is_u32; lia).
  pose proof connect_parent_winners as Hnon.
  rewrite <- Hparams in Hnon, Hp. subst node'. cbn [liveTickets] in *.
  apply connectLottery_spec in Hl as ((W1 & W2 & W3) & W4 & _); [|done|apply Hpools|done|done].
  by constructor; cbn [height keyHeight liveTickets nextWinners params finalState
    databaseUndoUpdate databaseBlockTickets]; try apply u32_range.
Qed.

Section effect.
(** The pools [q] are reached by the moves of the block. *)
Context (us1 us2 us3 us4 : list UndoTicketData) (q : pools).
Hypothesis Hbl : block_log node header spent revoked new isKey us1 us2 us3 us4 q.

#[local] Notation effect k := (after_block node header spent revoked new isKey k (slot_at (nabs node) k)).

Lemma new_unknown k : k ∈ new -> slot_at (nabs node) k = (None, None, None).
Proof using Hrules.
  intros Hk. pose proof (bv_new _ _ _ (br_valid _ _ _ _ _ _ Hrules)) as Hn.
  rewrite Forall_forall in Hn. by apply Hn.
Qed.

Lemma effect_at u :
  u ∈ us1 ++ us2 ++ us3 ++ us4 ->
  trans u (slot_at (nabs node) (TicketHash u)) (slot_at q (TicketHash u)) /\
  (is_new u = false -> TicketHash u ∉ new).
Proof using Hok Hrules Hbl.
  clear Hc. intros Hu. assert (Hat : trans u (slot_at (nabs node) (TicketHash u)) (slot_at q (TicketHash u))).
  { eapply log_at; [apply Hbl| |done]. eapply block_NoDup; [apply Hok|exact Hbl|apply Hrules]. }
  split; [done|]. intros Hn Hnew. rewrite (new_unknown _ Hnew) in Hat.
  apply trans_empty_new in Hat. congruence.
Qed.

Lemma effect_winner u : u ∈ us1 -> slot_at q (TicketHash u) = effect (TicketHash u).
Proof using Hok Hrules Hbl.
  clear Hc. intros Hi. destruct (effect_at u) as [Hat Hn]; [rewrite !elem_of_app; auto|].
  destruct (proj1 (block_kinds _ _ _ _ _ _ _ _ _ _ _ Hbl u) Hi) as (Kn & Kw & _).
  unfold after_block. rewrite bool_decide_false by auto.
  assert (Hw : TicketHash u ∈ hashes us1) by (by apply list_elem_of_fmap_2).
  rewrite (bl_winners _ _ _ _ _ _ _ _ _ _ _ Hbl) in Hw.
  destruct (stakeEnabled node header), isKey; cbn [andb] in Hw; try by apply not_elem_of_nil in Hw.
  destruct (trans_winner_inv _ _ _ _ (nok_wf _ _ _ Hok _) Hat Kw) as (v & -> & ->).
  rewrite (bool_decide_true (TicketHash u ∈ nextWinners node)) by done. cbn [andb].
  pose proof (bl_winners_kind _ _ _ _ _ _ _ _ _ _ _ Hbl) as HS. rewrite Forall_forall in HS.
  destruct (HS u Hi) as [_ ->]. by rewrite hashInSlice_elem.
Qed.

Lemma effect_expired u : u ∈ us2 -> slot_at q (TicketHash u) = effect (TicketHash u).
Proof using Hok Hrules Hbl.
  clear Hc. intros Hi. destruct (effect_at u) as [Hat Hn]; [rewrite !elem_of_app; auto|].
  destruct (proj1 (proj2 (block_kinds _ _ _ _ _ _ _ _ _ _ _ Hbl u)) Hi) as (Kn & _ & Ke & _).
  unfold after_block. rewrite bool_decide_false by auto.
  assert (Hw : TicketHash u ∈ hashes us2) by (by apply list_elem_of_fmap_2).
  apply (bl_expired _ _ _ _ _ _ _ _ _ _ _ Hbl) in Hw as (H1 & H2 & H3 & (v' & Hv' & Hle)).
  destruct (stakeEnabled node header), isKey; try done.
  destruct (trans_expire_inv _ _ _ _ (nok_wf _ _ _ Hok _) Hat Ke) as (v & E1 & ->). rewrite E1.
  rewrite (bool_decide_false (TicketHash u ∈ nextWinners node)) by done. cbn [andb].
  unfold slot_at, nabs, abs in E1; cbn in E1. rewrite Hv' in E1. injection E1 as <- _ _.
  by rewrite (proj2 (Z.leb_le _ _) Hle).
Qed.

Lemma effect_revoked u : u ∈ us3 -> slot_at q (TicketHash u) = effect (TicketHash u).
Proof using Hok Hrules Hbl.
  clear Hc. intros Hi. destruct (effect_at u) as [Hat Hn]; [rewrite !elem_of_app; auto|].
  destruct (proj1 (proj2 (proj2 (block_kinds _ _ _ _ _ _ _ _ _ _ _ Hbl u))) Hi) as (Kn & _ & _ & Kr & _).
  unfold after_block. rewrite bool_decide_false by auto.
  assert (Hw : TicketHash u ∈ hashes us3) by (by apply list_elem_of_fmap_2).
  rewrite (bl_revoked _ _ _ _ _ _ _ _ _ _ _ Hbl) in Hw.
  destruct (stakeEnabled node header); [|by apply not_elem_of_nil in Hw].
  destruct (trans_revoke_inv _ _ _ _ (nok_wf _ _ _ Hok _) Hat Kr) as (v & -> & ->).
  by rewrite bool_decide_true.
Qed.

Lemma effect_new u : u ∈ us4 -> slot_at q (TicketHash u) = effect (TicketHash u).
Proof using Hok Hrules Hbl.
  clear Hc. intros Hi. destruct (effect_at u) as [Hat _]; [rewrite !elem_of_app; auto|].
  destruct (proj2 (proj2 (proj2 (block_kinds _ _ _ _ _ _ _ _ _ _ _ Hbl u))) Hi) as (Kn & _).
  assert (Hw : TicketHash u ∈ new).
  { rewrite <- (block_news _ _ _ _ _ _ _ _ _ _ _ Hbl). by apply list_elem_of_fmap_2. }
  unfold after_block. rewrite bool_decide_true, (trans_new_inv _ _ _ Hat Kn), new_unknown by done.
  rewrite (bl_new _ _ _ _ _ _ _ _ _ _ _ Hbl) in Hi.
  apply list_elem_of_fmap in Hi as (j & -> & _). cbn.
  pose proof (br_height _ _ _ _ _ _ Hrules). pose proof (nok_height _ _ _ Hok) as Hh.
  unfold is_u32 in Hh. by rewrite u32_small by (unfold is_u32; lia).
Qed.

Lemma effect_kept k :
  k ∉ hashes (us1 ++ us2 ++ us3 ++ us4) -> slot_at q k = effect k.
Proof using Hok Hrules Hbl.
  clear Hc. intros Hout. rewrite (log_frame _ _ _ _ (bl_log _ _ _ _ _ _ _ _ _ _ _ Hbl) Hout). unfold after_block.
  rewrite !fmap_app, !not_elem_of_app, (block_news _ _ _ _ _ _ _ _ _ _ _ Hbl),
    (bl_winners _ _ _ _ _ _ _ _ _ _ _ Hbl), (bl_revoked _ _ _ _ _ _ _ _ _ _ _ Hbl) in Hout.
  destruct Hout as (O1 & O2 & O3 & O4). rewrite bool_decide_false by done.
  destruct (stakeEnabled node header) eqn:Hen; [|done].
  destruct (slot_at (nabs node) k) as [[[v|] [m|]] [r|]] eqn:E; try done; [|by rewrite bool_decide_false].
  destruct isKey; cbn [andb] in *; [|done]. rewrite (bool_decide_false (k ∈ nextWinners node)) by done.
  destruct (Z.leb_spec (KeyHeight v) (toExpireKeyHeight (h_KeyHeight header) (params node)));
    [|done]. exfalso. apply O2, (bl_expired _ _ _ _ _ _ _ _ _ _ _ Hbl). rewrite Hen.
  split_and!; try done. exists v. split; [|done]. unfold slot_at, nabs, abs in E; cbn in E. by injection E.
Qed.

Lemma block_slot k : slot_at q k = effect k.
Proof using Hok Hrules Hbl.
  destruct (decide (k ∈ hashes (us1 ++ us2 ++ us3 ++ us4))) as [Hin|Hout]; [|by apply effect_kept].
  apply list_elem_of_fmap in Hin as (u & -> & Hin). rewrite !elem_of_app in Hin.
  destruct Hin as [Hi|[Hi|[Hi|Hi]]]; [by apply effect_winner|by apply effect_expired
    |by apply effect_revoked|by apply effect_new].
Qed.

End effect.

Lemma connect_slot k :
  slot_at (nabs node') k = after_block node header spent revoked new isKey k (slot_at (nabs node) k).
Proof using Hok Hrules Hc.
  destruct connect_log as (us1 & us2 & us3 & us4 & _ & _ & Hbl). by eapply block_slot.
Qed.

(** ** Disconnecting the block again *)

(** The winners that the undo data gives back. *)
Lemma restored_winners :
  (if isKey then winners_of (databaseUndoUpdate node') else nextWinners node') = nextWinners node.
Proof using Hp Hparams Hok Hrules Hc.
  pose proof connect_parent_winners as Hnon. pose proof connect_size as Hsize.
  destruct connect_log as (us1 & us2 & us3 & us4 & -> & Hpools & Hbl).
  destruct (connectNode_inv _ _ _ _ _ _ _ _ _ Hc) as (w & winners & fs & _ & Hl & E).
  destruct isKey eqn:Ek.
  - assert (K : forall u, _) by exact (block_kinds _ _ _ _ _ _ _ _ _ _ _ Hbl).
    rewrite !winners_of_app, winners_of_all, (winners_of_none us2), (winners_of_none us3),
      (winners_of_none us4), !app_nil_r.
    + rewrite (bl_winners _ _ _ _ _ _ _ _ _ _ _ Hbl), andb_true_r.
      destruct (stakeEnabled node header) eqn:Hen; [done|].
      pose proof (nok_winners_count _ _ _ Hok) as Hcount.
      rewrite <- (br_keyHeight _ _ _ _ _ _ Hrules), Hparams in Hcount.
      unfold stakeEnabled in Hen. rewrite Hparams in Hen. destruct Hp as [_ _ P3 P4].
      rewrite u32_small in Hen by (unfold is_u32; lia).
      destruct (Z.geb_spec (h_KeyHeight header) (StakeEnabledHeight p)); [done|].
      destruct (Z.geb_spec (h_KeyHeight header) (StakeValidationHeight p - 1)); [lia|].
      by destruct (nextWinners node).
    + apply Forall_forall. intros u Hu. by apply (proj2 (proj2 (proj2 (K u)))).
    + apply Forall_forall. intros u Hu. by apply (proj1 (proj2 (proj2 (K u)))).
    + apply Forall_forall. intros u Hu. by apply (proj1 (proj2 (K u))).
    + eapply Forall_impl; [apply Hbl|]. naive_solver.
  - rewrite <- Hparams in Hp, Hnon. subst node'. cbn [liveTickets nextWinners] in *.
    apply connectLottery_spec in Hl as (_ & _ & HW); [by apply HW|done|apply Hpools|done|done].
Qed.

Lemma restored_state n live :
  n ≡ node' -> pool_ok live -> pool_view live = pool_view (liveTickets node) ->
  restoreState HashH fuel parent n live (nextWinners node) = Ok (finalState node).
Proof using Hp Hparams Hok Hrules Hc.
  intros (_ & En & _ & _ & _ & _ & _ & Epn) Hl Hv. pose proof (nok_state _ _ _ Hok) as Hs. unfold lotteryState in Hs.
  unfold restoreState. rewrite En, Epn. destruct (connectNode_inv _ _ _ _ _ _ _ _ _ Hc) as (? & ? & ? & _ & _ & E).
  assert (Ek : keyHeight node' = h_KeyHeight header) by (by rewrite E).
  assert (Ep : params node' = p) by (by rewrite E, <- Hparams). clear E.
  rewrite Ek, Ep, Hparams in *. rewrite <- (br_keyHeight _ _ _ _ _ _ Hrules) in Hs.
  pose proof (br_bound _ _ _ _ _ _ Hrules) as Hb. destruct Hp as [_ _ P3 P4].
  rewrite !u32_small by (unfold is_u32; lia).
  rewrite (pool_len_view live (liveTickets node)) by (done || apply Hok).
  destruct (Z.geb_spec (h_KeyHeight header) (StakeValidationHeight p - 1)),
    (Z.geb_spec (h_KeyHeight header + 1) (StakeValidationHeight p)); done || lia.
Qed.

(** The node of the block may be any node equivalent to the connected one. *)
Lemma disconnect_run n pu pt db rng0 :
  n ≡ node' -> node_pools_ok n ->
  height node <> 0 -> keyHeight node = h_KeyHeight parent ->
  parentData (height n) pu pt db = Ok (databaseUndoUpdate node, databaseBlockTickets node) ->
  exists node'' rng'', disconnectNode (Some n) parent pu pt isKey db rng0 = Ok (node'', rng'') /\
    node'' ≡ node /\ node_pools_ok node''.
Proof using Hp Hparams Hok Hrules Hc.
  intros Hn Hnp Hh Hkh Hpd. pose proof restored_winners as Hwin. destruct connect_wf as (_ & _ & Hnd).
  destruct connect_log as (us1 & us2 & us3 & us4 & Hu & Hpools & Hbl).
  pose proof (bl_log _ _ _ _ _ _ _ _ _ _ _ Hbl) as Hl. rewrite <- Hu in Hl. clear Hbl Hu us1 us2 us3 us4.
  pose proof Hn as (N1 & N2 & N3 & N4 & N5 & N6 & N7 & N8).
  rewrite <- N3, <- N4 in Hl. rewrite <- N4 in Hnd, Hwin. rewrite <- N6 in Hwin.
  destruct (undo_loop_run rng_Int (databaseUndoUpdate n)
    (MkRestore (liveTickets n) (missedTickets n) (revokedTickets n) []) (nabs node) rng0)
    as (r & rng1 & Hr & Hrok & Hra & Hrw); [done|done|done|]. cbn [r_winners app] in Hrw.
  pose proof (f_equal p_live Hra) as Hlive. cbn in Hlive.
  pose proof (restored_state n (r_live r) Hn (proj1 Hrok) Hlive) as Hst.
  destruct (connectNode_inv _ _ _ _ _ _ _ _ _ Hc) as (? & ? & ? & _ & _ & E).
  assert (Eh : height n = u32 (height node + 1)) by (by rewrite N1, E).
  assert (Ep : params n = params node) by (by rewrite N8, E). clear E.
  pose proof (br_height _ _ _ _ _ _ Hrules). pose proof (nok_height _ _ _ Hok) as Hhr.
  unfold is_u32 in Hhr. rewrite u32_small in Eh by (unfold is_u32; lia).
  unfold StakeNode.disconnectNode. destruct (Z.eqb_spec (height n) 1); [lia|].
  rewrite (stM_bind_run _ _ _ _ _ (lift_run _ _ _ Hpd)), (stM_bind_run _ _ _ _ _ Hr), Hrw, Hwin.
  rewrite (stM_bind_run _ _ _ _ _ (lift_run _ _ _ Hst)). do 2 eexists. split; [done|].
  split; [|exact Hrok].
  unfold equiv, node_equiv. cbn. rewrite Eh, Ep, Hkh. split_and!; try done.
  rewrite u32_small by (unfold is_u32; lia). lia.
Qed.

End step.

(** ** The invariant of a chain *)

Lemma genesis_ok p header isKey :
  params_ok p -> realKeyHeight header isKey < StakeValidationHeight p - 1 ->
  node_ok (genesisNode p) header isKey.
Proof.
  intros Hp Hr. destruct (pool_new_ok (T := T)) as [Hn He].
  assert (Hv : pool_view (pool_new (T := T)) = ∅) by (unfold pool_view; by rewrite He).
  constructor; unfold genesisNode, nabs, abs, node_pools_ok, lotteryState; cbn;
    rewrite ?Hv, ?map_size_empty; try done; try (by constructor).
  all: destruct (Z.geb_spec (realKeyHeight header isKey) (StakeValidationHeight p - 1)); lia || done.
Qed.

Lemma reachable_node_ok p node header isKey :
  params_ok p -> reachable p node header isKey -> params node = p /\ node_ok node header isKey.
Proof.
  intros Hp. induction 1 as [header isKey Hr|node parent pk header spent revoked new isKey rng
    node' rng' Hreach [IH1 IH2] Hrules Hc|node node' header isKey Hreach [IH1 IH2] He Hpo].
  - split; [done|]. by apply genesis_ok.
  - split; [|by eapply connect_node_ok].
    by destruct (connectNode_inv _ _ _ _ _ _ _ _ _ Hc) as (? & ? & ? & _ & _ & ->).
  - split; [|by eapply node_ok_equiv]. by destruct He as (_ & _ & _ & _ & _ & _ & _ & ->).
Qed.

(** C1: every stake node of a chain of blocks from the genesis node is well formed:
    its treaps are well formed, each ticket is in at most one of the live, missed and
    revoked pools, under a 32-byte hash and with exactly the flags of that pool, the
    next winners are distinct live tickets, as many as the network asks from the
    validation height on and none before, the recorded data fits its storage format,
    and the final state is the checksum of the lottery of the block. *)
Theorem reachable_invariant (p : StakeParams) (node : Node T) (header : BlockHeader) (isKey : bool) :
  params_ok p -> reachable p node header isKey ->
  params node = p /\ node_ok node header isKey.
Proof. apply reachable_node_ok. Qed.


Lemma reachable_height p node header isKey :
  params_ok p -> reachable p node header isKey ->
  (height node = 0 -> genesisNode p ≡ node) /\
  (height node <> 0 -> keyHeight node = h_KeyHeight header).
Proof.
  intros Hp Hr. induction Hr as [header isKey Hh|node parent pk header spent revoked new isKey rng
    node' rng' Hreach _ Hrules Hc|node node' header isKey Hreach [IH1 IH2] He Hpo]; [done| |].
  - destruct (reachable_node_ok _ _ _ _ Hp Hreach) as [_ Hok].
    destruct (connectNode_inv _ _ _ _ _ _ _ _ _ Hc) as (? & ? & ? & _ & _ & ->). cbn.
    pose proof (br_height _ _ _ _ _ _ Hrules). pose proof (nok_height _ _ _ Hok) as Hh.
    unfold is_u32 in Hh. rewrite u32_small by (unfold is_u32; lia). split; [lia|done].
  - pose proof He as (-> & -> & _). split; [|done]. intros E. by rewrite He, <- IH1.
Qed.

(** C23: connecting a block changes every ticket exactly as the rules of the chain
    say, and no other: its new tickets become live with the height and key height of
    the block; once stake is enabled, in a key block the winners leave the live pool,
    the voting ones for good and the others for the missed pool, the live tickets
    past their expiry become missed and expired, and the revoked tickets move from
    the missed to the revoked pool; every other ticket keeps its place and value. *)
Theorem connect_effect p node parent parentIsKey header spent revoked new isKey rng node' rng' :
  params_ok p -> reachable p node parent parentIsKey ->
  block_rules node parent parentIsKey header revoked new ->
  connectNode (Some node) header spent revoked new isKey rng = Ok (node', rng') ->
  height node' = height node + 1 /\ keyHeight node' = h_KeyHeight header /\
  databaseBlockTickets node' = new /\
  forall k, slot_at (nabs node') k =
    after_block node header spent revoked new isKey k (slot_at (nabs node) k).
Proof.
  intros Hp Hr Hrules Hc. destruct (reachable_node_ok _ _ _ _ Hp Hr) as [Hparams Hok].
  split; [|split; [|split]]; [| | |by eapply connect_slot];
    destruct (connectNode_inv _ _ _ _ _ _ _ _ _ Hc) as (? & ? & ? & _ & _ & ->); try done. cbn.
  pose proof (br_height _ _ _ _ _ _ Hrules). pose proof (nok_height _ _ _ Hok) as Hh.
  unfold is_u32 in Hh. by rewrite u32_small by (unfold is_u32; lia).
Qed.

(** The sizes of the pools add up: the live pool gains the new tickets and
    loses the winners and the expired tickets the undo data records, the missed pool
    gains these except the ones that voted and loses the revoked ones, which the
    revoked pool gains; the recorded winners are the winners of the parent. *)
Theorem connect_counts p node parent parentIsKey header spent revoked new isKey rng node' rng' :
  params_ok p -> reachable p node parent parentIsKey ->
  block_rules node parent parentIsKey header revoked new ->
  connectNode (Some node) header spent revoked new isKey rng = Ok (node', rng') ->
  let us := databaseUndoUpdate node' in
  let enabled := stakeEnabled node header in
  Z.of_nat (size (pool_view (liveTickets node'))) =
    Z.of_nat (size (pool_view (liveTickets node))) + Z.of_nat (length new)
    - count is_winner us - count is_expire us /\
  Z.of_nat (size (pool_view (missedTickets node'))) =
    Z.of_nat (size (pool_view (missedTickets node))) + count is_winner us + count is_expire us
    - count u_Spent us - Z.of_nat (if enabled then length revoked else 0) /\
  Z.of_nat (size (pool_view (revokedTickets node'))) =
    Z.of_nat (size (pool_view (revokedTickets node)))
    + Z.of_nat (if enabled then length revoked else 0) /\
  count is_winner us =
    Z.of_nat (if enabled && isKey then length (nextWinners node) else 0).
Proof.
  intros Hp Hr Hrules Hc. destruct (reachable_node_ok _ _ _ _ Hp Hr) as [Hparams Hok]. cbn zeta.
  destruct (connect_log _ _ _ _ _ _ _ _ _ _ _ Hok Hc) as (us1 & us2 & us3 & us4 & -> & _ & Hbl).
  destruct (log_sizes _ _ _ (bl_log _ _ _ _ _ _ _ _ _ _ _ Hbl)) as (S1 & S2 & S3).
  destruct (block_counts _ _ _ _ _ _ _ _ _ _ _ Hbl) as (C1 & C2 & C3 & C4 & C5).
  pose proof (f_equal length (bl_winners _ _ _ _ _ _ _ _ _ _ _ Hbl)) as L1.
  pose proof (f_equal length (bl_revoked _ _ _ _ _ _ _ _ _ _ _ Hbl)) as L3.
  rewrite length_fmap in L1, L3. unfold nabs, abs in S1, S2, S3; cbn in S1, S2, S3.
  rewrite S1, S2, S3, C1, C2, C3, C4, L1, L3.
  destruct (stakeEnabled node header), isKey; cbn [andb length]; lia.
Qed.

Lemma disconnect_restores p node parent parentIsKey header spent revoked new isKey rng node' rng'
    n parentUtds parentTickets dbTx rng0 :
  params_ok p -> reachable p node parent parentIsKey ->
  block_rules node parent parentIsKey header revoked new ->
  connectNode (Some node) header spent revoked new isKey rng = Ok (node', rng') ->
  n ≡ node' -> node_pools_ok n ->
  parentData (height n) parentUtds parentTickets dbTx =
    Ok (databaseUndoUpdate node, databaseBlockTickets node) ->
  exists node'' rng'',
    disconnectNode (Some n) parent parentUtds parentTickets isKey dbTx rng0 =
      Ok (node'', rng'') /\ node'' ≡ node /\ node_pools_ok node''.
Proof.
  intros Hp Hr Hrules Hc Hn Hnp Hpd. destruct (reachable_node_ok _ _ _ _ Hp Hr) as [Hparams Hok].
  destruct (reachable_height _ _ _ _ Hp Hr) as [H0 H1].
  destruct (Z.eq_dec (height node) 0) as [E|E]; [|by eapply disconnect_run; eauto].
  assert (height n = 1 /\ params n = p) as [Eh Ep].
  { destruct Hn as (-> & _ & _ & _ & _ & _ & _ & ->).
    destruct (connectNode_inv _ _ _ _ _ _ _ _ _ Hc) as (? & ? & ? & _ & _ & ->). cbn.
    by rewrite E. }
  unfold StakeNode.disconnectNode. rewrite Eh, Ep. do 2 eexists. split; [done|].
  split; [by apply H0|]. destruct (pool_new_ok (T := T)) as [Hnew _]. done.
Qed.

(** C3: disconnecting a block undoes connecting it.  For a block on a chain that follows
    the rules the validation establishes ([block_rules]: its key height follows from its
    parent, the heights and the number of tickets stay in range, its new tickets are
    unknown and what it revokes is missed), with the undo data and new tickets of the
    parent, passed in memory or found in the database, disconnecting the node of the
    block gives back the node of its parent in every field: heights,
    ticket pools, undo data, winners and final state. *)
Theorem disconnect_connect p node parent parentIsKey header spent revoked new isKey rng node' rng'
    parentUtds parentTickets dbTx rng0 :
  params_ok p -> reachable p node parent parentIsKey ->
  block_rules node parent parentIsKey header revoked new ->
  connectNode (Some node) header spent revoked new isKey rng = Ok (node', rng') ->
  parentData (height node') parentUtds parentTickets dbTx =
    Ok (databaseUndoUpdate node, databaseBlockTickets node) ->
  exists node'' rng'',
    disconnectNode (Some node') parent parentUtds parentTickets isKey dbTx rng0 =
      Ok (node'', rng'') /\ node'' ≡ node.
Proof.
  intros Hp Hr Hrules Hc Hpd. destruct (reachable_node_ok _ _ _ _ Hp Hr) as [_ Hok].
  destruct (connect_log _ _ _ _ _ _ _ _ _ _ _ Hok Hc) as (_ & _ & _ & _ & _ & Hpo & _).
  destruct (disconnect_restores _ _ _ _ _ _ _ _ _ _ _ _ node' _ _ _ rng0 Hp Hr Hrules Hc
    (reflexivity _) Hpo Hpd) as (n & r & H1 & H2 & _). eauto.
Qed.
End chain.

(** ** A sample chain

    Four blocks with one ticket per block, from which the witnesses are taken.  The
    hash of the sample is a polynomial checksum. *)

Module Sample.

Definition HashH (m : bytes) : bytes := put_le 32 (foldl Z.add 7 m * 0x123456789abcdef1).

Definition rng_Int (r : Z) : Z * Z := ((r * 37 + 11) mod 101, r + 1).

Definition p : StakeParams :=
  {| TicketsPerBlock := 1; TicketExpiry := 10; StakeEnabledHeight := 1;
     StakeValidationHeight := 3; GenesisHash := replicate 32 255 |}.

Definition header (h kh : Z) : BlockHeader :=
  {| h_Version := 1; h_PrevBlock := replicate 32 1; h_PrevKeyBlock := replicate 32 2;
     h_MerkleRoot := replicate 32 3; h_StakeRoot := replicate 32 4; h_VoteBits := 1;
     h_FinalState := [1; 2; 3; 4; 5; 6]; h_Voters := 5; h_FreshStake := 20;
     h_Revocations := 1; h_PoolSize := 40960; h_Bits := 0x1d00ffff; h_SBits := 2;
     h_Height := h; h_KeyHeight := kh; h_Size := 1024; h_Timestamp := 1500000000;
     h_Nonce := 7; h_ExtraData := replicate 32 9; h_StakeVersion := 4 |}.

Definition ticket (n : Z) : bytes := replicate 32 n.

Definition connect (node : Node Immutable.t) (h : BlockHeader) (spent revoked new : list bytes)
    : Node Immutable.t :=
  match connectNode rng_Int HashH 20 (Some node) h spent revoked new true 0 with
  | Ok (n, _) => n
  | _ => genesisNode p
  end.

Definition node0 : Node Immutable.t := genesisNode p.
Definition node1 := connect node0 (header 1 0) [] [] [].
Definition node2 := connect node1 (header 2 1) [] [] [ticket 1; ticket 2; ticket 3; ticket 4].
(* The winner of block 2 does not vote in block 3 and is revoked in block 4. *)
Definition node3 := connect node2 (header 3 2) [] [] [ticket 5].
Definition node4 := connect node3 (header 4 3) (nextWinners node3) (nextWinners node2) [ticket 6].
(* Another block 3, in which that winner misses and is revoked at once. *)
Definition node3' := connect node2 (header 3 2) [] (nextWinners node2) [].

Lemma params_sample : params_ok p.
Proof. split; cbn; unfold is_u32; lia. Qed.

#[local] Notation run := (connectNode rng_Int HashH 20).
#[local] Notation chain := (reachable rng_Int HashH 20 p).

Lemma connect1 : exists r, run (Some node0) (header 1 0) [] [] [] true 0 = Ok (node1, r).
Proof. eexists. vm_compute. reflexivity. Qed.
Lemma connect2 : exists r,
  run (Some node1) (header 2 1) [] [] [ticket 1; ticket 2; ticket 3; ticket 4] true 0 = Ok (node2, r).
Proof. eexists. vm_compute. reflexivity. Qed.
Lemma connect3 : exists r, run (Some node2) (header 3 2) [] [] [ticket 5] true 0 = Ok (node3, r).
Proof. eexists. vm_compute. reflexivity. Qed.
Lemma connect4 : exists r,
  run (Some node3) (header 4 3) (nextWinners node3) (nextWinners node2) [ticket 6] true 0 = Ok (node4, r).
Proof. eexists. vm_compute. reflexivity. Qed.

Definition revokedb (node : Node Immutable.t) (k : bytes) : bool :=
  match pool_view (missedTickets node) !! k with Some _ => true | None => false end.
Definition unknownb (node : Node Immutable.t) (k : bytes) : bool :=
  match slot_at (nabs node) k with
  | (None, None, None) => (length k =? HashSizeN)%nat
  | _ => false
  end.

Lemma block_validb node revoked new :
  forallb (revokedb node) revoked && forallb (unknownb node) new = true ->
  block_valid node revoked new.
Proof.
  intros [H1 H2]%andb_prop. rewrite forallb_forall in H1, H2. split; apply Forall_forall.
  - intros k Hk%list_elem_of_In%H1. unfold revokedb in Hk. by destruct (_ !! k).
  - intros k Hk%list_elem_of_In%H2. unfold unknownb in Hk. unfold unknown, is_hash.
    destruct (slot_at (nabs node) k) as [[[] []] []]; try done. by apply Nat.eqb_eq in Hk.
Qed.

Ltac rules :=
  constructor; [vm_compute; reflexivity|cbn; lia|vm_compute; reflexivity|vm_compute; reflexivity|];
  apply block_validb; vm_compute; reflexivity.

Lemma rules1 : block_rules node0 (header 0 0) false (header 1 0) [] [].
Proof. rules. Qed.
Lemma rules2 :
  block_rules node1 (header 1 0) true (header 2 1) [] [ticket 1; ticket 2; ticket 3; ticket 4].
Proof. rules. Qed.
Lemma rules3 : block_rules node2 (header 2 1) true (header 3 2) [] [ticket 5].
Proof. rules. Qed.
Lemma rules4 : block_rules node3 (header 3 2) true (header 4 3) (nextWinners node2) [ticket 6].
Proof. rules. Qed.

Lemma chain0 : chain node0 (header 0 0) false.
Proof. apply reach_genesis. reflexivity. Qed.
Lemma chain1 : chain node1 (header 1 0) true.
Proof. destruct connect1. eapply reach_connect; [exact chain0|exact rules1|eassumption]. Qed.
Lemma chain2 : chain node2 (header 2 1) true.
Proof. destruct connect2. eapply reach_connect; [exact chain1|exact rules2|eassumption]. Qed.
Lemma chain3 : chain node3 (header 3 2) true.
Proof. destruct connect3. eapply reach_connect; [exact chain2|exact rules3|eassumption]. Qed.

End Sample.

Lemma reachable_invariant_witness :
  NoDup (nextWinners Sample.node3) /\ length (nextWinners Sample.node3) = 1%nat.
Proof.
  destruct (reachable_invariant Sample.rng_Int Sample.HashH 20 Sample.p Sample.node3
    (Sample.header 3 2) true Sample.params_sample Sample.chain3) as [_ Hok].
  split; [exact (nok_winners _ _ _ _ _ Hok)|vm_compute; reflexivity].
Defined.

Lemma connect_effect_witness :
  slot_at (nabs Sample.node4) (Sample.ticket 3) =
    (None, None, Some (MkValue 2 1 true true false false)) /\
  slot_at (nabs Sample.node4) (Sample.ticket 1) = (None, None, None).
Proof.
  destruct Sample.connect4 as [r Hc].
  destruct (connect_effect Sample.rng_Int Sample.HashH 20 Sample.p Sample.node3 (Sample.header 3 2)
    true (Sample.header 4 3) _ _ _ true 0 Sample.node4 r Sample.params_sample Sample.chain3
    Sample.rules4 Hc) as (_ & _ & _ & Hs).
  split; rewrite Hs; vm_compute; reflexivity.
Defined.

Lemma connect_counts_witness :
  Z.of_nat (size (pool_view (liveTickets Sample.node4))) = 4 + 1 - 1 - 0.
Proof.
  destruct Sample.connect4 as [r Hc].
  destruct (connect_counts Sample.rng_Int Sample.HashH 20 Sample.p Sample.node3 (Sample.header 3 2)
    true (Sample.header 4 3) _ _ _ true 0 Sample.node4 r Sample.params_sample Sample.chain3
    Sample.rules4 Hc) as (H1 & _). rewrite H1. vm_compute. reflexivity.
Defined.

Lemma disconnect_connect_witness :
  exists node rng,
    disconnectNode Sample.rng_Int Sample.HashH 20 (Some Sample.node4) (Sample.header 3 2)
      (Some (databaseUndoUpdate Sample.node3)) (Some (databaseBlockTickets Sample.node3)) true None 9 =
      Ok (node, rng) /\ node ≡ Sample.node3.
Proof.
  destruct Sample.connect4 as [r Hc].
  apply (disconnect_connect Sample.rng_Int Sample.HashH 20 Sample.p Sample.node3 (Sample.header 3 2)
    true (Sample.header 4 3) _ _ _ true 0 Sample.node4 r _ _ _ 9 Sample.params_sample Sample.chain3
    Sample.rules4 Hc). reflexivity.
Defined.

(** The undo data is replayed in the order in which it was recorded, not in
    reverse.  A block in which a winner misses its vote and is revoked at once is
    accepted when it is connected, but can then not be disconnected: the replay looks
    for the ticket among the missed ones, where it no longer is. *)
Theorem forward_undo_fails :
  exists rng,
    connectNode Sample.rng_Int Sample.HashH 20 (Some Sample.node2) (Sample.header 3 2)
      [] (nextWinners Sample.node2) [] true 0 = Ok (Sample.node3', rng) /\
    disconnectNode Sample.rng_Int Sample.HashH 20 (Some Sample.node3') (Sample.header 2 1)
      (Some (databaseUndoUpdate Sample.node2)) (Some (databaseBlockTickets Sample.node2))
      true None rng = Err ErrMissingTicket.
Proof. exists 2. split; vm_compute; reflexivity. Qed.
