(* ===== verification/StakeProgress.v ===== *)
(** * Valid blocks connect

    When [connectNode] of [blockchain/stake/tickets.go] accepts a block: on a chain
    of blocks, a block that satisfies the rules of the chain is rejected only by its
    own lottery, and nothing panics. *)

From S2P Require Import Prelude TreapCore TicketTreap Lottery WireCommon TicketDb Compact StakeNode StakeLog StakeProofs StakeChain.
From stdpp Require Import list gmap.
#[local] Open Scope Z_scope.

Section progress.
Context `{TicketPool T} {R : Type} (rng_Int : R -> Z * R).
Context (HashH : bytes -> bytes) (fuel : nat).

#[local] Notation connectNode := (connectNode rng_Int HashH fuel).

(** ** The loops run to their end *)

(** A loop whose step runs on every ticket in a place [P], and moves only that
    ticket. *)
Lemma foldS_run (Q : work (T := T) -> Prop) (P : slot -> Prop)
    (step : work (T := T) -> bytes -> stM R stakeError (work (T := T))) l :
  (forall w k rng, Q w -> P (slot_at (wabs w) k) ->
    exists u w' rng', step w k rng = Ok (w', rng') /\ advances w u w' /\ TicketHash u = k /\ Q w') ->
  forall w rng, Q w -> NoDup l -> (forall k, k ∈ l -> P (slot_at (wabs w) k)) ->
  exists w' rng', foldS step w l rng = Ok (w', rng').
Proof.
  intros Hstep. induction l as [|k l IH]; intros w rng Hw Hnd Hl; cbn [foldS]; [eauto|].
  apply NoDup_cons in Hnd as [Hk Hnd].
  destruct (Hstep w k rng Hw (Hl k ltac:(left))) as (u & w1 & rng1 & E & (_ & (s & _ & Ha) & _) & Hu & Hw1).
  rewrite (stM_bind_run _ _ _ _ _ E). apply IH; [done..|]. intros j Hj.
  rewrite Ha, slot_at_set_ne; [apply Hl; by right|]. rewrite Hu. by intros ->.
Qed.

Lemma winner_loop_run spent l w rng :
  work_wf w -> NoDup l -> (forall k, k ∈ l -> (slot_at (wabs w) k).1.1 <> None) ->
  exists w' rng', foldS (winner_step rng_Int spent) w l rng = Ok (w', rng').
Proof.
  intros Hw Hnd Hl. revert w rng Hw Hnd Hl.
  refine (foldS_run work_wf (fun s => s.1.1 <> None) _ l _). intros w k rng Hw Hs.
  pose proof (proj2 Hw k) as Hk. destruct (slot_at (wabs w) k) as [[[v|] m] r] eqn:E; [|done].
  apply slot_wf_live in Hk as (Hf & -> & ->).
  destruct (winner_step_run rng_Int spent w k v None None rng (proj1 Hw) E Hf)
    as (u & w' & rng' & E' & Ha & Hu & Hk & _); [done|].
  exists u, w', rng'. split_and!; [done..|]. eapply advances_wf; [done..|].
  unfold is_winner, is_new in *. by destruct (u_Missed u), (u_Spent u), (u_Revoked u).
Qed.

Lemma expire_loop_run l w rng :
  work_wf w -> NoDup l -> (forall k, k ∈ l -> (slot_at (wabs w) k).1.1 <> None) ->
  exists w' rng', foldS (expire_step rng_Int) w l rng = Ok (w', rng').
Proof.
  intros Hw Hnd Hl. revert w rng Hw Hnd Hl.
  refine (foldS_run work_wf (fun s => s.1.1 <> None) _ l _). intros w k rng Hw Hs.
  pose proof (proj2 Hw k) as Hk. destruct (slot_at (wabs w) k) as [[[v|] m] r] eqn:E; [|done].
  apply slot_wf_live in Hk as (Hf & -> & ->).
  destruct (expire_step_run rng_Int w k v None rng (proj1 Hw) E Hf)
    as (u & w' & rng' & E' & Ha & Hu & Hk).
  exists u, w', rng'. split_and!; [done..|]. eapply advances_wf; [done..|].
  unfold is_expire, is_new in *. by destruct (u_Missed u), (u_Spent u), (u_Revoked u).
Qed.

Lemma revoke_loop_run l w rng :
  work_wf w -> NoDup l -> (forall k, k ∈ l -> (slot_at (wabs w) k).1.2 <> None) ->
  exists w' rng', foldS (revoke_step rng_Int) w l rng = Ok (w', rng').
Proof.
  intros Hw Hnd Hl. revert w rng Hw Hnd Hl.
  refine (foldS_run work_wf (fun s => s.1.2 <> None) _ l _). intros w k rng Hw Hs.
  pose proof (proj2 Hw k) as Hk. destruct (slot_at (wabs w) k) as [[ml [v|]] r] eqn:E; [|done].
  apply slot_wf_missed in Hk as (Hf & -> & ->).
  destruct (revoke_step_run rng_Int w k v None rng (proj1 Hw) E Hf)
    as (u & w' & rng' & E' & Ha & Hu & Hk).
  exists u, w', rng'. split_and!; [done..|]. eapply advances_wf; [done..|].
  unfold is_revoke, is_new in *. by destruct (u_Missed u), (u_Spent u), (u_Revoked u).
Qed.

Lemma new_loop_run h kh l w rng :
  work_ok w -> NoDup l -> (forall k, k ∈ l -> (slot_at (wabs w) k).1.1 = None) ->
  exists w' rng', foldS (new_step rng_Int h kh) w l rng = Ok (w', rng').
Proof.
  intros Hw Hnd Hl. revert w rng Hw Hnd Hl.
  refine (foldS_run work_ok (fun s => s.1.1 = None) _ l _). intros w k rng Hw Hs.
  destruct (slot_at (wabs w) k) as [[[v|] m] r] eqn:E; [done|].
  destruct (new_step_run rng_Int h kh w k m r rng Hw E) as (u & w' & rng' & E' & Ha & ->).
  do 3 eexists. split_and!; [done..|apply Ha].
Qed.

(** ** The pools of a valid block *)

(** The choices that are left to a block: whom it lets vote and what it revokes. *)
Record block_votes (node : Node T) (header : BlockHeader) (spent revoked new : list bytes) : Prop := {
  bvo_spent : stakeEnabled node header -> Forall (fun t => t ∈ nextWinners node) spent;
  bvo_revoked : NoDup revoked;
  bvo_new : NoDup new
}.

Lemma moved_away (node : Node T) us w k :
  pools_wf (nabs node) -> log (nabs node) us (wabs w) ->
  Forall (fun u => is_winner u || is_expire u) us ->
  p_live (nabs node) !! k = None -> slot_at (wabs w) k = slot_at (nabs node) k.
Proof.
  intros Hwf Hl Hk Hn. eapply log_frame; [exact Hl|]. intros Hin.
  destruct (log_takes_live _ _ _ k Hk Hl) as [_ HT]. by destruct (HT Hin).
Qed.

Lemma fetchExpired_NoDup kh (t : T) l : pool_ok t -> fetchExpired kh t = Some l -> NoDup l.
Proof.
  intros Ht. rewrite fetchExpired_spec. intros; simplify_eq.
  eapply sublist_NoDup; [by apply pool_NoDup|]. apply fmap_sublist, sublist_filter.
Qed.

(** The winners and the expired tickets leave the live pool. *)
Lemma key_phase_run (node : Node T) spent kh w0 rng :
  work_wf w0 -> wabs w0 = nabs node -> NoDup (nextWinners node) ->
  Forall (fun k => is_Some (pool_view (liveTickets node) !! k)) (nextWinners node) ->
  exists w1 rng1 w2 rng2 expired us,
    foldS (winner_step rng_Int spent) w0 (nextWinners node) rng = Ok (w1, rng1) /\
    fetchExpired kh (w_live w1) = Some expired /\
    foldS (expire_step rng_Int) w1 expired rng1 = Ok (w2, rng2) /\
    work_wf w2 /\ log (nabs node) us (wabs w2) /\ Forall (fun u => is_winner u || is_expire u) us.
Proof.
  intros Hw0 Ha Hnd Hl. rewrite Forall_forall in Hl.
  destruct (winner_loop_run spent (nextWinners node) w0 rng Hw0 Hnd) as (w1 & rng1 & E1).
  { intros k [v Hk]%Hl. rewrite Ha. unfold slot_at, nabs, abs; cbn. by rewrite Hk. }
  destruct (winner_loop_log _ _ _ _ _ _ _ Hw0 E1) as (us1 & L1 & _ & _ & K1 & W1).
  destruct (fetchExpired kh (w_live w1)) as [expired|] eqn:Ee;
    [|by rewrite fetchExpired_spec in Ee].
  destruct (expire_loop_run expired w1 rng1 W1) as (w2 & rng2 & E2).
  { eapply fetchExpired_NoDup; [|exact Ee]. apply W1. }
  { intros k Hk. apply (fetchExpired_elem _ _ _ _ (proj1 (proj1 W1)) Ee) in Hk as (v & Hv & _).
    unfold slot_at, wabs, abs; cbn. by rewrite Hv. }
  destruct (expire_loop_log _ _ _ _ _ _ W1 E2) as (us2 & L2 & _ & _ & K2 & W2).
  exists w1, rng1, w2, rng2, expired, (us1 ++ us2). split_and!; try done.
  - rewrite <- Ha. by eapply log_app.
  - apply Forall_app. split; (eapply Forall_impl; [eassumption|]); cbn beta.
    + intros u [Hu _]. apply orb_True. by left.
    + intros u Hu. apply orb_True. by right.
Qed.

(** The revocations and the new tickets. *)
Lemma last_phases_run (node : Node T) h kh revoked new w us rng :
  pools_wf (nabs node) -> block_valid node revoked new -> NoDup revoked -> NoDup new ->
  work_wf w -> log (nabs node) us (wabs w) -> Forall (fun u => is_winner u || is_expire u) us ->
  exists w3 rng3 w4 rng4, foldS (revoke_step rng_Int) w revoked rng = Ok (w3, rng3) /\
    foldS (new_step rng_Int h kh) w3 new rng3 = Ok (w4, rng4).
Proof.
  intros Hwf Hbv V2 V3 Hw Hlog Hkinds.
  pose proof (bv_new _ _ _ Hbv) as Hnew. rewrite Forall_forall in Hnew.
  pose proof (bv_revoked _ _ _ Hbv) as Hrev. rewrite Forall_forall in Hrev.
  assert (Hmiss : forall k, k ∈ revoked -> exists v, slot_at (nabs node) k = (None, Some v, None)).
  { intros k [v Hk]%Hrev. exists v. pose proof (Hwf k) as Hs. unfold slot_at, nabs, abs in *; cbn in *.
    rewrite Hk in *. by apply (slot_wf_missed k v) in Hs as (_ & -> & ->). }
  destruct (revoke_loop_run revoked w rng Hw V2) as (w3 & rng3 & E3).
  { intros k Hk. destruct (Hmiss k Hk) as [v Hv].
    rewrite (moved_away node us w k), Hv; try done. unfold slot_at in Hv. naive_solver. }
  destruct (revoke_loop_log _ _ _ _ _ _ Hw E3) as (us3 & L3 & _ & Hh3 & _ & W3).
  destruct (new_loop_run h kh new w3 rng3 (proj1 W3) V3) as (w4 & rng4 & E4).
  { intros k Hk. destruct (Hnew k Hk) as [_ Hu]. rewrite (log_frame _ _ _ k L3).
    - rewrite (moved_away node us w k), Hu; try done. unfold slot_at in Hu. naive_solver.
    - rewrite Hh3. intros Hr. destruct (Hmiss k Hr) as [v Hv]. congruence. }
  by exists w3, rng3, w4, rng4.
Qed.

Lemma connectPools_run (node : Node T) header spent revoked new isKey rng :
  node_pools_ok node -> pools_wf (nabs node) -> NoDup (nextWinners node) ->
  Forall (fun k => is_Some (pool_view (liveTickets node) !! k)) (nextWinners node) ->
  block_valid node revoked new -> block_votes node header spent revoked new ->
  exists w rng', connectPools rng_Int header spent revoked new isKey node rng = Ok (w, rng').
Proof.
  intros Hok Hwf Hwn Hwl Hbv [V1 V2 V3]. unfold connectPools.
  set (w0 := MkWork _ _ _ []). change (h_KeyHeight header >=? _) with (stakeEnabled node header).
  assert (Hw0 : work_wf w0) by (split; [exact Hok|exact Hwf]).
  destruct (stakeEnabled node header) eqn:Hen.
  2:{ destruct (new_loop_run (u32 (height node + 1)) (h_KeyHeight header) new w0 rng (proj1 Hw0) V3)
        as (w & rng' & E); [|eexists _, _; exact E].
      pose proof (bv_new _ _ _ Hbv) as Hnew. rewrite Forall_forall in Hnew.
      intros k [_ Hk]%Hnew. change (wabs w0) with (nabs node). by rewrite Hk. }
  assert (Hg : guard_err (negb (forallb (fun t => hashInSlice t (nextWinners node)) spent))
    ErrUnknownTicketSpent = Ok tt).
  { apply guard_err_Ok, negb_false_iff, forallb_forall. intros t Ht%list_elem_of_In.
    rewrite hashInSlice_elem. apply bool_decide_eq_true.
    specialize (V1 I). rewrite Forall_forall in V1. by apply V1. }
  destruct isKey.
  - destruct (key_phase_run node spent (toExpireKeyHeight (h_KeyHeight header) (params node)) w0 rng)
      as (w1 & rng1 & w2 & rng2 & expired & us & E1 & Ee & E2 & W2 & L & K); [done..|].
    destruct (last_phases_run node (u32 (height node + 1)) (h_KeyHeight header) revoked new w2 us rng2)
      as (w3 & rng3 & w4 & rng4 & E3 & E4); [done..|].
    exists w4, rng4. erewrite stM_bind_run; [exact E4|].
    rewrite (stM_bind_run _ _ _ _ _ (lift_run _ _ _ Hg)), (stM_bind_run _ _ _ _ _ E1).
    erewrite stM_bind_run; [exact E3|].
    erewrite stM_bind_run; [exact E2|]. apply lift_run. by rewrite Ee.
  - destruct (last_phases_run node (u32 (height node + 1)) (h_KeyHeight header) revoked new w0 [] rng)
      as (w3 & rng3 & w4 & rng4 & E3 & E4); [done..|apply log_nil|by constructor|].
    exists w4, rng4. erewrite stM_bind_run; [exact E4|].
    rewrite (stM_bind_run _ _ _ _ _ (lift_run _ _ _ Hg)). exact E3.
Qed.

(** ** The lottery does not panic *)

Lemma drawTickets_outcome size n prng :
  match drawTickets HashH fuel size n prng with
  | Ok _ => n <= size <= 0xFFFFFFFF
  | Err (ErrLottery ErrListTooSmall) => size < n
  | Err (ErrLottery ErrListTooBig) => n <= size /\ size > 0xFFFFFFFF
  | Err StillRunning => n <= size <= 0xFFFFFFFF /\ findTicketIdxs HashH fuel size n prng = None
  | _ => False
  end.
Proof.
  unfold drawTickets, findTicketIdxs. destruct (Z.ltb_spec size n); [done|].
  destruct (Z.gtb_spec size 0xFFFFFFFF); [cbn; lia|]. by destruct (idx_loop _ _ _ _ _ _ _).
Qed.

(** What the lottery for the next block makes of a live pool of [size] tickets. *)
Definition lottery_outcome {A} (p : StakeParams) (header : BlockHeader) (isKey : bool) (size : Z)
    (r : res stakeError A) : Prop :=
  let due := realKeyHeight header isKey >= StakeValidationHeight p - 1 in
  let n := TicketsPerBlock p in
  match r with
  | Ok _ => due -> n <= size <= 0xFFFFFFFF
  | Err (ErrLottery ErrListTooSmall) => due /\ size < n
  | Err (ErrLottery ErrListTooBig) => due /\ n <= size /\ size > 0xFFFFFFFF
  | Err StillRunning => due /\ n <= size <= 0xFFFFFFFF /\
      findTicketIdxs HashH fuel size n (NewHash256PRNG HashH (writeBlockHeader header)) = None
  | _ => False
  end.

Lemma connectLottery_outcome header isKey (node : Node T) live :
  params_ok (params node) -> pool_ok live -> Z.of_nat (size (pool_view live)) < 2 ^ 63 ->
  (isKey = false -> winners_ok header isKey (params node) live (nextWinners node)) ->
  lottery_outcome (params node) header isKey (Z.of_nat (size (pool_view live)))
    (connectLottery HashH fuel header isKey node live).
Proof.
  intros Hp Ht Hsz Hnon. unfold connectLottery, winners_ok, lottery_outcome in *.
  rewrite <- pool_len_small by done. fold (realKeyHeight header isKey). rewrite u32_validation by done.
  rewrite Z.geb_leb in *. destruct (Z.leb_spec (StakeValidationHeight (params node) - 1) (realKeyHeight header isKey));
    [|by intros].
  cbn [header_Bytes map_err mbind res_bind].
  pose proof (drawTickets_outcome (pool_len live) (TicketsPerBlock (params node))
    (NewHash256PRNG HashH (writeBlockHeader header))) as Ho.
  destruct (drawTickets _ _ _ _ _) as [[idxs prng]|e|] eqn:Hd; [| |exact Ho].
  2:{ cbn [mbind res_bind]. destruct e as [ | | | | | | |[]| | | ]; try done; (split; [lia|exact Ho]). }
  cbn [mbind res_bind].
  destruct (drawn_winners _ _ _ live _ _ _ Ht Hsz (pok_tickets _ Hp) Hd) as (ks & Hf & Hl & _ & _).
  rewrite Hf. cbn [map_err mbind res_bind]. destruct isKey; [rewrite mapM_id_Some; by intros _|].
  unfold takeWinners. rewrite length_fmap. destruct (Hnon eq_refl) as (_ & _ & N3).
  destruct (Nat.leb_spec (length ks) (length (nextWinners node))); [by intros _|lia].
Qed.

(** C24: on a chain, a block that follows the rules, lets only winners vote and lists no
    ticket twice is connected, unless the lottery for the next block is due and cannot be
    held: the live pool after the block has fewer tickets than a block draws, or more than
    2^32 - 1 tickets, or the draw needs more random numbers than [fuel] allows.  The live
    pool after the block is the one the rules say ([after_block]): without the winners and
    the expired tickets of a key block, with the new tickets.  No error of the ticket pools
    is left, and nothing panics; in particular a block without a key always finds the
    winners it takes over from its parent. *)
Theorem valid_block_connects p (node : Node T) parent parentIsKey header spent revoked new isKey rng :
  params_ok p -> reachable rng_Int HashH fuel p node parent parentIsKey ->
  block_rules node parent parentIsKey header revoked new ->
  block_votes node header spent revoked new ->
  exists live,
    (forall k, pool_view live !! k =
       (after_block node header spent revoked new isKey k (slot_at (nabs node) k)).1.1) /\
    lottery_outcome p header isKey (Z.of_nat (size (pool_view live)))
      (connectNode (Some node) header spent revoked new isKey rng) /\
    match connectNode (Some node) header spent revoked new isKey rng with
    | Ok (node', _) => liveTickets node' = live
    | _ => True
    end.
Proof.
  intros Hp Hr Hrules Hv. destruct (reachable_node_ok _ _ _ _ _ _ _ Hp Hr) as [Hparams Hok].
  destruct (connectPools_run node header spent revoked new isKey rng) as (w & rng' & Hw);
    [apply Hok|apply Hok|apply Hok|apply Hok|apply Hrules|done|].
  destruct (connectPools_log _ _ _ _ _ _ _ _ _ _ (nok_pools _ _ _ _ _ Hok) (nok_wf _ _ _ _ _ Hok) Hw)
    as (us1 & us2 & us3 & us4 & _ & Hwok & Hbl).
  exists (w_live w). split.
  { intros k. assert (Hk : slot_at (wabs w) k = _) by (eapply block_slot; [exact Hok|exact Hrules|exact Hbl]).
    by rewrite <- Hk. }
  pose proof (block_size _ _ _ _ _ _ _ _ _ _ _ Hbl) as Hsz. cbn in Hsz.
  pose proof (br_memory _ _ _ _ _ _ Hrules) as Hmem.
  assert (Ho : lottery_outcome p header isKey (Z.of_nat (size (pool_view (w_live w))))
    (connectLottery HashH fuel header isKey node (w_live w))).
  { rewrite <- Hparams in Hp |- *. apply connectLottery_outcome; [done|apply Hwok|lia|]. intros Hkey.
    eapply parent_winners_ok; [exact Hok|exact Hrules|exact Hkey|].
    intros k Hk. exact (block_keeps_live node header spent revoked new isKey us1 us2 us3 us4 _
      (nok_wf _ _ _ _ _ Hok) Hbl (br_valid _ _ _ _ _ _ Hrules) k Hkey Hk). }
  unfold StakeNode.connectNode. rewrite (stM_bind_run _ _ _ _ _ Hw).
  unfold mbind, stM_bind, lift.
  by destruct (connectLottery _ _ _ _ _ _) as [[winners fs]|e|].
Qed.
End progress.

Lemma valid_block_connects_witness :
  exists live : Immutable.t,
    match connectNode Sample.rng_Int Sample.HashH 20 (Some Sample.node3) (Sample.header 4 3)
      (nextWinners Sample.node3) (nextWinners Sample.node2) [Sample.ticket 6] true 0 with
    | Ok (node', _) => liveTickets node' = live
    | _ => False
    end.
Proof.
  destruct (valid_block_connects Sample.rng_Int Sample.HashH 20 Sample.p Sample.node3
    (Sample.header 3 2) true (Sample.header 4 3) (nextWinners Sample.node3) (nextWinners Sample.node2)
    [Sample.ticket 6] true 0 Sample.params_sample Sample.chain3 Sample.rules4) as (live & _ & _ & Hm).
  - split; [|vm_compute; repeat constructor; set_solver|apply NoDup_singleton].
    intros _. apply Forall_forall. auto.
  - exists live. destruct Sample.connect4 as [r Hc]. rewrite Hc in Hm |- *. exact Hm.
Defined.
