(* ===== verification/StakeStore.v ===== *)
(** * The stake node on disk

    The writes of [blockchain/stake/tickets.go] to the ticket database: the buckets
    follow the ticket pools of the best node through [WriteConnectedBestNode] and
    [WriteDisconnectedBestNode], and [LoadBestNode] reads the node back. *)

From S2P Require Import Prelude TreapCore TicketTreap Lottery WireCommon TicketDb Compact StakeNode StakeLog StakeProofs StakeChain.
From stdpp Require Import list gmap strings.
#[local] Open Scope Z_scope.

(** ** The buckets hold the pools *)

Record stored (tx : Tx) (p : pools) : Prop := {
  st_live : buckets tx !! LiveTicketsBucketName = Some (storeTicket <$> p_live p);
  st_missed : buckets tx !! MissedTicketsBucketName = Some (storeTicket <$> p_missed p);
  st_revoked : buckets tx !! RevokedTicketsBucketName = Some (storeTicket <$> p_revoked p)
}.

(** The rest of the database is the same. *)
Definition same_rest (tx tx' : Tx) : Prop :=
  meta tx' = meta tx /\
  buckets tx' !! StakeDbInfoBucketName = buckets tx !! StakeDbInfoBucketName /\
  buckets tx' !! StakeBlockUndoDataBucketName = buckets tx !! StakeBlockUndoDataBucketName /\
  buckets tx' !! TicketsInBlockBucketName = buckets tx !! TicketsInBlockBucketName.

#[export] Instance same_rest_preorder : PreOrder same_rest.
Proof.
  split.
  - intros tx. done.
  - intros a b c (? & ? & ? & ?) (? & ? & ? & ?). split_and!; congruence.
Qed.

Definition put_bucket (tx : Tx) (name : string) (b : bucket) : Tx :=
  MkTx (meta tx) (<[name := b]> (buckets tx)).

Lemma bucket_put_run tx name b k v :
  buckets tx !! name = Some b -> bucket_put tx name k v = Ok (put_bucket tx name (<[k := v]> b)).
Proof. intros E. unfold bucket_put, Bucket. by rewrite E. Qed.

Lemma DbDeleteTicket_run tx name b k v :
  buckets tx !! name = Some b -> b !! k = Some v ->
  DbDeleteTicket tx name k = Ok (put_bucket tx name (delete k b)).
Proof.
  intros E Ek. unfold DbDeleteTicket, bucket_delete, Bucket. rewrite E; cbn. by rewrite Ek.
Qed.

(** The lookup of another bucket after a change of one. *)
Ltac other_bucket := repeat (rewrite lookup_insert_eq || rewrite lookup_insert_ne by done).

Lemma fmap_put (k : bytes) (v : Value) (m : tickets) :
  <[k := storeTicket v]> (storeTicket <$> m) =
  storeTicket <$> partial_alter (fun _ => Some v) k m.
Proof. change (partial_alter _ k m) with (<[k := v]> m). by rewrite fmap_insert. Qed.

Lemma fmap_del (k : bytes) (m : tickets) :
  delete k (storeTicket <$> m) = storeTicket <$> partial_alter (fun _ => None) k m.
Proof. change (partial_alter _ k m) with (delete k m). by rewrite fmap_delete. Qed.

Lemma fmap_same (k : bytes) (o : option Value) (m : tickets) :
  m !! k = o -> storeTicket <$> m = storeTicket <$> partial_alter (fun _ => o) k m.
Proof. intros <-. by rewrite partial_alter_self. Qed.

Lemma fmap_lookup_Some (k : bytes) (v : Value) (m : tickets) :
  m !! k = Some v -> (storeTicket <$> m) !! k = Some (storeTicket v).
Proof. intros E. by rewrite lookup_fmap, E. Qed.

(** Close the goals about the buckets after the writes of a move. *)
Ltac close_stored :=
  split; [|split_and!; cbn; by other_bucket];
  constructor; cbn; other_bucket; rewrite ?fmap_put, ?fmap_del; first
    [reflexivity
    |match goal with S : buckets _ !! ?n = Some _ |- buckets _ !! ?n = _ =>
       rewrite S; f_equal; by apply fmap_same end].

(** The two kinds of moves between buckets. *)
Lemma write_one tx name b k (v : Value) :
  buckets tx !! name = Some (storeTicket <$> b) ->
  map_err ErrTicketDb (DbPutTicket tx name k (Height v) (KeyHeight v) (Missed v) (Revoked v)
    (Spent v) (Expired v)) =
  Ok (put_bucket tx name (<[k := storeTicket v]> (storeTicket <$> b))).
Proof. intros E. by apply map_err_Ok, bucket_put_run. Qed.

Lemma delete_one tx name b k (v : Value) :
  buckets tx !! name = Some (storeTicket <$> b) -> b !! k = Some v ->
  map_err ErrTicketDb (DbDeleteTicket tx name k) =
  Ok (put_bucket tx name (delete k (storeTicket <$> b))).
Proof. intros E Ek. eapply map_err_Ok, DbDeleteTicket_run; [exact E|by apply fmap_lookup_Some]. Qed.

Lemma connect_write_run tx p u p' :
  stored tx p -> entry p u p' ->
  exists tx', connect_write tx u = Ok tx' /\ stored tx' p' /\ same_rest tx tx'.
Proof.
  intros [S1 S2 S3] (s & Ht & ->). unfold connect_write.
  remember (slot_at p (TicketHash u)) as s0 eqn:E. unfold slot_at in E.
  destruct Ht as [k v m r Hf|k v m r Hf|k v e r Hf|k v l Hf]; cbn [TicketHash undoOf] in *;
    injection E as E1 E2 E3; symmetry in E1, E2, E3.
  - pose proof (write_one tx _ _ k v S1) as Hw. flags. eexists. split; [exact Hw|]. close_stored.
  - pose proof (delete_one tx _ _ k v S1 E1) as Hd. flags. eexists. split; [exact Hd|]. close_stored.
  - pose proof (delete_one tx _ _ k v S1 E1) as Hd.
    pose proof (write_one (put_bucket tx LiveTicketsBucketName (delete k (storeTicket <$> p_live p)))
      MissedTicketsBucketName (p_missed p) k (setExpired e (setMissed true v))) as Hw.
    cbn [put_bucket buckets] in Hw. rewrite lookup_insert_ne in Hw by done. specialize (Hw S2).
    flags. rewrite Hd. eexists. split; [exact Hw|]. close_stored.
  - pose proof (delete_one tx _ _ k v S2 E2) as Hd.
    pose proof (write_one (put_bucket tx MissedTicketsBucketName (delete k (storeTicket <$> p_missed p)))
      RevokedTicketsBucketName (p_revoked p) k (setRevoked true v)) as Hw.
    cbn [put_bucket buckets] in Hw. rewrite lookup_insert_ne in Hw by done. specialize (Hw S3).
    flags. rewrite Hd. eexists. split; [exact Hw|]. close_stored.
Qed.

Lemma disconnect_write_run tx q u p' :
  stored tx p' -> entry q u p' ->
  exists tx', disconnect_write tx u = Ok tx' /\ stored tx' q /\ same_rest tx tx'.
Proof.
  intros [S1 S2 S3] He. apply entry_undo in He as [Ht Hq]. rewrite <- Hq. clear Hq.
  revert Ht. generalize (slot_at q (TicketHash u)) as s0. intros s0 Ht. unfold disconnect_write.
  remember (slot_at p' (TicketHash u)) as s1 eqn:E. unfold slot_at in E.
  destruct Ht as [k v m r Hf|k v m r Hf|k v e r Hf|k v l Hf]; cbn [TicketHash undoOf] in *;
    injection E as E1 E2 E3; symmetry in E1, E2, E3.
  - pose proof (delete_one tx _ _ k v S1 E1) as Hd. flags. eexists. split; [exact Hd|]. close_stored.
  - pose proof (write_one tx _ _ k v S1) as Hw. flags. eexists. split; [exact Hw|]. close_stored.
  - pose proof (delete_one tx _ _ k _ S2 E2) as Hd.
    pose proof (write_one (put_bucket tx MissedTicketsBucketName (delete k (storeTicket <$> p_missed p')))
      LiveTicketsBucketName (p_live p') k v) as Hw.
    cbn [put_bucket buckets] in Hw. rewrite lookup_insert_ne in Hw by done. specialize (Hw S1).
    flags. rewrite Hd. eexists. split; [exact Hw|]. close_stored.
  - pose proof (delete_one tx _ _ k _ S3 E3) as Hd.
    pose proof (write_one (put_bucket tx RevokedTicketsBucketName (delete k (storeTicket <$> p_revoked p')))
      MissedTicketsBucketName (p_missed p') k v) as Hw.
    cbn [put_bucket buckets] in Hw. rewrite lookup_insert_ne in Hw by done. specialize (Hw S2).
    flags. rewrite Hd. eexists. split; [exact Hw|]. close_stored.
Qed.

Lemma connect_writes_run us : forall tx p p',
  stored tx p -> log p us p' ->
  exists tx', foldM connect_write tx us = Ok tx' /\ stored tx' p' /\ same_rest tx tx'.
Proof.
  induction us as [|u us IH]; intros tx p p' Hs Hl; inversion Hl as [|? ? p1 ? ? He Hl']; subst.
  - exists tx. done.
  - destruct (connect_write_run _ _ _ _ Hs He) as (tx1 & E1 & Hs1 & Hr1).
    destruct (IH _ _ _ Hs1 Hl') as (tx2 & E2 & Hs2 & Hr2).
    exists tx2. cbn [foldM]. rewrite E1. split_and!; [done..|by etransitivity].
Qed.

Lemma disconnect_writes_run us : forall tx q p',
  stored tx p' -> log q us p' -> NoDup (hashes us) ->
  exists tx', foldM disconnect_write tx us = Ok tx' /\ stored tx' q /\ same_rest tx tx'.
Proof.
  induction us as [|u us IH]; intros tx q p' Hs Hl Hnd; inversion Hl as [|? ? p1 ? ? He Hl']; subst.
  - exists tx. done.
  - cbn in Hnd. apply NoDup_cons in Hnd as [Hu Hnd].
    destruct (entry_log_swap _ _ _ _ _ He Hl' Hu) as (q' & Hq1 & Hq2).
    destruct (disconnect_write_run _ _ _ _ Hs Hq2) as (tx1 & E1 & Hs1 & Hr1).
    destruct (IH _ _ _ Hs1 Hq1 Hnd) as (tx2 & E2 & Hs2 & Hr2).
    exists tx2. cbn [foldM]. rewrite E1. split_and!; [done..|by etransitivity].
Qed.

(** Loading what is stored. *)
Lemma bucket_tickets_stored (m : tickets) :
  map_Forall (fun k v => is_hash k /\ value_ok v) m ->
  bucket_tickets (storeTicket <$> m) = Some m.
Proof.
  intros Hm. unfold bucket_tickets.
  assert (G : forall k v, m !! k = Some v -> loadTicket k (storeTicket v) = Some v).
  { intros k v Hk. destruct (Hm k v Hk). by apply loadTicket_store. }
  rewrite bool_decide_true.
  - f_equal. apply map_eq. intros k. rewrite map_lookup_imap, lookup_fmap.
    destruct (m !! k) as [v|] eqn:E; cbn; [by apply G|done].
  - intros k b. rewrite lookup_fmap. destruct (m !! k) as [v|] eqn:E; cbn; [|done].
    intros; simplify_eq. rewrite (G k v) by done. eauto.
Qed.

(** ** The state of the database for a node *)

(** The data recorded for a height. *)
Definition recorded (tx : Tx) (h : Z) (utds : list UndoTicketData) (new : list bytes) : Prop :=
  exists bu bn,
    buckets tx !! StakeBlockUndoDataBucketName = Some bu /\
    buckets tx !! TicketsInBlockBucketName = Some bn /\
    bu !! put_le 4 h = Some (serializeBlockUndoData utds) /\
    bn !! put_le 4 h = Some (serializeTicketHashes new).

Lemma recorded_fetch tx h utds new :
  recorded tx h utds new -> Forall utd_ok utds -> Forall is_hash new ->
  DbFetchBlockUndoData tx h = Ok utds /\ DbFetchNewTickets tx h = Ok new.
Proof.
  intros (bu & bn & E1 & E2 & E3 & E4) H1 H2.
  unfold DbFetchBlockUndoData, DbFetchNewTickets, Bucket. rewrite E1, E2; cbn [or_panic mbind res_bind].
  rewrite E3, E4. split; [by apply deserialize_serializeBlockUndoData
    |by apply deserialize_serializeTicketHashes].
Qed.

Section store.
Context `{TicketPool T} {R : Type} (rng_Int : R -> Z * R).
Context (HashH : bytes -> bytes) (fuel : nat) (append_cap : nat -> nat).

#[local] Notation connectNode := (connectNode rng_Int HashH fuel).
#[local] Notation disconnectNode := (disconnectNode rng_Int HashH fuel).
#[local] Notation LoadBestNode := (LoadBestNode rng_Int HashH fuel).

(** The best state written for a node. *)
Definition bestState (node : Node T) (hash : bytes) (kh : Z) (winners : list bytes) : BestChainState :=
  {| bs_Hash := hash; bs_Height := height node; bs_KeyHeight := kh;
     bs_Live := u32 (pool_len (liveTickets node));
     bs_Missed := u64 (pool_len (missedTickets node));
     bs_Revoked := u64 (pool_len (revokedTickets node));
     bs_PerBlock := TicketsPerBlock (params node); bs_NextWinners := winners |}.

(** The winners as an array of [TicketsPerBlock] hashes. *)
Definition winners_array (node : Node T) : list bytes :=
  nextWinners node ++
  replicate (Z.to_nat (TicketsPerBlock (params node)) - length (nextWinners node)) zeroHash.

(** The database [tx] has [node], the node of the block [hash], as its best node. *)
Record synced (tx : Tx) (node : Node T) (hash : bytes) (kh : Z) : Prop := {
  sy_stored : stored tx (nabs node);
  sy_recorded : recorded tx (height node) (databaseUndoUpdate node) (databaseBlockTickets node);
  sy_best : DbFetchBestState tx = Ok (bestState node hash kh (winners_array node));
  sy_info : exists i, DbFetchDatabaseInfo tx = Ok (Some i)
}.

(** ** Writing the node-independent part *)

Lemma put_recorded tx h utds new bu bn :
  buckets tx !! StakeBlockUndoDataBucketName = Some bu ->
  buckets tx !! TicketsInBlockBucketName = Some bn ->
  exists tx1 tx2, DbPutBlockUndoData tx h utds = Ok tx1 /\ DbPutNewTickets tx1 h new = Ok tx2 /\
    recorded tx2 h utds new /\ meta tx2 = meta tx /\
    (forall p, stored tx p -> stored tx2 p) /\
    buckets tx2 !! StakeDbInfoBucketName = buckets tx !! StakeDbInfoBucketName /\
    (forall h' utds' new', put_le 4 h' <> put_le 4 h -> recorded tx h' utds' new' ->
      recorded tx2 h' utds' new').
Proof.
  intros E1 E2. unfold DbPutBlockUndoData, DbPutNewTickets.
  rewrite (bucket_put_run _ _ _ _ _ E1). do 2 eexists. split; [done|].
  split; [apply bucket_put_run; cbn; by other_bucket|]. split_and!; [|done| |by cbn; other_bucket|].
  - exists (<[put_le 4 h := serializeBlockUndoData utds]> bu), (<[put_le 4 h := serializeTicketHashes new]> bn).
    cbn. other_bucket. done.
  - intros p [S1 S2 S3]. constructor; cbn; by other_bucket.
  - intros h' utds' new' Hne (bu' & bn' & F1 & F2 & F3 & F4).
    rewrite E1 in F1. rewrite E2 in F2. injection F1 as <-. injection F2 as <-.
    exists (<[put_le 4 h := serializeBlockUndoData utds]> bu), (<[put_le 4 h := serializeTicketHashes new]> bn).
    cbn. rewrite !(lookup_insert_ne _ (put_le 4 h)) by done. other_bucket. done.
Qed.

Lemma winners_hashes node header isKey :
  node_ok HashH fuel node header isKey -> Forall is_hash (winners_array node).
Proof.
  intros Hok. apply Forall_app. split.
  - eapply Forall_impl; [exact (nok_winners_live _ _ _ _ _ Hok)|]. intros k [v Hv].
    pose proof (nok_wf _ _ _ _ _ Hok k) as Hs. unfold slot_at, nabs, abs in Hs; cbn in Hs.
    rewrite Hv in Hs. by destruct (pool_view (missedTickets node) !! k),
      (pool_view (revokedTickets node) !! k); try done; apply Hs.
  - apply Forall_replicate. unfold is_hash, zeroHash. by rewrite length_replicate.
Qed.

Lemma winners_fit node header isKey :
  params_ok (params node) -> node_ok HashH fuel node header isKey ->
  (length (nextWinners node) <= Z.to_nat (TicketsPerBlock (params node)))%nat.
Proof.
  intros [Hp _ _ _] Hok. pose proof (nok_winners_count _ _ _ _ _ Hok) as Hc.
  destruct (_ >=? _) in Hc; lia.
Qed.

Lemma length_winners_array node header isKey :
  params_ok (params node) -> node_ok HashH fuel node header isKey ->
  length (winners_array node) = Z.to_nat (TicketsPerBlock (params node)).
Proof.
  intros Hp Hok. pose proof (winners_fit _ _ _ Hp Hok). unfold winners_array.
  rewrite length_app, length_replicate. lia.
Qed.

Lemma put_best tx node header isKey hash kh :
  params_ok (params node) -> node_ok HashH fuel node header isKey -> is_hash hash -> is_u32 kh ->
  exists tx',
    (winners ← winnersArray node;
     map_err ErrTicketDb (DbPutBestState append_cap tx (bestState node hash kh winners))) = Ok tx' /\
    DbFetchBestState tx' = Ok (bestState node hash kh (winners_array node)) /\
    buckets tx' = buckets tx.
Proof.
  intros Hp Hok Hhash Hkh. unfold winnersArray.
  rewrite (proj2 (Nat.leb_le _ _) (winners_fit _ _ _ Hp Hok)). cbn [mbind res_bind].
  fold (winners_array node).
  pose proof (length_winners_array _ _ _ Hp Hok) as Hlen. pose proof (pok_tickets _ Hp) as Htp.
  assert (Hb : best_ok (bestState node hash kh (winners_array node))).
  { constructor; cbn; try done; try apply u32_range; try apply u64_range.
    - exact (nok_height _ _ _ _ _ Hok).
    - unfold is_u16. lia.
    - by eapply winners_hashes.
    - rewrite Hlen. lia. }
  unfold DbPutBestState. rewrite serializeBestChainState_padded by done. cbn [mbind res_bind map_err].
  eexists. split; [done|]. split; [|done]. unfold DbFetchBestState; cbn [meta].
  rewrite lookup_insert_eq, deserialize_bestState by done. unfold padded, bestState; cbn.
  by rewrite Hlen, Nat.sub_diag, app_nil_r.
Qed.

Lemma put_le_height_ne h h' : is_u32 h -> is_u32 h' -> h' <> h -> put_le 4 h' <> put_le 4 h.
Proof. intros Hh Hh' Hne E. apply Hne. by apply (put_le_inj 4). Qed.

(** The last four writes of both functions. *)
Lemma write_rest tx node header isKey hash kh :
  params_ok (params node) -> node_ok HashH fuel node header isKey -> is_hash hash -> is_u32 kh ->
  stored tx (nabs node) -> (exists i, DbFetchDatabaseInfo tx = Ok (Some i)) ->
  is_Some (buckets tx !! StakeBlockUndoDataBucketName) ->
  is_Some (buckets tx !! TicketsInBlockBucketName) ->
  exists tx',
    (tx ← map_err ErrTicketDb (DbPutBlockUndoData tx (height node) (databaseUndoUpdate node));
     tx ← map_err ErrTicketDb (DbPutNewTickets tx (height node) (databaseBlockTickets node));
     winners ← winnersArray node;
     map_err ErrTicketDb (DbPutBestState append_cap tx (bestState node hash kh winners))) = Ok tx' /\
    synced tx' node hash kh /\
    (forall h utds new, is_u32 h -> h <> height node -> recorded tx h utds new ->
      recorded tx' h utds new).
Proof.
  intros Hp Hok Hhash Hkh Hst [i Hi] [bu E1] [bn E2].
  destruct (put_recorded tx (height node) (databaseUndoUpdate node) (databaseBlockTickets node)
    bu bn E1 E2) as (tx1 & tx2 & -> & F2 & Hrec & Hmeta & Hst2 & Hinfo & Hold).
  cbn [map_err mbind res_bind]. rewrite F2. cbn [map_err mbind res_bind].
  destruct (put_best tx2 node header isKey hash kh Hp Hok Hhash Hkh) as (tx3 & F3 & Hb & Hbu).
  exists tx3. split; [exact F3|]. split.
  - constructor; [|by unfold recorded in *; rewrite Hbu|done|].
    + specialize (Hst2 _ Hst). destruct Hst2. constructor; by rewrite Hbu.
    + exists i. rewrite <- Hi. unfold DbFetchDatabaseInfo. by rewrite Hbu, Hinfo.
  - intros h utds new Hh Hne Hr. unfold recorded in *. rewrite Hbu. apply Hold; [|done].
    apply put_le_height_ne; [exact (nok_height _ _ _ _ _ Hok)|done..].
Qed.

Lemma synced_buckets tx node hash kh :
  synced tx node hash kh -> is_Some (buckets tx !! StakeBlockUndoDataBucketName) /\
  is_Some (buckets tx !! TicketsInBlockBucketName).
Proof. intros Hs. destruct (sy_recorded _ _ _ _ Hs) as (? & ? & -> & -> & _). eauto. Qed.

Lemma same_rest_facts tx tx' :
  same_rest tx tx' -> DbFetchBestState tx' = DbFetchBestState tx /\
  DbFetchDatabaseInfo tx' = DbFetchDatabaseInfo tx /\
  forall h utds new, recorded tx h utds new -> recorded tx' h utds new.
Proof.
  intros (E1 & E2 & E3 & E4). unfold DbFetchBestState, DbFetchDatabaseInfo, recorded.
  by rewrite E1, E2, E3, E4.
Qed.

(** ** Following the chain *)

Section follow.
Context (p : StakeParams) (node : Node T) (parent : BlockHeader) (parentIsKey : bool).
Context (header : BlockHeader) (spent revoked new : list bytes) (isKey : bool).
Context (rng rng' : R) (node' : Node T).
Hypothesis Hp : params_ok p.
Hypothesis Hparams : params node = p.
Hypothesis Hok : node_ok HashH fuel node parent parentIsKey.
Hypothesis Hrules : block_rules node parent parentIsKey header revoked new.
Hypothesis Hc : connectNode (Some node) header spent revoked new isKey rng = Ok (node', rng').

Lemma child_params : params node' = p.
Proof using Hparams Hc.
  by destruct (connectNode_inv _ _ _ _ _ _ _ _ _ _ _ _ Hc) as (? & ? & ? & _ & _ & ->).
Qed.

Lemma child_height : height node' = height node + 1.
Proof using Hok Hrules Hc.
  destruct (connectNode_inv _ _ _ _ _ _ _ _ _ _ _ _ Hc) as (? & ? & ? & _ & _ & ->). cbn.
  pose proof (br_height _ _ _ _ _ _ Hrules). pose proof (nok_height _ _ _ _ _ Hok) as Hh.
  unfold is_u32 in Hh. by rewrite u32_small by (unfold is_u32; lia).
Qed.

Lemma child_log : log (nabs node) (databaseUndoUpdate node') (nabs node') /\
  NoDup (hashes (databaseUndoUpdate node')).
Proof using Hok Hrules Hc.
  split; [|by eapply connect_wf].
  destruct (connect_log _ _ _ _ _ _ _ _ _ _ _ _ _ _ Hok Hc) as (us1 & us2 & us3 & us4 & -> & _ & Hbl).
  apply Hbl.
Qed.

Lemma write_connected tx hash0 kh0 hash :
  synced tx node hash0 kh0 -> is_hash hash ->
  exists tx', WriteConnectedBestNode append_cap tx node' hash = Ok tx' /\
    synced tx' node' hash (keyHeight node') /\
    (forall h utds new, is_u32 h -> h <> height node' -> recorded tx h utds new ->
      recorded tx' h utds new).
Proof using Hp Hparams Hok Hrules Hc.
  intros Hs Hh. destruct child_log as [Hl _].
  pose proof (connect_node_ok _ _ _ _ _ _ _ _ _ _ _ _ _ _ _ Hp Hparams Hok Hrules Hc) as Hok'.
  destruct (connect_writes_run _ _ _ _ (sy_stored _ _ _ _ Hs) Hl) as (tx1 & E1 & Hst1 & Hr1).
  destruct (synced_buckets _ _ _ _ Hs) as [Hu Hn].
  destruct (same_rest_facts _ _ Hr1) as (_ & Hi1 & Hrec1). destruct Hr1 as (_ & _ & B1 & B2).
  destruct (write_rest tx1 node' header isKey hash (keyHeight node')) as (tx2 & E2 & Hs2 & Hrec2);
    [by rewrite child_params|done|done|exact (nok_keyHeight _ _ _ _ _ Hok')|done| | | |].
  - rewrite Hi1. apply Hs.
  - by rewrite B1.
  - by rewrite B2.
  - exists tx2. unfold WriteConnectedBestNode. rewrite E1. split; [exact E2|]. split; [done|].
    intros h utds nw H1 H2 H3. apply Hrec2; auto.
Qed.

End follow.

(** ** Loading the best node *)

Lemma stored_ok (tx : Tx) (name : string) (m : gmap (list Z) Value) (rng : R) :
  buckets tx !! name = Some (storeTicket <$> m) ->
  map_Forall (fun k v => is_hash k /\ value_ok v) m ->
  exists t rng', DbLoadAllTickets (T := T) rng_Int tx name rng = Ok (t, rng') /\
    pool_ok t /\ pool_view t = m.
Proof.
  intros E Hm. pose proof (load_all_tickets (T := T) rng_Int tx name _ rng E) as HL.
  rewrite bucket_tickets_stored in HL by done.
  destruct (DbLoadAllTickets _ _ _ _) as [[t rng']|e|]; [|naive_solver..].
  destruct HL as [Ht Hv]. simplify_eq. eauto.
Qed.

Lemma pools_storable q :
  pools_wf q ->
  map_Forall (fun k v => is_hash k /\ value_ok v) (p_live q) /\
  map_Forall (fun k v => is_hash k /\ value_ok v) (p_missed q) /\
  map_Forall (fun k v => is_hash k /\ value_ok v) (p_revoked q).
Proof.
  intros Hwf. split_and!; intros k v Hk; pose proof (Hwf k) as Hs; unfold slot_at in Hs;
    rewrite Hk in Hs; cbn in Hs; destruct (p_live q !! k), (p_missed q !! k), (p_revoked q !! k);
    try done; simplify_eq; split; apply Hs.
Qed.

(** The key flag that the loader recomputes. *)
Definition meets_target (hash : bytes) (header : BlockHeader) : bool :=
  HashToBig hash <=? CompactToBig (h_Bits header).

Lemma load_lottery node header hash live :
  let isKey := meets_target hash header in
  params_ok (params node) -> node_ok HashH fuel node header isKey ->
  pool_ok live -> pool_view live = pool_view (liveTickets node) ->
  loadLottery HashH fuel hash header (params node) live (winners_array node) =
    Ok (nextWinners node, finalState node).
Proof.
  intros isKey Hp Hok Hl Hv. unfold loadLottery.
  change (if HashToBig hash <=? CompactToBig (h_Bits header) then u32 (h_KeyHeight header + 1)
    else h_KeyHeight header) with (realKeyHeight header isKey).
  pose proof (nok_state _ _ _ _ _ Hok) as Hs. pose proof (nok_winners_count _ _ _ _ _ Hok) as Hn.
  unfold lotteryState in Hs. rewrite u32_validation by done.
  rewrite (pool_len_view live (liveTickets node)) by (done || apply Hok).
  destruct (realKeyHeight header isKey >=? StakeValidationHeight (params node) - 1).
  - assert (Hw : winners_array node = nextWinners node).
    { unfold winners_array. replace (Z.to_nat _ - _)%nat with 0%nat by lia. apply app_nil_r. }
    rewrite Hw. apply bind_Ok in Hs as (hB & -> & Hs). cbn [mbind res_bind].
    apply bind_Ok in Hs as ([l prng] & -> & Hs). cbn [mbind res_bind]. by injection Hs as ->.
  - injection Hs as <-. by destruct (nextWinners node).
Qed.

Lemma load_best tx node header hash kh rng :
  let isKey := meets_target hash header in
  params_ok (params node) -> node_ok HashH fuel node header isKey -> synced tx node hash kh ->
  Z.of_nat (size (pool_view (liveTickets node))) < 2 ^ 32 ->
  Z.of_nat (size (pool_view (missedTickets node))) < 2 ^ 63 ->
  Z.of_nat (size (pool_view (revokedTickets node))) < 2 ^ 63 ->
  exists node' rng',
    LoadBestNode tx (height node) (keyHeight node) hash header (params node) rng = Ok (node', rng') /\
    node' ≡ node /\ node_pools_ok node'.
Proof.
  intros isKey Hp Hok [Hst Hrec Hbest [i Hi]] Z1 Z2 Z3.
  destruct (pools_storable _ (nok_wf _ _ _ _ _ Hok)) as (P1 & P2 & P3). destruct Hst as [S1 S2 S3].
  destruct (recorded_fetch _ _ _ _ Hrec (nok_undo _ _ _ _ _ Hok) (nok_tickets _ _ _ _ _ Hok)) as [R1 R2].
  destruct (stored_ok tx _ _ rng S1 P1) as (live & rng1 & L1 & O1 & V1).
  destruct (stored_ok tx _ _ rng1 S2 P2) as (missed & rng2 & L2 & O2 & V2).
  destruct (stored_ok tx _ _ rng2 S3 P3) as (revoked & rng3 & L3 & O3 & V3).
  cbn in V1, V2, V3. destruct (nok_pools _ _ _ _ _ Hok) as (N1 & N2 & N3).
  assert (A1 : (pool_len live =? bs_Live (bestState node hash kh (winners_array node))) = true).
  { cbn. rewrite (pool_len_small live), (pool_len_small (liveTickets node)), V1, u32_small
      by (done || rewrite ?V1; unfold is_u32; lia). apply Z.eqb_refl. }
  assert (A2 : (pool_len missed =? i64 (bs_Missed (bestState node hash kh (winners_array node)))) = true).
  { cbn. rewrite (pool_len_small missed), (pool_len_small (missedTickets node)), V2, u64_small, i64_small
      by (done || rewrite ?V2; unfold is_u64, is_i64; lia). apply Z.eqb_refl. }
  assert (A3 : (pool_len revoked =? i64 (bs_Revoked (bestState node hash kh (winners_array node)))) = true).
  { cbn. rewrite (pool_len_small revoked), (pool_len_small (revokedTickets node)), V3, u64_small, i64_small
      by (done || rewrite ?V3; unfold is_u64, is_i64; lia). apply Z.eqb_refl. }
  assert (A4 : loadLottery HashH fuel hash header (params node) live (winners_array node) =
    Ok (nextWinners node, finalState node)).
  { exact (load_lottery node header hash live Hp Hok O1 V1). }
  assert (Rdb : forall A (m : stM R dbError A) s a s1, m s = Ok (a, s1) -> liftDb m s = Ok (a, s1))
    by (intros A m s a s1 E; unfold liftDb; by rewrite E).
  unfold StakeNode.LoadBestNode.
  rewrite (stM_bind_run _ _ _ _ _ (lift_run _ _ _ (proj2 (map_err_Ok ErrTicketDb _ _) Hi))).
  rewrite (stM_bind_run _ _ _ _ _ (lift_run _ _ _ (proj2 (map_err_Ok ErrTicketDb _ _) Hbest))).
  rewrite bool_decide_true, Z.eqb_refl by done.
  rewrite (stM_bind_run _ _ _ _ _ (lift_run _ _ _ (eq_refl : guard_err (negb true || negb true) _ = Ok tt))).
  rewrite (stM_bind_run _ _ _ _ _ (Rdb _ _ _ _ _ L1)), A1.
  rewrite (stM_bind_run _ _ _ _ _ (lift_run _ _ _ (eq_refl : guard_err (negb true) _ = Ok tt))).
  rewrite (stM_bind_run _ _ _ _ _ (Rdb _ _ _ _ _ L2)), A2.
  rewrite (stM_bind_run _ _ _ _ _ (lift_run _ _ _ (eq_refl : guard_err (negb true) _ = Ok tt))).
  rewrite (stM_bind_run _ _ _ _ _ (Rdb _ _ _ _ _ L3)), A3.
  rewrite (stM_bind_run _ _ _ _ _ (lift_run _ _ _ (eq_refl : guard_err (negb true) _ = Ok tt))).
  rewrite (stM_bind_run _ _ _ _ _ (lift_run _ _ _ (proj2 (map_err_Ok ErrTicketDb _ _) R1))).
  rewrite (stM_bind_run _ _ _ _ _ (lift_run _ _ _ (proj2 (map_err_Ok ErrTicketDb _ _) R2))).
  rewrite (stM_bind_run _ _ _ _ _ (lift_run _ _ _ A4)).
  do 2 eexists. split; [done|]. split; [|done].
  unfold equiv, node_equiv, nabs, abs. cbn. by rewrite V1, V2, V3.
Qed.

(** ** A new database *)

(** What [DbCreate] leaves: the information bucket and five empty buckets. *)
Definition created (m : gmap string (list Z)) (now : Z) : Tx :=
  MkTx m
    (<[TicketsInBlockBucketName := ∅]> (<[StakeBlockUndoDataBucketName := ∅]>
     (<[RevokedTicketsBucketName := ∅]> (<[MissedTicketsBucketName := ∅]>
     (<[LiveTicketsBucketName := ∅]>
     {[ StakeDbInfoBucketName :=
        {[ name_bytes StakeDbInfoBucketName :=
           serializeDatabaseInfo (MkDbInfo currentDatabaseVersion now false) ]} ]}))))).

Lemma DbCreate_run m now : DbCreate now (MkTx m ∅) = Ok (created m now).
Proof.
  unfold DbCreate, CreateBucket, DbPutDatabaseInfo, bucket_put, Bucket, created.
  repeat (cbn [meta buckets mbind res_bind or_panic];
    rewrite ?lookup_insert_eq, ?lookup_empty, ?insert_insert_eq, ?insert_empty;
    try (rewrite lookup_singleton_ne by done);
    repeat rewrite lookup_insert_ne by done; rewrite ?lookup_singleton_ne by done).
  done.
Qed.

Lemma init_synced m now p header isKey :
  params_ok p -> is_hash (GenesisHash p) ->
  realKeyHeight header isKey < StakeValidationHeight p - 1 ->
  exists tx', InitDatabaseState append_cap now (MkTx m ∅) p = Ok (genesisNode (T := T) p, tx') /\
    synced tx' (genesisNode p) (GenesisHash p) 0.
Proof.
  intros Hp Hg Hr. pose proof (genesis_ok HashH fuel p header isKey Hp Hr) as Hok.
  unfold InitDatabaseState. rewrite DbCreate_run. cbn [map_err mbind res_bind].
  destruct (write_rest (created m now) (genesisNode p) header isKey (GenesisHash p) 0)
    as (tx' & E & Hs & _); [done|done|done|unfold is_u32; lia| | | | |].
  - assert (Hv : pool_view (pool_new (T := T)) = ∅).
    { destruct (pool_new_ok (T := T)) as [_ He]. unfold pool_view. by rewrite He. }
    constructor; unfold created; cbn; rewrite Hv, fmap_empty; by other_bucket.
  - eexists. unfold DbFetchDatabaseInfo, created; cbn [buckets]. other_bucket.
    rewrite !lookup_singleton_eq. reflexivity.
  - unfold created; cbn [buckets]. other_bucket. eauto.
  - unfold created; cbn [buckets]. other_bucket. eauto.
  - exists tx'. split; [|done].
    apply bind_Ok in E as (tx1 & E1 & E). apply bind_Ok in E as (tx2 & E2 & E).
    rewrite E1. cbn [mbind res_bind]. rewrite E2. cbn [mbind res_bind].
    unfold winnersArray in E. cbn [nextWinners genesisNode length Nat.leb app mbind res_bind params] in E.
    rewrite Nat.sub_0_r in E. unfold bestState in E.
    match type of E with ?a = _ => match goal with |- mbind _ ?b = _ => change b with a end end.
    by rewrite E.
Qed.

(** ** Taking a block back *)

Lemma drop_run tx h :
  is_Some (buckets tx !! StakeBlockUndoDataBucketName) ->
  is_Some (buckets tx !! TicketsInBlockBucketName) ->
  exists tx', drop_loop 1 h tx = Ok tx' /\ meta tx' = meta tx /\
    buckets tx' !! StakeDbInfoBucketName = buckets tx !! StakeDbInfoBucketName /\
    is_Some (buckets tx' !! StakeBlockUndoDataBucketName) /\
    is_Some (buckets tx' !! TicketsInBlockBucketName) /\
    (forall p, stored tx p -> stored tx' p) /\
    (forall h' utds new, put_le 4 h' <> put_le 4 h -> recorded tx h' utds new ->
      recorded tx' h' utds new).
Proof.
  intros [bu E1] [bn E2]. unfold drop_loop, DbDropBlockUndoData, DbDropNewTickets, bucket_delete, Bucket.
  rewrite E1. cbn [or_panic mbind res_bind map_err buckets meta].
  rewrite lookup_insert_ne, E2 by done. cbn [or_panic mbind res_bind map_err buckets meta].
  eexists. split; [done|]. cbn. other_bucket. split_and!; [done|done|eauto|eauto| |].
  - intros p [S1 S2 S3]. constructor; cbn; by other_bucket.
  - intros h' utds new Hne (bu' & bn' & F1 & F2 & F3 & F4).
    rewrite E1 in F1. rewrite E2 in F2. injection F1 as <-. injection F2 as <-.
    exists (delete (put_le 4 h) bu), (delete (put_le 4 h) bn). cbn. other_bucket.
    by rewrite !lookup_delete_ne.
Qed.

Lemma synced_equiv tx (a b : Node T) hash kh :
  synced tx a hash kh -> b ≡ a -> node_pools_ok a -> node_pools_ok b -> synced tx b hash kh.
Proof.
  intros [H1 H2 H3 H4] (E1 & E2 & E3 & E4 & E5 & E6 & E7 & E8) (A1 & A2 & A3) (B1 & B2 & B3).
  pose proof E3 as V. injection V as V1 V2 V3.
  constructor; rewrite ?E1, ?E3, ?E4, ?E5; [done..| |done].
  rewrite H3. unfold bestState, winners_array. rewrite E1, E6, E8.
  by rewrite (pool_len_view (liveTickets b) (liveTickets a)),
    (pool_len_view (missedTickets b) (missedTickets a)),
    (pool_len_view (revokedTickets b) (revokedTickets a)).
Qed.

(** The block whose undo data [us] leads from the pools of [node] to the stored ones is
    taken back, and the database has the parent as its best node again. *)
Lemma write_disconnected tx node header isKey hash0 q us new best :
  params_ok (params node) -> node_ok HashH fuel node header isKey -> is_hash hash0 ->
  stored tx q -> log (nabs node) us q -> NoDup (hashes us) ->
  recorded tx (height node + 1) us new ->
  DbFetchBestState tx = Ok best -> bs_Height best = height node + 1 -> height node + 1 < 2 ^ 32 ->
  (exists i, DbFetchDatabaseInfo tx = Ok (Some i)) ->
  exists tx', WriteDisconnectedBestNode append_cap tx node hash0 us = Ok tx' /\
    synced tx' node hash0 0 /\
    (forall h utds nw, is_u32 h -> h < height node -> recorded tx h utds nw ->
      recorded tx' h utds nw).
Proof.
  intros Hp Hok Hh Hst Hl Hnd Hrec Hbest Eh Hlt Hi.
  pose proof (nok_height _ _ _ _ _ Hok) as Hu. unfold is_u32 in Hu.
  destruct Hrec as (bu & bn & Bu & Bn & _).
  destruct (drop_run tx (height node + 1)) as (tx1 & E1 & M1 & I1 & U1 & N1 & S1 & R1); [eauto..|].
  destruct (disconnect_writes_run us tx1 (nabs node) q (S1 _ Hst) Hl Hnd) as (tx2 & E2 & S2 & Hr2).
  destruct (same_rest_facts _ _ Hr2) as (_ & Hi2 & Hrec2). destruct Hr2 as (_ & _ & B1 & B2).
  destruct (write_rest tx2 node header isKey hash0 0) as (tx3 & E3 & Hs3 & Hrec3);
    [done|done|done|unfold is_u32; lia|done| |by rewrite B1|by rewrite B2|].
  { destruct Hi as [i Hi]. exists i. rewrite Hi2, <- Hi. unfold DbFetchDatabaseInfo. by rewrite I1. }
  exists tx3. unfold WriteDisconnectedBestNode. rewrite Hbest. cbn [map_err mbind res_bind].
  rewrite Eh. destruct (Z.gtb_spec (height node + 1) (height node)); [|lia].
  replace (Z.to_nat (height node + 1 - height node)) with 1%nat by lia.
  rewrite E1. cbn [mbind res_bind]. rewrite E2. split; [exact E3|]. split; [done|].
  intros h utds nw H1 H2 H3. apply Hrec3; [done|lia|]. apply Hrec2, R1; [|done].
  apply put_le_height_ne; [unfold is_u32; lia|done|lia].
Qed.
End store.
