(* ===== verification/StakeReorg.v ===== *)
(** The stake node and its database along a chain that grows, is reorganised and is
    loaded again.

    [link] is a block of the main chain with its stake node; [step] are the ways in
    which the block chain package drives the stake package: connecting a block and
    writing the new best node, disconnecting the last block with the data of the
    database and writing its parent, and loading the best node at a restart
    (blockchain/stake/tickets.go: [ConnectNode], [WriteConnectedBestNode],
    [DisconnectNode], [WriteDisconnectedBestNode], [LoadBestNode]).  The theorems show
    that the database and the node stay in step along every such history. *)
From S2P Require Import Prelude TreapCore TicketTreap WireCommon TicketDb Compact.
From S2P Require Import StakeNode StakeLog StakeProofs StakeChain StakeStore.
From stdpp Require Import list gmap.
#[local] Open Scope Z_scope.

Section reorg.
Context `{TicketPool T} {R : Type} (rng_Int : R -> Z * R).
Context (HashH : bytes -> bytes) (fuel : nat) (append_cap : nat -> nat).
Context (p : StakeParams).

#[local] Notation connectNode := (connectNode rng_Int HashH fuel).
#[local] Notation disconnectNode := (disconnectNode rng_Int HashH fuel).
#[local] Notation LoadBestNode := (LoadBestNode rng_Int HashH fuel).
#[local] Notation reachable := (reachable rng_Int HashH fuel).
#[local] Notation node_ok := (node_ok HashH fuel).

(** A block of the main chain: its stake node, header and hash. *)
Record link := MkLink { l_node : Node T; l_header : BlockHeader; l_hash : bytes }.

(** Whether it is a key block ([newBlockNode] and [LoadBestNode] compute it so). *)
Definition l_key (l : link) : bool := meets_target (l_hash l) (l_header l).

(** The pools are small enough for the counters of the best state. *)
Definition pools_fit (node : Node T) : Prop :=
  Z.of_nat (size (pool_view (liveTickets node))) < 2 ^ 32 /\
  Z.of_nat (size (pool_view (missedTickets node))) < 2 ^ 63 /\
  Z.of_nat (size (pool_view (revokedTickets node))) < 2 ^ 63.

Definition state : Type := list link * Tx.

Inductive step : state -> state -> Prop :=
| step_connect l ls tx header spent revoked new hash rng node' rng' tx' :
    block_rules (l_node l) (l_header l) (l_key l) header revoked new -> is_hash hash ->
    connectNode (Some (l_node l)) header spent revoked new (meets_target hash header) rng =
      Ok (node', rng') ->
    WriteConnectedBestNode append_cap tx node' hash = Ok tx' ->
    step (l :: ls, tx) (MkLink node' header hash :: l :: ls, tx')
| step_disconnect c l ls tx rng node'' rng'' tx' :
    disconnectNode (Some (l_node c)) (l_header l) None None (l_key c) (Some tx) rng =
      Ok (node'', rng'') ->
    WriteDisconnectedBestNode append_cap tx node'' (l_hash l) (databaseUndoUpdate (l_node c)) =
      Ok tx' ->
    step (c :: l :: ls, tx) (MkLink node'' (l_header l) (l_hash l) :: ls, tx')
| step_load l ls tx rng node'' rng'' :
    pools_fit (l_node l) ->
    LoadBestNode tx (height (l_node l)) (keyHeight (l_node l)) (l_hash l) (l_header l) p rng =
      Ok (node'', rng'') ->
    step (l :: ls, tx) (MkLink node'' (l_header l) (l_hash l) :: ls, tx).

(** The histories that start with a new database. *)
Inductive history : state -> Prop :=
| history_init m now node tx header :
    realKeyHeight header (meets_target (GenesisHash p) header) < StakeValidationHeight p - 1 ->
    InitDatabaseState append_cap now (MkTx m ∅) p = Ok (node, tx) ->
    history ([MkLink node header (GenesisHash p)], tx)
| history_step s s' : history s -> step s s' -> history s'.

(** ** The chain that a history builds *)

Inductive linked : list link -> Prop :=
| linked_genesis n header :
    realKeyHeight header (meets_target (GenesisHash p) header) < StakeValidationHeight p - 1 ->
    n ≡ genesisNode p -> node_pools_ok n ->
    linked [MkLink n header (GenesisHash p)]
| linked_block l ls header spent revoked new hash rng node' rng' n :
    linked (l :: ls) ->
    block_rules (l_node l) (l_header l) (l_key l) header revoked new -> is_hash hash ->
    connectNode (Some (l_node l)) header spent revoked new (meets_target hash header) rng =
      Ok (node', rng') ->
    n ≡ node' -> node_pools_ok n ->
    linked (MkLink n header hash :: l :: ls).

Lemma linked_replace l ls n :
  linked (l :: ls) -> n ≡ l_node l -> node_pools_ok n ->
  linked (MkLink n (l_header l) (l_hash l) :: ls).
Proof.
  intros Hl Hn Hp. inversion Hl; subst; [apply linked_genesis; [done| |done]
    |eapply linked_block; [done..| |done]]; by etransitivity.
Qed.

Lemma linked_tail c l ls : linked (c :: l :: ls) -> linked (l :: ls).
Proof. by inversion 1. Qed.

Section good.
Hypothesis Hp : params_ok p.
Hypothesis Hg : is_hash (GenesisHash p).

Lemma linked_reachable l ls : linked (l :: ls) -> reachable p (l_node l) (l_header l) (l_key l).
Proof.
  revert l. induction ls as [|l' ls IH]; intros l Hl.
  - inversion Hl; subst. eapply reach_equiv; [by apply reach_genesis|done|done].
  - inversion Hl; subst. eapply reach_equiv; [|done|done].
    eapply reach_connect; [by apply IH|done|done].
Qed.

Lemma linked_ok l ls : linked (l :: ls) ->
  params (l_node l) = p /\ node_ok (l_node l) (l_header l) (l_key l).
Proof using Hp. intros Hl%linked_reachable. by apply (reachable_node_ok rng_Int). Qed.

Lemma linked_hash l ls : linked (l :: ls) -> is_hash (l_hash l).
Proof using Hg. by inversion 1. Qed.

Lemma linked_height l ls : linked (l :: ls) ->
  height (l_node l) = Z.of_nat (length ls) /\
  Forall (fun l' => 0 <= height (l_node l') < height (l_node l)) ls.
Proof using Hp.
  revert l. induction ls as [|l' ls IH]; intros l Hl.
  - split; [|constructor]. inversion Hl as [? ? _ [E _]|]; subst. exact E.
  - inversion Hl as [|? ? ? ? ? ? ? ? node' ? ? Hl' Hrules ? Hc [E _]]; subst; cbn.
    destruct (IH _ Hl') as [E' Hb]. destruct (linked_ok _ _ Hl') as [_ Hok].
    rewrite E, (child_height _ _ _ _ _ _ _ _ _ _ _ _ _ _ Hok Hrules Hc), E'.
    split; [cbn; lia|]. constructor; [lia|]. eapply Forall_impl; [exact Hb|]. cbn. lia.
Qed.

(** ** The database follows the chain *)

Definition link_recorded (tx : Tx) (l : link) : Prop :=
  recorded tx (height (l_node l)) (databaseUndoUpdate (l_node l)) (databaseBlockTickets (l_node l)).

(** The database has the last block as its best node, and the undo data and the new
    tickets of every block of the chain. *)
Definition in_step (s : state) : Prop :=
  match s with
  | (l :: ls, tx) =>
      linked (l :: ls) /\ (exists kh, synced tx (l_node l) (l_hash l) kh) /\
      Forall (link_recorded tx) (l :: ls)
  | _ => False
  end.

Lemma keep_recorded l ls tx tx' :
  linked (l :: ls) -> Forall (link_recorded tx) ls ->
  (forall h utds nw, is_u32 h -> h < height (l_node l) -> recorded tx h utds nw ->
    recorded tx' h utds nw) ->
  Forall (link_recorded tx') ls.
Proof using Hp.
  intros Hl Hr Hk. destruct (linked_height _ _ Hl) as [_ Hb]. destruct (linked_ok _ _ Hl) as [_ Hok].
  pose proof (nok_height _ _ _ _ _ Hok) as Hu. unfold is_u32 in Hu.
  rewrite Forall_forall in *. intros l' Hin. specialize (Hb _ Hin). apply Hk; [|lia|by apply Hr].
  unfold is_u32. lia.
Qed.

Lemma load_in_step l ls tx rng :
  in_step (l :: ls, tx) -> pools_fit (l_node l) ->
  exists node'' rng'',
    LoadBestNode tx (height (l_node l)) (keyHeight (l_node l)) (l_hash l) (l_header l) p rng =
      Ok (node'', rng'') /\ node'' ≡ l_node l /\ node_pools_ok node''.
Proof using Hp append_cap.
  intros (Hl & [kh Hs] & _) (F1 & F2 & F3). destruct (linked_ok _ _ Hl) as [E Hok].
  pose proof (load_best rng_Int HashH fuel append_cap tx (l_node l) (l_header l) (l_hash l) kh rng) as HL.
  cbn zeta in HL. rewrite E in HL. by apply HL.
Qed.

Lemma connect_in_step l ls tx header spent revoked new hash rng node' rng' :
  in_step (l :: ls, tx) ->
  block_rules (l_node l) (l_header l) (l_key l) header revoked new -> is_hash hash ->
  connectNode (Some (l_node l)) header spent revoked new (meets_target hash header) rng =
    Ok (node', rng') ->
  exists tx', WriteConnectedBestNode append_cap tx node' hash = Ok tx' /\
    synced tx' node' hash (keyHeight node') /\
    in_step (MkLink node' header hash :: l :: ls, tx').
Proof using Hp.
  intros (Hl & [kh Hs] & Hr) Hrules Hh Hc. destruct (linked_ok _ _ Hl) as [E Hok].
  destruct (write_connected rng_Int HashH fuel append_cap p _ _ _ _ _ _ _ _ _ _ _ Hp E Hok Hrules Hc
    tx _ _ hash Hs Hh) as (tx' & E' & Hs' & Hk).
  assert (Hl' : linked (MkLink node' header hash :: l :: ls)).
  { eapply linked_block; [done|done|done|exact Hc|done|].
    by destruct (connect_log _ _ _ _ _ _ _ _ _ _ _ _ _ _ Hok Hc) as (? & ? & ? & ? & _ & ? & _). }
  exists tx'. split; [done|]. split; [done|]. split; [done|]. split; [by eexists|].
  constructor; [apply Hs'|]. eapply keep_recorded; [exact Hl'|exact Hr|].
  intros h utds nw Hu Hlt. apply Hk; [done|]. cbn in Hlt. lia.
Qed.

Lemma disconnect_in_step c l ls tx rng :
  in_step (c :: l :: ls, tx) ->
  exists node'' rng'' tx',
    disconnectNode (Some (l_node c)) (l_header l) None None (l_key c) (Some tx) rng =
      Ok (node'', rng'') /\ node'' ≡ l_node l /\
    WriteDisconnectedBestNode append_cap tx node'' (l_hash l) (databaseUndoUpdate (l_node c)) =
      Ok tx' /\
    synced tx' node'' (l_hash l) 0 /\
    in_step (MkLink node'' (l_header l) (l_hash l) :: ls, tx').
Proof using Hp Hg.
  intros (Hl & [kh Hs] & Hr). pose proof (linked_tail _ _ _ Hl) as Hl'.
  destruct (linked_ok _ _ Hl') as [E Hok]. destruct (linked_ok _ _ Hl) as [Ec Hokc].
  apply Forall_cons in Hr as [Hrc Hr]. pose proof Hr as [Hrl Hrr]%Forall_cons.
  inversion Hl as [|? ? header spent revoked new hash rng0 node' rng' n _ Hrules Hh Hc Hn Hnp]; subst.
  pose proof (child_height _ _ _ _ _ _ _ _ _ _ _ _ _ _ Hok Hrules Hc) as Hht.
  destruct (child_log _ _ _ _ _ _ _ _ _ _ _ _ _ _ Hok Hrules Hc) as [Hlog Hnd].
  pose proof (br_height _ _ _ _ _ _ Hrules) as Hb. pose proof (nok_height _ _ _ _ _ Hok) as Hu.
  unfold is_u32 in Hu.
  pose proof Hn as (N1 & _ & N3 & N4 & _). cbn [l_node l_header l_hash] in *.
  destruct (recorded_fetch _ _ _ _ Hrl (nok_undo _ _ _ _ _ Hok) (nok_tickets _ _ _ _ _ Hok)) as [F1 F2].
  destruct (disconnect_restores rng_Int HashH fuel p (l_node l) _ _ _ _ _ _ _ _ _ _
    n None None (Some tx) rng Hp (linked_reachable _ _ Hl') Hrules Hc Hn Hnp)
    as (node'' & rng'' & E1 & E2 & E3).
  { cbn. rewrite N1, Hht, u32_small by (unfold is_u32; lia). replace (_ + 1 - 1) with (height (l_node l)) by lia.
    by rewrite F1, F2. }
  pose proof (node_ok_equiv _ _ _ _ _ _ Hok E2 E3) as Hok''.
  pose proof E2 as (M1 & _ & M3 & _ & _ & _ & _ & M8).
  destruct (write_disconnected HashH fuel append_cap tx node'' (l_header l) (l_key l) (l_hash l)
    (nabs n) (databaseUndoUpdate n) (databaseBlockTickets n)
    (bestState n hash kh (winners_array n))) as (tx' & W1 & W2 & W3);
    [by rewrite M8, E|done|by eapply linked_hash|apply Hs|by rewrite M3, N3, N4|by rewrite N4
    | |apply Hs|cbn; lia|lia|apply Hs|].
  { rewrite M1, <- Hht, <- N1. exact Hrc. }
  assert (Hl'' : linked (MkLink node'' (l_header l) (l_hash l) :: ls)) by (by apply linked_replace).
  exists node'', rng'', tx'. do 4 (split; [done|]). split; [done|]. split; [by eexists|].
  constructor; [apply W2|]. eapply keep_recorded; [exact Hl''|exact Hrr|exact W3].
Qed.

Lemma step_in_step s s' : in_step s -> step s s' -> in_step s'.
Proof using Hp Hg.
  intros Hs Hstep. destruct Hstep as [l ls tx header spent revoked new hash rng node' rng' tx' Hr Hh Hc Hw
    |c l ls tx rng node'' rng'' tx' Hd Hw|l ls tx rng node'' rng'' Hf HL].
  - destruct (connect_in_step _ _ _ _ _ _ _ _ _ _ _ Hs Hr Hh Hc) as (? & E & _ & ?).
    rewrite Hw in E. by injection E as <-.
  - destruct (disconnect_in_step _ _ _ _ rng Hs) as (? & ? & ? & E1 & _ & E2 & _ & ?).
    rewrite Hd in E1. injection E1 as <- <-. rewrite Hw in E2. by injection E2 as <-.
  - destruct (load_in_step _ _ _ rng Hs Hf) as (? & ? & E & He & Hpo). rewrite HL in E. injection E as <- <-.
    destruct Hs as (Hl & [kh Hs] & Hr). apply Forall_cons in Hr as [Hr Hrs].
    destruct (linked_ok _ _ Hl) as [_ Hok]. pose proof He as (E1 & _ & _ & E4 & E5 & _).
    split; [by apply linked_replace|]. split.
    + exists kh. eapply synced_equiv; [exact Hs|done|apply Hok|done].
    + constructor; [|done]. unfold link_recorded; cbn. by rewrite E1, E4, E5.
Qed.

Lemma history_in_step s : history s -> in_step s.
Proof using Hp Hg.
  induction 1 as [m now node tx header Hr Hi|s s' _ IH Hs]; [|by eapply step_in_step].
  destruct (init_synced HashH fuel append_cap m now p header _ Hp Hg Hr) as (tx' & E & Hs).
  rewrite Hi in E. injection E as -> <-. split; [|split; [by exists 0|]].
  - apply linked_genesis; [done|done|]. by destruct (pool_new_ok (T := T)).
  - constructor; [apply Hs|constructor].
Qed.

End good.

(** C16: at every point of a history, [LoadBestNode] gives back the stake node of the
    last block: the same heights, ticket pools, undo data, new tickets, winners and
    final state, although the treaps are built anew in the order of the keys of the
    buckets. *)
Theorem restart_restores l ls tx rng :
  params_ok p -> is_hash (GenesisHash p) -> history (l :: ls, tx) -> pools_fit (l_node l) ->
  exists node rng',
    LoadBestNode tx (height (l_node l)) (keyHeight (l_node l)) (l_hash l) (l_header l) p rng =
      Ok (node, rng') /\ node ≡ l_node l.
Proof.
  intros Hp Hg Hh%history_in_step Hf; [|done..].
  destruct (load_in_step Hp _ _ _ rng Hh Hf) as (n & r & H1 & H2 & _). eauto.
Qed.

(** C13: at every point of a history, the last block can be disconnected with nothing
    but the database: [disconnectNode] finds the undo data of the parent there and gives
    back the parent's node, and [WriteDisconnectedBestNode] makes the database describe
    the parent again, with the key height of its best state left at 0. *)
Theorem reorganize_restores c l ls tx rng :
  params_ok p -> is_hash (GenesisHash p) -> history (c :: l :: ls, tx) ->
  exists node rng' tx',
    disconnectNode (Some (l_node c)) (l_header l) None None (l_key c) (Some tx) rng =
      Ok (node, rng') /\
    node ≡ l_node l /\
    WriteDisconnectedBestNode append_cap tx node (l_hash l) (databaseUndoUpdate (l_node c)) =
      Ok tx' /\
    synced tx' node (l_hash l) 0.
Proof.
  intros Hp Hg Hh%history_in_step; [|done..].
  destruct (disconnect_in_step Hp Hg _ _ _ _ rng Hh) as (n & r & t & H1 & H2 & H3 & H4 & _). eauto 10.
Qed.

(** C18: at every point of a history, the node of a block that follows the rules can be
    written: [WriteConnectedBestNode] succeeds, and afterwards the buckets hold exactly
    the tickets of the new node, the best state describes it, and the undo data and the
    new tickets of every block of the chain are still there. *)
Theorem connect_writes l ls tx header spent revoked new hash rng node' rng' :
  params_ok p -> is_hash (GenesisHash p) -> history (l :: ls, tx) ->
  block_rules (l_node l) (l_header l) (l_key l) header revoked new -> is_hash hash ->
  connectNode (Some (l_node l)) header spent revoked new (meets_target hash header) rng =
    Ok (node', rng') ->
  exists tx', WriteConnectedBestNode append_cap tx node' hash = Ok tx' /\
    synced tx' node' hash (keyHeight node') /\ Forall (link_recorded tx') (l :: ls).
Proof.
  intros Hp Hg Hh%history_in_step Hr Hi Hc; [|done..].
  destruct (connect_in_step Hp _ _ _ _ _ _ _ _ _ _ _ Hh Hr Hi Hc) as (tx' & E & Hs & _ & _ & Hf).
  apply Forall_cons in Hf as [_ Hf]. eauto.
Qed.

(** C25: every history can be unwound: by disconnecting block after block, the chain
    comes back to the genesis node and the database to describing it. *)
Theorem unwind_to_genesis s (rng : R) :
  params_ok p -> is_hash (GenesisHash p) -> history s ->
  exists node header tx, rtc step s ([MkLink node header (GenesisHash p)], tx) /\
    node ≡ genesisNode p /\ exists kh, synced tx node (GenesisHash p) kh.
Proof.
  intros Hp Hg Hh%history_in_step; [|done..]. destruct s as [[|l ls] tx]; [done|].
  revert l tx Hh. induction ls as [|l' ls IH]; intros l tx Hh.
  - destruct Hh as (Hl & [kh Hs] & _). inversion Hl; subst. do 3 eexists. split; [done|]. eauto.
  - destruct (disconnect_in_step Hp Hg _ _ _ _ rng Hh) as (n & r & t & H1 & _ & H3 & _ & H5).
    destruct (IH _ _ H5) as (n' & h & tx' & Hr & Hrest). exists n', h, tx'. split; [|done].
    eapply rtc_l; [|exact Hr]. by econstructor.
Qed.
End reorg.

(** ** A sample history

    The chain of [Sample] up to block 3, written to a database: tickets are bought, a
    winner is drawn and misses its vote. *)
Module SampleStore.
Import Sample.

Definition hash (n : Z) : bytes := put_le 32 n.

Definition orEmpty {E} (r : res E Tx) : Tx := match r with Ok tx => tx | _ => MkTx ∅ ∅ end.

Definition tx0 : Tx :=
  orEmpty (snd <$> InitDatabaseState (T := Immutable.t) (fun n => n) 1500000000 (MkTx ∅ ∅) p).
Definition write (tx : Tx) (node : Node Immutable.t) (n : Z) : Tx :=
  orEmpty (WriteConnectedBestNode (fun n => n) tx node (hash n)).
Definition tx1 := write tx0 node1 1.
Definition tx2 := write tx1 node2 2.
Definition tx3 := write tx2 node3 3.

Definition link0 := MkLink node0 (header 0 0) (GenesisHash p).
Definition link1 := MkLink node1 (header 1 0) (hash 1).
Definition link2 := MkLink node2 (header 2 1) (hash 2).
Definition link3 := MkLink node3 (header 3 2) (hash 3).

#[local] Notation history := (history rng_Int HashH 20 (fun n => n) p).

Lemma history0 : history ([link0], tx0).
Proof.
  eapply (history_init _ _ _ _ _ ∅ 1500000000); [vm_compute; reflexivity|].
  vm_compute. reflexivity.
Qed.

Lemma history1 : history ([link1; link0], tx1).
Proof.
  destruct connect1 as [r Hc]. eapply history_step; [exact history0|].
  eapply step_connect; cycle 3; [vm_compute; reflexivity|exact rules1|reflexivity|exact Hc].
Qed.
Lemma history2 : history ([link2; link1; link0], tx2).
Proof.
  destruct connect2 as [r Hc]. eapply history_step; [exact history1|].
  eapply step_connect; cycle 3; [vm_compute; reflexivity|exact rules2|reflexivity|exact Hc].
Qed.
Lemma history3 : history ([link3; link2; link1; link0], tx3).
Proof.
  destruct connect3 as [r Hc]. eapply history_step; [exact history2|].
  eapply step_connect; cycle 3; [vm_compute; reflexivity|exact rules3|reflexivity|exact Hc].
Qed.

Lemma genesis_hash : is_hash (GenesisHash p).
Proof. reflexivity. Qed.
Lemma fit3 : pools_fit (l_node link3).
Proof. unfold pools_fit. split; [|split]; vm_compute; reflexivity. Qed.
End SampleStore.

Lemma restart_restores_witness :
  exists node rng,
    LoadBestNode Sample.rng_Int Sample.HashH 20 SampleStore.tx3 (height (l_node SampleStore.link3))
      (keyHeight (l_node SampleStore.link3)) (l_hash SampleStore.link3) (l_header SampleStore.link3)
      Sample.p 5 = Ok (node, rng) /\
    node ≡ l_node SampleStore.link3.
Proof.
  exact (restart_restores Sample.rng_Int Sample.HashH 20 (fun n => n) Sample.p SampleStore.link3
    [SampleStore.link2; SampleStore.link1; SampleStore.link0] SampleStore.tx3 5
    Sample.params_sample SampleStore.genesis_hash SampleStore.history3 SampleStore.fit3).
Defined.

Lemma reorganize_restores_witness :
  exists node rng tx,
    disconnectNode Sample.rng_Int Sample.HashH 20 (Some (l_node SampleStore.link3))
      (l_header SampleStore.link2) None None (l_key SampleStore.link3) (Some SampleStore.tx3) 5 =
      Ok (node, rng) /\
    node ≡ l_node SampleStore.link2 /\
    WriteDisconnectedBestNode (fun n => n) SampleStore.tx3 node (l_hash SampleStore.link2)
      (databaseUndoUpdate (l_node SampleStore.link3)) = Ok tx /\
    synced tx node (l_hash SampleStore.link2) 0.
Proof.
  exact (reorganize_restores Sample.rng_Int Sample.HashH 20 (fun n => n) Sample.p SampleStore.link3
    SampleStore.link2 [SampleStore.link1; SampleStore.link0] SampleStore.tx3 5
    Sample.params_sample SampleStore.genesis_hash SampleStore.history3).
Defined.

Lemma connect_writes_witness :
  exists tx, WriteConnectedBestNode (fun n => n) SampleStore.tx3 Sample.node4 (SampleStore.hash 4) =
    Ok tx /\ synced tx Sample.node4 (SampleStore.hash 4)
      (keyHeight Sample.node4).
Proof.
  destruct Sample.connect4 as [r Hc].
  destruct (connect_writes Sample.rng_Int Sample.HashH 20 (fun n => n) Sample.p SampleStore.link3
    _ SampleStore.tx3 (Sample.header 4 3) (nextWinners Sample.node3) (nextWinners Sample.node2)
    [Sample.ticket 6] (SampleStore.hash 4) 0 Sample.node4 r Sample.params_sample
    SampleStore.genesis_hash SampleStore.history3 Sample.rules4 eq_refl Hc) as (tx & H1 & H2 & _).
  exists tx. split; [exact H1|exact H2].
Defined.

Lemma unwind_to_genesis_witness :
  exists node header tx,
    rtc (step Sample.rng_Int Sample.HashH 20 (fun n => n) Sample.p)
      ([SampleStore.link3; SampleStore.link2; SampleStore.link1; SampleStore.link0], SampleStore.tx3)
      ([MkLink node header (GenesisHash Sample.p)], tx) /\ node ≡ Sample.node0.
Proof.
  destruct (unwind_to_genesis Sample.rng_Int Sample.HashH 20 (fun n => n) Sample.p _ 5
    Sample.params_sample SampleStore.genesis_hash SampleStore.history3) as (n & h & t & H1 & H2 & _).
  exists n, h, t. split; [exact H1|exact H2].
Defined.
